(* ===== verification/_CoqProject ===== *)
-Q . S2P
Prelude.v
EarlyReturn.v
GoStrings.v
GoPath.v
GoCrypto.v
GoFloat.v
GoJSON.v
GoTime.v
GoURL.v
GoDuration.v
Dedup.v
GoSort.v
GoQuote.v
Macaroon.v
MacaroonFacts.v
MacaroonExamples.v
TokenStore.v
AuthProvider.v
TokenCache.v
Authz.v
AuthFacts.v
StreamLimiter.v
Broadcaster.v
Topology.v
Discovery.v
Changeset.v
KubeApi.v
AgentTask.v
ObjectApi.v
ResourceNames.v
EnvTypes.v
Config.v
DotDiverge.v
GroupTypes.v
WebhookTypes.v
Conditions.v
Resources.v
ResourceMessages.v
HookJobs.v
PreviewGroupController.v
PreviewGroupFacts.v
PreviewGroupLive.v
EnvStatus.v
EnvWorld.v
EnvDrift.v
EnvQuota.v
EnvProvision.v
EnvController.v
EnvScope.v
EnvTrace.v
EnvFacts.v
EnvDemo.v
AgentTaskPreview.v
AgentTaskService.v
ResourceService.v
AgentTaskServiceFacts.v
ResourceServiceFacts.v
ResourceServiceDemo.v
ResourceWatch.v
ResourceWatchFacts.v
ResourceLogs.v
SlashCommands.v
Cluster.v
Webhook.v
WebhookGitHub.v
WebhookGitLab.v
K8sNames.v
AgentTaskController.v
Admission.v
SlashCommandsFacts.v
WebhookFacts.v
AgentTaskFacts.v
TaskLifecycle.v
LlmMeter.v
TunnelLease.v
Tunnel.v
TunnelGC.v
TunnelStream.v
Replay.v
ReplayFacts.v
