(* ===== verification/Prelude.v ===== *)
(** * Diverge, verified

    Diverge runs preview environments for pull requests on Kubernetes and lets
    autonomous agents work in them.  This library models the parts of the Go
    program that decide something (who may do what, what state an object goes
    to, what is routed, compared or charged) as executable definitions, and
    proves what makes them right.  It has no axioms.

    ** The program's parts and how they meet

    - An environment, a preview group (environments of several services for
      one change) and an agent task are custom resources.  What is written is
      checked on _admission_ ([api/v1alpha1/*_webhook.go]).
    - The _environment controller_ ([internal/controller/environment_*.go])
      gives an environment its namespace, database, routes and deployment
      through providers, within the _quota_ of its namespace, and takes them
      down again; the _preview group controller_
      ([previewgroup_controller.go]) keeps one environment for each service of
      a group; both start _hook jobs_ ([hook_runner.go] and the runners).
    - The _agent task controller_ ([agenttask_controller.go]) takes a task
      through its phases, starts a sandbox, mints a _capability token_
      ([pkg/auth/macaroon.go]) and keeps it in a _token store_
      ([pkg/auth/store.go]), from which it is revoked when the task stops.
    - The sandbox and the users call the server.  The _middleware_ and the
      _providers_ of [internal/server/auth] authenticate them, with a cache;
      the _authorization_ of [internal/server/authz.go] confines them; the
      _environment_, _preview group_ and _task services_ ([environment.go],
      [previewgroup.go], [hooks.go], [agenttask.go]) and the _LLM meter_
      ([llm_meter.go]) act on the resources the controllers then read again.
    - A developer's machine serves a preview through a _tunnel_ ([tunnel.go]),
      owned across replicas by a _lease_ ([tunnel_lease.go]).
    - A _poller_ publishes what changes through a _broadcaster_ to the
      _watches_, within a _stream limiter_ ([internal/server/streaming],
      [stream_limiter.go]).
    - _Webhooks_ ([internal/webhook]) make environments and groups of pull
      requests, with the settings of a repository ([internal/config],
      [internal/deployer/config.go]); a comment is a _slash command_ on the
      same resources; deliveries are deduplicated.
    - The _service graph_ ([pkg/topology]) and _change detection_
      ([internal/changeset]) say what a preview must contain; the _replay
      comparison_ ([pkg/replay/diff.go]) says whether it still answers like the
      baseline.

    ** Files

    The language and its standard library (models, not mapped to the source):
    [GoStrings], [GoPath], [GoCrypto] (SHA-256, HMAC, base 64), [GoFloat]
    (parsing and printing of [float64]), [GoJSON], [GoTime] (instants, dates,
    RFC 3339), [GoURL], [GoDuration], [GoSort], [GoQuote]; [EarlyReturn] (the
    monad of functions with early returns, and its Hoare logic).

    - Credentials: [Macaroon] ([Mint], [Attenuate], [Verify],
      [VerifyAndExtract], model patterns), [MacaroonFacts] (an accepted token
      was issued under the root key and only narrowed since; the HMAC's
      unforgeability is the hypothesis that two chains with equal signatures
      are equal, on the tokens at hand), [MacaroonExamples]; [TokenStore] (the
      interface, its laws, the two stores); [AuthProvider], [TokenCache],
      [Authz], [AuthFacts] (from the request to the review).
    - The API server: [KubeApi] (optimistic concurrency, [RetryOnConflict]),
      [ObjectApi] (the calls on the objects of one kind, and a server),
      [AgentTask], [EnvTypes], [GroupTypes], [Conditions] and [Resources] (the
      resources and the objects around them), [ResourceNames] and [K8sNames]
      (generated names are DNS labels), [Admission].
    - Controllers: [HookJobs]; [PreviewGroupController],
      [PreviewGroupFacts], [PreviewGroupLive]; [EnvStatus] (phase, variables,
      cost), [EnvWorld] (the stores and the providers), [EnvDrift],
      [EnvQuota], [EnvProvision], [EnvController] ([Reconcile]), with
      [EnvScope], [EnvTrace] and [EnvFacts] on what a run touches, records,
      and does first and last, and [EnvDemo]; [AgentTaskPreview],
      [AgentTaskController], [AgentTaskFacts]; [TaskLifecycle] (service, meter
      and controller one after the other).
    - Services: [AgentTaskService] and [AgentTaskServiceFacts] (every RPC on
      tasks); [ResourceMessages] (resources and their messages),
      [ResourceService], [ResourceServiceFacts], [ResourceServiceDemo] (every
      RPC on environments, hooks and preview groups); [ResourceWatch],
      [ResourceWatchFacts] (the poller and the watches); [ResourceLogs] (the
      logs of an environment's pods); [LlmMeter].
    - Streams: [StreamLimiter], [Broadcaster] (executions are sequences of the
      critical sections of all goroutines); [TunnelLease] (machines of single
      API calls, fencing), [Tunnel], [TunnelStream] (interleaved goroutines of
      one tunnel), [TunnelGC].
    - Webhooks: [WebhookTypes], [Dedup], [Config], [DotDiverge],
      [SlashCommands], [SlashCommandsFacts], [Cluster] (the commands' view of
      the API server, discharged by it), [Webhook], [WebhookGitHub],
      [WebhookGitLab], [WebhookFacts].
    - Previews: [Topology], [Discovery], [Changeset], [Replay], [ReplayFacts].

    State and operations correspond by name: a definition has the name of the
    Go function or method it translates, a record the name of the struct; a
    handler takes the state of the stores it acts on and returns it with its
    result, its audit events and its notifications.  The services of
    environments and preview groups are one set of handlers over a record of
    what differs ([ResourceService.Kind]), as the two files differ in no more.

    ** Conventions

    Strings and byte slices are lists of bytes; [int], [int64] and [int32] are
    [Z] with the wrap-around written where the code can overflow ([wrap64],
    [wrap32]); [error] is [result] with the errors the callers tell apart;
    an order that Go leaves open (map iteration, an unstable sort) is an
    argument or a class, so the theorems hold for every order.  Time and
    randomness are arguments.  A resource version is a number, the empty one
    zero.

    Fuel is used where Go recurses or loops on a measure, and is always the
    length of the remaining input plus one (parsers, frames, patterns), the
    number of bits of a number (digits), the nesting limit of
    [encoding/json], or the number of nodes plus one (graph searches: a search
    never enters a node twice).  [ReplayFacts.replay_loops_end],
    [Topology.AllIngressPaths_complete] and the round trips prove that it
    is enough where a result depends on it.

    ** Code that is not in the repository

    Each is a class whose fields are the calls the program makes; its laws,
    where a theorem needs them, are the documented behaviour, and a concrete
    instance satisfies them.  The API server: [SecretClient], [KubeClient],
    [KubeLister], [TaskClient], [TaskAdmin], [TaskUpsert], [EnvClient],
    [ObjectApi], [UpsertApi], [PageApi] (lists in pages); [CmdCluster] is the
    commands' interface to it, and [Retry] is client-go's.  The laws are those
    of a single object store: an update with an old resource version is
    refused, a status update changes nothing but the status.  Apimachinery:
    [ConditionOps], [QuantityOps], [LabelSyntax].  Protobuf: [ProtoWire],
    [Codec], [EnvMessage], [GroupMessage].  Tables of the standard library:
    [GoUnicode], [GoUpper], [GoNetip].  Orders: [MapOrder], [KnownOrder],
    [AgeOrder], [JobOrder].  What the webhooks call outside is a record of
    functions in [Webhook].  Sandbox providers, access reviews, YAML decoding,
    git and Prometheus are arguments.

    ** What the theorems show

    - Credentials: [capability_confined], [VerifyAndExtract_bound],
      [revoked_cannot_authenticate], [stopped_task_has_no_token],
      [token_reads_own_task], [pause_revokes_token], [deletion_cleans_up].
    - What users may touch: [environment_writes_authorized],
      [environment_reads_authorized], [group_services_authorized],
      [watch_sends_what_is_authorized], [github_signature_required],
      [github_comment_confined], [command_confined], [foreign_secret_refused],
      [admitted_environments].
    - What controllers touch: [run_stays_in_namespace], [group_confined],
      [migrations_stay_in_namespace], [finalizer_kept_until_torn_down],
      [group_released_after_children]; and what they reach: [group_converges],
      [expired_group_deleted], [running_is_provisioned].
    - Budgets and quotas: [meter_enforces_budget], [meter_suspends],
      [charge_once], [quota_respected], [watch_slots_balance],
      [limiter_balanced].
    - What a request does, exactly: [extend_ttl_exact],
      [environment_update_exact], [retry_hook_exact], [pull_request_outcome],
      [resume_exact].
    - Concurrency: [lease_fencing], [tunnel_handover], [broadcaster_no_panic],
      [publish_progress], [no_cross_delivery],
      [poller_events_follow_listings], [logs_sent_in_order],
      [log_stream_ends].
    - Equivalence with a specification ([diff_json_compatible],
      [matchServicesToFiles_spec], [memory_refines], [Resolve_texts]), round
      trips, bounds and termination.

    A few theorems record what the code does against its intention; they are
    the findings of the manifest.

    ** Not modelled

    - Text of log lines and metrics, HTTP plumbing, YAML decoding, generated
      code, the command line client and the assembly of the programs.
    - The providers behind the controllers' interfaces (deployers, routes,
      sandboxes, databases, queues, notifiers, feature flags): construction of
      third-party objects and calls of third-party services; the interfaces
      are modelled, with implementations that may do anything or fail.
    - Sessions and the OAuth exchanges, whose secrecy is that of third-party
      libraries; the preview proxy, whose work is done by [net/http]; the
      agent runner, the loop inside the sandbox around tools and language
      models; the replay runner and the SDK, which pass requests on.
    - In the modelled files: the polling goroutine and singleflight of the
      topology cache, the ticker of the poller, timeouts, client construction, the scheduling of the controller runtime (a run of
      [Reconcile] is one function; runs of one object do not overlap), and the
      comparison of Protobuf messages through reflection. *)

From Stdlib Require Export ZArith Lia Ascii.
From stdpp Require Export prelude gmap fin_maps strings.
From Stdlib Require String.

#[global] Set Default Proof Using "Type".

(** ** Go strings and byte slices

    A Go [string] and a Go [[]byte] are both a finite sequence of bytes: the
    development uses [list ascii] for both, so that the list lemmas of stdpp
    ([take], [drop], [prefix_of], ...) apply.  [#"abc"] is the literal. *)
Abbreviation gostring := (list ascii).

Definition lit (s : string) : gostring := String.list_ascii_of_string s.
Arguments lit : simpl never.

Notation "# s" := (lit s%string) (at level 1, format "# s") : stdpp_scope.

(** The value of a byte. *)
Definition byteval (c : ascii) : Z := Z.of_N (N_of_ascii c).
Definition byte_of_Z (z : Z) : ascii := ascii_of_N (Z.to_N (z mod 256)).

(** ** Results of fallible Go functions: [(T, error)] *)
Inductive result (E A : Type) : Type :=
| Ok (a : A)
| Err (e : E).
Arguments Ok {E A} a.
Arguments Err {E A} e.

#[global] Instance result_ret {E} : MRet (result E) := fun A a => Ok a.
#[global] Instance result_bind {E} : MBind (result E) := fun A B f m =>
  match m with Ok a => f a | Err e => Err e end.
#[global] Instance result_fmap {E} : FMap (result E) := fun A B f m =>
  match m with Ok a => Ok (f a) | Err e => Err e end.

Definition is_ok {E A} (r : result E A) : bool :=
  match r with Ok _ => true | Err _ => false end.

(** [if !ok { return e }] *)
Definition check {E} (ok : bool) (e : E) : result E unit := if ok then Ok tt else Err e.

(** ** Lemmas on results *)
Lemma bind_Ok {E A B} (m : result E A) (f : A -> result E B) b :
  (m ≫= f) = Ok b <-> exists a, m = Ok a /\ f a = Ok b.
Proof.
  destruct m as [a|e]; cbn; split.
  - eauto.
  - by intros (? & [= <-] & ?).
  - done.
  - by intros (? & ? & ?).
Qed.

Lemma Ok_inj {E A} (a b : A) : @Ok E A a = Ok b -> a = b.
Proof. congruence. Qed.

Lemma check_Ok {E} b (e : E) u : check b e = Ok u <-> b = true.
Proof. destruct b, u; cbn; split; congruence. Qed.

Lemma bind_assoc {E A B C} (m : result E A) (f : A -> result E B) (g : B -> result E C) :
  (m ≫= f) ≫= g = m ≫= (fun a => f a ≫= g).
Proof. by destruct m. Qed.

Lemma bind_check_true {E A} (e : E) (k : unit -> result E A) : (check true e ≫= k) = k tt.
Proof. done. Qed.

(** ** Automation *)

(** Turn boolean tests of the code into the propositions they decide. *)
Ltac bool_simpl :=
  repeat match goal with
  | H : context [bool_decide (?P)] |- _ =>
      first [ rewrite (bool_decide_eq_true_2 P) in H by done
            | rewrite (bool_decide_eq_false_2 P) in H by done ]
  | H : bool_decide _ = true |- _ => apply bool_decide_eq_true in H
  | H : bool_decide _ = false |- _ => apply bool_decide_eq_false in H
  | H : (_ && _) = true |- _ => apply andb_true_iff in H as [? ?]
  | H : (_ || _) = false |- _ => apply orb_false_iff in H as [? ?]
  | H : (_ && _) = false |- _ => apply andb_false_iff in H
  | H : (_ || _) = true |- _ => apply orb_true_iff in H
  | H : negb _ = true |- _ => apply negb_true_iff in H
  | H : negb _ = false |- _ => apply negb_false_iff in H
  | H : (_ <=? _)%Z = true |- _ => apply Z.leb_le in H
  | H : (_ <=? _)%Z = false |- _ => apply Z.leb_gt in H
  | H : (_ <? _)%Z = true |- _ => apply Z.ltb_lt in H
  | H : (_ <? _)%Z = false |- _ => apply Z.ltb_ge in H
  | H : (_ =? _)%Z = true |- _ => apply Z.eqb_eq in H
  | H : (_ =? _)%Z = false |- _ => apply Z.eqb_neq in H
  | H : (_ <=? _)%nat = true |- _ => apply Nat.leb_le in H
  | H : (_ <=? _)%nat = false |- _ => apply Nat.leb_gt in H
  | H : (_ <? _)%nat = true |- _ => apply Nat.ltb_lt in H
  | H : (_ <? _)%nat = false |- _ => apply Nat.ltb_ge in H
  | H : (_ =? _)%nat = true |- _ => apply Nat.eqb_eq in H
  | H : (_ =? _)%nat = false |- _ => apply Nat.eqb_neq in H
  end.

(** Take apart a successful monadic computation in the context. *)
Ltac inv_ok :=
  repeat match goal with
  | H : (_ ≫= _) = Ok _ |- _ =>
      let x := fresh "r" in let H1 := fresh "Hr" in
      apply bind_Ok in H as (x & H1 & H)
  | H : check _ _ = Ok ?u |- _ => apply check_Ok in H; try clear u
  | H : Ok _ = Ok _ |- _ => apply Ok_inj in H
  | H : Err _ = Ok _ |- _ => discriminate H
  | H : Ok _ = Err _ |- _ => discriminate H
  end.

Create HintDb diverge discriminated.
Create Rewrite HintDb diverge.
#[export] Hint Rewrite @bind_check_true @bind_assoc : diverge.
