(* ===== verification/EarlyReturn.v ===== *)
(** * Computations with early returns

    The reconcilers are long functions that return from the middle: a
    computation over a state ends with [inl] of what the function returns, or
    goes on with [inr] of a value.  [triple] is the Hoare logic of such
    computations, with one postcondition for each way to end. *)

From S2P Require Import Prelude.

Section Monad.
(** What the function returns, and the state. *)
Context {O W : Type}.
Definition run (A : Type) : Type := W -> (O + A) * W.
Definition ret {A} (a : A) : run A := fun w => (inr a, w).
Definition bind {A X} (m : run A) (f : A -> run X) : run X := fun w =>
  match m w with
  | (inr a, w1) => f a w1
  | (inl o, w1) => (inl o, w1)
  end.
Definition finish {A} (o : O) : run A := fun w => (inl o, w).
Definition when (b : bool) (m : run unit) : run unit := if b then m else ret tt.
(** [for _, x := range l { ... }] *)
Fixpoint each {X} (f : X -> run unit) (l : list X) : run unit :=
  match l with
  | [] => ret tt
  | x :: l => bind (f x) (fun _ => each f l)
  end.
(** A call on the state. *)
Definition on {A} (f : W -> A * W) : run A := fun w => let '(a, w1) := f w in (inr a, w1).
Definition read : run W := fun w => (inr w, w).
Definition modify (f : W -> W) : run unit := fun w => (inr tt, f w).
(** [defer]: [f] runs when [m] has ended, however it ended. *)
Definition deferred {A} (f : run unit) (m : run A) : run A := fun w => let '(x, w1) := m w in (x, snd (f w1)).
(** The body of a function whose every path returns. *)
Definition returned (m : run O) : W -> O * W := fun w =>
  match m w with (inr o, w1) | (inl o, w1) => (o, w1) end.
End Monad.
Arguments run : clear implicits.

(** ** Reconcilers: [ctrl.Result], in nanoseconds, and the error *)
Record outcome (E : Type) := mkOutcome { RequeueAfter : Z; failure : option E }.
Arguments mkOutcome {E}. Arguments RequeueAfter {E}. Arguments failure {E}.
Section Outcomes.
Context {E W A : Type}.
Definition done : run (outcome E) W A := finish (mkOutcome 0 None).
(** [return ctrl.Result{RequeueAfter: d}, nil] *)
Definition requeue (d : Z) : run (outcome E) W A := finish (mkOutcome d None).
Definition fail (e : E) : run (outcome E) W A := finish (mkOutcome 0 (Some e)).
End Outcomes.

Notation "'let!' x ':=' m 'in' k" := (bind m (fun x => k)) (at level 10, x pattern, m at level 100, k at level 200).
Notation "'do!' m 'in' k" := (bind m (fun _ => k)) (at level 10, m at level 100, k at level 200).

Section Triples.
Context {O W : Type}.
(** [m] started in a world of [P] goes on with a value and a world of [R], or
    returns an outcome in a world of [F]. *)
Definition triple {A} (P : W -> Prop) (m : run O W A) (R : A -> W -> Prop) (F : O -> W -> Prop) : Prop :=
  forall w, P w -> match m w with (inr a, w') => R a w' | (inl o, w') => F o w' end.

Lemma triple_bind {A X} P (m : run O W A) (f : A -> run O W X) R R' F :
  triple P m R F -> (forall a, triple (R a) (f a) R' F) -> triple P (bind m f) R' F.
Proof. intros Hm Hf w Hw. unfold bind. specialize (Hm w Hw). destruct (m w) as [[o|a] w1]; [done|]. by apply Hf. Qed.
Lemma triple_mono {A} (P P' : W -> Prop) (m : run O W A) (R R' : A -> W -> Prop) (F F' : O -> W -> Prop) :
  triple P m R F -> (forall w, P' w -> P w) -> (forall a w, R a w -> R' a w) -> (forall o w, F o w -> F' o w) ->
  triple P' m R' F'.
Proof. intros Hm HP HR HF w Hw. specialize (Hm w (HP w Hw)). destruct (m w) as [[o|a] w1]; auto. Qed.
Lemma triple_ret {A} (P : W -> Prop) (a : A) (R : A -> W -> Prop) F : (forall w, P w -> R a w) -> triple P (ret a) R F.
Proof. intros H w. apply H. Qed.
Lemma triple_finish {A} (P : W -> Prop) o (R : A -> W -> Prop) (F : O -> W -> Prop) :
  (forall w, P w -> F o w) -> triple P (finish o) R F.
Proof. intros H w. apply H. Qed.
Lemma triple_pure {A} (Q : Prop) (P : W -> Prop) (m : run O W A) R F :
  (Q -> triple P m R F) -> triple (fun w => P w /\ Q) m R F.
Proof. intros H w [Hw HQ]. by apply (H HQ). Qed.
Lemma triple_on {A} (P : W -> Prop) (f : W -> A * W) (R : A -> W -> Prop) F :
  (forall w a w', P w -> f w = (a, w') -> R a w') -> triple P (on f) R F.
Proof. intros H w Hw. unfold on. destruct (f w) eqn:Ef. by eapply H. Qed.
Lemma triple_modify (P : W -> Prop) f (R : unit -> W -> Prop) F : (forall w, P w -> R tt (f w)) -> triple P (modify f) R F.
Proof. intros H w. apply H. Qed.
Lemma triple_read (P : W -> Prop) (R : W -> W -> Prop) F : (forall w, P w -> R w w) -> triple P read R F.
Proof. intros H w. apply H. Qed.
Lemma triple_when (P : W -> Prop) b (m : run O W unit) F :
  triple P m (fun _ => P) F -> triple P (when b m) (fun _ => P) F.
Proof. intros H. destruct b; [exact H|]. by apply triple_ret. Qed.
Lemma triple_each {X} (P : W -> Prop) (f : X -> run O W unit) l F :
  (forall x, x ∈ l -> triple P (f x) (fun _ => P) F) -> triple P (each f l) (fun _ => P) F.
Proof.
  induction l as [|x l IH]; intros H; [by apply triple_ret|]. apply (triple_bind _ _ _ (fun _ => P)); [apply H; by left|].
  intros _. apply IH. intros y Hy. apply H. by right.
Qed.
Lemma triple_returned (P : W -> Prop) (m : run O W O) (Q : O -> W -> Prop) :
  triple P m Q Q -> forall w, P w -> Q (fst (returned m w)) (snd (returned m w)).
Proof. intros H w Hw. specialize (H w Hw). unfold returned. by destruct (m w) as [[o|o] w1]. Qed.

(** The first step's result decides. *)
Lemma bind_inl {A X} (m : run O W A) (f : A -> run O W X) o w w1 : m w = (inl o, w1) -> bind m f w = (inl o, w1).
Proof. unfold bind. by intros ->. Qed.
Lemma bind_inr {A X} (m : run O W A) (f : A -> run O W X) a w w1 : m w = (inr a, w1) -> bind m f w = f a w1.
Proof. unfold bind. by intros ->. Qed.

Lemma bind_gives {A X} (m : run O W A) (f : A -> run O W X) x w w' : bind m f w = (inr x, w') ->
  exists a w1, m w = (inr a, w1) /\ f a w1 = (inr x, w').
Proof. unfold bind. destruct (m w) as [[o|a] w1]; [done|]. eauto. Qed.
Lemma on_gives {A} (f : W -> A * W) x w w' : on (O := O) f w = (inr x, w') -> f w = (x, w').
Proof. unfold on. destruct (f w) as [a w1]. by intros [= -> ->]. Qed.

(** [m] leaves what [f] reads of the state. *)
Definition leaves_of {A X} (f : W -> X) (m : run O W A) : Prop := forall w, f (snd (m w)) = f w.
Lemma leaves_of_ret {A X} (f : W -> X) (a : A) : leaves_of f (ret a).
Proof. done. Qed.
Lemma leaves_of_finish {A X} (f : W -> X) o : leaves_of f (finish (A := A) o).
Proof. done. Qed.
Lemma leaves_of_read {X} (f : W -> X) : leaves_of f read.
Proof. done. Qed.
Lemma leaves_of_bind {A B X} (f : W -> X) (m : run O W A) (g : A -> run O W B) :
  leaves_of f m -> (forall a, leaves_of f (g a)) -> leaves_of f (bind m g).
Proof. intros Hm Hg w. unfold bind. specialize (Hm w). destruct (m w) as [[o|a] w1]; cbn in *; [done|]. by rewrite Hg. Qed.
(** The same, knowing what [m] gives. *)
Lemma leaves_of_bind_run {A B X} (f : W -> X) (m : run O W A) (g : A -> run O W B) :
  leaves_of f m -> (forall w a w', m w = (inr a, w') -> leaves_of f (g a)) -> leaves_of f (bind m g).
Proof.
  intros Hm Hg w. unfold bind. specialize (Hm w). destruct (m w) as [[o|a] w1] eqn:E; cbn in *; [done|]. by rewrite (Hg _ _ _ E).
Qed.
Lemma leaves_of_returned {X} (f : W -> X) (m : run O W O) w : leaves_of f m -> f (snd (returned m w)) = f w.
Proof. intros Hm. specialize (Hm w). unfold returned. by destruct (m w) as [[o|o] w1]. Qed.
Lemma leaves_of_on {A X} (f : W -> X) (g : W -> A * W) : (forall w, f (snd (g w)) = f w) -> leaves_of f (on g).
Proof. intros H w. unfold on. specialize (H w). by destruct (g w). Qed.
Lemma leaves_of_modify {X} (f : W -> X) g : (forall w, f (g w) = f w) -> leaves_of f (modify g).
Proof. intros H w. apply H. Qed.
Lemma leaves_of_when {X} (f : W -> X) b m : leaves_of f m -> leaves_of f (when b m).
Proof. by destruct b. Qed.
Lemma leaves_of_each {X Y} (f : W -> X) (g : Y -> run O W unit) l : (forall y, leaves_of f (g y)) -> leaves_of f (each g l).
Proof. intros H. induction l as [|y l IH]; [done|]. apply leaves_of_bind; [apply H|]. by intros _. Qed.
Lemma leaves_of_deferred {A X} (f : W -> X) (d : run O W unit) (m : run O W A) : leaves_of f d -> leaves_of f m -> leaves_of f (deferred d m).
Proof. intros Hd Hm w. unfold deferred. specialize (Hm w). destruct (m w) as [x w1]. cbn in *. by rewrite (Hd w1). Qed.
Lemma triple_deferred {A} (P : W -> Prop) (d : run O W unit) (m : run O W A) R F :
  triple P m R F -> (forall a, triple (R a) d (fun _ => R a) (fun _ => R a)) -> (forall o, triple (F o) d (fun _ => F o) (fun _ => F o)) ->
  triple P (deferred d m) R F.
Proof.
  intros Hm Hr Hf w Hw. unfold deferred. specialize (Hm w Hw). destruct (m w) as [[o|a] w1]; cbn.
  - specialize (Hf o w1 Hm). by destruct (d w1) as [[?|?] w2].
  - specialize (Hr a w1 Hm). by destruct (d w1) as [[?|?] w2].
Qed.
(** What is left alone still holds. *)
Lemma triple_leaves {A X} (f : W -> X) (m : run O W A) (P : X -> Prop) : leaves_of f m ->
  triple (fun w => P (f w)) m (fun _ w => P (f w)) (fun _ w => P (f w)).
Proof. intros Hm w Hw. specialize (Hm w). destruct (m w) as [[o|a] w1]; cbn in *; by rewrite Hm. Qed.
Lemma triple_frame {A X} (f : W -> X) (m : run O W A) (P : W -> Prop) (Q : X -> Prop) R F : leaves_of f m -> triple P m R F ->
  triple (fun w => P w /\ Q (f w)) m (fun a w => R a w /\ Q (f w)) (fun o w => F o w /\ Q (f w)).
Proof.
  intros Hl Hm w [Hw Hq]. specialize (Hl w). specialize (Hm w Hw). destruct (m w) as [[o|a] w1]; cbn in *; by rewrite Hl.
Qed.
Lemma triple_true {A} (m : run O W A) : triple (fun _ => True) m (fun _ _ => True) (fun _ _ => True).
Proof. intros w _. by destruct (m w) as [[o|a] w1]. Qed.
End Triples.

Create HintDb leaves.
#[export] Hint Resolve leaves_of_ret leaves_of_finish leaves_of_read leaves_of_when leaves_of_each leaves_of_deferred : leaves.
#[export] Hint Resolve leaves_of_bind | 10 : leaves.
#[export] Hint Extern 4 (forall _, leaves_of _ _) => intros ? : leaves.
#[export] Hint Extern 5 (leaves_of _ (match ?x with _ => _ end)) => destruct x : leaves.
