(* ===== verification/GoStrings.v ===== *)
(** * The parts of Go's [strings], [bytes], [strconv], [sort] and
    [unicode/utf8] the repository uses

    These are models of the language's standard library, not of the
    repository: they are written out so that every definition that calls
    them stays executable. *)

From S2P Require Import Prelude.

(** ** Byte classes *)
Definition in_range (lo hi : Z) (c : ascii) : bool :=
  (lo <=? byteval c)%Z && (byteval c <=? hi)%Z.

Definition is_digit : ascii -> bool := in_range 48 57.
Definition is_upper : ascii -> bool := in_range 65 90.
Definition is_lower : ascii -> bool := in_range 97 122.
Definition is_ascii_byte (c : ascii) : bool := (byteval c <? 128)%Z.
(** '\t', '\n', '\v', '\f', '\r' and ' ' *)
Definition is_ascii_space (c : ascii) : bool :=
  in_range 9 13 c || (byteval c =? 32)%Z.

(** ** Comparison: Go compares strings bytewise *)
Fixpoint str_compare (s t : gostring) : comparison :=
  match s, t with
  | [], [] => Eq
  | [], _ :: _ => Lt
  | _ :: _, [] => Gt
  | a :: s', b :: t' =>
      match (byteval a ?= byteval b)%Z with
      | Eq => str_compare s' t'
      | c => c
      end
  end.
Definition str_ltb (s t : gostring) : bool :=
  match str_compare s t with Lt => true | _ => false end.
Definition str_leb (s t : gostring) : bool := negb (str_ltb t s).
Definition str_eqb (s t : gostring) : bool := bool_decide (s = t).

(** ** Prefixes, suffixes, search *)
Fixpoint HasPrefix (s p : gostring) {struct p} : bool :=
  match p, s with
  | [], _ => true
  | a :: p', b :: s' => bool_decide (a = b) && HasPrefix s' p'
  | _ :: _, [] => false
  end.
Definition HasSuffix (s p : gostring) : bool :=
  bool_decide (length p <= length s) &&
  bool_decide (drop (length s - length p) s = p).
Definition TrimPrefix (s p : gostring) : gostring :=
  if HasPrefix s p then drop (length p) s else s.
Definition TrimSuffix (s p : gostring) : gostring :=
  if HasSuffix s p then take (length s - length p) s else s.
Definition CutSuffix (s p : gostring) : gostring * bool :=
  if HasSuffix s p then (take (length s - length p) s, true) else (s, false).
Fixpoint Contains (s p : gostring) : bool :=
  HasPrefix s p || match s with [] => false | _ :: s' => Contains s' p end.
Definition ContainsAny (s chars : gostring) : bool :=
  existsb (fun c => bool_decide (c ∈ chars)) s.
(** [IndexByte]: [None] is Go's -1. *)
Fixpoint IndexByte (s : gostring) (c : ascii) : option nat :=
  match s with
  | [] => None
  | a :: s' => if decide (a = c) then Some 0 else S <$> IndexByte s' c
  end.

(** ** Splitting and joining on a one-byte separator *)
Fixpoint Split (s : gostring) (sep : ascii) : list gostring :=
  match s with
  | [] => [[]]
  | a :: s' =>
      if decide (a = sep) then [] :: Split s' sep
      else match Split s' sep with
           | [] => [[a]]
           | w :: ws => (a :: w) :: ws
           end
  end.
(** [SplitN s sep 2] (and [strings.Cut]): before and after the first
    separator, if there is one. *)
Fixpoint Cut (s : gostring) (sep : ascii) : option (gostring * gostring) :=
  match s with
  | [] => None
  | a :: s' =>
      if decide (a = sep) then Some ([], s')
      else match Cut s' sep with
           | None => None
           | Some (l, r) => Some (a :: l, r)
           end
  end.
Fixpoint Join (l : list gostring) (sep : gostring) : gostring :=
  match l with
  | [] => []
  | [w] => w
  | w :: ws => w ++ sep ++ Join ws sep
  end.

(** ** Trimming *)
Fixpoint trim_left_while (f : ascii -> bool) (s : gostring) : gostring :=
  match s with
  | [] => []
  | a :: s' => if f a then trim_left_while f s' else s
  end.
(** [strings.TrimLeft], [TrimRight] and [Trim] with an ASCII cutset. *)
Definition in_cutset (cut : gostring) (c : ascii) : bool := bool_decide (c ∈ cut).
Definition TrimLeft (s cut : gostring) : gostring := trim_left_while (in_cutset cut) s.
Definition TrimRight (s cut : gostring) : gostring :=
  reverse (trim_left_while (in_cutset cut) (reverse s)).
Definition Trim (s cut : gostring) : gostring := TrimRight (TrimLeft s cut) cut.

(** White space of [unicode.IsSpace] outside ASCII, as UTF-8: U+0085, U+00A0,
    U+1680, U+2000-U+200A, U+2028, U+2029, U+202F, U+205F, U+3000. *)
Definition is_space2 (a b : ascii) : bool :=
  (byteval a =? 194)%Z && ((byteval b =? 133)%Z || (byteval b =? 160)%Z).
Definition is_space3 (a b c : ascii) : bool :=
  match byteval a, byteval b, byteval c with
  | 225, 154, 128 => true
  | 226, 128, z => ((128 <=? z) && (z <=? 138)) || (z =? 168) || (z =? 169) || (z =? 175)
  | 226, 129, 159 => true
  | 227, 128, 128 => true
  | _, _, _ => false
  end%Z.
Fixpoint trim_space_left (s : gostring) : gostring :=
  match s with
  | [] => []
  | a :: s1 =>
      if is_ascii_space a then trim_space_left s1
      else match s1 with
           | [] => s
           | b :: s2 =>
               if is_space2 a b then trim_space_left s2
               else match s2 with
                    | [] => s
                    | c :: s3 => if is_space3 a b c then trim_space_left s3 else s
                    end
           end
  end.
(** The same from the right, on the reversed string. *)
Fixpoint trim_space_rev (s : gostring) : gostring :=
  match s with
  | [] => []
  | a :: s1 =>
      if is_ascii_space a then trim_space_rev s1
      else match s1 with
           | [] => s
           | b :: s2 =>
               if is_space2 b a then trim_space_rev s2
               else match s2 with
                    | [] => s
                    | c :: s3 => if is_space3 c b a then trim_space_rev s3 else s
                    end
           end
  end.
Definition TrimSpace (s : gostring) : gostring :=
  reverse (trim_space_rev (reverse (trim_space_left s))).

(** [strings.Fields]: maximal runs of non-space bytes.  [acc] is the current
    field, reversed. *)
Fixpoint fields_go (fuel : nat) (s acc : gostring) : list gostring :=
  let emit rest := match acc with [] => rest | _ => reverse acc :: rest end in
  match fuel with
  | O => emit []
  | S fuel =>
      match s with
      | [] => emit []
      | a :: s1 =>
          if is_ascii_space a then emit (fields_go fuel s1 [])
          else match s1 with
               | b :: s2 =>
                   if is_space2 a b then emit (fields_go fuel s2 [])
                   else match s2 with
                        | c :: s3 =>
                            if is_space3 a b c then emit (fields_go fuel s3 [])
                            else fields_go fuel s1 (a :: acc)
                        | [] => fields_go fuel s1 (a :: acc)
                        end
               | [] => fields_go fuel s1 (a :: acc)
               end
      end
  end.
Definition Fields (s : gostring) : list gostring := fields_go (S (length s)) s [].

(** ** Case mapping

    Go maps ASCII strings bytewise and consults the Unicode tables of the
    [unicode] package for the rest: the tables are an argument of the model,
    the ASCII path is written out. *)
Class GoUnicode := {
  unicode_to_lower : gostring -> gostring;
  unicode_equal_fold : gostring -> gostring -> bool;
  (** [strconv.IsPrint] above ASCII *)
  unicode_is_print : Z -> bool }.

Definition lower_byte (c : ascii) : ascii :=
  if is_upper c then byte_of_Z (byteval c + 32) else c.
Definition is_ascii_string (s : gostring) : bool := forallb is_ascii_byte s.

Section Unicode.
Context {U : GoUnicode}.

Definition ToLower (s : gostring) : gostring :=
  if is_ascii_string s then map lower_byte s else unicode_to_lower s.

Definition EqualFold (s t : gostring) : bool :=
  if is_ascii_string s && is_ascii_string t
  then bool_decide (map lower_byte s = map lower_byte t)
  else unicode_equal_fold s t.
End Unicode.

(** A concrete choice of tables for the witnesses: nothing above ASCII has
    case, everything above ASCII prints. *)
Definition ascii_unicode : GoUnicode :=
  {| unicode_to_lower := fun s => s;
     unicode_equal_fold := fun s t => bool_decide (s = t);
     unicode_is_print := fun _ => true |}.

(** ** Decimal integers *)
Definition digit_char (d : Z) : ascii := byte_of_Z (48 + d).
Fixpoint digits_go (fuel : nat) (n : Z) (acc : gostring) : gostring :=
  match fuel with
  | O => acc
  | S fuel =>
      let acc := digit_char (n mod 10) :: acc in
      if (n / 10 =? 0)%Z then acc else digits_go fuel (n / 10) acc
  end.
(** Digits of a non-negative number; the fuel is its bit length, at least the
    number of decimal digits. *)
Definition FormatUint (n : Z) : gostring := digits_go (S (Z.to_nat (Z.log2 n))) n [].
Definition FormatInt (n : Z) : gostring :=
  if (n <? 0)%Z then #"-" ++ FormatUint (- n) else FormatUint n.
Definition Itoa : Z -> gostring := FormatInt.

Fixpoint digits_value (s : gostring) (acc : Z) : option Z :=
  match s with
  | [] => Some acc
  | c :: s' => if is_digit c then digits_value s' (acc * 10 + (byteval c - 48))%Z else None
  end.
(** [strconv.ParseInt s 10 64]: [None] is any error. *)
Definition ParseInt (s : gostring) : option Z :=
  let '(neg, ds) := match s with
                    | c :: s' => if decide (c = "-"%char) then (true, s')
                                 else if decide (c = "+"%char) then (false, s') else (false, s)
                    | [] => (false, [])
                    end in
  match ds with
  | [] => None
  | _ =>
      n ← digits_value ds 0;
      let v := if neg : bool then (- n)%Z else n in
      if ((- 2 ^ 63 <=? v) && (v <=? 2 ^ 63 - 1))%Z then Some v else None
  end.
(** [strconv.Atoi] on a 64-bit platform. *)
Definition Atoi : gostring -> option Z := ParseInt.

(** ** Hexadecimal *)
Definition hex_char (d : Z) : ascii :=
  if (d <? 10)%Z then byte_of_Z (48 + d) else byte_of_Z (87 + d).
Definition hex_encode_byte (c : ascii) : gostring :=
  [hex_char (byteval c / 16); hex_char (byteval c mod 16)].
(** [hex.EncodeToString] *)
Definition hex_encode (s : gostring) : gostring := s ≫= hex_encode_byte.
Definition hex_digit (c : ascii) : option Z :=
  if is_digit c then Some (byteval c - 48)%Z
  else if in_range 97 102 c then Some (byteval c - 87)%Z
  else if in_range 65 70 c then Some (byteval c - 55)%Z
  else None.
(** [hex.DecodeString] *)
Fixpoint hex_decode (s : gostring) : option gostring :=
  match s with
  | [] => Some []
  | [_] => None
  | a :: b :: s' =>
      x ← hex_digit a; y ← hex_digit b; r ← hex_decode s';
      Some (byte_of_Z (x * 16 + y) :: r)
  end.

(** ** [utf8.DecodeRune]: the first rune and its width *)
Definition RuneError : Z := 65533.
Definition cont_in (lo hi : Z) (c : ascii) : bool := in_range lo hi c.
Definition decode_rune (s : gostring) : Z * nat :=
  match s with
  | [] => (RuneError, 0)
  | a :: s1 =>
      let x := byteval a in
      if (x <? 128)%Z then (x, 1)
      else match s1 with
      | [] => (RuneError, 1)
      | b :: s2 =>
          let y := byteval b in
          if ((194 <=? x) && (x <=? 223))%Z then
            if cont_in 128 191 b then (((x - 192) * 64 + (y - 128))%Z, 2) else (RuneError, 1)
          else if ((224 <=? x) && (x <=? 239))%Z then
            let lo := if (x =? 224)%Z then 160%Z else 128%Z in
            let hi := if (x =? 237)%Z then 159%Z else 191%Z in
            match s2 with
            | c :: _ =>
                if cont_in lo hi b && cont_in 128 191 c
                then (((x - 224) * 4096 + (y - 128) * 64 + (byteval c - 128))%Z, 3)
                else (RuneError, 1)
            | [] => (RuneError, 1)
            end
          else if ((240 <=? x) && (x <=? 244))%Z then
            let lo := if (x =? 240)%Z then 144%Z else 128%Z in
            let hi := if (x =? 244)%Z then 143%Z else 191%Z in
            match s2 with
            | c :: d :: _ =>
                if cont_in lo hi b && cont_in 128 191 c && cont_in 128 191 d
                then (((x - 240) * 262144 + (y - 128) * 4096 + (byteval c - 128) * 64 + (byteval d - 128))%Z, 4)
                else (RuneError, 1)
            | _ => (RuneError, 1)
            end
          else (RuneError, 1)
      end
  end.

#[global] Arguments is_ascii_space : simpl never.
#[global] Arguments is_space2 : simpl never.
#[global] Arguments is_space3 : simpl never.
#[global] Arguments byteval : simpl never.
#[global] Arguments byte_of_Z : simpl never.
#[global] Arguments in_range : simpl never.

(** * Lemmas *)

(** ** Bytes *)
Lemma byteval_range c : (0 <= byteval c < 256)%Z.
Proof. unfold byteval. pose proof (N_ascii_bounded c). lia. Qed.

Lemma byte_of_byteval c : byte_of_Z (byteval c) = c.
Proof.
  unfold byte_of_Z, byteval. pose proof (N_ascii_bounded c).
  rewrite Z.mod_small by lia. rewrite N2Z.id. apply ascii_N_embedding.
Qed.

Lemma byteval_of_Z z : byteval (byte_of_Z z) = (z mod 256)%Z.
Proof.
  unfold byte_of_Z, byteval. pose proof (Z.mod_pos_bound z 256).
  rewrite N_ascii_embedding by lia. lia.
Qed.

Lemma byteval_inj a b : byteval a = byteval b -> a = b.
Proof. intros H. by rewrite <-(byte_of_byteval a), H, byte_of_byteval. Qed.

(** ** Prefixes and suffixes *)
Lemma HasPrefix_spec s p : HasPrefix s p = true <-> p `prefix_of` s.
Proof.
  revert p. induction s as [|a s IH]; intros [|b p]; cbn.
  - split; [by exists []|done].
  - split; [done|]. by intros [k [=]].
  - split; [by exists (a :: s)|done].
  - rewrite andb_true_iff, bool_decide_eq_true, IH. split.
    + intros [-> [k ->]]. by exists k.
    + intros [k [= -> ->]]. split; [done|by exists k].
Qed.

Lemma HasSuffix_spec s p : HasSuffix s p = true <-> p `suffix_of` s.
Proof.
  unfold HasSuffix. rewrite andb_true_iff, !bool_decide_eq_true. split.
  - intros [Hl Hd]. exists (take (length s - length p) s).
    rewrite <-Hd at 2. by rewrite take_drop.
  - intros [k ->]. rewrite length_app. split; [lia|].
    by rewrite Nat.add_sub, drop_app_length.
Qed.

Lemma TrimSuffix_app s p : TrimSuffix (s ++ p) p = s.
Proof.
  unfold TrimSuffix. rewrite (proj2 (HasSuffix_spec _ _)) by (by exists s).
  by rewrite length_app, Nat.add_sub, take_app_length.
Qed.

Lemma CutSuffix_true s p k : CutSuffix s p = (k, true) -> s = k ++ p.
Proof.
  unfold CutSuffix. destruct (HasSuffix s p) eqn:E; [|done]. intros [= <-].
  apply HasSuffix_spec in E as [k ->].
  by rewrite length_app, Nat.add_sub, take_app_length.
Qed.

Lemma HasPrefix_app_l s t p : HasPrefix s p = true -> HasPrefix (s ++ t) p = true.
Proof. rewrite !HasPrefix_spec. intros [k ->]. exists (k ++ t). by rewrite app_assoc. Qed.

(** ** Split and Join *)
Lemma str_eqb_true s t : str_eqb s t = true <-> s = t.
Proof. apply bool_decide_eq_true. Qed.
Lemma str_eqb_false s t : str_eqb s t = false <-> s <> t.
Proof. apply bool_decide_eq_false. Qed.
Lemma IndexByte_app s c t : c ∉ s -> IndexByte (s ++ c :: t) c = Some (length s).
Proof.
  induction s as [|a s IH]; cbn; [by rewrite decide_True|]. intros [Hne Hs]%not_elem_of_cons.
  rewrite decide_False by congruence. by rewrite IH.
Qed.
Lemma Split_nonempty s sep : Split s sep <> [].
Proof. induction s as [|a s IH]; cbn; [done|]. case_decide; [done|]. by destruct (Split s sep). Qed.

Lemma Split_no_sep s sep : sep ∉ s -> Split s sep = [s].
Proof.
  induction s as [|a s IH]; intros H; cbn; [done|].
  apply not_elem_of_cons in H as [Hne H]. rewrite decide_False by congruence.
  by rewrite IH.
Qed.

Lemma Split_app_sep s t sep : sep ∉ s -> Split (s ++ sep :: t) sep = s :: Split t sep.
Proof.
  induction s as [|a s IH]; intros H; cbn; [by rewrite decide_True|].
  apply not_elem_of_cons in H as [Hne H]. rewrite decide_False by congruence.
  by rewrite IH.
Qed.

(** Splitting undoes joining when no element holds the separator. *)
Lemma Split_Join l sep :
  l <> [] -> Forall (fun w => sep ∉ w) l -> Split (Join l [sep]) sep = l.
Proof.
  induction l as [|w l IH]; [done|]. intros _ H. apply Forall_cons in H as [Hw Hl].
  destruct l as [|x l]; [by apply Split_no_sep|].
  change (Join (w :: x :: l) [sep]) with (w ++ sep :: Join (x :: l) [sep]).
  rewrite Split_app_sep by done. f_equal. by apply IH.
Qed.

(** ** Hexadecimal *)
Lemma hex_digit_char d : (0 <= d < 16)%Z -> hex_digit (hex_char d) = Some d.
Proof.
  intros H. assert (d ∈ map Z.of_nat (seq 0 16)) as Hd.
  { rewrite list_elem_of_In, in_map_iff. exists (Z.to_nat d). split; [lia|].
    apply in_seq. lia. }
  clear H. revert d Hd. apply Forall_forall. repeat (constructor; [done|]). constructor.
Qed.

Lemma hex_decode_encode s : hex_decode (hex_encode s) = Some s.
Proof.
  induction s as [|c s IH]; [done|]. change (hex_encode (c :: s)) with (hex_encode_byte c ++ hex_encode s).
  cbn. pose proof (byteval_range c).
  pose proof (Z.div_mod (byteval c) 16). pose proof (Z.mod_pos_bound (byteval c) 16).
  rewrite !hex_digit_char by lia. cbn. rewrite IH. cbn.
  do 2 f_equal. rewrite <-(byte_of_byteval c) at 3. f_equal. lia.
Qed.

(** ** Decimal round trip *)
Lemma digits_value_app s t v :
  digits_value (s ++ t) v = v' ← digits_value s v; digits_value t v'.
Proof. revert v. induction s as [|c s IH]; intros v; cbn; [done|]. destruct (is_digit c); cbn; auto. Qed.

Lemma digit_char_digit d : (0 <= d < 10)%Z ->
  is_digit (digit_char d) = true /\ byteval (digit_char d) = (48 + d)%Z.
Proof.
  intros H. unfold is_digit, in_range, digit_char. rewrite byteval_of_Z, Z.mod_small by lia.
  split; [|done]. apply andb_true_iff; split; apply Z.leb_le; lia.
Qed.

Lemma digits_go_spec fuel n acc :
  (0 <= n < 10 ^ Z.of_nat fuel)%Z -> (0 < fuel)%nat ->
  exists ds, digits_go fuel n acc = ds ++ acc /\ digits_value ds 0 = Some n /\
    ds <> [] /\ Forall (fun c => is_digit c = true) ds.
Proof.
  revert n acc. induction fuel as [|fuel IH]; intros n acc Hn Hf; [lia|].
  cbn [digits_go]. pose proof (Z.mod_pos_bound n 10). pose proof (Z.div_mod n 10).
  destruct (digit_char_digit (n mod 10)) as [Hd Hv]; [lia|].
  destruct (Z.eqb_spec (n / 10) 0) as [E|E].
  - exists [digit_char (n mod 10)]. split; [done|]. cbn. rewrite Hd, Hv. cbn.
    repeat split; [f_equal; lia|done|by repeat constructor].
  - rewrite Nat2Z.inj_succ, Z.pow_succ_r in Hn by lia.
    assert (0 <= n / 10)%Z by (apply Z.div_pos; lia).
    assert (n / 10 < 10 ^ Z.of_nat fuel)%Z by (apply Z.div_lt_upper_bound; lia).
    destruct (IH (n / 10)%Z (digit_char (n mod 10) :: acc)) as (ds & Hgo & Hval & Hne & Hall); [lia| |].
    { destruct fuel; [|lia]. cbn in *. lia. }
    exists (ds ++ [digit_char (n mod 10)]). rewrite Hgo, <-app_assoc. split; [done|].
    rewrite digits_value_app, Hval. cbn. rewrite Hd, Hv. repeat split.
    + f_equal. lia.
    + by destruct ds.
    + apply Forall_app. by repeat constructor.
Qed.

Lemma FormatUint_spec n : (0 <= n)%Z ->
  digits_value (FormatUint n) 0 = Some n /\ FormatUint n <> [] /\
  Forall (fun c => is_digit c = true) (FormatUint n).
Proof.
  intros H. unfold FormatUint.
  destruct (digits_go_spec (S (Z.to_nat (Z.log2 n))) n []) as (ds & -> & ? & ? & ?).
  - split; [done|]. rewrite Nat2Z.inj_succ, Z2Nat.id by apply Z.log2_nonneg.
    destruct (decide (n = 0)%Z) as [->|]; [done|].
    pose proof (Z.log2_spec n). assert (2 ^ Z.succ (Z.log2 n) <= 10 ^ Z.succ (Z.log2 n))%Z.
    { apply Z.pow_le_mono_l. lia. } lia.
  - lia.
  - rewrite app_nil_r. done.
Qed.

Lemma is_digit_not_sign c : is_digit c = true -> c <> "-"%char /\ c <> "+"%char.
Proof. split; intros ->; discriminate. Qed.

(** [strconv.ParseInt] reads back what [strconv.FormatInt] writes. *)
Lemma ParseInt_FormatInt n : (- 2 ^ 63 <= n < 2 ^ 63)%Z -> ParseInt (FormatInt n) = Some n.
Proof.
  intros H. unfold FormatInt.
  assert (forall v, (- 2 ^ 63 <= v < 2 ^ 63)%Z ->
     ((- 2 ^ 63 <=? v)%Z && (v <=? 2 ^ 63 - 1)%Z) = true) as Hr.
  { intros v Hv. apply andb_true_iff; split; apply Z.leb_le; lia. }
  destruct (Z.ltb_spec n 0).
  - destruct (FormatUint_spec (- n)) as (Hv & Hne & _); [lia|].
    unfold ParseInt. change (#"-" ++ FormatUint (- n)) with ("-"%char :: FormatUint (- n)).
    cbv beta iota. rewrite decide_True by done.
    destruct (FormatUint (- n)) eqn:E; [done|]. rewrite Hv. cbn [mbind option_bind].
    replace (- - n)%Z with n by lia. by rewrite Hr.
  - destruct (FormatUint_spec n) as (Hv & Hne & Hall); [lia|].
    unfold ParseInt. destruct (FormatUint n) as [|c s] eqn:E; [done|].
    apply Forall_cons in Hall as [Hc _]. apply is_digit_not_sign in Hc as [? ?].
    cbv beta iota. rewrite !decide_False by done. rewrite Hv. cbn [mbind option_bind]. by rewrite Hr.
Qed.

(** ** [TrimSpace] is idempotent *)
Definition no_lead (s : gostring) : Prop := trim_space_left s = s.
Definition no_trail (s : gostring) : Prop := trim_space_rev (reverse s) = reverse s.

Lemma trim_left_eq s : trim_space_left s =
  match s with
  | [] => []
  | a :: s1 =>
      if is_ascii_space a then trim_space_left s1
      else match s1 with
           | [] => s
           | b :: s2 =>
               if is_space2 a b then trim_space_left s2
               else match s2 with
                    | [] => s
                    | c :: s3 => if is_space3 a b c then trim_space_left s3 else s
                    end
           end
  end.
Proof. by destruct s. Qed.

Lemma trim_rev_eq s : trim_space_rev s =
  match s with
  | [] => []
  | a :: s1 =>
      if is_ascii_space a then trim_space_rev s1
      else match s1 with
           | [] => s
           | b :: s2 =>
               if is_space2 b a then trim_space_rev s2
               else match s2 with
                    | [] => s
                    | c :: s3 => if is_space3 c b a then trim_space_rev s3 else s
                    end
           end
  end.
Proof. by destruct s. Qed.

Ltac trim_induction eq s :=
  induction s as [s IH] using (induction_ltof1 _ (@length ascii)); unfold ltof in IH;
  rewrite (eq s);
  repeat case_match; subst; try done; try apply suffix_nil.

Lemma trim_left_suffix s : trim_space_left s `suffix_of` s.
Proof.
  trim_induction trim_left_eq s;
    (etransitivity; [apply IH; cbn; lia|]); repeat apply suffix_cons_r; reflexivity.
Qed.

Lemma trim_rev_suffix s : trim_space_rev s `suffix_of` s.
Proof.
  trim_induction trim_rev_eq s;
    (etransitivity; [apply IH; cbn; lia|]); repeat apply suffix_cons_r; reflexivity.
Qed.

Lemma trim_left_fix s : no_lead (trim_space_left s).
Proof.
  unfold no_lead.
  trim_induction trim_left_eq s; try (apply IH; cbn; lia); rewrite trim_left_eq;
    repeat case_match; congruence.
Qed.

Lemma trim_rev_fix s : trim_space_rev (trim_space_rev s) = trim_space_rev s.
Proof.
  trim_induction trim_rev_eq s; try (apply IH; cbn; lia); rewrite trim_rev_eq;
    repeat case_match; congruence.
Qed.

(** A string with no leading space keeps none when its tail is cut. *)
Lemma no_lead_prefix s t : no_lead (s ++ t) -> no_lead s.
Proof.
  assert (forall k u, k <> [] -> trim_space_left u <> k ++ u) as Hno.
  { intros k u Hk E. pose proof (suffix_length _ _ (trim_left_suffix u)) as Hl.
    rewrite E, length_app in Hl. destruct k; [done|cbn in Hl; lia]. }
  unfold no_lead. rewrite (trim_left_eq (s ++ t)), (trim_left_eq s). intros H.
  destruct s as [|a [|b [|c s]]]; [done| | |]; cbn [app] in H;
    (destruct (is_ascii_space a); [by destruct (Hno [a] _ (fun E => ltac:(discriminate E)) H)|]);
    try done;
    (destruct (is_space2 a b); [by destruct (Hno [a; b] _ (fun E => ltac:(discriminate E)) H)|]);
    try done.
  destruct (is_space3 a b c); [|done].
  by destruct (Hno [a; b; c] _ (fun E => ltac:(discriminate E)) H).
Qed.

Lemma TrimSpace_idem s : TrimSpace (TrimSpace s) = TrimSpace s.
Proof.
  unfold TrimSpace. set (l := trim_space_left s). set (r := trim_space_rev (reverse l)).
  assert (no_lead (reverse r)) as Hl.
  { destruct (trim_rev_suffix (reverse l)) as [k Hk]. fold r in Hk.
    apply (no_lead_prefix _ (reverse k)). rewrite <-reverse_app, <-Hk, reverse_involutive.
    apply trim_left_fix. }
  rewrite Hl, reverse_involutive. f_equal. apply trim_rev_fix.
Qed.

Lemma TrimSpace_nil : TrimSpace [] = [].
Proof. done. Qed.
