(* ===== verification/GoPath.v ===== *)
(** * Go's [path/filepath]: [Match] and [Clean] (Unix)

    [Match] follows the chunked matcher of the standard library, with its
    error result: a pattern is only reported as bad when the matcher reaches
    the bad part. *)

From S2P Require Import Prelude GoStrings.

Definition sep : ascii := "/"%char.

(** Leading stars, then the chunk up to the next star outside a class. *)
Fixpoint scan_body (p : gostring) (inrange : bool) : gostring * gostring :=
  match p with
  | [] => ([], [])
  | c :: p1 =>
      if decide (c = "\"%char) then
        match p1 with
        | [] => ([c], [])
        | d :: p2 => let '(k, r) := scan_body p2 inrange in (c :: d :: k, r)
        end
      else if decide (c = "["%char) then let '(k, r) := scan_body p1 true in (c :: k, r)
      else if decide (c = "]"%char) then let '(k, r) := scan_body p1 false in (c :: k, r)
      else if decide (c = "*"%char) then
        if inrange then let '(k, r) := scan_body p1 inrange in (c :: k, r) else ([], p)
      else let '(k, r) := scan_body p1 inrange in (c :: k, r)
  end.
Fixpoint scan_stars (p : gostring) (star : bool) : bool * gostring :=
  match p with
  | c :: p1 => if decide (c = "*"%char) then scan_stars p1 true else (star, p)
  | [] => (star, [])
  end.
Definition scanChunk (p : gostring) : bool * gostring * gostring :=
  let '(star, p1) := scan_stars p false in
  let '(chunk, rest) := scan_body p1 false in
  (star, chunk, rest).

Inductive bad_pattern : Type := ErrBadPattern.

(** A possibly escaped character of a class; the class must go on after it. *)
Definition getEsc (chunk : gostring) : result bad_pattern (Z * gostring) :=
  match chunk with
  | [] => Err ErrBadPattern
  | c :: k =>
      if decide (c = "-"%char) then Err ErrBadPattern
      else if decide (c = "]"%char) then Err ErrBadPattern
      else
        let body := if decide (c = "\"%char) then k else chunk in
        match body with
        | [] => Err ErrBadPattern
        | _ =>
            let '(r, n) := decode_rune body in
            if (r =? RuneError)%Z && (n =? 1)%nat then Err ErrBadPattern
            else match drop n body with
                 | [] => Err ErrBadPattern
                 | nchunk => Ok (r, nchunk)
                 end
        end
  end.

(** The ranges of a class: whether the rune matched one, and what follows the
    closing bracket. *)
Fixpoint match_ranges (fuel : nat) (chunk : gostring) (r : Z) (hit : bool) (nrange : nat)
    : result bad_pattern (bool * gostring) :=
  match fuel with
  | O => Err ErrBadPattern
  | S fuel =>
      match chunk with
      | c :: k =>
          if bool_decide (c = "]"%char) && (0 <? nrange)%nat then Ok (hit, k)
          else
            '(lo, k1) ← getEsc chunk;
            '(hi, k2) ← (match k1 with
                         | d :: k1' => if decide (d = "-"%char) then getEsc k1' else Ok (lo, k1)
                         | [] => Ok (lo, k1)
                         end);
            match_ranges fuel k2 r (hit || ((lo <=? r) && (r <=? hi))%Z) (S nrange)
      | [] => Err ErrBadPattern
      end
  end.

(** [matchChunk]: [Ok (Some rest)] a match, [Ok None] no match. *)
Fixpoint matchChunk_go (fuel : nat) (chunk s : gostring) (failed : bool)
    : result bad_pattern (option gostring) :=
  match fuel with
  | O => Err ErrBadPattern
  | S fuel =>
      match chunk with
      | [] => Ok (if failed then None else Some s)
      | c :: k =>
          let failed := failed || match s with [] => true | _ => false end in
          if decide (c = "["%char) then
            let '(r, n) := if failed then (0%Z, 0) else decode_rune s in
            let s1 := drop n s in
            let '(negated, k1) := match k with
                                  | d :: k' => if decide (d = "^"%char) then (true, k') else (false, k)
                                  | [] => (false, k)
                                  end in
            '(hit, k2) ← match_ranges (S (length k1)) k1 r false 0;
            matchChunk_go fuel k2 s1 (failed || Bool.eqb hit negated)
          else if decide (c = "?"%char) then
            if failed then matchChunk_go fuel k s true
            else
              let f := match s with a :: _ => bool_decide (a = sep) | [] => true end in
              matchChunk_go fuel k (drop (snd (decode_rune s)) s) f
          else if decide (c = "\"%char) then
            match k with
            | [] => Err ErrBadPattern
            | d :: k' =>
                if failed then matchChunk_go fuel k' s true
                else matchChunk_go fuel k' (drop 1 s) (negb (bool_decide (head s = Some d)))
            end
          else
            if failed then matchChunk_go fuel k s true
            else matchChunk_go fuel k (drop 1 s) (negb (bool_decide (head s = Some c)))
      end
  end.
Definition matchChunk (chunk s : gostring) : result bad_pattern (option gostring) :=
  matchChunk_go (S (length chunk)) chunk s false.

(** The rest of a pattern is still checked once the match has failed. *)
Fixpoint check_rest (fuel : nat) (p : gostring) : result bad_pattern bool :=
  match fuel with
  | O => Err ErrBadPattern
  | S fuel =>
      match p with
      | [] => Ok false
      | _ =>
          let '(_, chunk, rest) := scanChunk p in
          _ ← matchChunk chunk [];
          check_rest fuel rest
      end
  end.

(** After a star: skip one more byte (never a separator) until the chunk
    matches; [Ok None] when it never does. *)
Fixpoint star_search (chunk name : gostring) (last : bool) : result bad_pattern (option gostring) :=
  match name with
  | [] => Ok None
  | a :: name' =>
      if decide (a = sep) then Ok None
      else match matchChunk chunk name' with
           | Err e => Err e
           | Ok (Some t) =>
               if last && negb (bool_decide (t = [])) then star_search chunk name' last
               else Ok (Some t)
           | Ok None => star_search chunk name' last
           end
  end.

Fixpoint Match_go (fuel : nat) (pattern name : gostring) : result bad_pattern bool :=
  match fuel with
  | O => Err ErrBadPattern
  | S fuel =>
      match pattern with
      | [] => Ok (bool_decide (name = []))
      | _ =>
          let '(star, chunk, rest) := scanChunk pattern in
          if star && bool_decide (chunk = []) then Ok (negb (bool_decide (sep ∈ name)))
          else
            match matchChunk chunk name with
            | Err e => Err e
            | Ok m =>
                match m with
                | Some t =>
                    if bool_decide (t = []) || negb (bool_decide (rest = []))
                    then Match_go fuel rest t
                    else if star then
                      r ← star_search chunk name (bool_decide (rest = []));
                      match r with
                      | Some t => Match_go fuel rest t
                      | None => check_rest fuel rest
                      end
                    else check_rest fuel rest
                | None =>
                    if star then
                      r ← star_search chunk name (bool_decide (rest = []));
                      match r with
                      | Some t => Match_go fuel rest t
                      | None => check_rest fuel rest
                      end
                    else check_rest fuel rest
                end
            end
      end
  end.
(** [filepath.Match pattern name] *)
Definition Match (pattern name : gostring) : result bad_pattern bool :=
  Match_go (S (length pattern)) pattern name.
(** [ok, _ := filepath.Match(...)] *)
Definition matches (pattern name : gostring) : bool :=
  match Match pattern name with Ok b => b | Err _ => false end.

(** ** [filepath.Clean] on Unix, by path elements *)
Fixpoint clean_elems (rooted : bool) (elems : list gostring) (out : list gostring) : list gostring :=
  match elems with
  | [] => reverse out
  | e :: es =>
      if decide (e = [] \/ e = #".") then clean_elems rooted es out
      else if decide (e = #"..") then
        match out with
        | o :: out' => if decide (o = #"..") then clean_elems rooted es (e :: out)
                       else clean_elems rooted es out'
        | [] => if rooted then clean_elems rooted es [] else clean_elems rooted es [e]
        end
      else clean_elems rooted es (e :: out)
  end.
Definition Clean (path : gostring) : gostring :=
  match path with
  | [] => #"."
  | c :: _ =>
      let rooted := bool_decide (c = sep) in
      let out := Join (clean_elems rooted (Split path sep) []) [sep] in
      if rooted then sep :: out
      else match out with [] => #"." | _ => out end
  end.

(** * Lemmas: patterns without metacharacters *)

Definition meta_chars : gostring := #"*?[\".
(** No byte of [p] is a metacharacter of [Match]. *)
Definition literal (p : gostring) : Prop := Forall (fun c => c ∉ meta_chars) p.

Lemma ContainsAny_literal p : ContainsAny p meta_chars = false <-> literal p.
Proof.
  unfold ContainsAny, literal. rewrite <-not_true_iff_false, existsb_exists, Forall_forall. split.
  - intros H x Hx Hm. apply H. exists x. rewrite bool_decide_eq_true, <-list_elem_of_In. done.
  - intros H (x & Hx & Hb). apply list_elem_of_In in Hx. apply bool_decide_eq_true in Hb.
    by apply (H x).
Qed.

Lemma meta_ne c : c ∉ meta_chars ->
  c <> "\"%char /\ c <> "["%char /\ c <> "*"%char /\ c <> "?"%char.
Proof. intros H. repeat split; intros ->; apply H;
  rewrite list_elem_of_In; vm_compute; tauto. Qed.

Lemma scan_body_literal p r : literal p ->
  scan_body (p ++ r) false = let '(k, r') := scan_body r false in (p ++ k, r').
Proof.
  induction p as [|c p IH]; intros Hp; cbn; [by destruct (scan_body r false)|].
  apply Forall_cons in Hp as [Hc Hp]. apply meta_ne in Hc as (? & ? & ? & _).
  rewrite (decide_False (P := c = "\"%char)), (decide_False (P := c = "["%char)) by done.
  rewrite IH by done. destruct (scan_body r false). repeat case_decide; done.
Qed.

Lemma scanChunk_literal c p r : literal (c :: p) ->
  scanChunk ((c :: p) ++ r) = let '(k, r') := scan_body r false in (false, (c :: p) ++ k, r').
Proof.
  intros Hp. unfold scanChunk. cbn [scan_stars app]. pose proof Hp as Hp'.
  apply Forall_cons in Hp' as [Hc _]. apply meta_ne in Hc as (? & ? & ? & _).
  rewrite decide_False by done. cbv beta iota. change (c :: p ++ r) with ((c :: p) ++ r).
  rewrite scan_body_literal by done. by destruct (scan_body r false).
Qed.

Lemma matchChunk_go_literal fuel p s failed :
  literal p -> (length p < fuel)%nat ->
  matchChunk_go fuel p s failed =
    Ok (if failed then None else if HasPrefix s p then Some (drop (length p) s) else None).
Proof.
  revert p s failed. induction fuel as [|fuel IH]; intros p s failed Hp Hf; [lia|].
  destruct p as [|c p]; cbn -[decide]; [by destruct failed, s|].
  cbn in Hf. apply Forall_cons in Hp as [Hc Hp]. apply meta_ne in Hc as (? & ? & ? & ?).
  rewrite !decide_False by done.
  destruct failed; cbn; [by rewrite IH by (done || lia)|].
  destruct s as [|a s]; cbn; [by rewrite IH by (done || lia)|].
  rewrite IH by (done || lia).
  case_bool_decide as E; cbn; [injection E as ->; by rewrite bool_decide_eq_true_2|].
  rewrite bool_decide_eq_false_2 by congruence. done.
Qed.

Lemma matchChunk_literal p s : literal p ->
  matchChunk p s = Ok (if HasPrefix s p then Some (drop (length p) s) else None).
Proof. intros H. unfold matchChunk. by rewrite matchChunk_go_literal by (done || lia). Qed.

Lemma HasPrefix_drop_nil s p : HasPrefix s p = true -> drop (length p) s = [] -> s = p.
Proof. rewrite HasPrefix_spec. intros [k ->]. rewrite drop_app_length. intros ->. by rewrite app_nil_r. Qed.

(** A literal pattern matches exactly itself. *)
Lemma matches_literal p n : literal p -> matches p n = true <-> n = p.
Proof.
  intros Hp. destruct p as [|c p]; [unfold matches, Match; cbn; by rewrite bool_decide_eq_true|].
  unfold matches, Match. cbn [Match_go].
  pose proof (scanChunk_literal c p [] Hp) as E. cbn [scan_body] in E. rewrite !app_nil_r in E.
  rewrite E. cbn [andb]. rewrite matchChunk_literal by done.
  destruct (HasPrefix n (c :: p)) eqn:Hpre.
  - case_bool_decide as Hd; cbn [orb negb bool_decide].
    + apply HasPrefix_drop_nil in Hd; [|done]. subst n. rewrite drop_all. split; done.
    + rewrite bool_decide_eq_true_2 by done. cbn. split; [done|].
      intros ->. by rewrite drop_all in Hd.
  - cbn. split; [done|]. intros ->. exfalso. revert Hpre. apply not_false_iff_true.
    apply HasPrefix_spec. reflexivity.
Qed.

Lemma check_rest_not_true fuel p : check_rest fuel p <> Ok true.
Proof.
  revert p. induction fuel as [|fuel IH]; intros p; cbn [check_rest]; [done|].
  destruct p; [done|]. destruct (scanChunk _) as [[? chunk] rest].
  destruct (matchChunk chunk []); cbn; auto.
Qed.

(** A literal followed by a star only matches what starts with the literal. *)
Lemma matches_literal_star p n : literal p -> matches (p ++ #"*") n = true -> HasPrefix n p = true.
Proof.
  intros Hp. destruct p as [|c p]; [by destruct n|]. unfold matches, Match. cbn [Match_go app].
  change (c :: p ++ #"*") with ((c :: p) ++ #"*").
  rewrite (scanChunk_literal c p #"*") by done.
  assert (scan_body #"*" false = ([], #"*")) as -> by (vm_compute; reflexivity). cbv beta iota.
  rewrite app_nil_r. cbn [andb]. rewrite matchChunk_literal by done.
  destruct (HasPrefix n (c :: p)); [done|]. cbv beta iota.
  pose proof (check_rest_not_true (length ((c :: p) ++ #"*")) #"*") as Hno.
  intros H. destruct (check_rest _ _) as [[]|]; done.
Qed.
