(* ===== verification/GoCrypto.v ===== *)
(** * SHA-256 and HMAC-SHA-256 ([crypto/sha256], [crypto/hmac])

    FIPS 180-4 and RFC 2104, executable: 32-bit words are [Z] in
    [0, 2^32). *)

From S2P Require Import Prelude GoStrings.
Local Open Scope Z_scope.

Definition w32 (z : Z) : Z := z mod 2 ^ 32.
Definition add32 (a b : Z) : Z := w32 (a + b).
Definition rotr (n x : Z) : Z := Z.lor (Z.shiftr x n) (w32 (Z.shiftl x (32 - n))).
Definition not32 (x : Z) : Z := 2 ^ 32 - 1 - x.

Definition sha_k : list Z :=
  [1116352408; 1899447441; 3049323471; 3921009573; 961987163; 1508970993; 2453635748; 2870763221;
   3624381080; 310598401; 607225278; 1426881987; 1925078388; 2162078206; 2614888103; 3248222580;
   3835390401; 4022224774; 264347078; 604807628; 770255983; 1249150122; 1555081692; 1996064986;
   2554220882; 2821834349; 2952996808; 3210313671; 3336571891; 3584528711; 113926993; 338241895;
   666307205; 773529912; 1294757372; 1396182291; 1695183700; 1986661051; 2177026350; 2456956037;
   2730485921; 2820302411; 3259730800; 3345764771; 3516065817; 3600352804; 4094571909; 275423344;
   430227734; 506948616; 659060556; 883997877; 958139571; 1322822218; 1537002063; 1747873779;
   1955562222; 2024104815; 2227730452; 2361852424; 2428436474; 2756734187; 3204031479; 3329325298].
Definition sha_h0 : list Z :=
  [1779033703; 3144134277; 1013904242; 2773480762; 1359893119; 2600822924; 528734635; 1541459225].

Definition be_word (n : nat) (z : Z) : gostring :=
  map (fun i => byte_of_Z (Z.shiftr z (8 * Z.of_nat (n - 1 - i)))) (seq 0 n).
Definition be_value (s : gostring) : Z :=
  fold_left (fun acc c => acc * 256 + byteval c) s 0.

(** Message padding to a multiple of 64 bytes. *)
Definition sha_pad (m : gostring) : gostring :=
  let len := Z.of_nat (length m) in
  m ++ [byte_of_Z 128] ++ replicate (Z.to_nat ((55 - len) mod 64)) (byte_of_Z 0) ++
  be_word 8 (8 * len).

Fixpoint words_of (n : nat) (s : gostring) : list Z :=
  match n with
  | O => []
  | S n => be_value (take 4 s) :: words_of n (drop 4 s)
  end.

(** Message schedule, newest word first. *)
Definition sched_step (w : list Z) : list Z :=
  let w2 := nth 1 w 0 in let w7 := nth 6 w 0 in
  let w15 := nth 14 w 0 in let w16 := nth 15 w 0 in
  let s0 := Z.lxor (rotr 7 w15) (Z.lxor (rotr 18 w15) (Z.shiftr w15 3)) in
  let s1 := Z.lxor (rotr 17 w2) (Z.lxor (rotr 19 w2) (Z.shiftr w2 10)) in
  w32 (w16 + s0 + w7 + s1) :: w.
Definition schedule (block : gostring) : list Z :=
  reverse (Nat.iter 48 sched_step (reverse (words_of 16 block))).

Definition sha_round (st : list Z) (kw : Z * Z) : list Z :=
  match st with
  | [a; b; c; d; e; f; g; h] =>
      let s1 := Z.lxor (rotr 6 e) (Z.lxor (rotr 11 e) (rotr 25 e)) in
      let ch := Z.lxor (Z.land e f) (Z.land (not32 e) g) in
      let t1 := w32 (h + s1 + ch + fst kw + snd kw) in
      let s0 := Z.lxor (rotr 2 a) (Z.lxor (rotr 13 a) (rotr 22 a)) in
      let maj := Z.lxor (Z.land a b) (Z.lxor (Z.land a c) (Z.land b c)) in
      let t2 := w32 (s0 + maj) in
      [add32 t1 t2; a; b; c; add32 d t1; e; f; g]
  | _ => st
  end.
Definition sha_block (h : list Z) (block : gostring) : list Z :=
  zip_with add32 h (fold_left sha_round (zip sha_k (schedule block)) h).
Fixpoint sha_blocks (fuel : nat) (h : list Z) (s : gostring) : list Z :=
  match fuel with
  | O => h
  | S fuel =>
      match s with
      | [] => h
      | _ => sha_blocks fuel (sha_block h (take 64 s)) (drop 64 s)
      end
  end.
(** [sha256.Sum256] *)
Definition sha256 (m : gostring) : gostring :=
  let p := sha_pad m in
  sha_blocks (S (length p / 64)) sha_h0 p ≫= be_word 4.

Definition hmac_key (key : gostring) : gostring :=
  let k := if bool_decide (64 < length key)%nat then sha256 key else key in
  k ++ replicate (64 - length k) (byte_of_Z 0).
Definition xor_byte (x : Z) (c : ascii) : ascii := byte_of_Z (Z.lxor (byteval c) x).
(** [hmac.New(sha256.New, key)], [Write data], [Sum nil] *)
Definition hmac_sha256 (key data : gostring) : gostring :=
  let k := hmac_key key in
  sha256 (map (xor_byte 92) k ++ sha256 (map (xor_byte 54) k ++ data)).

(** * [encoding/base64]

    Decoding of the four encodings of the package: the standard and the URL
    alphabet, with and without padding.  Line breaks are skipped, unused bits
    of the last character are ignored (the decoder is not strict). *)

Inductive alphabet := Std | URL.
Record encoding := mkEncoding { enc_alphabet : alphabet; enc_padded : bool }.
Definition RawStdEncoding := mkEncoding Std false.
Definition StdEncoding := mkEncoding Std true.
Definition RawURLEncoding := mkEncoding URL false.
Definition URLEncoding := mkEncoding URL true.

Definition sextet (a : alphabet) (c : ascii) : option Z :=
  if is_upper c then Some (byteval c - 65)
  else if is_lower c then Some (byteval c - 97 + 26)
  else if is_digit c then Some (byteval c - 48 + 52)
  else match a with
       | Std => if decide (c = "+"%char) then Some 62 else if decide (c = "/"%char) then Some 63 else None
       | URL => if decide (c = "-"%char) then Some 62 else if decide (c = "_"%char) then Some 63 else None
       end.
Definition is_newline (c : ascii) : bool := bool_decide (byteval c = 10) || bool_decide (byteval c = 13).
Fixpoint skip_newlines (s : gostring) : gostring :=
  match s with c :: s' => if is_newline c then skip_newlines s' else s | [] => [] end.

(** The bytes of a quantum of 2, 3 or 4 characters. *)
Definition quantum (vs : list Z) : gostring :=
  match vs with
  | [a; b] => [byte_of_Z (a * 4 + b / 16)]
  | [a; b; c] => [byte_of_Z (a * 4 + b / 16); byte_of_Z (b * 16 + c / 4)]
  | [a; b; c; d] => [byte_of_Z (a * 4 + b / 16); byte_of_Z (b * 16 + c / 4); byte_of_Z (c * 64 + d)]
  | _ => []
  end.

Fixpoint decode_go (e : encoding) (s : gostring) (acc : list Z) : option gostring :=
  match s with
  | [] => match acc with
          | [] => Some []
          | [_] => None
          | _ => if enc_padded e then None else Some (quantum acc)
          end
  | c :: s' =>
      match sextet (enc_alphabet e) c with
      | Some v =>
          match acc with
          | [_; _; _] => out ← decode_go e s' []; Some (quantum (acc ++ [v]) ++ out)
          | _ => decode_go e s' (acc ++ [v])
          end
      | None =>
          if is_newline c then decode_go e s' acc
          else if enc_padded e && bool_decide (c = "="%char) then
            match acc with
            | [_; _] => match skip_newlines s' with
                        | c' :: s'' => if bool_decide (c' = "="%char) && bool_decide (skip_newlines s'' = [])
                                       then Some (quantum acc) else None
                        | [] => None
                        end
            | [_; _; _] => if bool_decide (skip_newlines s' = []) then Some (quantum acc) else None
            | _ => None
            end
          else None
      end
  end.
(** [enc.DecodeString(s)] *)
Definition DecodeString (e : encoding) (s : gostring) : option gostring := decode_go e s [].

Example decode_padded : DecodeString StdEncoding #"aGk=" = Some #"hi".
Proof. reflexivity. Qed.
Example decode_raw : DecodeString RawURLEncoding #"-_8" = Some [byte_of_Z 251; byte_of_Z 255].
Proof. reflexivity. Qed.
