(* ===== verification/GoFloat.v ===== *)
(** * Go's [float64]: [strconv.ParseFloat], comparison, [%.2f] and the
    shortest ['f'] format

    A [float64] is a [spec_float] at precision 53, [emax] 1024; parsing rounds
    the exact rational value of the literal to nearest even. *)

From Stdlib Require Export SpecFloat.
From S2P Require Import Prelude GoStrings.
Local Open Scope Z_scope.

Abbreviation float64 := spec_float.
Definition prec64 : Z := 53.
Definition emax64 : Z := 1024.

Definition f_zero : float64 := S754_zero false.
Definition f_add : float64 -> float64 -> float64 := SFadd prec64 emax64.
Definition f_sub : float64 -> float64 -> float64 := SFsub prec64 emax64.
Definition f_mul : float64 -> float64 -> float64 := SFmul prec64 emax64.
Definition f_lt : float64 -> float64 -> bool := SFltb.
Definition f_le : float64 -> float64 -> bool := SFleb.
Definition f_gt (a b : float64) : bool := SFltb b a.
Definition is_nan (f : float64) : bool := match f with S754_nan => true | _ => false end.
Definition is_inf (f : float64) : bool := match f with S754_infinity _ => true | _ => false end.

(** The float nearest to [n / d]. *)
Definition f_of_ratio (neg : bool) (n d : Z) : float64 :=
  if n =? 0 then S754_zero neg
  else
    let '(mz, ez, lz) := SFdiv_core_binary prec64 emax64 n 0 d 0 in
    binary_round_aux prec64 emax64 neg mz ez lz.
Definition f_of_Z (z : Z) : float64 := f_of_ratio (z <? 0) (Z.abs z) 1.
(** The float nearest to [m * b ^ e]. *)
Definition f_of_scaled (neg : bool) (m b e : Z) : float64 :=
  if 0 <=? e then f_of_ratio neg (m * b ^ e) 1 else f_of_ratio neg m (b ^ (- e)).

(** ** [ParseFloat] *)
Definition lower_ascii (s : gostring) : gostring := map lower_byte s.

(** "Underscores must separate digits, plus one after a base prefix": [saw] is
    the class of the last character, '^' at the start. *)
Fixpoint underscore_scan (hex : bool) (s : gostring) (saw : ascii) : bool :=
  match s with
  | [] => negb (bool_decide (saw = "_"%char))
  | c :: s' =>
      if is_digit c || (hex && in_range 97 102 (lower_byte c)) then underscore_scan hex s' "0"%char
      else if decide (c = "_"%char) then
        bool_decide (saw = "0"%char) && underscore_scan hex s' "_"%char
      else negb (bool_decide (saw = "_"%char)) && underscore_scan hex s' "!"%char
  end.
Definition drop_sign (s : gostring) : bool * gostring :=
  match s with
  | c :: s' => if decide (c = "-"%char) then (true, s')
               else if decide (c = "+"%char) then (false, s') else (false, s)
  | [] => (false, s)
  end.
Definition underscoreOK (s : gostring) : bool :=
  let s := snd (drop_sign s) in
  match s with
  | z :: x :: s' =>
      let lx := lower_byte x in
      if bool_decide (z = "0"%char) && bool_decide (lx ∈ #"box")
      then underscore_scan (bool_decide (lx = "x"%char)) s' "0"%char
      else underscore_scan false s "^"%char
  | _ => underscore_scan false s "^"%char
  end.

(** The digits of the mantissa: value, digits after the dot, whether a digit
    was seen, the rest. *)
Fixpoint mant_scan (base : Z) (s : gostring) (m frac : Z) (sawdot sawdigit : bool)
    : Z * Z * bool * gostring :=
  match s with
  | [] => (m, frac, sawdigit, s)
  | c :: s' =>
      let frac' := if sawdot then frac + 1 else frac in
      if decide (c = "_"%char) then mant_scan base s' m frac sawdot sawdigit
      else if decide (c = "."%char) then
        if sawdot then (m, frac, sawdigit, s) else mant_scan base s' m frac true sawdigit
      else match hex_digit c with
           | Some d => if is_digit c || (base =? 16)
                       then mant_scan base s' (m * base + d) frac' sawdot true
                       else (m, frac, sawdigit, s)
           | None => (m, frac, sawdigit, s)
           end
  end.
Fixpoint exp_scan (s : gostring) (e : Z) : Z * gostring :=
  match s with
  | [] => (e, s)
  | c :: s' =>
      if is_digit c then exp_scan s' (if e <? 10000 then e * 10 + (byteval c - 48) else e)
      else if decide (c = "_"%char) then exp_scan s' e
      else (e, s)
  end.
Definition parse_exp (expchar : ascii) (s : gostring) : option (option Z * gostring) :=
  match s with
  | c :: s' =>
      if decide (lower_byte c = expchar) then
        let '(neg, s1) := drop_sign s' in
        match s1 with
        | d :: _ => if is_digit d
                    then let '(e, r) := exp_scan s1 0 in Some (Some (if neg : bool then - e else e), r)
                    else None
        | [] => None
        end
      else Some (None, s)
  | [] => Some (None, s)
  end.
(** [strconv.ParseFloat s 64]; [None] is any error, range errors included. *)
Definition ParseFloat (s : gostring) : option float64 :=
  let '(neg, body) := drop_sign s in
  let low := lower_ascii body in
  if decide (low = #"inf" \/ low = #"infinity") then Some (S754_infinity neg)
  else if decide (lower_ascii s = #"nan") then Some S754_nan
  else
    let hex := match body with
               | z :: x :: _ :: _ => bool_decide (z = "0"%char) && bool_decide (lower_byte x = "x"%char)
               | _ => false
               end in
    let digits := if hex then drop 2 body else body in
    let '(m, frac, sawdigit, r) := mant_scan (if hex then 16 else 10) digits 0 0 false false in
    if negb sawdigit then None
    else
      '(e, r) ← parse_exp (if hex then "p"%char else "e"%char) r;
      match r with
      | _ :: _ => None
      | [] =>
          if hex && bool_decide (e = None) then None
          else if bool_decide ("_"%char ∈ s) && negb (underscoreOK s) then None
          else
            let e := default 0 e in
            let f := if hex then f_of_scaled neg m 2 (e - 4 * frac) else f_of_scaled neg m 10 (e - frac) in
            if is_inf f then None else Some f
      end.

(** ** Formatting *)
(** Nearest integer to [n / d], ties to even. *)
Definition round_half_even (n d : Z) : Z :=
  let q := n / d in let r := n mod d in
  if 2 * r <? d then q else if d <? 2 * r then q + 1 else if Z.even q then q else q + 1.
(** The exact value of a finite float as a ratio. *)
Definition f_ratio (m : positive) (e : Z) : Z * Z :=
  if 0 <=? e then (Z.pos m * 2 ^ e, 1) else (Z.pos m, 2 ^ (- e)).
Definition two_digits (n : Z) : gostring := [digit_char (n / 10); digit_char (n mod 10)].
Definition fixed2 (k : Z) : gostring := FormatUint (k / 100) ++ #"." ++ two_digits (k mod 100).
(** [fmt.Sprintf "%.2f"] *)
Definition FormatFixed2 (f : float64) : gostring :=
  match f with
  | S754_nan => #"NaN"
  | S754_infinity s => if s then #"-Inf" else #"+Inf"
  | S754_zero s => (if s then #"-" else []) ++ #"0.00"
  | S754_finite s m e =>
      let '(n, d) := f_ratio m e in
      (if s then #"-" else []) ++ fixed2 (round_half_even (n * 100) d)
  end.

(** [fmt.Sprintf "%.<p>f"], for [p > 0]. *)
Definition zero_pad (w : nat) (s : gostring) : gostring := replicate (w - length s) "0"%char ++ s.
Definition fixed_point (p : nat) (k : Z) : gostring :=
  let b := 10 ^ Z.of_nat p in FormatUint (k / b) ++ #"." ++ zero_pad p (FormatUint (k mod b)).
Definition FormatFixed (p : nat) (f : float64) : gostring :=
  match f with
  | S754_nan => #"NaN"
  | S754_infinity s => if s then #"-Inf" else #"+Inf"
  | S754_zero s => (if s then #"-" else []) ++ fixed_point p 0
  | S754_finite s m e =>
      let '(n, d) := f_ratio m e in
      (if s then #"-" else []) ++ fixed_point p (round_half_even (n * 10 ^ Z.of_nat p) d)
  end.

(** [FormatFloat f 'f' -1 64] for [0 < f < 1]: the fewest digits that parse
    back to [f], closest first.  [k] is the position of the first digit:
    [10 ^ (k-1) <= f < 10 ^ k]. *)
Fixpoint first_digit (fuel : nat) (n d k : Z) : Z :=
  match fuel with
  | O => k
  | S fuel => if n * 10 ^ (1 - k) <? d then first_digit fuel n d (k - 1) else k
  end.
Definition sf_eqb (a b : float64) : bool := match SFcompare a b with Some Eq => true | _ => false end.
Definition pad_digits (digits k : Z) (width : Z) : gostring :=
  let ds := FormatUint digits in
  #"0." ++ replicate (Z.to_nat (width - k) - length ds)%nat "0"%char ++ ds.
Fixpoint shortest_go (fuel : nat) (f : float64) (n d k width : Z) : gostring :=
  match fuel with
  | O => []
  | S fuel =>
      (* candidates with [width] significant digits *)
      let scale := 10 ^ (width - k) in
      let lo := n * scale / d in
      let hi := lo + 1 in
      let back c := sf_eqb (f_of_ratio false c scale) f in
      let lo_first := 2 * (n * scale mod d) <=? d in
      let try a b := if back a then Some a else if back b then Some b else None in
      match (if lo_first then try lo hi else try hi lo) with
      | Some c => pad_digits c k width
      | None => shortest_go fuel f n d k (width + 1)
      end
  end.
Definition FormatShortest (f : float64) : gostring :=
  match f with
  | S754_finite false m e =>
      let '(n, d) := f_ratio m e in
      let k := first_digit 400 n d 0 in
      shortest_go 18 f n d k 1
  | _ => FormatFixed2 f
  end.

(** * Lemmas: the order of positive finite floats *)

Definition positive (f : float64) : Prop := exists m e, f = S754_finite false m e.

Lemma f_lt_positive f : positive f -> f_lt f_zero f = true.
Proof. by intros (m & e & ->). Qed.

Lemma f_lt_finite m1 e1 m2 e2 :
  f_lt (S754_finite false m1 e1) (S754_finite false m2 e2) = true <->
  e1 < e2 \/ (e1 = e2 /\ Z.pos m1 < Z.pos m2).
Proof.
  unfold f_lt, SFltb, SFcompare.
  destruct (Z.compare_spec e1 e2); destruct (Pos.compare_cont_spec m1 m2 Eq) || idtac.
  all: try (split; [intros; lia | intros [?|[? ?]]; try done; lia]).
  change (Pos.compare_cont Eq m1 m2) with (Pos.compare m1 m2).
  destruct (Pos.compare_spec m1 m2); split; intros; try done; try lia; right; lia.
Qed.

(** A limit not below the old one is not below a smaller one either. *)
Lemma f_lt_trans_not f g h : positive f -> positive g -> positive h ->
  f_lt g f = false -> f_lt h f = true -> f_lt g h = false.
Proof.
  intros (m1 & e1 & ->) (m2 & e2 & ->) (m3 & e3 & ->). rewrite <-!not_true_iff_false, !f_lt_finite.
  lia.
Qed.

Lemma f_lt_irrefl f : positive f -> f_lt f f = false.
Proof. intros (m & e & ->). rewrite <-not_true_iff_false, f_lt_finite. lia. Qed.

(** What is neither NaN, nor infinite, nor at most zero is positive. *)
Lemma positive_intro f : (is_nan f || is_inf f || f_le f f_zero) = false -> positive f.
Proof. destruct f as [[]|[]| |[] m e]; try done. intros _. by exists m, e. Qed.
