(* ===== verification/GoJSON.v ===== *)
(** * Go's [encoding/json]: syntax, string escapes, [Decoder.Decode] with
    [UseNumber]

    [parse_document] is [json.Unmarshal]'s view of a document (one value, then
    only white space).  Objects keep their members in source order, duplicates
    included: what a duplicate means depends on the Go type decoded into. *)

From S2P Require Import Prelude GoStrings.

#[local] Set Warnings "-register-all".

Inductive json : Type :=
| JNull
| JBool (b : bool)
| JNumber (lit : gostring)
| JString (s : gostring)
| JArray (l : list json)
| JObject (l : list (gostring * json)).

Definition quote : ascii := "034"%char.
Definition backslash : ascii := "\"%char.

(** ** UTF-8 encoding ([utf8.AppendRune]) *)
Definition encode_rune (r : Z) : gostring :=
  (if r <? 0 then map byte_of_Z [239; 191; 189]
   else if r <? 128 then [byte_of_Z r]
   else if r <? 2048 then [byte_of_Z (192 + r / 64); byte_of_Z (128 + r mod 64)]
   else if (1114111 <? r) || ((55296 <=? r) && (r <=? 57343)) then map byte_of_Z [239; 191; 189]
   else if r <? 65536 then
     [byte_of_Z (224 + r / 4096); byte_of_Z (128 + (r / 64) mod 64); byte_of_Z (128 + r mod 64)]
   else
     [byte_of_Z (240 + r / 262144); byte_of_Z (128 + (r / 4096) mod 64);
      byte_of_Z (128 + (r / 64) mod 64); byte_of_Z (128 + r mod 64)])%Z.

(** ** Scanning *)
Definition is_json_space (c : ascii) : bool := bool_decide (byteval c ∈ [32; 9; 13; 10]%Z).
Fixpoint skip_ws (s : gostring) : gostring :=
  match s with
  | c :: s' => if is_json_space c then skip_ws s' else s
  | [] => []
  end.

(** Four hexadecimal digits after [\u]. *)
Definition hex4 (s : gostring) : option (Z * gostring) :=
  match s with
  | a :: b :: c :: d :: r =>
      w ← hex_digit a; x ← hex_digit b; y ← hex_digit c; z ← hex_digit d;
      Some ((w * 4096 + x * 256 + y * 16 + z)%Z, r)
  | _ => None
  end.
Definition simple_escape (c : ascii) : option ascii :=
  if decide (c = quote) then Some quote
  else if decide (c = backslash) then Some backslash
  else if decide (c = "/"%char) then Some "/"%char
  else if decide (c = "b"%char) then Some (byte_of_Z 8)
  else if decide (c = "f"%char) then Some (byte_of_Z 12)
  else if decide (c = "n"%char) then Some (byte_of_Z 10)
  else if decide (c = "r"%char) then Some (byte_of_Z 13)
  else if decide (c = "t"%char) then Some (byte_of_Z 9)
  else None.
Definition is_surrogate (r : Z) : bool := ((55296 <=? r) && (r <=? 57343))%Z.
(** [utf16.DecodeRune] *)
Definition utf16_pair (r1 r2 : Z) : option Z :=
  if ((55296 <=? r1) && (r1 <=? 56319) && (56320 <=? r2) && (r2 <=? 57343))%Z
  then Some ((r1 - 55296) * 1024 + (r2 - 56320) + 65536)%Z else None.

(** The body of a string literal, after the opening quote: decoded bytes and
    what follows the closing quote. *)
Fixpoint scan_string (fuel : nat) (s acc : gostring) : option (gostring * gostring) :=
  match fuel with
  | O => None
  | S fuel =>
      match s with
      | [] => None
      | c :: s1 =>
          if decide (c = quote) then Some (reverse acc, s1)
          else if decide (c = backslash) then
            match s1 with
            | [] => None
            | e :: s2 =>
                if decide (e = "u"%char) then
                  '(r1, s3) ← hex4 s2;
                  if is_surrogate r1 then
                    match (match s3 with
                           | x :: y :: s4 =>
                               if bool_decide (x = backslash) && bool_decide (y = "u"%char)
                               then '(r2, s5) ← hex4 s4; r ← utf16_pair r1 r2; Some (r, s5)
                               else None
                           | _ => None
                           end) with
                    | Some (r, s5) => scan_string fuel s5 (reverse (encode_rune r) ++ acc)
                    | None => scan_string fuel s3 (reverse (encode_rune RuneError) ++ acc)
                    end
                  else scan_string fuel s3 (reverse (encode_rune r1) ++ acc)
                else
                  x ← simple_escape e; scan_string fuel s2 (x :: acc)
            end
          else if (byteval c <? 32)%Z then None
          else if (byteval c <? 128)%Z then scan_string fuel s1 (c :: acc)
          else
            let '(r, n) := decode_rune s in
            scan_string fuel (drop n s) (reverse (encode_rune r) ++ acc)
      end
  end.
Definition parse_string_body (s : gostring) : option (gostring * gostring) :=
  scan_string (S (length s)) s [].

Fixpoint span_digits (s : gostring) : gostring * gostring :=
  match s with
  | c :: s' => if is_digit c then let '(d, r) := span_digits s' in (c :: d, r) else ([], s)
  | [] => ([], [])
  end.
(** A number literal of RFC 8259: sign, integer part without leading zeros,
    optional fraction and exponent. *)
Definition scan_number (s : gostring) : option (gostring * gostring) :=
  let '(sg, s1) := match s with
                   | c :: s' => if decide (c = "-"%char) then ([c], s') else ([], s)
                   | [] => ([], []) end in
  '(ip, s2) ← (match s1 with
               | c :: s' => if decide (c = "0"%char) then Some ([c], s')
                            else if is_digit c then Some (span_digits s1) else None
               | [] => None end);
  '(fp, s3) ← (match s2 with
               | c :: s' => if decide (c = "."%char)
                            then match span_digits s' with
                                 | ([], _) => None
                                 | (d, r) => Some (c :: d, r) end
                            else Some ([], s2)
               | [] => Some ([], []) end);
  '(ep, s4) ← (match s3 with
               | c :: s' =>
                   if decide (c = "e"%char \/ c = "E"%char)
                   then let '(sg, r) := match s' with
                                        | d :: r => if decide (d = "+"%char \/ d = "-"%char) then ([d], r) else ([], s')
                                        | [] => ([], []) end in
                        match span_digits r with
                        | ([], _) => None
                        | (d, r) => Some (c :: sg ++ d, r) end
                   else Some ([], s3)
               | [] => Some ([], []) end);
  Some (sg ++ ip ++ fp ++ ep, s4).

(** The decoder refuses more than 10000 open arrays and objects. *)
Definition too_deep (depth : nat) : bool := (10000 <=? Z.of_nat depth)%Z.

(** One value.  [depth] counts the open arrays and objects. *)
Fixpoint parse_value (fuel depth : nat) (s : gostring) : option (json * gostring) :=
  match fuel with
  | O => None
  | S fuel =>
      match skip_ws s with
      | [] => None
      | c :: s1 =>
          if decide (c = "{"%char) then
            if too_deep depth then None
            else match skip_ws s1 with
                 | d :: s2 => if decide (d = "}"%char) then Some (JObject [], s2)
                              else '(l, r) ← parse_members fuel (S depth) s1; Some (JObject l, r)
                 | [] => None end
          else if decide (c = "["%char) then
            if too_deep depth then None
            else match skip_ws s1 with
                 | d :: s2 => if decide (d = "]"%char) then Some (JArray [], s2)
                              else '(l, r) ← parse_elems fuel (S depth) s1; Some (JArray l, r)
                 | [] => None end
          else if decide (c = quote) then '(t, r) ← parse_string_body s1; Some (JString t, r)
          else if HasPrefix (c :: s1) #"true" then Some (JBool true, drop 3 s1)
          else if HasPrefix (c :: s1) #"false" then Some (JBool false, drop 4 s1)
          else if HasPrefix (c :: s1) #"null" then Some (JNull, drop 3 s1)
          else '(n, r) ← scan_number (c :: s1); Some (JNumber n, r)
      end
  end
with parse_members (fuel depth : nat) (s : gostring) : option (list (gostring * json) * gostring) :=
  match fuel with
  | O => None
  | S fuel =>
      match skip_ws s with
      | c :: s1 =>
          if decide (c = quote) then
            '(k, s2) ← parse_string_body s1;
            match skip_ws s2 with
            | d :: s3 =>
                if decide (d = ":"%char) then
                  '(v, s4) ← parse_value fuel depth s3;
                  match skip_ws s4 with
                  | e :: s5 =>
                      if decide (e = "}"%char) then Some ([(k, v)], s5)
                      else if decide (e = ","%char) then
                        '(l, r) ← parse_members fuel depth s5; Some ((k, v) :: l, r)
                      else None
                  | [] => None
                  end
                else None
            | [] => None
            end
          else None
      | [] => None
      end
  end
with parse_elems (fuel depth : nat) (s : gostring) : option (list json * gostring) :=
  match fuel with
  | O => None
  | S fuel =>
      '(v, s1) ← parse_value fuel depth s;
      match skip_ws s1 with
      | e :: s2 =>
          if decide (e = "]"%char) then Some ([v], s2)
          else if decide (e = ","%char) then '(l, r) ← parse_elems fuel depth s2; Some (v :: l, r)
          else None
      | [] => None
      end
  end.

Definition parse_prefix (s : gostring) : option (json * gostring) :=
  parse_value (2 * length s + 2) 0 s.
(** The document is one value with only white space around it. *)
Definition parse_document (s : gostring) : option json :=
  '(v, r) ← parse_prefix s;
  match skip_ws r with [] => Some v | _ => None end.

(** ** Encoding of strings ([appendString] with HTML escaping) *)
Definition u_escape (z : Z) : gostring :=
  #"\u" ++ map (fun k => hex_char ((z / k) mod 16)) [4096; 256; 16; 1]%Z.
Definition escape_byte (c : ascii) : gostring :=
  let z := byteval c in
  if decide (c = quote) then [backslash; quote]
  else if decide (c = backslash) then [backslash; backslash]
  else if (z =? 8)%Z then #"\b" else if (z =? 12)%Z then #"\f"
  else if (z =? 10)%Z then #"\n" else if (z =? 13)%Z then #"\r"
  else if (z =? 9)%Z then #"\t"
  else if (z <? 32)%Z || bool_decide (c ∈ #"<>&") then u_escape z
  else [c].
Fixpoint escape_string (fuel : nat) (s : gostring) : gostring :=
  match fuel with
  | O => []
  | S fuel =>
      match s with
      | [] => []
      | c :: s1 =>
          if is_ascii_byte c then escape_byte c ++ escape_string fuel s1
          else
            let '(r, n) := decode_rune s in
            (if ((r =? RuneError) && (Z.of_nat n =? 1))%Z then #"\ufffd"
             else if ((r =? 8232) || (r =? 8233))%Z then u_escape r
             else take n s) ++ escape_string fuel (drop n s)
      end
  end.
Definition encode_string (s : gostring) : gostring :=
  quote :: escape_string (length s) s ++ [quote].

(** ** Struct fields: exact name, else the folded one

    [foldName] of [encoding/json]: ASCII case, plus the two runes that fold to
    ASCII letters (long s and the Kelvin sign). *)
Fixpoint fold_name (s : gostring) : gostring :=
  match s with
  | a :: s1 =>
      match s1 with
      | b :: s2 =>
          if ((byteval a =? 197) && (byteval b =? 191))%Z then "s"%char :: fold_name s2
          else match s2 with
               | c :: s3 =>
                   if ((byteval a =? 226) && (byteval b =? 132) && (byteval c =? 170))%Z
                   then "k"%char :: fold_name s3
                   else lower_byte a :: fold_name s1
               | [] => lower_byte a :: fold_name s1
               end
      | [] => [lower_byte a]
      end
  | [] => []
  end.
(** The field a member key decodes into, among lower-case field names. *)
Definition field_of (fields : list gostring) (key : gostring) : option gostring :=
  if decide (key ∈ fields) then Some key
  else if decide (fold_name key ∈ fields) then Some (fold_name key) else None.

(** * Lemmas: ASCII strings survive encoding and parsing *)

Definition ascii_text (s : gostring) : Prop := Forall (fun c => is_ascii_byte c = true) s.

Lemma escape_string_ascii s : ascii_text s -> forall fuel, (length s <= fuel)%nat ->
  escape_string fuel s = s ≫= escape_byte.
Proof.
  induction 1 as [|c s Hc _ IH]; intros [|fuel] Hf; cbn in *; try done; try lia.
  rewrite Hc. by rewrite IH by lia.
Qed.

Lemma scan_escape_byte c fuel rest acc : is_ascii_byte c = true ->
  scan_string (S fuel) (escape_byte c ++ rest) acc = scan_string fuel rest (c :: acc).
Proof.
  intros H. destruct c as [[] [] [] [] [] [] [] []]; (vm_compute in H; discriminate H) || reflexivity.
Qed.

Lemma scan_string_encoded s : ascii_text s -> forall fuel rest acc, (length s < fuel)%nat ->
  scan_string fuel ((s ≫= escape_byte) ++ quote :: rest) acc = Some (reverse acc ++ s, rest).
Proof.
  induction 1 as [|c s Hc _ IH]; intros [|fuel] rest acc Hf; cbn [length] in Hf; try lia.
  - cbn [mbind list_bind app scan_string]. rewrite decide_True by done. by rewrite app_nil_r.
  - change ((c :: s) ≫= escape_byte) with (escape_byte c ++ (s ≫= escape_byte)).
    rewrite <-app_assoc, scan_escape_byte by done. rewrite IH by lia.
    by rewrite reverse_cons, <-app_assoc.
Qed.

Lemma escape_byte_length c : (1 <= length (escape_byte c))%nat.
Proof. destruct c as [[] [] [] [] [] [] [] []]; apply Nat.leb_le; vm_compute; reflexivity. Qed.
Lemma escape_length s : (length s <= length (s ≫= escape_byte))%nat.
Proof.
  induction s as [|c s IH]; [done|].
  change ((c :: s) ≫= escape_byte) with (escape_byte c ++ (s ≫= escape_byte)).
  rewrite length_app. cbn. pose proof (escape_byte_length c). lia.
Qed.

(** The decoder reads back an encoded ASCII string. *)
Lemma parse_encoded_body s rest : ascii_text s ->
  parse_string_body ((s ≫= escape_byte) ++ quote :: rest) = Some (s, rest).
Proof.
  intros H. unfold parse_string_body. rewrite scan_string_encoded; [done|done|].
  rewrite length_app. pose proof (escape_length s). cbn. lia.
Qed.

Lemma encode_string_ascii s : ascii_text s -> encode_string s = quote :: (s ≫= escape_byte) ++ [quote].
Proof. intros H. unfold encode_string. by rewrite escape_string_ascii. Qed.

Lemma skip_ws_quote r : skip_ws (quote :: r) = quote :: r.
Proof. done. Qed.

Lemma parse_value_string s f d rest : ascii_text s ->
  parse_value (S f) d (encode_string s ++ rest) = Some (JString s, rest).
Proof.
  intros H. rewrite encode_string_ascii by done. cbn [app parse_value]. rewrite skip_ws_quote.
  rewrite (decide_False (P := quote = "{"%char)), (decide_False (P := quote = "["%char)) by done.
  rewrite decide_True by done. rewrite <-app_assoc. cbn [app]. rewrite parse_encoded_body by done. done.
Qed.

(** One member of an object, followed by a comma or the closing brace. *)
Lemma parse_member_next k t v f d rest : ascii_text k ->
  parse_value f d t = Some (v, ","%char :: rest) ->
  parse_members (S f) d (encode_string k ++ ":"%char :: t) =
    '(l, r) ← parse_members f d rest; Some ((k, v) :: l, r).
Proof.
  intros Hk Hv. rewrite encode_string_ascii by done. cbn [app parse_members]. rewrite skip_ws_quote.
  rewrite decide_True by done. rewrite <-app_assoc. cbn [app]. rewrite parse_encoded_body by done. cbn [mbind option_bind].
  change (skip_ws (":"%char :: t)) with (":"%char :: t). cbv beta iota.
  rewrite decide_True by done. rewrite Hv. done.
Qed.
Lemma parse_member_last k t v f d rest : ascii_text k ->
  parse_value f d t = Some (v, "}"%char :: rest) ->
  parse_members (S f) d (encode_string k ++ ":"%char :: t) = Some ([(k, v)], rest).
Proof.
  intros Hk Hv. rewrite encode_string_ascii by done. cbn [app parse_members]. rewrite skip_ws_quote.
  rewrite decide_True by done. rewrite <-app_assoc. cbn [app]. rewrite parse_encoded_body by done. cbn [mbind option_bind].
  change (skip_ws (":"%char :: t)) with (":"%char :: t). cbv beta iota.
  rewrite decide_True by done. rewrite Hv. done.
Qed.
Lemma parse_value_object k t f d : (Z.of_nat d < 10000)%Z ->
  parse_value (S f) d ("{"%char :: encode_string k ++ t) =
    '(l, r) ← parse_members f (S d) (encode_string k ++ t); Some (JObject l, r).
Proof.
  intros Hd. cbn [parse_value]. change (skip_ws ("{"%char :: ?x)) with ("{"%char :: x).
  cbv beta iota. rewrite decide_True by done.
  assert (too_deep d = false) as ->. { unfold too_deep. apply Z.leb_gt. lia. }
  unfold encode_string at 1. cbn [app]. rewrite skip_ws_quote.
  rewrite decide_False by done. done.
Qed.
(** One element of an array, followed by a comma or the closing bracket. *)
Lemma parse_elem_next t v f d rest :
  parse_value f d t = Some (v, ","%char :: rest) ->
  parse_elems (S f) d t = '(l, r) ← parse_elems f d rest; Some (v :: l, r).
Proof. intros Hv. cbn [parse_elems]. by rewrite Hv. Qed.
Lemma parse_elem_last t v f d rest :
  parse_value f d t = Some (v, "]"%char :: rest) -> parse_elems (S f) d t = Some ([v], rest).
Proof. intros Hv. cbn [parse_elems]. by rewrite Hv. Qed.
(** An array whose first element is an object. *)
Lemma parse_value_array_of_objects t f d : (Z.of_nat d < 10000)%Z ->
  parse_value (S f) d ("["%char :: "{"%char :: t) =
    '(l, r) ← parse_elems f (S d) ("{"%char :: t); Some (JArray l, r).
Proof.
  intros Hd. cbn [parse_value]. change (skip_ws ("["%char :: ?x)) with ("["%char :: x).
  cbv beta iota. rewrite (decide_False (P := "["%char = "{"%char)), decide_True by done.
  assert (too_deep d = false) as ->. { unfold too_deep. apply Z.leb_gt. lia. }
  change (skip_ws ("{"%char :: ?x)) with ("{"%char :: x). cbv beta iota.
  by rewrite decide_False.
Qed.

(** * [encoding/json]: decoding into structs

    [json.Unmarshal] and [Decoder.Decode] into a Go struct, as combinators: a
    decoder takes the value the field holds already, since a member that is
    given twice is decoded twice.  A JSON null leaves a field as it is, and
    makes a pointer nil; unknown members are ignored; a value of another type
    is an error. *)

Local Open Scope Z_scope.

Definition decoder (A : Type) : Type := json -> A -> option A.
Definition dec_string : decoder gostring := fun j old =>
  match j with JString s => Some s | JNull => Some old | _ => None end.
(** [int]: 64 bits, and no fraction or exponent. *)
Definition dec_int : decoder Z := fun j old =>
  match j with JNumber lit => ParseInt lit | JNull => Some old | _ => None end.
Definition dec_pointer {A} (zero : A) (d : decoder A) : decoder (option A) := fun j old =>
  match j with JNull => Some None | _ => Some <$> d j (default zero old) end.
(** The fields by their tags, each with how it is decoded in the struct. *)
Definition field (A : Type) : Type := gostring * decoder A.
Definition find_field {A} (fields : list (field A)) (key : gostring) : option (decoder A) :=
  name ← field_of (map fst fields) key;
  '(_, f) ← list_find (fun f => fst f = name) fields;
  Some (snd f).
Fixpoint dec_members {A} (fields : list (field A)) (members : list (gostring * json)) (old : A) : option A :=
  match members with
  | [] => Some old
  | (key, v) :: members =>
      match find_field fields key with
      | Some d => new ← d v old; dec_members fields members new
      | None => dec_members fields members old
      end
  end.
Definition dec_struct {A} (fields : list (field A)) : decoder A := fun j old =>
  match j with JObject members => dec_members fields members old | JNull => Some old | _ => None end.
(** A field of a struct by its getter and setter. *)
Definition fld {A B} (name : gostring) (get : A -> B) (set : B -> A -> A) (d : decoder B) : field A :=
  (name, fun j old => new ← d j (get old); Some (set new old)).

Definition Unmarshal {A} (d : decoder A) (zero : A) (data : gostring) : option A :=
  j ← parse_document data; d j zero.
(** [json.NewDecoder(r).Decode]: the first value of the stream. *)
Definition Decode {A} (d : decoder A) (zero : A) (stream : gostring) : option A :=
  '(j, _) ← parse_prefix stream; d j zero.

Lemma Decode_Unmarshal {A} (d : decoder A) zero data x : Unmarshal d zero data = Some x -> Decode d zero data = Some x.
Proof.
  unfold Unmarshal, Decode, parse_document. destruct (parse_prefix data) as [[v r]|]; cbn; [|done]. by destruct (skip_ws r).
Qed.
