(* ===== verification/GoTime.v ===== *)
(** * 64-bit integers and Go's [time.Time] *)

From S2P Require Import Prelude GoStrings.
Local Open Scope Z_scope.

(** Two's complement wrap-around of a Go [int64] / [int]. *)
Definition wrap64 (z : Z) : Z := (z + 2 ^ 63) mod 2 ^ 64 - 2 ^ 63.

(** A wall-clock [time.Time]: seconds since January 1, year 1 UTC (an
    [int64]) and nanoseconds. *)
Record Time := mkTime { t_sec : Z; t_nsec : Z }.
#[global] Instance Time_eq_dec : EqDecision Time.
Proof. solve_decision. Defined.

Definition unixToInternal : Z := 62135596800.
Definition time_zero : Time := mkTime 0 0.
Definition IsZero (t : Time) : bool := (t_sec t =? 0) && (t_nsec t =? 0).
(** [time.Unix(sec, 0)] *)
Definition time_Unix (sec : Z) : Time := mkTime (wrap64 (sec + unixToInternal)) 0.
(** [t.Unix()] *)
Definition Unix (t : Time) : Z := wrap64 (t_sec t - unixToInternal).
Definition Before (t u : Time) : bool :=
  (t_sec t <? t_sec u) || ((t_sec t =? t_sec u) && (t_nsec t <? t_nsec u)).
Definition After (t u : Time) : bool := Before u t.

Lemma wrap64_range z : - 2 ^ 63 <= wrap64 z < 2 ^ 63.
Proof. unfold wrap64. pose proof (Z.mod_pos_bound (z + 2 ^ 63) (2 ^ 64)). lia. Qed.

Lemma wrap64_id z : - 2 ^ 63 <= z < 2 ^ 63 -> wrap64 z = z.
Proof. intros H. unfold wrap64. rewrite Z.mod_small; lia. Qed.

Lemma wrap64_sub_add a b : wrap64 (wrap64 (a + b) - b) = wrap64 a.
Proof.
  unfold wrap64. f_equal.
  replace ((a + b + 2 ^ 63) mod 2 ^ 64 - 2 ^ 63 - b + 2 ^ 63)
    with ((a + b + 2 ^ 63) mod 2 ^ 64 - b) by lia.
  rewrite Zminus_mod_idemp_l. f_equal. lia.
Qed.

(** [time.Unix] and [Unix] are inverse on 64-bit seconds. *)
Lemma Unix_time_Unix s : - 2 ^ 63 <= s < 2 ^ 63 -> Unix (time_Unix s) = s.
Proof. intros H. unfold Unix, time_Unix; cbn. rewrite wrap64_sub_add. by apply wrap64_id. Qed.

(** * Calendar dates and RFC 3339 timestamps of Go's [time] package

    [time.Date] in UTC, [time.Parse(time.RFC3339, s)] and
    [t.UTC().Format(time.RFC3339)], with the proof that a formatted instant is
    read back. *)

(** ** The proleptic Gregorian calendar *)
Definition isLeap (y : Z) : bool := (y mod 4 =? 0) && (negb (y mod 100 =? 0) || (y mod 400 =? 0)).
(** Days before January 1 of a year, from January 1 of year 1. *)
Definition days_before_year (y : Z) : Z :=
  let p := y - 1 in 365 * p + p / 4 - p / 100 + p / 400.
Definition month_lengths (leap : bool) : list Z :=
  [31; if leap then 29 else 28; 31; 30; 31; 30; 31; 31; 30; 31; 30; 31].
Definition daysIn (m y : Z) : Z := nth (Z.to_nat (m - 1)) (month_lengths (isLeap y)) 0.
Definition days_before_month (m y : Z) : Z :=
  fold_right Z.add 0 (take (Z.to_nat (m - 1)) (month_lengths (isLeap y))).

(** [time.Date(y, m, d, h, mi, s, ns, UTC)] for values in range. *)
Definition Date (y m d h mi s ns : Z) : Time :=
  mkTime ((days_before_year y + days_before_month m y + (d - 1)) * 86400 + h * 3600 + mi * 60 + s) ns.

(** ** Parsing *)
Definition digit_at (s : gostring) (i : nat) : option Z :=
  match s !! i with
  | Some c => if is_digit c then Some (byteval c - 48) else None
  | None => None
  end.
(** [getnum s fixed]: two digits, or one when the width is free. *)
Definition getnum (s : gostring) (fixed : bool) : option (Z * gostring) :=
  match digit_at s 0, digit_at s 1 with
  | Some a, Some b => Some (a * 10 + b, drop 2 s)
  | Some a, None => if fixed then None else Some (a, drop 1 s)
  | None, _ => None
  end.
Definition get_year (s : gostring) : option (Z * gostring) :=
  match digit_at s 0, digit_at s 1, digit_at s 2, digit_at s 3 with
  | Some a, Some b, Some c, Some d => Some (a * 1000 + b * 100 + c * 10 + d, drop 4 s)
  | _, _, _, _ => None
  end.
Definition skip_char (c : ascii) (s : gostring) : option gostring :=
  match s with
  | d :: s' => if decide (d = c) then Some s' else None
  | [] => None
  end.
Definition in_bounds (lo hi x : Z) : option unit := if (lo <=? x) && (x <=? hi) then Some tt else None.

Fixpoint take_digits (s : gostring) : gostring * gostring :=
  match s with
  | c :: s' => if is_digit c then let '(d, r) := take_digits s' in (c :: d, r) else ([], s)
  | [] => ([], [])
  end.
(** A fractional second, even though the layout has none: at most nine
    digits count. *)
Definition get_fraction (s : gostring) : Z * gostring :=
  match s with
  | c :: s' =>
      if bool_decide (c = "."%char) || bool_decide (c = ","%char) then
        match take_digits s' with
        | ([], _) => (0, s)
        | (ds, r) =>
            let ds := take 9 ds in
            (default 0 (digits_value ds 0) * 10 ^ (9 - Z.of_nat (length ds)), r)
        end
      else (0, s)
  | [] => (0, s)
  end.
(** The zone: "Z" or [+hh:mm]; 24 hours and 60 minutes are accepted. *)
Definition get_zone (s : gostring) : option (Z * gostring) :=
  match s with
  | sign :: s1 =>
      if decide (sign = "Z"%char) then Some (0, s1)
      else
        '(hr, s2) ← getnum s1 true;
        s3 ← skip_char ":"%char s2;
        '(mm, s4) ← getnum s3 true;
        _ ← in_bounds 0 24 hr; _ ← in_bounds 0 60 mm;
        let off := (hr * 60 + mm) * 60 in
        if decide (sign = "+"%char) then Some (off, s4)
        else if decide (sign = "-"%char) then Some (- off, s4) else None
  | [] => None
  end.
Definition shift_seconds (t : Time) (d : Z) : Time := mkTime (t_sec t + d) (t_nsec t).

Definition ParseRFC3339 (s : gostring) : option Time :=
  '(y, s) ← get_year s; s ← skip_char "-"%char s;
  '(m, s) ← getnum s true; _ ← in_bounds 1 12 m; s ← skip_char "-"%char s;
  '(d, s) ← getnum s true; s ← skip_char "T"%char s;
  '(h, s) ← getnum s false; _ ← in_bounds 0 23 h; s ← skip_char ":"%char s;
  '(mi, s) ← getnum s true; _ ← in_bounds 0 59 mi; s ← skip_char ":"%char s;
  '(sec, s) ← getnum s true; _ ← in_bounds 0 59 sec;
  let '(ns, s) := get_fraction s in
  '(off, s) ← get_zone s;
  match s with
  | [] => _ ← in_bounds 1 (daysIn m y) d; Some (shift_seconds (Date y m d h mi sec ns) (- off))
  | _ => None
  end.

(** ** Formatting *)
(** The year of a day number: an estimate, corrected by at most one. *)
Definition civil_year (d : Z) : Z :=
  let y := d * 400 / 146097 + 1 in
  if d <? days_before_year y then y - 1
  else if d <? days_before_year (y + 1) then y else y + 1.
(** The month and day of month of a day of the year. *)
Fixpoint civil_month (lens : list Z) (m rest : Z) : Z * Z :=
  match lens with
  | [] => (m, rest)
  | n :: lens => if rest <? n then (m, rest) else civil_month lens (m + 1) (rest - n)
  end.
Definition digits2 (n : Z) : gostring := [digit_char (n / 10); digit_char (n mod 10)].
Definition digits4 (n : Z) : gostring := digits2 (n / 100) ++ digits2 (n mod 100).
(** [t.UTC().Format(time.RFC3339)], for years 0 to 9999. *)
Definition FormatRFC3339 (t : Time) : gostring :=
  let d := t_sec t / 86400 in
  let r := t_sec t mod 86400 in
  let y := civil_year d in
  let '(m, md) := civil_month (month_lengths (isLeap y)) 1 (d - days_before_year y) in
  digits4 y ++ #"-" ++ digits2 m ++ #"-" ++ digits2 (md + 1) ++ #"T" ++
  digits2 (r / 3600) ++ #":" ++ digits2 (r / 60 mod 60) ++ #":" ++ digits2 (r mod 60) ++ #"Z".

Example parse_example : ParseRFC3339 #"2024-02-29T12:00:00.5+01:30" = Some (mkTime 63844799400 500000000).
Proof. vm_compute. reflexivity. Qed.
Example format_example : FormatRFC3339 (mkTime 63844799400 5) = #"2024-02-29T10:30:00Z".
Proof. vm_compute. reflexivity. Qed.
Example parse_bad_day : ParseRFC3339 #"2023-02-29T12:00:00Z" = None.
Proof. vm_compute. reflexivity. Qed.

(** ** Differences and sums *)
Definition minDuration : Z := - 2 ^ 63.
Definition maxDuration : Z := 2 ^ 63 - 1.
(** [t.Sub u], in nanoseconds, saturating. *)
Definition Sub (t u : Time) : Z :=
  Z.max minDuration (Z.min maxDuration ((t_sec t - t_sec u) * 10 ^ 9 + (t_nsec t - t_nsec u))).
(** [t.Add d] *)
Definition Add (t : Time) (d : Z) : Time :=
  let ns := t_nsec t + d in mkTime (t_sec t + ns / 10 ^ 9) (ns mod 10 ^ 9).
Definition Second : Z := 10 ^ 9.
Definition Minute : Z := 60 * Second.

(** * Lemmas: what is formatted is read back *)
Lemma days_before_year_step y : days_before_year (y + 1) = days_before_year y + (if isLeap y then 366 else 365).
Proof.
  unfold days_before_year, isLeap. replace (y + 1 - 1) with y by lia.
  destruct (y mod 4 =? 0) eqn:E4; destruct (y mod 100 =? 0) eqn:E100; destruct (y mod 400 =? 0) eqn:E400;
    cbn [negb andb orb]; rewrite ?Z.eqb_eq, ?Z.eqb_neq in *; Z.to_euclidean_division_equations; lia.
Qed.
Lemma days_before_year_bounds y : 146097 * (y - 1) - 699 <= 400 * days_before_year y <= 146097 * (y - 1) + 396.
Proof. unfold days_before_year. Z.to_euclidean_division_equations. lia. Qed.

Lemma civil_year_spec d : days_before_year (civil_year d) <= d < days_before_year (civil_year d + 1).
Proof.
  unfold civil_year. set (y := d * 400 / 146097 + 1).
  assert (146097 * (y - 1) <= d * 400 < 146097 * y) as Hy by (subst y; Z.to_euclidean_division_equations; lia).
  pose proof (days_before_year_bounds (y - 1)). pose proof (days_before_year_bounds (y + 2)).
  clearbody y. destruct (Z.ltb_spec d (days_before_year y)).
  { replace (y - 1 + 1) with y by lia. lia. }
  destruct (Z.ltb_spec d (days_before_year (y + 1))); [lia|]. replace (y + 1 + 1) with (y + 2) by lia. lia.
Qed.
Lemma days_before_year_mono a b : a <= b -> days_before_year a <= days_before_year b.
Proof. intros H. unfold days_before_year. Z.to_euclidean_division_equations. lia. Qed.
Lemma civil_year_range d : days_before_year 0 <= d < days_before_year 10000 -> 0 <= civil_year d <= 9999.
Proof.
  intros [H1 H2]. pose proof (civil_year_spec d) as [H3 H4]. split.
  - destruct (Z_lt_le_dec (civil_year d) 0) as [Hl|]; [|done].
    pose proof (days_before_year_mono (civil_year d + 1) 0 ltac:(lia)). lia.
  - destruct (Z_le_gt_dec (civil_year d) 9999) as [|Hl]; [done|].
    pose proof (days_before_year_mono 10000 (civil_year d) ltac:(lia)). lia.
Qed.

(** A day of the year is in one month. *)
Lemma civil_month_spec lens : forall m0 rest m r, Forall (fun n => 0 < n) lens ->
  0 <= rest < fold_right Z.add 0 lens -> civil_month lens m0 rest = (m, r) ->
  m0 <= m < m0 + Z.of_nat (length lens) /\ 0 <= r < nth (Z.to_nat (m - m0)) lens 0 /\
  fold_right Z.add 0 (take (Z.to_nat (m - m0)) lens) + r = rest.
Proof.
  induction lens as [|n lens IH]; intros m0 rest m r Hpos Hr; cbn [civil_month fold_right length] in *; [lia|].
  apply Forall_cons in Hpos as [Hn Hpos]. destruct (Z.ltb_spec rest n).
  - intros [= <- <-]. rewrite Z.sub_diag. change (Z.to_nat 0) with O. cbn [nth take fold_right]. lia.
  - intros H'. apply IH in H' as (H1 & H2 & H3); [|done|lia].
    replace (Z.to_nat (m - m0)) with (S (Z.to_nat (m - (m0 + 1)))) by lia. cbn [nth take fold_right]. lia.
Qed.
Lemma month_lengths_sum leap : fold_right Z.add 0 (month_lengths leap) = if leap then 366 else 365.
Proof. by destruct leap. Qed.
Lemma month_lengths_pos leap : Forall (fun n => 0 < n <= 31) (month_lengths leap).
Proof. destruct leap; repeat constructor; lia. Qed.

(** Digits are read back. *)
Lemma digit_char_value n : 0 <= n <= 9 -> is_digit (digit_char n) = true /\ byteval (digit_char n) = 48 + n.
Proof.
  intros H. assert (byteval (digit_char n) = 48 + n) as E.
  { unfold digit_char. rewrite byteval_of_Z, Z.mod_small; lia. }
  split; [|done]. unfold is_digit, in_range. rewrite E. lia.
Qed.
Lemma digit_at_char n s : 0 <= n <= 9 -> digit_at (digit_char n :: s) 0 = Some n.
Proof. intros H. destruct (digit_char_value n H) as [Hd Hv]. unfold digit_at. cbn. rewrite Hd, Hv. f_equal. lia. Qed.
Lemma digit_at_cons c s i : digit_at (c :: s) (S i) = digit_at s i.
Proof. done. Qed.
Lemma getnum_digits2 n s fixed : 0 <= n <= 99 -> getnum (digits2 n ++ s) fixed = Some (n, s).
Proof.
  intros H. pose proof (Z.div_mod n 10 ltac:(lia)). pose proof (Z.mod_pos_bound n 10 ltac:(lia)).
  assert (0 <= n / 10 <= 9) by (split; [apply Z.div_pos|apply Z.lt_succ_r, Z.div_lt_upper_bound]; lia).
  unfold getnum, digits2. cbn [app]. rewrite digit_at_cons, !digit_at_char by lia. cbn [drop]. repeat f_equal. lia.
Qed.
Lemma get_year_digits4 n s : 0 <= n <= 9999 -> get_year (digits4 n ++ s) = Some (n, s).
Proof.
  intros H. unfold get_year, digits4, digits2. cbn [app]. rewrite !digit_at_cons.
  rewrite !digit_at_char by (Z.to_euclidean_division_equations; lia). cbn [drop]. repeat f_equal.
  Z.to_euclidean_division_equations. lia.
Qed.
Lemma in_bounds_Some lo hi x : lo <= x <= hi -> in_bounds lo hi x = Some tt.
Proof. intros H. unfold in_bounds. by rewrite (proj2 (Z.leb_le _ _)), (proj2 (Z.leb_le _ _)) by lia. Qed.
Lemma skip_char_app c s : skip_char c ([c] ++ s) = Some s.
Proof. cbn. by rewrite decide_True. Qed.
Lemma get_zone_Z : get_fraction #"Z" = (0, #"Z") /\ get_zone #"Z" = Some (0, []).
Proof. split; vm_compute; reflexivity. Qed.

Lemma clock_split r : 0 <= r < 86400 ->
  0 <= r / 3600 <= 23 /\ 0 <= r / 60 mod 60 <= 59 /\ 0 <= r mod 60 <= 59 /\
  r / 3600 * 3600 + r / 60 mod 60 * 60 + r mod 60 = r.
Proof.
  intros H. replace (r / 3600) with (r / 60 / 60) by (by rewrite Z.div_div).
  Z.to_euclidean_division_equations. lia.
Qed.

Lemma parse_format t : days_before_year 0 <= t_sec t / 86400 < days_before_year 10000 ->
  ParseRFC3339 (FormatRFC3339 t) = Some (mkTime (t_sec t) 0).
Proof.
  intros Hd. unfold FormatRFC3339. set (d := t_sec t / 86400) in *. set (r := t_sec t mod 86400).
  assert (t_sec t = d * 86400 + r /\ 0 <= r < 86400) as [Ht Hr].
  { subst d r. pose proof (Z.div_mod (t_sec t) 86400 ltac:(lia)). pose proof (Z.mod_pos_bound (t_sec t) 86400). lia. }
  destruct (clock_split r Hr) as (Hh & Hm & Hs & Hc). clearbody d r. set (y := civil_year d) in *. pose proof (civil_year_range d Hd) as Hy.
  pose proof (civil_year_spec d) as Hys. fold y in Hy, Hys. rewrite days_before_year_step in Hys. clearbody y.
  destruct (civil_month _ _ _) as [m md] eqn:Em.
  apply civil_month_spec in Em as (H1 & H2 & H3);
    [|by eapply Forall_impl; [apply month_lengths_pos|intros ?; cbn; lia]|rewrite month_lengths_sum; lia].
  cbn [length month_lengths] in H1.
  assert (nth (Z.to_nat (m - 1)) (month_lengths (isLeap y)) 0 <= 31) as H4.
  { pose proof (month_lengths_pos (isLeap y)) as Hp. rewrite Forall_forall in Hp.
    destruct (nth_in_or_default (Z.to_nat (m - 1)) (month_lengths (isLeap y)) 0) as [Hin| ->]; [|lia].
    apply list_elem_of_In in Hin. apply Hp in Hin. lia. }
  change #"-" with ["-"%char]. change #"T" with ["T"%char]. change #":" with [":"%char].
  unfold ParseRFC3339. rewrite get_year_digits4 by done. cbn [mbind option_bind]. rewrite skip_char_app. cbn [mbind option_bind].
  rewrite getnum_digits2 by lia. cbn [mbind option_bind]. rewrite in_bounds_Some by lia. cbn [mbind option_bind].
  rewrite skip_char_app. cbn [mbind option_bind].
  rewrite getnum_digits2 by lia. cbn [mbind option_bind]. rewrite skip_char_app. cbn [mbind option_bind].
  rewrite getnum_digits2 by lia. cbn [mbind option_bind].
  rewrite (in_bounds_Some 0 23) by exact Hh. cbn [mbind option_bind].
  rewrite skip_char_app. cbn [mbind option_bind].
  rewrite getnum_digits2 by lia. cbn [mbind option_bind].
  rewrite (in_bounds_Some 0 59) by exact Hm. cbn [mbind option_bind].
  rewrite skip_char_app. cbn [mbind option_bind].
  rewrite getnum_digits2 by lia. cbn [mbind option_bind].
  rewrite (in_bounds_Some 0 59) by exact Hs. cbn [mbind option_bind].
  destruct get_zone_Z as [-> ->]. cbn [mbind option_bind].
  rewrite in_bounds_Some by (unfold daysIn; lia). cbn [mbind option_bind].
  unfold shift_seconds, Date. cbn [t_sec t_nsec]. unfold days_before_month. do 2 f_equal.
  lia.
Qed.
