(* ===== verification/GoURL.v ===== *)
(** * Go's [net/url]: [url.Parse] and [Hostname]

    As of Go 1.26.  The validation of an address in square brackets is
    [net/netip]'s: the class [GoNetip] stands for it. *)

From S2P Require Import Prelude GoStrings.
Local Open Scope Z_scope.

Record URL := mkURL {
  u_Scheme : gostring; u_Opaque : gostring; u_Host : gostring; u_Path : gostring; u_RawQuery : gostring }.

(** [netip.ParseAddr] accepts the address and it is not an IPv4 one. *)
Class GoNetip := { valid_ipv6 : gostring -> bool }.
Definition no_ipv6 : GoNetip := {| valid_ipv6 := fun _ => false |}.

Definition is_letter (c : ascii) : bool := is_lower c || is_upper c.
Definition is_alnum (c : ascii) : bool := is_letter c || is_digit c.

(** [strings.LastIndexByte], as the text before and after it. *)
Fixpoint cut_last (s : gostring) (c : ascii) : option (gostring * gostring) :=
  match s with
  | [] => None
  | a :: s' =>
      match cut_last s' c with
      | Some (l, r) => Some (a :: l, r)
      | None => if decide (a = c) then Some ([], s') else None
      end
  end.

(** ** Escapes *)
Inductive mode := encodeHost | encodeZone | encodePlain.
Definition host_byte (c : ascii) : bool := is_alnum c || bool_decide (c ∈ #"-_.~!$&'()*+,;=:[]<>") || (byteval c =? 34).
(** A byte the mode refuses unescaped. *)
Definition refused (m : mode) (c : ascii) : bool :=
  match m with encodePlain => false | _ => (byteval c <? 128) && negb (host_byte c) end.
(** An escape the mode refuses. *)
Definition refused_escape (m : mode) (v : Z) : bool :=
  match m with
  | encodeHost => (v <? 128) && negb (v =? 37)
  | encodeZone => negb (v =? 37) && negb (v =? 32) && negb (host_byte (byte_of_Z v))
  | encodePlain => false
  end.
Fixpoint unescape (m : mode) (s : gostring) : option gostring :=
  match s with
  | [] => Some []
  | c :: s1 =>
      if decide (c = "%"%char) then
        match s1 with
        | a :: b :: s2 =>
            x ← hex_digit a; y ← hex_digit b;
            if refused_escape m (x * 16 + y) then None
            else cons (byte_of_Z (x * 16 + y)) <$> unescape m s2
        | _ => None
        end
      else if refused m c then None else cons c <$> unescape m s1
  end.

(** ** The parts of a URL *)
(** [getScheme]: the scheme, empty when there is none, and the rest. *)
Fixpoint scheme_go (s acc : gostring) (raw : gostring) : option (gostring * gostring) :=
  match s with
  | [] => Some ([], raw)
  | c :: s' =>
      if is_letter c then scheme_go s' (c :: acc) raw
      else if is_digit c || bool_decide (c ∈ #"+-.") then
        match acc with [] => Some ([], raw) | _ => scheme_go s' (c :: acc) raw end
      else if decide (c = ":"%char) then
        match acc with [] => None | _ => Some (reverse acc, s') end
      else Some ([], raw)
  end.
Definition getScheme (raw : gostring) : option (gostring * gostring) := scheme_go raw [] raw.

Definition validOptionalPort (port : gostring) : bool :=
  match port with
  | [] => true
  | c :: ds => bool_decide (c = ":"%char) && forallb is_digit ds
  end.
Definition validUserinfo (s : gostring) : bool :=
  forallb (fun c => is_alnum c || bool_decide (c ∈ #"-._:~!$&'()*+,;=%@")) s.

Section Parse.
Context {N : GoNetip}.

(** The text before the first occurrence of "%25" and from there on. *)
Fixpoint cut_zone (s : gostring) : option (gostring * gostring) :=
  if HasPrefix s #"%25" then Some ([], s)
  else match s with
       | [] => None
       | a :: s' => match cut_zone s' with Some (l, r) => Some (a :: l, r) | None => None end
       end.
Definition parseHost (host : gostring) : option gostring :=
  match cut_last host "["%char with
  | Some ([], _) =>
      match cut_last host "]"%char with
      | None => None
      | Some (before, colonPort) =>
          if negb (validOptionalPort colonPort) then None
          else
            let inner := drop 1 before in
            addr ← (match cut_zone inner with
                    | Some (a, z) => a' ← unescape encodeHost a; z' ← unescape encodeZone z; Some (a' ++ z')
                    | None => unescape encodeHost inner
                    end);
            if valid_ipv6 addr then Some (#"[" ++ addr ++ #"]" ++ colonPort) else None
      end
  | Some _ => None
  | None =>
      match Cut host ":"%char with
      | Some (_, p) => if validOptionalPort (":"%char :: p) then unescape encodeHost host else None
      | None => unescape encodeHost host
      end
  end.
(** [parseAuthority]: the host, when the user information is valid. *)
Definition parseAuthority (authority : gostring) : option gostring :=
  match cut_last authority "@"%char with
  | None => parseHost authority
  | Some (userinfo, h) =>
      host ← parseHost h;
      if validUserinfo userinfo then _ ← unescape encodePlain userinfo; Some host else None
  end.

Definition has_ctl (s : gostring) : bool := existsb (fun c => (byteval c <? 32) || (byteval c =? 127)) s.
Definition count_byte (c : ascii) (s : gostring) : nat := length (filter (fun d => d = c) s).

Context {U : GoUnicode}.
Definition parse_url (raw : gostring) : option URL :=
  if has_ctl raw then None
  else if str_eqb raw #"*" then Some (mkURL [] [] [] #"*" [])
  else
    '(scheme, rest) ← getScheme raw;
    let scheme := ToLower scheme in
    let '(rest, query) :=
      if HasSuffix rest #"?" && (count_byte "?"%char rest =? 1)%nat then (take (length rest - 1) rest, [])
      else match Cut rest "?"%char with Some (r, q) => (r, q) | None => (rest, []) end in
    let rooted := HasPrefix rest #"/" in
    if negb rooted && negb (str_eqb scheme []) then Some (mkURL scheme rest [] [] query)
    else if negb rooted && bool_decide (":"%char ∈ match Cut rest "/"%char with Some (seg, _) => seg | None => rest end)
    then None
    else
      '(host, path) ←
        (if (negb (str_eqb scheme []) || negb (HasPrefix rest #"///")) && HasPrefix rest #"//" then
           let authority := drop 2 rest in
           let '(authority, path) := match Cut authority "/"%char with
                                     | Some (a, p) => (a, "/"%char :: p)
                                     | None => (authority, []) end in
           host ← parseAuthority authority; Some (host, path)
         else Some ([], rest));
      path ← unescape encodePlain path;
      Some (mkURL scheme [] host path query).
Definition Parse (raw : gostring) : option URL :=
  match Cut raw "#"%char with
  | None => parse_url raw
  | Some (u, frag) =>
      url ← parse_url u;
      _ ← unescape encodePlain frag; Some url
  end.
End Parse.

(** [u.Hostname()] *)
Definition Hostname (u : URL) : gostring :=
  let host := match cut_last (u_Host u) ":"%char with
              | Some (h, p) => if validOptionalPort (":"%char :: p) then h else u_Host u
              | None => u_Host u
              end in
  if HasPrefix host #"[" && HasSuffix host #"]" then take (length host - 2) (drop 1 host) else host.

#[local] Existing Instance no_ipv6.
#[local] Existing Instance ascii_unicode.
Example parse_pr : Parse #"HTTPS://me:pw@github.com:443/a%20b/pull/1?x=1#top" =
  Some (mkURL #"https" [] #"github.com:443" #"/a b/pull/1" #"x=1").
Proof. vm_compute. reflexivity. Qed.
Example parse_no_host : Hostname <$> Parse #"https:///x" = Some [].
Proof. vm_compute. reflexivity. Qed.
Example parse_opaque : u_Opaque <$> Parse #"mailto:a@b" = Some #"a@b".
Proof. vm_compute. reflexivity. Qed.
Example parse_colons : Parse #"http://a:80:81/" = None.
Proof. vm_compute. reflexivity. Qed.
