(* ===== verification/GoDuration.v ===== *)
(** * [time.Duration]: [time.ParseDuration] and [String]

    A duration is an [int64] number of nanoseconds; the parser works on
    [uint64] and refuses what does not fit, with the fractions of a unit
    computed in [float64] as the library does. *)

From S2P Require Import Prelude GoStrings GoFloat.
Local Open Scope Z_scope.

Definition two63 : Z := 2 ^ 63.

(** [leadingInt]: the value and the rest; [None] is an overflow. *)
Fixpoint leadingInt (s : gostring) (x : Z) : option (Z * gostring) :=
  match s with
  | c :: s' =>
      if is_digit c then
        if two63 / 10 <? x then None
        else let x' := x * 10 + (byteval c - 48) in if two63 <? x' then None else leadingInt s' x'
      else Some (x, s)
  | [] => Some (x, s)
  end.
(** [leadingFraction]: the value, the number of digits it stands for, the
    rest; digits that do not fit are skipped. *)
Fixpoint leadingFraction (s : gostring) (x digits : Z) (overflow : bool) : Z * Z * gostring :=
  match s with
  | c :: s' =>
      if is_digit c then
        if overflow then leadingFraction s' x digits true
        else if (two63 - 1) / 10 <? x then leadingFraction s' x digits true
        else let y := x * 10 + (byteval c - 48) in
             if two63 <? y then leadingFraction s' x digits true else leadingFraction s' y (digits + 1) false
      else (x, digits, s)
  | [] => (x, digits, s)
  end.
Fixpoint span_unit (s : gostring) : gostring * gostring :=
  match s with
  | c :: s' => if is_digit c || bool_decide (c = "."%char) then ([], s) else let '(u, r) := span_unit s' in (c :: u, r)
  | [] => ([], [])
  end.
(** The micro sign and the Greek letter. *)
Definition micro1 : gostring := [byte_of_Z 194; byte_of_Z 181].
Definition micro2 : gostring := [byte_of_Z 206; byte_of_Z 188].
Definition unit_of (u : gostring) : option Z :=
  if str_eqb u #"ns" then Some 1
  else if str_eqb u #"us" || str_eqb u (micro1 ++ #"s") || str_eqb u (micro2 ++ #"s") then Some (10 ^ 3)
  else if str_eqb u #"ms" then Some (10 ^ 6)
  else if str_eqb u #"s" then Some (10 ^ 9)
  else if str_eqb u #"m" then Some (60 * 10 ^ 9)
  else if str_eqb u #"h" then Some (3600 * 10 ^ 9)
  else None.
(** [uint64(f)] of a float that is not negative. *)
Definition f_trunc (f : float64) : Z :=
  match f with S754_finite false m e => let '(n, d) := f_ratio m e in n / d | _ => 0 end.
Definition f_div : float64 -> float64 -> float64 := SFdiv prec64 emax64.

(** One number and its unit at the front of [s]. *)
Definition parse_component (s : gostring) : option (Z * gostring) :=
  match s with
  | [] => None
  | c :: _ =>
      if negb (bool_decide (c = "."%char) || is_digit c) then None
      else
        '(v, s1) ← leadingInt s 0;
        let pre := negb (length s1 =? length s)%nat in
        let '(f, digits, s2, post) :=
          match s1 with
          | d :: s1' =>
              if decide (d = "."%char) then
                let '(f, digits, s2) := leadingFraction s1' 0 0 false in (f, digits, s2, negb (length s2 =? length s1')%nat)
              else (0, 0, s1, false)
          | [] => (0, 0, s1, false)
          end in
        if negb pre && negb post then None
        else
          let '(u, s3) := span_unit s2 in
          if str_eqb u [] then None
          else
            unit ← unit_of u;
            if two63 / unit <? v then None
            else
              let v1 := v * unit in
              if 0 <? f then
                let v2 := v1 + f_trunc (f_mul (f_of_Z f) (f_div (f_of_Z unit) (f_of_Z (10 ^ digits)))) in
                if two63 <? v2 then None else Some (v2, s3)
              else Some (v1, s3)
  end.
(** The sum of the components, a [uint64]; each takes at least one byte. *)
Fixpoint parse_components (fuel : nat) (s : gostring) (d : Z) : option Z :=
  match s, fuel with
  | [], _ => Some d
  | _, O => None
  | _, S fuel =>
      '(v, s') ← parse_component s;
      let d' := (d + v) mod 2 ^ 64 in
      if two63 <? d' then None else parse_components fuel s' d'
  end.
(** [time.ParseDuration]: [None] is any error. *)
Definition ParseDuration (s : gostring) : option Z :=
  let '(neg, s) := drop_sign s in
  if str_eqb s #"0" then Some 0
  else if str_eqb s [] then None
  else
    d ← parse_components (length s) s 0;
    if neg : bool then Some (if d =? two63 then - two63 else - d)
    else if two63 - 1 <? d then None else Some d.

(** ** [String] *)
(** [fmtFrac]: the fraction of [v / 10^prec] without its trailing zeros, and
    the integer part. *)
Fixpoint frac_digits (prec : nat) (v : Z) (print : bool) (acc : gostring) : gostring * Z * bool :=
  match prec with
  | O => (acc, v, print)
  | S prec =>
      let digit := v mod 10 in
      let print := print || negb (digit =? 0) in
      frac_digits prec (v / 10) print (if print then digit_char digit :: acc else acc)
  end.
Definition fmtFrac (prec : nat) (v : Z) : gostring * Z :=
  let '(ds, v', print) := frac_digits prec v false [] in (if print then "."%char :: ds else [], v').
Definition DurationString (d : Z) : gostring :=
  let u := Z.abs d in
  let body :=
    if u <? 10 ^ 9 then
      if u =? 0 then #"0s"
      else if u <? 10 ^ 3 then FormatUint u ++ #"ns"
      else if u <? 10 ^ 6 then let '(frac, v) := fmtFrac 3 u in FormatUint v ++ frac ++ micro1 ++ #"s"
      else let '(frac, v) := fmtFrac 6 u in FormatUint v ++ frac ++ #"ms"
    else
      let '(frac, secs) := fmtFrac 9 u in
      let s := FormatUint (secs mod 60) ++ frac ++ #"s" in
      let mins := secs / 60 in
      if 0 <? mins then
        let ms := FormatUint (mins mod 60) ++ #"m" ++ s in
        let hours := mins / 60 in
        if 0 <? hours then FormatUint hours ++ #"h" ++ ms else ms
      else s in
  if d <? 0 then #"-" ++ body else body.

(** ** Checks on the library's examples *)
Example parse_hours : ParseDuration #"48h" = Some (48 * 3600 * 10 ^ 9).
Proof. vm_compute. reflexivity. Qed.
Example parse_mixed : ParseDuration #"-1h30.5m2ms" = Some (- (5430 * 10 ^ 9 + 2 * 10 ^ 6)).
Proof. vm_compute. reflexivity. Qed.
Example parse_bad : ParseDuration #"3" = None /\ ParseDuration #"h" = None /\ ParseDuration #"9223372036854775808ns" = None.
Proof. vm_compute. auto. Qed.
Example print_day : DurationString (24 * 3600 * 10 ^ 9) = #"24h0m0s" /\ DurationString 1500000000 = #"1.5s" /\
  DurationString 1200000 = #"1.2ms".
Proof. vm_compute. auto. Qed.

(** A parsed duration fits an [int64]. *)
Lemma parse_components_range fuel s d v : 0 <= d <= two63 -> parse_components fuel s d = Some v -> 0 <= v <= two63.
Proof.
  revert s d. induction fuel as [|fuel IH]; intros s d Hd; (destruct s as [|c s]; cbn [parse_components]; [by intros [= <-]|]); [done|].
  destruct (parse_component (c :: s)) as [[x s']|]; cbn; [|done].
  destruct (two63 <? _) eqn:E; [done|]. apply Z.ltb_ge in E. apply IH. split; [apply Z.mod_pos_bound; lia|done].
Qed.
Lemma ParseDuration_range s d : ParseDuration s = Some d -> - 2 ^ 63 <= d < 2 ^ 63.
Proof.
  unfold ParseDuration. destruct (drop_sign s) as [neg s']. destruct (str_eqb s' #"0"); [intros [= <-]; lia|].
  destruct (str_eqb s' []); [done|]. destruct (parse_components _ _ _) as [v|] eqn:E; cbn; [|done].
  apply parse_components_range in E; [|unfold two63; lia]. unfold two63 in *.
  destruct neg; [destruct (v =? 2 ^ 63) eqn:E1|destruct (_ <? v) eqn:E1]; try done; intros [= <-]; lia.
Qed.
