(* ===== verification/Dedup.v ===== *)
(** * Delivery deduplication: [internal/webhook/dedup.go]

    The identifiers of recent webhook deliveries with the time they were
    seen, bounded in number; each call runs under the mutex.  [sort.Slice]
    leaves the order of entries of the same time open, so the order by age is
    a class: any sorted listing of the entries. *)

From stdpp Require Import sorting.
From S2P Require Import Prelude GoStrings GoTime.
Local Open Scope Z_scope.

Definition maxDeliveryIDs : Z := 10000.
Definition deliveryIDTTL : Z := 5 * Minute.
Abbreviation entries := (gmap gostring Time).

(** The entries listed from the oldest. *)
Definition not_after (a b : gostring * Time) : Prop := Before (snd b) (snd a) = false.
Class AgeOrder := {
  by_age : entries -> list (gostring * Time);
  by_age_all : forall m, by_age m ≡ₚ map_to_list m;
  by_age_sorted : forall m, StronglySorted not_after (by_age m) }.

Definition NewDeliveryDedup : entries := ∅.
Definition fresh (now ts : Time) : bool := Sub now ts <? deliveryIDTTL.
(** [delete] of each of the first entries. *)
Definition drop_oldest {O : AgeOrder} (n : Z) (m : entries) : entries :=
  foldr (fun kt m => delete (fst kt) m) m (take (Z.to_nat n) (by_age m)).
Definition make_room {O : AgeOrder} (now : Time) (m : entries) : entries :=
  if maxDeliveryIDs <=? Z.of_nat (size m) then
    let m1 := filter (fun kt => fresh now (snd kt) = true) m in
    if maxDeliveryIDs <=? Z.of_nat (size m1) then drop_oldest (maxDeliveryIDs / 10) m1 else m1
  else m.
Definition IsDuplicate {O : AgeOrder} (id : gostring) (now : Time) (m : entries) : bool * entries :=
  if str_eqb id [] then (false, m)
  else
    match m !! id with
    | Some ts =>
        if fresh now ts then (true, m) else (false, <[id := now]> (make_room now (delete id m)))
    | None => (false, <[id := now]> (make_room now m))
    end.
(** A sequence of calls. *)
Fixpoint deliveries {O : AgeOrder} (calls : list (gostring * Time)) (m : entries) : entries :=
  match calls with [] => m | (id, now) :: calls => deliveries calls (snd (IsDuplicate id now m)) end.

Section Facts.
Context {O : AgeOrder}.

(** ** The bound *)
Definition drop_keys (l : list (gostring * Time)) (m : entries) : entries := foldr (fun kt m => delete (fst kt) m) m l.
Lemma drop_keys_lookup l m k : drop_keys l m !! k = if decide (k ∈ map fst l) then None else m !! k.
Proof.
  induction l as [|[k' t] l IH]; [done|]. change (drop_keys ((k', t) :: l) m) with (delete k' (drop_keys l m)). cbn [map fst].
  destruct (decide (k = k')) as [->|Hne].
  - rewrite lookup_delete_eq, decide_True; [done|by left].
  - rewrite lookup_delete_ne by done. rewrite IH. apply decide_ext. rewrite elem_of_cons. naive_solver.
Qed.
Lemma drop_keys_size l m : NoDup (map fst l) -> (forall k, k ∈ map fst l -> is_Some (m !! k)) ->
  (size (drop_keys l m) + length l = size m)%nat.
Proof.
  induction l as [|[k t] l IH]; [cbn; lia|]. intros [Hk Hl]%NoDup_cons Hin.
  change (drop_keys ((k, t) :: l) m) with (delete k (drop_keys l m)).
  assert (size (drop_keys l m) + length l = size m)%nat as H by (apply IH; [done|]; intros k' Hk'; apply Hin; by right).
  destruct (Hin k) as [x Hx]; [by left|].
  assert (drop_keys l m !! k = Some x) as Hk' by (rewrite drop_keys_lookup, decide_False; done).
  pose proof (map_size_delete_Some k (drop_keys l m) (ex_intro _ x Hk')) as Hs.
  assert (size (drop_keys l m) <> 0)%nat by (rewrite map_size_non_empty_iff; intros H0; by rewrite H0 in Hk'). cbn [length]. lia.
Qed.
Lemma by_age_nodup m : NoDup (map fst (by_age m)).
Proof. rewrite (by_age_all m). apply NoDup_fst_map_to_list. Qed.
Lemma by_age_lookup m k t : (k, t) ∈ by_age m <-> m !! k = Some t.
Proof. rewrite (by_age_all m). apply elem_of_map_to_list. Qed.
Lemma by_age_length m : length (by_age m) = size m.
Proof. rewrite (by_age_all m). apply length_map_to_list. Qed.
Lemma drop_oldest_size n m : Z.of_nat (size (drop_oldest n m)) = Z.max 0 (Z.of_nat (size m) - Z.max 0 n).
Proof.
  unfold drop_oldest. fold (drop_keys (take (Z.to_nat n) (by_age m)) m).
  pose proof (drop_keys_size (take (Z.to_nat n) (by_age m)) m) as H. rewrite length_take, by_age_length in H.
  assert (size (drop_keys (take (Z.to_nat n) (by_age m)) m) + Z.to_nat n `min` size m = size m)%nat; [|lia].
  apply H.
  - rewrite <- firstn_map. eapply sublist_NoDup; [apply by_age_nodup|apply sublist_take].
  - intros k ([k' t] & -> & Hk)%list_elem_of_fmap. apply elem_of_take in Hk as (i & Hi & _).
    apply list_elem_of_lookup_2, by_age_lookup in Hi. by exists t.
Qed.
Lemma make_room_size now m : Z.of_nat (size m) <= maxDeliveryIDs -> Z.of_nat (size (make_room now m)) < maxDeliveryIDs.
Proof.
  intros Hm. unfold make_room. destruct (maxDeliveryIDs <=? Z.of_nat (size m)) eqn:E1; [|lia].
  set (m1 := filter _ m). assert (size m1 <= size m)%nat as Hs by (apply map_subseteq_size, map_filter_subseteq).
  destruct (maxDeliveryIDs <=? Z.of_nat (size m1)) eqn:E2; [|lia]. rewrite drop_oldest_size. unfold maxDeliveryIDs in *. change (10000 / 10) with 1000. lia.
Qed.

Lemma size_insert_le (k : gostring) (v : Time) (m : entries) : (size (<[k := v]> m) <= S (size m))%nat.
Proof.
  destruct (m !! k) eqn:E; [rewrite map_size_insert_Some by eauto|rewrite map_size_insert_None by done]; lia.
Qed.
Lemma IsDuplicate_size id now m : Z.of_nat (size m) <= maxDeliveryIDs ->
  Z.of_nat (size (snd (IsDuplicate id now m))) <= maxDeliveryIDs.
Proof.
  intros Hm. assert (forall m0 : entries, Z.of_nat (size m0) <= maxDeliveryIDs ->
    Z.of_nat (size (<[id := now]> (make_room now m0))) <= maxDeliveryIDs) as Hi.
  { intros m0 H0%(make_room_size now). pose proof (size_insert_le id now (make_room now m0)). lia. }
  unfold IsDuplicate. destruct (str_eqb id []); [done|]. destruct (m !! id); [|by apply Hi]. destruct (fresh _ _); [done|].
  apply Hi. assert (size (delete id m) <= size m)%nat by (apply map_subseteq_size, delete_subseteq). cbn. lia.
Qed.
(** however many deliveries arrive, and whatever their times, at most
    10000 identifiers are kept. *)
Theorem dedup_bounded calls : Z.of_nat (size (deliveries calls NewDeliveryDedup)) <= maxDeliveryIDs.
Proof.
  assert (forall m, Z.of_nat (size m) <= maxDeliveryIDs -> Z.of_nat (size (deliveries calls m)) <= maxDeliveryIDs) as H.
  { induction calls as [|[id now] calls IH]; intros m Hm; [done|]. apply IH, IsDuplicate_size, Hm. }
  apply H. unfold NewDeliveryDedup. rewrite map_size_empty. done.
Qed.

(** ** A delivery is remembered *)
(** The entries that are not older than a time. *)
Definition young (t0 : Time) (m : entries) : entries := filter (fun kt => Before (snd kt) t0 = false) m.
Lemma young_le t0 m1 m2 : m1 ⊆ m2 -> (size (young t0 m1) <= size (young t0 m2))%nat.
Proof. intros H. by apply map_subseteq_size, map_filter_subseteq_mono. Qed.
Lemma young_insert t0 k v m : (size (young t0 (<[k := v]> m)) <= S (size (young t0 m)))%nat.
Proof.
  unfold young. destruct (decide (Before v t0 = false)).
  - rewrite map_filter_insert_True by done. apply size_insert_le.
  - rewrite map_filter_insert_False by done. apply Nat.le_le_succ_r. by apply young_le, delete_subseteq.
Qed.
Lemma young_listed t0 (l : list (gostring * Time)) m : NoDup (map fst l) -> (forall k t, (k, t) ∈ l -> m !! k = Some t /\ Before t t0 = false) ->
  (length l <= size (young t0 m))%nat.
Proof.
  intros Hn Hl. rewrite <- (length_map fst l), <- (size_list_to_set (C := gset gostring)) by done. rewrite <- size_dom.
  apply subseteq_size. intros k ([k' t] & -> & Hk)%elem_of_list_to_set%list_elem_of_fmap. destruct (Hl _ _ Hk) as [H1 H2].
  apply elem_of_dom. exists t. by apply map_lookup_filter_Some.
Qed.
(** Among the first [n] of the listing, only with many younger ones after it. *)
Lemma listed_first n k t m : (k, t) ∈ take n (by_age m) -> (size m < n + size (young t m))%nat.
Proof.
  intros Hk. set (l := drop n (by_age m)). assert (length l = size m - n)%nat as Hlen by (subst l; rewrite length_drop, by_age_length; lia).
  enough (length ((k, t) :: l) <= size (young t m))%nat by (cbn [length] in *; lia).
  pose proof (by_age_nodup m) as Hn. pose proof (by_age_sorted m) as Hs. rewrite <- (take_drop n (by_age m)) in Hn, Hs. fold l in Hn, Hs.
  apply young_listed.
  - rewrite map_app in Hn. apply NoDup_app in Hn as (_ & Hn & Hl). apply NoDup_cons; split; [|done].
    apply Hn. apply list_elem_of_fmap. by exists (k, t).
  - intros k' t' [[= -> ->]|Hin]%elem_of_cons.
    + split; [|unfold Before; lia]. apply by_age_lookup. by eapply subseteq_take.
    + split; [apply by_age_lookup; by eapply (subseteq_drop n)|]. exact (StronglySorted_app_1_elem_of _ _ _ _ _ Hs Hk Hin).
Qed.

Definition crowd (t0 : Time) (m : entries) : Z := Z.of_nat (size (young t0 m)).
(** The entry of [id] is kept, with at most [n] entries as young. *)
Definition remembered (id : gostring) (t0 : Time) (n : Z) (m : entries) : Prop := m !! id = Some t0 /\ crowd t0 m <= n.
Lemma make_room_remembered id t0 now m : fresh now t0 = true -> remembered id t0 9000 m ->
  make_room now m !! id = Some t0 /\ make_room now m ⊆ m.
Proof.
  intros Hf [Hid Hc]. unfold make_room. destruct (_ <=? _); [|done]. set (m1 := filter _ m).
  assert (m1 !! id = Some t0) as H1 by (by apply map_lookup_filter_Some).
  assert (m1 ⊆ m) as Hs by apply map_filter_subseteq.
  destruct (maxDeliveryIDs <=? Z.of_nat (size m1)) eqn:E; [|done].
  unfold drop_oldest. fold (drop_keys (take (Z.to_nat (maxDeliveryIDs / 10)) (by_age m1)) m1). split.
  - rewrite drop_keys_lookup, decide_False; [done|]. intros ([k t] & -> & Hk)%list_elem_of_fmap.
    assert (t = t0) as -> by (apply elem_of_take in Hk as (i & Hi & _); apply list_elem_of_lookup_2, by_age_lookup in Hi; cbn in *; congruence).
    apply listed_first in Hk. pose proof (young_le t0 _ _ Hs). change (maxDeliveryIDs / 10) with 1000 in Hk.
    unfold crowd, maxDeliveryIDs in *. lia.
  - etrans; [|exact Hs]. apply map_subseteq_spec. intros k t. rewrite drop_keys_lookup. by case_decide.
Qed.
Lemma IsDuplicate_remembered id t0 n id' now m : n < 9000 -> fresh now t0 = true -> remembered id t0 n m ->
  remembered id t0 (n + 1) (snd (IsDuplicate id' now m)).
Proof.
  intros Hn Hf [Hid Hc]. assert (remembered id t0 (n + 1) m) as Hsame by (split; [done|lia]).
  assert (forall m0, m0 ⊆ m -> m0 !! id = Some t0 -> id' <> id ->
    remembered id t0 (n + 1) (<[id' := now]> (make_room now m0))) as Hi.
  { intros m0 Hs H0 Hne. pose proof (young_le t0 _ _ Hs) as Hy. unfold crowd in Hc.
    destruct (make_room_remembered id t0 now m0 Hf) as [H1 H2]; [split; unfold crowd; [done|lia]|]. split.
    - by rewrite lookup_insert_ne.
    - pose proof (young_insert t0 id' now (make_room now m0)). pose proof (young_le t0 _ _ H2). unfold crowd. lia. }
  unfold IsDuplicate. destruct (str_eqb id' []); [exact Hsame|]. destruct (m !! id') as [ts|] eqn:E.
  - destruct (fresh now ts) eqn:Ef; [exact Hsame|]. assert (id' <> id) by (intros ->; congruence).
    apply Hi; [apply delete_subseteq|by rewrite lookup_delete_ne|done].
  - apply Hi; [done|done|congruence].
Qed.
Lemma deliveries_remembered id t0 calls n m : n + Z.of_nat (length calls) <= 9000 ->
  Forall (fun c => fresh (snd c) t0 = true) calls -> remembered id t0 n m -> deliveries calls m !! id = Some t0.
Proof.
  revert n m. induction calls as [|[id' now] calls IH]; intros n m Hn Hc Hm; [by destruct Hm|].
  apply Forall_cons in Hc as [Hf Hc]. cbn [length] in Hn. apply (IH (n + 1)); [lia|done|]. apply IsDuplicate_remembered; [lia|done|done].
Qed.
(** a delivery that was processed is refused when it is sent again within
    five minutes, as long as no more than 9000 deliveries are as recent: the
    eviction of the oldest tenth, at the bound, does not reach it. *)
Theorem replay_detected id t0 m m0 calls now :
  id <> [] -> IsDuplicate id t0 m = (false, m0) ->
  crowd t0 m0 + Z.of_nat (length calls) <= 9000 -> Forall (fun c => fresh (snd c) t0 = true) calls -> fresh now t0 = true ->
  fst (IsDuplicate id now (deliveries calls m0)) = true.
Proof.
  intros Hid H0 Hn Hc Hf. assert (m0 !! id = Some t0) as Hm.
  { unfold IsDuplicate in H0. unfold str_eqb in H0. rewrite bool_decide_eq_false_2 in H0 by done.
    destruct (m !! id); [destruct (fresh _ _)|]; try done; injection H0 as <-; apply lookup_insert_eq. }
  assert (deliveries calls m0 !! id = Some t0) as H by (eapply deliveries_remembered; [exact Hn|done|by split]).
  unfold IsDuplicate, str_eqb. rewrite bool_decide_eq_false_2 by done. by rewrite H, Hf.
Qed.
End Facts.

(** ** An order *)
Module DedupDemo.
Definition older (a b : gostring * Time) : Prop := not_after a b.
#[export] Instance older_decision : RelDecision older.
Proof. intros a b. unfold older, not_after. apply _. Defined.
#[export] Instance older_total : Total older.
Proof. intros [i a] [j b]. unfold older, not_after, Before. cbn. lia. Qed.
#[export] Instance older_trans : Transitive older.
Proof. intros [i a] [j b] [k c]. unfold older, not_after, Before. cbn. lia. Qed.
#[export, program] Instance merge_order : AgeOrder := { by_age m := merge_sort older (map_to_list m) }.
Next Obligation. intros m. apply merge_sort_Permutation. Qed.
Next Obligation. intros m. apply (StronglySorted_merge_sort _). Qed.
Definition calls : list (gostring * Time) := [(#"b", time_zero); (#"a", time_zero); ([], time_zero)].
Definition first : entries := snd (IsDuplicate (O := merge_order) #"a" time_zero NewDeliveryDedup).
End DedupDemo.
Lemma replay_detected_witness : fst (IsDuplicate (O := DedupDemo.merge_order) #"a" time_zero
  (deliveries (O := DedupDemo.merge_order) DedupDemo.calls DedupDemo.first)) = true.
Proof.
  apply (replay_detected (O := DedupDemo.merge_order) #"a" time_zero NewDeliveryDedup DedupDemo.first DedupDemo.calls time_zero).
  - done.
  - vm_compute. reflexivity.
  - vm_compute. done.
  - by repeat constructor.
  - reflexivity.
Defined.
