(* ===== verification/GoSort.v ===== *)
(** * String order and sorting ([sort.Strings], [sort.Slice])

    Strings are compared byte by byte; sorting strings has one possible
    result, whatever the algorithm. *)

From S2P Require Import Prelude GoStrings.
From stdpp Require Export sorting.

Lemma str_compare_refl s : str_compare s s = Eq.
Proof. induction s as [|a s IH]; cbn; [done|]. by rewrite Z.compare_refl. Qed.
Lemma str_compare_eq s t : str_compare s t = Eq -> s = t.
Proof.
  revert t. induction s as [|a s IH]; intros [|b t]; cbn; try done.
  destruct (byteval a ?= byteval b)%Z eqn:E; try done.
  intros H%IH. apply Z.compare_eq, byteval_inj in E. by subst.
Qed.
Lemma str_compare_antisym s t : str_compare t s = CompOpp (str_compare s t).
Proof.
  revert t. induction s as [|a s IH]; intros [|b t]; cbn; try done.
  rewrite (Z.compare_antisym (byteval a)). destruct (byteval a ?= byteval b)%Z; cbn; auto.
Qed.
Lemma str_compare_lt_trans s t u : str_compare s t = Lt -> str_compare t u = Lt -> str_compare s u = Lt.
Proof.
  revert t u. induction s as [|a s IH]; intros [|b t] [|c u]; cbn; try done.
  destruct (byteval a ?= byteval b)%Z eqn:E1; try done; destruct (byteval b ?= byteval c)%Z eqn:E2; try done.
  - apply Z.compare_eq in E1. rewrite E1, E2. apply IH.
  - apply Z.compare_eq in E1. by rewrite E1, E2.
  - apply Z.compare_eq in E2. by rewrite <-E2, E1.
  - intros _ _. rewrite (proj2 (Z.compare_lt_iff _ _)); [done|].
    rewrite Z.compare_lt_iff in E1, E2. lia.
Qed.

Definition str_le (s t : gostring) : Prop := str_leb s t = true.
#[global] Instance str_le_dec : RelDecision str_le.
Proof. intros s t. unfold str_le. apply _. Defined.

Lemma str_le_alt s t : str_le s t <-> str_compare s t = Lt \/ s = t.
Proof.
  unfold str_le, str_leb, str_ltb. rewrite (str_compare_antisym s t).
  destruct (str_compare s t) eqn:E; cbn; split; try (by intros; auto).
  - intros _. right. by apply str_compare_eq.
  - intros [?| ->]; [done|]. by rewrite str_compare_refl in E.
Qed.
#[global] Instance str_le_total : Total str_le.
Proof.
  intros s t. rewrite !str_le_alt. rewrite (str_compare_antisym s t).
  destruct (str_compare s t) eqn:E; cbn; auto. apply str_compare_eq in E. auto.
Qed.
#[global] Instance str_le_trans : Transitive str_le.
Proof.
  intros s t u. rewrite !str_le_alt. intros [H1| ->] [H2| ->]; auto.
  left. by eapply str_compare_lt_trans.
Qed.
#[global] Instance str_le_antisymm : AntiSymm eq str_le.
Proof.
  intros s t. rewrite !str_le_alt. intros [H1| ->] [H2|H2]; auto.
  rewrite str_compare_antisym, H1 in H2. done.
Qed.

(** [sort.Strings] *)
Definition sort_strings (l : list gostring) : list gostring := merge_sort str_le l.

Lemma sort_strings_perm l : sort_strings l ≡ₚ l.
Proof. apply merge_sort_Permutation. Qed.
Lemma sort_strings_sorted l : Sorted str_le (sort_strings l).
Proof. apply Sorted_merge_sort, _. Qed.
Lemma sort_strings_elem x l : x ∈ sort_strings l <-> x ∈ l.
Proof. by rewrite sort_strings_perm. Qed.
(** Any sorted rearrangement is the one [sort_strings] computes. *)
Lemma sort_strings_unique l l' : Sorted str_le l' -> l' ≡ₚ l -> l' = sort_strings l.
Proof.
  intros Hs Hp. apply (Sorted_unique str_le); [done|apply sort_strings_sorted|].
  by rewrite Hp, sort_strings_perm.
Qed.
