(* ===== verification/GoQuote.v ===== *)
(** * [strconv.Quote], [%q] and [utf8.Valid] *)

From S2P Require Import Prelude GoStrings.
Local Open Scope Z_scope.

Definition hex_digits (width : nat) (z : Z) : gostring :=
  map (fun i => hex_char ((z / 16 ^ Z.of_nat i) mod 16)) (rev (seq 0 width)).

Section Quote.
Context {U : GoUnicode}.

(** [strconv.IsPrint] *)
Definition IsPrint (r : Z) : bool := if r <? 128 then (32 <=? r) && (r <=? 126) else unicode_is_print r.

(** [appendEscapedRune]: [bytes] is the encoding of [r]. *)
Definition escape_rune (r : Z) (bytes : gostring) : gostring :=
  if (r =? 34) || (r =? 92) then "\"%char :: bytes
  else if IsPrint r then bytes
  else if r =? 7 then #"\a" else if r =? 8 then #"\b" else if r =? 12 then #"\f"
  else if r =? 10 then #"\n" else if r =? 13 then #"\r" else if r =? 9 then #"\t"
  else if r =? 11 then #"\v"
  else if (r <? 32) || (r =? 127) then #"\x" ++ hex_digits 2 r
  else if r <? 65536 then #"\u" ++ hex_digits 4 r
  else #"\U" ++ hex_digits 8 r.

Fixpoint quote_go (fuel : nat) (s : gostring) : gostring :=
  match fuel with
  | O => []
  | S fuel =>
      match s with
      | [] => []
      | c :: _ =>
          let '(r, n) := decode_rune s in
          (if (r =? RuneError) && (n =? 1)%nat then #"\x" ++ hex_digits 2 (byteval c)
           else escape_rune r (take n s)) ++ quote_go fuel (drop n s)
      end
  end.
Definition Quote (s : gostring) : gostring := "034"%char :: quote_go (length s) s ++ ["034"%char].
End Quote.

Fixpoint utf8_valid_go (fuel : nat) (s : gostring) : bool :=
  match fuel with
  | O => bool_decide (s = [])
  | S fuel =>
      match s with
      | [] => true
      | _ => let '(r, n) := decode_rune s in
             if (r =? RuneError) && (n =? 1)%nat then false else utf8_valid_go fuel (drop n s)
      end
  end.
Definition utf8_valid (s : gostring) : bool := utf8_valid_go (length s) s.

Example quote_tab : Quote (U:=ascii_unicode) ["a"%char; "009"%char] = ["034"; "a"; "\"; "t"; "034"]%char.
Proof. reflexivity. Qed.
