(* ===== verification/Macaroon.v ===== *)
(** * Capability tokens: [pkg/auth/macaroon.go], [pkg/auth/auth.go]

    A macaroon is a task identifier and a chain of caveats signed by iterated
    HMAC-SHA-256.  The file models minting, attenuation, verification against
    a request, extraction of the effective claims, and the model patterns of
    the [allowed_models] caveat.  The text of error messages is not modelled:
    an error keeps its sentinel and the values it reports. *)

From S2P Require Import Prelude GoStrings GoPath GoCrypto GoFloat GoJSON GoTime.

(** ** Data *)
Definition OpEqual : gostring := #"=".
Definition OpIn : gostring := #"in".
Definition OpLessThan : gostring := #"<".
Definition OpBefore : gostring := #"before".
Definition OpGlob : gostring := #"glob".

Record Caveat := mkCaveat { cv_key : gostring; cv_op : gostring; cv_value : gostring }.

Record Claims := mkClaims {
  TaskID : gostring;
  Namespace : gostring;
  RepoURL : gostring;
  Branch : gostring;
  AllowedTools : list gostring;
  AllowedModels : list gostring;
  MaxCostUSD : float64;
  MaxTokens : Z;
  TokensConsumed : Z;
  ExpiresAt : Time }.

Record Macaroon := mkMacaroon {
  TokenID : gostring;
  Location : gostring;
  CaveatSeq : list Caveat;
  Signature : gostring }.

(** A [Token] interface value: a macaroon or some other implementation. *)
Inductive Token := TMacaroon (m : Macaroon) | TOther.

Inductive caveat_failure :=
| BadOperator (key op : gostring)
| Mismatch (key got want : gostring)
| InvalidCaveat (key : gostring)
| ConflictingCaveat (key : gostring)
| EmptyElement (key : gostring)
| DisjointCaveat (key value : gostring)
| NonPositive (key value : gostring)
| NotSpecified (key value : gostring)
| NotAllowed (key item value : gostring)
| LimitExceeded (key : gostring)
| EmptyNonce
| MissingCaveat (key : gostring)
| UnrecognizedKey (key : gostring).

Inductive auth_error :=
| ErrInvalidSignature
| ErrTokenExpired
| ErrCaveatFailed (why : caveat_failure)
| ErrMalformedToken
| ErrorsNew (msg : gostring).

Definition claims_zero : Claims :=
  mkClaims [] [] [] [] [] [] f_zero 0 0 time_zero.
Definition macaroon_zero : Macaroon := mkMacaroon [] [] [] [].

#[global] Instance Caveat_eq_dec : EqDecision Caveat.
Proof. solve_decision. Defined.
#[global] Instance Macaroon_eq_dec : EqDecision Macaroon.
Proof. solve_decision. Defined.

(** The [switch c.Key] of the verifiers. *)
Inductive caveat_kind :=
  KTaskID | KNamespace | KRepo | KBranch | KExpiresAt | KAllowedTools | KAllowedModels
| KMaxCostUSD | KMaxTokens | KNonce | KUnknown.
#[global] Instance caveat_kind_eq_dec : EqDecision caveat_kind.
Proof. solve_decision. Defined.
Definition kind_of (key : gostring) : caveat_kind :=
  if decide (key = #"task_id") then KTaskID
  else if decide (key = #"namespace") then KNamespace
  else if decide (key = #"repo") then KRepo
  else if decide (key = #"branch") then KBranch
  else if decide (key = #"expires_at") then KExpiresAt
  else if decide (key = #"allowed_tools") then KAllowedTools
  else if decide (key = #"allowed_models") then KAllowedModels
  else if decide (key = #"max_cost_usd") then KMaxCostUSD
  else if decide (key = #"max_tokens") then KMaxTokens
  else if decide (key = #"nonce") then KNonce
  else KUnknown.

(** ** The HMAC chain *)
Definition MinMacaroonRootKeyLen : nat := 32.

Definition computeHMAC (key data : gostring) : gostring := hmac_sha256 key data.
Arguments computeHMAC : simpl never.

Definition serializeCaveatCanonical (c : Caveat) : gostring :=
  cv_key c ++ #":" ++ cv_op c ++ #":" ++ cv_value c.

(** The loop [sig = computeHMAC(sig, serializeCaveatCanonical(c))]. *)
Definition chain (sig : gostring) (cs : list Caveat) : gostring :=
  fold_left (fun sig c => computeHMAC sig (serializeCaveatCanonical c)) cs sig.

Arguments chain : simpl never.

(** A provider is its root key; [None] is a nil [*MacaroonProvider]. *)
Definition usable_key (p : option gostring) : option gostring :=
  match p with
  | Some k => if (length k <? MinMacaroonRootKeyLen)%nat then None else Some k
  | None => None
  end.

(** ** [Mint] *)
Definition cost_value (cost : float64) : gostring :=
  if f_lt cost (f_of_ratio false 1 100) then FormatShortest cost else FormatFixed2 cost.

(** Caveats from the claims, before the nonce. *)
Definition claim_caveats (cl : Claims) : list Caveat :=
  [mkCaveat #"task_id" OpEqual (TaskID cl); mkCaveat #"namespace" OpEqual (Namespace cl)] ++
  (if decide (RepoURL cl = []) then [] else [mkCaveat #"repo" OpEqual (RepoURL cl)]) ++
  (if decide (Branch cl = []) then [] else [mkCaveat #"branch" OpEqual (Branch cl)]) ++
  (if IsZero (ExpiresAt cl) then []
   else [mkCaveat #"expires_at" OpBefore (FormatInt (Unix (ExpiresAt cl)))]) ++
  (if f_gt (MaxCostUSD cl) f_zero
   then [mkCaveat #"max_cost_usd" OpLessThan (cost_value (MaxCostUSD cl))] else []) ++
  (if (0 <? MaxTokens cl)%Z
   then [mkCaveat #"max_tokens" OpLessThan (FormatInt (MaxTokens cl))] else []) ++
  (if decide (AllowedTools cl = []) then []
   else [mkCaveat #"allowed_tools" OpGlob (Join (AllowedTools cl) #",")]) ++
  (if decide (AllowedModels cl = []) then []
   else [mkCaveat #"allowed_models" OpIn (Join (AllowedModels cl) #",")]).

(** [nonce] is what [rand.Read] put in the 16-byte buffer, [None] its error. *)
Definition Mint (p : option gostring) (nonce : option gostring) (cl : Claims)
    : result auth_error Macaroon :=
  match usable_key p with
  | None => Err (ErrorsNew #"macaroon root key must be at least 32 bytes")
  | Some key =>
      if decide (TaskID cl = []) then Err (ErrorsNew #"claims must specify TaskID")
      else if decide (Namespace cl = []) then Err (ErrorsNew #"claims must specify Namespace")
      else match nonce with
           | None => Err (ErrorsNew #"generate nonce")
           | Some n =>
               let caveats := claim_caveats cl ++ [mkCaveat #"nonce" OpEqual (hex_encode n)] in
               let sig := chain (computeHMAC key (TaskID cl)) caveats in
               Ok (mkMacaroon (TaskID cl) #"diverge-cluster" caveats (hex_encode sig))
           end
  end.

(** ** [Attenuate] *)
Definition Attenuate (t : Token) (caveats : list Caveat) : result auth_error Macaroon :=
  match t with
  | TOther => Err (ErrorsNew #"expected *Macaroon")
  | TMacaroon mac =>
      match hex_decode (Signature mac) with
      | None => Err ErrMalformedToken
      | Some sig =>
          Ok (mkMacaroon (TokenID mac) (Location mac) (CaveatSeq mac ++ caveats)
                (hex_encode (chain sig caveats)))
      end
  end.

(** ** JSON form of a macaroon: [Serialize] and [json.Unmarshal]

    [json.Marshal] of the struct; a nil slice is [null]. *)
Definition quoted (s : string) : gostring := quote :: lit s ++ [quote].
Definition marshal_caveat (c : Caveat) : gostring :=
  #"{" ++ quoted "key" ++ #":" ++ encode_string (cv_key c) ++ #"," ++
  quoted "op" ++ #":" ++ encode_string (cv_op c) ++ #"," ++
  quoted "value" ++ #":" ++ encode_string (cv_value c) ++ #"}".
Definition marshal_caveats (cs : list Caveat) : gostring :=
  match cs with
  | [] => #"null"
  | _ => #"[" ++ Join (map marshal_caveat cs) #"," ++ #"]"
  end.
Definition Serialize (m : Macaroon) : gostring :=
  #"{" ++ quoted "id" ++ #":" ++ encode_string (TokenID m) ++ #"," ++
  quoted "location" ++ #":" ++ encode_string (Location m) ++ #"," ++
  quoted "caveats" ++ #":" ++ marshal_caveats (CaveatSeq m) ++ #"," ++
  quoted "signature" ++ #":" ++ encode_string (Signature m) ++ #"}".

(** Decoding into a string field: a string sets it, [null] leaves it, the rest
    is a type error. *)
Definition into_string (v : json) (old : gostring) : option gostring :=
  match v with
  | JString s => Some s
  | JNull => Some old
  | _ => None
  end.
Definition caveat_fields : list gostring := [ #"key"; #"op"; #"value"].
Fixpoint into_caveat_members (l : list (gostring * json)) (old : Caveat) : option Caveat :=
  match l with
  | [] => Some old
  | (k, v) :: l =>
      new ← (match field_of caveat_fields k with
             | None => Some old
             | Some f =>
                 if decide (f = #"key") then
                   s ← into_string v (cv_key old); Some (mkCaveat s (cv_op old) (cv_value old))
                 else if decide (f = #"op") then
                   s ← into_string v (cv_op old); Some (mkCaveat (cv_key old) s (cv_value old))
                 else
                   s ← into_string v (cv_value old); Some (mkCaveat (cv_key old) (cv_op old) s)
             end);
      into_caveat_members l new
  end.
Definition into_caveat (v : json) (old : Caveat) : option Caveat :=
  match v with
  | JObject l => into_caveat_members l old
  | JNull => Some old
  | _ => None
  end.
(** A slice is decoded over its previous elements, and cut to the length of
    the array. *)
Fixpoint into_caveat_list (vs : list json) (old : list Caveat) : option (list Caveat) :=
  match vs with
  | [] => Some []
  | v :: vs =>
      c ← into_caveat v (default (mkCaveat [] [] []) (head old));
      cs ← into_caveat_list vs (tail old);
      Some (c :: cs)
  end.
Definition into_caveats (v : json) (old : list Caveat) : option (list Caveat) :=
  match v with
  | JArray vs => into_caveat_list vs old
  | JNull => Some []
  | _ => None
  end.
Definition macaroon_fields : list gostring := [ #"id"; #"location"; #"caveats"; #"signature"].
Fixpoint into_macaroon_members (l : list (gostring * json)) (old : Macaroon) : option Macaroon :=
  match l with
  | [] => Some old
  | (k, v) :: l =>
      new ← (match field_of macaroon_fields k with
             | None => Some old
             | Some f =>
                 if decide (f = #"id") then
                   s ← into_string v (TokenID old);
                   Some (mkMacaroon s (Location old) (CaveatSeq old) (Signature old))
                 else if decide (f = #"location") then
                   s ← into_string v (Location old);
                   Some (mkMacaroon (TokenID old) s (CaveatSeq old) (Signature old))
                 else if decide (f = #"caveats") then
                   cs ← into_caveats v (CaveatSeq old);
                   Some (mkMacaroon (TokenID old) (Location old) cs (Signature old))
                 else
                   s ← into_string v (Signature old);
                   Some (mkMacaroon (TokenID old) (Location old) (CaveatSeq old) s)
             end);
      into_macaroon_members l new
  end.
(** [json.Unmarshal(raw, &mac)] into a zero macaroon; [None] is an error. *)
Definition unmarshal (raw : gostring) : option Macaroon :=
  v ← parse_document raw;
  match v with
  | JObject l => into_macaroon_members l macaroon_zero
  | JNull => Some macaroon_zero
  | _ => None
  end.

(** * Verification of capability tokens: [pkg/auth/macaroon.go]

    [Verify] checks a token against a request, [VerifyAndExtract] computes the
    effective claims; both replay the HMAC chain from the root key.  [now] is
    [time.Now().Unix()]. *)

Abbreviation res := (result auth_error).
Definition fail {A} (why : caveat_failure) : res A := Err (ErrCaveatFailed why).

Definition bad_op (c : Caveat) : auth_error := ErrCaveatFailed (BadOperator (cv_key c) (cv_op c)).
Definition op_is (c : Caveat) (op : gostring) : bool := bool_decide (cv_op c = op).

(** The limit of a [max_cost_usd] or [max_tokens] caveat. *)
Definition parse_cost (v : gostring) : res float64 :=
  match ParseFloat v with
  | None => Err ErrMalformedToken
  | Some f => if is_nan f || is_inf f || f_le f f_zero
              then fail (NonPositive #"max_cost_usd" v) else Ok f
  end.
Definition parse_tokens (v : gostring) : res Z :=
  match ParseInt v with
  | None => Err ErrMalformedToken
  | Some n => if (n <=? 0)%Z then fail (NonPositive #"max_tokens" v) else Ok n
  end.

(** ** Model patterns *)
Section Models.
Context {U : GoUnicode}.

Definition capabilityTierModelPatterns (tier : gostring) : option (list gostring) :=
  if decide (tier = #"fast") then
    Some [ #"*flash*"; #"*haiku*"; #"*mini*"; #"gpt-4o*"; #"claude-3-5-sonnet*";
           #"claude-3-7-sonnet*"; #"claude-sonnet*"; #"gemini-2.5-*"]
  else if decide (tier = #"smart") then
    Some [ #"claude-*"; #"gpt-4*"; #"gpt-5*"; #"o1*"; #"o3*"; #"o4*"; #"gemini-*"]
  else if decide (tier = #"lite") then
    Some [ #"*lite*"; #"*flash*"; #"*haiku*"; #"*mini*"; #"*nano*"]
  else None.

(** Prefix pattern, substring pattern, glob. *)
Definition pattern_matches (pattern model : gostring) : bool :=
  (HasSuffix pattern #"*" && negb (HasPrefix pattern #"*") &&
   HasPrefix model (TrimSuffix pattern #"*"))
  || (HasPrefix pattern #"*" && HasSuffix pattern #"*" && (2 <? length pattern)%nat &&
      Contains model (Trim pattern #"*"))
  || matches pattern model.

(** The body of [MatchesAllowedModel], with the recursive call abstracted. *)
Definition match_model_body (rec : gostring -> gostring -> bool) (pattern model : gostring) : bool :=
  let pattern := TrimSpace pattern in
  let model := TrimSpace model in
  if bool_decide (pattern = []) || bool_decide (model = []) then false
  else if bool_decide (pattern = #"*") || bool_decide (pattern = model) then true
  else
    match capabilityTierModelPatterns (ToLower pattern) with
    | Some tps => existsb (fun tp => rec tp (ToLower model)) tps
    | None => false
    end || pattern_matches pattern model.
(** A tier pattern is never itself a tier: one level of recursion is
    enough, [MatchesAllowedModel_unfold] proves the code's equation. *)
Definition MatchesAllowedModel : gostring -> gostring -> bool :=
  match_model_body (match_model_body (fun _ _ => false)).

Definition glob_meta : gostring := #"*?[\".

Definition allowedModelPatternNarrows (existing candidate : gostring) : bool :=
  let existing := TrimSpace existing in
  let candidate := TrimSpace candidate in
  if bool_decide (existing = []) || bool_decide (candidate = []) then false
  else if bool_decide (existing = candidate) || bool_decide (existing = #"*") then true
  else if negb (ContainsAny candidate glob_meta) then MatchesAllowedModel existing candidate
  else
    let '(ePrefix, eOK) := CutSuffix existing #"*" in
    let '(cPrefix, cOK) := CutSuffix candidate #"*" in
    if eOK && cOK && negb (ContainsAny ePrefix glob_meta) && negb (ContainsAny cPrefix glob_meta)
    then HasPrefix cPrefix ePrefix else false.
End Models.

(** The models a tier stands for: [pkg/auth/models.go]. *)
Definition ModelTiers (tier : gostring) : option (list gostring) :=
  if decide (tier = #"smart") then Some [ #"gemini-2.5-pro"; #"claude-3-7-sonnet"]
  else if decide (tier = #"fast") then Some [ #"gemini-2.5-flash"; #"gpt-4o-mini"]
  else if decide (tier = #"lite") then Some [ #"gemini-flash-lite"]
  else None.
Definition ResolveModelTier (tier : gostring) : list gostring :=
  match ModelTiers tier with Some models => models | None => [tier] end.

(** ** [evaluateCaveat] *)
Section Verify.
Context {U : GoUnicode}.

Definition first_not (ok : gostring -> bool) (l : list gostring) : option gostring :=
  List.find (fun x => negb (ok x)) l.

Definition evaluateCaveat (now : Z) (c : Caveat) (req : Claims) : res unit :=
  let v := cv_value c in
  match kind_of (cv_key c) with
  | KTaskID =>
      _ ← check (op_is c OpEqual) (bad_op c);
      check (negb (bool_decide (TaskID req = [])) && bool_decide (TaskID req = v))
        (ErrCaveatFailed (Mismatch (cv_key c) (TaskID req) v))
  | KNamespace =>
      _ ← check (op_is c OpEqual) (bad_op c);
      check (bool_decide (Namespace req = []) || bool_decide (Namespace req = v))
        (ErrCaveatFailed (Mismatch (cv_key c) (Namespace req) v))
  | KRepo =>
      _ ← check (op_is c OpEqual) (bad_op c);
      check (negb (bool_decide (RepoURL req = [])) && bool_decide (RepoURL req = v))
        (ErrCaveatFailed (Mismatch (cv_key c) (RepoURL req) v))
  | KBranch =>
      _ ← check (op_is c OpEqual) (bad_op c);
      check (negb (bool_decide (Branch req = [])) && bool_decide (Branch req = v))
        (ErrCaveatFailed (Mismatch (cv_key c) (Branch req) v))
  | KExpiresAt =>
      _ ← check (op_is c OpBefore) (bad_op c);
      match ParseInt v with
      | None => Err ErrMalformedToken
      | Some sec => check (now <=? sec)%Z ErrTokenExpired
      end
  | KAllowedTools =>
      _ ← check (op_is c OpGlob) (bad_op c);
      _ ← check (negb (bool_decide (AllowedTools req = []))) (ErrCaveatFailed (NotSpecified (cv_key c) v));
      match first_not (fun tool => existsb (fun pat => matches pat tool) (Split v ","%char)) (AllowedTools req) with
      | Some tool => fail (NotAllowed (cv_key c) tool v)
      | None => Ok tt
      end
  | KAllowedModels =>
      _ ← check (op_is c OpIn) (bad_op c);
      _ ← check (negb (bool_decide (AllowedModels req = []))) (ErrCaveatFailed (NotSpecified (cv_key c) v));
      match first_not (fun m => existsb (fun pat => MatchesAllowedModel pat m) (Split v ","%char)) (AllowedModels req) with
      | Some m => fail (NotAllowed (cv_key c) m v)
      | None => Ok tt
      end
  | KMaxCostUSD =>
      _ ← check (op_is c OpLessThan) (bad_op c);
      lim ← parse_cost v;
      check (negb (f_gt (MaxCostUSD req) lim)) (ErrCaveatFailed (LimitExceeded (cv_key c)))
  | KMaxTokens =>
      _ ← check (op_is c OpLessThan) (bad_op c);
      lim ← parse_tokens v;
      check (TokensConsumed req <=? lim)%Z (ErrCaveatFailed (LimitExceeded (cv_key c)))
  | KNonce =>
      _ ← check (op_is c OpEqual) (bad_op c);
      check (negb (bool_decide (v = []))) (ErrCaveatFailed EmptyNonce)
  | KUnknown => fail (UnrecognizedKey (cv_key c))
  end.

(** ** [Verify] *)
(** Running state of the loop: the signature so far and which caveats were
    seen with a value. *)
Record vstate := mkV { v_sig : gostring; v_task : bool; v_ns : bool }.

Definition verify_step (now : Z) (req : Claims) (st : vstate) (c : Caveat) : res vstate :=
  let seen k := match kind_of (cv_key c), k with
                | KTaskID, KTaskID | KNamespace, KNamespace => negb (bool_decide (cv_value c = []))
                | _, _ => false end in
  _ ← evaluateCaveat now c req;
  Ok (mkV (computeHMAC (v_sig st) (serializeCaveatCanonical c))
          (v_task st || seen KTaskID) (v_ns st || seen KNamespace)).

Fixpoint verify_loop (now : Z) (req : Claims) (st : vstate) (cs : list Caveat) : res vstate :=
  match cs with
  | [] => Ok st
  | c :: cs => st ← verify_step now req st c; verify_loop now req st cs
  end.

Definition Verify (p : option gostring) (now : Z) (raw : gostring) (required : Claims) : res unit :=
  match usable_key p with
  | None => Err ErrInvalidSignature
  | Some key =>
      match unmarshal raw with
      | None => Err ErrMalformedToken
      | Some mac =>
          st ← verify_loop now required (mkV (computeHMAC key (TokenID mac)) false false) (CaveatSeq mac);
          _ ← check (bool_decide (hex_encode (v_sig st) = Signature mac)) ErrInvalidSignature;
          _ ← check (v_task st) (ErrCaveatFailed (MissingCaveat #"task_id"));
          check (v_ns st) (ErrCaveatFailed (MissingCaveat #"namespace"))
      end
  end.

(** ** [VerifyAndExtract] *)
Record xstate := mkX {
  x_claims : Claims;
  x_task : bool; x_ns : bool; x_tools : bool; x_models : bool; x_cost : bool; x_tokens : bool }.

Definition with_claims (st : xstate) (cl : Claims) : xstate :=
  mkX cl (x_task st) (x_ns st) (x_tools st) (x_models st) (x_cost st) (x_tokens st).
Definition set_namespace (cl : Claims) (v : gostring) : Claims :=
  mkClaims (TaskID cl) v (RepoURL cl) (Branch cl) (AllowedTools cl) (AllowedModels cl)
    (MaxCostUSD cl) (MaxTokens cl) (TokensConsumed cl) (ExpiresAt cl).
Definition set_task (cl : Claims) (v : gostring) : Claims :=
  mkClaims v (Namespace cl) (RepoURL cl) (Branch cl) (AllowedTools cl) (AllowedModels cl)
    (MaxCostUSD cl) (MaxTokens cl) (TokensConsumed cl) (ExpiresAt cl).
Definition set_repo (cl : Claims) (v : gostring) : Claims :=
  mkClaims (TaskID cl) (Namespace cl) v (Branch cl) (AllowedTools cl) (AllowedModels cl)
    (MaxCostUSD cl) (MaxTokens cl) (TokensConsumed cl) (ExpiresAt cl).
Definition set_branch (cl : Claims) (v : gostring) : Claims :=
  mkClaims (TaskID cl) (Namespace cl) (RepoURL cl) v (AllowedTools cl) (AllowedModels cl)
    (MaxCostUSD cl) (MaxTokens cl) (TokensConsumed cl) (ExpiresAt cl).
Definition set_tools (cl : Claims) (l : list gostring) : Claims :=
  mkClaims (TaskID cl) (Namespace cl) (RepoURL cl) (Branch cl) l (AllowedModels cl)
    (MaxCostUSD cl) (MaxTokens cl) (TokensConsumed cl) (ExpiresAt cl).
Definition set_models (cl : Claims) (l : list gostring) : Claims :=
  mkClaims (TaskID cl) (Namespace cl) (RepoURL cl) (Branch cl) (AllowedTools cl) l
    (MaxCostUSD cl) (MaxTokens cl) (TokensConsumed cl) (ExpiresAt cl).
Definition set_cost (cl : Claims) (f : float64) : Claims :=
  mkClaims (TaskID cl) (Namespace cl) (RepoURL cl) (Branch cl) (AllowedTools cl) (AllowedModels cl)
    f (MaxTokens cl) (TokensConsumed cl) (ExpiresAt cl).
Definition set_tokens (cl : Claims) (n : Z) : Claims :=
  mkClaims (TaskID cl) (Namespace cl) (RepoURL cl) (Branch cl) (AllowedTools cl) (AllowedModels cl)
    (MaxCostUSD cl) n (TokensConsumed cl) (ExpiresAt cl).
Definition set_expiry (cl : Claims) (t : Time) : Claims :=
  mkClaims (TaskID cl) (Namespace cl) (RepoURL cl) (Branch cl) (AllowedTools cl) (AllowedModels cl)
    (MaxCostUSD cl) (MaxTokens cl) (TokensConsumed cl) t.

(** The elements of a list caveat, none of them empty. *)
Definition list_elements (c : Caveat) : res (list gostring) :=
  let l := Split (cv_value c) ","%char in
  _ ← check (negb (existsb (fun x => bool_decide (x = [])) l)) (ErrCaveatFailed (EmptyElement (cv_key c)));
  Ok l.
(** The new elements some existing element covers. *)
Definition narrow (covers : gostring -> gostring -> bool) (existing new : list gostring) : list gostring :=
  List.filter (fun n => existsb (fun e => covers e n) existing) new.
Definition tool_covers (e n : gostring) : bool := matches e n || bool_decide (n = e).

Definition extract_task (i : nat) (tokenID : gostring) (c : Caveat) (st : xstate) : res xstate :=
  let v := cv_value c in
  _ ← check (op_is c OpEqual && negb (bool_decide (v = [])) && bool_decide (v = tokenID)
             && (x_task st || (i =? 0)%nat)) (ErrCaveatFailed (InvalidCaveat (cv_key c)));
  Ok (mkX (set_task (x_claims st) v) true (x_ns st) (x_tools st) (x_models st) (x_cost st) (x_tokens st)).
Definition extract_namespace (i : nat) (c : Caveat) (st : xstate) : res xstate :=
  let v := cv_value c in let cl := x_claims st in
  _ ← check (op_is c OpEqual && negb (bool_decide (v = [])) && (x_ns st || (i =? 1)%nat))
        (ErrCaveatFailed (InvalidCaveat (cv_key c)));
  _ ← check (bool_decide (Namespace cl = []) || bool_decide (Namespace cl = v))
        (ErrCaveatFailed (ConflictingCaveat (cv_key c)));
  Ok (mkX (set_namespace cl v) (x_task st) true (x_tools st) (x_models st) (x_cost st) (x_tokens st)).
Definition extract_repo (c : Caveat) (st : xstate) : res xstate :=
  let v := cv_value c in let cl := x_claims st in
  _ ← check (op_is c OpEqual && negb (bool_decide (v = []))) (ErrCaveatFailed (InvalidCaveat (cv_key c)));
  _ ← check (bool_decide (RepoURL cl = []) || bool_decide (RepoURL cl = v))
        (ErrCaveatFailed (ConflictingCaveat (cv_key c)));
  Ok (with_claims st (set_repo cl v)).
Definition extract_branch (c : Caveat) (st : xstate) : res xstate :=
  let v := cv_value c in let cl := x_claims st in
  _ ← check (op_is c OpEqual && negb (bool_decide (v = []))) (ErrCaveatFailed (InvalidCaveat (cv_key c)));
  _ ← check (bool_decide (Branch cl = []) || bool_decide (Branch cl = v))
        (ErrCaveatFailed (ConflictingCaveat (cv_key c)));
  Ok (with_claims st (set_branch cl v)).
Definition extract_expiry (now : Z) (c : Caveat) (st : xstate) : res xstate :=
  let cl := x_claims st in
  _ ← check (op_is c OpBefore) (bad_op c);
  match ParseInt (cv_value c) with
  | None => Err ErrMalformedToken
  | Some sec =>
      _ ← check (now <=? sec)%Z ErrTokenExpired;
      let exp := time_Unix sec in
      Ok (if IsZero (ExpiresAt cl) || Before exp (ExpiresAt cl)
          then with_claims st (set_expiry cl exp) else st)
  end.
Definition extract_tools (c : Caveat) (st : xstate) : res xstate :=
  let cl := x_claims st in
  _ ← check (op_is c OpGlob && negb (bool_decide (cv_value c = []))) (ErrCaveatFailed (InvalidCaveat (cv_key c)));
  newPatterns ← list_elements c;
  if x_tools st then
    let narrowed := narrow tool_covers (AllowedTools cl) newPatterns in
    _ ← check (negb (bool_decide (narrowed = []))) (ErrCaveatFailed (DisjointCaveat (cv_key c) (cv_value c)));
    Ok (with_claims st (set_tools cl narrowed))
  else Ok (mkX (set_tools cl newPatterns) (x_task st) (x_ns st) true (x_models st) (x_cost st) (x_tokens st)).
Definition extract_models (c : Caveat) (st : xstate) : res xstate :=
  let cl := x_claims st in
  _ ← check (op_is c OpIn && negb (bool_decide (cv_value c = []))) (ErrCaveatFailed (InvalidCaveat (cv_key c)));
  newModels ← list_elements c;
  if x_models st then
    let narrowed := narrow allowedModelPatternNarrows (AllowedModels cl) newModels in
    _ ← check (negb (bool_decide (narrowed = []))) (ErrCaveatFailed (DisjointCaveat (cv_key c) (cv_value c)));
    Ok (with_claims st (set_models cl narrowed))
  else Ok (mkX (set_models cl newModels) (x_task st) (x_ns st) (x_tools st) true (x_cost st) (x_tokens st)).
Definition extract_cost (c : Caveat) (st : xstate) : res xstate :=
  let cl := x_claims st in
  _ ← check (op_is c OpLessThan) (bad_op c);
  lim ← parse_cost (cv_value c);
  Ok (if negb (x_cost st) || f_lt lim (MaxCostUSD cl)
      then mkX (set_cost cl lim) (x_task st) (x_ns st) (x_tools st) (x_models st) true (x_tokens st)
      else st).
Definition extract_tokens (c : Caveat) (st : xstate) : res xstate :=
  let cl := x_claims st in
  _ ← check (op_is c OpLessThan) (bad_op c);
  lim ← parse_tokens (cv_value c);
  Ok (if negb (x_tokens st) || (lim <? MaxTokens cl)%Z
      then mkX (set_tokens cl lim) (x_task st) (x_ns st) (x_tools st) (x_models st) (x_cost st) true
      else st).

(** One iteration of the loop, at index [i]. *)
Definition extract_step (now : Z) (tokenID : gostring) (i : nat) (c : Caveat) (st : xstate) : res xstate :=
  match kind_of (cv_key c) with
  | KTaskID => extract_task i tokenID c st
  | KNamespace => extract_namespace i c st
  | KRepo => extract_repo c st
  | KBranch => extract_branch c st
  | KExpiresAt => extract_expiry now c st
  | KAllowedTools => extract_tools c st
  | KAllowedModels => extract_models c st
  | KMaxCostUSD => extract_cost c st
  | KMaxTokens => extract_tokens c st
  | KNonce =>
      _ ← check (op_is c OpEqual && negb (bool_decide (cv_value c = [])))
            (ErrCaveatFailed (InvalidCaveat (cv_key c)));
      Ok st
  | KUnknown => fail (UnrecognizedKey (cv_key c))
  end.
Fixpoint extract_loop (now : Z) (tokenID : gostring) (i : nat) (cs : list Caveat) (st : xstate) : res xstate :=
  match cs with
  | [] => Ok st
  | c :: cs => st ← extract_step now tokenID i c st; extract_loop now tokenID (S i) cs st
  end.
Definition extract_init (mac : Macaroon) : xstate :=
  mkX (set_task claims_zero (TokenID mac)) false false false false false false.

Definition VerifyAndExtract (p : option gostring) (now : Z) (raw : gostring) : res (Macaroon * Claims) :=
  match usable_key p with
  | None => Err ErrInvalidSignature
  | Some key =>
      match unmarshal raw with
      | None => Err ErrMalformedToken
      | Some mac =>
          _ ← check (negb (bool_decide (TokenID mac = []))) ErrMalformedToken;
          st ← extract_loop now (TokenID mac) 0 (CaveatSeq mac) (extract_init mac);
          let sig := chain (computeHMAC key (TokenID mac)) (CaveatSeq mac) in
          _ ← check (bool_decide (hex_encode sig = Signature mac)) ErrInvalidSignature;
          _ ← check (x_task st) (ErrCaveatFailed (MissingCaveat #"task_id"));
          _ ← check (x_ns st) (ErrCaveatFailed (MissingCaveat #"namespace"));
          Ok (mac, x_claims st)
      end
  end.
End Verify.
