(* ===== verification/MacaroonFacts.v ===== *)
(** * What holds of capability tokens

    Integrity and binding of accepted tokens, the effect of attenuation, the
    bounds of the extracted claims, and narrowing of model patterns. *)

From S2P Require Import Prelude GoStrings GoPath GoCrypto GoFloat GoJSON GoTime Macaroon.

#[global] Arguments match_model_body : simpl never.

(** ** Model patterns *)
Section ModelFacts.
Context {U : GoUnicode}.

Lemma match_model_body_ext r1 r2 p m :
  (forall tps tp m, capabilityTierModelPatterns (ToLower (TrimSpace p)) = Some tps ->
     tp ∈ tps -> r1 tp m = r2 tp m) ->
  match_model_body r1 p m = match_model_body r2 p m.
Proof.
  intros H. unfold match_model_body.
  destruct (capabilityTierModelPatterns _) as [tps|] eqn:E; [|done].
  assert (existsb (fun tp => r1 tp (ToLower (TrimSpace m))) tps
          = existsb (fun tp => r2 tp (ToLower (TrimSpace m))) tps) as ->; [|done].
  specialize (H tps). clear E. induction tps as [|tp tps IH]; [done|]. cbn.
  rewrite H by (done || apply list_elem_of_here). f_equal. apply IH.
  intros. apply H; [done|]. by apply list_elem_of_further.
Qed.

(** Every tier pattern, trimmed and lowered, is not a tier name. *)
Lemma tier_patterns_no_tier tier tps tp :
  capabilityTierModelPatterns tier = Some tps -> tp ∈ tps ->
  capabilityTierModelPatterns (ToLower (TrimSpace tp)) = None.
Proof.
  unfold capabilityTierModelPatterns at 1.
  repeat case_decide; intros [= <-]; revert tp; apply Forall_forall;
    repeat (constructor; [vm_compute; reflexivity|]); constructor.
Qed.

Lemma match_model_no_tier r1 r2 p m :
  capabilityTierModelPatterns (ToLower (TrimSpace p)) = None ->
  match_model_body r1 p m = match_model_body r2 p m.
Proof. intros H. apply match_model_body_ext. intros tps tp m'. by rewrite H. Qed.

(** The recursion of the code: [MatchesAllowedModel] calls itself on the
    patterns of a tier. *)
Lemma MatchesAllowedModel_unfold p m :
  MatchesAllowedModel p m = match_model_body MatchesAllowedModel p m.
Proof.
  apply match_model_body_ext. intros tps tp m' Htps Htp.
  apply match_model_no_tier. by eapply tier_patterns_no_tier.
Qed.

Lemma match_model_trim r p m :
  match_model_body r (TrimSpace p) (TrimSpace m) = match_model_body r p m.
Proof. unfold match_model_body. by rewrite !TrimSpace_idem. Qed.

Lemma MatchesAllowedModel_trim p m : MatchesAllowedModel (TrimSpace p) (TrimSpace m) = MatchesAllowedModel p m.
Proof. apply match_model_trim. Qed.

Lemma match_model_nonempty r p m : match_model_body r p m = true ->
  TrimSpace p <> [] /\ TrimSpace m <> [].
Proof.
  unfold match_model_body. case_bool_decide; [done|]. case_bool_decide; done.
Qed.

(** Without a tier, acceptance is equality, the wildcard or the patterns. *)
Lemma match_model_no_tier_true r p m :
  capabilityTierModelPatterns (ToLower (TrimSpace p)) = None ->
  match_model_body r p m = true ->
  TrimSpace p = #"*" \/ TrimSpace p = TrimSpace m \/ pattern_matches (TrimSpace p) (TrimSpace m) = true.
Proof.
  intros Ht. unfold match_model_body. rewrite Ht.
  repeat case_bool_decide; cbn; auto; done.
Qed.

Lemma match_model_wild r p m :
  TrimSpace p = #"*" -> TrimSpace m <> [] -> match_model_body r p m = true.
Proof.
  intros Hp Hm. unfold match_model_body. rewrite Hp.
  rewrite !bool_decide_eq_false_2 by done. by rewrite bool_decide_eq_true_2.
Qed.

Lemma match_model_pattern r p m :
  TrimSpace p <> [] -> TrimSpace m <> [] -> pattern_matches (TrimSpace p) (TrimSpace m) = true ->
  match_model_body r p m = true.
Proof.
  intros Hp Hm H. unfold match_model_body. rewrite H.
  rewrite !(bool_decide_eq_false_2 (_ = [])) by done. cbn [orb].
  destruct (_ || bool_decide _); [done|]. by rewrite orb_true_r.
Qed.

Lemma literal_no_star p : literal p -> HasPrefix p #"*" = false /\ HasSuffix p #"*" = false.
Proof.
  intros H. split; apply not_true_iff_false.
  - rewrite HasPrefix_spec. intros [k ->]. apply Forall_app in H as [H _].
    apply Forall_cons in H as [H _]. by apply meta_ne in H as (_ & _ & ? & _).
  - rewrite HasSuffix_spec. intros [k ->]. apply Forall_app in H as [_ H].
    apply Forall_cons in H as [H _]. by apply meta_ne in H as (_ & _ & ? & _).
Qed.

Lemma pattern_matches_literal p m : literal p -> pattern_matches p m = true -> m = p.
Proof.
  intros Hp. unfold pattern_matches. destruct (literal_no_star p Hp) as [-> ->].
  cbn. by apply matches_literal.
Qed.

Lemma HasSuffix_snoc p : HasSuffix (p ++ #"*") #"*" = true.
Proof. apply HasSuffix_spec. by exists p. Qed.

Lemma pattern_matches_prefix p m : literal p -> p <> [] ->
  pattern_matches (p ++ #"*") m = true -> HasPrefix m p = true.
Proof.
  intros Hp Hne. unfold pattern_matches.
  assert (HasPrefix (p ++ #"*") #"*" = false) as ->.
  { destruct p as [|c p]; [done|]. apply not_true_iff_false. rewrite HasPrefix_spec.
    intros [k [= -> _]]. apply Forall_cons in Hp as [Hc _].
    by apply meta_ne in Hc as (_ & _ & ? & _). }
  rewrite TrimSuffix_app. cbn. rewrite orb_false_r, orb_true_iff. intros [H|H].
  - by apply andb_true_iff in H as [_ ?].
  - by apply matches_literal_star.
Qed.

Lemma prefix_pattern_matches p m : literal p -> p <> [] -> HasPrefix m p = true ->
  pattern_matches (p ++ #"*") m = true.
Proof.
  intros Hp Hne Hm. unfold pattern_matches. rewrite HasSuffix_snoc, TrimSuffix_app, Hm.
  assert (HasPrefix (p ++ #"*") #"*" = false) as ->; [|done].
  destruct p as [|c p]; [done|]. apply not_true_iff_false. rewrite HasPrefix_spec.
  intros [k [= -> _]]. apply Forall_cons in Hp as [Hc _].
  by apply meta_ne in Hc as (_ & _ & ? & _).
Qed.

Lemma match_prefix_model r e m : literal e -> TrimSpace m <> [] ->
  HasPrefix (TrimSpace m) e = true ->
  forall p, TrimSpace p = e ++ #"*" -> match_model_body r p m = true.
Proof.
  intros He Hm Hpre p Hp. destruct e as [|c e]; [by apply match_model_wild|].
  apply match_model_pattern; [rewrite Hp; done|done|].
  rewrite Hp. by apply prefix_pattern_matches.
Qed.

(** [allowedModelPatternNarrows] keeps its promise for candidates that are
    not a tier alias: everything the candidate accepts, the existing
    pattern accepts. *)
Lemma narrows_covers existing candidate m :
  capabilityTierModelPatterns (ToLower (TrimSpace candidate)) = None ->
  allowedModelPatternNarrows existing candidate = true ->
  MatchesAllowedModel candidate m = true -> MatchesAllowedModel existing m = true.
Proof.
  intros Htier Hn Hc.
  pose proof (match_model_nonempty _ _ _ Hc) as [Hcne Hmne].
  unfold allowedModelPatternNarrows in Hn.
  case_bool_decide as He; [done|]. rewrite bool_decide_eq_false_2 in Hn by done. cbn [orb] in Hn.
  case_bool_decide as Heq; cbn [orb] in Hn.
  { by rewrite <-MatchesAllowedModel_trim, Heq, MatchesAllowedModel_trim. }
  case_bool_decide as Hw; [by apply match_model_wild|].
  apply match_model_no_tier_true in Hc as Hcases; [|done].
  destruct (ContainsAny (TrimSpace candidate) glob_meta) eqn:Hmeta; cbn [negb] in Hn.
  - (* two prefix patterns *)
    destruct (CutSuffix (TrimSpace existing) _) as [e eOK] eqn:Ee.
    destruct (CutSuffix (TrimSpace candidate) _) as [c cOK] eqn:Ec.
    destruct eOK, cOK; try done.
    destruct (ContainsAny e glob_meta) eqn:Hle; [done|].
    destruct (ContainsAny c glob_meta) eqn:Hlc; [done|]. cbn in Hn.
    apply ContainsAny_literal in Hle, Hlc. apply CutSuffix_true in Ee, Ec.
    apply (match_prefix_model _ e); try done.
    apply HasPrefix_spec. apply HasPrefix_spec in Hn. transitivity c; [done|].
    apply HasPrefix_spec. rewrite Ec in Hcases.
    destruct c as [|x c]; [by destruct (TrimSpace m)|].
    destruct Hcases as [Hx|[Hx|Hx]].
    + injection Hx as -> Hx. by destruct c.
    + rewrite <-Hx. apply HasPrefix_spec. by exists #"*".
    + by apply pattern_matches_prefix.
  - (* a literal candidate *)
    apply ContainsAny_literal in Hmeta.
    assert (TrimSpace m = TrimSpace candidate) as Hm.
    { destruct Hcases as [Hx|[Hx|Hx]]; [|done|by apply pattern_matches_literal].
      rewrite Hx in Hmeta. by apply literal_no_star in Hmeta as [??]. }
    by rewrite <-MatchesAllowedModel_trim, Hm.
Qed.
End ModelFacts.

(** ** Signatures and issued tokens *)

(** The signature a key gives a macaroon. *)
Definition signature_of (key : gostring) (mac : Macaroon) : gostring :=
  hex_encode (chain (computeHMAC key (TokenID mac)) (CaveatSeq mac)).

(** What the code can produce under a root key: minted tokens, and what
    holders make of them with [Attenuate]. *)
Inductive issued (key : gostring) : Macaroon -> Prop :=
| issued_mint nonce cl mac :
    Mint (Some key) nonce cl = Ok mac -> issued key mac
| issued_attenuate mac cs mac' :
    issued key mac -> Attenuate (TMacaroon mac) cs = Ok mac' -> issued key mac'.

Lemma chain_app sig cs ds : chain sig (cs ++ ds) = chain (chain sig cs) ds.
Proof. apply fold_left_app. Qed.

Lemma Mint_Ok p nonce cl mac : Mint p nonce cl = Ok mac ->
  exists key n, p = Some key /\ usable_key (Some key) = Some key /\ nonce = Some n /\
    TaskID cl <> [] /\ Namespace cl <> [] /\
    TokenID mac = TaskID cl /\
    CaveatSeq mac = claim_caveats cl ++ [mkCaveat #"nonce" OpEqual (hex_encode n)] /\
    Signature mac = signature_of key mac.
Proof.
  unfold Mint. destruct p as [key|]; [|done]. cbn [usable_key].
  destruct (length key <? MinMacaroonRootKeyLen)%nat eqn:E; [done|].
  repeat case_decide; try done. destruct nonce as [n|]; [|done].
  intros H'. injection H' as <-. exists key, n. unfold signature_of, usable_key.
  rewrite E. done.
Qed.

Lemma Attenuate_Ok mac cs mac' : Attenuate (TMacaroon mac) cs = Ok mac' ->
  exists sig, hex_decode (Signature mac) = Some sig /\
    mac' = mkMacaroon (TokenID mac) (Location mac) (CaveatSeq mac ++ cs) (hex_encode (chain sig cs)).
Proof. unfold Attenuate. destruct (hex_decode _) as [sig|]; [|done]. intros [= <-]. by exists sig. Qed.

Lemma attenuate_signed key mac cs mac' :
  Signature mac = signature_of key mac -> Attenuate (TMacaroon mac) cs = Ok mac' ->
  Signature mac' = signature_of key mac'.
Proof.
  intros Hs (sig & Hsig & ->)%Attenuate_Ok. rewrite Hs in Hsig. unfold signature_of in *.
  rewrite hex_decode_encode in Hsig. injection Hsig as <-. cbn. by rewrite chain_app.
Qed.

(** The first two caveats of every issued token are the task and the
    namespace fixed at mint time. *)
Lemma issued_inv key mac : issued key mac ->
  usable_key (Some key) = Some key /\ Signature mac = signature_of key mac /\
  exists ns rest, TokenID mac <> [] /\ ns <> [] /\
    CaveatSeq mac = mkCaveat #"task_id" OpEqual (TokenID mac) :: mkCaveat #"namespace" OpEqual ns :: rest.
Proof.
  induction 1 as [nonce cl mac Hm|mac cs mac' _ (Hk & Hs & ns & rest & Hid & Hns & Hcs) Ha].
  - apply Mint_Ok in Hm as (k & n & [= <-] & Hk & -> & Ht & Hn & Hid & Hcs & Hs).
    split; [done|]. split; [done|]. rewrite Hid, Hcs.
    exists (Namespace cl). eexists. repeat (split; [done|]).
    unfold claim_caveats. rewrite <-app_assoc. cbn. done.
  - pose proof (attenuate_signed _ _ _ _ Hs Ha) as Hs'.
    apply Attenuate_Ok in Ha as (sig & _ & ->). split; [done|]. split; [done|]. cbn.
    rewrite Hcs. eauto.
Qed.

(** ** The loop of [Verify] *)
Section VerifyFacts.
Context {U : GoUnicode}.

Definition caveat_holds (now : Z) (req : Claims) (c : Caveat) : Prop :=
  evaluateCaveat now c req = Ok tt.

Definition seen_in (k : caveat_kind) (cs : list Caveat) : bool :=
  existsb (fun c => bool_decide (kind_of (cv_key c) = k) && negb (bool_decide (cv_value c = []))) cs.

Lemma verify_step_Ok now req st c st' :
  verify_step now req st c = Ok st' <->
  caveat_holds now req c /\
  st' = mkV (computeHMAC (v_sig st) (serializeCaveatCanonical c))
            (v_task st || seen_in KTaskID [c]) (v_ns st || seen_in KNamespace [c]).
Proof.
  unfold verify_step, caveat_holds, seen_in. cbn [existsb]. rewrite !orb_false_r.
  rewrite bind_Ok. split.
  - intros ([] & Hev & Heq). injection Heq as <-. split; [done|].
    by destruct (kind_of (cv_key c)).
  - intros [Hev ->]. exists tt. split; [done|]. by destruct (kind_of (cv_key c)).
Qed.

(** The loop accepts exactly when every caveat holds; its state is then the
    chained signature and the caveats seen. *)
Lemma verify_loop_Ok now req st cs st' :
  verify_loop now req st cs = Ok st' <->
  Forall (caveat_holds now req) cs /\
  st' = mkV (chain (v_sig st) cs) (v_task st || seen_in KTaskID cs) (v_ns st || seen_in KNamespace cs).
Proof.
  revert st. induction cs as [|c cs IH]; intros st; cbn [verify_loop].
  - unfold seen_in. cbn. rewrite !orb_false_r. split.
    + intros [= <-]. destruct st. done.
    + intros [_ ->]. by destruct st.
  - rewrite bind_Ok, Forall_cons. unfold seen_in. cbn [existsb]. split.
    + intros (s1 & [Hc ->]%verify_step_Ok & [Hcs ->]%IH). split; [done|]. cbn.
      rewrite !orb_false_r, <-!orb_assoc. done.
    + intros ([Hc Hcs] & ->). eexists. split; [by apply verify_step_Ok|]. apply IH.
      split; [done|]. cbn. rewrite !orb_false_r, <-!orb_assoc. done.
Qed.

(** [Verify], unfolded: a usable key, a well-formed token, every caveat
    holding, the right signature, a task and a namespace. *)
Lemma Verify_Ok p now raw req :
  Verify p now raw req = Ok tt <->
  exists key mac, p = Some key /\ usable_key (Some key) = Some key /\ unmarshal raw = Some mac /\
    Forall (caveat_holds now req) (CaveatSeq mac) /\ Signature mac = signature_of key mac /\
    seen_in KTaskID (CaveatSeq mac) = true /\ seen_in KNamespace (CaveatSeq mac) = true.
Proof.
  unfold Verify. destruct p as [key|]; cycle 1.
  { cbn. split; [done|]. by intros (? & ? & ? & _). }
  unfold usable_key. destruct (length key <? MinMacaroonRootKeyLen)%nat eqn:E.
  { split; [done|]. intros (k & ? & [= <-] & Hk & _). by rewrite E in Hk. }
  destruct (unmarshal raw) as [mac|]; cycle 1.
  { split; [done|]. by intros (? & ? & ? & ? & ? & _). }
  rewrite bind_Ok. split.
  - intros (st & [Hall ->]%verify_loop_Ok & H). inv_ok. bool_simpl. cbn [v_sig v_task v_ns orb] in *.
    exists key, mac. by rewrite (proj2 (Nat.ltb_ge _ _) E).
  - intros (? & ? & [= <-] & _ & [= <-] & Hall & Hsig & Ht & Hn).
    eexists. split; [by apply verify_loop_Ok|]. cbn. rewrite Hsig, Ht, Hn.
    unfold signature_of. by rewrite bool_decide_eq_true_2.
Qed.
End VerifyFacts.

Lemma Verify_issued_iff {U : GoUnicode} key mac raw now req :
  issued key mac -> unmarshal raw = Some mac ->
  Verify (Some key) now raw req = Ok tt <-> Forall (caveat_holds now req) (CaveatSeq mac).
Proof.
  intros Hi Hraw. apply issued_inv in Hi as (Hk & Hs & ns & rest & Hid & Hns & Hcs).
  rewrite Verify_Ok. split.
  - intros (k & m & [= <-] & _ & Hm & Hall & _). by rewrite Hraw in Hm; injection Hm as <-.
  - intros Hall. exists key, mac. repeat (split; [done|]). rewrite Hcs. unfold seen_in.
    cbn [existsb cv_key cv_value]. by rewrite !(bool_decide_eq_false_2 (_ = [])).
Qed.

(** for every token the code issues (minted, then attenuated any number
    of times), [Verify] accepts a request exactly when every caveat of the
    chain holds for it. *)
Theorem Verify_issued {U : GoUnicode} key mac raw now req :
  issued key mac -> unmarshal raw = Some mac ->
  Verify (Some key) now raw req = Ok tt <-> Forall (caveat_holds now req) (CaveatSeq mac).
Proof. apply Verify_issued_iff. Qed.

(** ** The loop of [VerifyAndExtract] *)

Lemma kind_of_key key k : kind_of key = k ->
  match k with
  | KTaskID => key = #"task_id" | KNamespace => key = #"namespace" | KRepo => key = #"repo"
  | KBranch => key = #"branch" | KExpiresAt => key = #"expires_at"
  | KAllowedTools => key = #"allowed_tools" | KAllowedModels => key = #"allowed_models"
  | KMaxCostUSD => key = #"max_cost_usd" | KMaxTokens => key = #"max_tokens"
  | KNonce => key = #"nonce" | KUnknown => True
  end.
Proof. unfold kind_of. intros <-. repeat case_decide; done. Qed.

Ltac inv_step H :=
  unfold extract_step in H;
  let K := fresh "K" in
  match type of H with context [kind_of ?k] => destruct (kind_of k) eqn:K end;
  unfold extract_task, extract_namespace, extract_repo, extract_branch, extract_expiry, extract_tools,
    extract_models, extract_cost, extract_tokens, list_elements, op_is in H;
  repeat first [progress inv_ok | progress case_match]; bool_simpl; subst; cbn in *; try done.

Section ExtractFacts.
Context {U : GoUnicode}.

(** What one step does to the fields that bind the token. *)
Lemma extract_step_binding now id i c st st' :
  extract_step now id i c st = Ok st' ->
  kind_of (cv_key c) <> KUnknown /\
  (kind_of (cv_key c) = KTaskID ->
     c = mkCaveat #"task_id" OpEqual id /\ (x_task st = true \/ i = 0%nat) /\
     x_task st' = true /\ TaskID (x_claims st') = id) /\
  (kind_of (cv_key c) <> KTaskID ->
     x_task st' = x_task st /\ TaskID (x_claims st') = TaskID (x_claims st)) /\
  (kind_of (cv_key c) = KNamespace ->
     c = mkCaveat #"namespace" OpEqual (cv_value c) /\ cv_value c <> [] /\
     (x_ns st = true \/ i = 1%nat) /\ x_ns st' = true /\ Namespace (x_claims st') = cv_value c /\
     (Namespace (x_claims st) = [] \/ Namespace (x_claims st) = cv_value c)) /\
  (kind_of (cv_key c) <> KNamespace ->
     x_ns st' = x_ns st /\ Namespace (x_claims st') = Namespace (x_claims st)).
Proof.
  intros H. destruct c as [ck co cv]. cbn in *.
  inv_step H; apply kind_of_key in K; subst; repeat split; intros; try done;
    destruct_or?; bool_simpl; auto; try congruence.
Qed.

Lemma extract_loop_Ok now id i c cs st st' :
  extract_loop now id i (c :: cs) st = Ok st' ->
  exists s1, extract_step now id i c st = Ok s1 /\ extract_loop now id (S i) cs s1 = Ok st'.
Proof. intros H. by apply bind_Ok in H. Qed.

(** Past the first two caveats the flags are fixed: neither a task nor a
    namespace can be introduced. *)
Lemma extract_loop_flags now id i cs st st' :
  (1 < i)%nat -> extract_loop now id i cs st = Ok st' ->
  x_task st' = x_task st /\ x_ns st' = x_ns st.
Proof.
  revert i st. induction cs as [|c cs IH]; intros i st Hi H; [by injection H as <-|].
  apply extract_loop_Ok in H as (s1 & Hs & Hl).
  apply IH in Hl as [-> ->]; [|lia].
  apply extract_step_binding in Hs as (_ & Ht & Hnt & Hn & Hnn). split.
  - destruct (decide (kind_of (cv_key c) = KTaskID)) as [K|K].
    + destruct (Ht K) as (_ & [->|?] & -> & _); [done|lia].
    + by destruct (Hnt K).
  - destruct (decide (kind_of (cv_key c) = KNamespace)) as [K|K].
    + destruct (Hn K) as (_ & _ & [->|?] & -> & _); [done|lia].
    + by destruct (Hnn K).
Qed.

Lemma extract_loop_task now id i cs st st' :
  TaskID (x_claims st) = id -> extract_loop now id i cs st = Ok st' ->
  TaskID (x_claims st') = id /\
  Forall (fun c => kind_of (cv_key c) <> KUnknown /\
                   (kind_of (cv_key c) = KTaskID -> c = mkCaveat #"task_id" OpEqual id)) cs.
Proof.
  revert i st. induction cs as [|c cs IH]; intros i st Hid H; [by injection H as <-|].
  apply extract_loop_Ok in H as (s1 & Hs & Hl).
  apply extract_step_binding in Hs as (Hu & Ht & Hnt & _ & _).
  rewrite Forall_cons. apply IH in Hl as [? ?]; [by repeat split; try done; intros K; apply Ht|].
  destruct (decide (kind_of (cv_key c) = KTaskID)) as [K|K].
  - by destruct (Ht K) as (_ & _ & _ & ?).
  - by destruct (Hnt K) as (_ & ->).
Qed.

Lemma extract_loop_namespace now id i cs st st' ns :
  ns <> [] -> Namespace (x_claims st) = ns -> extract_loop now id i cs st = Ok st' ->
  Namespace (x_claims st') = ns /\
  Forall (fun c => kind_of (cv_key c) = KNamespace -> c = mkCaveat #"namespace" OpEqual ns) cs.
Proof.
  intros Hne. revert i st. induction cs as [|c cs IH]; intros i st Hns H; [by injection H as <-|].
  apply extract_loop_Ok in H as (s1 & Hs & Hl).
  apply extract_step_binding in Hs as (_ & _ & _ & Hn & Hnn). rewrite Forall_cons.
  destruct (decide (kind_of (cv_key c) = KNamespace)) as [K|K].
  - destruct (Hn K) as (Hc & _ & _ & _ & Hs1 & [?|Hv]); [congruence|].
    apply IH in Hl as [? ?]; [|congruence]. repeat split; try done. intros _. congruence.
  - destruct (Hnn K) as [_ Hs1]. apply IH in Hl as [? ?]; [done|congruence].
Qed.
End ExtractFacts.

Lemma VerifyAndExtract_facts {U : GoUnicode} p now raw mac cl :
  VerifyAndExtract p now raw = Ok (mac, cl) ->
  exists key rest, p = Some key /\ usable_key p = Some key /\ unmarshal raw = Some mac /\
    Signature mac = signature_of key mac /\ TokenID mac <> [] /\ Namespace cl <> [] /\
    CaveatSeq mac = mkCaveat #"task_id" OpEqual (TokenID mac)
                    :: mkCaveat #"namespace" OpEqual (Namespace cl) :: rest /\
    TaskID cl = TokenID mac /\
    Forall (fun c => kind_of (cv_key c) <> KUnknown /\
      (kind_of (cv_key c) = KTaskID -> cv_value c = TaskID cl) /\
      (kind_of (cv_key c) = KNamespace -> cv_value c = Namespace cl)) rest.
Proof.
  intros H. unfold VerifyAndExtract in H.
  destruct (usable_key p) as [key|] eqn:Hk; [|done].
  assert (p = Some key) as ->. { unfold usable_key in Hk. repeat case_match; congruence. }
  destruct (unmarshal raw) as [m|]; [|done]. inv_ok. injection H as <- <-.
  rename r0 into st. bool_simpl. rename Hr0 into Hloop, Hr1 into Hsig.
  assert (Signature m = signature_of key m) as Hs by (by symmetry).
  exists key. clear Hsig. set (id := TokenID m) in *.
  pose proof (extract_loop_task _ _ _ _ _ _ (eq_refl : TaskID (x_claims (extract_init m)) = id) Hloop)
    as [Hid Hall].
  destruct (CaveatSeq m) as [|c0 [|c1 rest]] eqn:Hcs.
  - by injection Hloop as <-.
  - apply extract_loop_Ok in Hloop as (s1 & Hs1 & Hl). injection Hl as <-.
    apply extract_step_binding in Hs1 as (_ & Ht & Hnt & Hn & Hnn).
    destruct (decide (kind_of (cv_key c0) = KNamespace)) as [K|K].
    + by destruct (Hn K) as (_ & _ & [?|?] & _).
    + destruct (Hnn K) as [E _]. by rewrite E in *.
  - apply extract_loop_Ok in Hloop as (s1 & Hs1 & Hl).
    apply extract_loop_Ok in Hl as (s2 & Hs2 & Hl).
    destruct (extract_loop_flags _ _ _ _ _ _ (ltac:(lia) : (1 < 2)%nat) Hl) as [Ef1 Ef2].
    apply extract_step_binding in Hs1 as (_ & Ht0 & Hnt0 & Hn0 & Hnn0).
    apply extract_step_binding in Hs2 as (_ & Ht1 & Hnt1 & Hn1 & Hnn1).
    assert (kind_of (cv_key c0) = KTaskID) as K0.
    { destruct (decide (kind_of (cv_key c0) = KTaskID)) as [?|K]; [done|exfalso].
      destruct (Hnt0 K) as [E0 _].
      destruct (decide (kind_of (cv_key c1) = KTaskID)) as [K1|K1].
      - destruct (Ht1 K1) as (_ & [?|?] & _); [|done]. cbn in E0. congruence.
      - destruct (Hnt1 K1) as [E1 _]. cbn in E0. congruence. }
    destruct (Ht0 K0) as (-> & _ & E0 & _).
    destruct (Hnn0 ltac:(by rewrite K0)) as [En0 _].
    assert (kind_of (cv_key c1) = KNamespace) as K1.
    { destruct (decide (kind_of (cv_key c1) = KNamespace)) as [?|K]; [done|exfalso].
      destruct (Hnn1 K) as [E1 _]. cbn in En0. congruence. }
    destruct (Hn1 K1) as (Hc1 & Hne & _ & _ & Hns & _).
    destruct (extract_loop_namespace _ _ _ _ _ _ _ Hne Hns Hl) as [Hns' Hall'].
    exists rest. rewrite Hns'. repeat (split; [done|]).
    split; [by rewrite Hc1 at 1|]. split; [done|].
    apply Forall_cons in Hall as [_ Hall]. apply Forall_cons in Hall as [_ Hall].
    rewrite Forall_forall in Hall, Hall' |- *. intros c Hin.
    destruct (Hall c Hin) as [? Hct]. specialize (Hall' c Hin).
    repeat split; [done| |]; intros K; [by rewrite (Hct K)|by rewrite (Hall' K)].
Qed.

(** C2: whatever bytes are presented, [VerifyAndExtract] only accepts a
    token whose signature is the HMAC chain of its caveats under the root key,
    whose first caveat is its own task and whose second one is a namespace;
    the claims returned are for that task and that namespace, no caveat is
    unrecognized, and no later caveat names another task or namespace. *)
Theorem VerifyAndExtract_bound {U : GoUnicode} p now raw mac cl :
  VerifyAndExtract p now raw = Ok (mac, cl) ->
  exists key rest, p = Some key /\ usable_key p = Some key /\ unmarshal raw = Some mac /\
    Signature mac = signature_of key mac /\ TokenID mac <> [] /\ Namespace cl <> [] /\
    CaveatSeq mac = mkCaveat #"task_id" OpEqual (TokenID mac)
                    :: mkCaveat #"namespace" OpEqual (Namespace cl) :: rest /\
    TaskID cl = TokenID mac /\
    Forall (fun c => kind_of (cv_key c) <> KUnknown /\
      (kind_of (cv_key c) = KTaskID -> cv_value c = TaskID cl) /\
      (kind_of (cv_key c) = KNamespace -> cv_value c = Namespace cl)) rest.
Proof. apply VerifyAndExtract_facts. Qed.

(** ** Limits *)
Section LimitFacts.
Context {U : GoUnicode}.

(** Under an invariant of the steps, a property that a step establishes for
    its own caveat and keeps for the others holds of every caveat at the
    end. *)
Lemma extract_loop_Forall (J : xstate -> Prop) (P : xstate -> Caveat -> Prop) now id :
  (forall i c st st', extract_step now id i c st = Ok st' -> J st ->
     J st' /\ P st' c /\ forall d, P st d -> P st' d) ->
  forall cs i st st', extract_loop now id i cs st = Ok st' -> J st ->
    (forall d, P st d -> P st' d) /\ Forall (P st') cs.
Proof.
  intros Hstep cs. induction cs as [|c cs IH]; intros i st st' H HJ; [by injection H as <-|].
  apply extract_loop_Ok in H as (s1 & Hs & Hl).
  destruct (Hstep _ _ _ _ Hs HJ) as (HJ1 & Hown & Hkeep).
  destruct (IH _ _ _ Hl HJ1) as [Hk Hall]. rewrite Forall_cons. auto.
Qed.

Definition tokens_limit (st : xstate) (c : Caveat) : Prop :=
  kind_of (cv_key c) = KMaxTokens ->
  exists n, ParseInt (cv_value c) = Some n /\ x_tokens st = true /\
    (0 < MaxTokens (x_claims st) <= n)%Z.
Definition cost_limit (st : xstate) (c : Caveat) : Prop :=
  kind_of (cv_key c) = KMaxCostUSD ->
  exists f, ParseFloat (cv_value c) = Some f /\ positive f /\ x_cost st = true /\
    positive (MaxCostUSD (x_claims st)) /\ f_lt f (MaxCostUSD (x_claims st)) = false.
Definition expiry_limit (now : Z) (st : xstate) (c : Caveat) : Prop :=
  kind_of (cv_key c) = KExpiresAt ->
  exists s, ParseInt (cv_value c) = Some s /\ (now <= s)%Z /\
    IsZero (ExpiresAt (x_claims st)) = false /\
    Before (time_Unix s) (ExpiresAt (x_claims st)) = false.

Lemma parse_tokens_Ok v n : parse_tokens v = Ok n -> ParseInt v = Some n /\ (0 < n)%Z.
Proof. unfold parse_tokens. repeat case_match; try done. intros [= ->]. bool_simpl. by split. Qed.
Lemma parse_cost_Ok v f : parse_cost v = Ok f -> ParseFloat v = Some f /\ positive f.
Proof.
  unfold parse_cost. repeat case_match; try done. intros [= ->]. split; [done|].
  by apply positive_intro.
Qed.

(** A step leaves the token limit alone unless it is a token caveat, which
    takes the minimum. *)
Lemma extract_step_tokens now id i c st st' : extract_step now id i c st = Ok st' ->
  (kind_of (cv_key c) = KMaxTokens ->
     exists n, ParseInt (cv_value c) = Some n /\ (0 < n)%Z /\ x_tokens st' = true /\
       MaxTokens (x_claims st') =
         if x_tokens st then Z.min n (MaxTokens (x_claims st)) else n) /\
  (kind_of (cv_key c) <> KMaxTokens ->
     x_tokens st' = x_tokens st /\ MaxTokens (x_claims st') = MaxTokens (x_claims st)).
Proof.
  intros H. split; intros Hk; [|by inv_step H].
  unfold extract_step in H. rewrite Hk in H. unfold extract_tokens in H. inv_ok. subst st'.
  apply parse_tokens_Ok in Hr0 as [? ?]. exists r0.
  destruct (x_tokens st) eqn:E; cbn.
  - destruct (Z.ltb_spec r0 (MaxTokens (x_claims st))); cbn; rewrite ?E; repeat split; try done; lia.
  - done.
Qed.

Lemma extract_step_cost now id i c st st' : extract_step now id i c st = Ok st' ->
  (kind_of (cv_key c) = KMaxCostUSD ->
     exists f, ParseFloat (cv_value c) = Some f /\ positive f /\ x_cost st' = true /\
       MaxCostUSD (x_claims st') =
         if x_cost st && negb (f_lt f (MaxCostUSD (x_claims st)))
         then MaxCostUSD (x_claims st) else f) /\
  (kind_of (cv_key c) <> KMaxCostUSD ->
     x_cost st' = x_cost st /\ MaxCostUSD (x_claims st') = MaxCostUSD (x_claims st)).
Proof.
  intros H. split; intros Hk; [|by inv_step H].
  unfold extract_step in H. rewrite Hk in H. unfold extract_cost in H. inv_ok. subst st'.
  apply parse_cost_Ok in Hr0 as [? ?]. exists r0.
  destruct (x_cost st) eqn:E; cbn; [|done].
  destruct (f_lt r0 _); cbn; by rewrite ?E.
Qed.

Lemma time_Unix_not_zero now s : (0 <= now <= s)%Z -> (s < 2 ^ 63)%Z -> IsZero (time_Unix s) = false.
Proof.
  intros H Hs. unfold IsZero, time_Unix, wrap64, unixToInternal. cbn [t_sec t_nsec].
  rewrite andb_false_iff. left. apply Z.eqb_neq.
  destruct (Z.lt_ge_cases (s + 62135596800 + 2 ^ 63) (2 ^ 64)).
  - rewrite Z.mod_small; lia.
  - replace (s + 62135596800 + 2 ^ 63)%Z with (s + 62135596800 + 2 ^ 63 - 2 ^ 64 + 1 * 2 ^ 64)%Z by lia.
    rewrite Z.mod_add, Z.mod_small; lia.
Qed.

Lemma ParseInt_bound v s : ParseInt v = Some s -> (- 2 ^ 63 <= s < 2 ^ 63)%Z.
Proof.
  unfold ParseInt. repeat case_match; try done; subst; intros Hv;
    apply bind_Some in Hv as (w & _ & Hv); case_match; simplify_eq; bool_simpl; lia.
Qed.

Lemma Before_trans_not t u w : Before t u = false -> Before w u = true -> Before t w = false.
Proof.
  unfold Before. rewrite <-!not_true_iff_false, !orb_true_iff, !andb_true_iff, !Z.ltb_lt, !Z.eqb_eq. lia.
Qed.
Lemma Before_irrefl t : Before t t = false.
Proof. unfold Before. by rewrite !Z.ltb_irrefl, andb_false_r. Qed.

Lemma extract_step_expiry now id i c st st' : (0 <= now)%Z -> extract_step now id i c st = Ok st' ->
  (kind_of (cv_key c) = KExpiresAt ->
     exists s, ParseInt (cv_value c) = Some s /\ (now <= s)%Z /\ IsZero (time_Unix s) = false /\
       ExpiresAt (x_claims st') =
         if IsZero (ExpiresAt (x_claims st)) || Before (time_Unix s) (ExpiresAt (x_claims st))
         then time_Unix s else ExpiresAt (x_claims st)) /\
  (kind_of (cv_key c) <> KExpiresAt -> ExpiresAt (x_claims st') = ExpiresAt (x_claims st)).
Proof.
  intros Hnow H. split; intros Hk; [|by inv_step H].
  unfold extract_step in H. rewrite Hk in H. unfold extract_expiry in H. inv_ok.
  destruct (ParseInt _) as [s|] eqn:Es; [|done]. inv_ok. bool_simpl. subst st'. exists s.
  pose proof (ParseInt_bound _ _ Es). repeat split; try done.
  - apply (time_Unix_not_zero now); lia.
  - by destruct (_ || _).
Qed.

Lemma tokens_step now id i c st st' :
  extract_step now id i c st = Ok st' -> (x_tokens st = true -> (0 < MaxTokens (x_claims st))%Z) ->
  (x_tokens st' = true -> (0 < MaxTokens (x_claims st'))%Z) /\
  tokens_limit st' c /\ forall d, tokens_limit st d -> tokens_limit st' d.
Proof.
  intros [H H']%extract_step_tokens Hpos. unfold tokens_limit.
  destruct (decide (kind_of (cv_key c) = KMaxTokens)) as [K|K].
  - destruct (H K) as (n & Hn & Hn0 & -> & ->).
    assert (0 < (if x_tokens st then Z.min n (MaxTokens (x_claims st)) else n))%Z.
    { destruct (x_tokens st); [specialize (Hpos eq_refl)|]; lia. }
    split; [done|]. split.
    + intros _. exists n. repeat split; try done. destruct (x_tokens st); lia.
    + intros d Hd Kd. destruct (Hd Kd) as (k & ? & Hx & ?). exists k. rewrite Hx in *.
      repeat split; try done; lia.
  - destruct (H' K) as [-> ->]. repeat split; done.
Qed.

Lemma cost_step now id i c st st' :
  extract_step now id i c st = Ok st' -> (x_cost st = true -> positive (MaxCostUSD (x_claims st))) ->
  (x_cost st' = true -> positive (MaxCostUSD (x_claims st'))) /\
  cost_limit st' c /\ forall d, cost_limit st d -> cost_limit st' d.
Proof.
  intros [H H']%extract_step_cost Hpos. unfold cost_limit.
  destruct (decide (kind_of (cv_key c) = KMaxCostUSD)) as [K|K].
  - destruct (H K) as (f & Hf & Hf0 & -> & ->).
    set (old := MaxCostUSD (x_claims st)) in *.
    destruct (x_cost st) eqn:Ex; cbn [andb].
    + specialize (Hpos eq_refl). destruct (f_lt f old) eqn:Elt; cbn [negb].
      * split; [done|]. split.
        -- intros _. exists f. repeat split; try done. by apply f_lt_irrefl.
        -- intros d Hd Kd. destruct (Hd Kd) as (g & ? & ? & _ & _ & ?). exists g.
           repeat split; try done. by eapply (f_lt_trans_not old).
      * split; [done|]. split; [|done]. intros _. by exists f.
    + split; [done|]. split.
      * intros _. exists f. repeat split; try done. by apply f_lt_irrefl.
      * intros d Hd Kd. by destruct (Hd Kd) as (g & ? & ? & ? & _).
  - destruct (H' K) as [-> ->]. repeat split; done.
Qed.

Lemma expiry_step now id i c st st' : (0 <= now)%Z ->
  extract_step now id i c st = Ok st' -> True ->
  True /\ expiry_limit now st' c /\ forall d, expiry_limit now st d -> expiry_limit now st' d.
Proof.
  intros Hnow [H H']%extract_step_expiry _; [|done]. unfold expiry_limit.
  destruct (decide (kind_of (cv_key c) = KExpiresAt)) as [K|K].
  - destruct (H K) as (s & Hs & Hge & Hz & ->). split; [done|].
    set (old := ExpiresAt (x_claims st)) in *.
    destruct (IsZero old) eqn:Ez; cbn [orb].
    { split; [intros _; exists s; auto using Before_irrefl|].
      intros d Hd Kd. destruct (Hd Kd) as (k & ? & ? & ? & _). congruence. }
    destruct (Before (time_Unix s) old) eqn:Eb.
    + split; [intros _; exists s; auto using Before_irrefl|].
      intros d Hd Kd. destruct (Hd Kd) as (k & ? & ? & ? & ?). exists k. repeat split; try done.
      by eapply Before_trans_not.
    + split; [intros _; by exists s|].
      intros d Hd Kd. destruct (Hd Kd) as (k & ? & ? & ? & ?). by exists k.
  - rewrite (H' K). repeat split; done.
Qed.
End LimitFacts.

(** the limits an accepted token reports are the tightest of its chain:
    the token limit is positive and at most every [max_tokens] caveat, the
    cost limit is positive and no [max_cost_usd] caveat is below it, no
    [expires_at] caveat is in the past and none is before the reported
    expiry. *)
Theorem VerifyAndExtract_limits {U : GoUnicode} p now raw mac cl :
  (0 <= now)%Z -> VerifyAndExtract p now raw = Ok (mac, cl) ->
  Forall (fun c =>
    match kind_of (cv_key c) with
    | KMaxTokens => exists n, ParseInt (cv_value c) = Some n /\ (0 < MaxTokens cl <= n)%Z
    | KMaxCostUSD => exists f, ParseFloat (cv_value c) = Some f /\ f_lt f_zero (MaxCostUSD cl) = true /\
                               f_lt f (MaxCostUSD cl) = false
    | KExpiresAt => exists s, ParseInt (cv_value c) = Some s /\ (now <= s)%Z /\
                              IsZero (ExpiresAt cl) = false /\ Before (time_Unix s) (ExpiresAt cl) = false
    | _ => True
    end) (CaveatSeq mac).
Proof.
  intros Hnow H. unfold VerifyAndExtract in H.
  destruct (usable_key p) as [key|]; [|done]. destruct (unmarshal raw) as [m|]; [|done].
  inv_ok. injection H as <- <-. rename r0 into st, Hr0 into Hl. clear Hr1 Hr2 Hr3 Hr.
  destruct (extract_loop_Forall _ _ now _ (tokens_step now _) _ _ _ _ Hl (fun E => ltac:(done))) as [_ H1].
  destruct (extract_loop_Forall _ _ now _ (cost_step now _) _ _ _ _ Hl (fun E => ltac:(done))) as [_ H2].
  destruct (extract_loop_Forall _ _ now _ (fun i c s s' => expiry_step now _ i c s s' Hnow) _ _ _ _ Hl I) as [_ H3].
  rewrite Forall_forall in H1, H2, H3 |- *. intros c Hc.
  specialize (H1 c Hc). specialize (H2 c Hc). specialize (H3 c Hc).
  unfold tokens_limit, cost_limit, expiry_limit in *.
  destruct (kind_of (cv_key c)); try done.
  - by destruct (H3 eq_refl) as (s & ? & ? & ? & ?); exists s.
  - destruct (H2 eq_refl) as (f & ? & ? & ? & ? & ?). exists f. auto using f_lt_positive.
  - destruct (H1 eq_refl) as (n & ? & ? & ?). by exists n.
Qed.

(** ** From minting to extraction *)
Section MintFacts.
Context {U : GoUnicode}.

Lemma extract_loop_app now id i cs ds st :
  extract_loop now id i (cs ++ ds) st =
  st1 ← extract_loop now id i cs st; extract_loop now id (i + length cs) ds st1.
Proof.
  revert i st. induction cs as [|c cs IH]; intros i st; cbn; [by rewrite Nat.add_0_r|].
  destruct (extract_step now id i c st); cbn; [|done]. rewrite IH. by rewrite Nat.add_succ_r.
Qed.

Lemma extract_loop_one now id i c st :
  extract_loop now id i [c] st = extract_step now id i c st.
Proof. cbn. by destruct (extract_step now id i c st). Qed.

Lemma op_is_refl k op v : op_is (mkCaveat k op v) op = true.
Proof. by apply bool_decide_eq_true_2. Qed.
Lemma nonempty_true (v : gostring) : v <> [] -> negb (bool_decide (v = [])) = true.
Proof. intros. by rewrite bool_decide_eq_false_2. Qed.

(** Compute the kind of a literal key. *)
Ltac eval_kind :=
  match goal with |- context [kind_of ?k] =>
    let v := eval vm_compute in (kind_of k) in
    change (kind_of k) with v; cbv beta iota
  end.
Ltac run_step :=
  rewrite ?extract_loop_one; unfold extract_step; cbn [cv_key]; eval_kind;
  unfold extract_task, extract_namespace, extract_repo, extract_branch, extract_expiry, extract_tools,
    extract_models, extract_cost, extract_tokens, list_elements;
  rewrite ?op_is_refl; cbn [cv_value x_claims x_task x_ns x_tools x_models x_cost x_tokens];
  rewrite ?nonempty_true, ?(bool_decide_eq_true_2 (_ = _)) by done; cbn [andb orb].

Variable (now : Z) (id : gostring).

Lemma step_task st : id <> [] ->
  extract_step now id 0 (mkCaveat #"task_id" OpEqual id) st =
  Ok (mkX (set_task (x_claims st) id) true (x_ns st) (x_tools st) (x_models st) (x_cost st) (x_tokens st)).
Proof. intros H. run_step. by rewrite orb_true_r. Qed.

Lemma step_namespace ns st : ns <> [] -> Namespace (x_claims st) = [] ->
  extract_step now id 1 (mkCaveat #"namespace" OpEqual ns) st =
  Ok (mkX (set_namespace (x_claims st) ns) (x_task st) true (x_tools st) (x_models st) (x_cost st) (x_tokens st)).
Proof. intros H Hn. run_step. by rewrite orb_true_r. Qed.

Lemma step_repo i v st : RepoURL (x_claims st) = [] ->
  extract_loop now id i (if decide (v = []) then [] else [mkCaveat #"repo" OpEqual v]) st =
  Ok (with_claims st (set_repo (x_claims st) v)).
Proof.
  intros Hr. case_decide as Hv; [|by run_step]. subst v. cbn. f_equal.
  destruct st as [[] ??????]; cbn in *. by subst.
Qed.

Lemma step_branch i v st : Branch (x_claims st) = [] ->
  extract_loop now id i (if decide (v = []) then [] else [mkCaveat #"branch" OpEqual v]) st =
  Ok (with_claims st (set_branch (x_claims st) v)).
Proof.
  intros Hr. case_decide as Hv; [|by run_step]. subst v. cbn. f_equal.
  destruct st as [[] ??????]; cbn in *. by subst.
Qed.

Lemma step_expiry i t st : ExpiresAt (x_claims st) = time_zero ->
  (IsZero t = false -> (now <= Unix t)%Z) ->
  extract_loop now id i (if IsZero t then [] else [mkCaveat #"expires_at" OpBefore (FormatInt (Unix t))]) st =
  Ok (with_claims st (set_expiry (x_claims st) (if IsZero t then time_zero else time_Unix (Unix t)))).
Proof.
  intros He Ht. destruct (IsZero t).
  - cbn. f_equal. destruct st as [[] ??????]; cbn in *. by subst.
  - run_step. rewrite ParseInt_FormatInt by apply wrap64_range.
    rewrite (proj2 (Z.leb_le _ _)) by auto. by rewrite He.
Qed.

Lemma step_cost i f lim st :
  x_cost st = false -> MaxCostUSD (x_claims st) = f_zero ->
  (f_gt f f_zero = true -> parse_cost (cost_value f) = Ok lim) ->
  extract_loop now id i (if f_gt f f_zero then [mkCaveat #"max_cost_usd" OpLessThan (cost_value f)] else []) st =
  Ok (mkX (set_cost (x_claims st) (if f_gt f f_zero then lim else f_zero)) (x_task st) (x_ns st) (x_tools st)
        (x_models st) (f_gt f f_zero) (x_tokens st)).
Proof.
  intros Hf Hz Hp. destruct (f_gt f f_zero).
  - run_step. rewrite (Hp eq_refl), Hf. done.
  - cbn. f_equal. destruct st as [[] ??????]; cbn in *. by subst.
Qed.

Lemma step_tokens i n st :
  (n < 2 ^ 63)%Z -> x_tokens st = false -> MaxTokens (x_claims st) = 0%Z ->
  extract_loop now id i (if (0 <? n)%Z then [mkCaveat #"max_tokens" OpLessThan (FormatInt n)] else []) st =
  Ok (mkX (set_tokens (x_claims st) (Z.max 0 n)) (x_task st) (x_ns st) (x_tools st)
        (x_models st) (x_cost st) (0 <? n)%Z).
Proof.
  intros Hr Hf Hz. destruct (Z.ltb_spec 0 n).
  - run_step. unfold parse_tokens. rewrite ParseInt_FormatInt by lia.
    rewrite (proj2 (Z.leb_gt _ _)) by lia. rewrite Hf, Z.max_r by lia. done.
  - rewrite Z.max_l by lia. cbn. f_equal. destruct st as [[] ??????]; cbn in *. by subst.
Qed.

(** Lists that [Join] and [Split] on commas round-trip. *)
Definition comma_free (l : list gostring) : Prop :=
  Forall (fun w => w <> [] /\ ","%char ∉ w) l.

Lemma comma_free_split l : l <> [] -> comma_free l -> Split (Join l #",") ","%char = l.
Proof.
  intros Hne Hl. apply (Split_Join l ","%char); [done|]. eapply Forall_impl; [done|]. by intros ? [_ ?].
Qed.
Lemma comma_free_no_empty l : comma_free l -> existsb (fun x => bool_decide (x = [])) l = false.
Proof.
  induction 1 as [|x l [Hx _] _ IH]; [done|]. cbn. by rewrite bool_decide_eq_false_2.
Qed.
Lemma comma_free_join l : l <> [] -> comma_free l -> Join l #"," <> [].
Proof.
  destruct l as [|x l]; [done|]. intros _ [[Hx _] _]%Forall_cons. destruct x; [done|]. by destruct l.
Qed.

Lemma step_tools i l st : comma_free l -> x_tools st = false -> AllowedTools (x_claims st) = [] ->
  extract_loop now id i (if decide (l = []) then [] else [mkCaveat #"allowed_tools" OpGlob (Join l #",")]) st =
  Ok (mkX (set_tools (x_claims st) l) (x_task st) (x_ns st) (negb (bool_decide (l = [])))
        (x_models st) (x_cost st) (x_tokens st)).
Proof.
  intros Hl Hf Hz. case_decide as Hn.
  - subst l. cbn. f_equal. destruct st as [[] ??????]; cbn in *. by subst.
  - pose proof (comma_free_join l Hn Hl). run_step.
    rewrite comma_free_split, comma_free_no_empty by done. cbn. by rewrite Hf, bool_decide_eq_false_2.
Qed.

Lemma step_models i l st : comma_free l -> x_models st = false -> AllowedModels (x_claims st) = [] ->
  extract_loop now id i (if decide (l = []) then [] else [mkCaveat #"allowed_models" OpIn (Join l #",")]) st =
  Ok (mkX (set_models (x_claims st) l) (x_task st) (x_ns st) (x_tools st) (negb (bool_decide (l = [])))
        (x_cost st) (x_tokens st)).
Proof.
  intros Hl Hf Hz. case_decide as Hn.
  - subst l. cbn. f_equal. destruct st as [[] ??????]; cbn in *. by subst.
  - pose proof (comma_free_join l Hn Hl). run_step.
    rewrite comma_free_split, comma_free_no_empty by done. cbn. by rewrite Hf, bool_decide_eq_false_2.
Qed.

Lemma step_nonce i n st : n <> [] ->
  extract_loop now id i [mkCaveat #"nonce" OpEqual (hex_encode n)] st = Ok st.
Proof.
  intros Hn. assert (hex_encode n <> []) by (by destruct n). by run_step.
Qed.
End MintFacts.

(** The claims a minted token carries: those it was minted for, the consumed
    tokens aside; the expiry at whole seconds, a negative token limit as none,
    the cost as printed in the caveat. *)
Definition effective_claims (cl : Claims) (lim : float64) : Claims :=
  mkClaims (TaskID cl) (Namespace cl) (RepoURL cl) (Branch cl) (AllowedTools cl) (AllowedModels cl)
    (if f_gt (MaxCostUSD cl) f_zero then lim else f_zero) (Z.max 0 (MaxTokens cl)) 0
    (if IsZero (ExpiresAt cl) then time_zero else time_Unix (Unix (ExpiresAt cl))).

Lemma Mint_VerifyAndExtract_ok {U : GoUnicode} key nonce cl mac raw now lim :
  Mint (Some key) (Some nonce) cl = Ok mac -> unmarshal raw = Some mac -> nonce <> [] ->
  (IsZero (ExpiresAt cl) = false -> (now <= Unix (ExpiresAt cl))%Z) ->
  (MaxTokens cl < 2 ^ 63)%Z ->
  comma_free (AllowedTools cl) -> comma_free (AllowedModels cl) ->
  (f_gt (MaxCostUSD cl) f_zero = true -> parse_cost (cost_value (MaxCostUSD cl)) = Ok lim) ->
  VerifyAndExtract (Some key) now raw = Ok (mac, effective_claims cl lim).
Proof.
  intros Hm Hraw Hnonce Hexp Htok Htools Hmodels Hcost.
  apply Mint_Ok in Hm as (k & n & [= <-] & Hk & [= <-] & Ht & Hn & Hid & Hcs & Hsig).
  unfold VerifyAndExtract. rewrite Hk, Hraw, Hid, nonempty_true by done. cbn [check mbind result_bind].
  assert (extract_loop now (TaskID cl) 0 (CaveatSeq mac) (extract_init mac) =
          Ok (mkX (effective_claims cl lim) true true (negb (bool_decide (AllowedTools cl = [])))
                (negb (bool_decide (AllowedModels cl = []))) (f_gt (MaxCostUSD cl) f_zero)
                (0 <? MaxTokens cl)%Z)) as ->.
  { rewrite Hcs. unfold claim_caveats, extract_init. rewrite Hid, <-!app_assoc. cbn [app extract_loop].
    rewrite step_task by done. cbn [mbind result_bind]. rewrite step_namespace by done.
    cbn [mbind result_bind].
    do 7 (rewrite extract_loop_app;
      first [rewrite step_repo by done | rewrite step_branch by done | rewrite step_expiry by done
            | rewrite (step_cost _ _ _ _ lim) by done | rewrite step_tokens by done
            | rewrite step_tools by done | rewrite step_models by done];
      cbn [mbind result_bind x_claims x_task x_ns x_tools x_models x_cost x_tokens with_claims]).
    by rewrite step_nonce. }
  cbn [mbind result_bind x_task x_ns x_claims].
  rewrite bool_decide_eq_true_2; [done|]. rewrite Hsig. unfold signature_of. by rewrite Hid.
Qed.


(** ** The JSON form of a token *)

Definition ascii_caveat (c : Caveat) : Prop :=
  ascii_text (cv_key c) /\ ascii_text (cv_op c) /\ ascii_text (cv_value c).
Definition ascii_macaroon (m : Macaroon) : Prop :=
  ascii_text (TokenID m) /\ ascii_text (Location m) /\ Forall ascii_caveat (CaveatSeq m) /\
  ascii_text (Signature m).

Definition json_caveat (c : Caveat) : json :=
  JObject [(#"key", JString (cv_key c)); (#"op", JString (cv_op c)); (#"value", JString (cv_value c))].

Lemma ascii_lit s : forallb is_ascii_byte #s = true -> ascii_text #s.
Proof. unfold ascii_text. rewrite forallb_forall, Forall_forall. intros H x Hx. apply H. by apply list_elem_of_In. Qed.

Lemma quoted_encode s : forallb is_ascii_byte #s = true ->
  ((lit s) ≫= escape_byte) = lit s -> quoted s = encode_string #s.
Proof. intros Ha He. unfold quoted. rewrite encode_string_ascii by by apply ascii_lit. by rewrite He. Qed.

Ltac ascii_key := first [by apply ascii_lit | done].

Lemma marshal_caveat_alt c : marshal_caveat c =
  "{"%char :: encode_string #"key" ++ ":"%char :: encode_string (cv_key c) ++ ","%char ::
  encode_string #"op" ++ ":"%char :: encode_string (cv_op c) ++ ","%char ::
  encode_string #"value" ++ ":"%char :: encode_string (cv_value c) ++ #"}".
Proof. unfold marshal_caveat. by rewrite !quoted_encode by done. Qed.

(** Parse one more member whose value is an encoded string. *)
Ltac next_member :=
  repeat (progress (rewrite <-?app_assoc; cbn [app]));
  erewrite parse_member_next; [|ascii_key|by apply parse_value_string]; cbn [mbind option_bind].
Ltac last_member :=
  repeat (progress (rewrite <-?app_assoc; cbn [app]));
  erewrite parse_member_last; [|ascii_key|by apply parse_value_string]; cbn [mbind option_bind].

Lemma parse_marshal_caveat c f d rest : (Z.of_nat d < 10000)%Z -> ascii_caveat c ->
  parse_value (5 + f) d (marshal_caveat c ++ rest) = Some (json_caveat c, rest).
Proof.
  intros Hd (Hk & Ho & Hv). rewrite marshal_caveat_alt. cbn [app Nat.add].
  rewrite <-!app_assoc. cbn [app]. rewrite parse_value_object by done.
  next_member. next_member. last_member. done.
Qed.

Lemma parse_marshal_elems cs f d rest : (Z.of_nat d < 10000)%Z -> cs <> [] -> Forall ascii_caveat cs ->
  (length cs <= f)%nat ->
  parse_elems (6 + f) d (Join (map marshal_caveat cs) #"," ++ "]"%char :: rest) =
    Some (map json_caveat cs, rest).
Proof.
  intros Hd. revert f. induction cs as [|c cs IH]; intros f Hne Hall Hf; [done|].
  apply Forall_cons in Hall as [Hc Hcs].
  destruct cs as [|c' cs].
  - cbn [map Join]. change (6 + f) with (S (5 + f)).
    by erewrite parse_elem_last by by apply parse_marshal_caveat.
  - change (Join (map marshal_caveat (c :: c' :: cs)) #",")
      with (marshal_caveat c ++ #"," ++ Join (map marshal_caveat (c' :: cs)) #",").
    rewrite <-app_assoc. change (6 + f) with (S (5 + f)).
    erewrite parse_elem_next by by apply parse_marshal_caveat.
    destruct f as [|f]; [cbn in Hf; lia|]. change (5 + S f) with (6 + f).
    rewrite IH; [done|done|done|cbn in *; lia].
Qed.

Lemma parse_marshal_caveats cs f d rest : (Z.of_nat d < 9999)%Z -> Forall ascii_caveat cs ->
  (length cs <= f)%nat ->
  parse_value (7 + f) d (marshal_caveats cs ++ rest) =
    Some (match cs with [] => JNull | _ => JArray (map json_caveat cs) end, rest).
Proof.
  intros Hd Hcs Hf. destruct cs as [|c cs]; [vm_compute; reflexivity|]. unfold marshal_caveats.
  rewrite <-!app_assoc. change (#"[" ++ ?x) with ("["%char :: x).
  assert (exists t, Join (map marshal_caveat (c :: cs)) #"," = "{"%char :: t) as [t Ht].
  { cbn [map Join]. destruct (map marshal_caveat cs); unfold marshal_caveat; eexists; cbn; reflexivity. }
  rewrite Ht. change (7 + f) with (S (6 + f)). cbn [app].
  rewrite parse_value_array_of_objects by lia.
  change ("{"%char :: t ++ #"]" ++ rest) with (("{"%char :: t) ++ "]"%char :: rest). rewrite <-Ht.
  by rewrite parse_marshal_elems by (done || lia).
Qed.

Lemma Serialize_alt m : Serialize m =
  "{"%char :: encode_string #"id" ++ ":"%char :: encode_string (TokenID m) ++ ","%char ::
  encode_string #"location" ++ ":"%char :: encode_string (Location m) ++ ","%char ::
  encode_string #"caveats" ++ ":"%char :: marshal_caveats (CaveatSeq m) ++ ","%char ::
  encode_string #"signature" ++ ":"%char :: encode_string (Signature m) ++ #"}".
Proof. unfold Serialize. by rewrite !quoted_encode by done. Qed.

Lemma marshal_caveats_length cs : (length cs <= length (marshal_caveats cs))%nat.
Proof.
  assert (forall ds, ds <> [] -> (length ds <= length (Join (map marshal_caveat ds) #","))%nat) as H.
  { intros ds. induction ds as [|c [|c' l] IH]; intros _; [done| |].
    - cbn [map Join length]. unfold marshal_caveat. rewrite length_app. cbn. lia.
    - change (Join (map marshal_caveat (c :: c' :: l)) #",")
        with (marshal_caveat c ++ #"," ++ Join (map marshal_caveat (c' :: l)) #",").
      rewrite !length_app. specialize (IH ltac:(done)). cbn [length] in *.
      change (length #",") with 1. lia. }
  destruct cs as [|c cs]; [cbn; lia|]. unfold marshal_caveats. rewrite !length_app.
  specialize (H (c :: cs) ltac:(done)). lia.
Qed.

Lemma into_caveat_json c old : into_caveat (json_caveat c) old = Some c.
Proof. by destruct c. Qed.
Lemma into_caveat_list_json cs : forall old, into_caveat_list (map json_caveat cs) old = Some cs.
Proof.
  induction cs as [|c cs IH]; intros old; [done|]. cbn [map into_caveat_list].
  rewrite into_caveat_json. cbn [mbind option_bind]. by rewrite IH.
Qed.

Lemma into_caveats_json cs :
  into_caveats (match cs with [] => JNull | _ => JArray (map json_caveat cs) end) [] = Some cs.
Proof. destruct cs as [|c cs]; [done|]. apply into_caveat_list_json. Qed.

Lemma unmarshal_Serialize_ascii m : ascii_macaroon m -> unmarshal (Serialize m) = Some m.
Proof.
  intros (Hid & Hloc & Hcs & Hsig). unfold unmarshal, parse_document, parse_prefix.
  assert (exists f, 2 * length (Serialize m) + 2 = 12 + f /\ length (CaveatSeq m) <= f) as (f & -> & Hf).
  { pose proof (marshal_caveats_length (CaveatSeq m)).
    assert (length (marshal_caveats (CaveatSeq m)) + 10 <= length (Serialize m)).
    { unfold Serialize. rewrite !length_app. change (length (quoted "id")) with 4.
      change (length (quoted "caveats")) with 9. lia. }
    exists (2 * length (Serialize m) + 2 - 12). lia. }
  rewrite Serialize_alt. cbn [Nat.add].
  rewrite parse_value_object by done. next_member. next_member.
  erewrite parse_member_next; [|ascii_key|].
  2: { change (S (S (S (S (S (S (S (S f)))))))) with (7 + S f). apply parse_marshal_caveats; [done|done|lia]. }
  cbn [mbind option_bind]. last_member. cbn [mbind option_bind skip_ws].
  cbn [into_macaroon_members]. destruct m as [id loc cs sig]. cbn [TokenID Location CaveatSeq Signature] in *.
  change (field_of macaroon_fields #"id") with (Some #"id").
  change (field_of macaroon_fields #"location") with (Some #"location").
  change (field_of macaroon_fields #"caveats") with (Some #"caveats").
  change (field_of macaroon_fields #"signature") with (Some #"signature").
  repeat (cbn [into_string mbind option_bind TokenID Location CaveatSeq Signature macaroon_zero];
    first [rewrite decide_True by done | rewrite decide_False by (vm_compute; discriminate)
          | rewrite into_caveats_json]).
  done.
Qed.

(** parsing a serialized token gives the token back, for tokens whose
    strings are ASCII. *)
Theorem unmarshal_Serialize m : ascii_macaroon m -> unmarshal (Serialize m) = Some m.
Proof. apply unmarshal_Serialize_ascii. Qed.

(** ** Tokens by their caveats *)
Definition sealed (key id : gostring) (cs : list Caveat) : Macaroon :=
  mkMacaroon id #"diverge-cluster" cs (hex_encode (chain (computeHMAC key id) cs)).

Lemma Mint_sealed key n cl :
  usable_key (Some key) = Some key -> TaskID cl <> [] -> Namespace cl <> [] ->
  Mint (Some key) (Some n) cl =
    Ok (sealed key (TaskID cl) (claim_caveats cl ++ [mkCaveat #"nonce" OpEqual (hex_encode n)])).
Proof. intros Hk Ht Hn. unfold Mint. rewrite Hk. by rewrite !decide_False. Qed.

Lemma Attenuate_sealed key id cs ds :
  Attenuate (TMacaroon (sealed key id cs)) ds = Ok (sealed key id (cs ++ ds)).
Proof. unfold Attenuate, sealed. cbn [Signature]. rewrite hex_decode_encode. by rewrite chain_app. Qed.

Lemma ascii_hex s : ascii_text (hex_encode s).
Proof.
  unfold hex_encode. apply Forall_bind, Forall_true. intros c.
  assert (forall c, forallb is_ascii_byte (hex_encode_byte c) = true) as H.
  { intros [[] [] [] [] [] [] [] []]; reflexivity. }
  specialize (H c). rewrite forallb_forall in H. apply Forall_forall. intros x Hx. apply H.
  by apply list_elem_of_In.
Qed.

Lemma unmarshal_sealed key id cs : ascii_text id -> Forall ascii_caveat cs ->
  unmarshal (Serialize (sealed key id cs)) = Some (sealed key id cs).
Proof.
  intros Hid Hcs. apply unmarshal_Serialize_ascii.
  split; [done|]. split; [by repeat constructor|]. split; [done|]. apply ascii_hex.
Qed.

Lemma VerifyAndExtract_sealed {U : GoUnicode} key now raw id cs st :
  usable_key (Some key) = Some key -> unmarshal raw = Some (sealed key id cs) -> id <> [] ->
  extract_loop now id 0 cs (extract_init (sealed key id cs)) = Ok st ->
  x_task st = true -> x_ns st = true ->
  VerifyAndExtract (Some key) now raw = Ok (sealed key id cs, x_claims st).
Proof.
  intros Hk Hraw Hid Hl Ht Hn. unfold VerifyAndExtract. rewrite Hk, Hraw. cbn [sealed TokenID CaveatSeq Signature].
  rewrite (bool_decide_eq_false_2 _ Hid). cbn [negb]. rewrite bind_check_true.
  unfold sealed in Hl |- *. cbn [extract_init set_task TokenID] in Hl. rewrite Hl. cbn [mbind result_bind].
  rewrite (bool_decide_eq_true_2 (_ = _)) by done. by rewrite Ht, Hn.
Qed.
