(* ===== verification/MacaroonExamples.v ===== *)
(** * Capability tokens on concrete inputs

    A token is minted, attenuated, serialized and verified end to end; the
    inputs also show that the hypotheses of the theorems of [MacaroonFacts]
    hold somewhere.  Two theorems record where narrowing does not narrow. *)

From S2P Require Import Prelude GoStrings GoPath GoCrypto GoFloat GoJSON GoTime.
From S2P Require Import Macaroon MacaroonFacts.

#[local] Existing Instance ascii_unicode.

Definition demo_key : gostring := replicate 32 "k"%char.
Definition demo_nonce : gostring := replicate 16 "n"%char.
Definition demo_claims : Claims :=
  mkClaims #"task-1" #"default" #"https://example.com/r.git" [] [ #"read_?"; #"diverge_get_task"]
    [ #"claude-*"] (f_of_ratio false 5 2) 1000 0 (time_Unix 2000).
Definition demo_request : Claims :=
  mkClaims #"task-1" #"default" #"https://example.com/r.git" [] [ #"read_a"; #"diverge_get_task"]
    [ #"claude-3"] f_zero 0 10 time_zero.

Definition demo_caveats : list Caveat :=
  claim_caveats demo_claims ++ [mkCaveat #"nonce" OpEqual (hex_encode demo_nonce)].
Definition demo_mac : Macaroon := sealed demo_key #"task-1" demo_caveats.
Definition demo_raw : gostring := Serialize demo_mac.

(** Close a goal on ASCII text, or another closed decidable goal, by
    evaluation; the signatures themselves are never computed. *)
Ltac decided := apply (bool_decide_unpack _); vm_compute; exact I.

Lemma demo_mint : Mint (Some demo_key) (Some demo_nonce) demo_claims = Ok demo_mac.
Proof. apply (Mint_sealed demo_key demo_nonce demo_claims); [reflexivity|discriminate..]. Qed.
Lemma demo_caveats_ascii : Forall ascii_caveat demo_caveats.
Proof. unfold ascii_caveat, ascii_text. decided. Qed.
Lemma demo_parses : unmarshal demo_raw = Some demo_mac.
Proof. apply unmarshal_sealed; [unfold ascii_text; decided|apply demo_caveats_ascii]. Qed.
Lemma demo_issued : issued demo_key demo_mac.
Proof. eapply issued_mint, demo_mint. Qed.

(** attenuation only restricts: a request the attenuated token is
    accepted for is one the token it was made from is accepted for. *)
Theorem Attenuate_restricts {U : GoUnicode} key mac mac' cs raw raw' now req :
  issued key mac -> Attenuate (TMacaroon mac) cs = Ok mac' ->
  unmarshal raw = Some mac -> unmarshal raw' = Some mac' ->
  Verify (Some key) now raw' req = Ok tt -> Verify (Some key) now raw req = Ok tt.
Proof.
  intros Hi Ha Hraw Hraw' Hv.
  pose proof (issued_attenuate _ _ _ _ Hi Ha) as Hi'.
  rewrite (Verify_issued_iff _ _ _ _ _ Hi' Hraw') in Hv. rewrite (Verify_issued_iff _ _ _ _ _ Hi Hraw).
  unfold Attenuate in Ha. destruct (hex_decode _); [|done]. apply Ok_inj in Ha as <-.
  cbn in Hv. by apply Forall_app in Hv as [? _].
Qed.

(** [allowedModelPatternNarrows] keeps its promise for a candidate that is
    not the name of a tier: every model the candidate accepts, the existing
    pattern accepts. *)
Theorem allowedModelPatternNarrows_sound {U : GoUnicode} existing candidate m :
  capabilityTierModelPatterns (ToLower (TrimSpace candidate)) = None ->
  allowedModelPatternNarrows existing candidate = true ->
  MatchesAllowedModel candidate m = true -> MatchesAllowedModel existing m = true.
Proof. apply narrows_covers. Qed.

(** the tables of the two files agree: the allowed-models pattern [tier]
    accepts every model the tier resolves to. *)
Theorem ResolveModelTier_allowed {U : GoUnicode} tier :
  TrimSpace tier <> [] ->
  Forall (fun m => MatchesAllowedModel tier m = true) (ResolveModelTier tier).
Proof.
  intros Hne. unfold ResolveModelTier, ModelTiers.
  repeat case_decide; subst; [repeat constructor; vm_compute; reflexivity..|].
  repeat constructor. rewrite MatchesAllowedModel_unfold. unfold match_model_body.
  by rewrite (bool_decide_eq_false_2 _ Hne), (bool_decide_eq_true_2 (_ = TrimSpace tier)), orb_true_r.
Qed.

(** a candidate that is a tier name is compared as if it were a model: the
    pattern [f*] lets [fast] through, and [fast] accepts models [f*] does
    not. *)
Theorem tier_alias_widens :
  allowedModelPatternNarrows #"f*" #"fast" = true /\
  MatchesAllowedModel #"fast" #"gpt-4o" = true /\ MatchesAllowedModel #"f*" #"gpt-4o" = false.
Proof. by vm_compute. Qed.

(** a later [allowed_tools] caveat is matched against the earlier one as
    if it were a tool name: a token minted for [read_?] and attenuated with
    [read_*] reports [read_*], which allows tools the minted one does not. *)
Theorem allowed_tools_widened :
  let cl := mkClaims #"t" #"ns" [] [] [ #"read_?"] [] f_zero 0 0 time_zero in
  exists mac mac' got,
    Mint (Some demo_key) (Some demo_nonce) cl = Ok mac /\
    Attenuate (TMacaroon mac) [mkCaveat #"allowed_tools" OpGlob #"read_*"] = Ok mac' /\
    VerifyAndExtract (Some demo_key) 0 (Serialize mac') = Ok (mac', got) /\
    AllowedTools got = [ #"read_*"] /\
    matches #"read_*" #"read_all" = true /\ matches #"read_?" #"read_all" = false.
Proof.
  intros cl. do 3 eexists.
  split; [apply Mint_sealed; [reflexivity|discriminate..]|].
  split; [apply Attenuate_sealed|].
  split; [eapply VerifyAndExtract_sealed|].
  - reflexivity.
  - apply unmarshal_sealed; unfold ascii_caveat, ascii_text; decided.
  - discriminate.
  - lazy. reflexivity.
  - reflexivity.
  - reflexivity.
  - split; [reflexivity|]. split; reflexivity.
Qed.

(** ** The hypotheses hold *)
Lemma Verify_issued_witness :
  issued demo_key demo_mac /\ unmarshal demo_raw = Some demo_mac /\
  (Verify (Some demo_key) 1000 demo_raw demo_request = Ok tt <->
   Forall (caveat_holds 1000 demo_request) (CaveatSeq demo_mac)).
Proof.
  split; [apply demo_issued|]. split; [apply demo_parses|].
  apply (Verify_issued demo_key demo_mac); [apply demo_issued|apply demo_parses].
Defined.

Definition demo_cut : list Caveat := [mkCaveat #"max_tokens" OpLessThan #"50"].
Definition demo_mac' : Macaroon := sealed demo_key #"task-1" (demo_caveats ++ demo_cut).
Lemma demo_attenuated : Attenuate (TMacaroon demo_mac) demo_cut = Ok demo_mac'.
Proof. apply Attenuate_sealed. Qed.
Lemma demo_parses' : unmarshal (Serialize demo_mac') = Some demo_mac'.
Proof.
  apply unmarshal_sealed; [unfold ascii_text; decided|].
  apply Forall_app. split; [apply demo_caveats_ascii|]. unfold ascii_caveat, ascii_text. decided.
Qed.
Lemma demo_accepted : Verify (Some demo_key) 1000 (Serialize demo_mac') demo_request = Ok tt.
Proof.
  apply (Verify_issued_iff demo_key demo_mac').
  - eapply issued_attenuate; [apply demo_issued|apply demo_attenuated].
  - apply demo_parses'.
  - repeat constructor.
Qed.

Lemma Attenuate_restricts_witness :
  Verify (Some demo_key) 1000 (Serialize demo_mac') demo_request = Ok tt /\
  Verify (Some demo_key) 1000 demo_raw demo_request = Ok tt.
Proof.
  split; [apply demo_accepted|].
  apply (Attenuate_restricts demo_key demo_mac demo_mac' demo_cut _ (Serialize demo_mac'));
    [apply demo_issued|apply demo_attenuated|apply demo_parses|apply demo_parses'|apply demo_accepted].
Defined.

Lemma allowedModelPatternNarrows_sound_witness :
  MatchesAllowedModel #"claude-3-*" #"claude-3-opus" = true /\
  MatchesAllowedModel #"claude-*" #"claude-3-opus" = true.
Proof.
  split; [vm_compute; reflexivity|].
  apply (allowedModelPatternNarrows_sound #"claude-*" #"claude-3-*"); vm_compute; reflexivity.
Defined.

Definition demo_extracted : Claims := effective_claims demo_claims (f_of_ratio false 5 2).
Lemma demo_extracts : VerifyAndExtract (Some demo_key) 1000 demo_raw = Ok (demo_mac, demo_extracted).
Proof.
  apply (Mint_VerifyAndExtract_ok demo_key demo_nonce demo_claims);
    [apply demo_mint|apply demo_parses|discriminate|..].
  - intros _. vm_compute. discriminate.
  - reflexivity.
  - unfold comma_free. decided.
  - unfold comma_free. decided.
  - intros _. vm_compute. reflexivity.
Qed.

Lemma VerifyAndExtract_bound_witness :
  VerifyAndExtract (Some demo_key) 1000 demo_raw = Ok (demo_mac, demo_extracted) /\
  exists rest, CaveatSeq demo_mac = mkCaveat #"task_id" OpEqual (TokenID demo_mac)
                    :: mkCaveat #"namespace" OpEqual (Namespace demo_extracted) :: rest.
Proof.
  split; [apply demo_extracts|].
  destruct (VerifyAndExtract_bound _ _ _ _ _ demo_extracts) as (k & rest & _ & _ & _ & _ & _ & _ & H & _).
  exists rest. exact H.
Defined.

Lemma VerifyAndExtract_limits_witness :
  (0 <= 1000)%Z /\ VerifyAndExtract (Some demo_key) 1000 demo_raw = Ok (demo_mac, demo_extracted) /\
  MaxTokens demo_extracted = 1000%Z /\ length (CaveatSeq demo_mac) = 9%nat /\
  Forall (fun c => kind_of (cv_key c) = KMaxTokens ->
            exists n, ParseInt (cv_value c) = Some n /\ (0 < 1000 <= n)%Z) (CaveatSeq demo_mac).
Proof.
  split; [lia|]. split; [apply demo_extracts|]. split; [reflexivity|]. split; [vm_compute; reflexivity|].
  eapply Forall_impl; [apply (VerifyAndExtract_limits _ 1000 _ _ _ ltac:(lia) demo_extracts)|].
  intros c H Hk. cbv beta in H. rewrite Hk in H. exact H.
Defined.


Lemma unmarshal_Serialize_witness :
  unmarshal (Serialize demo_mac) = Some demo_mac.
Proof.
  apply unmarshal_Serialize.
  split; [unfold ascii_text; decided|]. split; [unfold ascii_text; decided|].
  split; [apply demo_caveats_ascii|apply ascii_hex].
Defined.

Lemma ResolveModelTier_allowed_witness :
  Forall (fun m => MatchesAllowedModel #"fast" m = true) [ #"gemini-2.5-flash"; #"gpt-4o-mini"].
Proof. apply (ResolveModelTier_allowed #"fast"). vm_compute. discriminate. Defined.
