(* ===== verification/TokenStore.v ===== *)
(** * Token stores: [pkg/auth/store.go]

    The store keeps the capability token of each agent task, in memory or in
    Kubernetes Secrets: one Secret per task and one index Secret per
    namespace.  The API server and [retry.RetryOnConflict] are third party:
    the classes [SecretClient] and [SecretClientLaws] state the calls and the
    documented behaviour the store relies on.  Both stores implement
    [TokenStore], the interface their callers use, and its laws. *)

From S2P Require Import Prelude GoStrings GoCrypto.

(** ** Names and labels *)
Definition LabelAgentTask : gostring := #"divergedev.com/agent-task".
Definition LabelRevoked : gostring := #"divergedev.com/revoked".
Definition ManagedByLabel : gostring := #"app.kubernetes.io/managed-by".
Definition TokenIndexSecretName : gostring := #"diverge-agenttask-tokens".

Definition isAlnumASCII (b : ascii) : bool := is_lower b || is_upper b || is_digit b.
Definition isLabelCharASCII (b : ascii) : bool :=
  isAlnumASCII b || bool_decide (b = "-"%char) || bool_decide (b = "_"%char) || bool_decide (b = "."%char).

Definition isValidK8sLabel (s : gostring) : bool :=
  if (length s =? 0)%nat || (63 <? length s)%nat then false
  else match head s, last s with
       | Some a, Some z => if negb (isAlnumASCII a) || negb (isAlnumASCII z) then false
                           else forallb isLabelCharASCII s
       | _, _ => false
       end.

(** [hex.EncodeToString(h[:n])] of the SHA-256 of the task. *)
Definition task_hash (n : nat) (taskID : gostring) : gostring := hex_encode (take n (sha256 taskID)).
Arguments task_hash : simpl never.

Definition TaskLabelValue (taskID : gostring) : gostring :=
  if isValidK8sLabel taskID then taskID
  else
    let hashStr := task_hash 8 taskID in
    let maxPrefix := (63 - 1 - length hashStr)%nat in
    let prefix := map (fun b => if isLabelCharASCII b then b else "-"%char) taskID in
    let prefix := if (maxPrefix <? length prefix)%nat then take maxPrefix prefix else prefix in
    let prefix := TrimRight (TrimLeft prefix #"-_.") #"-_." in
    if bool_decide (prefix = []) then hashStr else prefix ++ #"-" ++ hashStr.

Definition legacyTaskLabelValue (taskID : gostring) : gostring :=
  if (length taskID <=? 63)%nat then taskID
  else let hashStr := task_hash 8 taskID in
       take (63 - 1 - length hashStr) taskID ++ #"-" ++ hashStr.

Abbreviation strmap := (gmap gostring gostring).
(** Reading a Go map: the zero value when the key is absent. *)
Definition get (m : strmap) (k : gostring) : gostring := default [] (m !! k).

Definition matchesTaskLabel (labels : strmap) (taskID : gostring) : bool :=
  let actual := get labels LabelAgentTask in
  if bool_decide (actual = []) then false
  else bool_decide (actual = TaskLabelValue taskID) || bool_decide (actual = legacyTaskLabelValue taskID).

Definition SecretName (taskID : gostring) : gostring :=
  let base := taskID ++ #"-token" in
  if (length base <=? 253)%nat then base
  else let hashStr := task_hash 8 taskID in
       let prefixLen := (253 - length #"-token-" - length hashStr)%nat in
       take prefixLen taskID ++ #"-token-" ++ hashStr.

Definition revokedIndexKey (taskID : gostring) : gostring :=
  #"revoked.divergedev.com/" ++ task_hash 16 taskID.

Definition tokenKey (taskID namespace : gostring) : gostring := namespace ++ #"/" ++ taskID.

(** ** The [TokenStore] interface *)
Inductive store_error :=
| ErrTokenNotFound
| ErrTokenRevoked
| NotOwned
| StorageError.

#[global] Instance store_error_eq_dec : EqDecision store_error.
Proof. solve_decision. Defined.

Abbreviation sres := (result store_error).

Class TokenStore (W : Type) := {
  SaveToken : gostring -> gostring -> gostring -> W -> sres unit * W;
  GetToken : gostring -> gostring -> W -> sres gostring * W;
  DeleteToken : gostring -> gostring -> W -> sres unit * W;
  RevokeToken : gostring -> gostring -> W -> sres unit * W;
  IsRevoked : gostring -> gostring -> W -> bool * W }.

(** What every implementation promises: after a successful write, a read
    reports it, unless the storage itself fails. *)
Class TokenStoreLaws (W : Type) {T : TokenStore W} := {
  save_get : forall tid ns tok w w', SaveToken tid ns tok w = (Ok tt, w') -> tok <> [] ->
    let r := fst (GetToken tid ns w') in r = Ok tok \/ r = Err StorageError;
  revoke_get : forall tid ns w w', RevokeToken tid ns w = (Ok tt, w') ->
    let r := fst (GetToken tid ns w') in r = Err ErrTokenRevoked \/ r = Err StorageError;
  delete_get : forall tid ns w w', DeleteToken tid ns w = (Ok tt, w') ->
    let r := fst (GetToken tid ns w') in r = Err ErrTokenNotFound \/ r = Err StorageError;
  get_pure : forall tid ns w, snd (GetToken tid ns w) = w }.

(** What a client that revokes relies on besides: a token that is reported
    revoked or missing is not readable, and reading a revocation changes
    nothing. *)
Definition no_token {W} {T : TokenStore W} (tid ns : gostring) (w : W) : Prop :=
  forall tok, fst (GetToken tid ns w) <> Ok tok.
Class RevocationLaws (W : Type) {T : TokenStore W} := {
  is_revoked_pure : forall tid ns w, snd (IsRevoked tid ns w) = w;
  is_revoked_get : forall tid ns w, fst (IsRevoked tid ns w) = true -> no_token tid ns w;
  revoke_missing : forall tid ns w e w', RevokeToken tid ns w = (Err e, w') ->
    e = ErrTokenNotFound \/ e = ErrTokenRevoked -> no_token tid ns w' }.

(** ** [InMemoryTokenStore] *)
Module Memory.
Record t := mk { tokens : gmap gostring gostring; revoked : gmap gostring bool }.

Definition NewInMemoryTokenStore : t := mk ∅ ∅.

Definition save (taskID namespace token : gostring) (s : t) : sres unit * t :=
  let key := tokenKey taskID namespace in
  (Ok tt, mk (<[key := token]> (tokens s)) (delete key (revoked s))).
Definition is_revoked (taskID namespace : gostring) (s : t) : bool :=
  default false (revoked s !! tokenKey taskID namespace).
Definition get_token (taskID namespace : gostring) (s : t) : sres gostring * t :=
  (if is_revoked taskID namespace s then Err ErrTokenRevoked
   else match tokens s !! tokenKey taskID namespace with
        | None => Err ErrTokenNotFound
        | Some tok => Ok tok
        end, s).
Definition delete_token (taskID namespace : gostring) (s : t) : sres unit * t :=
  let key := tokenKey taskID namespace in
  (Ok tt, mk (delete key (tokens s)) (delete key (revoked s))).
Definition revoke (taskID namespace : gostring) (s : t) : sres unit * t :=
  (Ok tt, mk (tokens s) (<[tokenKey taskID namespace := true]> (revoked s))).

#[global] Instance store : TokenStore t := {
  SaveToken := save;
  GetToken := get_token;
  DeleteToken := delete_token;
  RevokeToken := revoke;
  IsRevoked tid ns s := (is_revoked tid ns s, s) }.
End Memory.

(** ** Kubernetes Secrets *)
Record Secret := mkSecret {
  labels : strmap;
  annotations : strmap;
  data : strmap;
  resourceVersion : Z }.

(** Objects that differ only in their version. *)
Definition same_content (a b : Secret) : Prop :=
  labels a = labels b /\ annotations a = annotations b /\ data a = data b.

Inductive api_error := NotFound | AlreadyExists | Conflict | OtherError.
#[global] Instance api_error_eq_dec : EqDecision api_error.
Proof. solve_decision. Defined.

(** An error of a callback of [RetryOnConflict]: of the API, or one of the
    store's own. *)
Inductive op_error := Api (e : api_error) | Own (e : store_error).
Abbreviation ares A := (result api_error A).
Abbreviation ores := (result op_error).

(** The calls of [client.Client] on Secrets, by namespace and name, and
    [RetryOnConflict(indexRetryBackoff, fn)]. *)
Class SecretClient (W : Type) := {
  client_Get : gostring -> gostring -> W -> ares Secret * W;
  client_Create : gostring -> gostring -> Secret -> W -> ares unit * W;
  client_Update : gostring -> gostring -> Secret -> W -> ares unit * W;
  client_Delete : gostring -> gostring -> W -> ares unit * W;
  RetryOnConflict : (W -> ores unit * W) -> W -> ores unit * W }.

(** Runs of a callback as long as it reports a conflict. *)
Inductive retries {W} (fn : W -> ores unit * W) : W -> ores unit -> W -> Prop :=
| retries_last w r w' : fn w = (r, w') -> retries fn w r w'
| retries_again w w1 r w' : fn w = (Err (Api Conflict), w1) -> retries fn w1 r w' -> retries fn w r w'.

(** The documented behaviour: reads return what is stored, a write that
    succeeds stores the object and touches no other, a call that fails
    changes nothing.  Any call may fail with an error of the server. *)
Class SecretClientLaws (W : Type) {K : SecretClient W} := {
  stored : W -> gmap (gostring * gostring) Secret;
  Get_pure : forall ns n w, snd (client_Get ns n w) = w;
  Get_Ok : forall ns n w s, fst (client_Get ns n w) = Ok s -> stored w !! (ns, n) = Some s;
  Get_NotFound : forall ns n w, fst (client_Get ns n w) = Err NotFound -> stored w !! (ns, n) = None;
  Create_Ok : forall ns n s w w', client_Create ns n s w = (Ok tt, w') ->
    exists s', same_content s s' /\ stored w' = <[(ns, n) := s']> (stored w);
  Create_Err : forall ns n s w e w', client_Create ns n s w = (Err e, w') -> stored w' = stored w;
  Update_Ok : forall ns n s w w', client_Update ns n s w = (Ok tt, w') ->
    exists s', same_content s s' /\ stored w' = <[(ns, n) := s']> (stored w);
  Update_Err : forall ns n s w e w', client_Update ns n s w = (Err e, w') -> stored w' = stored w;
  Delete_Ok : forall ns n w w', client_Delete ns n w = (Ok tt, w') ->
    stored w' = delete (ns, n) (stored w);
  Delete_Err : forall ns n w e w', client_Delete ns n w = (Err e, w') ->
    stored w' = stored w /\ (e = NotFound -> stored w !! (ns, n) = None);
  Retry_runs : forall fn w r w', RetryOnConflict fn w = (r, w') -> retries fn w r w' }.

(** ** [KubernetesSecretTokenStore] *)
Module Kube.
Section Kube.
Context {W : Type} {K : SecretClient W}.

(** State passing with errors. *)
Definition M (E A : Type) : Type := W -> result E A * W.
Definition ret {E A} (a : A) : M E A := fun w => (Ok a, w).
Definition throw {E A} (e : E) : M E A := fun w => (Err e, w).
Definition bind {E A B} (m : M E A) (f : A -> M E B) : M E B := fun w =>
  match m w with
  | (Ok a, w1) => f a w1
  | (Err e, w1) => (Err e, w1)
  end.
Definition catch {E F A B} (m : M E A) (f : A -> M F B) (h : E -> M F B) : M F B := fun w =>
  match m w with
  | (Ok a, w1) => f a w1
  | (Err e, w1) => h e w1
  end.

(** The error a caller of the store sees. *)
Definition surface (e : op_error) : store_error :=
  match e with Api _ => StorageError | Own e => e end.
Definition retry_on_conflict (fn : M op_error unit) : M store_error unit :=
  catch (RetryOnConflict fn) ret (fun e => throw (surface e)).

(** Run a storage call; any error is a storage error. *)
Definition call {A} (m : M api_error A) : M store_error A :=
  catch m ret (fun _ => throw StorageError).
(** The same inside a retried callback, where the error itself matters. *)
Definition api {A} (m : M api_error A) : M op_error A :=
  catch m ret (fun e => throw (Api e)).

Definition upsert_attempt (taskID namespace token : gostring) : M op_error unit :=
  catch (client_Get namespace TokenIndexSecretName)
    (fun idx =>
       api (client_Update namespace TokenIndexSecretName
              (mkSecret (labels idx) (delete (revokedIndexKey taskID) (annotations idx))
                 (<[taskID := token]> (data idx)) (resourceVersion idx))))
    (fun e =>
       if bool_decide (e = NotFound) then
         catch (client_Create namespace TokenIndexSecretName
                  (mkSecret {[ManagedByLabel := #"diverge"]} ∅ {[taskID := token]} 0))
           ret
           (fun e => throw (Api (if bool_decide (e = AlreadyExists) then Conflict else e)))
       else throw (Own StorageError)).
Definition upsertTokenIndex (taskID namespace token : gostring) : M store_error unit :=
  retry_on_conflict (upsert_attempt taskID namespace token).

Definition mark_attempt (indexOnly : bool) (taskID namespace : gostring) : M op_error unit :=
  catch (client_Get namespace TokenIndexSecretName)
    (fun idx =>
       api (client_Update namespace TokenIndexSecretName
              (mkSecret (labels idx) (<[revokedIndexKey taskID := #"true"]> (annotations idx))
                 (delete taskID (data idx)) (resourceVersion idx))))
    (fun e =>
       if bool_decide (e = NotFound) then
         if indexOnly then throw (Own ErrTokenNotFound) else ret tt
       else throw (Own StorageError)).
Definition markRevokedInIndex (indexOnly : bool) (taskID namespace : gostring) : M store_error unit :=
  retry_on_conflict (mark_attempt indexOnly taskID namespace).

Definition remove_attempt (taskID namespace : gostring) : M op_error unit :=
  catch (client_Get namespace TokenIndexSecretName)
    (fun idx =>
       api (client_Update namespace TokenIndexSecretName
              (mkSecret (labels idx) (delete (revokedIndexKey taskID) (annotations idx))
                 (delete taskID (data idx)) (resourceVersion idx))))
    (fun e => if bool_decide (e = NotFound) then ret tt else throw (Own StorageError)).
Definition removeFromTokenIndex (taskID namespace : gostring) : M store_error unit :=
  retry_on_conflict (remove_attempt taskID namespace).

Definition isRevokedInIndex (taskID namespace : gostring) : M store_error bool :=
  catch (client_Get namespace TokenIndexSecretName)
    (fun sec => ret (bool_decide (get (annotations sec) (revokedIndexKey taskID) = #"true")))
    (fun e => if bool_decide (e = NotFound) then ret false else throw StorageError).

(** [tok, ok := m[k]; if !ok || len(tok) == 0 { return ErrTokenNotFound }] *)
Definition nonempty_entry (m : strmap) (k : gostring) : M store_error gostring :=
  match m !! k with
  | Some tok => if bool_decide (tok = []) then throw ErrTokenNotFound else ret tok
  | None => throw ErrTokenNotFound
  end.

Definition getTokenFromIndex (taskID namespace : gostring) : M store_error gostring :=
  catch (client_Get namespace TokenIndexSecretName)
    (fun sec =>
       if bool_decide (get (annotations sec) (revokedIndexKey taskID) = #"true") then throw ErrTokenRevoked
       else nonempty_entry (data sec) taskID)
    (fun e => throw (if bool_decide (e = NotFound) then ErrTokenNotFound else StorageError)).

Definition save (taskID namespace token : gostring) : M store_error unit :=
  let name := SecretName taskID in
  let labelVal := TaskLabelValue taskID in
  catch (client_Get namespace name)
    (fun sec =>
       if negb (matchesTaskLabel (labels sec) taskID) then throw NotOwned
       else bind (call (client_Update namespace name
                    (mkSecret (delete LabelRevoked (<[LabelAgentTask := labelVal]> (labels sec)))
                       (annotations sec) (<[#"token" := token]> (data sec)) (resourceVersion sec))))
              (fun _ => upsertTokenIndex taskID namespace token))
    (fun e =>
       if negb (bool_decide (e = NotFound)) then throw StorageError
       else bind (call (client_Create namespace name
                    (mkSecret {[LabelAgentTask := labelVal; ManagedByLabel := #"diverge"]} ∅
                       {[#"token" := token]} 0)))
              (fun _ => upsertTokenIndex taskID namespace token)).

Definition get_token (indexOnly : bool) (taskID namespace : gostring) : M store_error gostring :=
  if indexOnly then getTokenFromIndex taskID namespace
  else
    catch (client_Get namespace (SecretName taskID))
      (fun sec =>
         if negb (matchesTaskLabel (labels sec) taskID) then throw ErrTokenNotFound
         else if bool_decide (get (labels sec) LabelRevoked = #"true") then throw ErrTokenRevoked
         else bind (isRevokedInIndex taskID namespace) (fun revoked =>
              if revoked then throw ErrTokenRevoked
              else nonempty_entry (data sec) #"token"))
      (fun e => throw (if bool_decide (e = NotFound) then ErrTokenNotFound else StorageError)).

Definition delete_token (taskID namespace : gostring) : M store_error unit :=
  let name := SecretName taskID in
  catch (client_Get namespace name)
    (fun sec =>
       if negb (matchesTaskLabel (labels sec) taskID) then throw NotOwned
       else catch (client_Delete namespace name)
              (fun _ => removeFromTokenIndex taskID namespace)
              (fun e => if bool_decide (e = NotFound) then removeFromTokenIndex taskID namespace
                        else throw StorageError))
    (fun e => if bool_decide (e = NotFound) then removeFromTokenIndex taskID namespace
              else throw StorageError).

Definition revoke (indexOnly : bool) (taskID namespace : gostring) : M store_error unit :=
  if indexOnly then markRevokedInIndex indexOnly taskID namespace
  else
    let name := SecretName taskID in
    catch (client_Get namespace name)
      (fun sec =>
         if negb (matchesTaskLabel (labels sec) taskID) then throw NotOwned
         else bind (call (client_Update namespace name
                (mkSecret (<[LabelRevoked := #"true"]> (<[LabelAgentTask := TaskLabelValue taskID]> (labels sec)))
                   (annotations sec) (data sec) (resourceVersion sec))))
                (fun _ => markRevokedInIndex indexOnly taskID namespace))
      (fun e => throw (if bool_decide (e = NotFound) then ErrTokenNotFound else StorageError)).

Definition CheckRevoked (indexOnly : bool) (taskID namespace : gostring) : M store_error bool :=
  if indexOnly then isRevokedInIndex taskID namespace
  else
    catch (client_Get namespace (SecretName taskID))
      (fun sec =>
         if negb (matchesTaskLabel (labels sec) taskID) then ret false
         else if bool_decide (get (labels sec) LabelRevoked = #"true") then ret true
         else isRevokedInIndex taskID namespace)
      (fun e => if negb (bool_decide (e = NotFound)) then throw StorageError
                else isRevokedInIndex taskID namespace).

Definition is_revoked (indexOnly : bool) (taskID namespace : gostring) (w : W) : bool * W :=
  match CheckRevoked indexOnly taskID namespace w with
  | (Ok b, w') => (b, w')
  | (Err _, w') => (false, w')
  end.

(** The store, full or [WithIndexOnly]. *)
Definition store (indexOnly : bool) : TokenStore W := {|
  SaveToken := save;
  GetToken := get_token indexOnly;
  DeleteToken := delete_token;
  RevokeToken := revoke indexOnly;
  IsRevoked := is_revoked indexOnly |}.
End Kube.
End Kube.

(** * Token stores: names, the memory store and the Secret store are right *)

(** ** Lengths *)
Lemma sha_round_length st kw : length (sha_round st kw) = length st.
Proof. by destruct st as [|? [|? [|? [|? [|? [|? [|? [|? [|? ?]]]]]]]]]. Qed.
Lemma sha_block_length h b : length (sha_block h b) = length h.
Proof.
  unfold sha_block. rewrite length_zip_with.
  assert (forall l st, length (fold_left sha_round l st) = length st) as H.
  { induction l as [|kw l IH]; intros st; cbn; [done|]. by rewrite IH, sha_round_length. }
  rewrite H. lia.
Qed.
Lemma sha_blocks_length fuel : forall h s, length (sha_blocks fuel h s) = length h.
Proof.
  induction fuel as [|fuel IH]; intros h s; [done|]. cbn [sha_blocks].
  destruct s; [done|]. by rewrite IH, sha_block_length.
Qed.
Lemma sha256_length m : length (sha256 m) = 32%nat.
Proof.
  unfold sha256. set (l := sha_blocks _ _ _).
  assert (length l = 8%nat) as Hl by (unfold l; by rewrite sha_blocks_length).
  clearbody l. do 8 (destruct l as [|? l]; [done|]). by destruct l.
Qed.
Lemma hex_encode_length s : length (hex_encode s) = (2 * length s)%nat.
Proof. unfold hex_encode. induction s as [|c s IH]; cbn in *; lia. Qed.
Lemma task_hash_length n tid : (n <= 32)%nat -> length (task_hash n tid) = (2 * n)%nat.
Proof. intros. unfold task_hash. rewrite hex_encode_length, length_take, sha256_length. lia. Qed.

(** ** Trimming *)
Lemma trim_left_while_head f s : match trim_left_while f s with [] => True | c :: _ => f c = false end.
Proof. induction s as [|c s IH]; cbn; [done|]. destruct (f c) eqn:E; [done|]. done. Qed.
Lemma trim_left_while_suffix f s : trim_left_while f s `suffix_of` s.
Proof.
  induction s as [|c s IH]; cbn; [done|]. destruct (f c); [by apply suffix_cons_r|done].
Qed.
Lemma TrimRight_prefix s cut : TrimRight s cut `prefix_of` s.
Proof.
  unfold TrimRight. rewrite <-(reverse_involutive s) at 2. apply prefix_suffix_reverse.
  rewrite reverse_involutive, reverse_involutive. apply trim_left_while_suffix.
Qed.
Lemma TrimRight_last s cut : match last (TrimRight s cut) with None => True | Some c => in_cutset cut c = false end.
Proof.
  unfold TrimRight. pose proof (trim_left_while_head (in_cutset cut) (reverse s)) as H.
  destruct (trim_left_while _ _) as [|c t]; [done|]. by rewrite reverse_cons, last_snoc.
Qed.

(** ** Label values *)
Lemma isValidK8sLabel_spec s : isValidK8sLabel s = true <->
  (length s <= 63)%nat /\ Forall (fun b => isLabelCharASCII b = true) s /\
  exists a z, head s = Some a /\ last s = Some z /\ isAlnumASCII a = true /\ isAlnumASCII z = true.
Proof.
  unfold isValidK8sLabel. destruct s as [|c s].
  { split; [done|]. by intros (_ & _ & ? & ? & ? & _). }
  cbn [head length Nat.eqb orb]. destruct (63 <? S (length s))%nat eqn:El; bool_simpl.
  { split; [done|]. lia. }
  destruct (last (c :: s)) as [z|] eqn:Ez; cycle 1.
  { by apply last_None in Ez. }
  assert (Forall (fun b => isLabelCharASCII b = true) (c :: s) <-> forallb isLabelCharASCII (c :: s) = true) as Hall.
  { rewrite forallb_forall, Forall_forall. by setoid_rewrite list_elem_of_In. }
  rewrite Hall. destruct (negb (isAlnumASCII c) || negb (isAlnumASCII z)) eqn:E.
  - split; [done|]. intros (_ & _ & a & z' & [= <-] & [= <-] & Ha & Hz). by rewrite Ha, Hz in E.
  - bool_simpl. split.
    + intros Hf. split; [lia|]. split; [done|]. by exists c, z.
    + by intros (_ & Hf & _).
Qed.

Lemma hex_char_alnum s : Forall (fun b => isAlnumASCII b = true) (hex_encode s).
Proof.
  unfold hex_encode. apply Forall_bind, Forall_true. intros c.
  assert (forall c, forallb isAlnumASCII (hex_encode_byte c) = true) as H.
  { intros [[] [] [] [] [] [] [] []]; reflexivity. }
  specialize (H c). rewrite forallb_forall in H. apply Forall_forall. intros x Hx. apply H.
  by apply list_elem_of_In.
Qed.

Lemma alnum_label b : isAlnumASCII b = true -> isLabelCharASCII b = true.
Proof. unfold isLabelCharASCII. by intros ->. Qed.

Lemma last_hash n tid : (0 < n <= 32)%nat ->
  exists z, last (task_hash n tid) = Some z /\ isAlnumASCII z = true.
Proof.
  intros Hn. destruct (last (task_hash n tid)) as [z|] eqn:E.
  - exists z. split; [done|]. pose proof (hex_char_alnum (take n (sha256 tid))) as H.
    rewrite Forall_forall in H. apply H. apply list_elem_of_In. unfold task_hash in E.
    apply last_Some in E as [l' ->]. apply in_app_iff. right. by left.
  - apply last_None in E. pose proof (task_hash_length n tid). rewrite E in H. cbn in H. lia.
Qed.

(** What is left of a label-character string after trimming separators starts
    with a letter or digit. *)
Lemma trimmed_head p :
  Forall (fun b => isLabelCharASCII b = true) p ->
  match TrimRight (TrimLeft p #"-_.") #"-_." with [] => True | c :: _ => isAlnumASCII c = true end.
Proof.
  intros Hp. pose proof (trim_left_while_head (in_cutset #"-_.") p) as Hh.
  pose proof (trim_left_while_suffix (in_cutset #"-_.") p) as [k Hk].
  pose proof (TrimRight_prefix (TrimLeft p #"-_.") #"-_.") as [k' Hk']. unfold TrimLeft in *.
  destruct (TrimRight _ _) as [|c t]; [done|]. rewrite Hk' in Hh, Hk. cbn in Hh, Hk.
  rewrite Hk in Hp. apply Forall_app in Hp as [_ Hp]. apply Forall_cons in Hp as [Hc _].
  unfold isLabelCharASCII in Hc. unfold in_cutset in Hh. apply bool_decide_eq_false in Hh.
  destruct (isAlnumASCII c); [done|]. exfalso. apply Hh. cbn in Hc. bool_simpl.
  destruct Hc as [Hc|Hc]; bool_simpl; subst; [|by repeat constructor].
  destruct Hc as [Hc|Hc]; bool_simpl; subst; by repeat constructor.
Qed.

Lemma TaskLabelValue_valid_label tid : isValidK8sLabel (TaskLabelValue tid) = true.
Proof.
  unfold TaskLabelValue. destruct (isValidK8sLabel tid) eqn:Ev; [done|].
  assert (length (task_hash 8 tid) = 16%nat) as Hlen by (by apply task_hash_length; lia).
  pose proof (last_hash 8 tid ltac:(lia)) as (z & Hz & Haz).
  pose proof (hex_char_alnum (take 8 (sha256 tid))) as Hhash. fold (task_hash 8 tid) in Hhash.
  rewrite Hlen. cbn [Nat.sub].
  set (p := map (fun b : ascii => if isLabelCharASCII b then b else "-"%char) tid).
  set (p' := if (46 <? length p)%nat then take 46 p else p).
  assert (Forall (fun b => isLabelCharASCII b = true) p' /\ (length p' <= 46)%nat) as [Hp' Hl'].
  { assert (Forall (fun b => isLabelCharASCII b = true) p) as Hp.
    { unfold p. apply Forall_map, Forall_true. intros b. cbn. by destruct (isLabelCharASCII b) eqn:E. }
    unfold p'. destruct (46 <? length p)%nat eqn:E; bool_simpl; [|done].
    split; [by apply Forall_take|]. rewrite length_take. lia. }
  pose proof (trimmed_head p' Hp') as Hh.
  pose proof (trim_left_while_suffix (in_cutset #"-_.") p') as [k Hk].
  pose proof (TrimRight_prefix (TrimLeft p' #"-_.") #"-_.") as [k' Hk']. unfold TrimLeft in *.
  set (q := TrimRight _ _) in *.
  assert (Forall (fun b => isLabelCharASCII b = true) q /\ (length q <= 46)%nat) as [Hq Hlq].
  { rewrite Hk' in Hk. rewrite Hk in Hp', Hl'. apply Forall_app in Hp' as [_ Hp'].
    apply Forall_app in Hp' as [Hp' _]. rewrite !length_app in Hl'. split; [done|lia]. }
  assert (Forall (fun b => isLabelCharASCII b = true) (task_hash 8 tid)) as Hhash'.
  { eapply Forall_impl; [done|]. apply alnum_label. }
  apply isValidK8sLabel_spec. case_bool_decide as Hq0.
  - split; [lia|]. split; [done|].
    destruct (task_hash 8 tid) as [|a t]; [done|]. exists a, z. apply Forall_cons in Hhash as [? _]. done.
  - destruct q as [|c t]; [done|]. split.
    { rewrite !length_app, Hlen. change (length #"-") with 1%nat. lia. }
    split.
    { apply Forall_app. split; [done|]. apply Forall_app. split; [by repeat constructor|done]. }
    exists c, z. rewrite !last_app, Hz. done.
Qed.

(** every task identifier gets a valid Kubernetes label value: 1 to 63
    label characters, starting and ending with a letter or digit. *)
Theorem TaskLabelValue_valid tid : isValidK8sLabel (TaskLabelValue tid) = true.
Proof. apply TaskLabelValue_valid_label. Qed.

Lemma TaskLabelValue_nonempty tid : TaskLabelValue tid <> [].
Proof.
  intros H. pose proof (TaskLabelValue_valid_label tid) as Hv. by rewrite H in Hv.
Qed.

Lemma SecretName_length tid : (length (SecretName tid) <= 253)%nat.
Proof.
  unfold SecretName. case_match eqn:E; bool_simpl; [done|].
  rewrite !length_app, length_take, task_hash_length by lia. change (length #"-token-") with 7%nat. lia.
Qed.

Lemma SecretName_not_index tid : SecretName tid <> TokenIndexSecretName.
Proof.
  intros H. unfold SecretName in H. case_match eqn:E; bool_simpl.
  - assert (HasSuffix TokenIndexSecretName #"-token" = true) as Hs.
    { rewrite <-H. apply HasSuffix_spec. by exists tid. }
    vm_compute in Hs. discriminate.
  - apply (f_equal length) in H. rewrite !length_app, length_take, task_hash_length in H by lia.
    rewrite length_app in E. change (length #"-token") with 6%nat in E.
    change (length #"-token-") with 7%nat in H. change (length TokenIndexSecretName) with 24%nat in H. lia.
Qed.

(** Secret names are at most 253 bytes, and never the name of the
    namespace's index Secret. *)
Theorem SecretName_bounds tid :
  (length (SecretName tid) <= 253)%nat /\ SecretName tid <> TokenIndexSecretName.
Proof. split; [apply SecretName_length|apply SecretName_not_index]. Qed.

(** ** The memory store *)
Lemma tokenKey_inj t1 n1 t2 n2 :
  "/"%char ∉ n1 -> "/"%char ∉ n2 -> tokenKey t1 n1 = tokenKey t2 n2 -> t1 = t2 /\ n1 = n2.
Proof.
  unfold tokenKey. change #"/" with ["/"%char]. cbn [app].
  revert n2. induction n1 as [|a n1 IH]; intros [|b n2] H1 H2 H; cbn in H.
  - by injection H as ->.
  - injection H as <- _. exfalso. apply H2. by left.
  - injection H as -> _. exfalso. apply H1. by left.
  - injection H as -> H. apply not_elem_of_cons in H1 as [_ H1], H2 as [_ H2].
    destruct (IH n2 H1 H2 H) as [-> ->]. done.
Qed.

#[global] Instance memory_laws : TokenStoreLaws Memory.t.
Proof.
  split; cbn.
  - intros tid ns tok w w' [= <-] _. unfold Memory.is_revoked; cbn.
    rewrite lookup_delete, lookup_insert. by case_decide; left.
  - intros tid ns w w' [= <-]. unfold Memory.is_revoked; cbn. left.
    rewrite lookup_insert. by case_decide.
  - intros tid ns w w' [= <-]. unfold Memory.is_revoked; cbn.
    rewrite !lookup_delete. by case_decide; left.
  - done.
Qed.

#[global] Instance memory_revocation : RevocationLaws Memory.t.
Proof.
  split; cbn; [done| |done]. intros tid ns w Hr tok. cbn. by rewrite Hr.
Qed.

(** The state of one task's entry: what the memory store stands for. *)
Inductive entry := Absent | Active (tok : gostring) | Revoked.
Definition entry_of (tid ns : gostring) (s : Memory.t) : entry :=
  if Memory.is_revoked tid ns s then Revoked
  else match Memory.tokens s !! tokenKey tid ns with Some tok => Active tok | None => Absent end.

(** C36: the memory store is a map from (namespace, task) to an entry: each
    operation sets the entry it names and leaves every other one alone. *)
Theorem memory_refines tid ns tok s t n :
  "/"%char ∉ ns -> "/"%char ∉ n ->
  let here := decide ((t, n) = (tid, ns)) in
  entry_of t n (Memory.save tid ns tok s).2 = (if here then Active tok else entry_of t n s) /\
  entry_of t n (Memory.revoke tid ns s).2 = (if here then Revoked else entry_of t n s) /\
  entry_of t n (Memory.delete_token tid ns s).2 = (if here then Absent else entry_of t n s) /\
  (Memory.get_token t n s).1 = match entry_of t n s with
                               | Absent => Err ErrTokenNotFound
                               | Active tok => Ok tok
                               | Revoked => Err ErrTokenRevoked
                               end.
Proof.
  intros Hns Hn here.
  assert ((t, n) <> (tid, ns) -> tokenKey tid ns <> tokenKey t n) as Hne.
  { intros E E'. apply E. by destruct (tokenKey_inj _ _ _ _ Hns Hn E') as [-> ->]. }
  unfold entry_of, Memory.is_revoked; cbn. destruct here as [E|E].
  - injection E as -> ->. rewrite !lookup_insert_eq, !lookup_delete_eq.
    repeat split. unfold Memory.is_revoked. by repeat case_match.
  - rewrite !lookup_insert_ne, !lookup_delete_ne by auto.
    repeat split. unfold Memory.is_revoked. by repeat case_match.
Qed.

(** ** The Secret store *)
Module KubeFacts.
Section KubeFacts.
Context {W : Type} {K : SecretClient W} {L : SecretClientLaws W}.
Implicit Types (w : W) (ns n tid tok : gostring).

Definition index_of (ns : gostring) (w : W) : option Secret := stored w !! (ns, TokenIndexSecretName).
Definition secret_of (tid ns : gostring) (w : W) : option Secret := stored w !! (ns, SecretName tid).

(** The three outcomes of a read. *)
Lemma Get_cases ns n w :
  (exists s, client_Get ns n w = (Ok s, w) /\ stored w !! (ns, n) = Some s) \/
  (client_Get ns n w = (Err NotFound, w) /\ stored w !! (ns, n) = None) \/
  (exists e, e <> NotFound /\ client_Get ns n w = (Err e, w)).
Proof.
  pose proof (Get_pure ns n w) as Hp. pose proof (Get_Ok ns n w) as Ho.
  pose proof (Get_NotFound ns n w) as Hn.
  destruct (client_Get ns n w) as [[s|e] w1]; cbn in *; subst.
  - left. eauto.
  - destruct (decide (e = NotFound)) as [->|]; eauto.
Qed.

(** What a write of one object leaves. *)
Lemma Update_cases ns n s w :
  (exists w' s', client_Update ns n s w = (Ok tt, w') /\ same_content s s' /\
     stored w' = <[(ns, n) := s']> (stored w)) \/
  (exists e w', client_Update ns n s w = (Err e, w') /\ stored w' = stored w).
Proof.
  destruct (client_Update ns n s w) as [[[]|e] w'] eqn:E; [left|right].
  - destruct (Update_Ok _ _ _ _ _ E) as (s' & ? & ?). eauto 10.
  - pose proof (Update_Err _ _ _ _ _ _ E). eauto.
Qed.
Lemma Create_cases ns n s w :
  (exists w' s', client_Create ns n s w = (Ok tt, w') /\ same_content s s' /\
     stored w' = <[(ns, n) := s']> (stored w)) \/
  (exists e w', client_Create ns n s w = (Err e, w') /\ stored w' = stored w).
Proof.
  destruct (client_Create ns n s w) as [[[]|e] w'] eqn:E; [left|right].
  - destruct (Create_Ok _ _ _ _ _ E) as (s' & ? & ?). eauto 10.
  - pose proof (Create_Err _ _ _ _ _ _ E). eauto.
Qed.

(** An attempt on the index of [ns]: it touches nothing else, and when it
    succeeds the index satisfies [Q]. *)
Definition index_attempt (ns : gostring) (fn : Kube.M (W := W) op_error unit) (Q : option Secret -> Prop) : Prop :=
  forall w r w', fn w = (r, w') ->
    (forall k, k <> (ns, TokenIndexSecretName) -> stored w' !! k = stored w !! k) /\
    (r = Ok tt -> Q (index_of ns w')).

Lemma retry_index ns fn Q w r w' :
  index_attempt ns fn Q -> Kube.retry_on_conflict fn w = (r, w') ->
  (forall k, k <> (ns, TokenIndexSecretName) -> stored w' !! k = stored w !! k) /\
  (r = Ok tt -> Q (index_of ns w')).
Proof.
  intros Ha H. unfold Kube.retry_on_conflict, Kube.catch in H.
  destruct (RetryOnConflict fn w) as [r1 w1] eqn:E. apply Retry_runs in E.
  assert (w1 = w' /\ (r = Ok tt -> r1 = Ok tt)) as [-> Hr].
  { destruct r1 as [[]|e]; cbn in H; injection H as <- <-; done. }
  enough ((forall k, k <> (ns, TokenIndexSecretName) -> stored w' !! k = stored w !! k) /\
          (r1 = Ok tt -> Q (index_of ns w'))) as [? ?] by auto.
  clear H Hr. induction E as [w r1 w' E|w w1 r1 w' E _ [IH1 IH2]].
  - by apply Ha.
  - destruct (Ha _ _ _ E) as [Hf _]. split; [|done]. intros k Hk. by rewrite IH1, Hf.
Qed.

Ltac index_tac :=
  unfold Kube.ret, Kube.throw in *;
  repeat match goal with
  | H : context [bool_decide (?a = ?a)] |- _ => rewrite (bool_decide_eq_true_2 (a = a)) in H by done
  | H : (Ok _, _) = (_, _) |- _ => injection H as <- <-
  | H : (Err _, _) = (_, _) |- _ => injection H as <- <-
  end.

(** Case analysis on the update of the index in [H]. *)
Ltac index_update H :=
  match type of H with context [client_Update ?ns ?n ?s ?w] =>
    let Hu := fresh "Hu" in let w1 := fresh "w1" in let e := fresh "e" in
    destruct (Update_cases ns n s w) as [(w1 & s' & Hu & (Hl & Ha & Hd) & Hw)|(e & w1 & Hu & Hw)];
    rewrite Hu in H end; index_tac.

Lemma upsert_attempt_ok tid ns tok :
  index_attempt ns (Kube.upsert_attempt tid ns tok) (fun i => exists s, i = Some s /\
    annotations s !! revokedIndexKey tid = None /\ data s !! tid = Some tok).
Proof.
  intros w r w' H. unfold Kube.upsert_attempt, Kube.api, Kube.catch in H.
  destruct (Get_cases ns TokenIndexSecretName w) as [(s & Hg & Hs)|[[Hg Hs]|(e & He & Hg)]]; rewrite Hg in H.
  - index_update H.
    + split; [intros k Hk; by rewrite Hw, lookup_insert_ne|]. intros _. exists s'.
      unfold index_of. rewrite Hw, lookup_insert_eq. cbn in Ha, Hd. rewrite <-Ha, <-Hd.
      by rewrite lookup_delete_eq, lookup_insert_eq.
    + split; [intros; by rewrite Hw|done].
  - rewrite bool_decide_eq_true_2 in H by done.
    match type of H with context [client_Create _ _ ?s w] =>
      destruct (Create_cases ns TokenIndexSecretName s w) as [(w1 & s' & Hu & (Hl & Ha & Hd) & Hw)|(e & w1 & Hu & Hw)] end;
    rewrite Hu in H; index_tac.
    + split; [intros k Hk; by rewrite Hw, lookup_insert_ne|]. intros _. exists s'.
      unfold index_of. rewrite Hw, lookup_insert_eq. cbn in Ha, Hd. rewrite <-Ha, <-Hd.
      by rewrite lookup_singleton_eq.
    + split; [intros; by rewrite Hw|done].
  - rewrite bool_decide_eq_false_2 in H by done. index_tac. done.
Qed.

Lemma mark_attempt_ok io tid ns :
  index_attempt ns (Kube.mark_attempt io tid ns) (fun i => match i with
    | None => io = false
    | Some s => annotations s !! revokedIndexKey tid = Some #"true"
    end).
Proof.
  intros w r w' H. unfold Kube.mark_attempt, Kube.api, Kube.catch in H.
  destruct (Get_cases ns TokenIndexSecretName w) as [(s & Hg & Hs)|[[Hg Hs]|(e & He & Hg)]]; rewrite Hg in H.
  - index_update H.
    + split; [intros k Hk; by rewrite Hw, lookup_insert_ne|]. intros _.
      unfold index_of. rewrite Hw, lookup_insert_eq. cbn in Ha. rewrite <-Ha.
      by rewrite lookup_insert_eq.
    + split; [intros; by rewrite Hw|done].
  - rewrite bool_decide_eq_true_2 in H by done. destruct io; index_tac; [done|].
    split; [done|]. intros _. unfold index_of. by rewrite Hs.
  - rewrite bool_decide_eq_false_2 in H by done. index_tac. done.
Qed.

Lemma remove_attempt_ok tid ns :
  index_attempt ns (Kube.remove_attempt tid ns) (fun i => match i with
    | None => True
    | Some s => annotations s !! revokedIndexKey tid = None /\ data s !! tid = None
    end).
Proof.
  intros w r w' H. unfold Kube.remove_attempt, Kube.api, Kube.catch in H.
  destruct (Get_cases ns TokenIndexSecretName w) as [(s & Hg & Hs)|[[Hg Hs]|(e & He & Hg)]]; rewrite Hg in H.
  - index_update H.
    + split; [intros k Hk; by rewrite Hw, lookup_insert_ne|]. intros _.
      unfold index_of. rewrite Hw, lookup_insert_eq. cbn in Ha, Hd. rewrite <-Ha, <-Hd.
      by rewrite !lookup_delete_eq.
    + split; [intros; by rewrite Hw|done].
  - rewrite bool_decide_eq_true_2 in H by done. index_tac.
    split; [done|]. intros _. unfold index_of. by rewrite Hs.
  - rewrite bool_decide_eq_false_2 in H by done. index_tac. done.
Qed.

(** What each index operation leaves of the two Secrets of a task. *)
Lemma secret_key_ne tid ns : (ns, SecretName tid) <> (ns, TokenIndexSecretName).
Proof. intros [= H]. by apply (SecretName_not_index tid). Qed.

Lemma upsert_ok tid ns tok w w' : Kube.upsertTokenIndex tid ns tok w = (Ok tt, w') ->
  secret_of tid ns w' = secret_of tid ns w /\
  exists s, index_of ns w' = Some s /\ annotations s !! revokedIndexKey tid = None /\ data s !! tid = Some tok.
Proof.
  intros H. destruct (retry_index _ _ _ _ _ _ (upsert_attempt_ok tid ns tok) H) as [Hf Hq].
  split; [apply Hf, secret_key_ne|by apply Hq].
Qed.
Lemma mark_ok io tid ns w w' : Kube.markRevokedInIndex io tid ns w = (Ok tt, w') ->
  secret_of tid ns w' = secret_of tid ns w /\
  match index_of ns w' with
  | None => io = false
  | Some s => annotations s !! revokedIndexKey tid = Some #"true"
  end.
Proof.
  intros H. destruct (retry_index _ _ _ _ _ _ (mark_attempt_ok io tid ns) H) as [Hf Hq].
  split; [apply Hf, secret_key_ne|by apply Hq].
Qed.
Lemma remove_ok tid ns w w' : Kube.removeFromTokenIndex tid ns w = (Ok tt, w') ->
  secret_of tid ns w' = secret_of tid ns w /\
  match index_of ns w' with
  | None => True
  | Some s => annotations s !! revokedIndexKey tid = None /\ data s !! tid = None
  end.
Proof.
  intros H. destruct (retry_index _ _ _ _ _ _ (remove_attempt_ok tid ns) H) as [Hf Hq].
  split; [apply Hf, secret_key_ne|by apply Hq].
Qed.

(** Reads as functions of the two Secrets, up to storage errors. *)
Definition index_revoked (i : option Secret) (tid : gostring) : bool :=
  match i with Some s => bool_decide (get (annotations s) (revokedIndexKey tid) = #"true") | None => false end.
Definition entry_result (m : strmap) (k : gostring) : sres gostring :=
  match m !! k with
  | Some tok => if bool_decide (tok = []) then Err ErrTokenNotFound else Ok tok
  | None => Err ErrTokenNotFound
  end.
Definition index_result (i : option Secret) (tid : gostring) : sres gostring :=
  match i with
  | None => Err ErrTokenNotFound
  | Some s => if index_revoked i tid then Err ErrTokenRevoked else entry_result (data s) tid
  end.
Definition secret_result (s i : option Secret) (tid : gostring) : sres gostring :=
  match s with
  | None => Err ErrTokenNotFound
  | Some s =>
      if negb (matchesTaskLabel (labels s) tid) then Err ErrTokenNotFound
      else if bool_decide (get (labels s) LabelRevoked = #"true") then Err ErrTokenRevoked
      else if index_revoked i tid then Err ErrTokenRevoked
      else entry_result (data s) #"token"
  end.

Lemma nonempty_entry_result m k w : Kube.nonempty_entry (W := W) m k w = (entry_result m k, w).
Proof. unfold Kube.nonempty_entry, entry_result. destruct (m !! k); [case_bool_decide|]; done. Qed.

Lemma isRevoked_spec tid ns w :
  Kube.isRevokedInIndex tid ns w = (Ok (index_revoked (index_of ns w) tid), w) \/
  Kube.isRevokedInIndex tid ns w = (Err StorageError, w).
Proof.
  unfold Kube.isRevokedInIndex, Kube.catch.
  destruct (Get_cases ns TokenIndexSecretName w) as [(s & Hg & Hs)|[[Hg Hs]|(e & He & Hg)]]; rewrite Hg.
  - left. unfold index_of. by rewrite Hs.
  - left. unfold index_of. by rewrite Hs.
  - right. by rewrite bool_decide_eq_false_2.
Qed.

Lemma get_token_spec io tid ns w :
  Kube.get_token io tid ns w =
    (if io then index_result (index_of ns w) tid else secret_result (secret_of tid ns w) (index_of ns w) tid, w) \/
  Kube.get_token io tid ns w = (Err StorageError, w).
Proof.
  unfold Kube.get_token. destruct io.
  - unfold Kube.getTokenFromIndex, Kube.catch.
    destruct (Get_cases ns TokenIndexSecretName w) as [(s & Hg & Hs)|[[Hg Hs]|(e & He & Hg)]]; rewrite Hg.
    + left. unfold index_of. rewrite Hs. cbn. case_bool_decide; [done|]. by rewrite nonempty_entry_result.
    + left. unfold index_of. by rewrite Hs.
    + right. by rewrite bool_decide_eq_false_2.
  - unfold Kube.catch.
    destruct (Get_cases ns (SecretName tid) w) as [(s & Hg & Hs)|[[Hg Hs]|(e & He & Hg)]]; rewrite Hg.
    + unfold secret_of. rewrite Hs. cbn. destruct (matchesTaskLabel _ _); [|by left]. cbn.
      case_bool_decide; [by left|]. unfold Kube.bind.
      destruct (isRevoked_spec tid ns w) as [E|E]; rewrite E; [left|by right].
      destruct (index_revoked _ _); [done|]. by rewrite nonempty_entry_result.
    + left. unfold secret_of. by rewrite Hs.
    + right. by rewrite bool_decide_eq_false_2.
Qed.

Lemma matches_own_label l tid :
  l !! LabelAgentTask = Some (TaskLabelValue tid) -> matchesTaskLabel l tid = true.
Proof.
  intros H. unfold matchesTaskLabel, get. rewrite H. cbn.
  by rewrite (bool_decide_eq_false_2 _ (TaskLabelValue_nonempty tid)), bool_decide_eq_true_2.
Qed.

(** The two writes of a task's own Secret. *)
Definition saved_secret (tid tok : gostring) (s : option Secret) : Prop :=
  exists s', s = Some s' /\ matchesTaskLabel (labels s') tid = true /\
    labels s' !! LabelRevoked = None /\ data s' !! #"token" = Some tok.
Definition revoked_secret (tid : gostring) (s : option Secret) : Prop :=
  exists s', s = Some s' /\ matchesTaskLabel (labels s') tid = true /\
    labels s' !! LabelRevoked = Some #"true".

Lemma label_keys_ne : LabelRevoked <> LabelAgentTask /\ LabelRevoked <> ManagedByLabel.
Proof. split; by vm_compute. Qed.

Lemma save_ok tid ns tok w w' : Kube.save tid ns tok w = (Ok tt, w') ->
  saved_secret tid tok (secret_of tid ns w') /\
  exists s, index_of ns w' = Some s /\ annotations s !! revokedIndexKey tid = None /\ data s !! tid = Some tok.
Proof.
  destruct label_keys_ne as [Hne Hne'].
  intros H. unfold Kube.save, Kube.catch, Kube.bind, Kube.call, Kube.catch in H.
  destruct (Get_cases ns (SecretName tid) w) as [(s & Hg & Hs)|[[Hg Hs]|(e & He & Hg)]]; rewrite Hg in H.
  - destruct (matchesTaskLabel (labels s) tid); cbn [negb] in H; [|done]. index_update H; [|done].
    apply upsert_ok in H as [H1 H2]. split; [|done]. rewrite H1. exists s'. unfold secret_of.
    rewrite Hw, lookup_insert_eq. cbn in Hl, Hd. rewrite <-Hl, <-Hd. split; [done|].
    split; [|by rewrite lookup_delete_eq, lookup_insert_eq].
    apply matches_own_label. by rewrite lookup_delete_ne, lookup_insert_eq.
  - rewrite bool_decide_eq_true_2 in H by done. cbn [negb] in H.
    match type of H with context [client_Create _ _ ?s w] =>
      destruct (Create_cases ns (SecretName tid) s w) as [(w1 & s' & Hu & (Hl & Ha & Hd) & Hw)|(e & w1 & Hu & Hw)] end;
    rewrite Hu in H; [|done]. unfold Kube.ret in H.
    apply upsert_ok in H as [H1 H2]. split; [|done]. rewrite H1. exists s'. unfold secret_of.
    rewrite Hw, lookup_insert_eq. cbn in Hl, Hd. rewrite <-Hl, <-Hd. split; [done|].
    split; [apply matches_own_label; by rewrite lookup_insert_eq|].
    split; [|by rewrite lookup_singleton_eq]. by rewrite lookup_insert_ne, lookup_singleton_ne.
  - rewrite bool_decide_eq_false_2 in H by done. done.
Qed.

Lemma revoke_ok tid ns w w' : Kube.revoke false tid ns w = (Ok tt, w') ->
  revoked_secret tid (secret_of tid ns w').
Proof.
  destruct label_keys_ne as [Hne _].
  intros H. unfold Kube.revoke, Kube.catch, Kube.bind, Kube.call, Kube.catch in H.
  destruct (Get_cases ns (SecretName tid) w) as [(s & Hg & Hs)|[[Hg Hs]|(e & He & Hg)]]; rewrite Hg in H; [|done..].
  destruct (matchesTaskLabel (labels s) tid); cbn [negb] in H; [|done]. index_update H; [|done].
  apply mark_ok in H as [H1 _]. rewrite H1. exists s'. unfold secret_of.
  rewrite Hw, lookup_insert_eq. cbn in Hl. rewrite <-Hl. split; [done|].
  split; [|by rewrite lookup_insert_eq].
  apply matches_own_label. by rewrite lookup_insert_ne, lookup_insert_eq.
Qed.

Lemma delete_ok tid ns w w' : Kube.delete_token tid ns w = (Ok tt, w') ->
  secret_of tid ns w' = None /\
  match index_of ns w' with
  | None => True
  | Some s => annotations s !! revokedIndexKey tid = None /\ data s !! tid = None
  end.
Proof.
  intros H. unfold Kube.delete_token, Kube.catch in H.
  destruct (Get_cases ns (SecretName tid) w) as [(s & Hg & Hs)|[[Hg Hs]|(e & He & Hg)]]; rewrite Hg in H.
  - destruct (matchesTaskLabel (labels s) tid); cbn [negb] in H; [|done].
    destruct (client_Delete ns (SecretName tid) w) as [[[]|e] w1] eqn:Ed.
    + apply Delete_Ok in Ed. apply remove_ok in H as [H1 H2]. split; [|done]. rewrite H1.
      unfold secret_of. by rewrite Ed, lookup_delete_eq.
    + apply Delete_Err in Ed as [Ed Hn]. case_bool_decide as Ee; [|done].
      apply remove_ok in H as [H1 H2]. split; [|done]. rewrite H1. unfold secret_of. rewrite Ed. auto.
  - rewrite bool_decide_eq_true_2 in H by done. by apply remove_ok in H as [-> H2].
  - rewrite bool_decide_eq_false_2 in H by done. done.
Qed.

#[export] Instance kube_laws io : TokenStoreLaws W (T := Kube.store io).
Proof using L.
  split; cbn.
  - intros tid ns tok w w' ((s & Hs & Hm & Hr & Hd) & i & Hi & Ha & Hi2)%save_ok Hne.
    destruct (get_token_spec io tid ns w') as [->| ->]; [left|by right]. cbn. rewrite Hi, Hs.
    unfold index_result, secret_result, index_revoked, entry_result, get. rewrite Ha, Hm, Hr, Hd, Hi2. cbn.
    rewrite (bool_decide_eq_false_2 (tok = [])) by done. by destruct io.
  - intros tid ns w w' H. destruct (get_token_spec io tid ns w') as [->| ->]; [left|by right]. cbn.
    destruct io.
    + apply mark_ok in H as [_ H]. destruct (index_of ns w') as [s|]; [|done].
      unfold index_result, index_revoked, get. by rewrite H.
    + apply revoke_ok in H as (s & -> & Hm & Hr). unfold secret_result, get. by rewrite Hm, Hr.
  - intros tid ns w w' [Hs Hi]%delete_ok.
    destruct (get_token_spec io tid ns w') as [->| ->]; [left|by right]. cbn. rewrite Hs.
    destruct io; [|done]. destruct (index_of ns w') as [s|]; [|done]. destruct Hi as [Ha Hd].
    unfold index_result, index_revoked, entry_result, get. by rewrite Ha, Hd.
  - intros tid ns w. by destruct (get_token_spec io tid ns w) as [->| ->].
Qed.

(** The last attempt decides. *)
Lemma retry_missing io tid ns w e w' : Kube.markRevokedInIndex io tid ns w = (Err e, w') ->
  e = ErrTokenNotFound \/ e = ErrTokenRevoked -> io = true /\ index_of ns w' = None.
Proof.
  unfold Kube.markRevokedInIndex, Kube.retry_on_conflict, Kube.catch.
  destruct (RetryOnConflict _ w) as [r1 w1] eqn:E. apply Retry_runs in E.
  destruct r1 as [[]|e1]; [done|]. intros [= <- <-].
  remember (Err e1) as r2. revert e1 Heqr2. induction E as [w r2 w1 E|]; [|done]. intros e1 -> He.
  unfold Kube.mark_attempt, Kube.api, Kube.catch, Kube.throw, Kube.ret in E.
  destruct (Get_cases ns TokenIndexSecretName w) as [(s & Hg & Hs)|[[Hg Hs]|(x & Hx & Hg)]]; rewrite Hg in E.
  - destruct (client_Update _ _ _ _) as [[]]; [done|]. injection E as <- <-. by destruct He.
  - rewrite bool_decide_eq_true_2 in E by done. destruct io; [|done]. injection E as <- <-. done.
  - rewrite bool_decide_eq_false_2 in E by done. injection E as <- <-. by destruct He.
Qed.

#[export] Instance kube_revocation io : RevocationLaws W (T := Kube.store io).
Proof using L.
  assert (forall tid ns w, Kube.CheckRevoked io tid ns w = (Err StorageError, w) \/
    Kube.CheckRevoked io tid ns w = (Ok (if io then index_revoked (index_of ns w) tid else
      match secret_of tid ns w with
      | Some s => matchesTaskLabel (labels s) tid &&
                  (bool_decide (get (labels s) LabelRevoked = #"true") || index_revoked (index_of ns w) tid)
      | None => index_revoked (index_of ns w) tid
      end), w)) as Hc.
  { intros tid ns w. unfold Kube.CheckRevoked. destruct io; [destruct (isRevoked_spec tid ns w); auto|]. unfold Kube.catch.
    destruct (Get_cases ns (SecretName tid) w) as [(s & Hg & Hs)|[[Hg Hs]|(e & He & Hg)]]; rewrite Hg; unfold secret_of.
    - rewrite Hs. destruct (matchesTaskLabel _ _); [|by right]. case_bool_decide; [by right|].
      destruct (isRevoked_spec tid ns w); auto.
    - rewrite Hs, bool_decide_eq_true_2 by done. destruct (isRevoked_spec tid ns w); auto.
    - rewrite bool_decide_eq_false_2 by done. by left. }
  split; cbn.
  - intros tid ns w. unfold Kube.is_revoked. by destruct (Hc tid ns w) as [->| ->].
  - intros tid ns w Hr tok. unfold Kube.is_revoked in Hr. destruct (Hc tid ns w) as [E|E]; rewrite E in Hr; [done|].
    cbn in Hr. change (fst (Kube.get_token io tid ns w) <> Ok tok).
    destruct (get_token_spec io tid ns w) as [->| ->]; [|done]. cbn. destruct io.
    + unfold index_result. destruct (index_of ns w); [|done]. by rewrite Hr.
    + unfold secret_result. destruct (secret_of tid ns w); [|done]. destruct (matchesTaskLabel _ _); [|done].
      cbn in Hr |- *. destruct (bool_decide _); [done|]. cbn in Hr. by rewrite Hr.
  - intros tid ns w e w' H He tok. change (fst (Kube.get_token io tid ns w') <> Ok tok).
    destruct (get_token_spec io tid ns w') as [E|E]; rewrite E; [|done]. cbn.
    unfold Kube.revoke in H. destruct io.
    + by destruct (retry_missing _ _ _ _ _ _ H He) as [_ ->].
    + unfold Kube.catch in H.
      destruct (Get_cases ns (SecretName tid) w) as [(s & Hg & Hs)|[[Hg Hs]|(x & Hx & Hg)]]; rewrite Hg in H.
      * destruct (matchesTaskLabel _ _); [|injection H as <- <-; by destruct He]. unfold Kube.bind, Kube.call, Kube.catch in H. cbn [negb] in H.
        match type of H with context [client_Update ?a ?b ?c w] => destruct (client_Update a b c w) as [[[]|] w1] end; [|injection H as <- <-; by destruct He].
        by destruct (retry_missing _ _ _ _ _ _ H He).
      * unfold Kube.throw in H. injection H as <- <-. unfold secret_of. by rewrite Hs.
      * rewrite bool_decide_eq_false_2 in H by done. injection H as <- <-. by destruct He.
Qed.
End KubeFacts.
End KubeFacts.

(** a revoked token is not readable any more: after a successful
    [RevokeToken], [GetToken] reports the revocation (or that the storage
    failed), whether the store reads task Secrets or only the index. *)
Theorem revoke_then_get {W} {K : SecretClient W} {L : SecretClientLaws W} io tid ns w w' :
  Kube.revoke io tid ns w = (Ok tt, w') ->
  (Kube.get_token io tid ns w').1 = Err ErrTokenRevoked \/
  (Kube.get_token io tid ns w').1 = Err StorageError.
Proof. apply (revoke_get (TokenStoreLaws := KubeFacts.kube_laws io)). Qed.

(** a saved token is read back, by the full store and by the index-only
    store, even when it had been revoked before. *)
Theorem save_then_get {W} {K : SecretClient W} {L : SecretClientLaws W} io tid ns tok w w' :
  Kube.save tid ns tok w = (Ok tt, w') -> tok <> [] ->
  (Kube.get_token io tid ns w').1 = Ok tok \/ (Kube.get_token io tid ns w').1 = Err StorageError.
Proof. apply (save_get (TokenStoreLaws := KubeFacts.kube_laws io)). Qed.

(** ** A server

    An object store as a list of bindings, newest first, that checks the
    version of updates. *)
Module Server.
Abbreviation key := (gostring * gostring)%type.
Definition t : Type := list (key * option Secret).
Fixpoint find (k : key) (w : t) : option Secret :=
  match w with
  | [] => None
  | (k', s) :: w => if decide (k' = k) then s else find k w
  end.
Fixpoint contents (w : t) : gmap key Secret :=
  match w with
  | [] => ∅
  | (k, s) :: w => partial_alter (fun _ => s) k (contents w)
  end.
Lemma contents_find w k : contents w !! k = find k w.
Proof.
  induction w as [|[k' s] w IH]; cbn; [apply lookup_empty|]. case_decide as E.
  - subst. by rewrite lookup_partial_alter_eq.
  - by rewrite lookup_partial_alter_ne.
Qed.

Definition next (s : Secret) : Secret :=
  mkSecret (labels s) (annotations s) (data s) (resourceVersion s + 1).
Fixpoint retry (steps : nat) (fn : t -> result op_error unit * t) (w : t) : result op_error unit * t :=
  match fn w, steps with
  | (Err (Api Conflict), w'), S steps => retry steps fn w'
  | r, _ => r
  end.

#[global] Instance client : SecretClient t := {
  client_Get ns n w := (match find (ns, n) w with Some s => Ok s | None => Err NotFound end, w);
  client_Create ns n s w :=
    match find (ns, n) w with
    | Some _ => (Err AlreadyExists, w)
    | None => (Ok tt, ((ns, n), Some (next s)) :: w)
    end;
  client_Update ns n s w :=
    match find (ns, n) w with
    | None => (Err NotFound, w)
    | Some old => if (resourceVersion old =? resourceVersion s)%Z
                  then (Ok tt, ((ns, n), Some (next s)) :: w) else (Err Conflict, w)
    end;
  client_Delete ns n w :=
    match find (ns, n) w with Some _ => (Ok tt, ((ns, n), None) :: w) | None => (Err NotFound, w) end;
  RetryOnConflict fn w := retry 24 fn w }.

Lemma retry_runs steps fn : forall w r w', retry steps fn w = (r, w') -> retries fn w r w'.
Proof.
  induction steps as [|steps IH]; intros w r w' H; cbn in H.
  - apply retries_last. destruct (fn w) as [[?|[[]|?]] w1]; exact H.
  - destruct (fn w) as [[?|[[]|?]] w1] eqn:E; try (apply retries_last; congruence).
    eapply retries_again; eauto.
Qed.

#[global] Instance laws : SecretClientLaws t.
Proof.
  refine {| stored := contents |}; cbn -[retry]; [..|apply retry_runs].
  - done.
  - intros ns n w s. rewrite contents_find. by destruct (find _ _); intros [= ->].
  - intros ns n w. rewrite contents_find. by destruct (find _ _).
  - intros ns n s w w' H. case_match; [done|]. injection H as <-. by exists (next s).
  - intros ns n s w e w' H. case_match; [|done]. by injection H as _ <-.
  - intros ns n s w w' H. repeat (case_match; try done). injection H as <-. by exists (next s).
  - intros ns n s w e w' H. repeat (case_match; try done); by injection H as _ <-.
  - intros ns n w w' H. case_match; [|done]. by injection H as <-.
  - intros ns n w e w' H. case_match eqn:E; [done|]. injection H as <- <-. by rewrite contents_find.
Qed.
End Server.

Definition demo_store : Server.t :=
  (Kube.save #"task-1" #"default" #"tok" []).2.

Lemma demo_saved : Kube.save #"task-1" #"default" #"tok" ([] : Server.t) = (Ok tt, demo_store).
Proof. apply injective_projections; [vm_compute|]; reflexivity. Qed.
Lemma demo_revoked : Kube.revoke false #"task-1" #"default" demo_store =
  (Ok tt, (Kube.revoke false #"task-1" #"default" demo_store).2).
Proof. apply injective_projections; [vm_compute|]; reflexivity. Qed.

Lemma save_then_get_witness :
  Kube.save #"task-1" #"default" #"tok" ([] : Server.t) = (Ok tt, demo_store) /\
  (Kube.get_token true #"task-1" #"default" demo_store).1 = Ok #"tok".
Proof.
  split; [apply demo_saved|].
  destruct (save_then_get true _ _ #"tok" _ _ demo_saved ltac:(discriminate)) as [H|H]; [exact H|].
  vm_compute in H. discriminate H.
Defined.

Lemma revoke_then_get_witness :
  (Kube.get_token false #"task-1" #"default" (Kube.revoke false #"task-1" #"default" demo_store).2).1
    = Err ErrTokenRevoked.
Proof.
  destruct (revoke_then_get false _ _ _ _ demo_revoked) as [H|H]; [exact H|].
  vm_compute in H. discriminate H.
Defined.

Lemma memory_refines_witness :
  entry_of #"t" #"ns" (Memory.save #"t" #"ns" #"tok" Memory.NewInMemoryTokenStore).2 = Active #"tok".
Proof.
  refine (proj1 (memory_refines #"t" #"ns" #"tok" Memory.NewInMemoryTokenStore #"t" #"ns" _ _));
    apply (bool_decide_unpack _); vm_compute; exact I.
Defined.
