(* ===== verification/AuthProvider.v ===== *)
(** * Authentication providers: [internal/server/auth]

    [macaroon_provider.go], [composite_provider.go] and the identities of
    [context.go].  The token store is used through its interface
    [TokenStore]; the lookup of an [AgentTask] in the cluster is a parameter. *)

From S2P Require Import Prelude GoStrings GoCrypto GoFloat GoJSON GoTime.
From S2P Require Import Macaroon TokenStore.

(** ** Identities *)
Record UserInfo := mkUser {
  Username : gostring;
  UID : gostring;
  Email : gostring;
  Groups : list gostring;
  Extra : gmap gostring (list gostring) }.
#[global] Instance UserInfo_eq_dec : EqDecision UserInfo.
Proof. solve_decision. Defined.

Definition ExtraKeyAuthType : gostring := #"divergedev.com/auth-type".
Definition ExtraKeyTaskID : gostring := #"divergedev.com/task-id".
Definition ExtraKeyNamespace : gostring := #"divergedev.com/namespace".
Definition ExtraKeyAllowedTools : gostring := #"divergedev.com/allowed-tools".

(** The values under a key, none when the key is absent. *)
Definition extra (u : UserInfo) (k : gostring) : list gostring := default [] (Extra u !! k).
(** [if vals := user.Extra[k]; len(vals) > 0 { x = vals[0] }] *)
Definition extra_first (u : UserInfo) (k : gostring) : gostring := default [] (head (extra u k)).

(** ** Tokens as received *)
Fixpoint first_decoding (encs : list encoding) (s : gostring) : option gostring :=
  match encs with
  | [] => None
  | e :: encs =>
      match DecodeString e s with
      | Some (c :: t) => if bool_decide (c = "{"%char) then Some (c :: t) else first_decoding encs s
      | _ => first_decoding encs s
      end
  end.
Definition decodeMacaroonToken (token : gostring) : option gostring :=
  let trimmed := TrimSpace token in
  if bool_decide (trimmed = []) then None
  else if HasPrefix trimmed #"{" then Some trimmed
  else first_decoding [RawStdEncoding; StdEncoding; RawURLEncoding; URLEncoding] trimmed.

(** [for i, c := range stored { if presented[i] != c { return false } }],
    after the length check. *)
Fixpoint caveat_prefix (stored presented : list Caveat) : bool :=
  match stored, presented with
  | [], _ => true
  | c :: stored, d :: presented => bool_decide (d = c) && caveat_prefix stored presented
  | _ :: _, [] => false
  end.
Definition matchesStoredRootToken (presented : Macaroon) (storedRaw : gostring) : bool :=
  match decodeMacaroonToken storedRaw with
  | None => false
  | Some decoded =>
      match unmarshal decoded with
      | None => false
      | Some stored =>
          if bool_decide (TokenID stored = []) || negb (bool_decide (TokenID presented = TokenID stored)) then false
          else if (length (CaveatSeq presented) <? length (CaveatSeq stored))%nat then false
          else caveat_prefix (CaveatSeq stored) (CaveatSeq presented)
      end
  end.

(** ** [MacaroonAuthProvider] *)
(** What the provider reads of an [AgentTask]. *)
Record TaskView := mkTaskView { tv_deleting : bool; tv_suspended : bool; tv_phase : gostring }.

Inductive authn_error :=
| NotConfigured
| TokenMalformed
| VerificationFailed (e : auth_error)
| TokenRevoked
| StoreUnavailable
| Rejected (why : gostring)
| AllProvidersFailed (last : authn_error)
| NoProviders.

Abbreviation nres := (result authn_error).

Definition stopped_phases : list gostring := [ #"Pausing"; #"Paused"; #"Completed"; #"Failed"].
Definition default_tools : list gostring := [ #"diverge_*"].

Section Provider.
Context {U : GoUnicode} {W : Type} {T : TokenStore W}.

(** The store check: [with_store] is [p.store != nil]. *)
Definition check_stored (with_store : bool) (mac : Macaroon) (taskID ns : gostring) (w : W) : nres unit * W :=
  if with_store then
    match GetToken taskID ns w with
    | (Err ErrTokenRevoked, w') | (Err ErrTokenNotFound, w') => (Err TokenRevoked, w')
    | (Err _, w') => (Err StoreUnavailable, w')
    | (Ok storedRaw, w') =>
        (if matchesStoredRootToken mac storedRaw then Ok tt else Err TokenRevoked, w')
    end
  else (Ok tt, w).

(** The [AgentTask] check: [get_task] is the cluster's answer, [None] an
    error of [k8s.Get]; no client, no check. *)
Definition check_task (k8s : option (gostring -> gostring -> option TaskView)) (taskID ns : gostring) : nres unit :=
  match k8s with
  | None => Ok tt
  | Some get_task =>
      match get_task ns taskID with
      | None => Err TokenRevoked
      | Some task =>
          if tv_deleting task || tv_suspended task then Err TokenRevoked
          else if bool_decide (tv_phase task ∈ stopped_phases) then Err TokenRevoked
          else Ok tt
      end
  end.

Definition macaroon_user (ns : gostring) (cl : Claims) : UserInfo :=
  let allowedTools := if bool_decide (AllowedTools cl = []) then default_tools else AllowedTools cl in
  mkUser (#"system:agenttask:" ++ ns ++ #":" ++ TaskID cl) (TaskID cl) []
    [ #"system:authenticated"; #"divergedev:agenttasks"]
    (<[ExtraKeyAuthType := [ #"macaroon"]]> (<[ExtraKeyTaskID := [TaskID cl]]>
     (<[ExtraKeyNamespace := [ns]]> (<[ExtraKeyAllowedTools := allowedTools]> ∅)))).

(** [provider] is the [MacaroonProvider] pointer: [None] when it is nil. *)
Definition Authenticate (provider : option (option gostring)) (with_store : bool)
    (k8s : option (gostring -> gostring -> option TaskView)) (now : Z) (token : gostring) (w : W)
    : nres UserInfo * W :=
  match provider with
  | None => (Err NotConfigured, w)
  | Some key =>
      match decodeMacaroonToken token with
      | None => (Err TokenMalformed, w)
      | Some raw =>
          match VerifyAndExtract key now raw with
          | Err e => (Err (VerificationFailed e), w)
          | Ok (mac, claims) =>
              let ns := if bool_decide (Namespace claims = []) then #"default" else Namespace claims in
              match check_stored with_store mac (TaskID claims) ns w with
              | (Err e, w') => (Err e, w')
              | (Ok _, w') =>
                  match check_task k8s (TaskID claims) ns with
                  | Err e => (Err e, w')
                  | Ok _ => (Ok (macaroon_user ns claims), w')
                  end
              end
          end
      end
  end.
End Provider.

(** ** [CompositeProvider] *)
(** An [AuthProvider] as a function of the token and the state behind it. *)
Definition provider (W : Type) : Type := gostring -> W -> nres UserInfo * W.

Fixpoint composite_go {W} (ps : list (provider W)) (lastErr : option authn_error) (token : gostring) (w : W)
    : nres UserInfo * W :=
  match ps with
  | [] => (Err (match lastErr with Some e => AllProvidersFailed e | None => NoProviders end), w)
  | p :: ps =>
      match p token w with
      | (Ok user, w') => (Ok user, w')
      | (Err e, w') => composite_go ps (Some e) token w'
      end
  end.
Definition CompositeAuthenticate {W} (ps : list (provider W)) : provider W := composite_go ps None.

(** ** [TokenReviewProvider] *)
(** The status of a [TokenReview]; [rv_iter] lists the extra keys in the order
    the loop meets them (a Go map has no fixed order). *)
Record ReviewStatus := mkReview {
  rv_authenticated : bool;
  rv_error : gostring;
  rv_username : gostring;
  rv_uid : gostring;
  rv_groups : list gostring;
  rv_iter : list (gostring * list gostring) }.

Definition max_extra_keys : nat := 50.
Definition copy_extra (iter : list (gostring * list gostring)) : gmap gostring (list gostring) :=
  list_to_map (take max_extra_keys iter).

(** [review] is the API server: [None] when the call fails. *)
Definition ReviewAuthenticate {W} (review : gostring -> W -> option ReviewStatus * W) : provider W :=
  fun token w =>
    match review token w with
    | (None, w') => (Err (Rejected #"token review failed"), w')
    | (Some st, w') =>
        (if rv_authenticated st
         then Ok (mkUser (rv_username st) (rv_uid st) [] (rv_groups st) (copy_extra (rv_iter st)))
         else Err (Rejected (rv_error st)), w')
    end.
