(* ===== verification/TokenCache.v ===== *)
(** * The token cache and the authentication middleware

    [internal/server/auth/cache.go]: an LRU cache of authenticated users,
    keyed by the hash of the token; [middleware.go]: which requests reach the
    handler and as whom.  Metrics and log lines are not modelled. *)

From S2P Require Import Prelude GoStrings GoCrypto GoTime AuthProvider.

(** ** [TokenCache] *)
Definition hashToken (token : gostring) : gostring := hex_encode (sha256 token).
Arguments hashToken : simpl never.

Record cacheEntry := mkEntry { ce_user : UserInfo; ce_expiresAt : Z }.
(** Times are nanoseconds of a monotonic clock; [tc_order] has the oldest key
    first. *)
Record TokenCache := mkCache {
  tc_entries : gmap gostring cacheEntry;
  tc_order : list gostring;
  tc_maxSize : Z;
  tc_ttl : Z }.

Definition NewTokenCache (maxSize ttl : Z) : TokenCache :=
  mkCache ∅ [] (if (maxSize <=? 0)%Z then 0 else maxSize)%Z ttl.

(** Removes the first occurrence. *)
Fixpoint removeFromOrder (key : gostring) (order : list gostring) : list gostring :=
  match order with
  | [] => []
  | k :: order => if decide (k = key) then order else k :: removeFromOrder key order
  end.

Definition cache_get (c : TokenCache) (now : Z) (token : gostring) : option UserInfo * TokenCache :=
  let key := hashToken token in
  match tc_entries c !! key with
  | None => (None, c)
  | Some e =>
      if (ce_expiresAt e <? now)%Z then
        (None, mkCache (delete key (tc_entries c)) (removeFromOrder key (tc_order c)) (tc_maxSize c) (tc_ttl c))
      else
        (Some (ce_user e),
         mkCache (tc_entries c) (removeFromOrder key (tc_order c) ++ [key]) (tc_maxSize c) (tc_ttl c))
  end.

Definition cache_set (c : TokenCache) (now : Z) (token : gostring) (user : UserInfo) : TokenCache :=
  let key := hashToken token in
  let e := mkEntry user (now + tc_ttl c) in
  match tc_entries c !! key with
  | Some _ => mkCache (<[key := e]> (tc_entries c)) (removeFromOrder key (tc_order c) ++ [key])
                (tc_maxSize c) (tc_ttl c)
  | None =>
      let '(entries, order) :=
        if (tc_maxSize c <=? Z.of_nat (size (tc_entries c)))%Z then
          match tc_order c with
          | oldest :: rest => (delete oldest (tc_entries c), rest)
          | [] => (tc_entries c, tc_order c)
          end
        else (tc_entries c, tc_order c) in
      mkCache (<[key := e]> entries) (order ++ [key]) (tc_maxSize c) (tc_ttl c)
  end.

(** ** The middleware *)
Section Middleware.
Context {U : GoUnicode}.

Record request := mkRequest {
  rq_method : gostring;
  rq_path : gostring;
  rq_uri : gostring;
  rq_authorization : gostring;
  rq_accept : gostring;
  rq_cookie : option gostring }.

(** [strings.SplitN(authHeader, " ", 2)] *)
Definition extractBearerToken (authHeader : gostring) : gostring :=
  match Cut authHeader " "%char with
  | Some (scheme, rest) => if EqualFold scheme #"bearer" then TrimSpace rest else []
  | None => []
  end.

Inductive response :=
| Served (user : option UserInfo)
| RedirectToLogin (return_url : option gostring)
| Unauthorized.

(** [redirectBrowserToLogin]: [None] when no redirect is issued. *)
Definition redirectBrowserToLogin (r : request) (loginURL : gostring) : option response :=
  if bool_decide (loginURL = []) || negb (bool_decide (rq_method r = #"GET"))
     || negb (Contains (rq_accept r) #"text/html") then None
  else
    let u := rq_uri r in
    Some (RedirectToLogin
      (if negb (bool_decide (u = [])) && negb (bool_decide (u = #"/")) &&
          HasPrefix u #"/" && negb (HasPrefix u #"//") && negb (HasPrefix u #"/\")
       then Some u else None)).

Definition request_token (r : request) : gostring :=
  let token := extractBearerToken (rq_authorization r) in
  if bool_decide (token = []) then default [] (rq_cookie r) else token.

Definition exempt (paths prefixes : list gostring) (r : request) : bool :=
  existsb (fun p => bool_decide (rq_path r = p)) paths || existsb (fun p => HasPrefix (rq_path r) p) prefixes.

Definition refuse (r : request) (loginURL : gostring) : response :=
  default Unauthorized (redirectBrowserToLogin r loginURL).

Context {W : Type}.

Record config := mkConfig {
  cfg_provider : provider W;
  cfg_exempt_paths : list gostring;
  cfg_exempt_prefixes : list gostring;
  cfg_login : gostring }.

(** One request; [now] is the clock when it arrives, [now'] when the provider
    has answered. *)
Definition serve (cfg : config) (now now' : Z) (r : request) (c : TokenCache) (w : W)
    : response * TokenCache * W :=
  if exempt (cfg_exempt_paths cfg) (cfg_exempt_prefixes cfg) r then (Served None, c, w)
  else
    let token := request_token r in
    if bool_decide (token = []) then (refuse r (cfg_login cfg), c, w)
    else
      match cache_get c now token with
      | (Some user, c1) => (Served (Some user), c1, w)
      | (None, c1) =>
          match cfg_provider cfg token w with
          | (Err _, w1) => (refuse r (cfg_login cfg), c1, w1)
          | (Ok user, w1) => (Served (Some user), cache_set c1 now' token user, w1)
          end
      end.
End Middleware.
Arguments config : clear implicits.

(** * The token cache is bounded and never serves a stale user *)

(** ** Well-formed caches *)
Lemma removeFromOrder_elem k key l : NoDup l -> k ∈ removeFromOrder key l <-> k ∈ l /\ k <> key.
Proof.
  induction 1 as [|x l Hx Hl IH]; cbn; [split; [by intros ?%elem_of_nil|by intros [?%elem_of_nil _]]|].
  case_decide as E.
  - subst. rewrite elem_of_cons. split; [|naive_solver]. intros Hk. split; [by right|]. by intros ->.
  - rewrite !elem_of_cons, IH. naive_solver.
Qed.
Lemma removeFromOrder_NoDup key l : NoDup l -> NoDup (removeFromOrder key l).
Proof.
  induction 1 as [|x l Hx Hl IH]; cbn; [constructor|]. case_decide; [done|].
  constructor; [|done]. rewrite removeFromOrder_elem by done. naive_solver.
Qed.
Lemma promote_NoDup key l : NoDup l -> NoDup (removeFromOrder key l ++ [key]).
Proof.
  intros H. apply NoDup_app. split; [by apply removeFromOrder_NoDup|]. split; [|by apply NoDup_singleton].
  intros x Hx Hx'%list_elem_of_singleton. subst. apply removeFromOrder_elem in Hx; [|done]. naive_solver.
Qed.
Lemma promote_elem k key l : NoDup l -> k ∈ removeFromOrder key l ++ [key] <-> k ∈ l \/ k = key.
Proof.
  intros H. rewrite elem_of_app, removeFromOrder_elem, list_elem_of_singleton by done.
  destruct (decide (k = key)); naive_solver.
Qed.

(** The order lists each cached key once, and the cache holds at most
    [max 1 maxSize] entries. *)
Record cache_ok (c : TokenCache) : Prop := {
  ok_nodup : NoDup (tc_order c);
  ok_keys : forall k, k ∈ tc_order c <-> is_Some (tc_entries c !! k);
  ok_size : (Z.of_nat (size (tc_entries c)) <= Z.max 1 (tc_maxSize c))%Z }.

Lemma order_size c : NoDup (tc_order c) -> (forall k, k ∈ tc_order c <-> is_Some (tc_entries c !! k)) ->
  size (tc_entries c) = length (tc_order c).
Proof.
  intros Hn Hk. rewrite <-size_dom. rewrite <-(size_list_to_set (C := gset gostring) (tc_order c)) by done.
  f_equal. apply set_eq. intros k. by rewrite elem_of_dom, elem_of_list_to_set, Hk.
Qed.

Lemma cache_ok_new maxSize ttl : cache_ok (NewTokenCache maxSize ttl).
Proof.
  split; cbn; [constructor| |].
  - intros k. rewrite lookup_empty. split; [by intros ?%elem_of_nil|by intros []].
  - rewrite map_size_empty. lia.
Qed.

Lemma cache_get_ok c now token : cache_ok c -> cache_ok (cache_get c now token).2.
Proof.
  intros [Hn Hk Hs]. unfold cache_get. destruct (tc_entries c !! hashToken token) as [e|] eqn:E; [|done].
  destruct (_ <? _)%Z; split; cbn.
  - by apply removeFromOrder_NoDup.
  - intros k. rewrite removeFromOrder_elem, Hk, lookup_delete_is_Some by done. naive_solver.
  - rewrite map_size_delete_Some by eauto. lia.
  - by apply promote_NoDup.
  - intros k. rewrite promote_elem, Hk by done. split; [|by left]. intros [?| ->]; [done|eauto].
  - done.
Qed.

Lemma cache_set_ok c now token user : cache_ok c -> cache_ok (cache_set c now token user).
Proof.
  intros [Hn Hk Hs]. unfold cache_set. destruct (tc_entries c !! hashToken token) as [e|] eqn:E.
  { split; cbn.
    - by apply promote_NoDup.
    - intros k. rewrite promote_elem, Hk, lookup_insert_is_Some by done.
      destruct (decide (hashToken token = k)); naive_solver.
    - rewrite map_size_insert_Some by eauto. done. }
  pose proof (order_size c Hn Hk) as Hlen.
  assert (hashToken token ∉ tc_order c) as Hout by (rewrite Hk, E; by intros []).
  assert (forall entries order,
    NoDup order -> (forall k, k ∈ order <-> is_Some (entries !! k)) ->
    (forall k, k ∈ order -> k ∈ tc_order c) ->
    (Z.of_nat (size (entries : gmap gostring cacheEntry)) < Z.max 1 (tc_maxSize c))%Z ->
    cache_ok (mkCache (<[hashToken token := mkEntry user (now + tc_ttl c)]> entries)
      (order ++ [hashToken token]) (tc_maxSize c) (tc_ttl c))) as Hadd.
  { intros es l Hnl Hkl Hsub Hsz.
    assert (hashToken token ∉ l) as Hnew by (intros ?%Hsub; done). split; cbn.
    - apply NoDup_app. split; [done|]. split; [|by apply NoDup_singleton].
      intros x Hx ->%list_elem_of_singleton. done.
    - intros k. rewrite elem_of_app, list_elem_of_singleton, Hkl, lookup_insert_is_Some.
      destruct (decide (hashToken token = k)); naive_solver.
    - rewrite map_size_insert_None; [lia|]. apply eq_None_not_Some. by rewrite <-Hkl. }
  destruct (tc_maxSize c <=? Z.of_nat (size (tc_entries c)))%Z eqn:Em; bool_simpl; [|apply Hadd; auto; lia].
  destruct (tc_order c) as [|oldest rest] eqn:Eo.
  - apply Hadd; try done. rewrite Hlen. cbn. lia.
  - apply NoDup_cons in Hn as [Hn1 Hn2]. apply Hadd; try done.
    + intros k. rewrite lookup_delete_is_Some, <-Hk, elem_of_cons. naive_solver.
    + intros k Hkr. by right.
    + assert (is_Some (tc_entries c !! oldest)) as Hold by (apply Hk; by left).
      rewrite map_size_delete_Some by done. cbn in Hlen. lia.
Qed.

(** ** Histories *)
Section History.
Context {U : GoUnicode} {W : Type}.

(** Successful authentications: the token's hash, the user, the time. *)
Abbreviation history := (list (gostring * UserInfo * Z)).

(** What one request adds to the history: the user the provider returned, if
    it was asked. *)
Definition asked (cfg : config W) (r : request) (now : Z) (c : TokenCache) : bool :=
  negb (exempt (cfg_exempt_paths cfg) (cfg_exempt_prefixes cfg) r) &&
  negb (bool_decide (request_token r = [])) &&
  match (cache_get c now (request_token r)).1 with Some _ => false | None => true end.
Definition record (cfg : config W) (r : request) (now now' : Z) (c : TokenCache) (w : W) (h : history) : history :=
  if asked cfg r now c then
    match (cfg_provider cfg (request_token r) w).1 with
    | Ok user => (hashToken (request_token r), user, now') :: h
    | Err _ => h
    end
  else h.

(** The caches a server goes through. *)
Inductive reachable (cfg : config W) (maxSize ttl : Z) : TokenCache -> history -> Prop :=
| reach_new : reachable cfg maxSize ttl (NewTokenCache maxSize ttl) []
| reach_serve c h now now' r w :
    reachable cfg maxSize ttl c h ->
    reachable cfg maxSize ttl (serve cfg now now' r c w).1.2 (record cfg r now now' c w h).

(** Every entry was put there by a recorded success. *)
Definition explained (ttl : Z) (c : TokenCache) (h : history) : Prop :=
  tc_ttl c = ttl /\
  forall k e, tc_entries c !! k = Some e ->
    exists t, (k, ce_user e, t) ∈ h /\ ce_expiresAt e = (t + ttl)%Z.

Lemma cache_get_entries c now token k e :
  tc_entries (cache_get c now token).2 !! k = Some e -> tc_entries c !! k = Some e.
Proof.
  unfold cache_get. destruct (tc_entries c !! hashToken token); [|done].
  destruct (_ <? _)%Z; [|done]. cbn. by intros [_ ?]%lookup_delete_Some.
Qed.
Lemma cache_get_ttl c now token : tc_ttl (cache_get c now token).2 = tc_ttl c.
Proof. unfold cache_get. by repeat case_match. Qed.
Lemma cache_get_max c now token : tc_maxSize (cache_get c now token).2 = tc_maxSize c.
Proof. unfold cache_get. by repeat case_match. Qed.
Lemma cache_set_max c now token u : tc_maxSize (cache_set c now token u) = tc_maxSize c.
Proof. unfold cache_set. by repeat case_match. Qed.
Lemma cache_set_ttl c now token u : tc_ttl (cache_set c now token u) = tc_ttl c.
Proof. unfold cache_set. by repeat case_match. Qed.
Lemma cache_set_entries c now token u k e :
  tc_entries (cache_set c now token u) !! k = Some e ->
  (k = hashToken token /\ e = mkEntry u (now + tc_ttl c)) \/ tc_entries c !! k = Some e.
Proof.
  unfold cache_set. intros H.
  assert (exists es : gmap gostring cacheEntry, (forall k e, es !! k = Some e -> tc_entries c !! k = Some e) /\
    <[hashToken token := mkEntry u (now + tc_ttl c)]> es !! k = Some e) as (es & Hes & H').
  { repeat case_match; simplify_eq; cbn in H; (eexists; split; [|exact H]); try done.
    by intros ?? [_ ?]%lookup_delete_Some. }
  apply lookup_insert_Some in H' as [[<- <-]|[_ H']]; auto.
Qed.

(** The cache after a request, by cases. *)
Lemma serve_cache cfg now now' r c w :
  let c1 := (cache_get c now (request_token r)).2 in
  let c' := (serve cfg now now' r c w).1.2 in
  (c' = c /\ asked cfg r now c = false) \/
  (c' = c1 /\ asked cfg r now c = false) \/
  (asked cfg r now c = true /\
     match (cfg_provider cfg (request_token r) w).1 with
     | Ok u => c' = cache_set c1 now' (request_token r) u
     | Err _ => c' = c1
     end).
Proof.
  cbn. unfold serve, asked. destruct (exempt _ _ r); [by left|].
  destruct (bool_decide (request_token r = [])); [by left|].
  destruct (cache_get c now (request_token r)) as [[u|] c1]; cbn; [by right; left|right; right].
  by destruct (cfg_provider cfg (request_token r) w) as [[u|e] w1].
Qed.

Lemma reachable_inv cfg maxSize ttl c h : reachable cfg maxSize ttl c h ->
  cache_ok c /\ explained ttl c h /\ tc_maxSize c = Z.max 0 maxSize.
Proof.
  induction 1 as [|c h now now' r w _ (Hok & [Httl Hex] & Hmax)].
  { split; [apply cache_ok_new|]. split; [split; [done|]; intros k e H; cbn in H; by rewrite lookup_empty in H|].
    cbn. destruct (maxSize <=? 0)%Z eqn:E; bool_simpl; lia. }
  assert (explained ttl (cache_get c now (request_token r)).2 h) as [Httl1 Hex1].
  { split; [by rewrite cache_get_ttl|]. intros k e ?%cache_get_entries. by apply Hex. }
  unfold record. destruct (serve_cache cfg now now' r c w) as [[-> ->]|[[-> ->]|[-> Hp]]].
  - done.
  - split; [by apply cache_get_ok|]. by rewrite cache_get_max.
  - destruct (cfg_provider cfg (request_token r) w).1 as [u|]; rewrite Hp.
    + split; [by apply cache_set_ok, cache_get_ok|]. rewrite cache_set_max, cache_get_max.
      split; [|done]. split; [by rewrite cache_set_ttl|].
      intros k e [[-> ->]|H]%cache_set_entries; cbn.
      * exists now'. rewrite Httl1. split; [by left|done].
      * destruct (Hex1 k e H) as (t & Ht & He). exists t. split; [by right|done].
    + split; [by apply cache_get_ok|]. by rewrite cache_get_max.
Qed.
End History.

(** whatever requests a server handles, its cache stays well formed and
    within its bound: every cached key is listed once in the order, and there
    are at most [maxSize] entries (one, for a size of zero or less). *)
Theorem cache_bounded {U : GoUnicode} {W} (cfg : config W) maxSize ttl c h :
  reachable cfg maxSize ttl c h ->
  NoDup (tc_order c) /\ (forall k, k ∈ tc_order c <-> is_Some (tc_entries c !! k)) /\
  (Z.of_nat (size (tc_entries c)) <= Z.max 1 maxSize)%Z.
Proof. intros H. apply reachable_inv in H as ([Hn Hk Hs] & _ & Hm). rewrite Hm in Hs. repeat split; auto; try apply Hk. lia. Qed.

(** a request that reaches the handler with an identity was authenticated
    as that user by the provider, either just now or at most [ttl] ago for a
    token with the same hash; a request without a usable token, or one the
    provider rejects, never reaches it with an identity. *)
Theorem served_recently {U : GoUnicode} {W} (cfg : config W) maxSize ttl c h now now' r w u :
  reachable cfg maxSize ttl c h ->
  (serve cfg now now' r c w).1.1 = Served (Some u) ->
  (cfg_provider cfg (request_token r) w).1 = Ok u \/
  exists t, (hashToken (request_token r), u, t) ∈ h /\ (now <= t + ttl)%Z.
Proof.
  intros H Hs. apply reachable_inv in H as (_ & [_ Hex] & _).
  unfold serve in Hs. destruct (exempt _ _ r); [done|].
  assert (forall l, refuse r l <> Served (Some u)) as Hr.
  { intros l. unfold refuse, redirectBrowserToLogin. by destruct (_ || _). }
  destruct (bool_decide (request_token r = [])); [by apply Hr in Hs|].
  destruct (cache_get c now (request_token r)) as [[u'|] c1] eqn:Eg.
  - injection Hs as ->. right. unfold cache_get in Eg.
    destruct (tc_entries c !! _) as [e|] eqn:Ee; [|done]. destruct (_ <? _)%Z eqn:El; [done|].
    injection Eg as <- _. destruct (Hex _ _ Ee) as (t & Ht & He). exists t. bool_simpl. split; [done|lia].
  - destruct (cfg_provider cfg (request_token r) w) as [[u'|e] w1].
    + injection Hs as ->. by left.
    + by apply Hr in Hs.
Qed.

(** a cache made with size zero, which is documented never to store an
    entry, stores the last user and serves it again. *)
Theorem zero_cache_stores token user ttl :
  (0 <= ttl)%Z ->
  (cache_get (cache_set (NewTokenCache 0 ttl) 0 token user) 0 token).1 = Some user.
Proof.
  intros H. unfold cache_set, NewTokenCache. cbn [tc_entries tc_order tc_maxSize tc_ttl].
  rewrite lookup_empty.
  set (p := if (_ <=? _)%Z then _ else _). assert (p = (∅, [])) as -> by (unfold p; by case_match).
  unfold cache_get. cbn [tc_entries]. rewrite lookup_insert_eq. cbn [ce_expiresAt].
  by rewrite (proj2 (Z.ltb_ge _ _)) by lia.
Qed.

(** ** The hypotheses hold *)
Definition demo_user : UserInfo := mkUser #"alice" #"1" [] [] ∅.
Definition demo_provider : provider unit := fun token w =>
  (if bool_decide (token = #"tok") then Ok demo_user else Err NoProviders, w).
Definition demo_cfg : config unit := mkConfig demo_provider [ #"/healthz"] [] [].
Definition demo_rq : request :=
  mkRequest #"GET" #"/api" #"/api" #"Bearer tok" [] None.
Definition demo_cache : TokenCache :=
  (serve (U := ascii_unicode) demo_cfg 0 1 demo_rq (NewTokenCache 10 60) tt).1.2.

Lemma demo_reachable : reachable (U := ascii_unicode) demo_cfg 10 60 demo_cache
  (record (U := ascii_unicode) demo_cfg demo_rq 0 1 (NewTokenCache 10 60) tt []).
Proof. apply reach_serve, reach_new. Qed.

Lemma cache_bounded_witness : (Z.of_nat (size (tc_entries demo_cache)) <= 10)%Z.
Proof. apply (cache_bounded demo_cfg 10 60 _ _ demo_reachable). Defined.

Lemma served_recently_witness :
  (serve (U := ascii_unicode) demo_cfg 0 1 demo_rq (NewTokenCache 10 60) tt).1.1 = Served (Some demo_user) /\
  ((cfg_provider demo_cfg (request_token (U := ascii_unicode) demo_rq) tt).1 = Ok demo_user \/
   exists t, (hashToken (request_token (U := ascii_unicode) demo_rq), demo_user, t) ∈
     ([] : list (gostring * UserInfo * Z)) /\ (0 <= t + 60)%Z).
Proof.
  assert (Hs : (serve (U := ascii_unicode) demo_cfg 0 1 demo_rq (NewTokenCache 10 60) tt).1.1
               = Served (Some demo_user)) by reflexivity.
  split; [exact Hs|].
  exact (served_recently (U := ascii_unicode) demo_cfg 10 60 _ [] 0 1 demo_rq tt demo_user
           (reach_new demo_cfg 10 60) Hs).
Defined.

Lemma zero_cache_stores_witness :
  (cache_get (cache_set (NewTokenCache 0 5) 0 #"tok" demo_user) 0 #"tok").1 = Some demo_user.
Proof. apply zero_cache_stores. lia. Defined.
