(* ===== verification/Authz.v ===== *)
(** * Authorization: [internal/server/authz.go]

    What an authenticated user may do: capability tokens are bound to their
    namespace, task and tools; other users go through a Kubernetes
    SubjectAccessReview, which is a parameter.  Audit events are outputs. *)

From S2P Require Import Prelude GoStrings GoPath AuthProvider.

(** ** Errors and audit events *)
Inductive connect_code :=
| CodeInvalidArgument | CodeUnauthenticated | CodePermissionDenied | CodeInternal | CodeNotFound | CodeAlreadyExists
| CodeAborted | CodeFailedPrecondition | CodeResourceExhausted | CodeUnavailable | CodeDeadlineExceeded | CodeCanceled
| CodeUnimplemented | CodeUnknown.
Inductive rpc_error := RpcError (code : connect_code) (msg : gostring).
#[global] Instance rpc_error_eq_dec : EqDecision rpc_error.
Proof. intros x y. unfold Decision. repeat decide equality. Defined.

Record audit_event := mkAudit {
  ae_event : gostring; ae_user : UserInfo; ae_verb : gostring; ae_resource : gostring; ae_namespace : gostring }.

(** A verdict and the audit events it produced; [audited] is
    [auditLogger != nil]. *)
Abbreviation verdict := (result rpc_error unit * list audit_event)%type.
Definition log_authz (audited : bool) (event : gostring) (u : UserInfo) (verb resource ns : gostring)
    : list audit_event :=
  if audited then [mkAudit event u verb resource ns] else [].
Definition denied (audited : bool) (u : UserInfo) (verb resource ns msg : gostring) : verdict :=
  (Err (RpcError CodePermissionDenied msg), log_authz audited #"authz.denied" u verb resource ns).
Definition allowed : verdict := (Ok tt, []).

(** ** [ValidateDNS1123Label], [ValidateNamespaceMatch] *)
Definition dns_alnum (c : ascii) : bool := is_lower c || is_digit c.
Definition dns_char (c : ascii) : bool := dns_alnum c || bool_decide (c = "-"%char).

(** [^[a-z0-9]([a-z0-9\-]{0,61}[a-z0-9])?$] *)
Definition dns1123LabelRegex (s : gostring) : bool :=
  match s with
  | [] => false
  | c :: rest =>
      dns_alnum c &&
      match last rest with
      | None => true
      | Some z => dns_alnum z && forallb dns_char (removelast rest) && (length (removelast rest) <=? 61)%nat
      end
  end.

Definition ValidateDNS1123Label (value field : gostring) : result rpc_error unit :=
  if bool_decide (value = []) then Err (RpcError CodeInvalidArgument (field ++ #" is required"))
  else if (63 <? length value)%nat then
    Err (RpcError CodeInvalidArgument (field ++ #" exceeds maximum length of 63 characters"))
  else if negb (dns1123LabelRegex value) then
    Err (RpcError CodeInvalidArgument
           (field ++ #" must be a valid DNS label (lowercase alphanumeric and hyphens)"))
  else Ok tt.

Definition ValidateNamespaceMatch (requestNS resourceNS : gostring) : result rpc_error unit :=
  if bool_decide (requestNS = []) then
    Err (RpcError CodeInvalidArgument #"request namespace is required")
  else if negb (bool_decide (resourceNS = [])) && negb (bool_decide (resourceNS = requestNS)) then
    Err (RpcError CodeInvalidArgument
           #"namespace mismatch: request namespace does not match resource namespace")
  else Ok tt.

(** ** Capability tokens *)
Definition isMacaroonUser (u : UserInfo) : bool :=
  if bool_decide (Extra u = ∅) then false
  else bool_decide (head (extra u ExtraKeyAuthType) = Some #"macaroon").

Definition eqs (a : gostring) (b : gostring) : bool := bool_decide (a = b).

(** The tools that allow a verb on a resource; [None] falls through to the
    generic names. *)
Definition known_tools (verb resource : gostring) : option (list gostring) :=
  if eqs resource #"environments" then
    if eqs verb #"get" then
      Some [ #"diverge_get_environment"; #"diverge_wait_for_ready"; #"diverge_fetch_errors";
             #"diverge_list_hook_jobs"; #"diverge_doctor"]
    else if eqs verb #"list" || eqs verb #"watch" then
      Some [ #"diverge_list_environments"; #"diverge_watch_environments"]
    else if eqs verb #"create" then Some [ #"diverge_create_environment"]
    else if eqs verb #"update" then Some [ #"diverge_update_environment"; #"diverge_extend_ttl"]
    else if eqs verb #"retry-hook" then Some [ #"diverge_retry_hook"]
    else if eqs verb #"delete" then Some [ #"diverge_delete_environment"]
    else None
  else if eqs resource #"jobs" then
    if eqs verb #"get" || eqs verb #"list" || eqs verb #"watch" then
      Some [ #"diverge_list_hook_jobs"; #"diverge_fetch_errors"]
    else if eqs verb #"retry-hook" then Some [ #"diverge_retry_hook"]
    else None
  else if eqs resource #"previewgroups" then
    if eqs verb #"get" then Some [ #"diverge_get_preview_group"]
    else if eqs verb #"list" || eqs verb #"watch" then
      Some [ #"diverge_list_preview_groups"; #"diverge_watch_preview_groups"]
    else if eqs verb #"create" then Some [ #"diverge_create_preview_group"]
    else if eqs verb #"update" then Some [ #"diverge_update_preview_group"]
    else if eqs verb #"delete" then Some [ #"diverge_delete_preview_group"]
    else None
  else if eqs resource #"agenttasks" then
    if eqs verb #"get" then Some [ #"diverge_get_task"; #"diverge_stream_task_logs"]
    else if eqs verb #"list" || eqs verb #"watch" then Some [ #"diverge_list_tasks"]
    else if eqs verb #"create" then Some [ #"diverge_create_task"]
    else if eqs verb #"update" then
      Some [ #"diverge_pause_task"; #"diverge_resume_task"; #"diverge_guide_task"]
    else if eqs verb #"delete" then Some [ #"diverge_delete_task"]
    else None
  else if eqs resource #"pods/log" then
    Some [ #"diverge_stream_logs"; #"diverge_stream_task_logs"; #"diverge_fetch_errors";
           #"diverge_get_task"; #"diverge_get_environment"]
  else None.

Definition candidateToolsForAction (verb resource : gostring) : list gostring :=
  match known_tools verb resource with
  | Some tools => tools
  | None =>
      let singular := TrimSuffix resource #"s" in
      [ #"diverge_" ++ verb ++ #"_" ++ singular; #"diverge_" ++ verb ++ #"_" ++ resource]
  end.

Definition authorizeMacaroon (audited : bool) (u : UserInfo) (verb namespace resource denialMsg : gostring)
    : verdict :=
  let boundNS := extra_first u ExtraKeyNamespace in
  if eqs resource #"agenttasks" && negb (eqs verb #"get") then
    denied audited u verb resource namespace denialMsg
  else if bool_decide (boundNS = []) || bool_decide (namespace = []) || negb (eqs namespace boundNS) then
    denied audited u verb resource namespace denialMsg
  else if existsb (fun pattern => existsb (matches pattern) (candidateToolsForAction verb resource))
            (extra u ExtraKeyAllowedTools)
       then allowed
       else denied audited u verb resource namespace denialMsg.

Definition unauthenticated : verdict := (Err (RpcError CodeUnauthenticated #"not authenticated"), []).

(** [user] is [auth.UserInfoFromContext(ctx)]. *)
Definition AuthorizeTaskObjectAccess (audited : bool) (user : option UserInfo)
    (verb namespace taskName : gostring) : verdict :=
  match user with
  | None => unauthenticated
  | Some u =>
      if negb (isMacaroonUser u) then allowed
      else
        let boundTask := extra_first u ExtraKeyTaskID in
        if bool_decide (boundTask = []) || bool_decide (taskName = []) || negb (eqs boundTask taskName)
        then denied audited u verb #"agenttasks" namespace #"permission denied"
        else allowed
  end.

(** ** Access reviews *)
Record attrs := mkAttrs {
  at_namespace : gostring; at_verb : gostring; at_group : gostring; at_resource : gostring;
  at_subresource : gostring }.

Section Review.
(** The API server's answer to a review: [None] when the call fails. *)
Context (review : UserInfo -> attrs -> option bool).

Definition attrs_resource (a : attrs) : gostring :=
  if bool_decide (at_subresource a = []) then at_resource a else at_resource a ++ #"/" ++ at_subresource a.

Definition checkSAR (audited : bool) (u : UserInfo) (a : attrs) (denialMsg : gostring) : verdict :=
  match review u a with
  | None => (Err (RpcError CodeInternal #"authorization check failed"),
             log_authz audited #"authz.error" u (at_verb a) (attrs_resource a) (at_namespace a))
  | Some true => allowed
  | Some false => denied audited u (at_verb a) (attrs_resource a) (at_namespace a) denialMsg
  end.

Definition group : gostring := #"divergedev.com".

Definition AuthorizeAction (audited : bool) (user : option UserInfo) (verb namespace resource : gostring) : verdict :=
  match user with
  | None => unauthenticated
  | Some u =>
      if isMacaroonUser u then authorizeMacaroon audited u verb namespace resource #"permission denied"
      else checkSAR audited u (mkAttrs namespace verb group resource []) #"permission denied"
  end.

Definition and_then (a b : verdict) : verdict :=
  match a with (Ok _, l) => (b.1, l ++ b.2) | (Err e, l) => (Err e, l) end.

Definition AuthorizeRetryHook (audited : bool) (user : option UserInfo) (namespace : gostring) : verdict :=
  match user with
  | None => unauthenticated
  | Some u =>
      if isMacaroonUser u
      then authorizeMacaroon audited u #"retry-hook" namespace #"environments" #"permission denied"
      else and_then (AuthorizeAction audited user #"create" namespace #"jobs")
             (AuthorizeAction audited user #"update" namespace #"environments")
  end.

Definition podLogsDenial : gostring := #"permission denied: requires get access to pods/log".
Definition AuthorizePodLogs (audited : bool) (user : option UserInfo) (namespace : gostring) : verdict :=
  match user with
  | None => unauthenticated
  | Some u =>
      if isMacaroonUser u then authorizeMacaroon audited u #"get" namespace #"pods/log" podLogsDenial
      else checkSAR audited u (mkAttrs namespace #"get" [] #"pods" #"log") podLogsDenial
  end.
End Review.
