(* ===== verification/AuthFacts.v ===== *)
(** * Authentication and authorization are sound end to end *)

From S2P Require Import Prelude GoStrings GoPath GoCrypto GoFloat GoJSON GoTime.
From S2P Require Import Macaroon MacaroonFacts MacaroonExamples.
From S2P Require Import TokenStore AuthProvider Authz.

(** ** [Authenticate] *)
Lemma caveat_prefix_spec stored presented :
  caveat_prefix stored presented = true <-> stored `prefix_of` presented.
Proof.
  revert presented. induction stored as [|c stored IH]; intros [|d presented]; cbn.
  - split; [by intros _|done].
  - split; [|done]. intros _. apply prefix_nil.
  - split; [done|]. intros H. by apply prefix_nil_not in H.
  - rewrite andb_true_iff, IH, bool_decide_eq_true. split.
    + intros [-> H]. by apply prefix_cons.
    + intros H. split; [by apply prefix_cons_inv_1 in H|by apply prefix_cons_inv_2 in H].
Qed.

(** A presented token descends from a stored one: same task, and the stored
    chain is a prefix of its chain. *)
Definition descends (mac : Macaroon) (storedRaw : gostring) : Prop :=
  exists decoded stored, decodeMacaroonToken storedRaw = Some decoded /\ unmarshal decoded = Some stored /\
    TokenID stored <> [] /\ TokenID mac = TokenID stored /\ CaveatSeq stored `prefix_of` CaveatSeq mac.

Lemma matchesStoredRootToken_spec mac raw : matchesStoredRootToken mac raw = true <-> descends mac raw.
Proof.
  unfold matchesStoredRootToken, descends. destruct (decodeMacaroonToken raw) as [d|]; cycle 1.
  { split; [done|]. by intros (? & ? & ? & _). }
  destruct (unmarshal d) as [st|] eqn:Eu; cycle 1.
  { split; [done|]. intros (? & ? & [= <-] & H & _). congruence. }
  destruct (_ || _) eqn:E1.
  { split; [done|]. intros (? & ? & [= <-] & H & Hne & Heq & _). rewrite Eu in H. injection H as <-.
    by rewrite (bool_decide_eq_false_2 _ Hne), (bool_decide_eq_true_2 _ Heq) in E1. }
  bool_simpl. destruct (_ <? _)%nat eqn:E2; bool_simpl.
  { split; [done|]. intros (? & ? & [= <-] & H' & _ & _ & Hp). rewrite Eu in H'. injection H' as <-.
    apply prefix_length in Hp. lia. }
  rewrite caveat_prefix_spec. split; [eauto 10|].
  intros (? & ? & [= <-] & H' & _ & _ & Hp). rewrite Eu in H'. by injection H' as <-.
Qed.

Section Auth.
Context {U : GoUnicode} {W : Type} {T : TokenStore W}.

Lemma check_stored_Ok with_store mac tid ns w w' :
  check_stored with_store mac tid ns w = (Ok tt, w') ->
  with_store = false \/ exists raw, GetToken tid ns w = (Ok raw, w') /\ descends mac raw.
Proof.
  unfold check_stored. destruct with_store; [|by left]. intros H. right.
  destruct (GetToken tid ns w) as [[raw|[]] w1]; try done.
  destruct (matchesStoredRootToken mac raw) eqn:E; [|done]. injection H as <-.
  exists raw. split; [done|]. by apply matchesStoredRootToken_spec.
Qed.

Lemma Authenticate_Ok prov ws k8s now token w u w' :
  Authenticate prov ws k8s now token w = (Ok u, w') ->
  exists key raw mac cl, prov = Some key /\ decodeMacaroonToken token = Some raw /\
    VerifyAndExtract key now raw = Ok (mac, cl) /\ Namespace cl <> [] /\
    u = macaroon_user (Namespace cl) cl /\
    (ws = false \/ exists stored, GetToken (TaskID cl) (Namespace cl) w = (Ok stored, w') /\ descends mac stored) /\
    check_task k8s (TaskID cl) (Namespace cl) = Ok tt.
Proof.
  unfold Authenticate. destruct prov as [key|]; [|done].
  destruct (decodeMacaroonToken token) as [raw|]; [|done].
  destruct (VerifyAndExtract key now raw) as [[mac cl]|] eqn:Ev; [|done].
  destruct (VerifyAndExtract_facts _ _ _ _ _ Ev) as (_ & _ & _ & _ & _ & _ & _ & Hns & _).
  rewrite (bool_decide_eq_false_2 _ Hns).
  destruct (check_stored _ _ _ _ _) as [[[]|] w1] eqn:Es; [|done].
  destruct (check_task _ _ _) as [[]|] eqn:Et; [|done]. intros [= <- <-].
  apply check_stored_Ok in Es. eauto 15.
Qed.
End Auth.

Lemma macaroon_user_extra ns cl :
  let u := macaroon_user ns cl in
  isMacaroonUser u = true /\ UID u = TaskID cl /\
  extra u ExtraKeyTaskID = [TaskID cl] /\ extra u ExtraKeyNamespace = [ns] /\
  extra u ExtraKeyAllowedTools = (if decide (AllowedTools cl = []) then default_tools else AllowedTools cl).
Proof.
  cbn. assert (extra (macaroon_user ns cl) ExtraKeyAuthType = [ #"macaroon"]) as Ha.
  { unfold extra, macaroon_user; cbn [Extra]. by rewrite lookup_insert_eq. }
  split.
  - unfold isMacaroonUser. rewrite Ha. rewrite bool_decide_eq_false_2; [done|].
    intros He. unfold extra in Ha. by rewrite He, lookup_empty in Ha.
  - split; [done|]. unfold extra, macaroon_user; cbn [Extra].
    repeat split; repeat first [rewrite lookup_insert_eq | rewrite lookup_insert_ne by (vm_compute; discriminate)];
      [done..|]. cbn. by case_bool_decide; case_decide.
Qed.

(** an authenticated capability token was verified under the root key, is
    or descends from the token the store holds for its task, and names a
    running task; the identity is bound to the task and namespace of its
    caveats. *)
Theorem Authenticate_sound {U : GoUnicode} {W} {T : TokenStore W} prov k8s now token w u w' :
  Authenticate prov true k8s now token w = (Ok u, w') ->
  exists key raw mac cl stored, prov = Some key /\ decodeMacaroonToken token = Some raw /\
    VerifyAndExtract key now raw = Ok (mac, cl) /\
    GetToken (TaskID cl) (Namespace cl) w = (Ok stored, w') /\ descends mac stored /\
    check_task k8s (TaskID cl) (Namespace cl) = Ok tt /\
    isMacaroonUser u = true /\ UID u = TaskID cl /\
    extra u ExtraKeyTaskID = [TaskID cl] /\ extra u ExtraKeyNamespace = [Namespace cl] /\
    extra u ExtraKeyAllowedTools = (if decide (AllowedTools cl = []) then default_tools else AllowedTools cl).
Proof.
  intros (key & raw & mac & cl & -> & Hd & Hv & Hns & -> & [?|(st & Hg & Hdesc)] & Ht)%Authenticate_Ok; [done|].
  exists key, raw, mac, cl, st. repeat (split; [done|]). apply macaroon_user_extra.
Qed.

(** C10: revocation is immediate for a server with a store: after a successful
    [RevokeToken] no token of that task and namespace authenticates, whatever
    store implements the interface. *)
Theorem revoked_cannot_authenticate {U : GoUnicode} {W} {T : TokenStore W} {L : TokenStoreLaws W}
    prov k8s now token tid ns w0 w u w' :
  RevokeToken tid ns w0 = (Ok tt, w) ->
  Authenticate prov true k8s now token w = (Ok u, w') ->
  (UID u, extra u ExtraKeyNamespace) <> (tid, [ns]).
Proof.
  intros Hr (key & raw & mac & cl & -> & Hd & Hv & Hns & -> & [?|(st & Hg & Hdesc)] & Ht)%Authenticate_Ok; [done|].
  destruct (macaroon_user_extra (Namespace cl) cl) as (_ & _ & _ & Hn & _).
  rewrite Hn. cbn [macaroon_user UID]. intros [= <- <-].
  destruct (revoke_get _ _ _ _ Hr) as [H|H]; rewrite Hg in H; done.
Qed.

(** ** [authorizeMacaroon] *)
(** What a capability token must have for an action to be allowed. *)
Definition permitted (u : UserInfo) (verb namespace resource : gostring) : Prop :=
  (resource = #"agenttasks" -> verb = #"get") /\
  namespace <> [] /\ extra_first u ExtraKeyNamespace = namespace /\
  exists pattern tool, pattern ∈ extra u ExtraKeyAllowedTools /\
    tool ∈ candidateToolsForAction verb resource /\ matches pattern tool = true.

Lemma authorizeMacaroon_cases audited u verb namespace resource msg :
  (permitted u verb namespace resource /\ authorizeMacaroon audited u verb namespace resource msg = allowed) \/
  (~ permitted u verb namespace resource /\
   authorizeMacaroon audited u verb namespace resource msg = denied audited u verb resource namespace msg).
Proof.
  unfold authorizeMacaroon, permitted, eqs.
  destruct (bool_decide (resource = #"agenttasks") && negb (bool_decide (verb = #"get"))) eqn:E1.
  { right. split; [|done]. bool_simpl. naive_solver. }
  assert (resource = #"agenttasks" -> verb = #"get") as Hget.
  { bool_simpl. destruct E1 as [E1|E1]; bool_simpl; done. }
  destruct (_ || _) eqn:E2.
  { right. split; [|done]. intros (_ & Hne & <- & _).
    by rewrite (bool_decide_eq_false_2 _ Hne), bool_decide_eq_true_2 in E2. }
  bool_simpl. destruct (existsb _ _) eqn:E3; [left|right]; (split; [|done]).
  - apply existsb_exists in E3 as (p & Hp & (t & Ht & Hm)%existsb_exists).
    repeat (split; [done|]). exists p, t. by rewrite !list_elem_of_In.
  - intros (_ & _ & _ & p & t & Hp & Ht & Hm). apply not_true_iff_false in E3. apply E3.
    apply existsb_exists. exists p. split; [by apply list_elem_of_In|].
    apply existsb_exists. exists t. split; [by apply list_elem_of_In|done].
Qed.

(** a capability token is allowed exactly the actions its namespace and
    tools permit; every other request is denied with the caller's message and
    leaves one audit event. *)
Theorem authorizeMacaroon_spec audited u verb namespace resource msg :
  (permitted u verb namespace resource /\ authorizeMacaroon audited u verb namespace resource msg = allowed) \/
  (~ permitted u verb namespace resource /\
   authorizeMacaroon audited u verb namespace resource msg = denied audited u verb resource namespace msg).
Proof. apply authorizeMacaroon_cases. Qed.

(** C1: end to end, a bearer of a capability token can only act in the
    namespace its token was minted for, can only read agent tasks, and needs a
    tool its caveats allow. *)
Theorem capability_confined {U : GoUnicode} {W} {T : TokenStore W} review audited
    key k8s now token w u w' verb namespace resource l :
  Authenticate (Some key) true k8s now token w = (Ok u, w') ->
  AuthorizeAction review audited (Some u) verb namespace resource = (Ok tt, l) ->
  exists raw mac cl, decodeMacaroonToken token = Some raw /\
    VerifyAndExtract key now raw = Ok (mac, cl) /\ namespace = Namespace cl /\
    (resource = #"agenttasks" -> verb = #"get") /\
    exists pattern tool, tool ∈ candidateToolsForAction verb resource /\ matches pattern tool = true /\
      pattern ∈ (if decide (AllowedTools cl = []) then default_tools else AllowedTools cl).
Proof.
  intros (k & raw & mac & cl & [= <-] & Hd & Hv & Hns & -> & _ & _)%Authenticate_Ok Ha.
  destruct (macaroon_user_extra (Namespace cl) cl) as (Hm & _ & _ & Hn & Htools).
  unfold AuthorizeAction in Ha. rewrite Hm in Ha.
  destruct (authorizeMacaroon_cases audited (macaroon_user (Namespace cl) cl) verb namespace resource
              #"permission denied") as [[Hp _]|[_ Hden]]; [|rewrite Hden in Ha; done].
  destruct Hp as (Hget & Hne & Hnseq & pattern & tool & Hpat & Htool & Hmatch).
  unfold extra_first in Hnseq. rewrite Hn in Hnseq. cbn in Hnseq. rewrite Htools in Hpat.
  exists raw, mac, cl. repeat (split; [done|]). eauto 10.
Qed.

(** the task a capability token reads is its own. *)
Theorem task_access_own {U : GoUnicode} {W} {T : TokenStore W} audited key k8s now token w u w' verb ns name l :
  Authenticate (Some key) true k8s now token w = (Ok u, w') ->
  AuthorizeTaskObjectAccess audited (Some u) verb ns name = (Ok tt, l) -> name = UID u.
Proof.
  intros (k & raw & mac & cl & [= <-] & Hd & Hv & Hns & -> & _ & _)%Authenticate_Ok Ha.
  destruct (macaroon_user_extra (Namespace cl) cl) as (Hm & -> & Ht & _ & _).
  unfold AuthorizeTaskObjectAccess in Ha. rewrite Hm in Ha. cbn [negb] in Ha.
  unfold extra_first in Ha. rewrite Ht in Ha. cbn [head default] in Ha.
  destruct (_ || _) eqn:E; [done|]. bool_simpl. unfold eqs in *. by bool_simpl.
Qed.

(** ** Names *)
Definition dns_label (s : gostring) : Prop :=
  (1 <= length s <= 63)%nat /\ Forall (fun c => dns_char c = true) s /\
  exists a z, head s = Some a /\ last s = Some z /\ dns_alnum a = true /\ dns_alnum z = true.

Lemma dns_regex_spec s : (length s <= 63)%nat -> dns1123LabelRegex s = true <-> dns_label s.
Proof.
  intros Hlen. unfold dns_label. destruct s as [|c rest].
  { split; [done|]. intros [H _]. cbn in H. lia. }
  cbn [dns1123LabelRegex length head]. destruct (last rest) as [z|] eqn:Ez.
  - apply last_Some in Ez as [m ->]. rewrite removelast_last, !andb_true_iff, forallb_forall, Nat.leb_le.
    cbn in Hlen. rewrite length_app in Hlen. cbn in Hlen. rewrite Forall_cons, Forall_app, Forall_singleton, Forall_forall.
    change (c :: m ++ [z]) with ((c :: m) ++ [z]). rewrite last_snoc.
    assert (forall a, dns_alnum a = true -> dns_char a = true) as Hd by (unfold dns_char; by intros a ->).
    setoid_rewrite list_elem_of_In. split.
    + intros (Hc & (Hz & Hm) & _). rewrite length_app. cbn. split; [lia|].
      split; [auto|]. eauto 10.
    + intros (_ & (_ & Hm & _) & a & z' & [= <-] & [= <-] & Ha & Hz). repeat split; auto. lia.
  - apply last_None in Ez as ->. rewrite andb_true_r. split.
    + intros Hc. split; [cbn; lia|]. split; [|by exists c, c]. constructor; [|constructor]. unfold dns_char. by rewrite Hc.
    + by intros (_ & _ & a & z & [= <-] & _ & Ha & _).
Qed.

(** a name is accepted exactly when it is an RFC 1123 label; anything else
    is an invalid argument that names the field. *)
Theorem ValidateDNS1123Label_spec value field :
  (ValidateDNS1123Label value field = Ok tt <-> dns_label value) /\
  (forall e, ValidateDNS1123Label value field = Err e ->
     exists why, e = RpcError CodeInvalidArgument (field ++ why)).
Proof.
  unfold ValidateDNS1123Label. case_bool_decide as E1.
  { subst. split; [|intros ? [= <-]; eauto]. split; [done|]. intros [H _]. cbn in H. lia. }
  destruct (63 <? length value)%nat eqn:E2; bool_simpl.
  { split; [|intros ? [= <-]; eauto]. split; [done|]. intros [H _]. lia. }
  rewrite <-(dns_regex_spec value) by done. destruct (dns1123LabelRegex value); cbn.
  - split; [done|]. by intros ?.
  - split; [done|]. intros ? [= <-]; eauto.
Qed.

(** ** A token through the provider *)
Lemma brace_space2 b : is_space2 b "}" = false.
Proof. unfold is_space2. cbn. apply andb_false_r. Qed.
Lemma brace_space3 b c : is_space3 b c "}" = false.
Proof.
  unfold is_space3. change (byteval "}") with 125%Z.
  repeat (case_match; try reflexivity).
Qed.
Lemma TrimSpace_braces s : TrimSpace ("{"%char :: s ++ #"}") = "{"%char :: s ++ #"}".
Proof.
  unfold TrimSpace. assert (trim_space_left ("{"%char :: s ++ #"}") = "{"%char :: s ++ #"}") as ->.
  { cbn. by destruct (s ++ _) as [|b [|c t]]. }
  change ("{"%char :: s ++ #"}") with (("{"%char :: s) ++ ["}"%char]). rewrite reverse_app.
  assert (forall t, trim_space_rev ("}"%char :: t) = "}"%char :: t) as H.
  { intros [|b [|c t]]; cbn [trim_space_rev]; rewrite ?brace_space2, ?brace_space3; reflexivity. }
  change (reverse ["}"%char]) with ["}"%char]. cbn [app]. rewrite H.
  rewrite reverse_cons, reverse_involutive. done.
Qed.

Lemma Serialize_braces m : exists s, Serialize m = "{"%char :: s ++ #"}".
Proof. unfold Serialize. rewrite !app_assoc. rewrite <-!(app_assoc #"{"). eexists. reflexivity. Qed.
Lemma decodeMacaroonToken_Serialize m : decodeMacaroonToken (Serialize m) = Some (Serialize m).
Proof. destruct (Serialize_braces m) as [s Hs]. unfold decodeMacaroonToken. by rewrite Hs, TrimSpace_braces. Qed.

(** ** The hypotheses hold *)
#[local] Existing Instance ascii_unicode.

Definition demo_state : Memory.t :=
  (SaveToken (W := Memory.t) #"task-1" #"default" demo_raw Memory.NewInMemoryTokenStore).2.
Definition demo_identity : UserInfo := macaroon_user #"default" demo_extracted.

Lemma demo_saved_token :
  SaveToken (W := Memory.t) #"task-1" #"default" demo_raw Memory.NewInMemoryTokenStore = (Ok tt, demo_state).
Proof. apply surjective_pairing. Qed.

Lemma demo_stored : GetToken #"task-1" #"default" demo_state = (Ok demo_raw, demo_state).
Proof.
  apply injective_projections; [|apply get_pure].
  destruct (save_get _ _ _ _ _ demo_saved_token ltac:(discriminate))
    as [H|H]; [exact H|].
  cbn in H. unfold Memory.is_revoked in H. cbn in H. by repeat case_match.
Qed.

Lemma demo_descends : descends demo_mac demo_raw.
Proof.
  exists demo_raw, demo_mac. split; [apply decodeMacaroonToken_Serialize|]. split; [apply demo_parses|].
  split; [discriminate|]. done.
Qed.

Lemma demo_authenticates :
  Authenticate (Some (Some demo_key)) true None 1000 demo_raw demo_state = (Ok demo_identity, demo_state).
Proof.
  unfold Authenticate. unfold demo_raw at 1. rewrite decodeMacaroonToken_Serialize. fold demo_raw.
  rewrite demo_extracts. unfold check_stored.
  change (if bool_decide (Namespace demo_extracted = []) then _ else _) with #"default".
  change (TaskID demo_extracted) with #"task-1". rewrite demo_stored.
  by rewrite (proj2 (matchesStoredRootToken_spec _ _) demo_descends).
Qed.

Lemma Authenticate_sound_witness :
  UID demo_identity = #"task-1" /\
  exists key raw mac cl stored, Some (Some demo_key) = Some key /\ decodeMacaroonToken demo_raw = Some raw /\
    VerifyAndExtract key 1000 raw = Ok (mac, cl) /\ descends mac stored.
Proof.
  split; [reflexivity|].
  destruct (Authenticate_sound _ _ _ _ _ _ _ demo_authenticates)
    as (key & raw & mac & cl & stored & H1 & H2 & H3 & _ & H5 & _).
  exists key, raw, mac, cl, stored. exact (conj H1 (conj H2 (conj H3 H5))).
Defined.

(** Another task's token still authenticates after this one is revoked. *)
Definition demo_revoked_state : Memory.t :=
  (RevokeToken (W := Memory.t) #"task-2" #"default" demo_state).2.
Lemma demo_still_stored :
  GetToken #"task-1" #"default" demo_revoked_state = (Ok demo_raw, demo_revoked_state).
Proof.
  cbn. unfold Memory.get_token, Memory.is_revoked, demo_revoked_state, demo_state. cbn.
  rewrite lookup_insert_ne by (vm_compute; discriminate).
  rewrite delete_empty, lookup_empty, lookup_insert_eq. reflexivity.
Qed.

Lemma revoked_cannot_authenticate_witness :
  Authenticate (Some (Some demo_key)) true None 1000 demo_raw demo_revoked_state =
    (Ok demo_identity, demo_revoked_state) /\
  (UID demo_identity, extra demo_identity ExtraKeyNamespace) <> (#"task-2", [ #"default"]).
Proof.
  assert (H : Authenticate (Some (Some demo_key)) true None 1000 demo_raw demo_revoked_state =
    (Ok demo_identity, demo_revoked_state)).
  { unfold Authenticate. unfold demo_raw at 1. rewrite decodeMacaroonToken_Serialize. fold demo_raw.
    rewrite demo_extracts. unfold check_stored.
    change (if bool_decide (Namespace demo_extracted = []) then _ else _) with #"default".
    change (TaskID demo_extracted) with #"task-1". rewrite demo_still_stored.
    by rewrite (proj2 (matchesStoredRootToken_spec _ _) demo_descends). }
  split; [exact H|].
  exact (revoked_cannot_authenticate _ _ _ _ #"task-2" #"default" demo_state _ _ _ (surjective_pairing _) H).
Defined.

Lemma capability_confined_witness :
  AuthorizeAction (fun _ _ => None) true (Some demo_identity) #"get" #"default" #"agenttasks" = (Ok tt, []) /\
  #"default" = Namespace demo_extracted.
Proof.
  assert (H : AuthorizeAction (fun _ _ => None) true (Some demo_identity) #"get" #"default" #"agenttasks" = (Ok tt, []))
    by (vm_compute; reflexivity).
  split; [exact H|].
  destruct (capability_confined _ _ _ _ _ _ _ _ _ _ _ _ _ demo_authenticates H)
    as (raw & mac & cl & H1 & H2 & Hns & _).
  unfold demo_raw in H1. rewrite decodeMacaroonToken_Serialize in H1. injection H1 as <-.
  fold demo_raw in H2. rewrite demo_extracts in H2. injection H2 as _ <-. exact Hns.
Defined.

Lemma task_access_own_witness :
  AuthorizeTaskObjectAccess true (Some demo_identity) #"get" #"default" #"task-1" = (Ok tt, []) /\
  #"task-1" = UID demo_identity.
Proof.
  assert (H : AuthorizeTaskObjectAccess true (Some demo_identity) #"get" #"default" #"task-1" = (Ok tt, []))
    by (vm_compute; reflexivity).
  split; [exact H|].
  exact (task_access_own _ _ _ _ _ _ _ _ _ _ _ _ demo_authenticates H).
Defined.
