(* ===== verification/StreamLimiter.v ===== *)
(** * Stream limits: [internal/server/stream_limiter.go]

    A per-user and a global cap on concurrent streams.  Each successful
    [Acquire] hands out a release function; the closures are modelled by the
    list of handles, each with its user and its [sync.Once] flag.  Every
    operation runs under the mutex, so an execution is a sequence of them. *)

From S2P Require Import Prelude GoStrings AuthProvider Authz.

(** ** The limiter *)
Record limiter := mkLimiter {
  maxGlobal : Z;
  maxPerUser : Z;
  global : Z;
  perUser : gmap gostring Z }.

(** [None] is the panic of the constructor. *)
Definition NewStreamLimiter (maxG maxU : Z) : option limiter :=
  if (maxG <=? 0)%Z then None
  else if (maxU <=? 0)%Z then None
  else if (maxG <? maxU)%Z then None
  else Some (mkLimiter maxG maxU 0 ∅).

Definition count (l : limiter) (u : gostring) : Z := default 0%Z (perUser l !! u).

Inductive limit_error := StreamUnauthenticated | ExhaustedPerUser (u : gostring) | ExhaustedGlobal.
(** Metric callbacks, in order. *)
Inductive metric := IncActive | DecActive | RejectedBy (reason : gostring).

Definition Acquire (user : option UserInfo) (l : limiter) : result limit_error gostring * limiter * list metric :=
  match user with
  | None => (Err StreamUnauthenticated, l, [])
  | Some ui =>
      let username := Username ui in
      if bool_decide (username = []) then (Err StreamUnauthenticated, l, [])
      else if (maxPerUser l <=? count l username)%Z then
        (Err (ExhaustedPerUser username), l, [RejectedBy #"per_user"])
      else if (maxGlobal l <=? global l)%Z then (Err ExhaustedGlobal, l, [RejectedBy #"global"])
      else (Ok username,
            mkLimiter (maxGlobal l) (maxPerUser l) (global l + 1)
              (<[username := (count l username + 1)%Z]> (perUser l)), [IncActive])
  end.

(** The body of a release function, run once. *)
Definition release_body (username : gostring) (l : limiter) : limiter * list metric :=
  let n := (count l username - 1)%Z in
  let m := <[username := n]> (perUser l) in
  (mkLimiter (maxGlobal l) (maxPerUser l) (global l - 1) (if (n =? 0)%Z then delete username m else m),
   [DecActive]).

Definition ActiveStreams (l : limiter) : Z := global l.
Definition ActiveStreamsForUser (l : limiter) (u : gostring) : Z := count l u.

(** ** Executions *)
(** A handle: the user it was given to, and whether its [sync.Once] has
    fired. *)
Record handle := mkHandle { h_user : gostring; h_done : bool }.
Record system := mkSystem { sy_limiter : limiter; sy_handles : list handle; sy_metrics : list metric }.
Inductive op := OpAcquire (user : option UserInfo) | OpRelease (i : nat).

Definition run_op (o : op) (s : system) : system :=
  match o with
  | OpAcquire user =>
      let '(r, l, m) := Acquire user (sy_limiter s) in
      mkSystem l (match r with Ok u => sy_handles s ++ [mkHandle u false] | Err _ => sy_handles s end)
        (sy_metrics s ++ m)
  | OpRelease i =>
      match sy_handles s !! i with
      | Some h =>
          if h_done h then s
          else let '(l, m) := release_body (h_user h) (sy_limiter s) in
               mkSystem l (<[i := mkHandle (h_user h) true]> (sy_handles s)) (sy_metrics s ++ m)
      | None => s
      end
  end.
Definition run (ops : list op) (s : system) : system := fold_left (fun s o => run_op o s) ops s.

(** ** The books balance *)
Definition live (hs : list handle) : nat := length (filter (fun h => h_done h = false) hs).
Definition live_for (u : gostring) (hs : list handle) : nat :=
  length (filter (fun h => h_done h = false /\ h_user h = u) hs).
Definition active_metric (ms : list metric) : Z :=
  (Z.of_nat (length (List.filter (fun m => match m with IncActive => true | _ => false end) ms)) -
   Z.of_nat (length (List.filter (fun m => match m with DecActive => true | _ => false end) ms)))%Z.

Record books_balance (s : system) : Prop := {
  bal_global : global (sy_limiter s) = Z.of_nat (live (sy_handles s));
  bal_user : forall u, count (sy_limiter s) u = Z.of_nat (live_for u (sy_handles s));
  bal_positive : forall u n, perUser (sy_limiter s) !! u = Some n -> (0 < n)%Z;
  bal_caps : (Z.of_nat (live (sy_handles s)) <= maxGlobal (sy_limiter s))%Z /\
             forall u, (Z.of_nat (live_for u (sy_handles s)) <= maxPerUser (sy_limiter s))%Z;
  bal_metric : active_metric (sy_metrics s) = global (sy_limiter s) }.

Lemma live_app hs h : live (hs ++ [h]) = (live hs + if h_done h then 0 else 1)%nat.
Proof. unfold live. rewrite filter_app, length_app, filter_cons, filter_nil. destruct (h_done h); by case_decide. Qed.
Lemma live_for_app u hs h : live_for u (hs ++ [h]) =
  (live_for u hs + if h_done h then 0 else if decide (h_user h = u) then 1 else 0)%nat.
Proof.
  unfold live_for. rewrite filter_app, length_app, filter_cons, filter_nil.
  destruct (h_done h); repeat case_decide; cbn; naive_solver.
Qed.
Lemma live_release hs i h : hs !! i = Some h -> h_done h = false ->
  live hs = S (live (<[i := mkHandle (h_user h) true]> hs)).
Proof.
  intros H Hd. unfold live. rewrite <-(take_drop_middle _ _ _ H) at 1. rewrite insert_take_drop by eauto using lookup_lt_Some.
  rewrite !filter_app, !length_app, !filter_cons. rewrite decide_True, decide_False by (done || by cbn). cbn. lia.
Qed.
Lemma live_for_release u hs i h : hs !! i = Some h -> h_done h = false ->
  live_for u hs = (live_for u (<[i := mkHandle (h_user h) true]> hs) + if decide (h_user h = u) then 1 else 0)%nat.
Proof.
  intros H Hd. unfold live_for. rewrite <-(take_drop_middle _ _ _ H) at 1.
  rewrite insert_take_drop by eauto using lookup_lt_Some.
  rewrite !filter_app, !length_app, !filter_cons. cbn [h_done h_user].
  rewrite (decide_False (P := true = false /\ _)) by (by intros [? _]).
  destruct (decide (h_user h = u)) as [E|E].
  - rewrite decide_True by done. cbn. lia.
  - rewrite decide_False by (by intros [_ ?]). lia.
Qed.
Lemma active_metric_app ms ms' : active_metric (ms ++ ms') = (active_metric ms + active_metric ms')%Z.
Proof. unfold active_metric. rewrite !List.filter_app, !length_app. lia. Qed.

Lemma count_insert l u n v g : count (mkLimiter (maxGlobal l) (maxPerUser l) g (<[u := n]> (perUser l))) v =
  if decide (u = v) then n else count l v.
Proof. unfold count; cbn. rewrite lookup_insert. by case_decide. Qed.

Lemma release_count u l v : let l' := (release_body u l).1 in
  count l' v = if decide (u = v) then (count l u - 1)%Z else count l v.
Proof.
  unfold release_body, count; cbn. destruct (_ =? 0)%Z eqn:E; bool_simpl.
  - rewrite lookup_delete, lookup_insert. by repeat case_decide; cbn.
  - rewrite lookup_insert. by case_decide.
Qed.

Lemma acquire_balanced user s : books_balance s -> books_balance (run_op (OpAcquire user) s).
Proof.
  intros [Hg Hu Hp [Hcg Hcu] Hm]. cbn [run_op]. unfold Acquire.
  assert (forall m, active_metric m = 0%Z ->
    books_balance (mkSystem (sy_limiter s) (sy_handles s) (sy_metrics s ++ m))) as Hsame.
  { intros m Hz. split; cbn; [done..|by split|]. rewrite active_metric_app, Hz. lia. }
  destruct user as [ui|]; [|by apply Hsame].
  case_bool_decide as En; [by apply Hsame|].
  destruct (maxPerUser (sy_limiter s) <=? _)%Z eqn:E1; [by apply Hsame|].
  destruct (maxGlobal (sy_limiter s) <=? _)%Z eqn:E2; [by apply Hsame|]. bool_simpl.
  split; cbn [sy_limiter sy_handles sy_metrics global maxGlobal maxPerUser perUser].
  - rewrite live_app. cbn. lia.
  - intros v. rewrite count_insert, live_for_app. cbn [h_done h_user]. rewrite !Hu. case_decide; subst; lia.
  - intros v n. rewrite lookup_insert. case_decide as Ev; [|apply Hp]. intros [= <-]. rewrite Hu. lia.
  - rewrite live_app. cbn. rewrite Hu in E1. split; [lia|]. intros v. rewrite live_for_app. cbn.
    specialize (Hcu v). case_decide; subst; lia.
  - rewrite active_metric_app. change (active_metric [IncActive]) with 1%Z. lia.
Qed.

Lemma release_balanced i s : books_balance s -> books_balance (run_op (OpRelease i) s).
Proof.
  intros Hb. pose proof Hb as [Hg Hu Hp [Hcg Hcu] Hm]. cbn [run_op].
  destruct (sy_handles s !! i) as [h|] eqn:Eh; [|done]. destruct (h_done h) eqn:Ed; [done|].
  pose proof (live_release _ _ _ Eh Ed) as Hl. pose proof (fun u => live_for_release u _ _ _ Eh Ed) as Hlu.
  pose proof (release_count (h_user h) (sy_limiter s)) as Hc. cbn zeta in Hc.
  assert (forall u n, perUser (release_body (h_user h) (sy_limiter s)).1 !! u = Some n -> (0 < n)%Z) as Hpos.
  { intros v n H. specialize (Hc v). unfold count in Hc at 1. rewrite H in Hc. cbn in Hc. subst n.
    case_decide as E; subst.
    - specialize (Hlu (h_user h)). rewrite decide_True in Hlu by done. rewrite Hu.
      assert (live_for (h_user h) (<[i:=mkHandle (h_user h) true]> (sy_handles s)) <> 0%nat); [|lia].
      intros Hz. unfold release_body in H; cbn [fst perUser] in H. rewrite Hu, Hlu, Hz in H. cbn in H.
      by rewrite Z.eqb_refl, lookup_delete_eq in H || (cbn -[lookup delete insert] in H; by rewrite lookup_delete_eq in H).
    - unfold release_body in H; cbn [fst perUser] in H. apply (Hp v).
      destruct (_ =? 0)%Z; rewrite ?lookup_delete_ne, lookup_insert_ne in H by done;
        unfold count; by rewrite H. }
  unfold release_body in *. split; cbn [sy_limiter sy_handles sy_metrics fst global maxGlobal maxPerUser] in *.
  - lia.
  - intros v. rewrite Hc, !Hu. pose proof (Hlu v) as Hv. case_decide; subst; lia.
  - exact Hpos.
  - split; [lia|]. intros v. specialize (Hcu v). rewrite Hlu in Hcu. lia.
  - rewrite active_metric_app. change (active_metric [DecActive]) with (-1)%Z. lia.
Qed.

Lemma run_balanced ops s : books_balance s -> books_balance (run ops s).
Proof.
  revert s. induction ops as [|[user|i] ops IH]; intros s H; [done|..]; apply IH;
    [by apply acquire_balanced|by apply release_balanced].
Qed.

Lemma new_balanced maxG maxU l : NewStreamLimiter maxG maxU = Some l -> books_balance (mkSystem l [] []).
Proof.
  unfold NewStreamLimiter. destruct (maxG <=? 0)%Z eqn:E1; [done|]. destruct (maxU <=? 0)%Z eqn:E2; [done|].
  destruct (maxG <? maxU)%Z; [done|]. bool_simpl. intros [= <-].
  split; cbn [sy_limiter sy_handles sy_metrics global maxGlobal maxPerUser perUser].
  - done.
  - intros v. unfold count. cbn [perUser]. by rewrite lookup_empty.
  - intros v n. by rewrite lookup_empty.
  - change (live []) with 0%nat. split; [lia|]. intros v. change (live_for v []) with 0%nat. lia.
  - done.
Qed.

Lemma run_caps ops s : maxGlobal (sy_limiter (run ops s)) = maxGlobal (sy_limiter s) /\
  maxPerUser (sy_limiter (run ops s)) = maxPerUser (sy_limiter s).
Proof.
  revert s. induction ops as [|o ops IH]; intros s; [done|]. unfold run in *. cbn [fold_left]. rewrite !(proj1 (IH _)), !(proj2 (IH _)).
  destruct o as [user|i]; cbn [run_op].
  - unfold Acquire. by repeat case_match; simplify_eq.
  - unfold release_body. by repeat case_match; simplify_eq.
Qed.

(** over any interleaving of [Acquire] and release calls, released twice
    or not, the counters equal the numbers of live streams, no user exceeds
    the per-user cap, the server does not exceed the global cap, no user is
    kept with a zero count, and the active-streams metric agrees. *)
Theorem limiter_balanced maxG maxU l ops :
  NewStreamLimiter maxG maxU = Some l ->
  let s := run ops (mkSystem l [] []) in
  ActiveStreams (sy_limiter s) = Z.of_nat (live (sy_handles s)) /\
  (Z.of_nat (live (sy_handles s)) <= maxG)%Z /\
  (forall u, ActiveStreamsForUser (sy_limiter s) u = Z.of_nat (live_for u (sy_handles s)) /\
             (Z.of_nat (live_for u (sy_handles s)) <= maxU)%Z /\
             perUser (sy_limiter s) !! u <> Some 0%Z) /\
  active_metric (sy_metrics s) = ActiveStreams (sy_limiter s).
Proof.
  intros Hn s. pose proof (run_balanced ops _ (new_balanced _ _ _ Hn)) as [Hg Hu Hp [Hcg Hcu] Hm]. fold s in Hg, Hu, Hp, Hcg, Hcu, Hm.
  destruct (run_caps ops (mkSystem l [] [])) as [Hmg Hmu]. fold s in Hmg, Hmu.
  assert (maxGlobal l = maxG /\ maxPerUser l = maxU) as [<- <-].
  { unfold NewStreamLimiter in Hn. repeat case_match; simplify_eq. done. }
  rewrite Hmg in Hcg. split; [done|]. split; [done|]. split; [|done].
  intros u. split; [apply Hu|]. split; [specialize (Hcu u); rewrite Hmu in Hcu; exact Hcu|]. intros H%Hp. lia.
Qed.

(** [Acquire] grants a stream exactly when the named user and the server
    are under their caps; what is released can be acquired again. *)
Theorem Acquire_grants maxG maxU l ops user :
  NewStreamLimiter maxG maxU = Some l ->
  let s := run ops (mkSystem l [] []) in
  is_ok (Acquire user (sy_limiter s)).1.1 = true <->
  exists ui, user = Some ui /\ Username ui <> [] /\
    (Z.of_nat (live_for (Username ui) (sy_handles s)) < maxU)%Z /\ (Z.of_nat (live (sy_handles s)) < maxG)%Z.
Proof.
  intros Hn s. pose proof (run_balanced ops _ (new_balanced _ _ _ Hn)) as [Hg Hu Hp _ Hm]. fold s in Hg, Hu.
  destruct (run_caps ops (mkSystem l [] [])) as [Hmg Hmu]. fold s in Hmg, Hmu.
  assert (maxGlobal l = maxG /\ maxPerUser l = maxU) as [<- <-].
  { unfold NewStreamLimiter in Hn. repeat case_match; simplify_eq. done. }
  cbn in Hmg, Hmu. unfold Acquire. destruct user as [ui|]; [|split; [done|]; by intros (? & ? & _)].
  case_bool_decide as En; [split; [done|]; intros (? & [= <-] & ? & _); done|].
  rewrite Hu, Hg, Hmg, Hmu.
  destruct (_ <=? _)%Z eqn:E1; bool_simpl; cbn.
  { split; [done|]. intros (? & [= <-] & _ & ? & _). lia. }
  destruct (_ <=? _)%Z eqn:E2; bool_simpl; cbn.
  { split; [done|]. intros (? & [= <-] & _ & _ & ?). lia. }
  split; [|done]. intros _. exists ui. repeat split; [done|lia..].
Qed.

(** ** The hypotheses hold *)
Definition demo_limiter : limiter := mkLimiter 2 1 0 ∅.
Definition demo_ops : list op :=
  let u name := Some (mkUser name [] [] [] ∅) in
  [OpAcquire (u #"a"); OpAcquire (u #"a"); OpAcquire (u #"b"); OpRelease 0; OpRelease 0; OpAcquire (u #"a")].

Lemma limiter_balanced_witness :
  NewStreamLimiter 2 1 = Some demo_limiter /\
  (Z.of_nat (live (sy_handles (run demo_ops (mkSystem demo_limiter [] [])))) <= 2)%Z /\
  live (sy_handles (run demo_ops (mkSystem demo_limiter [] []))) = 2%nat.
Proof.
  split; [reflexivity|]. split; [|vm_compute; reflexivity].
  apply (limiter_balanced 2 1 demo_limiter demo_ops eq_refl).
Defined.

Lemma Acquire_grants_witness :
  is_ok (Acquire (Some (mkUser #"b" [] [] [] ∅)) (sy_limiter (run [] (mkSystem demo_limiter [] [])))).1.1 = true.
Proof.
  apply (Acquire_grants 2 1 demo_limiter [] (Some (mkUser #"b" [] [] [] ∅)) eq_refl).
  exists (mkUser #"b" [] [] [] ∅). repeat split; discriminate.
Defined.
