(* ===== verification/Broadcaster.v ===== *)
(** * Event broadcasting: [internal/server/streaming/broadcaster.go]

    Publishers, subscribers, the goroutine that unsubscribes on cancellation
    and [Close] run concurrently.  The lock makes each critical section one
    atomic step; a [Publish] holds the read lock over its loop, so the sends of
    several publishers interleave, and it drops slow subscribers after
    releasing it.  An execution is a sequence of steps; a send on, or a close
    of, a closed channel is a panic.  The identifiers of [uuid.New] are third
    party: a subscription is given one never used before. *)

From S2P Require Import Prelude GoStrings.

Section Broadcaster.
Context {Event : Type}.

(** A buffered channel, with all it has delivered to its reader. *)
Record channel := mkChannel {
  ch_buffer : list Event;
  ch_closed : bool;
  ch_received : list Event }.

(** A running [Publish]: in the loop over the subscribers, under the read
    lock ([pb_todo] to visit, [pb_drop] full), or dropping.  [pb_seen] is the
    set of subscribers the loop started with. *)
Inductive publisher :=
| Sending (ev : Event) (seen todo drop : list gostring)
| Dropping (ev : Event) (seen drop : list gostring).

Record broadcaster := mkBroadcaster {
  b_bufferSize : nat;
  b_closed : bool;
  b_subscribers : gset gostring;
  b_channels : gmap gostring channel;
  b_publishers : gmap nat publisher }.

Definition defaultBufferSize : nat := 1024.
(** [NewBroadcaster] with [WithBufferSize] options applied in order. *)
Definition NewBroadcaster (opts : list Z) : broadcaster :=
  mkBroadcaster (fold_left (fun size n => if (0 <? n)%Z then Z.to_nat n else size) opts defaultBufferSize)
    false ∅ ∅ ∅.

Inductive outcome (A : Type) := Next (a : A) | Blocked | Panic.
Arguments Next {A} a. Arguments Blocked {A}. Arguments Panic {A}.

(** Some publisher holds the read lock. *)
Definition read_locked (b : broadcaster) : bool :=
  existsb (fun '(_, p) => match p with Sending _ _ _ _ => true | Dropping _ _ _ => false end)
    (map_to_list (b_publishers b)).

Definition with_channels (b : broadcaster) (subs : gset gostring) (chs : gmap gostring channel) : broadcaster :=
  mkBroadcaster (b_bufferSize b) (b_closed b) subs chs (b_publishers b).
Definition with_publishers (b : broadcaster) (ps : gmap nat publisher) : broadcaster :=
  mkBroadcaster (b_bufferSize b) (b_closed b) (b_subscribers b) (b_channels b) ps.

(** [close(sub.ch)]: [None] is the panic on a closed channel. *)
Definition close_channel (c : channel) : option channel :=
  if ch_closed c then None else Some (mkChannel (ch_buffer c) true (ch_received c)).

(** [if sub, ok := b.subscribers[id]; ok { close(sub.ch); delete(...) }] *)
Definition Unsubscribe (id : gostring) (b : broadcaster) : outcome broadcaster :=
  if decide (id ∈ b_subscribers b) then
    match b_channels b !! id with
    | Some c =>
        match close_channel c with
        | Some c' => Next (with_channels b (b_subscribers b ∖ {[id]}) (<[id := c']> (b_channels b)))
        | None => Panic
        end
    | None => Panic
    end
  else Next b.

Definition Subscribe (id : gostring) (b : broadcaster) : outcome broadcaster :=
  if b_closed b then Next b
  else Next (with_channels b ({[id]} ∪ b_subscribers b) (<[id := mkChannel [] false []]> (b_channels b))).

Fixpoint close_all (ids : list gostring) (b : broadcaster) : outcome broadcaster :=
  match ids with
  | [] => Next b
  | id :: ids =>
      match Unsubscribe id b with
      | Next b => close_all ids b
      | r => r
      end
  end.
Definition Close (b : broadcaster) : outcome broadcaster :=
  if b_closed b then Next b
  else close_all (elements (b_subscribers b))
         (mkBroadcaster (b_bufferSize b) true (b_subscribers b) (b_channels b) (b_publishers b)).

(** The [select] of the loop: [true] when the event was sent. *)
Definition try_send (ev : Event) (size : nat) (c : channel) : outcome (channel * bool) :=
  if ch_closed c then Panic
  else if (length (ch_buffer c) <? size)%nat
       then Next (mkChannel (ch_buffer c ++ [ev]) false (ch_received c), true)
       else Next (c, false).

(** One step of a publisher. *)
Definition publish_step (t : nat) (b : broadcaster) : outcome broadcaster :=
  match b_publishers b !! t with
  | None => Blocked
  | Some (Sending ev seen (id :: todo) drop) =>
      match b_channels b !! id with
      | None => Panic
      | Some c =>
          match try_send ev (b_bufferSize b) c with
          | Next (c', sent) =>
              Next (mkBroadcaster (b_bufferSize b) (b_closed b) (b_subscribers b) (<[id := c']> (b_channels b))
                (<[t := Sending ev seen todo (if sent then drop else drop ++ [id])]> (b_publishers b)))
          | Blocked => Blocked
          | Panic => Panic
          end
      end
  | Some (Sending ev seen [] drop) => Next (with_publishers b (<[t := Dropping ev seen drop]> (b_publishers b)))
  | Some (Dropping ev seen (id :: drop)) =>
      if read_locked b then Blocked
      else match Unsubscribe id b with
           | Next b' => Next (with_publishers b' (<[t := Dropping ev seen drop]> (b_publishers b')))
           | r => r
           end
  | Some (Dropping ev seen []) => Next (with_publishers b (delete t (b_publishers b)))
  end.

(** The steps of an execution. *)
Inductive label :=
| LSubscribe (id : gostring)
| LUnsubscribe (id : gostring)
| LPublish (t : nat) (ev : Event) (order : list gostring)
| LStep (t : nat)
| LReceive (id : gostring)
| LClose.

Definition step (l : label) (b : broadcaster) : outcome broadcaster :=
  match l with
  | LSubscribe id =>
      if read_locked b then Blocked
      else if decide (id ∈ dom (b_channels b)) then Blocked
      else Subscribe id b
  | LUnsubscribe id => if read_locked b then Blocked else Unsubscribe id b
  | LPublish t ev order =>
      if b_closed b then Next b
      else match b_publishers b !! t with
           | Some _ => Blocked
           | None => if decide (Permutation order (elements (b_subscribers b)))
                     then Next (with_publishers b (<[t := Sending ev order order []]> (b_publishers b)))
                     else Blocked
           end
  | LStep t => publish_step t b
  | LReceive id =>
      match b_channels b !! id with
      | Some (mkChannel (ev :: buf) cl recv) =>
          Next (with_channels b (b_subscribers b) (<[id := mkChannel buf cl (recv ++ [ev])]> (b_channels b)))
      | _ => Blocked
      end
  | LClose => if read_locked b then Blocked else Close b
  end.

Inductive reachable (opts : list Z) : broadcaster -> Prop :=
| reachable_new : reachable opts (NewBroadcaster opts)
| reachable_step l b b' : reachable opts b -> step l b = Next b' -> reachable opts b'.

Definition SubscriberCount (b : broadcaster) : nat := size (b_subscribers b).
End Broadcaster.
Arguments Next {A} a. Arguments Blocked {A}. Arguments Panic {A}.
Arguments channel : clear implicits.
Arguments publisher : clear implicits.
Arguments broadcaster : clear implicits.
Arguments label : clear implicits.

(** * The broadcaster never panics, never blocks and loses no event silently *)

Section Facts.
Context {Event : Type}.
Implicit Types (b : broadcaster Event) (p : publisher Event) (ev : Event) (id : gostring).

(** The event is in the subscriber's buffer or was received. *)
Definition delivered (ev : Event) (id : gostring) (b : broadcaster Event) : Prop :=
  exists c, b_channels b !! id = Some c /\ ev ∈ ch_received c ++ ch_buffer c.

Definition publisher_ok (b : broadcaster Event) (p : publisher Event) : Prop :=
  match p with
  | Sending ev seen todo drop =>
      (forall id, id ∈ seen -> id ∈ dom (b_channels b)) /\
      (forall id, id ∈ todo -> id ∈ b_subscribers b) /\
      (forall id, id ∈ seen -> id ∈ todo \/ id ∈ drop \/ delivered ev id b)
  | Dropping ev seen drop =>
      (forall id, id ∈ seen -> id ∈ dom (b_channels b)) /\
      (forall id, id ∈ seen -> id ∈ drop \/ id ∉ b_subscribers b \/ delivered ev id b)
  end.

(** Subscribed means open; closed means no subscriber; buffers are bounded;
    every publisher accounts for the subscribers it started with. *)
Record broadcaster_ok (b : broadcaster Event) : Prop := {
  bo_open : forall id, id ∈ b_subscribers b <->
    exists c, b_channels b !! id = Some c /\ ch_closed c = false;
  bo_closed : b_closed b = true -> b_subscribers b = ∅;
  bo_buffer : forall id c, b_channels b !! id = Some c -> (length (ch_buffer c) <= b_bufferSize b)%nat;
  bo_publishers : forall t p, b_publishers b !! t = Some p -> publisher_ok b p }.

Lemma not_read_locked b t p : read_locked b = false -> b_publishers b !! t = Some p ->
  exists ev seen drop, p = Dropping ev seen drop.
Proof.
  intros H Ht. destruct p as [ev seen todo drop|ev seen drop]; [|eauto]. exfalso.
  apply not_true_iff_false in H. apply H. unfold read_locked. apply existsb_exists.
  exists (t, Sending ev seen todo drop). split; [|done].
  apply list_elem_of_In, elem_of_map_to_list. done.
Qed.

(** ** Unsubscribing *)
Lemma Unsubscribe_ok id b : broadcaster_ok b -> read_locked b = false ->
  exists b', Unsubscribe id b = Next b' /\ broadcaster_ok b' /\
    b_subscribers b' = b_subscribers b ∖ {[id]} /\ b_closed b' = b_closed b /\
    b_publishers b' = b_publishers b /\ b_bufferSize b' = b_bufferSize b /\
    dom (b_channels b') = dom (b_channels b) /\
    (forall ev i, delivered ev i b -> delivered ev i b').
Proof.
  intros [Ho Hc Hb Hp] Hl. unfold Unsubscribe. destruct (decide (id ∈ b_subscribers b)) as [Hin|Hin]; cycle 1.
  { exists b. split; [done|]. split; [done|]. split; [set_solver|done]. }
  destruct (proj1 (Ho id) Hin) as (c & Hid & Hop). rewrite Hid. unfold close_channel. rewrite Hop.
  eexists. split; [done|].
  assert (forall ev i, delivered ev i b -> delivered ev i (with_channels b (b_subscribers b ∖ {[id]})
    (<[id:=mkChannel (ch_buffer c) true (ch_received c)]> (b_channels b)))) as Hd.
  { intros ev i (d & Hi & Hev). unfold delivered; cbn. destruct (decide (id = i)) as [<-|Hne].
    - rewrite Hid in Hi. injection Hi as <-. eexists. rewrite lookup_insert_eq. by split.
    - exists d. by rewrite lookup_insert_ne. }
  assert (dom (<[id:=mkChannel (ch_buffer c) true (ch_received c)]> (b_channels b)) = dom (b_channels b)) as Hdom.
  { apply dom_insert_lookup_L. by eexists. }
  split; [|by repeat split]. split; cbn.
  - intros i. rewrite elem_of_difference, elem_of_singleton, Ho. destruct (decide (id = i)) as [<-|Hne].
    + rewrite lookup_insert_eq. split; [by intros [_ []]|]. by intros (? & [= <-] & ?).
    + rewrite lookup_insert_ne by done. naive_solver.
  - intros H. rewrite (Hc H). set_solver.
  - intros i d. rewrite lookup_insert. case_decide; [intros [= <-]; cbn; subst; by eapply Hb|apply Hb].
  - intros t p Ht. destruct (not_read_locked _ _ _ Hl Ht) as (ev & seen & drop & ->).
    destruct (Hp _ _ Ht) as [Hseen Hacc]. split; cbn; [by rewrite Hdom|].
    intros i Hi. destruct (Hacc i Hi) as [?|[?|?]]; [by left|right; left; set_solver|right; right; auto].
Qed.

(** Replacing a channel by one that still has what was delivered. *)
Lemma delivered_insert ev i id b c c' ps :
  b_channels b !! id = Some c -> (forall e, e ∈ ch_received c ++ ch_buffer c -> e ∈ ch_received c' ++ ch_buffer c') ->
  delivered ev i b ->
  delivered ev i (mkBroadcaster (b_bufferSize b) (b_closed b) (b_subscribers b) (<[id := c']> (b_channels b)) ps).
Proof.
  intros Hid Hsub (d & Hi & Hev). unfold delivered; cbn. destruct (decide (id = i)) as [<-|Hne].
  - exists c'. rewrite lookup_insert_eq. split; [done|]. apply Hsub. by rewrite Hid in Hi; injection Hi as <-.
  - exists d. by rewrite lookup_insert_ne.
Qed.

Lemma update_channel_ok id b c c' ps :
  broadcaster_ok b -> b_channels b !! id = Some c -> ch_closed c' = ch_closed c ->
  (length (ch_buffer c') <= b_bufferSize b)%nat ->
  (forall t p, ps !! t = Some p -> publisher_ok
     (mkBroadcaster (b_bufferSize b) (b_closed b) (b_subscribers b) (<[id := c']> (b_channels b)) ps) p) ->
  broadcaster_ok (mkBroadcaster (b_bufferSize b) (b_closed b) (b_subscribers b) (<[id := c']> (b_channels b)) ps).
Proof.
  intros [Ho Hc Hb Hp] Hid Hcl Hlen Hps. split; cbn; [|done| |done].
  - intros i. rewrite Ho. destruct (decide (id = i)) as [<-|Hne].
    + rewrite lookup_insert_eq, Hid. split; intros (? & [= <-] & ?); eexists; split; eauto; congruence.
    + by rewrite lookup_insert_ne.
  - intros i d. rewrite lookup_insert. case_decide; [by intros [= <-]|apply Hb].
Qed.

Lemma publisher_ok_mono b b' p :
  b_subscribers b = b_subscribers b' -> dom (b_channels b) ⊆ dom (b_channels b') -> (forall ev i, delivered ev i b -> delivered ev i b') ->
  publisher_ok b p -> publisher_ok b' p.
Proof.
  intros Hs Hdom Hd. destruct p as [ev seen todo drop|ev seen drop]; cbn; rewrite Hs.
  - intros (H0 & H1 & H2). split; [set_solver|]. split; [done|]. intros i Hi. destruct (H2 i Hi) as [?|[?|?]]; auto.
  - intros [H0 H]. split; [set_solver|]. intros i Hi. destruct (H i Hi) as [?|[?|?]]; auto.
Qed.

(** ** Publishing *)
Lemma publish_step_ok t b : broadcaster_ok b ->
  match publish_step t b with Next b' => broadcaster_ok b' | Blocked => True | Panic => False end.
Proof.
  intros Hok. pose proof Hok as [Ho Hc Hb Hp]. unfold publish_step.
  destruct (b_publishers b !! t) as [[ev seen [|id todo] drop|ev seen [|id drop]]|] eqn:Et; [..|done].
  - split; cbn; try done. intros t' p'. rewrite lookup_insert. case_decide; [|apply Hp].
    intros [= <-]. destruct (Hp _ _ Et) as (Hseen & _ & Hacc). split; [done|]. intros i Hi. destruct (Hacc i Hi) as [?%elem_of_nil|[?|?]]; auto.
  - destruct (Hp _ _ Et) as (Hseen & Hsub & Hacc).
    destruct (proj1 (Ho id) (Hsub id ltac:(by left))) as (c & Hid & Hop). rewrite Hid.
    unfold try_send. rewrite Hop. destruct (_ <? _)%nat eqn:El; bool_simpl.
    + apply (update_channel_ok id b c); [done..|cbn; rewrite length_app; cbn; lia|].
      assert (forall e i ps, delivered e i b -> delivered e i (mkBroadcaster (b_bufferSize b) (b_closed b)
        (b_subscribers b) (<[id:=mkChannel (ch_buffer c ++ [ev]) false (ch_received c)]> (b_channels b)) ps)) as Hd.
      { intros e i ps. apply (delivered_insert _ _ _ _ c); [done|]. cbn. set_solver. }
      intros t' p'. rewrite lookup_insert. case_decide as E; cycle 1.
      { intros Ht'. eapply publisher_ok_mono; [..|by eapply Hp]; [done|cbn; set_solver|]. intros ??; apply Hd. }
      intros [= <-]. split; [cbn; set_solver|]. split; [intros i Hi; apply Hsub; by right|]. intros i Hi.
      destruct (Hacc i Hi) as [[->|?]%elem_of_cons|[?|?]]; auto.
      right; right. eexists. cbn. rewrite lookup_insert_eq. split; [done|]. cbn. set_solver.
    + apply (update_channel_ok id b c); [done..|by eapply Hb|].
      assert (forall e i ps, delivered e i b -> delivered e i (mkBroadcaster (b_bufferSize b) (b_closed b)
        (b_subscribers b) (<[id:=c]> (b_channels b)) ps)) as Hd.
      { intros e i ps. by apply (delivered_insert _ _ _ _ c). }
      intros t' p'. rewrite lookup_insert. case_decide as E; cycle 1.
      { intros Ht'. eapply publisher_ok_mono; [..|by eapply Hp]; [done|cbn; set_solver|]. intros ??; apply Hd. }
      intros [= <-]. split; [cbn; set_solver|]. split; [intros i Hi; apply Hsub; by right|]. intros i Hi.
      destruct (Hacc i Hi) as [[->|?]%elem_of_cons|[?|?]]; [set_solver|auto|set_solver|auto].
  - split; cbn; try done. intros t' p' [_ ?]%lookup_delete_Some. by eapply Hp.
  - destruct (read_locked b) eqn:El; [done|].
    destruct (Unsubscribe_ok id b Hok El) as (b' & -> & [Ho' Hc' Hb' Hp'] & Hs & Hcl & Hps & Hsz & Hdom & Hd).
    split; cbn; try done. intros t' p'. rewrite lookup_insert. case_decide as E; [|apply Hp'].
    intros [= <-]. destruct (Hp _ _ Et) as [Hseen Hacc]. split; cbn; [by rewrite Hdom|].
    intros i Hi. rewrite Hs. destruct (Hacc i Hi) as [[->|?]%elem_of_cons|[?|?]]; [set_solver|auto|set_solver|].
    right; right. by apply Hd.
Qed.

(** ** Every step *)
Lemma close_all_ok ids : forall b, broadcaster_ok b -> read_locked b = false ->
  exists b', close_all ids b = Next b' /\ broadcaster_ok b' /\
    b_subscribers b' = b_subscribers b ∖ list_to_set ids /\ b_closed b' = b_closed b /\
    b_publishers b' = b_publishers b /\ b_bufferSize b' = b_bufferSize b.
Proof.
  induction ids as [|id ids IH]; intros b Hok Hl; cbn.
  - exists b. split; [done|]. split; [done|]. split; [set_solver|done].
  - destruct (Unsubscribe_ok id b Hok Hl) as (b1 & -> & Hok1 & Hs & Hc & Hp & Hz & _ & _).
    assert (read_locked b1 = false) as Hl1 by (unfold read_locked in *; by rewrite Hp).
    destruct (IH b1 Hok1 Hl1) as (b2 & -> & Hok2 & Hs2 & Hc2 & Hp2 & Hz2).
    exists b2. split; [done|]. split; [done|]. split; [rewrite Hs2, Hs; set_solver|]. repeat split; congruence.
Qed.

(** [close_all] does not look at the flag. *)
Definition set_closed (f : bool) (b : broadcaster Event) : broadcaster Event :=
  mkBroadcaster (b_bufferSize b) f (b_subscribers b) (b_channels b) (b_publishers b).
Lemma Unsubscribe_flag f id b :
  Unsubscribe id (set_closed f b) =
    match Unsubscribe id b with Next b' => Next (set_closed f b') | Blocked => Blocked | Panic => Panic end.
Proof. unfold Unsubscribe, set_closed, with_channels; cbn. repeat (case_match; simplify_eq; try done). Qed.
Lemma close_all_flag f ids : forall b,
  close_all ids (set_closed f b) =
    match close_all ids b with Next b' => Next (set_closed f b') | Blocked => Blocked | Panic => Panic end.
Proof.
  induction ids as [|id ids IH]; intros b; cbn; [done|]. rewrite Unsubscribe_flag.
  destruct (Unsubscribe id b); [apply IH|done..].
Qed.

Lemma Close_ok b : broadcaster_ok b -> read_locked b = false ->
  exists b', Close b = Next b' /\ broadcaster_ok b' /\ b_closed b' = true /\ b_subscribers b' = ∅.
Proof.
  intros Hok Hl. unfold Close. destruct (b_closed b) eqn:Ec.
  { exists b. split; [done|]. split; [done|]. split; [done|]. by apply (bo_closed _ Hok). }
  destruct (close_all_ok (elements (b_subscribers b)) b Hok Hl) as (b' & Hb' & [Ho Hc Hbuf Hp] & Hs & _).
  change (mkBroadcaster _ true _ _ _) with (set_closed true b). rewrite close_all_flag, Hb'.
  exists (set_closed true b'). rewrite list_to_set_elements_L, difference_diag_L in Hs.
  split; [done|]. split; [|done]. split; try done.
Qed.

Lemma step_ok l b : broadcaster_ok b ->
  match step l b with Next b' => broadcaster_ok b' | Blocked => True | Panic => False end.
Proof.
  intros Hok. destruct l as [id|id|t ev order|t|id|]; cbn [step].
  - destruct (read_locked b) eqn:Hl; [done|]. destruct (decide _) as [|Hfresh]; [done|].
    unfold Subscribe. destruct (b_closed b) eqn:Ec; [done|]. apply not_elem_of_dom in Hfresh.
    destruct Hok as [Ho Hc Hb Hp]. split; cbn.
    + intros i. rewrite elem_of_union, elem_of_singleton, lookup_insert. case_decide as E; [|naive_solver].
      split; [intros _; by eexists|]. intros _. by left.
    + by rewrite Ec.
    + intros i c. rewrite lookup_insert. case_decide; [intros [= <-]; cbn; lia|apply Hb].
    + intros t p Ht. destruct (not_read_locked _ _ _ Hl Ht) as (ev & seen & drop & ->). destruct (Hp _ _ Ht) as [Hseen Hacc].
      split; cbn; [set_solver|]. intros i Hi.
      assert (i <> id) as Hne by (intros ->; apply Hseen, elem_of_dom in Hi as [? ?]; congruence).
      destruct (Hacc i Hi) as [?|[?|(c & ? & ?)]]; [by left|right; left; set_solver|right; right].
      exists c. cbn. by rewrite lookup_insert_ne.
  - destruct (read_locked b) eqn:Hl; [done|]. by destruct (Unsubscribe_ok id b Hok Hl) as (b' & -> & ? & _).
  - destruct (b_closed b) eqn:Ec; [done|]. destruct (b_publishers b !! t) eqn:Et; [done|].
    destruct (decide _) as [Hperm|]; [|done]. destruct Hok as [Ho Hc Hb Hp]. split; cbn; try done.
    intros t' p'. rewrite lookup_insert. case_decide; [|apply Hp]. intros [= <-]. cbn.
    assert (forall id, id ∈ order -> id ∈ b_subscribers b) as Hin.
    { intros id Hid. apply elem_of_elements. by rewrite <-Hperm. }
    split; [|split; [done|by left]]. intros id Hid%Hin%Ho. apply elem_of_dom. destruct Hid as (c & ? & _). by exists c.
  - by apply publish_step_ok.
  - destruct (b_channels b !! id) as [[[|ev buf] cl recv]|] eqn:Eid; [done| |done].
    apply (update_channel_ok id b _ _ (b_publishers b) Hok Eid); [done|..].
    + pose proof (bo_buffer _ Hok _ _ Eid) as H. cbn in *. lia.
    + intros t p Ht. eapply publisher_ok_mono; [..|by eapply (bo_publishers _ Hok)]; [done|cbn; set_solver|].
      intros e i. eapply delivered_insert; [done|]. cbn. intros e'. by rewrite <-app_assoc.
  - destruct (read_locked b) eqn:Hl; [done|]. by destruct (Close_ok b Hok Hl) as (b' & -> & ? & _).
Qed.

Lemma new_ok opts : broadcaster_ok (NewBroadcaster (Event := Event) opts).
Proof.
  split; cbn [NewBroadcaster b_subscribers b_channels b_publishers b_closed]; [|done|..].
  - intros id. split; [set_solver|]. intros (c & H & _). by rewrite lookup_empty in H.
  - intros id c H. by rewrite lookup_empty in H.
  - intros t p H. by rewrite lookup_empty in H.
Qed.

Lemma reachable_ok opts b : reachable opts b -> broadcaster_ok b.
Proof.
  induction 1 as [|l b b' _ IH H]; [apply new_ok|]. pose proof (step_ok l b IH) as Hs. by rewrite H in Hs.
Qed.

Lemma step_size l b b' : broadcaster_ok b -> step l b = Next b' -> b_bufferSize b' = b_bufferSize b.
Proof.
  intros Hok.
  assert (forall id, read_locked b = false -> forall b', Unsubscribe id b = Next b' -> b_bufferSize b' = b_bufferSize b) as Hu.
  { intros id Hl b1 H1. destruct (Unsubscribe_ok id b Hok Hl) as (b2 & E & _ & _ & _ & _ & Hz & _). congruence. }
  destruct l as [id|id|t ev order|t|id|]; cbn [step].
  - unfold Subscribe. repeat (case_match; try done); by intros [= <-].
  - destruct (read_locked b) eqn:El; [done|]. by apply Hu.
  - repeat (case_match; try done); by intros [= <-].
  - unfold publish_step. destruct (b_publishers b !! t) as [[ev seen [|id todo] drop|ev seen [|id drop]]|]; try done.
    + by intros [= <-].
    + repeat (case_match; try done); by intros [= <-].
    + by intros [= <-].
    + destruct (read_locked b) eqn:El; [done|]. destruct (Unsubscribe id b) as [b1| |] eqn:E; try done.
      intros [= <-]. cbn. by eapply Hu.
  - repeat (case_match; try done); by intros [= <-].
  - destruct (read_locked b) eqn:El; [done|]. unfold Close. destruct (b_closed b); [by intros [= <-]|].
    change (mkBroadcaster _ true _ _ _) with (set_closed true b). rewrite close_all_flag.
    destruct (close_all_ok (elements (b_subscribers b)) b Hok El) as (b1 & -> & _ & _ & _ & _ & Hz).
    intros [= <-]. done.
Qed.

(** What is left to do for a publisher. *)
Definition work (p : publisher Event) : nat :=
  match p with
  | Sending _ _ todo drop => 2 * length todo + length drop + 2
  | Dropping _ _ drop => length drop + 1
  end.
Definition work_at (t : nat) (b : broadcaster Event) : nat :=
  match b_publishers b !! t with Some p => work p | None => 0 end.

Lemma publish_step_work t b b' : broadcaster_ok b ->
  publish_step t b = Next b' -> (work_at t b' < work_at t b)%nat.
Proof.
  intros Hok. unfold publish_step, work_at.
  destruct (b_publishers b !! t) as [[ev seen [|id todo] drop|ev seen [|id drop]]|] eqn:Et; [..|done].
  - intros [= <-]. cbn. rewrite lookup_insert_eq. cbn. lia.
  - destruct (b_channels b !! id) as [c|]; [|done].
    destruct (try_send _ _ c) as [[c' sent]| |]; [|done..]. intros [= <-]. cbn. rewrite lookup_insert_eq.
    destruct sent; cbn; rewrite ?length_app; cbn; lia.
  - intros [= <-]. cbn. rewrite lookup_delete_eq. lia.
  - destruct (read_locked b) eqn:El; [done|].
    destruct (Unsubscribe_ok id b Hok El) as (b1 & -> & _ & _ & _ & Hp & _).
    intros [= <-]. cbn. rewrite lookup_insert_eq. cbn. lia.
Qed.

Lemma publisher_can_step b t p : broadcaster_ok b -> b_publishers b !! t = Some p ->
  exists t' b', publish_step t' b = Next b'.
Proof.
  intros Hok Ht. destruct (read_locked b) eqn:El.
  - unfold read_locked in El. apply existsb_exists in El as ([t' q] & Hin & Hq).
    apply list_elem_of_In, elem_of_map_to_list in Hin. exists t'.
    pose proof (publish_step_ok t' b Hok) as Hs. unfold publish_step in *. rewrite Hin in *.
    destruct q as [ev seen [|id todo] drop|]; [eauto| |done].
    destruct (b_channels b !! id) as [c|]; [|done]. unfold try_send in *.
    destruct (ch_closed c); [done|]. destruct (_ <? _)%nat; eauto.
  - exists t. destruct (not_read_locked _ _ _ El Ht) as (ev & seen & drop & ->).
    unfold publish_step. rewrite Ht. destruct drop as [|id drop]; [eauto|]. rewrite El.
    destruct (Unsubscribe_ok id b Hok El) as (b1 & -> & _). eauto.
Qed.
End Facts.

(** C34: no interleaving of subscriptions, cancellations, publishers, readers
    and [Close] sends on a closed channel or closes one twice. *)
Theorem broadcaster_no_panic {Event} opts (b : broadcaster Event) l :
  reachable opts b -> step l b <> Panic.
Proof. intros H%reachable_ok. pose proof (step_ok l b H) as Hs. by destruct (step l b). Qed.

(** when a [Publish] ends, every subscriber there was when it started
    either has the event, in its buffer or already received, or has been
    dropped; events never go missing silently. *)
Theorem publish_delivers {Event} opts (b : broadcaster Event) t ev seen id :
  reachable opts b -> b_publishers b !! t = Some (Dropping ev seen []) -> id ∈ seen ->
  delivered ev id b \/
  (id ∉ b_subscribers b /\ exists c, b_channels b !! id = Some c /\ ch_closed c = true).
Proof.
  intros H%reachable_ok Ht Hid. destruct (bo_publishers _ H _ _ Ht) as [Hseen Hacc].
  destruct (Hacc id Hid) as [?%elem_of_nil|[Hout|?]]; [done| |by left]. right. split; [done|].
  apply Hseen, elem_of_dom in Hid as [c Hc]. exists c. split; [done|].
  destruct (ch_closed c) eqn:E; [done|]. exfalso. apply Hout. apply (bo_open _ H). eauto.
Qed.

(** buffers never exceed the configured size, open channels are exactly
    those of the subscribers, and a closed broadcaster has none left. *)
Theorem broadcaster_bounded {Event} opts (b : broadcaster Event) :
  reachable opts b ->
  (forall id c, b_channels b !! id = Some c ->
     (length (ch_buffer c) <= b_bufferSize (NewBroadcaster (Event := Event) opts))%nat /\
     (ch_closed c = false <-> id ∈ b_subscribers b)) /\
  (b_closed b = true -> SubscriberCount b = 0%nat /\ forall id b', Subscribe id b = Next b' -> b' = b).
Proof.
  intros H. pose proof (reachable_ok _ _ H) as [Ho Hc Hb _].
  assert (b_bufferSize b = b_bufferSize (NewBroadcaster (Event := Event) opts)) as <-.
  { clear - H. induction H as [|l b b' Hr IH Hs]; [done|]. rewrite <-IH.
    eapply step_size; [by eapply reachable_ok|done]. }
  split.
  - intros id c Hid. split; [by eapply Hb|]. rewrite Ho. split; [eauto|]. intros (? & ? & ?). congruence.
  - intros Hcl. split.
    + unfold SubscriberCount. rewrite (Hc Hcl). apply size_empty.
    + intros id b'. unfold Subscribe. rewrite Hcl. congruence.
Qed.

(** publishing never blocks on a slow reader: while a [Publish] is
    running some publisher can take a step, and each of its steps brings it
    closer to the end. *)
Theorem publish_progress {Event} opts (b : broadcaster Event) :
  reachable opts b ->
  (forall t p, b_publishers b !! t = Some p -> exists t' b', step (LStep t') b = Next b') /\
  (forall t b', step (LStep t) b = Next b' -> (work_at t b' < work_at t b)%nat).
Proof.
  intros H%reachable_ok. split.
  - intros t p Ht. by eapply publisher_can_step.
  - intros t b'. by apply publish_step_work.
Qed.

(** ** The hypotheses hold *)
Fixpoint run_labels {Event} (ls : list (label Event)) (b : broadcaster Event) : outcome (broadcaster Event) :=
  match ls with
  | [] => Next b
  | l :: ls => match step l b with Next b => run_labels ls b | r => r end
  end.
Lemma run_labels_reachable {Event} opts ls : forall b b' : broadcaster Event,
  reachable opts b -> run_labels ls b = Next b' -> reachable opts b'.
Proof.
  induction ls as [|l ls IH]; intros b b' Hb H; cbn in H; [by injection H as <-|].
  destruct (step l b) as [b1| |] eqn:E; [|done..]. eapply IH; [|done]. by eapply reachable_step.
Qed.

(** Two subscribers with room for one event: the second event drops both. *)
Definition demo_labels : list (label Z) :=
  [LSubscribe #"a"; LPublish 0 7%Z [ #"a"]; LStep 0; LStep 0; LStep 0;
   LPublish 1 8%Z [ #"a"]; LStep 1; LStep 1; LStep 1].
Definition demo_broadcaster : broadcaster Z :=
  match run_labels demo_labels (NewBroadcaster [1%Z]) with Next b => b | _ => NewBroadcaster [1%Z] end.

Lemma demo_broadcaster_reachable : reachable [1%Z] demo_broadcaster.
Proof.
  unfold demo_broadcaster.
  destruct (run_labels demo_labels (NewBroadcaster [1%Z])) as [b| |] eqn:E; [|constructor..].
  eapply run_labels_reachable; [constructor|exact E].
Qed.

Lemma broadcaster_no_panic_witness : step (LUnsubscribe #"a") demo_broadcaster <> Panic.
Proof. exact (broadcaster_no_panic _ _ _ demo_broadcaster_reachable). Defined.

Lemma publish_delivers_witness :
  b_publishers demo_broadcaster !! 1%nat = Some (Dropping 8%Z [ #"a"] []) /\
  (delivered 8%Z #"a" demo_broadcaster \/
   (#"a" ∉ b_subscribers demo_broadcaster /\
    exists c, b_channels demo_broadcaster !! #"a" = Some c /\ ch_closed c = true)).
Proof.
  assert (H : b_publishers demo_broadcaster !! 1%nat = Some (Dropping 8%Z [ #"a"] [])) by (vm_compute; reflexivity).
  split; [exact H|].
  apply (publish_delivers _ _ _ _ _ _ demo_broadcaster_reachable H). by left.
Defined.

Lemma broadcaster_bounded_witness :
  match b_channels demo_broadcaster !! #"a" with Some c => (length (ch_buffer c) <= 1)%nat | None => False end.
Proof.
  destruct (b_channels demo_broadcaster !! #"a") as [c|] eqn:H; [|vm_compute in H; discriminate H].
  exact (proj1 (proj1 (broadcaster_bounded _ _ demo_broadcaster_reachable) _ c H)).
Defined.

Lemma publish_progress_witness : exists t' b', step (LStep t') demo_broadcaster = Next b'.
Proof.
  apply (proj1 (publish_progress _ _ demo_broadcaster_reachable) 1%nat (Dropping 8%Z [ #"a"] [])).
  vm_compute. reflexivity.
Defined.
