(* ===== verification/Topology.v ===== *)
(** * The service graph: [pkg/topology/graph.go]

    A directed graph of services with its reverse adjacency, entrypoints and
    isolated nodes.  Go maps have no iteration order and [sort.Slice] is not
    stable: where a result depends on either, the order met is an argument
    ([Edges_order], the listings of [Merge] and [Subgraph]); where a sort of
    strings hides it, the function is deterministic. *)

From S2P Require Import Prelude GoStrings GoSort.

Record Edge := mkEdge {
  From : gostring; To : gostring; Protocol : gostring; Source : gostring; Tombstone : bool }.
#[global] Instance Edge_eq_dec : EqDecision Edge.
Proof. solve_decision. Defined.

Record ServiceGraph := mkGraph {
  edges : gmap gostring (list Edge);
  reverse_edges : gmap gostring (list Edge);
  entrypoints : gset gostring;
  nodes : gset gostring }.

Record IngressPath := mkPath { Entrypoint : gostring; Hops : list gostring }.

Definition NewServiceGraph : ServiceGraph := mkGraph ∅ ∅ ∅ ∅.

Definition adjacent (m : gmap gostring (list Edge)) (s : gostring) : list Edge := default [] (m !! s).

Definition AddEdge (e : Edge) (g : ServiceGraph) : ServiceGraph :=
  let ns := {[To e]} ∪ ({[From e]} ∪ nodes g) in
  if Tombstone e then mkGraph (edges g) (reverse_edges g) (entrypoints g) ns
  else mkGraph (<[From e := adjacent (edges g) (From e) ++ [e]]> (edges g))
         (<[To e := adjacent (reverse_edges g) (To e) ++ [e]]> (reverse_edges g)) (entrypoints g) ns.

Definition AddNode (s : gostring) (g : ServiceGraph) : ServiceGraph :=
  mkGraph (edges g) (reverse_edges g) (entrypoints g) ({[s]} ∪ nodes g).

Definition AddEntrypoint (s : gostring) (g : ServiceGraph) : ServiceGraph :=
  mkGraph (edges g) (reverse_edges g) ({[s]} ∪ entrypoints g) ({[s]} ∪ nodes g).

(** All edges, tombstones or not, in the order of some map iteration. *)
Definition all_edges (g : ServiceGraph) : list Edge := concat (snd <$> map_to_list (edges g)).

Definition edge_le (a b : Edge) : Prop :=
  if decide (From a = From b) then str_le (To a) (To b) else str_le (From a) (From b).
(** [l] is a possible result of [g.Edges()]. *)
Definition Edges_order (g : ServiceGraph) (l : list Edge) : Prop :=
  l ≡ₚ filter (fun e => Tombstone e = false) (all_edges g) /\ Sorted edge_le l.

Definition Entrypoints (g : ServiceGraph) : list gostring := sort_strings (elements (entrypoints g)).
Definition Services (g : ServiceGraph) : list gostring := sort_strings (elements (nodes g)).

(** The loop that keeps the first occurrence of each name. *)
Fixpoint first_seen (name : Edge -> gostring) (seen : gset gostring) (l : list Edge) : list gostring :=
  match l with
  | [] => []
  | e :: l =>
      if Tombstone e then first_seen name seen l
      else if decide (name e ∈ seen) then first_seen name seen l
      else name e :: first_seen name ({[name e]} ∪ seen) l
  end.
Definition Neighbors (g : ServiceGraph) (s : gostring) : list gostring :=
  sort_strings (first_seen To ∅ (adjacent (edges g) s)).
Definition UpstreamCallers (g : ServiceGraph) (s : gostring) : list gostring :=
  sort_strings (first_seen From ∅ (adjacent (reverse_edges g) s)).

(** ** [AllIngressPaths] *)
Definition maxIngressPaths : nat := 100.

(** [dfs] of the code; [acc] are the hops found so far.  The visited map is
    restored on return, so it is passed down. *)
Fixpoint ingress_dfs (fuel : nat) (g : ServiceGraph) (target current : gostring)
    (path : list gostring) (visited : gset gostring) (acc : list (list gostring)) : list (list gostring) :=
  match fuel with
  | O => acc
  | S fuel =>
      if (maxIngressPaths <=? length acc)%nat then acc
      else
        let path := path ++ [current] in
        if decide (current = target) then acc ++ [path]
        else
          let visited := {[current]} ∪ visited in
          fold_left (fun acc n => if decide (n ∈ visited) then acc
                                  else ingress_dfs fuel g target n path visited acc)
            (Neighbors g current) acc
  end.

(** Every call visits a new node, so [S (size (nodes g))] calls deep is
    enough. *)
Definition ingress_fuel (g : ServiceGraph) : nat := S (S (size (nodes g))).

Definition ingress_from (g : ServiceGraph) (target : gostring) (acc : list (list gostring)) (ep : gostring)
    : list (list gostring) :=
  if (maxIngressPaths <=? length acc)%nat then acc
  else if decide (ep = target) then acc ++ [[ep]]
  else ingress_dfs (ingress_fuel g) g target ep [] ∅ acc.
Definition ingress_hops (g : ServiceGraph) (target : gostring) : list (list gostring) :=
  fold_left (ingress_from g target) (Entrypoints g) [].
(** The entrypoint of a path is its first hop. *)
Definition AllIngressPaths (g : ServiceGraph) (target : gostring) : list IngressPath :=
  map (fun hops => mkPath (default [] (head hops)) hops) (ingress_hops g target).

(** ** [Merge] and [Subgraph] *)
Definition edge_key (e : Edge) : gostring := From e ++ #"->" ++ To e.

(** Adding edges not seen and not suppressed. *)
Fixpoint add_unseen (tombstones : gset gostring) (l : list Edge) (st : gset gostring * ServiceGraph)
    : gset gostring * ServiceGraph :=
  match l with
  | [] => st
  | e :: l =>
      let '(seen, g) := st in
      if decide (edge_key e ∈ tombstones) then add_unseen tombstones l st
      else if decide (edge_key e ∈ seen) then add_unseen tombstones l st
      else add_unseen tombstones l ({[edge_key e]} ∪ seen, AddEdge e g)
  end.
Definition tombstone_keys (l : list Edge) : gset gostring :=
  list_to_set (map edge_key (List.filter Tombstone l)).

(** [ge] is the value of [g.Edges()], [oe] the edges of [other] in the order
    its map is iterated. *)
Definition Merge (ge oe : list Edge) (g other : ServiceGraph) : ServiceGraph :=
  let tombstones := tombstone_keys oe in
  let st := add_unseen tombstones ge (∅, NewServiceGraph) in
  let '(_, m) := add_unseen tombstones (List.filter (fun e => negb (Tombstone e)) oe) st in
  mkGraph (edges m) (reverse_edges m) (entrypoints g ∪ entrypoints other ∪ entrypoints m)
    (nodes g ∪ nodes other ∪ (entrypoints g ∪ entrypoints other ∪ nodes m)).

(** The two loops of [Subgraph]. *)
Definition select_node (g : ServiceGraph) (sub : ServiceGraph) (s : gostring) : ServiceGraph :=
  if decide (s ∈ nodes g) then AddNode s sub else sub.
Definition select_edge (services : list gostring) (sub : ServiceGraph) (e : Edge) : ServiceGraph :=
  if decide (From e ∈ services /\ To e ∈ services) then AddEdge e sub else sub.

Definition Subgraph (ge : list Edge) (g : ServiceGraph) (services : list gostring) : ServiceGraph :=
  let sub := fold_left (select_node g) services NewServiceGraph in
  let sub := fold_left (select_edge services) ge sub in
  let eps := filter (fun ep => ep ∈ services) (entrypoints g) in
  mkGraph (edges sub) (reverse_edges sub) (eps ∪ entrypoints sub) (eps ∪ nodes sub).

(** ** [Validate] *)
Record tarjan := mkTarjan {
  tj_index : Z;
  tj_indices : gmap gostring Z;
  tj_lowlink : gmap gostring Z;
  tj_onStack : gset gostring;
  tj_stack : list gostring;  (* top first *)
  tj_sccs : list (list gostring) }.

Definition low (st : tarjan) (n : gostring) : Z := default 0%Z (tj_lowlink st !! n).
Definition idx (st : tarjan) (n : gostring) : Z := default 0%Z (tj_indices st !! n).
Definition set_low (st : tarjan) (n : gostring) (z : Z) : tarjan :=
  mkTarjan (tj_index st) (tj_indices st) (<[n := z]> (tj_lowlink st)) (tj_onStack st) (tj_stack st) (tj_sccs st).

(** Popping the stack down to [node]: the component, oldest first, and the
    rest of the stack. *)
Fixpoint pop_until (node : gostring) (stack scc : list gostring) : list gostring * list gostring :=
  match stack with
  | [] => (scc, [])
  | w :: stack => if decide (w = node) then (w :: scc, stack) else pop_until node stack (w :: scc)
  end.

Fixpoint strongconnect (fuel : nat) (g : ServiceGraph) (node : gostring) (st : tarjan) : tarjan :=
  match fuel with
  | O => st
  | S fuel =>
      let st := mkTarjan (tj_index st + 1) (<[node := tj_index st]> (tj_indices st))
                  (<[node := tj_index st]> (tj_lowlink st)) ({[node]} ∪ tj_onStack st)
                  (node :: tj_stack st) (tj_sccs st) in
      let st := fold_left (fun st neighbor =>
        if decide (neighbor = node) then st
        else match tj_indices st !! neighbor with
             | None =>
                 let st := strongconnect fuel g neighbor st in
                 if (low st neighbor <? low st node)%Z then set_low st node (low st neighbor) else st
             | Some _ =>
                 if decide (neighbor ∈ tj_onStack st) then
                   if (idx st neighbor <? low st node)%Z then set_low st node (idx st neighbor) else st
                 else st
             end) (Neighbors g node) st in
      if (low st node =? idx st node)%Z then
        let '(scc, rest) := pop_until node (tj_stack st) [] in
        mkTarjan (tj_index st) (tj_indices st) (tj_lowlink st) (tj_onStack st ∖ list_to_set scc) rest
          (tj_sccs st ++ [scc])
      else st
  end.
Definition graph_fuel (g : ServiceGraph) : nat := S (size (nodes g)).

Definition components (g : ServiceGraph) : list (list gostring) :=
  tj_sccs (fold_left (fun st node => match tj_indices st !! node with
                                     | None => strongconnect (graph_fuel g) g node st
                                     | Some _ => st
                                     end) (Services g) (mkTarjan 0 ∅ ∅ ∅ [] [])).

(** The loop over the neighbours in the search of [findCycleInSCC]; [rec] is
    the recursive call, [path] ends with [curr]. *)
Fixpoint cycle_loop (rec : gostring -> gset gostring -> option (list gostring) * gset gostring)
    (scc : list gostring) (start curr : gostring) (path ns : list gostring) (visited : gset gostring)
    : option (list gostring) * gset gostring :=
  match ns with
  | [] => (None, visited)
  | n :: ns =>
      if decide (n = curr) then cycle_loop rec scc start curr path ns visited
      else if decide (n ∈ scc) then
        if decide (n = start) then (Some (path ++ [start]), visited)
        else if decide (n ∈ visited) then cycle_loop rec scc start curr path ns visited
        else match rec n visited with
             | (Some p, v) => (Some p, v)
             | (None, v) => cycle_loop rec scc start curr path ns v
             end
      else cycle_loop rec scc start curr path ns visited
  end.
(** [dfs(curr)]: [Some path] when it closes a cycle. *)
Fixpoint cycle_dfs (fuel : nat) (g : ServiceGraph) (scc : list gostring) (start curr : gostring)
    (path : list gostring) (visited : gset gostring) : option (list gostring) * gset gostring :=
  match fuel with
  | O => (None, visited)
  | S fuel =>
      let path := path ++ [curr] in
      cycle_loop (fun n v => cycle_dfs fuel g scc start n path v) scc start curr path (Neighbors g curr)
        ({[curr]} ∪ visited)
  end.

Inductive cycle_error :=
| CycleDetected (path : list gostring)
| CycleInComponents (scc : list gostring).

Definition findCycleInSCC (g : ServiceGraph) (scc : list gostring) : cycle_error :=
  match scc with
  | [] => CycleInComponents scc
  | start :: _ =>
      match fst (cycle_dfs (graph_fuel g) g scc start start [] ∅) with
      | Some path => CycleDetected path
      | None => CycleInComponents scc
      end
  end.

Definition Validate (g : ServiceGraph) : option cycle_error :=
  match List.find (fun scc => (1 <? length scc)%nat) (components g) with
  | Some scc => Some (findCycleInSCC g scc)
  | None => None
  end.

(** * The service graph: its queries are right

    The adjacency lists stay consistent, neighbours are exactly the edges,
    ingress paths are exactly the simple paths while under the cap, a
    reported cycle is one, and merging keeps every edge. *)

(** ** Well-formed graphs *)
Record graph_ok (g : ServiceGraph) : Prop := {
  go_edges : forall a e, e ∈ adjacent (edges g) a ->
    Tombstone e = false /\ From e = a /\ From e ∈ nodes g /\ To e ∈ nodes g;
  go_reverse : forall b e, e ∈ adjacent (reverse_edges g) b -> To e = b;
  go_dual : forall e, e ∈ adjacent (edges g) (From e) <-> e ∈ adjacent (reverse_edges g) (To e);
  go_entry : entrypoints g ⊆ nodes g }.

Lemma adjacent_insert m k l s : adjacent (<[k := l]> m) s = if decide (k = s) then l else adjacent m s.
Proof. unfold adjacent. rewrite lookup_insert. by case_decide. Qed.
Lemma adjacent_empty s : adjacent ∅ s = [].
Proof. unfold adjacent. by rewrite lookup_empty. Qed.

Lemma new_graph_ok : graph_ok NewServiceGraph.
Proof. split; cbn; try (intros; rewrite ?adjacent_empty in *; set_solver). Qed.

Lemma AddNode_ok s g : graph_ok g -> graph_ok (AddNode s g).
Proof.
  intros [He Hr Hd Hn]. split; cbn; [|done..|set_solver].
  intros a e (?&?&?&?)%He. repeat split; [done..|set_solver|set_solver].
Qed.
Lemma AddEntrypoint_ok s g : graph_ok g -> graph_ok (AddEntrypoint s g).
Proof.
  intros [He Hr Hd Hn]. split; cbn; [|done..|set_solver].
  intros a e (?&?&?&?)%He. repeat split; [done..|set_solver|set_solver].
Qed.
Lemma AddEdge_ok e g : graph_ok g -> graph_ok (AddEdge e g).
Proof.
  intros [He Hr Hd Hn]. unfold AddEdge. destruct (Tombstone e) eqn:Et.
  { split; cbn; [|done..|set_solver]. intros a e' (?&?&?&?)%He. repeat split; [done..|set_solver|set_solver]. }
  split; cbn.
  - intros a e'. rewrite adjacent_insert. case_decide as E.
    + rewrite elem_of_app, list_elem_of_singleton. intros [(?&?&?&?)%He| ->]; repeat split; try done; try congruence; set_solver.
    + intros (?&?&?&?)%He. repeat split; [done..|set_solver|set_solver].
  - intros b e'. rewrite adjacent_insert. case_decide as E; [|apply Hr].
    rewrite elem_of_app, list_elem_of_singleton. intros [?%Hr| ->]; congruence.
  - intros e'. rewrite !adjacent_insert.
    assert (forall b, From e' <> From e -> e' ∈ adjacent (reverse_edges g) b ++ [e] <-> e' ∈ adjacent (reverse_edges g) b) as H1.
    { intros b Hne. rewrite elem_of_app, list_elem_of_singleton. naive_solver. }
    assert (forall b, To e' <> To e -> e' ∈ adjacent (edges g) b ++ [e] <-> e' ∈ adjacent (edges g) b) as H2.
    { intros b Hne. rewrite elem_of_app, list_elem_of_singleton. naive_solver. }
    destruct (decide (From e = From e')) as [E1|E1], (decide (To e = To e')) as [E2|E2].
    + rewrite E1, E2, !elem_of_app, Hd. done.
    + rewrite H2 by done. rewrite E1. apply Hd.
    + rewrite H1 by done. rewrite E2. apply Hd.
    + apply Hd.
  - set_solver.
Qed.

(** ** Neighbours *)
Definition edge_to (g : ServiceGraph) (a b : gostring) : Prop :=
  exists e, e ∈ adjacent (edges g) a /\ Tombstone e = false /\ To e = b.
Definition edge_from (g : ServiceGraph) (a b : gostring) : Prop :=
  exists e, e ∈ adjacent (reverse_edges g) b /\ Tombstone e = false /\ From e = a.

Lemma first_seen_elem name x l : forall seen,
  x ∈ first_seen name seen l <-> x ∉ seen /\ exists e, e ∈ l /\ Tombstone e = false /\ name e = x.
Proof.
  induction l as [|e l IH]; intros seen; cbn.
  { split; [by intros ?%elem_of_nil|]. by intros (_ & e & ?%elem_of_nil & _). }
  destruct (Tombstone e) eqn:Et.
  { rewrite IH. setoid_rewrite elem_of_cons. naive_solver congruence. }
  case_decide as Es.
  { rewrite IH. setoid_rewrite elem_of_cons. naive_solver. }
  rewrite elem_of_cons, IH. setoid_rewrite elem_of_cons. split.
  - intros [->|(H & e' & ? & ? & ?)]; [naive_solver|]. split; [set_solver|naive_solver].
  - intros (H & e' & [->|He'] & H1 & H2); [by left|]. destruct (decide (x = name e)) as [->|Hne]; [by left|].
    right. split; [set_solver|naive_solver].
Qed.
Lemma first_seen_NoDup name l : forall seen, NoDup (first_seen name seen l).
Proof.
  induction l as [|e l IH]; intros seen; cbn; [constructor|]. repeat case_match; auto.
  constructor; [|apply IH]. rewrite first_seen_elem. set_solver.
Qed.

Lemma Neighbors_elem g s n : n ∈ Neighbors g s <-> edge_to g s n.
Proof. unfold Neighbors, edge_to. rewrite sort_strings_elem, first_seen_elem. set_solver. Qed.
Lemma UpstreamCallers_elem g s n : n ∈ UpstreamCallers g s <-> edge_from g n s.
Proof. unfold UpstreamCallers, edge_from. rewrite sort_strings_elem, first_seen_elem. set_solver. Qed.
Lemma Neighbors_NoDup g s : NoDup (Neighbors g s).
Proof. unfold Neighbors. rewrite sort_strings_perm. apply first_seen_NoDup. Qed.

(** ** Walks *)
Fixpoint walk (g : ServiceGraph) (l : list gostring) : Prop :=
  match l with
  | a :: (b :: _) as t => edge_to g a b /\ walk g t
  | _ => True
  end.

Lemma walk_snoc g l a b : walk g (l ++ [a]) -> edge_to g a b -> walk g ((l ++ [a]) ++ [b]).
Proof.
  induction l as [|x [|y l] IH]; cbn; [done|naive_solver|]. intros [? H] He. split; [done|]. by apply IH.
Qed.

Definition ingress_path (g : ServiceGraph) (ep target : gostring) (l : list gostring) : Prop :=
  head l = Some ep /\ last l = Some target /\ walk g l /\ NoDup l.

(** ** Ingress paths *)
Section Ingress.
Context (g : ServiceGraph) (target : gostring).

Definition found_ok (acc : list (list gostring)) : Prop :=
  Forall (fun l => exists ep, ep ∈ entrypoints g /\ ingress_path g ep target l) acc /\
  (length acc <= maxIngressPaths)%nat.

Lemma found_snoc acc ep l : found_ok acc -> (length acc < maxIngressPaths)%nat ->
  ep ∈ entrypoints g -> ingress_path g ep target l -> found_ok (acc ++ [l]).
Proof.
  intros [H1 H2] Hlt He Hl. split; [apply Forall_app; split; [done|]; constructor; [eauto|done]|].
  rewrite length_app. cbn. lia.
Qed.

Lemma ingress_dfs_sound fuel : forall ep current path visited acc,
  ep ∈ entrypoints g -> walk g (path ++ [current]) -> NoDup (path ++ [current]) ->
  (forall x, x ∈ path -> x ∈ visited) -> head (path ++ [current]) = Some ep -> found_ok acc ->
  found_ok (ingress_dfs fuel g target current path visited acc).
Proof.
  induction fuel as [|fuel IH]; intros ep current path visited acc Hep Hw Hn Hv Hh Hacc; cbn [ingress_dfs]; [done|].
  destruct (maxIngressPaths <=? length acc)%nat eqn:El; [done|]. bool_simpl.
  case_decide as Et.
  { subst. apply (found_snoc _ ep); [done..|]. split; [done|]. split; [by rewrite last_snoc|done]. }
  assert (forall n, n ∈ Neighbors g current -> edge_to g current n) as Hnb by (intros n; apply Neighbors_elem).
  revert acc Hacc El Hnb. generalize (Neighbors g current). intros ns acc Hacc _ Hnb.
  revert acc Hacc. induction ns as [|n ns IHn]; intros acc Hacc; cbn; [done|].
  apply IHn; [intros m Hm; apply Hnb; by right|]. case_decide as Hvis; [done|].
  apply (IH ep); [done|..|done].
  - apply walk_snoc; [done|]. apply Hnb. by left.
  - apply NoDup_app. split; [done|]. split; [|by apply NoDup_singleton].
    intros x Hx ->%list_elem_of_singleton. apply Hvis.
    apply elem_of_app in Hx as [Hx| ->%list_elem_of_singleton]; set_solver.
  - intros x [Hx|Hx%list_elem_of_singleton]%elem_of_app; set_solver.
  - destruct path; done.
Qed.

(** The paths found only grow. *)
Lemma fold_prefix {A B} (f : list A -> B -> list A) l :
  (forall acc x, acc `prefix_of` f acc x) -> forall acc, acc `prefix_of` fold_left f l acc.
Proof. intros Hf. induction l as [|x l IH]; intros acc; cbn; [done|]. by etrans; [apply Hf|]. Qed.

Lemma ingress_dfs_prefix fuel : forall current path visited acc,
  acc `prefix_of` ingress_dfs fuel g target current path visited acc.
Proof.
  induction fuel as [|fuel IH]; intros current path visited acc; cbn [ingress_dfs]; [done|].
  destruct (_ <=? _)%nat; [done|]. case_decide; [by apply prefix_app_r|].
  apply fold_prefix. intros acc' n. by case_decide.
Qed.

Lemma prefix_elem {A} (l1 l2 : list A) x : l1 `prefix_of` l2 -> x ∈ l1 -> x ∈ l2.
Proof. intros [k ->]. rewrite elem_of_app. auto. Qed.

(** A fold over [xs] finds what one of its steps finds, while under the cap. *)
Lemma fold_finds {A B} (f : list A -> B -> list A) (xs : list B) x y cap :
  (forall acc x, acc `prefix_of` f acc x) -> x ∈ xs ->
  (forall acc, (length (f acc x) < cap)%nat -> y ∈ f acc x) ->
  forall acc, (length (fold_left f xs acc) < cap)%nat -> y ∈ fold_left f xs acc.
Proof.
  intros Hf Hx Hy. induction xs as [|z xs IH]; [by apply elem_of_nil in Hx|].
  apply elem_of_cons in Hx as [<-|Hx]; intros acc Hlen; cbn in *; [|by apply IH].
  pose proof (fold_prefix f xs Hf (f acc x)) as Hp. eapply prefix_elem; [done|]. apply Hy.
  apply prefix_length in Hp. lia.
Qed.

Lemma ingress_dfs_complete fuel : forall current rest path visited acc,
  walk g (current :: rest) -> NoDup (current :: rest) -> last (current :: rest) = Some target ->
  (forall x, x ∈ current :: rest -> x ∉ visited) -> (length (current :: rest) <= fuel)%nat ->
  let r := ingress_dfs fuel g target current path visited acc in
  (length r < maxIngressPaths)%nat -> path ++ current :: rest ∈ r.
Proof.
  induction fuel as [|fuel IH]; intros current rest path visited acc Hw Hn Hl Hv Hf; cbn [ingress_dfs]; [cbn in Hf; lia|]. cbv zeta.
  destruct (maxIngressPaths <=? length acc)%nat eqn:El; bool_simpl; [lia|].
  case_decide as Et.
  { intros _. subst. destruct rest as [|n rest]; [set_solver|]. exfalso.
    apply NoDup_cons in Hn as [Hn _]. apply Hn. rewrite last_cons_cons in Hl.
    by apply last_Some_elem_of in Hl. }
  destruct rest as [|n rest]; [cbn in Hl; congruence|].
  apply (fold_finds _ _ n).
  - intros acc' m. case_decide; [done|]. apply ingress_dfs_prefix.
  - apply Neighbors_elem. by destruct Hw.
  - intros acc'. apply NoDup_cons in Hn as [Hnc Hn].
    assert (n ∉ {[current]} ∪ visited) as Hnv by (specialize (Hv n); set_solver).
    rewrite decide_False by done. replace (path ++ current :: n :: rest) with ((path ++ [current]) ++ n :: rest)
      by (by rewrite <-app_assoc). apply IH; try done.
    + by destruct Hw.
    + intros x Hx. specialize (Hv x). set_solver.
    + cbn in *. lia.
Qed.
End Ingress.

Lemma ingress_from_prefix g target acc ep : acc `prefix_of` ingress_from g target acc ep.
Proof.
  unfold ingress_from. destruct (_ <=? _)%nat; [done|]. case_decide; [by apply prefix_app_r|].
  apply ingress_dfs_prefix.
Qed.

Lemma ingress_hops_ok g target : found_ok g target (ingress_hops g target).
Proof.
  unfold ingress_hops.
  assert (forall ep, ep ∈ Entrypoints g -> ep ∈ entrypoints g) as Hin.
  { intros ep. unfold Entrypoints. by rewrite sort_strings_elem, elem_of_elements. }
  assert (found_ok g target []) as H0 by (split; [done|cbn; lia]).
  revert Hin H0. generalize (Entrypoints g) ([] : list (list gostring)).
  intros eps. induction eps as [|ep eps IH]; intros acc Hin Hacc; cbn [fold_left]; [done|].
  apply IH; [intros; apply Hin; by right|]. unfold ingress_from.
  destruct (maxIngressPaths <=? length acc)%nat eqn:El; [done|]. bool_simpl.
  assert (ep ∈ entrypoints g) as Hep by (apply Hin; by left). case_decide as Et.
  - subst. apply (found_snoc _ _ _ target); [done..|]. split; [done|]. split; [done|]. split; [done|]. apply NoDup_singleton.
  - apply (ingress_dfs_sound g target _ ep); try done; [apply NoDup_singleton|set_solver].
Qed.

(** every reported ingress path starts at an entrypoint, ends at the
    target, follows edges of the graph and visits no service twice; at most
    100 are reported. *)
Theorem AllIngressPaths_sound g target :
  (length (AllIngressPaths g target) <= 100)%nat /\
  Forall (fun p => Entrypoint p ∈ entrypoints g /\ ingress_path g (Entrypoint p) target (Hops p))
    (AllIngressPaths g target).
Proof.
  destruct (ingress_hops_ok g target) as [H Hl]. unfold AllIngressPaths. rewrite length_map.
  split; [done|]. apply Forall_map. eapply Forall_impl; [done|]. intros l (ep & Hep & Hp). cbn.
  pose proof Hp as (Hh & _). rewrite Hh. done.
Qed.

Lemma walk_nodes g l : graph_ok g -> walk g l -> (1 < length l)%nat -> forall x, x ∈ l -> x ∈ nodes g.
Proof.
  intros Hg. induction l as [|a [|b [|c l]] IH]; intros Hw Hl x Hx; [cbn in Hl; lia..| |].
  - destruct Hw as [(e & He & _ & <-) _]. apply (go_edges _ Hg) in He as (_ & <- & ? & ?). set_solver.
  - destruct Hw as [(e & He & _ & Hb) Hw]. apply elem_of_cons in Hx as [->|Hx]; [|apply IH; [done|cbn; lia|done]].
    by apply (go_edges _ Hg) in He as (_ & <- & ? & ?).
Qed.

(** below the cap no path is missed: every simple path from an entrypoint
    to the target is reported. *)
Theorem AllIngressPaths_complete g target ep l :
  graph_ok g -> ep ∈ entrypoints g -> ingress_path g ep target l ->
  (length (AllIngressPaths g target) < 100)%nat ->
  mkPath ep l ∈ AllIngressPaths g target.
Proof.
  intros Hg Hep (Hh & Hla & Hw & Hn). unfold AllIngressPaths. rewrite length_map. intros Hlen.
  assert (l ∈ ingress_hops g target) as Hin.
  { unfold ingress_hops in *. revert Hlen. apply (fold_finds (ingress_from g target) _ ep).
    - apply ingress_from_prefix.
    - unfold Entrypoints. by rewrite sort_strings_elem, elem_of_elements.
    - intros acc. unfold ingress_from.
      destruct (maxIngressPaths <=? length acc)%nat eqn:El; bool_simpl; [unfold maxIngressPaths in *; lia|].
      destruct l as [|x rest]; [done|]. injection Hh as ->. case_decide as Et.
      + intros _. subst. destruct rest as [|n rest]; [set_solver|]. exfalso.
        apply NoDup_cons in Hn as [Hn _]. apply Hn. rewrite last_cons_cons in Hla. by apply last_Some_elem_of in Hla.
      + apply (ingress_dfs_complete g target _ ep rest []); try done.
        unfold ingress_fuel. destruct rest as [|n rest]; [cbn; lia|].
        assert (length (ep :: n :: rest) <= size (nodes g))%nat; [|lia].
        rewrite <-(size_list_to_set (C := gset gostring)) by done. apply subseteq_size.
        intros y. rewrite elem_of_list_to_set. apply walk_nodes; [done..|cbn; lia]. }
  apply list_elem_of_fmap. exists l. split; [|done]. destruct l as [|x rest]; [done|]. by injection Hh as ->.
Qed.

(** ** Cycles *)
Definition closed_walk (g : ServiceGraph) (start : gostring) (p : list gostring) : Prop :=
  exists mid, p = start :: mid ++ [start] /\ mid <> [] /\ NoDup (start :: mid) /\ walk g p.

Section Cycle.
Context (g : ServiceGraph) (scc : list gostring) (start : gostring).

Definition path_ok (path : list gostring) (visited : gset gostring) : Prop :=
  walk g path /\ NoDup path /\ head path = Some start /\ forall x, x ∈ path -> x ∈ visited.

(** The visited set only grows. *)
Lemma cycle_loop_mono rec curr path ns : forall visited,
  (forall n v, v ⊆ (rec n v).2) -> visited ⊆ (cycle_loop rec scc start curr path ns visited).2.
Proof.
  induction ns as [|n ns IH]; intros visited Hr; cbn [cycle_loop]; [done|].
  repeat (case_decide; auto). pose proof (Hr n visited) as Hn.
  destruct (rec n visited) as [[p|] v]; cbn in Hn |- *; [done|]. etrans; [exact Hn|]. by apply IH.
Qed.
Lemma cycle_dfs_mono fuel : forall curr path visited,
  visited ⊆ (cycle_dfs fuel g scc start curr path visited).2.
Proof.
  induction fuel as [|fuel IH]; intros curr path visited; cbn [cycle_dfs]; [done|].
  etrans; [|apply cycle_loop_mono; intros; apply IH]. set_solver.
Qed.

Lemma cycle_loop_sound rec curr path0 ns : forall visited,
  let path := path0 ++ [curr] in
  (forall n v p v', path_ok (path ++ [n]) ({[n]} ∪ v) -> rec n v = (Some p, v') -> closed_walk g start p) ->
  (forall n v, v ⊆ (rec n v).2) ->
  (forall n, n ∈ ns -> edge_to g curr n) -> path_ok path visited ->
  forall p v', cycle_loop rec scc start curr path ns visited = (Some p, v') -> closed_walk g start p.
Proof.
  cbn zeta. induction ns as [|n ns IH]; intros visited Hrec Hmono Hns Hp p v'; cbn [cycle_loop]; [done|].
  assert (forall m, m ∈ ns -> edge_to g curr m) as Hns' by (intros; apply Hns; by right).
  assert (edge_to g curr n) as He by (apply Hns; by left).
  case_decide as E1; [by apply IH|]. case_decide as E2; [|by apply IH]. case_decide as E3.
  { intros [= <- _]. subst n. destruct Hp as (Hw & Hn & Hh & _).
    destruct path0 as [|x mid]; [by injection Hh as ->|]. injection Hh as ->.
    exists (mid ++ [curr]). split; [done|]. split; [by destruct mid|]. split; [done|].
    by apply walk_snoc. }
  case_decide as E4; [by apply IH|]. destruct Hp as (Hw & Hn & Hh & Hv).
  assert (path_ok ((path0 ++ [curr]) ++ [n]) ({[n]} ∪ visited)) as Hp'.
  { split; [by apply walk_snoc|]. split.
    { apply NoDup_app. split; [done|]. split; [|by apply NoDup_singleton]. intros y Hy ->%list_elem_of_singleton. auto. }
    split; [by destruct path0|]. intros y [Hy|Hy%list_elem_of_singleton]%elem_of_app; set_solver. }
  pose proof (Hmono n visited) as Hm. destruct (rec n visited) as [[q|] v] eqn:Er.
  { intros [= <- _]. by eapply Hrec. }
  apply IH; [done..|]. cbn in Hm. repeat (split; [done|]). set_solver.
Qed.

Lemma cycle_dfs_sound fuel : forall curr path visited,
  path_ok (path ++ [curr]) ({[curr]} ∪ visited) ->
  forall p v', cycle_dfs fuel g scc start curr path visited = (Some p, v') -> closed_walk g start p.
Proof.
  induction fuel as [|fuel IH]; intros curr path visited Hp p v'; cbn [cycle_dfs]; [done|].
  apply cycle_loop_sound; [|intros; apply cycle_dfs_mono|intros n; apply Neighbors_elem|done].
  intros n v q v2 Hq. by apply IH.
Qed.
End Cycle.

(** a cycle that [Validate] reports is one: a closed walk along edges of
    the graph through at least two services, none of them twice. *)
Theorem Validate_cycle_sound g p :
  Validate g = Some (CycleDetected p) -> exists start, closed_walk g start p.
Proof.
  unfold Validate. destruct (List.find _ _) as [scc|]; [|done]. unfold findCycleInSCC.
  destruct scc as [|start scc]; [done|].
  destruct (cycle_dfs _ _ _ _ _ _ _) as [[q|] v] eqn:E; [|done]. intros [= <-]. exists start.
  eapply cycle_dfs_sound; [|exact E]. split; [done|]. split; [apply NoDup_singleton|].
  split; [done|]. set_solver.
Qed.

(** ** Merging *)
Lemma all_edges_elem g e : e ∈ all_edges g <-> exists a, e ∈ adjacent (edges g) a.
Proof.
  unfold all_edges. rewrite list_elem_of_In, in_concat. split.
  - intros (l & Hl & He). apply in_map_iff in Hl as ([a l'] & <- & Hl).
    apply list_elem_of_In, elem_of_map_to_list in Hl. exists a. unfold adjacent. rewrite Hl. by apply list_elem_of_In.
  - intros [a He]. unfold adjacent in He. destruct (edges g !! a) as [l|] eqn:Ea; [|by apply elem_of_nil in He].
    exists l. split; [|by apply list_elem_of_In]. apply in_map_iff. exists (a, l). split; [done|].
    apply list_elem_of_In, elem_of_map_to_list. done.
Qed.

Definition has_edge (g : ServiceGraph) (e : Edge) : Prop := e ∈ adjacent (edges g) (From e).
Definition has_key (g : ServiceGraph) (k : gostring) : Prop := exists e, has_edge g e /\ edge_key e = k.

Lemma AddEdge_has e g e' : Tombstone e = false -> has_edge (AddEdge e g) e' <-> has_edge g e' \/ e' = e.
Proof.
  intros Ht. unfold has_edge, AddEdge. rewrite Ht. cbn. rewrite adjacent_insert. case_decide as E.
  - rewrite elem_of_app, list_elem_of_singleton, E. done.
  - split; [by left|]. intros [?| ->]; done.
Qed.

Lemma add_unseen_spec ts l : forall seen m seen' m',
  add_unseen ts l (seen, m) = (seen', m') -> Forall (fun e => Tombstone e = false) l ->
  graph_ok m -> (forall k, k ∈ seen -> has_key m k) ->
  graph_ok m' /\ (forall k, k ∈ seen' -> has_key m' k) /\
  (forall e, has_edge m' e -> has_edge m e \/ e ∈ l) /\ (forall e, has_edge m e -> has_edge m' e) /\
  (forall e, e ∈ l -> edge_key e ∉ ts -> has_key m' (edge_key e)) /\
  entrypoints m' = entrypoints m /\
  (forall n, n ∈ nodes m' -> n ∈ nodes m \/ exists e, e ∈ l /\ (n = From e \/ n = To e)).
Proof.
  induction l as [|e l IH]; intros seen m seen' m'; cbn [add_unseen].
  { intros [= <- <-] _ Hm Hs. repeat (split; [done|]). split; [by left|]. split; [done|].
    split; [by intros ? ?%elem_of_nil|]. split; [done|]. by left. }
  intros H [He Hl]%Forall_cons Hm Hs.
  assert (forall e', has_edge m e' \/ e' ∈ l -> has_edge m e' \/ e' ∈ e :: l) as Hcons by set_solver.
  case_decide as E1; [|case_decide as E2].
  - destruct (IH _ _ _ _ H Hl Hm Hs) as (A1 & A2 & A3 & A4 & A5 & A6 & A7).
    repeat (split; [by auto|]). split; [|split; [done|set_solver]].
    intros e' [->|He']%elem_of_cons Hn; [done|auto].
  - destruct (IH _ _ _ _ H Hl Hm Hs) as (A1 & A2 & A3 & A4 & A5 & A6 & A7).
    repeat (split; [by auto|]). split; [|split; [done|set_solver]].
    intros e' [->|He']%elem_of_cons Hn; [|auto].
    destruct (Hs _ E2) as (e2 & He2 & Hk). exists e2. auto.
  - destruct (IH _ _ _ _ H Hl (AddEdge_ok e m Hm)) as (A1 & A2 & A3 & A4 & A5 & A6 & A7).
    { intros k [->%elem_of_singleton|Hk]%elem_of_union.
      - exists e. split; [|done]. apply AddEdge_has; [done|by right].
      - destruct (Hs _ Hk) as (e2 & He2 & Hk2). exists e2. split; [|done]. apply AddEdge_has; [done|by left]. }
    assert (has_edge m' e) as Hee by (apply A4, AddEdge_has; [done|by right]).
    repeat (split; [by auto|]). split.
    { intros e' [[?| ->]%AddEdge_has|?]%A3; [by left|right; by left|done|right; by right]. }
    split; [intros e' ?; apply A4, AddEdge_has; [done|by left]|].
    split; [intros e' [->|He']%elem_of_cons Hn; [by exists e|auto]|].
    split; [rewrite A6; unfold AddEdge; by destruct (Tombstone e)|].
    intros n [Hn|(e' & He' & Hn)]%A7; [|right; exists e'; set_solver].
    unfold AddEdge in Hn. destruct (Tombstone e); cbn in Hn; set_solver.
Qed.

Lemma graph_ok_mono g eps ns : graph_ok g -> nodes g ⊆ ns -> eps ⊆ ns ->
  graph_ok (mkGraph (edges g) (reverse_edges g) eps ns).
Proof.
  intros [He Hr Hd Hn] Hsub Heps. split; cbn; [|done..].
  intros a e (?&?&?&?)%He. repeat split; [done..|set_solver|set_solver].
Qed.

(** The listings [Merge] is given. *)
Definition listed (g : ServiceGraph) (l : list Edge) : Prop := forall e, e ∈ l <-> e ∈ all_edges g.
Lemma listed_has g l e : graph_ok g -> listed g l -> e ∈ l <-> has_edge g e.
Proof.
  intros Hg Hl. rewrite (Hl e), all_edges_elem. unfold has_edge. split; [|eauto].
  intros [a He]. by destruct (go_edges _ Hg _ _ He) as (_ & -> & _).
Qed.
Lemma listed_live g l : graph_ok g -> listed g l -> Forall (fun e => Tombstone e = false) l.
Proof.
  intros Hg Hl. apply Forall_forall. intros e He%Hl%all_edges_elem. destruct He as [a He].
  by destruct (go_edges _ Hg _ _ He).
Qed.
Lemma Edges_order_listed g l : graph_ok g -> Edges_order g l -> listed g l.
Proof.
  intros Hg [Hp _] e. rewrite Hp, list_elem_of_filter. split; [by intros [_ ?]|].
  intros He. split; [|done]. apply all_edges_elem in He as [a He]. by destruct (go_edges _ Hg _ _ He).
Qed.

Lemma filter_live l : Forall (fun e => Tombstone e = false) l ->
  List.filter (fun e => negb (Tombstone e)) l = l /\ List.filter Tombstone l = [].
Proof. induction 1 as [|e l He _ [IH1 IH2]]; cbn; [done|]. rewrite He. cbn. by rewrite IH1. Qed.

Lemma Merge_facts ge oe g other :
  graph_ok g -> graph_ok other -> Edges_order g ge -> listed other oe ->
  let m := Merge ge oe g other in
  graph_ok m /\
  (forall e, has_edge m e -> has_edge g e \/ has_edge other e) /\
  (forall e, has_edge g e \/ has_edge other e -> has_key m (edge_key e)) /\
  nodes m = nodes g ∪ nodes other /\ entrypoints m = entrypoints g ∪ entrypoints other.
Proof.
  intros Hg Ho Hge Hoe m. pose proof (Edges_order_listed _ _ Hg Hge) as Hgl.
  pose proof (listed_live _ _ Hg Hgl) as Hgt. pose proof (listed_live _ _ Ho Hoe) as Hot.
  destruct (filter_live _ Hot) as [Hf Ht].
  subst m. unfold Merge, tombstone_keys. rewrite Hf, Ht. cbn [map list_to_set].
  destruct (add_unseen _ ge _) as [s1 m1] eqn:E1. destruct (add_unseen _ oe _) as [s2 m2] eqn:E2.
  destruct (add_unseen_spec _ _ _ _ _ _ E1 Hgt new_graph_ok) as (A1 & A2 & A3 & A4 & A5 & A6 & A7); [set_solver|].
  destruct (add_unseen_spec _ _ _ _ _ _ E2 Hot A1 A2) as (B1 & B2 & B3 & B4 & B5 & B6 & B7).
  assert (entrypoints m2 = ∅) as Hep by (rewrite B6, A6; done).
  assert (nodes m2 ⊆ nodes g ∪ nodes other) as Hnodes.
  { intros n [[Hn|(e & He & Hn)]%A7|(e & He & Hn)]%B7; [cbn in Hn; set_solver| |].
    - apply (listed_has _ _ _ Hg Hgl), (go_edges _ Hg) in He as (_ & _ & ? & ?). set_solver.
    - apply (listed_has _ _ _ Ho Hoe), (go_edges _ Ho) in He as (_ & _ & ? & ?). set_solver. }
  pose proof (go_entry _ Hg). pose proof (go_entry _ Ho).
  split; [apply graph_ok_mono; [done|set_solver|rewrite Hep; set_solver]|].
  split.
  { intros e [[He|He]%A3|He]%B3.
    - unfold has_edge in He. cbn in He. rewrite adjacent_empty in He. by apply elem_of_nil in He.
    - left. by apply (listed_has _ _ _ Hg Hgl).
    - right. by apply (listed_has _ _ _ Ho Hoe). }
  split; [|split; [cbn; set_solver|cbn; rewrite Hep; set_solver]].
  intros e [He|He].
  - apply (listed_has _ _ _ Hg Hgl), A5 in He as (e' & He' & Hk); [|set_solver]. exists e'. split; [by apply B4|done].
  - apply (listed_has _ _ _ Ho Hoe), B5 in He as (e' & He' & Hk); [|set_solver]. by exists e'.
Qed.

(** ** Graphs built through the methods of the type *)
Inductive graph_op := OpEdge (e : Edge) | OpNode (s : gostring) | OpEntrypoint (s : gostring).
Definition graph_run (op : graph_op) : ServiceGraph -> ServiceGraph :=
  match op with OpEdge e => AddEdge e | OpNode s => AddNode s | OpEntrypoint s => AddEntrypoint s end.
Definition build (ops : list graph_op) : ServiceGraph := fold_left (fun g op => graph_run op g) ops NewServiceGraph.

Lemma graph_run_ok op g : graph_ok g -> graph_ok (graph_run op g).
Proof. destruct op; [apply AddEdge_ok|apply AddNode_ok|apply AddEntrypoint_ok]. Qed.
Lemma build_ok ops : graph_ok (build ops).
Proof.
  unfold build. generalize new_graph_ok. generalize NewServiceGraph.
  induction ops as [|op ops IH]; intros g Hg; [done|]. by apply IH, graph_run_ok.
Qed.

Lemma edge_to_from g a b : graph_ok g -> edge_to g a b <-> edge_from g a b.
Proof.
  intros Hg. split; intros (e & He & Ht & <-).
  - destruct (go_edges _ Hg _ _ He) as (_ & <- & _). exists e. split; [by apply (go_dual _ Hg)|done].
  - pose proof (go_reverse _ Hg _ _ He) as <-. exists e. split; [by apply (go_dual _ Hg)|done].
Qed.

Lemma graph_run_has op g e : has_edge (graph_run op g) e <->
  has_edge g e \/ (op = OpEdge e /\ Tombstone e = false).
Proof.
  destruct op as [e'|s|s]; cbn [graph_run]; [|unfold has_edge; cbn; naive_solver..].
  destruct (Tombstone e') eqn:Et.
  - unfold has_edge, AddEdge. rewrite Et. cbn. naive_solver congruence.
  - rewrite AddEdge_has by done. naive_solver.
Qed.
Lemma build_has ops e : has_edge (build ops) e <-> OpEdge e ∈ ops /\ Tombstone e = false.
Proof.
  unfold build.
  enough (forall g, has_edge (fold_left (fun g op => graph_run op g) ops g) e <->
    has_edge g e \/ (OpEdge e ∈ ops /\ Tombstone e = false)) as ->.
  { unfold has_edge at 1. cbn. rewrite adjacent_empty. set_solver. }
  induction ops as [|op ops IH]; intros g; cbn [fold_left]; [set_solver|].
  rewrite IH, graph_run_has. set_solver.
Qed.

(** in a graph built by any sequence of calls, [b] is a neighbour of [a]
    exactly when [a] is an upstream caller of [b], which is exactly when a
    live edge from [a] to [b] was added; neighbours are listed once. *)
Theorem neighbors_dual ops a b :
  (b ∈ Neighbors (build ops) a <-> a ∈ UpstreamCallers (build ops) b) /\
  (b ∈ Neighbors (build ops) a <->
     exists e, OpEdge e ∈ ops /\ Tombstone e = false /\ From e = a /\ To e = b) /\
  NoDup (Neighbors (build ops) a) /\
  (b ∈ Neighbors (build ops) a -> a ∈ Services (build ops) /\ b ∈ Services (build ops)).
Proof.
  pose proof (build_ok ops) as Hg. rewrite Neighbors_elem, UpstreamCallers_elem.
  split; [by apply edge_to_from|]. split; [|split; [apply Neighbors_NoDup|]].
  - split.
    + intros (e & He & Ht & Hb). pose proof (go_edges _ Hg _ _ He) as (_ & Ha & _). exists e.
      split; [|done]. apply build_has. unfold has_edge. by rewrite Ha.
    + intros (e & He & Ht & <- & Hb). exists e. split; [|done]. by apply build_has.
  - intros (e & He & _ & <-). apply (go_edges _ Hg) in He as (_ & <- & ? & ?).
    unfold Services. by rewrite !sort_strings_elem, !elem_of_elements.
Qed.

(** merging keeps every edge of both graphs (by its end points), adds no
    other, unions nodes and entrypoints and gives a well-formed graph. *)
Theorem Merge_keeps_edges ge oe g other :
  graph_ok g -> graph_ok other -> Edges_order g ge -> listed other oe ->
  let m := Merge ge oe g other in
  graph_ok m /\
  (forall e, has_edge m e -> has_edge g e \/ has_edge other e) /\
  (forall e, has_edge g e \/ has_edge other e -> has_key m (edge_key e)) /\
  nodes m = nodes g ∪ nodes other /\ entrypoints m = entrypoints g ∪ entrypoints other.
Proof. apply Merge_facts. Qed.

(** ** Selected services *)
Lemma sub_nodes g services : forall s0, graph_ok s0 ->
  let s1 := fold_left (select_node g) services s0 in
  graph_ok s1 /\ edges s1 = edges s0 /\ reverse_edges s1 = reverse_edges s0 /\
  entrypoints s1 = entrypoints s0 /\
  forall n, n ∈ nodes s1 <-> n ∈ nodes s0 \/ (n ∈ services /\ n ∈ nodes g).
Proof.
  induction services as [|s l IH]; intros s0 H0; cbn [fold_left]; [set_solver|].
  replace (select_node g s0 s) with (if decide (s ∈ nodes g) then AddNode s s0 else s0) by done.
  case_decide as E.
  - destruct (IH (AddNode s s0) (AddNode_ok s _ H0)) as (A1 & A2 & A3 & A4 & A5).
    do 4 (split; [done|]). intros n. rewrite A5. cbn. set_solver.
  - destruct (IH s0 H0) as (A1 & A2 & A3 & A4 & A5). do 4 (split; [done|]). intros n. rewrite A5. set_solver.
Qed.
Lemma sub_edges (services : list gostring) ge : forall s0, graph_ok s0 -> Forall (fun e => Tombstone e = false) ge ->
  let s1 := fold_left (select_edge services) ge s0 in
  graph_ok s1 /\ entrypoints s1 = entrypoints s0 /\
  (forall e, has_edge s1 e <-> has_edge s0 e \/ (e ∈ ge /\ From e ∈ services /\ To e ∈ services)) /\
  (forall n, n ∈ nodes s1 <-> n ∈ nodes s0 \/
     exists e, e ∈ ge /\ From e ∈ services /\ To e ∈ services /\ (n = From e \/ n = To e)).
Proof.
  induction ge as [|e l IH]; intros s0 H0; cbn [fold_left].
  { intros _. repeat (split; [set_solver|]). set_solver. }
  intros [He Hl]%Forall_cons.
  replace (select_edge services s0 e) with (if decide (From e ∈ services /\ To e ∈ services) then AddEdge e s0 else s0) by done.
  case_decide as E.
  - destruct (IH _ (AddEdge_ok e _ H0) Hl) as (A1 & A2 & A3 & A4). split; [done|].
    split; [rewrite A2; unfold AddEdge; by rewrite He|]. split.
    + intros e'. rewrite A3, AddEdge_has by done. set_solver.
    + intros n. rewrite A4. unfold AddEdge. rewrite He. cbn. set_solver.
  - destruct (IH _ H0 Hl) as (A1 & A2 & A3 & A4). split; [done|]. split; [done|].
    split; intros x; [rewrite A3|rewrite A4]; set_solver.
Qed.

(** the subgraph of a set of services has exactly the edges between
    them, and exactly those nodes and entrypoints of the graph. *)
Theorem Subgraph_induced ge g services :
  graph_ok g -> Edges_order g ge ->
  let sub := Subgraph ge g services in
  graph_ok sub /\
  (forall e, has_edge sub e <-> has_edge g e /\ From e ∈ services /\ To e ∈ services) /\
  (forall n, n ∈ nodes sub <-> n ∈ nodes g /\ n ∈ services) /\
  (forall ep, ep ∈ entrypoints sub <-> ep ∈ entrypoints g /\ ep ∈ services).
Proof.
  intros Hg Hge sub. pose proof (Edges_order_listed _ _ Hg Hge) as Hl.
  destruct (sub_nodes g services _ new_graph_ok) as (A1 & A2 & A3 & A4 & A5).
  destruct (sub_edges services ge _ A1 (listed_live _ _ Hg Hl)) as (B1 & B2 & B3 & B4).
  rewrite A4 in B2. subst sub. unfold Subgraph. pose proof (go_entry _ Hg) as Hep.
  split; [|split; [|split]].
  - apply graph_ok_mono; [done|set_solver|rewrite B2; set_solver].
  - intros e. change (has_edge (fold_left (select_edge services) ge
      (fold_left (select_node g) services NewServiceGraph)) e <-> has_edge g e /\ From e ∈ services /\ To e ∈ services).
    rewrite B3, (listed_has _ _ _ Hg Hl). unfold has_edge at 1. rewrite A2. cbn. rewrite adjacent_empty. set_solver.
  - intros n. cbn. rewrite elem_of_union, elem_of_filter, B4, A5. cbn. split; [|set_solver].
    intros [?|[?|(e & He & ? & ? & Hn)]]; [set_solver..|].
    apply (listed_has _ _ _ Hg Hl), (go_edges _ Hg) in He as (_ & _ & ? & ?). destruct Hn as [-> | ->]; done.
  - intros ep. cbn. rewrite B2. cbn. set_solver.
Qed.

(** ** Witnesses *)
Definition demo_ab : Edge := mkEdge #"a" #"b" [] #"static" false.
Definition demo_ba : Edge := mkEdge #"b" #"a" [] #"static" false.
Definition demo_ac : Edge := mkEdge #"a" #"c" [] #"static" false.
Definition demo_graph : ServiceGraph := build [OpEntrypoint #"a"; OpEdge demo_ab; OpEdge demo_ba].
Definition demo_other : ServiceGraph := build [OpEdge demo_ac].

Lemma demo_listed : listed demo_graph [demo_ab; demo_ba].
Proof.
  intros e. pose proof (Edges_order_listed demo_graph) as _. rewrite all_edges_elem. split.
  - intros He. exists (From e). apply build_has. set_solver.
  - intros [a He]. pose proof (go_edges _ (build_ok _) _ _ He) as (_ & <- & _).
    apply build_has in He. set_solver.
Qed.
Lemma demo_order : Edges_order demo_graph [demo_ab; demo_ba].
Proof. split; [|repeat constructor]. vm_compute. apply Permutation_refl || apply perm_swap. Qed.
Lemma demo_other_listed : listed demo_other [demo_ac].
Proof.
  intros e. rewrite all_edges_elem. split.
  - intros He. exists (From e). apply build_has. set_solver.
  - intros [a He]. pose proof (go_edges _ (build_ok _) _ _ He) as (_ & <- & _).
    apply build_has in He. set_solver.
Qed.

Lemma AllIngressPaths_complete_witness :
  mkPath #"a" [ #"a"; #"b"] ∈ AllIngressPaths demo_graph #"b".
Proof.
  apply (AllIngressPaths_complete demo_graph #"b" #"a" [ #"a"; #"b"]).
  - apply build_ok.
  - vm_compute. exact eq_refl || done.
  - split; [done|]. split; [done|]. split; [|by vm_compute; repeat constructor; set_solver].
    split; [|done]. exists demo_ab. split; [|done]. apply (build_has _ demo_ab). set_solver.
  - apply Nat.ltb_lt. vm_compute. reflexivity.
Defined.

Lemma Validate_cycle_sound_witness :
  Validate demo_graph = Some (CycleDetected [ #"a"; #"b"; #"a"]) /\
  exists start, closed_walk demo_graph start [ #"a"; #"b"; #"a"].
Proof.
  assert (Validate demo_graph = Some (CycleDetected [ #"a"; #"b"; #"a"])) as H by (vm_compute; reflexivity).
  split; [exact H|]. exact (Validate_cycle_sound demo_graph _ H).
Defined.

Lemma Merge_keeps_edges_witness :
  has_key (Merge [demo_ab; demo_ba] [demo_ac] demo_graph demo_other) (edge_key demo_ab) /\
  has_key (Merge [demo_ab; demo_ba] [demo_ac] demo_graph demo_other) (edge_key demo_ac).
Proof.
  pose proof (Merge_keeps_edges _ _ _ _ (build_ok _) (build_ok _) demo_order demo_other_listed) as (_ & _ & H & _).
  split; apply H; [left|right]; apply build_has; set_solver.
Defined.

Lemma Subgraph_induced_witness :
  ~ has_edge (Subgraph [demo_ab; demo_ba] demo_graph [ #"a"; #"c"]) demo_ab.
Proof.
  pose proof (Subgraph_induced _ _ [ #"a"; #"c"] (build_ok _) demo_order) as (_ & H & _).
  intros (_ & _ & Hb)%H. revert Hb. vm_compute. intros Hb. set_solver.
Defined.
