(* ===== verification/Discovery.v ===== *)
(** * Topology discovery: [pkg/topology/discover*.go] and [cache.go]

    The sources a service graph is built from: the static configuration,
    Gateway API routes, Prometheus metrics, their composition, and the cache
    that serves the last graph.  The Kubernetes and Prometheus clients are
    parameters; what they return is data. *)

From S2P Require Import Prelude GoStrings GoSort Topology.
Local Open Scope Z_scope.

(** ** [discover_static.go] *)
Record StaticServiceConfig := mkStaticService { DependsOn : list gostring; IsEntrypoint : bool }.

(** One iteration of the loop over [Config.Services]. *)
Definition static_service (graph : ServiceGraph) (svc : gostring * StaticServiceConfig) : ServiceGraph :=
  let '(svcName, svcConfig) := svc in
  let graph := AddNode svcName graph in
  let graph := if IsEntrypoint svcConfig then AddEntrypoint svcName graph else graph in
  fold_left (fun graph dep => AddEdge (mkEdge svcName dep [] #"static" false) graph) (DependsOn svcConfig) graph.
(** [services] are the entries of the map in the order of its iteration. *)
Definition StaticDiscover (services : list (gostring * StaticServiceConfig)) : ServiceGraph :=
  fold_left static_service services NewServiceGraph.

(** ** [discover_gateway.go] *)
Record Ref := mkRef { ref_namespace : option gostring; ref_name : gostring }.
Record Condition := mkCondition { cond_type : gostring; cond_status : gostring }.
Record Route := mkRoute {
  route_namespace : gostring;
  route_parents : list Ref;
  route_rules : list (list Ref);
  route_status : list (list Condition) }.

Definition isRouteAccepted (parents : list (list Condition)) : bool :=
  existsb (existsb (fun c => str_eqb (cond_type c) #"Accepted" && str_eqb (cond_status c) #"True")) parents
  || (length parents =? 0)%nat.

(** The name of a referenced object, qualified when it is in another
    namespace than the route. *)
Definition scoped_name (route : Route) (r : Ref) : gostring :=
  match ref_namespace r with
  | Some ns => if negb (str_eqb ns (route_namespace route)) then ns ++ #"/" ++ ref_name r else ref_name r
  | None => ref_name r
  end.

Definition route_edges (protocol : gostring) (route : Route) : list Edge :=
  if isRouteAccepted (route_status route) then
    route_parents route ≫= fun parent =>
      route_rules route ≫= fun rule =>
        map (fun backend => mkEdge (scoped_name route parent) (scoped_name route backend) protocol #"gateway-api" false) rule
  else [].
Definition add_edges (l : list Edge) (g : ServiceGraph) : ServiceGraph := fold_left (fun g e => AddEdge e g) l g.
Definition add_routes (protocol : gostring) (routes : list Route) (g : ServiceGraph) : ServiceGraph :=
  fold_left (fun g route => add_edges (route_edges protocol route) g) routes g.

Section Gateway.
(** The API server: each list may fail; [IsNoMatchError] tells that a
    resource type is not installed. *)
Context {error : Type} (list_gateways : gostring -> result error (list gostring))
  (list_http list_grpc : gostring -> result error (list Route)) (IsNoMatchError : error -> bool)
  (wrap : gostring -> gostring -> error -> error).

(** One namespace of [Discover]. *)
Definition gateway_namespace (graph : ServiceGraph) (ns : gostring) : result error ServiceGraph :=
  match list_gateways ns with
  | Err e => Err (wrap #"Gateways" ns e)
  | Ok gws =>
      let graph := fold_left (fun g gw => AddEntrypoint gw g) gws graph in
      match list_http ns with
      | Err e => Err (wrap #"HTTPRoutes" ns e)
      | Ok routes =>
          let graph := add_routes #"http" routes graph in
          match list_grpc ns with
          | Err e => if IsNoMatchError e then Ok graph else Err (wrap #"GRPCRoutes" ns e)
          | Ok routes => Ok (add_routes #"grpc" routes graph)
          end
      end
  end.

Fixpoint gateway_go (nsList : list gostring) (graph : ServiceGraph) : result error ServiceGraph :=
  match nsList with
  | [] => Ok graph
  | ns :: nsList => graph ← gateway_namespace graph ns; gateway_go nsList graph
  end.
Definition GatewayDiscover (namespaces : list gostring) : result error ServiceGraph :=
  gateway_go (match namespaces with [] => [ [] ] | _ => namespaces end) NewServiceGraph.
End Gateway.

(** ** [discover_prometheus.go] *)
Inductive MeshType := MeshNone | MeshIstio | MeshLinkerd | MeshCilium | MeshVanilla | MeshOther (s : gostring).

(** A query result: [model.Vector], a list of metrics, or another type. *)
Inductive query_value := Vector (samples : list (gmap gostring gostring)) | NotVector (type_name : gostring).
Inductive prom_error {error : Type} := QueryFailed (e : error) | ExpectedVector (type_name : gostring).
Arguments prom_error : clear implicits.

Definition dquote : gostring := ["034"%char].

Definition mesh_query (mesh : MeshType) : gostring :=
  match mesh with
  | MeshIstio => #"count(istio_requests_total) > 0"
  | MeshLinkerd => #"count(request_total{direction=" ++ dquote ++ #"outbound" ++ dquote ++
      #"} or response_total{direction=" ++ dquote ++ #"outbound" ++ dquote ++ #"}) > 0"
  | MeshCilium => #"count(hubble_flows_processed_total or hubble_http_requests_total) > 0"
  | _ => []
  end.
Definition detectable : list MeshType := [MeshIstio; MeshLinkerd; MeshCilium].

(** The traffic query of [Discover]; [None] when there is none to run. *)
Definition traffic_query (mesh : MeshType) (namespaces : list gostring) (window : gostring) : option gostring :=
  let nss := GoStrings.Join namespaces #"|" in
  let filter (text : gostring) := match namespaces with [] => [] | _ => text end in
  match mesh with
  | MeshIstio => Some (#"sum by (source_workload, source_workload_namespace, destination_service_name, destination_workload_namespace, request_protocol) (rate(istio_requests_total{reporter=" ++
      dquote ++ #"source" ++ dquote ++
      filter (#",source_workload_namespace=~" ++ dquote ++ nss ++ dquote) ++ #"}[" ++ window ++ #"]))")
  | MeshLinkerd => Some (#"sum by (namespace, deployment, dst_namespace, dst_service, authority) (rate(response_total{direction=" ++
      dquote ++ #"outbound" ++ dquote ++ #"}" ++
      filter (#"{namespace=~" ++ dquote ++ nss ++ dquote ++ #"}") ++ #"[" ++ window ++ #"]))")
  | MeshCilium => Some (#"sum by (source, destination, protocol) (rate(hubble_flows_processed_total{verdict=" ++
      dquote ++ #"FORWARDED" ++ dquote ++ #"}" ++
      filter (#"{source=~" ++ dquote ++ nss ++ #"/.*" ++ dquote ++ #"}") ++ #"[" ++ window ++ #"]))")
  | _ => None
  end.

Definition label (m : gmap gostring gostring) (k : gostring) : gostring := default [] (m !! k).
(** The edge of a sample, if both ends are named. *)
Definition sample_edge (mesh : MeshType) (m : gmap gostring gostring) : option Edge :=
  let '(from, to, protocol) :=
    match mesh with
    | MeshIstio => (label m #"source_workload", label m #"destination_service_name", label m #"request_protocol")
    | MeshLinkerd => (label m #"deployment", label m #"dst_service", [])
    | MeshCilium => (label m #"source", label m #"destination", label m #"protocol")
    | _ => ([], [], [])
    end in
  if str_eqb from [] || str_eqb to [] then None else Some (mkEdge from to protocol #"prometheus" false).

Section Prometheus.
(** [d.api.Query] at the time of the call. *)
Context {error : Type} (Query : gostring -> result error query_value).

(** [DetectMesh]; [meshes] is [detectable] in the order the map of queries
    is iterated. *)
Fixpoint DetectMesh (meshes : list MeshType) : result error MeshType :=
  match meshes with
  | [] => Ok MeshVanilla
  | mesh :: meshes =>
      match Query (mesh_query mesh) with
      | Err e => Err e
      | Ok (Vector (_ :: _)) => Ok mesh
      | Ok _ => DetectMesh meshes
      end
  end.

Definition PrometheusDiscover (meshes : list MeshType) (meshType : MeshType) (window : gostring)
    (namespaces : list gostring) : result (prom_error error) ServiceGraph :=
  match (match meshType with MeshNone => DetectMesh meshes | mesh => Ok mesh end) with
  | Err e => Err (QueryFailed e)
  | Ok mesh =>
      match traffic_query mesh namespaces window with
      | None => Ok NewServiceGraph
      | Some query =>
          match Query query with
          | Err e => Err (QueryFailed e)
          | Ok (NotVector t) => Err (ExpectedVector t)
          | Ok (Vector vec) => Ok (add_edges (omap (sample_edge mesh) vec) NewServiceGraph)
          end
      end
  end.
End Prometheus.

(** ** [discover_k8s.go] *)
Record K8sService := mkK8sService { svc_name : gostring; svc_namespace : gostring; svc_ports : list Z }.

(** [fmt.Sprintf("http://%s.%s.svc:%d", ...)] on the first port, 80 without
    ports. *)
Definition service_url (svc : K8sService) : gostring :=
  #"http://" ++ svc_name svc ++ #"." ++ svc_namespace svc ++ #".svc:" ++
  FormatInt (match svc_ports svc with [] => 80 | p :: _ => p end).
Definition prometheus_namespaces : list gostring :=
  [ #"monitoring"; #"istio-system"; #"linkerd"; #"cilium"; #"default"].

Section K8s.
(** The two lists: by label over all namespaces, and all of one namespace. *)
Context {error : Type} (by_label : result error (list K8sService))
  (list_services : gostring -> result error (list K8sService)).
Fixpoint by_name (nss : list gostring) : option gostring :=
  match nss with
  | [] => None
  | ns :: nss =>
      match list_services ns with
      | Err _ => by_name nss
      | Ok svcs =>
          match List.find (fun svc => Contains (svc_name svc) #"prometheus") svcs with
          | Some svc => Some (service_url svc)
          | None => by_name nss
          end
      end
  end.
(** [None] is the error "prometheus service not found". *)
Definition DiscoverPrometheusURL : option gostring :=
  match by_label with
  | Ok (svc :: _) => Some (service_url svc)
  | _ => by_name prometheus_namespaces
  end.
End K8s.

(** ** [discover.go] *)
(** [Discover] of the composite over the answers of its discoverers: what it
    merges, the names that contributed and those whose failure is logged.
    Each merge iterates the maps of both graphs in some order. *)
Section Composite.
Context {error : Type}.
Inductive composed : list (gostring * result error ServiceGraph) ->
    ServiceGraph -> list gostring -> list gostring -> Prop :=
| composed_nil : composed [] NewServiceGraph [] []
| composed_failed ds name e g sources failed :
    composed ds g sources failed -> composed (ds ++ [(name, Err e)]) g sources (failed ++ [name])
| composed_merged ds name graph g sources failed ge oe :
    composed ds g sources failed -> Edges_order g ge -> oe ≡ₚ all_edges graph ->
    composed (ds ++ [(name, Ok graph)]) (Merge ge oe g graph) (sources ++ [name]) failed.
Definition GraphSource (sources : list gostring) : gostring := GoStrings.Join sources #"+".
End Composite.

(** ** [cache.go] *)
(** Times and durations in nanoseconds; the zero time is [None]. *)
Record topologyCache := mkTopologyCache { tc_graph : ServiceGraph; tc_lastUpdated : option Z; tc_ttl : Z }.
Definition NewTopologyCache (ttl : Z) : topologyCache := mkTopologyCache NewServiceGraph None ttl.
(** [refresh] when the discoverer answers [r] and the clock then shows [now]. *)
Definition refresh {error} (r : result error ServiceGraph) (now : Z) (c : topologyCache)
    : topologyCache * result error ServiceGraph :=
  match r with
  | Err e => (c, Err e)
  | Ok g => (mkTopologyCache g (Some now) (tc_ttl c), Ok g)
  end.
Definition maxDuration : Z := 2 ^ 63 - 1.
Definition minDuration : Z := - 2 ^ 63.
(** [time.Since], which saturates. *)
Definition since (last : option Z) (now : Z) : Z :=
  match last with
  | Some t => Z.max minDuration (Z.min maxDuration (now - t))
  | None => maxDuration
  end.
(** [Get]: the current graph and whether a refresh is started. *)
Definition Get (now : Z) (c : topologyCache) : ServiceGraph * bool :=
  (tc_graph c, tc_ttl c <? since (tc_lastUpdated c) now).

(** * Discovery: what ends up in the graph

    The composite keeps what every working source reported, earlier sources
    first; the Gateway API source reports exactly the references of accepted
    routes. *)

(** ** Which of two edges between the same services a merge keeps *)
Lemma add_unseen_origin ts l : forall seen m seen' m' e,
  add_unseen ts l (seen, m) = (seen', m') -> Forall (fun e => Tombstone e = false) l ->
  has_edge m' e -> has_edge m e \/ (e ∈ l /\ edge_key e ∉ seen).
Proof.
  induction l as [|x l IH]; intros seen m seen' m' e; cbn [add_unseen].
  { intros [= <- <-]. by left. }
  intros H [Hx Hl]%Forall_cons He. case_decide; [|case_decide].
  - destruct (IH _ _ _ _ _ H Hl He); [by left|right; set_solver].
  - destruct (IH _ _ _ _ _ H Hl He); [by left|right; set_solver].
  - destruct (IH _ _ _ _ _ H Hl He) as [[?| ->]%AddEdge_has|]; [by left|right; set_solver|done|right; set_solver].
Qed.
Lemma add_unseen_seen ts l : forall seen m seen' m',
  add_unseen ts l (seen, m) = (seen', m') ->
  seen ⊆ seen' /\ forall e, e ∈ l -> edge_key e ∉ ts -> edge_key e ∈ seen'.
Proof.
  induction l as [|x l IH]; intros seen m seen' m'; cbn [add_unseen].
  { intros [= <- <-]. split; [done|]. by intros ? ?%elem_of_nil. }
  intros H. case_decide; [|case_decide]; destruct (IH _ _ _ _ H) as [Hs1 Hs2].
  - split; [done|]. set_solver.
  - split; [done|]. intros e [->|He]%elem_of_cons; [set_solver|auto].
  - split; [set_solver|]. intros e [->|He]%elem_of_cons; [set_solver|auto].
Qed.

Lemma Merge_precedence ge oe g other e :
  graph_ok g -> graph_ok other -> Edges_order g ge -> listed other oe ->
  has_edge (Merge ge oe g other) e -> has_edge g e \/ (has_edge other e /\ ~ has_key g (edge_key e)).
Proof.
  intros Hg Ho Hge Hoe. pose proof (Edges_order_listed _ _ Hg Hge) as Hgl.
  destruct (filter_live _ (listed_live _ _ Ho Hoe)) as [Hf Ht].
  unfold Merge, tombstone_keys. rewrite Hf, Ht. cbn [map list_to_set].
  destruct (add_unseen _ ge _) as [s1 m1] eqn:E1. destruct (add_unseen _ oe _) as [s2 m2] eqn:E2.
  intros He.
  destruct (add_unseen_origin _ _ _ _ _ _ e E2 (listed_live _ _ Ho Hoe) He) as [H|[H1 H2]].
  - left. destruct (add_unseen_origin _ _ _ _ _ _ e E1 (listed_live _ _ Hg Hgl) H) as [H'|[H' _]].
    + unfold has_edge in H'. cbn in H'. rewrite adjacent_empty in H'. by apply elem_of_nil in H'.
    + by apply (listed_has _ _ _ Hg Hgl).
  - right. split; [by apply (listed_has _ _ _ Ho Hoe)|]. intros (e' & He' & Hk).
    apply H2. rewrite <-Hk. destruct (add_unseen_seen _ _ _ _ _ _ E1) as [_ Hs]. apply Hs; [|set_solver].
    by apply (listed_has _ _ _ Hg Hgl).
Qed.

(** ** The composite *)
Definition answers_ok {error} (ds : list (gostring * result error ServiceGraph)) : Prop :=
  forall name graph, (name, Ok graph) ∈ ds -> graph_ok graph.

(** [e] comes from the first source that knows an edge between its ends. *)
Definition first_source {error} (ds : list (gostring * result error ServiceGraph)) (e : Edge) : Prop :=
  exists before name graph after, ds = before ++ (name, Ok graph) :: after /\ has_edge graph e /\
    forall n g', (n, Ok g') ∈ before -> ~ has_key g' (edge_key e).

Lemma first_source_snoc {error} ds (x : gostring * result error ServiceGraph) e :
  first_source ds e -> first_source (ds ++ [x]) e.
Proof.
  intros (b & n & g & a & -> & He & Hb). exists b, n, g, (a ++ [x]). by rewrite <-app_assoc.
Qed.

Lemma composed_facts {error} (ds : list (gostring * result error ServiceGraph)) g sources failed :
  composed ds g sources failed -> answers_ok ds ->
  graph_ok g /\ (forall e, has_edge g e -> first_source ds e) /\
  (forall name graph e, (name, Ok graph) ∈ ds -> has_edge graph e -> has_key g (edge_key e)) /\
  (forall name graph, (name, Ok graph) ∈ ds -> nodes graph ⊆ nodes g /\ entrypoints graph ⊆ entrypoints g) /\
  sources = omap (fun d => match d with (n, Ok _) => Some n | _ => None end) ds /\
  failed = omap (fun d => match d with (n, Err _) => Some n | _ => None end) ds.
Proof.
  induction 1 as [|ds name e g sources failed H IH|ds name graph g sources failed ge oe H IH Hge Hoe]; intros Hok.
  - split; [apply new_graph_ok|]. split; [|set_solver].
    intros e He. unfold has_edge in He. cbn in He. rewrite adjacent_empty in He. by apply elem_of_nil in He.
  - destruct IH as (A1 & A2 & A3 & A4 & -> & ->); [intros n gr ?; apply (Hok n), elem_of_app; by left|].
    split; [done|]. split; [intros ??; by apply first_source_snoc, A2|].
    rewrite !omap_app. cbn. rewrite app_nil_r. split; [|split; [|done]].
    + intros n gr e' [?|Hx%list_elem_of_singleton]%elem_of_app; [eauto|done].
    + intros n gr [?|Hx%list_elem_of_singleton]%elem_of_app; [eauto|done].
  - destruct IH as (A1 & A2 & A3 & A4 & -> & ->); [intros n gr ?; apply (Hok n), elem_of_app; by left|].
    assert (graph_ok graph) as Hgr by (apply (Hok name), elem_of_app; right; by apply list_elem_of_singleton).
    assert (listed graph oe) as Hl by (intros e; by rewrite Hoe).
    destruct (Merge_facts ge oe g graph A1 Hgr Hge Hl) as (B1 & B2 & B3 & B4 & B5).
    split; [done|]. rewrite !omap_app. cbn. rewrite app_nil_r. split; [|split; [|split; [|done]]].
    + intros e [He|[He Hn]]%Merge_precedence; [by apply first_source_snoc, A2| |done..].
      exists ds, name, graph, []. split; [done|]. split; [done|]. intros n g' Hin (e' & He' & Hk).
      destruct (A3 _ _ _ Hin He') as (e2 & ? & ?). apply Hn. exists e2. split; [done|congruence].
    + intros n gr e [Hin|Hx]%elem_of_app He.
      * destruct (A3 _ _ _ Hin He) as (e2 & He2 & <-). apply B3. by left.
      * apply list_elem_of_singleton in Hx as [= -> ->]. apply B3. by right.
    + intros n gr [Hin|Hx]%elem_of_app.
      * apply A4 in Hin. rewrite B4, B5. set_solver.
      * apply list_elem_of_singleton in Hx as [= -> ->]. rewrite B4, B5. set_solver.
Qed.

(** the composite graph has every edge, node and entrypoint of the
    sources that answered and no other edge; an edge reported by several is
    the one of the first of them; the failing sources are the ones skipped. *)
Theorem composite_merges_all {error} (ds : list (gostring * result error ServiceGraph)) g sources failed :
  composed ds g sources failed -> answers_ok ds ->
  graph_ok g /\ (forall e, has_edge g e -> first_source ds e) /\
  (forall name graph e, (name, Ok graph) ∈ ds -> has_edge graph e -> has_key g (edge_key e)) /\
  (forall name graph, (name, Ok graph) ∈ ds -> nodes graph ⊆ nodes g /\ entrypoints graph ⊆ entrypoints g) /\
  sources = omap (fun d => match d with (n, Ok _) => Some n | _ => None end) ds /\
  failed = omap (fun d => match d with (n, Err _) => Some n | _ => None end) ds.
Proof. apply composed_facts. Qed.

(** ** The Gateway API source *)
Lemma add_edges_facts l : forall g, graph_ok g -> Forall (fun e => Tombstone e = false) l ->
  graph_ok (add_edges l g) /\ entrypoints (add_edges l g) = entrypoints g /\
  forall e, has_edge (add_edges l g) e <-> has_edge g e \/ e ∈ l.
Proof.
  induction l as [|x l IH]; intros g Hg; [cbn; set_solver|]. intros [Hx Hl]%Forall_cons.
  change (add_edges (x :: l) g) with (add_edges l (AddEdge x g)).
  destruct (IH _ (AddEdge_ok x g Hg) Hl) as (A1 & A2 & A3). split; [done|].
  split; [rewrite A2; unfold AddEdge; by rewrite Hx|]. intros e. rewrite A3, AddEdge_has by done. set_solver.
Qed.
Lemma route_edges_live p r : Forall (fun e => Tombstone e = false) (route_edges p r).
Proof.
  unfold route_edges. case_match; [|constructor]. apply Forall_bind, Forall_true. intros a.
  apply Forall_bind, Forall_true. intros b. apply Forall_map, Forall_true. done.
Qed.
Lemma add_routes_facts p routes : forall g, graph_ok g ->
  graph_ok (add_routes p routes g) /\ entrypoints (add_routes p routes g) = entrypoints g /\
  forall e, has_edge (add_routes p routes g) e <-> has_edge g e \/ exists r, r ∈ routes /\ e ∈ route_edges p r.
Proof.
  unfold add_routes. induction routes as [|r l IH]; intros g Hg; cbn; [set_solver|].
  destruct (add_edges_facts _ g Hg (route_edges_live p r)) as (A1 & A2 & A3).
  destruct (IH _ A1) as (B1 & B2 & B3). split; [done|]. split; [congruence|].
  intros e. rewrite B3, A3. set_solver.
Qed.
Lemma add_gateways_facts gws : forall g, graph_ok g ->
  let g' := fold_left (fun g gw => AddEntrypoint gw g) gws g in
  graph_ok g' /\ (forall x, x ∈ entrypoints g' <-> x ∈ entrypoints g \/ x ∈ gws) /\
  forall e, has_edge g' e <-> has_edge g e.
Proof.
  induction gws as [|x l IH]; intros g Hg; cbn; [set_solver|].
  destruct (IH _ (AddEntrypoint_ok x g Hg)) as (A1 & A2 & A3). split; [done|]. split.
  - intros y. rewrite A2. cbn. set_solver.
  - intros e. by rewrite A3.
Qed.

Section Gateway.
Context {error : Type} (list_gateways : gostring -> result error (list gostring))
  (list_http list_grpc : gostring -> result error (list Route)) (IsNoMatchError : error -> bool)
  (wrap : gostring -> gostring -> error -> error).

(** [e] is the edge of a route listed in [ns]. *)
Definition routed (ns : gostring) (e : Edge) : Prop :=
  exists r, (exists l, list_http ns = Ok l /\ r ∈ l /\ e ∈ route_edges #"http" r) \/
            (exists l, list_grpc ns = Ok l /\ r ∈ l /\ e ∈ route_edges #"grpc" r).
Definition gateway_in (ns gw : gostring) : Prop := exists l, list_gateways ns = Ok l /\ gw ∈ l.

Lemma gateway_namespace_facts g ns g' :
  gateway_namespace list_gateways list_http list_grpc IsNoMatchError wrap g ns = Ok g' -> graph_ok g ->
  graph_ok g' /\ (forall e, has_edge g' e <-> has_edge g e \/ routed ns e) /\
  (forall gw, gw ∈ entrypoints g' <-> gw ∈ entrypoints g \/ gateway_in ns gw).
Proof.
  unfold gateway_namespace, routed, gateway_in. intros H Hg.
  destruct (list_gateways ns) as [gws|] eqn:E1; [|done]. destruct (list_http ns) as [hs|] eqn:E2; [|done].
  destruct (add_gateways_facts gws g Hg) as (A1 & A2 & A3).
  destruct (add_routes_facts #"http" hs _ A1) as (B1 & B2 & B3).
  destruct (list_grpc ns) as [rs|er] eqn:E3.
  - injection H as <-. destruct (add_routes_facts #"grpc" rs _ B1) as (C1 & C2 & C3). split; [done|]. split.
    + intros e. rewrite C3, B3, A3. naive_solver.
    + intros gw. rewrite C2, B2, A2. naive_solver.
  - destruct (IsNoMatchError er); [|done]. injection H as <-. split; [done|]. split.
    + intros e. rewrite B3, A3. naive_solver.
    + intros gw. rewrite B2, A2. naive_solver.
Qed.

Lemma gateway_go_facts nss : forall g g', graph_ok g ->
  gateway_go list_gateways list_http list_grpc IsNoMatchError wrap nss g = Ok g' ->
  graph_ok g' /\ (forall e, has_edge g' e <-> has_edge g e \/ exists ns, ns ∈ nss /\ routed ns e) /\
  (forall gw, gw ∈ entrypoints g' <-> gw ∈ entrypoints g \/ exists ns, ns ∈ nss /\ gateway_in ns gw).
Proof.
  induction nss as [|ns nss IH]; intros g g' Hg; cbn [gateway_go].
  { intros [= <-]. set_solver. }
  intros H. inv_ok. destruct (gateway_namespace_facts _ _ _ Hr Hg) as (A1 & A2 & A3).
  destruct (IH _ _ A1 H) as (B1 & B2 & B3). split; [done|].
  split; [intros e; rewrite B2, A2|intros gw; rewrite B3, A3]; set_solver.
Qed.
End Gateway.

Lemma route_edges_elem p r e : e ∈ route_edges p r <->
  isRouteAccepted (route_status r) = true /\
  exists parent rule backend, parent ∈ route_parents r /\ rule ∈ route_rules r /\ backend ∈ rule /\
    e = mkEdge (scoped_name r parent) (scoped_name r backend) p #"gateway-api" false.
Proof.
  unfold route_edges. destruct (isRouteAccepted _); [|set_solver].
  rewrite list_elem_of_bind. setoid_rewrite list_elem_of_bind. setoid_rewrite list_elem_of_fmap. naive_solver.
Qed.

(** when discovery succeeds, the edges are exactly the backend references
    of the accepted HTTP and gRPC routes of the listed namespaces, under their
    scoped names, and the entrypoints exactly their gateways. *)
Theorem GatewayDiscover_spec {error : Type} (list_gateways : gostring -> result error (list gostring))
    (list_http list_grpc : gostring -> result error (list Route)) IsNoMatchError wrap ns nss g :
  GatewayDiscover list_gateways list_http list_grpc IsNoMatchError wrap (ns :: nss) = Ok g ->
  graph_ok g /\
  (forall e, has_edge g e <-> exists n r parent rule backend protocol, n ∈ ns :: nss /\
     ((protocol = #"http" /\ exists l, list_http n = Ok l /\ r ∈ l) \/
      (protocol = #"grpc" /\ exists l, list_grpc n = Ok l /\ r ∈ l)) /\
     isRouteAccepted (route_status r) = true /\
     parent ∈ route_parents r /\ rule ∈ route_rules r /\ backend ∈ rule /\
     e = mkEdge (scoped_name r parent) (scoped_name r backend) protocol #"gateway-api" false) /\
  (forall gw, gw ∈ entrypoints g <-> exists n l, n ∈ ns :: nss /\ list_gateways n = Ok l /\ gw ∈ l).
Proof.
  intros H. destruct (gateway_go_facts _ _ _ _ _ _ _ _ new_graph_ok H) as (A1 & A2 & A3).
  split; [done|]. split.
  - intros e. rewrite A2. unfold routed. setoid_rewrite route_edges_elem.
    unfold has_edge at 1. cbn. rewrite adjacent_empty, elem_of_nil. naive_solver.
  - intros gw. rewrite A3. unfold gateway_in. cbn. set_solver.
Qed.

(** ** Witnesses *)
Definition demo_answers : list (gostring * result unit ServiceGraph) :=
  [(#"gateway-api", Err tt); (#"static", Ok demo_graph)].
Lemma demo_composed :
  composed demo_answers (Merge [] [demo_ab; demo_ba] NewServiceGraph demo_graph) [ #"static"] [ #"gateway-api"].
Proof.
  apply (composed_merged [(#"gateway-api", Err tt)] #"static" demo_graph NewServiceGraph []).
  - exact (composed_failed [] #"gateway-api" tt _ [] [] composed_nil).
  - split; [done|constructor].
  - vm_compute. apply Permutation_refl || apply perm_swap.
Qed.
Lemma composite_merges_all_witness :
  has_key (Merge [] [demo_ab; demo_ba] NewServiceGraph demo_graph) (edge_key demo_ba).
Proof.
  destruct (composite_merges_all demo_answers _ _ _ demo_composed) as (_ & _ & H & _).
  - intros n g [[=]|[= -> ->]%list_elem_of_singleton]%elem_of_cons. apply build_ok.
  - apply (H #"static" demo_graph demo_ba); [set_solver|]. apply build_has. set_solver.
Defined.

Definition demo_route : Route := mkRoute #"shop" [mkRef (Some #"infra") #"gw"] [[mkRef None #"cart"]] [].
Lemma GatewayDiscover_spec_witness :
  exists g, GatewayDiscover (fun _ => @Ok unit _ [ #"gw"]) (fun _ => Ok [demo_route]) (fun _ => Err tt)
      (fun _ => true) (fun _ _ e => e) [ #"shop"] = Ok g /\
    has_edge g (mkEdge #"infra/gw" #"cart" #"http" #"gateway-api" false).
Proof.
  eexists. split; [reflexivity|].
  eapply (GatewayDiscover_spec (fun _ => @Ok unit _ [ #"gw"]) (fun _ => Ok [demo_route]) (fun _ => Err tt)
      (fun _ => true) (fun _ _ e => e) #"shop" []); [reflexivity|].
  exists #"shop", demo_route, (mkRef (Some #"infra") #"gw"), [mkRef None #"cart"], (mkRef None #"cart"), #"http".
  split; [set_solver|]. split; [left; split; [done|]; exists [demo_route]; set_solver|].
  split; [reflexivity|]. split; [set_solver|]. split; [set_solver|]. split; [set_solver|]. reflexivity.
Defined.
