(* ===== verification/Changeset.v ===== *)
(** * Change detection: [internal/changeset/detector.go]

    Which services a list of changed files touches.  [git] is a parameter;
    the order in which the map of services is iterated, which may differ
    from one file to the next, is an argument. *)

From S2P Require Import Prelude GoStrings GoSort GoPath.

(** ** [cleanGitEnv] *)
Definition git_location_vars : list gostring :=
  [ #"GIT_DIR"; #"GIT_WORK_TREE"; #"GIT_INDEX_FILE"; #"GIT_OBJECT_DIRECTORY";
    #"GIT_ALTERNATE_OBJECT_DIRECTORIES"; #"GIT_COMMON_DIR"; #"GIT_PREFIX"].
Definition env_key (kv : gostring) : gostring := match Cut kv "="%char with Some (k, _) => k | None => kv end.
Fixpoint cleanGitEnv (environ : list gostring) : list gostring :=
  match environ with
  | [] => []
  | kv :: environ =>
      if bool_decide (env_key kv ∈ git_location_vars) then cleanGitEnv environ else kv :: cleanGitEnv environ
  end.

(** ** [sortStrings]: insertion sort by swaps *)
(** The inner loop at position [j]. *)
Fixpoint sort_inner (j : nat) (s : list gostring) : list gostring :=
  match j with
  | O => s
  | S k =>
      match s !! j, s !! k with
      | Some a, Some b => if str_ltb a b then sort_inner k (<[j := b]> (<[k := a]> s)) else s
      | _, _ => s
      end
  end.
Definition sortStrings (s : list gostring) : list gostring :=
  fold_left (fun s i => sort_inner i s) (seq 1 (length s - 1)) s.

(** ** Matching files to services *)
Fixpoint matches_prefix (file : gostring) (paths : list gostring) : bool :=
  match paths with
  | [] => false
  | prefix :: paths =>
      let prefix := Clean prefix in
      if str_eqb prefix #"." || str_eqb prefix [] then true
      else if HasPrefix file (prefix ++ #"/") || str_eqb file prefix then true
      else if matches prefix file then true
      else matches_prefix file paths
  end.
Definition matchesServicePaths (file : gostring) (paths : list gostring) : bool :=
  match paths with [] => true | _ => matches_prefix file paths end.

Abbreviation entry := (gostring * list gostring)%type.

(** The loop over the services for one file. *)
Fixpoint match_services (file : gostring) (services : list entry) (st : gset gostring * list gostring)
    : gset gostring * list gostring :=
  match services with
  | [] => st
  | (svcName, paths) :: services =>
      let '(seen, changed) := st in
      if decide (svcName ∈ seen) then match_services file services st
      else if matchesServicePaths file paths then
        match_services file services ({[svcName]} ∪ seen, changed ++ [svcName])
      else match_services file services st
  end.
(** Each file with the entries in the order they are met for it. *)
Definition matchServicesToFiles (files : list (gostring * list entry)) : list gostring :=
  sortStrings (fold_left (fun st f => match_services f.1 f.2 st) files (∅, [])).2.

(** ** [gitDiffFiles] and [DetectChanges] *)
Definition output_files (out : gostring) : list gostring :=
  List.filter (fun line => negb (str_eqb line [])) (map TrimSpace (Split (TrimSpace out) "010"%char)).

Section Git.
(** Running git with arguments in an environment. *)
Context {error : Type} (git : list gostring -> list gostring -> result error gostring).

(** A failed three-dot diff is tried again without a merge base. *)
Definition gitDiffFiles (environ : list gostring) (baseRef : gostring) : result error (list gostring) :=
  let env := cleanGitEnv environ in
  match git [ #"diff"; #"--name-only"; baseRef ++ #"...HEAD"] env with
  | Ok out => Ok (output_files out)
  | Err _ =>
      match git [ #"diff"; #"--name-only"; baseRef] env with
      | Ok out => Ok (output_files out)
      | Err e => Err e
      end
  end.

(** [order] gives the iteration order of the services for a file. *)
Definition DetectChanges (order : gostring -> list entry) (environ : list gostring) (baseRef : gostring)
    : result error (list gostring) :=
  files ← gitDiffFiles environ baseRef;
  Ok (matchServicesToFiles (map (fun f => (f, order f)) files)).
End Git.

(** * The environment git runs in *)
Lemma cleanGitEnv_elem kv environ :
  kv ∈ cleanGitEnv environ <-> kv ∈ environ /\ env_key kv ∉ git_location_vars.
Proof.
  induction environ as [|x l IH]; cbn; [set_solver|].
  case_bool_decide as E; rewrite !elem_of_cons; [|]; rewrite ?IH; split; try naive_solver.
Qed.

(** * The sort sorts *)
(** Sinking a value into a reversed sorted prefix. *)
Fixpoint sink (x : gostring) (rp : list gostring) : list gostring :=
  match rp with
  | [] => [x]
  | y :: rp' => if str_ltb x y then y :: sink x rp' else x :: rp
  end.

Lemma lookup_mid {A} (p : list A) x t : (p ++ x :: t) !! length p = Some x.
Proof. by apply list_lookup_middle. Qed.

Lemma sort_inner_sink p : forall x t,
  sort_inner (length p) (p ++ x :: t) = reverse (sink x (reverse p)) ++ t.
Proof.
  induction p as [|y p IH] using rev_ind; intros x t; [done|].
  rewrite length_app. cbn [length]. rewrite Nat.add_1_r. cbn [sort_inner].
  replace (S (length p)) with (length (p ++ [y])) by (rewrite length_app; cbn; lia).
  rewrite lookup_mid. rewrite <-app_assoc. cbn [app]. rewrite lookup_mid.
  rewrite reverse_snoc. cbn [sink]. destruct (str_ltb x y).
  - replace (length (p ++ [y])) with (length p + 1)%nat by (rewrite length_app; done).
    rewrite (insert_app_r_alt p _ (length p)), Nat.sub_diag by done. cbn [insert list_insert].
    rewrite insert_app_r. cbn [insert list_insert]. rewrite IH, reverse_cons, <-app_assoc. done.
  - rewrite !reverse_cons, reverse_involutive, <-!app_assoc. done.
Qed.

Lemma str_ltb_le x y : str_ltb x y = false <-> str_le y x.
Proof. unfold str_le, str_leb. destruct (str_ltb x y); cbn; naive_solver. Qed.
Lemma str_ltb_lt_le x y : str_ltb x y = true -> str_le x y.
Proof. intros H. destruct (total str_le x y) as [?|?%str_ltb_le]; congruence. Qed.

Lemma sink_perm x rp : sink x rp ≡ₚ x :: rp.
Proof. induction rp as [|y rp IH]; cbn; [done|]. destruct (str_ltb x y); [rewrite IH; constructor|done]. Qed.
Lemma sink_sorted x rp : StronglySorted (flip str_le) rp -> StronglySorted (flip str_le) (sink x rp).
Proof.
  induction rp as [|y rp IH]; intros H; cbn; [repeat constructor|].
  inversion H as [|? ? Hs Hall]; subst. destruct (str_ltb x y) eqn:E.
  - constructor; [by apply IH|]. rewrite sink_perm. constructor; [by apply str_ltb_lt_le|done].
  - apply str_ltb_le in E. constructor; [done|]. constructor; [done|].
    eapply Forall_impl; [exact Hall|]. intros z Hz. cbn in *. by etrans.
Qed.

Lemma StronglySorted_reverse_flip (l : list gostring) :
  StronglySorted (flip str_le) l -> StronglySorted str_le (reverse l).
Proof.
  induction 1 as [|x l Hs IH Hall]; [constructor|]. rewrite reverse_cons.
  apply StronglySorted_app. split; [|split]; [|done|repeat constructor].
  intros a b Ha Hb%list_elem_of_singleton. subst b. rewrite elem_of_reverse in Ha. rewrite Forall_forall in Hall. exact (Hall a Ha).
Qed.

Lemma sort_prefix l : forall rp, StronglySorted (flip str_le) rp ->
  exists s, fold_left (fun s i => sort_inner i s) (seq (length rp) (length l)) (reverse rp ++ l) = s /\
    StronglySorted str_le s /\ s ≡ₚ reverse rp ++ l.
Proof.
  induction l as [|x l IH]; intros rp H.
  { eexists. split; [done|]. rewrite app_nil_r. split; [by apply StronglySorted_reverse_flip|done]. }
  cbn [length seq fold_left]. pose proof (sort_inner_sink (reverse rp) x l) as E.
  rewrite length_reverse, reverse_involutive in E. rewrite E. clear E.
  destruct (IH (sink x rp) (sink_sorted x rp H)) as (s & <- & Hs & Hp). eexists. split; [done|].
  assert (length (sink x rp) = S (length rp)) as Hlen by (by rewrite sink_perm).
  rewrite Hlen in Hs, Hp. split; [done|]. rewrite Hp, !reverse_Permutation, sink_perm. by apply Permutation_middle.
Qed.

Lemma sortStrings_spec l : StronglySorted str_le (sortStrings l) /\ sortStrings l ≡ₚ l.
Proof.
  unfold sortStrings. destruct l as [|x l]; [cbn; split; constructor|].
  destruct (sort_prefix l [x]) as (s & <- & Hs & Hp); [repeat constructor|].
  cbn [length] in *. rewrite Nat.sub_1_r. done.
Qed.
Lemma sortStrings_sort_strings l : sortStrings l = sort_strings l.
Proof.
  destruct (sortStrings_spec l) as [Hs Hp]. apply sort_strings_unique; [by apply StronglySorted_Sorted|done].
Qed.

(** * Which services match *)
Definition tracked (st : gset gostring * list gostring) : Prop :=
  (forall x, x ∈ st.1 <-> x ∈ st.2) /\ NoDup st.2.

Lemma match_services_spec file services : forall st, tracked st ->
  let st' := match_services file services st in
  tracked st' /\
  forall x, x ∈ st'.2 <-> x ∈ st.2 \/ exists paths, (x, paths) ∈ services /\ matchesServicePaths file paths = true.
Proof.
  induction services as [|[n paths] l IH]; intros [seen changed] [Hs Hn]; cbn [match_services].
  { split; [done|]. set_solver. }
  cbn in Hs, Hn. case_decide as E.
  - destruct (IH (seen, changed) (conj Hs Hn)) as [H1 H2]. split; [done|]. intros x. rewrite H2. cbn.
    setoid_rewrite elem_of_cons. apply Hs in E. naive_solver.
  - destruct (matchesServicePaths file paths) eqn:Em.
    + edestruct (IH ({[n]} ∪ seen, changed ++ [n])) as [H1 H2].
      { split; cbn; [set_solver|]. apply NoDup_app. split; [done|]. split; [|apply NoDup_singleton].
        intros x Hx ->%list_elem_of_singleton. by apply E, Hs. }
      split; [done|]. intros x. rewrite H2. cbn. rewrite elem_of_app, list_elem_of_singleton.
      setoid_rewrite elem_of_cons. naive_solver.
    + destruct (IH (seen, changed) (conj Hs Hn)) as [H1 H2]. split; [done|]. intros x. rewrite H2. cbn.
      setoid_rewrite elem_of_cons. naive_solver congruence.
Qed.

Lemma match_files_spec files : forall st, tracked st ->
  let st' := fold_left (fun st f => match_services f.1 f.2 st) files st in
  tracked st' /\
  forall x, x ∈ st'.2 <-> x ∈ st.2 \/ exists file services paths,
    (file, services) ∈ files /\ (x, paths) ∈ services /\ matchesServicePaths file paths = true.
Proof.
  induction files as [|[file services] l IH]; intros st Hst; cbn [fold_left].
  { split; [done|]. set_solver. }
  destruct (match_services_spec file services st Hst) as [A1 A2].
  destruct (IH _ A1) as [B1 B2]. split; [done|]. intros x. rewrite B2. cbn [fst snd]. rewrite A2.
  setoid_rewrite elem_of_cons. naive_solver.
Qed.

(** The services touched by some file: the specification. *)
Definition touched (servicePaths : gmap gostring (list gostring)) (files : list gostring) (name : gostring) : Prop :=
  exists paths file, servicePaths !! name = Some paths /\ file ∈ files /\ matchesServicePaths file paths = true.

(** whatever order Go iterates the map of services in, for each file, the
    answer is the same list: the services some file touches, once each, in
    increasing order. *)
Theorem matchServicesToFiles_spec servicePaths files (order : gostring -> list entry) :
  (forall f, order f ≡ₚ map_to_list servicePaths) ->
  let changed := matchServicesToFiles (map (fun f => (f, order f)) files) in
  Sorted str_le changed /\ NoDup changed /\
  (forall name, name ∈ changed <-> touched servicePaths files name) /\
  forall order', (forall f, order' f ≡ₚ map_to_list servicePaths) ->
    matchServicesToFiles (map (fun f => (f, order' f)) files) = changed.
Proof.
  assert (forall order, (forall f, order f ≡ₚ map_to_list servicePaths) ->
    let l := (fold_left (fun st f => match_services f.1 f.2 st) (map (fun f => (f, order f)) files) (∅, [])).2 in
    NoDup l /\ forall name, name ∈ l <-> touched servicePaths files name) as Hany.
  { intros o Ho l. destruct (match_files_spec (map (fun f => (f, o f)) files) (∅, [])) as [[_ Hn] Hx];
      [split; [set_solver|constructor]|].
    split; [done|]. intros name. subst l. rewrite Hx. unfold touched. split.
    - intros [?|(file & svcs & paths & (f & [= -> ->] & Hf)%list_elem_of_fmap & Hp & Hm)]; [set_solver|].
      exists paths, f. rewrite (Ho f) in Hp. apply elem_of_map_to_list in Hp. done.
    - intros (paths & f & Hp & Hf & Hm). right. exists f, (o f), paths.
      split; [apply list_elem_of_fmap; eauto|]. rewrite (Ho f). by rewrite elem_of_map_to_list. }
  intros Ho changed. destruct (Hany _ Ho) as [Hn Hx]. subst changed. unfold matchServicesToFiles.
  rewrite sortStrings_sort_strings. split; [apply sort_strings_sorted|].
  split; [by rewrite sort_strings_perm|]. split; [intros name; by rewrite sort_strings_elem|].
  intros o' Ho'. destruct (Hany _ Ho') as [Hn' Hx']. rewrite sortStrings_sort_strings. apply sort_strings_unique.
  - apply sort_strings_sorted.
  - rewrite sort_strings_perm. apply NoDup_Permutation; [done..|]. intros x. by rewrite Hx, Hx'.
Qed.

Lemma matchServicesToFiles_spec_witness :
  #"cart" ∈ matchServicesToFiles [(#"services/cart/main.go", [(#"cart", [ #"services/cart/"]); (#"pay", [ #"services/pay"])])] /\
  #"pay" ∉ matchServicesToFiles [(#"services/cart/main.go", [(#"cart", [ #"services/cart/"]); (#"pay", [ #"services/pay"])])].
Proof.
  set (m := <[ #"cart" := [ #"services/cart/"]]> {[ #"pay" := [ #"services/pay"]]} : gmap gostring (list gostring)).
  pose proof (matchServicesToFiles_spec m [ #"services/cart/main.go"]
    (fun _ => [(#"cart", [ #"services/cart/"]); (#"pay", [ #"services/pay"])])) as H.
  destruct H as (_ & _ & H & _).
  { intros _. subst m. rewrite map_to_list_insert, map_to_list_singleton by (by apply lookup_singleton_ne). done. }
  split.
  - apply H. exists [ #"services/cart/"], #"services/cart/main.go". split; [reflexivity|]. split; [set_solver|reflexivity].
  - intros (paths & f & Hp & ->%list_elem_of_singleton & Hm)%H. vm_compute in Hp. injection Hp as <-.
    vm_compute in Hm. discriminate Hm.
Defined.
