(* ===== verification/KubeApi.v ===== *)
(** * The Kubernetes API the tunnels use

    client-go is third party: [KubeClient] states its calls on the objects of
    a namespace and [KubeClientLaws] the documented behaviour the program
    relies on, optimistic concurrency on resource versions included.
    [Cluster] is a concrete API server that satisfies the laws. *)

From S2P Require Import Prelude GoStrings.
Local Open Scope Z_scope.

Inductive kind := KService | KEndpointSlice | KEndpoints | KLease.
#[global] Instance kind_eq_dec : EqDecision kind.
Proof. solve_decision. Defined.
#[global] Instance kind_countable : Countable kind.
Proof.
  apply (inj_countable' (fun k => match k with KService => 1 | KEndpointSlice => 2 | KEndpoints => 3 | KLease => 4 end)
    (fun n => match n with 1 => KService | 2 => KEndpointSlice | 3 => KEndpoints | _ => KLease end)).
  by intros [].
Defined.

(** The parts of the specs that the program writes. Times in nanoseconds. *)
Inductive spec :=
| ServiceSpec (clusterIP : gostring) (port targetPort : Z)
| SliceSpec (addresses : list gostring) (ready : option bool) (port : Z)
| EndpointsSpec (addresses : list gostring) (port : Z)
| LeaseSpec (holderIdentity : option gostring) (leaseDurationSeconds acquireTime renewTime leaseTransitions : option Z).

Record Obj := mkObj {
  o_labels : gmap gostring gostring;
  o_annotations : gmap gostring gostring;
  o_spec : spec;
  o_version : Z }.

Definition ClusterIPNone : gostring := #"None".

(** What the server stores for an accepted object: a Service without a
    cluster IP is given one. *)
Definition admitted_spec (s s' : spec) : Prop :=
  match s, s' with
  | ServiceSpec ip p t, ServiceSpec ip' p' t' =>
      p = p' /\ t = t' /\ (if decide (ip = []) then ip' <> [] /\ ip' <> ClusterIPNone else ip' = ip)
  | _, _ => s = s'
  end.
Definition admitted (o o' : Obj) : Prop :=
  o_labels o = o_labels o' /\ o_annotations o = o_annotations o' /\ admitted_spec (o_spec o) (o_spec o').

Inductive api_error := NotFound | AlreadyExists | Conflict | Forbidden | OtherError.
#[global] Instance api_error_eq_dec : EqDecision api_error.
Proof. solve_decision. Defined.
Abbreviation ares A := (result api_error A).
Abbreviation key := (kind * gostring * gostring)%type.

Class KubeClient (W : Type) := {
  api_Get : key -> W -> ares Obj * W;
  api_Create : key -> Obj -> W -> ares unit * W;
  api_Update : key -> Obj -> W -> ares unit * W;
  api_Delete : key -> W -> ares unit * W }.

(** A write stores an accepted version of the object under a new resource
    version; an update is accepted only on top of the version it names, and
    one that changes nothing writes nothing; a failing call changes nothing. *)
Class KubeClientLaws (W : Type) {K : KubeClient W} := {
  stored : W -> gmap key Obj;
  revision : W -> Z;
  version_bound : forall w k o, stored w !! k = Some o -> o_version o <= revision w;
  Get_pure : forall k w, snd (api_Get k w) = w;
  Get_Ok : forall k w o, fst (api_Get k w) = Ok o -> stored w !! k = Some o;
  Create_Ok : forall k o w w', api_Create k o w = (Ok tt, w') ->
    exists o', stored w !! k = None /\ admitted o o' /\ revision w < o_version o' <= revision w' /\
      stored w' = <[k := o']> (stored w);
  Create_Err : forall k o w e w', api_Create k o w = (Err e, w') ->
    stored w' = stored w /\ revision w <= revision w' /\ (e = AlreadyExists -> is_Some (stored w !! k));
  Update_Ok : forall k o w w', api_Update k o w = (Ok tt, w') ->
    exists cur o', stored w !! k = Some cur /\ o_version o = o_version cur /\ admitted o o' /\
      revision w <= revision w' /\ (revision w < o_version o' \/ o' = cur) /\
      stored w' = <[k := o']> (stored w);
  Update_Err : forall k o w e w', api_Update k o w = (Err e, w') ->
    stored w' = stored w /\ revision w <= revision w';
  Delete_Ok : forall k w w', api_Delete k w = (Ok tt, w') ->
    stored w' = delete k (stored w) /\ revision w <= revision w';
  Delete_Err : forall k w e w', api_Delete k w = (Err e, w') ->
    stored w' = stored w /\ revision w <= revision w' }.

(** How the server's state may change: what is stored later was stored
    before or is newer than anything then. *)
Definition evolves {W} `{KubeClientLaws W} (w w' : W) : Prop :=
  revision w <= revision w' /\
  forall k o, stored w' !! k = Some o -> stored w !! k = Some o \/ revision w < o_version o.

Section Evolution.
Context {W : Type} {K : KubeClient W} {L : KubeClientLaws W}.
#[local] Arguments stored : simpl never.

Lemma evolves_same w w' : stored w' = stored w -> revision w <= revision w' -> evolves w w'.
Proof. intros E Hr. split; [done|]. intros k o. rewrite E. by left. Qed.
Lemma evolves_refl w : evolves w w.
Proof. by apply evolves_same. Qed.
Lemma evolves_insert w w' k o : stored w' = <[k := o]> (stored w) -> revision w <= revision w' ->
  revision w < o_version o \/ stored w !! k = Some o -> evolves w w'.
Proof.
  intros E Hr Ho. split; [done|]. intros k' o'. rewrite E. destruct (decide (k = k')) as [->|Hne].
  - rewrite lookup_insert_eq. intros [= ->]. naive_solver.
  - rewrite lookup_insert_ne by done. by left.
Qed.
Lemma Get_evolves k w : evolves w (api_Get k w).2.
Proof. rewrite Get_pure. apply evolves_refl. Qed.
Lemma Create_evolves k o w r w' : api_Create k o w = (r, w') -> evolves w w'.
Proof.
  destruct r as [[]|e].
  - intros (o' & _ & _ & [Ho1 Ho2] & E)%Create_Ok. eapply evolves_insert; [done|lia|by left].
  - intros (E & Hr & _)%Create_Err. by apply evolves_same.
Qed.
Lemma Update_evolves k o w r w' : api_Update k o w = (r, w') -> evolves w w'.
Proof.
  destruct r as [[]|e].
  - intros (cur & o' & H1 & _ & _ & Hr & [Ho| ->] & E)%Update_Ok;
      (eapply evolves_insert; [done|done|]); [by left|by right].
  - intros (E & Hr)%Update_Err. by apply evolves_same.
Qed.
Lemma Delete_evolves k w r w' : api_Delete k w = (r, w') -> evolves w w'.
Proof.
  destruct r as [[]|e].
  - intros (E & Hr)%Delete_Ok. split; [done|]. intros k' o. rewrite E. intros [_ ?]%lookup_delete_Some. by left.
  - intros (E & Hr)%Delete_Err. by apply evolves_same.
Qed.
Lemma evolves_trans w1 w2 w3 : evolves w1 w2 -> evolves w2 w3 -> evolves w1 w3.
Proof.
  intros [H1 H2] [H3 H4]. split; [lia|]. intros k o [[?|?]%H2|?]%H4; [by left|by right|right; lia].
Qed.
End Evolution.

(** ** A concrete server *)
Module Cluster.
Record t := mk { raw : gmap key Obj; rev : Z }.
(** Objects of a later revision do not exist yet. *)
Definition objects (w : t) : gmap key Obj := filter (fun ko => o_version ko.2 <= rev w) (raw w).
(** The address the server allocates. *)
Definition allocated : gostring := #"10.0.0.1".
Definition accept (o : Obj) (version : Z) : Obj :=
  mkObj (o_labels o) (o_annotations o)
    (match o_spec o with
     | ServiceSpec ip p t => ServiceSpec (if decide (ip = []) then allocated else ip) p t
     | s => s
     end) version.
Definition get (k : key) (w : t) : ares Obj * t :=
  (match objects w !! k with Some o => Ok o | None => Err NotFound end, w).
Definition write (k : key) (o : Obj) (w : t) : ares unit * t :=
  let v := rev w + 1 in (Ok tt, mk (<[k := accept o v]> (objects w)) v).
Definition create (k : key) (o : Obj) (w : t) : ares unit * t :=
  match objects w !! k with Some _ => (Err AlreadyExists, w) | None => write k o w end.
Definition update (k : key) (o : Obj) (w : t) : ares unit * t :=
  match objects w !! k with
  | None => (Err NotFound, w)
  | Some cur => if decide (o_version o = o_version cur) then write k o w else (Err Conflict, w)
  end.
Definition del (k : key) (w : t) : ares unit * t :=
  match objects w !! k with
  | None => (Err NotFound, w)
  | Some _ => (Ok tt, mk (delete k (objects w)) (rev w))
  end.
#[global] Instance client : KubeClient t := {
  api_Get := get; api_Create := create; api_Update := update; api_Delete := del }.

Lemma accept_admitted o v : admitted o (accept o v).
Proof. split; [done|]. split; [done|]. destruct o as [l a [] ?]; cbn; try done. by repeat case_decide. Qed.
Lemma objects_bound w k o : objects w !! k = Some o -> o_version o <= rev w.
Proof. by intros [_ ?]%map_lookup_filter_Some. Qed.
Lemma objects_mk m v : (forall k o, m !! k = Some o -> o_version o <= v) -> objects (mk m v) = m.
Proof. intros H. unfold objects. apply map_filter_id. intros k o ?. cbn. by apply (H k). Qed.
Lemma write_spec k o w r w' : write k o w = (r, w') ->
  r = Ok tt /\ objects w' = <[k := accept o (rev w + 1)]> (objects w) /\ rev w' = rev w + 1.
Proof.
  intros [= <- <-]. split; [done|]. split; [|done]. apply objects_mk. intros k' o'. rewrite lookup_insert.
  case_decide; [intros [= <-]; cbn; lia|]. intros ?%objects_bound. lia.
Qed.

#[global, program] Instance laws : KubeClientLaws t := {| stored := objects; revision := rev |}.
Next Obligation. exact objects_bound. Qed.
Next Obligation. done. Qed.
Next Obligation. intros k w o. cbn. unfold get. cbn. destruct (objects w !! k); congruence. Qed.
Next Obligation.
  intros k o w w'. cbn. unfold create. destruct (objects w !! k) eqn:E; [done|].
  intros (_ & H & Hr)%write_spec. exists (accept o (rev w + 1)). split; [done|]. split; [apply accept_admitted|].
  rewrite Hr. cbn. split; [lia|done].
Qed.
Next Obligation.
  intros k o w e w'. cbn. unfold create. destruct (objects w !! k) eqn:E; [|by intros [? _]%write_spec].
  intros [= <- <-]. split; [done|]. split; [lia|]. by intros _.
Qed.
Next Obligation.
  intros k o w w'. cbn. unfold update. destruct (objects w !! k) as [cur|] eqn:E; [|done].
  case_decide as Ev; [|done]. intros (_ & H & Hr)%write_spec. exists cur, (accept o (rev w + 1)).
  repeat (split; [done|]). split; [apply accept_admitted|]. rewrite Hr. cbn. split; [lia|]. split; [left; lia|done].
Qed.
Next Obligation.
  intros k o w e w'. cbn. unfold update. destruct (objects w !! k) as [cur|] eqn:E; [|by intros [= <- <-]].
  case_decide as Ev; [by intros [? _]%write_spec|by intros [= <- <-]].
Qed.
Next Obligation.
  intros k w w'. cbn. unfold del. destruct (objects w !! k) eqn:E; [|done]. intros [= <-]. cbn.
  split; [|lia]. apply objects_mk. intros k' o' [_ ?%objects_bound]%lookup_delete_Some. done.
Qed.
Next Obligation.
  intros k w e w'. cbn. unfold del. destruct (objects w !! k) eqn:E; [done|]. by intros [= <- <-].
Qed.
End Cluster.

(** ** [retry.RetryOnConflict] *)
Inductive attempts {W E A} (conflict : E -> bool) (fn : W -> result E A * W) : W -> result E A -> W -> Prop :=
| attempts_last w r w' : fn w = (r, w') -> attempts conflict fn w r w'
| attempts_again w e w1 r w' : fn w = (Err e, w1) -> conflict e = true ->
    attempts conflict fn w1 r w' -> attempts conflict fn w r w'.
Class Retry (W : Type) := {
  RetryOnConflict : forall E A, (E -> bool) -> (W -> result E A * W) -> W -> result E A * W;
  Retry_attempts : forall E A conflict fn w r w',
    RetryOnConflict E A conflict fn w = (r, w') -> attempts conflict fn w r w' }.
Arguments RetryOnConflict {W _ E A} conflict fn w.

(** Five attempts, as [retry.DefaultRetry] makes. *)
Fixpoint retry_steps {W E A} (conflict : E -> bool) (steps : nat) (fn : W -> result E A * W) (w : W) : result E A * W :=
  match steps, fn w with
  | S steps, (Err e, w1) => if conflict e then retry_steps conflict steps fn w1 else (Err e, w1)
  | _, r => r
  end.
Definition default_retry (W : Type) : Retry W.
Proof.
  refine {| RetryOnConflict E A conflict fn w := retry_steps conflict 4 fn w |}.
  intros E A conflict fn. generalize 4%nat. induction n as [|n IH]; intros w r w'; cbn [retry_steps].
  - intros H. by apply attempts_last.
  - destruct (fn w) as [[a|e] w1] eqn:Ef; [intros [= <- <-]; by apply attempts_last|].
    destruct (conflict e) eqn:Ec; [|intros [= <- <-]; by apply attempts_last].
    intros H. eapply attempts_again; [done..|]. by apply IH.
Defined.

(** What failing attempts preserve still holds at the last one. *)
Lemma attempts_last_run {W E A} (conflict : E -> bool) (fn : W -> result E A * W) (P : W -> Prop) w r w' :
  attempts conflict fn w r w' -> P w -> (forall v e v', P v -> fn v = (Err e, v') -> P v') ->
  exists v, P v /\ fn v = (r, w').
Proof. induction 1 as [w r w' Hf|w e w1 r w' Hf Hc Ha IH]; eauto. Qed.
