(* ===== verification/AgentTask.v ===== *)
(** * Agent tasks: [api/v1alpha1/agenttask_types.go] and the API calls on them

    The custom resource as a record, with the parts of its metadata the
    program reads, and the calls of the API client on it: a full update, a
    status update, and the merge patches [client.MergeFrom] computes from a
    base and a changed copy.  The client is third party: [TaskClient] states
    the calls, [TaskClientLaws] their documented effect; [TaskServer] is a
    concrete server. *)

From S2P Require Import Prelude GoStrings GoTime KubeApi.
Local Open Scope Z_scope.

(** ** The resource *)
Definition AgentTaskPhasePending : gostring := #"Pending".
Definition AgentTaskPhaseProvisioning : gostring := #"Provisioning".
Definition AgentTaskPhaseActive : gostring := #"Active".
Definition AgentTaskPhasePausing : gostring := #"Pausing".
Definition AgentTaskPhasePaused : gostring := #"Paused".
Definition AgentTaskPhaseCompleted : gostring := #"Completed".
Definition AgentTaskPhaseFailed : gostring := #"Failed".

Record Condition := mkCondition {
  cond_Type : gostring; cond_Status : gostring; cond_Reason : gostring; cond_Message : gostring;
  cond_ObservedGeneration : Z; cond_LastTransitionTime : Time }.
#[global] Instance Condition_eq_dec : EqDecision Condition.
Proof. solve_decision. Defined.

Record AgentTaskSpec := mkTaskSpec {
  sp_Objective : gostring;
  sp_RepoURL : gostring; sp_BaseBranch : gostring; sp_WorkingBranch : gostring;
  sp_Provider : gostring; sp_PoolRef : gostring; sp_TemplateRef : gostring; sp_TimeoutSeconds : Z;
  sp_BudgetUSD : gostring; sp_BudgetTokens : Z; sp_MaxIterations : Z; sp_Capabilities : list gostring;
  sp_DraftPR : bool; sp_Suspended : bool }.

Record AgentTaskStatus := mkTaskStatus {
  st_Phase : gostring; st_SandboxClaimRef : gostring; st_SandboxPodName : gostring; st_SandboxIP : gostring;
  st_Iteration : Z; st_PRURL : gostring; st_CostUSD : gostring; st_TokensConsumed : Z; st_Message : gostring;
  st_Conditions : list Condition; st_LastMeterRequestIDs : list gostring; st_ObservedGeneration : Z }.

Record AgentTask := mkTask {
  tk_Name : gostring; tk_Namespace : gostring; tk_UID : gostring; tk_Labels : gmap gostring gostring;
  tk_Annotations : gmap gostring gostring; tk_Finalizers : list gostring;
  tk_CreationTimestamp : Time; tk_DeletionTimestamp : option Time; tk_Generation : Z; tk_ResourceVersion : Z;
  tk_Spec : AgentTaskSpec; tk_Status : AgentTaskStatus }.

(** Reading an annotation: empty when it is absent. *)
Definition annotation (t : AgentTask) (k : gostring) : gostring := default [] (tk_Annotations t !! k).

(** ** Assignments to fields *)
Definition set_Suspended (b : bool) (s : AgentTaskSpec) : AgentTaskSpec :=
  mkTaskSpec (sp_Objective s) (sp_RepoURL s) (sp_BaseBranch s) (sp_WorkingBranch s) (sp_Provider s) (sp_PoolRef s)
    (sp_TemplateRef s) (sp_TimeoutSeconds s) (sp_BudgetUSD s) (sp_BudgetTokens s) (sp_MaxIterations s)
    (sp_Capabilities s) (sp_DraftPR s) b.

Definition set_Phase (p : gostring) (s : AgentTaskStatus) : AgentTaskStatus :=
  mkTaskStatus p (st_SandboxClaimRef s) (st_SandboxPodName s) (st_SandboxIP s) (st_Iteration s) (st_PRURL s)
    (st_CostUSD s) (st_TokensConsumed s) (st_Message s) (st_Conditions s) (st_LastMeterRequestIDs s) (st_ObservedGeneration s).
Definition set_Message (m : gostring) (s : AgentTaskStatus) : AgentTaskStatus :=
  mkTaskStatus (st_Phase s) (st_SandboxClaimRef s) (st_SandboxPodName s) (st_SandboxIP s) (st_Iteration s) (st_PRURL s)
    (st_CostUSD s) (st_TokensConsumed s) m (st_Conditions s) (st_LastMeterRequestIDs s) (st_ObservedGeneration s).
Definition set_Sandbox (claim pod ip : gostring) (s : AgentTaskStatus) : AgentTaskStatus :=
  mkTaskStatus (st_Phase s) claim pod ip (st_Iteration s) (st_PRURL s)
    (st_CostUSD s) (st_TokensConsumed s) (st_Message s) (st_Conditions s) (st_LastMeterRequestIDs s) (st_ObservedGeneration s).
Definition set_SandboxPodName (pod : gostring) (s : AgentTaskStatus) : AgentTaskStatus :=
  set_Sandbox (st_SandboxClaimRef s) pod (st_SandboxIP s) s.
Definition set_SandboxIP (ip : gostring) (s : AgentTaskStatus) : AgentTaskStatus :=
  set_Sandbox (st_SandboxClaimRef s) (st_SandboxPodName s) ip s.
Definition set_Usage (iteration : Z) (prurl cost : gostring) (tokens : Z) (ids : list gostring) (s : AgentTaskStatus)
    : AgentTaskStatus :=
  mkTaskStatus (st_Phase s) (st_SandboxClaimRef s) (st_SandboxPodName s) (st_SandboxIP s) iteration prurl
    cost tokens (st_Message s) (st_Conditions s) ids (st_ObservedGeneration s).
Definition set_LastMeterRequestIDs (ids : list gostring) (s : AgentTaskStatus) : AgentTaskStatus :=
  set_Usage (st_Iteration s) (st_PRURL s) (st_CostUSD s) (st_TokensConsumed s) ids s.
Definition set_Conditions (l : list Condition) (s : AgentTaskStatus) : AgentTaskStatus :=
  mkTaskStatus (st_Phase s) (st_SandboxClaimRef s) (st_SandboxPodName s) (st_SandboxIP s) (st_Iteration s) (st_PRURL s)
    (st_CostUSD s) (st_TokensConsumed s) (st_Message s) l (st_LastMeterRequestIDs s) (st_ObservedGeneration s).

Definition with_Annotations (a : gmap gostring gostring) (t : AgentTask) : AgentTask :=
  mkTask (tk_Name t) (tk_Namespace t) (tk_UID t) (tk_Labels t) a (tk_Finalizers t) (tk_CreationTimestamp t) (tk_DeletionTimestamp t)
    (tk_Generation t) (tk_ResourceVersion t) (tk_Spec t) (tk_Status t).
Definition with_Labels (l : gmap gostring gostring) (t : AgentTask) : AgentTask :=
  mkTask (tk_Name t) (tk_Namespace t) (tk_UID t) l (tk_Annotations t) (tk_Finalizers t) (tk_CreationTimestamp t)
    (tk_DeletionTimestamp t) (tk_Generation t) (tk_ResourceVersion t) (tk_Spec t) (tk_Status t).
Definition with_Finalizers (l : list gostring) (t : AgentTask) : AgentTask :=
  mkTask (tk_Name t) (tk_Namespace t) (tk_UID t) (tk_Labels t) (tk_Annotations t) l (tk_CreationTimestamp t) (tk_DeletionTimestamp t)
    (tk_Generation t) (tk_ResourceVersion t) (tk_Spec t) (tk_Status t).
Definition with_Version (v : Z) (t : AgentTask) : AgentTask :=
  mkTask (tk_Name t) (tk_Namespace t) (tk_UID t) (tk_Labels t) (tk_Annotations t) (tk_Finalizers t) (tk_CreationTimestamp t)
    (tk_DeletionTimestamp t) (tk_Generation t) v (tk_Spec t) (tk_Status t).
Definition with_Spec (f : AgentTaskSpec -> AgentTaskSpec) (t : AgentTask) : AgentTask :=
  mkTask (tk_Name t) (tk_Namespace t) (tk_UID t) (tk_Labels t) (tk_Annotations t) (tk_Finalizers t) (tk_CreationTimestamp t)
    (tk_DeletionTimestamp t) (tk_Generation t) (tk_ResourceVersion t) (f (tk_Spec t)) (tk_Status t).
(** [task.Status.x = ...] *)
Definition with_Status (f : AgentTaskStatus -> AgentTaskStatus) (t : AgentTask) : AgentTask :=
  mkTask (tk_Name t) (tk_Namespace t) (tk_UID t) (tk_Labels t) (tk_Annotations t) (tk_Finalizers t) (tk_CreationTimestamp t)
    (tk_DeletionTimestamp t) (tk_Generation t) (tk_ResourceVersion t) (tk_Spec t) (f (tk_Status t)).

(** ** Merge patches

    [client.MergeFrom base] sends the fields in which the object differs from
    the base: applied to the stored object, the other fields stay. *)
Definition merge_field {A} `{EqDecision A} (base new cur : A) : A := if decide (base = new) then cur else new.
Definition merge_status (base new cur : AgentTaskStatus) : AgentTaskStatus :=
  let m {A} `{EqDecision A} (f : AgentTaskStatus -> A) := merge_field (f base) (f new) (f cur) in
  mkTaskStatus (m st_Phase) (m st_SandboxClaimRef) (m st_SandboxPodName) (m st_SandboxIP) (m st_Iteration) (m st_PRURL)
    (m st_CostUSD) (m st_TokensConsumed) (m st_Message) (m st_Conditions) (m st_LastMeterRequestIDs) (m st_ObservedGeneration).
(** A map is merged key by key; a key that is gone is deleted. *)
Definition merge_map (base new cur : gmap gostring gostring) : gmap gostring gostring :=
  merge (fun (d : option (option gostring)) c => match d with Some v => v | None => c end)
    (merge (fun b n => if decide (b = n) then None else Some n) base new : gmap gostring (option gostring)) cur.

Abbreviation task_key := (gostring * gostring)%type.
Definition key_of (t : AgentTask) : task_key := (tk_Namespace t, tk_Name t).

Class TaskClient (W : Type) := {
  task_Get : task_key -> W -> ares AgentTask * W;
  task_Update : AgentTask -> W -> ares AgentTask * W;
  task_StatusUpdate : AgentTask -> W -> ares AgentTask * W;
  (** [Status().Patch] with [MergeFromWithOptimisticLock]: the version of the base *)
  task_StatusPatch : task_key -> Z -> (AgentTaskStatus -> AgentTaskStatus) -> W -> ares AgentTask * W;
  (** [Patch] of the annotations with [MergeFrom] *)
  task_Patch : task_key -> (gmap gostring gostring -> gmap gostring gostring) -> W -> ares AgentTask * W }.

(** What an accepted update stores: the metadata and spec sent, with the
    status, times and identity of the current object. *)
Definition updated (cur t : AgentTask) (generation version : Z) : AgentTask :=
  mkTask (tk_Name cur) (tk_Namespace cur) (tk_UID cur) (tk_Labels t) (tk_Annotations t) (tk_Finalizers t)
    (tk_CreationTimestamp cur) (tk_DeletionTimestamp cur) generation version (tk_Spec t) (tk_Status cur).
(** An object being deleted goes when its last finalizer does. *)
Definition store_updated (t' : AgentTask) (m : gmap task_key AgentTask) : gmap task_key AgentTask :=
  if bool_decide (is_Some (tk_DeletionTimestamp t')) && bool_decide (tk_Finalizers t' = [])
  then delete (key_of t') m else <[key_of t' := t']> m.

(** Updates and locked patches are accepted only on top of the version they
    name; a failing call changes nothing. *)
Class TaskClientLaws (W : Type) {C : TaskClient W} := {
  task_stored : W -> gmap task_key AgentTask;
  task_stored_key : forall w k t, task_stored w !! k = Some t -> key_of t = k;
  task_Get_pure : forall k w, snd (task_Get k w) = w;
  task_Get_Ok : forall k w t, fst (task_Get k w) = Ok t -> task_stored w !! k = Some t;
  task_Get_NotFound : forall k w, fst (task_Get k w) = Err NotFound -> task_stored w !! k = None;
  task_Update_Ok : forall t w t' w', task_Update t w = (Ok t', w') ->
    exists cur g v, task_stored w !! key_of t = Some cur /\ tk_ResourceVersion cur = tk_ResourceVersion t /\
      t' = updated cur t g v /\ task_stored w' = store_updated t' (task_stored w);
  task_StatusUpdate_Ok : forall t w t' w', task_StatusUpdate t w = (Ok t', w') ->
    exists cur v, task_stored w !! key_of t = Some cur /\ tk_ResourceVersion cur = tk_ResourceVersion t /\
      t' = with_Version v (with_Status (fun _ => tk_Status t) cur) /\
      task_stored w' = <[key_of t := t']> (task_stored w);
  task_StatusUpdate_NotFound : forall t w w', task_StatusUpdate t w = (Err NotFound, w') ->
    task_stored w !! key_of t = None;
  task_StatusPatch_Ok : forall k version f w t' w', task_StatusPatch k version f w = (Ok t', w') ->
    exists cur v, task_stored w !! k = Some cur /\ tk_ResourceVersion cur = version /\
      t' = with_Version v (with_Status f cur) /\ task_stored w' = <[k := t']> (task_stored w);
  task_Patch_Ok : forall k f w t' w', task_Patch k f w = (Ok t', w') ->
    exists cur v, task_stored w !! k = Some cur /\
      t' = with_Version v (with_Annotations (f (tk_Annotations cur)) cur) /\
      task_stored w' = <[k := t']> (task_stored w);
  task_Update_Err : forall t w e w', task_Update t w = (Err e, w') -> task_stored w' = task_stored w;
  task_StatusUpdate_Err : forall t w e w', task_StatusUpdate t w = (Err e, w') -> task_stored w' = task_stored w;
  task_StatusPatch_Err : forall k v f w e w', task_StatusPatch k v f w = (Err e, w') -> task_stored w' = task_stored w;
  task_Patch_Err : forall k f w e w', task_Patch k f w = (Err e, w') -> task_stored w' = task_stored w }.

(** Creation, deletion and listing.  An object with finalizers is only marked
    by a deletion. *)
Class TaskAdmin (W : Type) := {
  task_Create : AgentTask -> W -> ares AgentTask * W;
  task_Delete : task_key -> W -> ares unit * W;
  (** a namespace, [[]] for all; [client.Limit]; [client.Continue] *)
  task_List : gostring -> option Z -> gostring -> W -> ares (list AgentTask * gostring) * W }.
(** What a creation stores: the name, labels, annotations, finalizers and spec
    sent, with an empty status. *)
Definition empty_status : AgentTaskStatus := mkTaskStatus [] [] [] [] 0 [] [] 0 [] [] [] 0.
Definition created (t : AgentTask) (uid : gostring) (now : Time) (version : Z) : AgentTask :=
  mkTask (tk_Name t) (tk_Namespace t) uid (tk_Labels t) (tk_Annotations t) (tk_Finalizers t) now None 1 version (tk_Spec t) empty_status.
Definition marked (t : AgentTask) (now : Time) (version : Z) : AgentTask :=
  mkTask (tk_Name t) (tk_Namespace t) (tk_UID t) (tk_Labels t) (tk_Annotations t) (tk_Finalizers t) (tk_CreationTimestamp t)
    (Some (default now (tk_DeletionTimestamp t))) (tk_Generation t) version (tk_Spec t) (tk_Status t).
Class TaskAdminLaws (W : Type) {C : TaskClient W} {L : TaskClientLaws W} {A : TaskAdmin W} := {
  task_Create_Ok : forall t w t' w', task_Create t w = (Ok t', w') ->
    exists uid now v, task_stored w !! key_of t = None /\ t' = created t uid now v /\
      task_stored w' = <[key_of t := t']> (task_stored w);
  task_Create_Err : forall t w e w', task_Create t w = (Err e, w') -> task_stored w' = task_stored w;
  task_Delete_Ok : forall k w w', task_Delete k w = (Ok tt, w') ->
    exists cur, task_stored w !! k = Some cur /\
      ((tk_Finalizers cur = [] /\ task_stored w' = delete k (task_stored w)) \/
       exists now v, task_stored w' = <[k := marked cur now v]> (task_stored w));
  task_Delete_Err : forall k w e w', task_Delete k w = (Err e, w') -> task_stored w' = task_stored w;
  task_List_pure : forall ns limit token w, snd (task_List ns limit token w) = w;
  task_List_Ok : forall ns limit token w l next, fst (task_List ns limit token w) = Ok (l, next) ->
    forall t, t ∈ l -> task_stored w !! key_of t = Some t /\ (ns = [] \/ tk_Namespace t = ns) }.

(** Deleting and inserting under the object's own key. *)
Lemma store_updated_key t' m k t : (forall t0, m !! k = Some t0 -> key_of t0 = k) ->
  store_updated t' m !! k = Some t -> key_of t = k.
Proof.
  intros Hm. unfold store_updated. destruct (_ && _).
  - intros [_ H]%lookup_delete_Some. by apply Hm.
  - rewrite lookup_insert. case_decide as E; [|by apply Hm]. by intros [= <-].
Qed.

(** ** A concrete server *)
Module TaskServer.
Record t := mk { raw : gmap task_key AgentTask; rev : Z }.
(** Objects are kept under their own key. *)
Definition objects (w : t) : gmap task_key AgentTask := filter (fun kt => key_of kt.2 = kt.1) (raw w).
Definition get (k : task_key) (w : t) : ares AgentTask * t :=
  (match objects w !! k with Some o => Ok o | None => Err NotFound end, w).
(** A write on the current object, when [ok] accepts it. *)
Definition write (k : task_key) (ok : AgentTask -> bool) (f : AgentTask -> AgentTask)
    (put : AgentTask -> gmap task_key AgentTask -> gmap task_key AgentTask) (w : t) : ares AgentTask * t :=
  match objects w !! k with
  | None => (Err NotFound, w)
  | Some cur => if ok cur then let t' := f cur in (Ok t', mk (put t' (objects w)) (rev w + 1)) else (Err Conflict, w)
  end.
Definition at_version (v : Z) (cur : AgentTask) : bool := bool_decide (tk_ResourceVersion cur = v).
#[global] Instance client : TaskClient t := {
  task_Get := get;
  task_Update tk w := write (key_of tk) (at_version (tk_ResourceVersion tk))
    (fun cur => updated cur tk (tk_Generation cur + 1) (rev w + 1)) store_updated w;
  task_StatusUpdate tk w := write (key_of tk) (at_version (tk_ResourceVersion tk))
    (fun cur => with_Version (rev w + 1) (with_Status (fun _ => tk_Status tk) cur)) (fun t' => insert (key_of tk) t') w;
  task_StatusPatch k v f w := write k (at_version v)
    (fun cur => with_Version (rev w + 1) (with_Status f cur)) (fun t' => insert k t') w;
  task_Patch k f w := write k (fun _ => true)
    (fun cur => with_Version (rev w + 1) (with_Annotations (f (tk_Annotations cur)) cur)) (fun t' => insert k t') w }.

#[global] Instance admin : TaskAdmin t := {
  task_Create tk w :=
    match objects w !! key_of tk with
    | Some _ => (Err AlreadyExists, w)
    | None => let t' := created tk #"uid" time_zero (rev w + 1) in (Ok t', mk (<[key_of tk := t']> (objects w)) (rev w + 1))
    end;
  task_Delete k w :=
    match objects w !! k with
    | None => (Err NotFound, w)
    | Some cur => (Ok tt, mk (if bool_decide (tk_Finalizers cur = []) then delete k (objects w)
                              else <[k := marked cur time_zero (rev w + 1)]> (objects w)) (rev w + 1))
    end;
  task_List ns limit token w :=
    (Ok (filter (fun tk => ns = [] \/ tk_Namespace tk = ns) (map snd (map_to_list (objects w))), []), w) }.

Lemma objects_key w k o : objects w !! k = Some o -> key_of o = k.
Proof. by intros [_ H]%map_lookup_filter_Some. Qed.
Lemma task_objects_mk m v : (forall k o, m !! k = Some o -> key_of o = k) -> objects (mk m v) = m.
Proof. intros H. unfold objects. apply map_filter_id. intros k o ?. cbn. by apply H. Qed.
Lemma task_write_spec k ok f put w r w' : write k ok f put w = (r, w') ->
  (forall cur, key_of cur = k -> forall k' o, put (f cur) (objects w) !! k' = Some o -> key_of o = k') ->
  match r with
  | Ok t' => exists cur, objects w !! k = Some cur /\ ok cur = true /\ t' = f cur /\ objects w' = put t' (objects w)
  | Err _ => objects w' = objects w
  end.
Proof.
  unfold write. destruct (objects w !! k) as [cur|] eqn:E; [|by intros [= <- <-]].
  destruct (ok cur) eqn:Eo; intros [= <- <-]; [|done]. intros Hp. exists cur. repeat (split; [done|]).
  apply task_objects_mk, Hp. by eapply objects_key.
Qed.
Lemma insert_key k (t' : AgentTask) w : key_of t' = k ->
  forall k' o, <[k := t']> (objects w) !! k' = Some o -> key_of o = k'.
Proof. intros Hk k' o. rewrite lookup_insert. case_decide; [intros [= <-]; congruence|apply objects_key]. Qed.
Lemma put_updated cur k tk g v : key_of cur = k -> forall w k' o,
  store_updated (updated cur tk g v) (objects w) !! k' = Some o -> key_of o = k'.
Proof. intros _ w k' o. apply store_updated_key. intros t0. apply objects_key. Qed.

Ltac written H := cbn in H; apply task_write_spec in H;
  [|intros; first [eapply put_updated; eassumption | eapply insert_key; [|eassumption]; done]].
#[global, program] Instance laws : TaskClientLaws t := {| task_stored := objects |}.
Next Obligation. exact objects_key. Qed.
Next Obligation. done. Qed.
Next Obligation. intros k w o. cbn. unfold get. cbn. destruct (objects w !! k); congruence. Qed.
Next Obligation. intros k w. cbn. unfold get. cbn. by destruct (objects w !! k). Qed.
Next Obligation.
  intros tk w t' w' H. written H. destruct H as (cur & H1 & H2 & -> & H3). apply bool_decide_eq_true in H2. eauto 10.
Qed.
Next Obligation.
  intros tk w t' w' H. written H. destruct H as (cur & H1 & H2 & -> & H3). apply bool_decide_eq_true in H2. eauto 10.
Qed.
Next Obligation.
  intros tk w w'. cbn. unfold write. by destruct (objects w !! _) as [cur|]; [destruct (at_version _ _)|].
Qed.
Next Obligation.
  intros k v f w t' w' H. written H. destruct H as (cur & H1 & H2 & -> & H3). apply bool_decide_eq_true in H2. eauto 10.
Qed.
Next Obligation. intros k f w t' w' H. written H. destruct H as (cur & H1 & _ & -> & H3). eauto 10. Qed.
Next Obligation. intros tk w e w' H. by written H. Qed.
Next Obligation. intros tk w e w' H. by written H. Qed.
Next Obligation. intros k v f w e w' H. by written H. Qed.
Next Obligation. intros k f w e w' H. by written H. Qed.

#[global, program] Instance admin_laws : TaskAdminLaws t.
Next Obligation.
  intros tk w t' w'. cbn. destruct (objects w !! key_of tk) eqn:E; [done|]. intros [= <- <-].
  eexists _, _, _. split; [done|]. split; [done|]. apply task_objects_mk, insert_key. done.
Qed.
Next Obligation. intros tk w e w'. cbn. destruct (objects w !! key_of tk) eqn:E; [by intros [= _ <-]|done]. Qed.
Next Obligation.
  intros k w w'. cbn. destruct (objects w !! k) as [cur|] eqn:E; [|done]. intros [= <-]. exists cur. split; [done|].
  pose proof (objects_key _ _ _ E) as Hk. case_bool_decide as Ef.
  - left. split; [done|]. apply task_objects_mk. intros k' o [_ H]%lookup_delete_Some. by eapply objects_key.
  - right. eexists _, _. apply task_objects_mk, insert_key. exact Hk.
Qed.
Next Obligation. intros k w e w'. cbn. destruct (objects w !! k); [done|]. by intros [= _ <-]. Qed.
Next Obligation. done. Qed.
Next Obligation.
  intros ns limit token w l next [= <- <-] tk Ht. apply list_elem_of_filter in Ht as [Hn Ht].
  apply list_elem_of_fmap in Ht as ([k o] & -> & Ho). apply elem_of_map_to_list in Ho. cbn in *.
  split; [|done]. by rewrite (objects_key _ _ _ Ho).
Qed.
End TaskServer.

(** * Lemmas: a merge patch applied to its base gives the changed object *)
Lemma merge_field_self {A} `{EqDecision A} (base new : A) : merge_field base new base = new.
Proof. unfold merge_field. by case_decide. Qed.
Lemma merge_status_self base new : merge_status base new base = new.
Proof. unfold merge_status. rewrite !merge_field_self. by destruct new. Qed.
Lemma merge_map_self base new : merge_map base new base = new.
Proof.
  apply map_eq. intros k. unfold merge_map. rewrite !lookup_merge. unfold diag_None.
  destruct (base !! k) as [b|], (new !! k) as [n|]; cbn; repeat case_decide; congruence.
Qed.
