(* ===== verification/ObjectApi.v ===== *)
(** * Custom resources on the API server

    controller-runtime's [client.Client] is third party: [ObjectApi] has the
    calls on the objects of one kind, [ObjectApiLaws] their documented
    behaviour, and [Resource] what the server does to an object of that kind.
    [Server] is a server that satisfies the laws, for any kind. *)

From S2P Require Import Prelude GoStrings GoTime TokenStore KubeApi AgentTask.
Local Open Scope Z_scope.

Abbreviation obj_key := task_key.
Abbreviation labels := (gmap gostring gostring).

(** What the server reads of an object and makes of one: a new object is
    given a unique identifier and has no status; an update keeps the status
    and what only the server sets; a deletion with finalizers marks. *)
Class Resource (Ob : Type) := {
  r_key : Ob -> obj_key;
  r_labels : Ob -> labels;
  r_finalizers : Ob -> list gostring;
  r_deletion : Ob -> option Time;
  r_version : Ob -> Z;
  r_uid : Ob -> gostring;
  with_version : Z -> Ob -> Ob;
  r_create : Ob -> gostring -> Time -> Z -> Ob;
  r_update : Ob -> Ob -> Z -> Z -> Ob;
  r_mark : Ob -> Time -> Z -> Ob }.
Class ResourceLaws (Ob : Type) {R : Resource Ob} := {
  with_version_key : forall v o, r_key (with_version v o) = r_key o;
  with_version_labels : forall v o, r_labels (with_version v o) = r_labels o;
  with_version_finalizers : forall v o, r_finalizers (with_version v o) = r_finalizers o;
  with_version_deletion : forall v o, r_deletion (with_version v o) = r_deletion o;
  create_deletion : forall o uid now v, r_deletion (r_create o uid now v) = None;
  create_key : forall o uid now v, r_key (r_create o uid now v) = r_key o;
  create_labels : forall o uid now v, r_labels (r_create o uid now v) = r_labels o;
  update_key : forall cur o g v, r_key (r_update cur o g v) = r_key cur;
  update_labels : forall cur o g v, r_labels (r_update cur o g v) = r_labels o;
  update_finalizers : forall cur o g v, r_finalizers (r_update cur o g v) = r_finalizers o;
  update_deletion : forall cur o g v, r_deletion (r_update cur o g v) = r_deletion cur;
  mark_key : forall o now v, r_key (r_mark o now v) = r_key o;
  mark_labels : forall o now v, r_labels (r_mark o now v) = r_labels o;
  mark_finalizers : forall o now v, r_finalizers (r_mark o now v) = r_finalizers o;
  mark_deletion : forall o now v, is_Some (r_deletion (r_mark o now v)) }.

Class ObjectApi (Ob W : Type) := {
  obj_Get : obj_key -> W -> ares Ob * W;
  obj_Create : Ob -> W -> ares Ob * W;
  obj_Update : Ob -> W -> ares Ob * W;
  (** the patch as a function of the stored object *)
  obj_Patch : obj_key -> (Ob -> Ob) -> W -> ares Ob * W;
  (** with the UID asked for as a precondition *)
  obj_Delete : option gostring -> obj_key -> W -> ares unit * W;
  (** the labels asked for, and the namespace, empty for all *)
  obj_List : labels -> gostring -> W -> ares (list Ob) * W }.

(** An object being deleted is held by a finalizer. *)
Definition released {Ob} `{Resource Ob} (o : Ob) : bool := bool_decide (r_finalizers o = []) && bool_decide (is_Some (r_deletion o)).
(** What a patch of the status or the annotations leaves. *)
Definition keeps_meta {Ob} `{Resource Ob} (f : Ob -> Ob) : Prop :=
  forall cur, r_key (f cur) = r_key cur /\ r_finalizers (f cur) = r_finalizers cur /\ r_deletion (f cur) = r_deletion cur.
(** Writing the last finalizer away from a deleted object removes it. *)
Definition put {Ob} `{Resource Ob} (o : Ob) (m : gmap obj_key Ob) : gmap obj_key Ob :=
  if released o then delete (r_key o) m else <[r_key o := o]> m.
Definition selected {Ob} `{Resource Ob} (sel : labels) (ns : gostring) (o : Ob) : Prop :=
  sel ⊆ r_labels o /\ (ns = [] \/ fst (r_key o) = ns).
#[global] Instance selected_dec {Ob} `{Resource Ob} sel ns (o : Ob) : Decision (selected sel ns o).
Proof. unfold selected. apply _. Defined.

Definition uid_matches {Ob} `{Resource Ob} (pre : option gostring) (o : Ob) : Prop := forall u, pre = Some u -> r_uid o = u.
#[global] Instance uid_matches_dec {Ob} `{Resource Ob} pre (o : Ob) : Decision (uid_matches pre o).
Proof.
  refine (match pre with None => left _ | Some u => cast_if (decide (r_uid o = u)) end); unfold uid_matches in *; naive_solver.
Defined.

Class ObjectApiLaws (Ob W : Type) {R : Resource Ob} {A : ObjectApi Ob W} := {
  stored : W -> gmap obj_key Ob;
  stored_key : forall w k o, stored w !! k = Some o -> r_key o = k;
  stored_held : forall w k o, stored w !! k = Some o -> released o = false;
  obj_Get_pure : forall k w, snd (obj_Get (Ob := Ob) k w) = w;
  obj_Get_Ok : forall k w o, fst (obj_Get k w) = Ok o -> stored w !! k = Some o;
  obj_Get_NotFound : forall k w, fst (obj_Get (Ob := Ob) k w) = Err NotFound -> stored w !! k = None;
  obj_List_pure : forall sel ns w, snd (obj_List (Ob := Ob) sel ns w) = w;
  obj_List_Ok : forall sel ns w l, fst (obj_List sel ns w) = Ok l ->
    forall o : Ob, o ∈ l <-> stored w !! r_key o = Some o /\ selected sel ns o;
  obj_Create_Ok : forall o o' w w', obj_Create o w = (Ok o', w') ->
    exists uid now v, stored w !! r_key o = None /\ o' = r_create o uid now v /\ stored w' = <[r_key o := o']> (stored w);
  obj_Create_Err : forall (o : Ob) w e w', obj_Create o w = (Err e, w') -> stored w' = stored w;
  obj_Update_Ok : forall o o' w w', obj_Update o w = (Ok o', w') ->
    exists cur g v, stored w !! r_key o = Some cur /\ r_version o = r_version cur /\ o' = r_update cur o g v /\
      stored w' = put o' (stored w);
  obj_Update_Err : forall (o : Ob) w e w', obj_Update o w = (Err e, w') -> stored w' = stored w;
  obj_Patch_Ok : forall k f o' w w', obj_Patch k f w = (Ok o', w') ->
    keeps_meta f -> exists cur v, stored w !! k = Some cur /\ o' = with_version v (f cur) /\
      stored w' = <[k := o']> (stored w);
  obj_Patch_Err : forall k (f : Ob -> Ob) w e w', obj_Patch k f w = (Err e, w') -> stored w' = stored w;
  obj_Patch_NotFound : forall k (f : Ob -> Ob) w w', obj_Patch k f w = (Err NotFound, w') -> stored w !! k = None;
  obj_Delete_Ok : forall pre k w w', obj_Delete (Ob := Ob) pre k w = (Ok tt, w') ->
    exists cur, stored w !! k = Some cur /\ uid_matches pre cur /\
      ((r_finalizers cur = [] /\ stored w' = delete k (stored w)) \/
       (r_finalizers cur <> [] /\ exists now v, stored w' = <[k := r_mark cur now v]> (stored w)));
  obj_Delete_Err : forall pre k w e w', obj_Delete (Ob := Ob) pre k w = (Err e, w') -> stored w' = stored w;
  obj_Delete_NotFound : forall pre k w w', obj_Delete (Ob := Ob) pre k w = (Err NotFound, w') -> stored w !! k = None }.
Arguments stored {Ob W R A ObjectApiLaws} w : simpl never.

(** ** What any call may do to an object *)
Section Frames.
Context {Ob W : Type} {R : Resource Ob} {RL : ResourceLaws Ob} {A : ObjectApi Ob W} {L : ObjectApiLaws Ob W}.
Implicit Types (o : Ob) (w : W).

Lemma put_other o m k : k <> r_key o -> put o m !! k = m !! k.
Proof. intros Hk. unfold put. destruct (released o); [by rewrite lookup_delete_ne|by rewrite lookup_insert_ne]. Qed.
Lemma put_own o m : put o m !! r_key o = Some o \/
  (put o m !! r_key o = None /\ r_finalizers o = [] /\ is_Some (r_deletion o)).
Proof.
  unfold put, released. repeat case_bool_decide; cbn; rewrite ?lookup_delete_eq, ?lookup_insert_eq; auto.
Qed.
Lemma Create_other o r w w' k : obj_Create o w = (r, w') -> k <> r_key o -> stored w' !! k = stored w !! k.
Proof.
  destruct r as [o'|e]; [|by intros ->%obj_Create_Err].
  intros (uid & now & v & _ & _ & ->)%obj_Create_Ok Hk. by rewrite lookup_insert_ne.
Qed.
Lemma Update_other o r w w' k : obj_Update o w = (r, w') -> k <> r_key o -> stored w' !! k = stored w !! k.
Proof using RL.
  destruct r as [o'|e]; [|by intros ->%obj_Update_Err].
  intros (cur & g & v & Hc & _ & -> & ->)%obj_Update_Ok Hk. apply put_other. rewrite update_key.
  by rewrite (stored_key _ _ _ Hc).
Qed.
Lemma Patch_other k0 f r w w' k : obj_Patch k0 f w = (r, w') -> keeps_meta (Ob := Ob) f -> k <> k0 ->
  stored w' !! k = stored w !! k.
Proof.
  destruct r as [o'|e]; [|by intros ->%obj_Patch_Err]. intros H Hf Hk.
  apply obj_Patch_Ok in H as (cur & v & _ & _ & ->); [|done]. by rewrite lookup_insert_ne.
Qed.
Lemma Delete_other pre k0 r w w' k : obj_Delete (Ob := Ob) pre k0 w = (r, w') -> k <> k0 -> stored w' !! k = stored w !! k.
Proof.
  destruct r as [[]|e]; [|by intros ->%obj_Delete_Err].
  intros (cur & _ & _ & [[_ ->]|(_ & now & v & ->)])%obj_Delete_Ok Hk; [by rewrite lookup_delete_ne|by rewrite lookup_insert_ne].
Qed.
(** Deleted objects are gone or marked. *)
Lemma Delete_marks pre k w w' o : obj_Delete (Ob := Ob) pre k w = (Ok tt, w') -> stored w' !! k = Some o -> is_Some (r_deletion o).
Proof using RL.
  intros (cur & _ & _ & [[_ ->]|(_ & now & v & ->)])%obj_Delete_Ok; [by rewrite lookup_delete_eq|].
  rewrite lookup_insert_eq. intros [= <-]. apply mark_deletion.
Qed.

(** A call that spares the object of a key. *)
Definition spares {B} (k : obj_key) (f : W -> B * W) : Prop := forall w, stored (snd (f w)) !! k = stored w !! k.
Lemma spares_get k k' : spares k (obj_Get (Ob := Ob) k').
Proof. intros w. by rewrite obj_Get_pure. Qed.
Lemma spares_list k sel ns : spares k (obj_List (Ob := Ob) sel ns).
Proof. intros w. by rewrite obj_List_pure. Qed.
Lemma spares_create k o : r_key o <> k -> spares k (obj_Create o).
Proof. intros Hk w. destruct (obj_Create o w) as [r w'] eqn:E. eapply Create_other; [exact E|congruence]. Qed.
Lemma spares_update k o : r_key o <> k -> spares k (obj_Update o).
Proof using RL. intros Hk w. destruct (obj_Update o w) as [r w'] eqn:E. eapply Update_other; [exact E|congruence]. Qed.
Lemma spares_patch k k' (f : Ob -> Ob) : keeps_meta f -> k' <> k -> spares k (obj_Patch k' f).
Proof. intros Hf Hk w. destruct (obj_Patch k' f w) as [r w'] eqn:E. eapply Patch_other; [exact E|done|congruence]. Qed.
Lemma spares_delete k pre k' : k' <> k -> spares k (obj_Delete (Ob := Ob) pre k').
Proof. intros Hk w. destruct (obj_Delete pre k' w) as [r w'] eqn:E. eapply Delete_other; [exact E|congruence]. Qed.
(** What the calls give back has the key asked for. *)
Lemma get_key k w o : fst (obj_Get k w) = Ok o -> r_key o = k.
Proof using L. intros H. by apply (stored_key w), obj_Get_Ok. Qed.
Lemma list_namespace sel ns w l o : fst (obj_List sel ns w) = Ok l -> ns <> [] -> o ∈ l -> fst (r_key o) = ns.
Proof using L. intros H Hn Ho. apply (obj_List_Ok _ _ _ _ H) in Ho as [_ [_ [?|?]]]; done. Qed.
Lemma update_key_of o w o' : fst (obj_Update o w) = Ok o' -> r_key o' = r_key o.
Proof using RL L.
  intros H. destruct (obj_Update o w) as [r w'] eqn:E. cbn in H. subst r.
  apply obj_Update_Ok in E as (cur & g & v & Hc & _ & -> & _). rewrite update_key. by apply stored_key in Hc.
Qed.
Lemma patch_key_of k f w o' : keeps_meta f -> fst (obj_Patch k f w) = Ok o' -> r_key o' = k.
Proof using RL L.
  intros Hf H. destruct (obj_Patch k f w) as [r w'] eqn:E. cbn in H. subst r.
  apply obj_Patch_Ok in E as (cur & v & Hc & -> & _); [|done]. rewrite with_version_key. destruct (Hf cur) as [-> _]. by apply stored_key in Hc.
Qed.

(** A server whose calls on stored objects do not fail. *)
Class Reliable : Prop := {
  Get_stored : forall k w o, stored w !! k = Some o -> fst (obj_Get k w) = Ok o;
  Get_missing : forall k w, stored w !! k = None -> fst (obj_Get (Ob := Ob) k w) = Err NotFound;
  List_answers : forall sel ns w, exists l, fst (obj_List (Ob := Ob) sel ns w) = Ok l;
  Create_accepted : forall o w, stored w !! r_key o = None -> exists o', fst (obj_Create o w) = Ok o';
  Create_refused : forall o w, is_Some (stored w !! r_key o) -> fst (obj_Create o w) = Err AlreadyExists;
  Update_accepted : forall o w cur, stored w !! r_key o = Some cur -> r_version o = r_version cur ->
    exists o', fst (obj_Update o w) = Ok o';
  Patch_accepted : forall k f w, is_Some (stored w !! k) -> exists o' : Ob, fst (obj_Patch k f w) = Ok o';
  Delete_missing : forall pre k w, stored w !! k = None -> fst (obj_Delete (Ob := Ob) pre k w) = Err NotFound;
  Delete_accepted : forall pre k w o, stored w !! k = Some o -> uid_matches pre o -> fst (obj_Delete (Ob := Ob) pre k w) = Ok tt }.
End Frames.
Arguments Reliable Ob W {R A L}.

(** ** [controllerutil.CreateOrUpdate] *)
Inductive upsert_error := ApiFailed (e : api_error) | MutateFailed (msg : gostring).
(** The object, found or to be created, with what is made of it. *)
Class UpsertApi (Ob W : Type) := { obj_CreateOrUpdate : Ob -> (Ob -> result gostring Ob) -> W -> result upsert_error unit * W }.
Class UpsertApiLaws (Ob W : Type) {R : Resource Ob} {A : ObjectApi Ob W} {L : ObjectApiLaws Ob W} {V : UpsertApi Ob W} : Prop := {
  CreateOrUpdate_Ok : forall o f w w', obj_CreateOrUpdate o f w = (Ok tt, w') ->
    (stored w !! r_key o = None /\ exists o' uid now v, f o = Ok o' /\ r_key o' = r_key o /\
       stored w' = <[r_key o := r_create o' uid now v]> (stored w)) \/
    (exists cur o', stored w !! r_key o = Some cur /\ f cur = Ok o' /\ r_key o' = r_key o /\
       ((o' = cur /\ stored w' = stored w) \/ exists g v, stored w' = put (r_update cur o' g v) (stored w)));
  CreateOrUpdate_Err : forall o f w e w', obj_CreateOrUpdate o f w = (Err e, w') -> stored w' = stored w }.
Section Upsert.
Context {Ob W : Type} {R : Resource Ob} {RL : ResourceLaws Ob} {A : ObjectApi Ob W} {L : ObjectApiLaws Ob W}.
Context {V : UpsertApi Ob W} {VL : UpsertApiLaws Ob W}.
Lemma CreateOrUpdate_other o f w x w' k : obj_CreateOrUpdate o f w = (x, w') -> k <> r_key o -> stored w' !! k = stored w !! k.
Proof using RL VL.
  destruct x as [[]|e]; [|by intros ->%CreateOrUpdate_Err].
  intros [(_ & o' & uid & now & v & _ & _ & ->)|(cur & o' & Hc & _ & _ & [[_ ->]|(g & v & ->)])]%CreateOrUpdate_Ok Hk; [by rewrite lookup_insert_ne|done|].
  apply put_other. rewrite update_key. by rewrite (stored_key _ _ _ Hc).
Qed.
Lemma spares_upsert k o f : r_key o <> k -> spares k (obj_CreateOrUpdate o f).
Proof using RL VL. intros Hk w. destruct (obj_CreateOrUpdate o f w) as [x w'] eqn:E. eapply CreateOrUpdate_other; [exact E|congruence]. Qed.
End Upsert.
Create HintDb spares.
#[export] Hint Resolve spares_get spares_list spares_create spares_update spares_patch spares_delete spares_upsert : spares.

(** ** A concrete server *)
Module Server.
Section Server.
Context {Ob : Type} {R : Resource Ob} {RL : ResourceLaws Ob}.
Record t := mk { raw : gmap obj_key Ob; rev : Z }.
(** Objects are kept under their own key. *)
Definition objects (w : t) : gmap obj_key Ob := filter (fun kt => r_key kt.2 = kt.1 /\ released kt.2 = false) (raw w).
Definition write (w : t) (m : gmap obj_key Ob) : t := mk m (rev w + 1).
#[export] Instance api : ObjectApi Ob t := {
  obj_Get k w := (match objects w !! k with Some o => Ok o | None => Err NotFound end, w);
  obj_Create o w :=
    match objects w !! r_key o with
    | Some _ => (Err AlreadyExists, w)
    | None => let o' := r_create o #"uid" time_zero (rev w + 1) in (Ok o', write w (<[r_key o := o']> (objects w)))
    end;
  obj_Update o w :=
    match objects w !! r_key o with
    | None => (Err NotFound, w)
    | Some cur =>
        if bool_decide (r_version o = r_version cur)
        then let o' := r_update cur o (rev w + 1) (rev w + 1) in (Ok o', write w (put o' (objects w)))
        else (Err Conflict, w)
    end;
  obj_Patch k f w :=
    match objects w !! k with
    | None => (Err NotFound, w)
    | Some cur => let o' := with_version (rev w + 1) (f cur) in (Ok o', write w (<[k := o']> (objects w)))
    end;
  obj_Delete pre k w :=
    match objects w !! k with
    | None => (Err NotFound, w)
    | Some cur =>
        if decide (uid_matches pre cur)
        then (Ok tt, write w (if bool_decide (r_finalizers cur = []) then delete k (objects w)
                              else <[k := r_mark cur time_zero (rev w + 1)]> (objects w)))
        else (Err Conflict, w)
    end;
  obj_List sel ns w := (Ok (filter (fun o => selected sel ns o) (map snd (map_to_list (objects w)))), w) }.

Lemma server_key w k o : objects w !! k = Some o -> r_key o = k.
Proof. by intros [_ [H _]]%map_lookup_filter_Some. Qed.
Lemma server_held w k o : objects w !! k = Some o -> released o = false.
Proof. by intros [_ [_ H]]%map_lookup_filter_Some. Qed.
Definition well_kept (m : gmap obj_key Ob) : Prop := forall k o, m !! k = Some o -> r_key o = k /\ released o = false.
Lemma objects_write w m : well_kept m -> objects (write w m) = m.
Proof. intros H. unfold objects. apply map_filter_id. intros k o Ho. cbn. exact (H k o Ho). Qed.
Lemma insert_own w k o : r_key o = k -> released o = false -> well_kept (<[k := o]> (objects w)).
Proof.
  intros Hk Hr k' o'. rewrite lookup_insert. case_decide; [intros [= <-]; by subst|].
  intros Ho. split; [by eapply server_key|by eapply server_held].
Qed.
Lemma delete_own w k : well_kept (delete k (objects w)).
Proof. intros k' o' [_ H]%lookup_delete_Some. split; [by eapply server_key|by eapply server_held]. Qed.
Lemma put_own_key w o : well_kept (put o (objects w)).
Proof. unfold put. destruct (released o) eqn:E; [apply delete_own|by apply insert_own]. Qed.
Lemma released_same (o o' : Ob) : r_finalizers o' = r_finalizers o -> r_deletion o' = r_deletion o -> released o' = released o.
Proof. unfold released. by intros -> ->. Qed.

#[export, program] Instance api_laws : ObjectApiLaws Ob t := {| stored := objects |}.
Next Obligation. exact server_key. Qed.
Next Obligation. exact server_held. Qed.
Next Obligation. done. Qed.
Next Obligation. intros k w o. cbn. destruct (objects w !! k); congruence. Qed.
Next Obligation. intros k w. cbn. by destruct (objects w !! k). Qed.
Next Obligation. done. Qed.
Next Obligation.
  intros sel ns w l [= <-] o. rewrite list_elem_of_filter, list_elem_of_fmap. split.
  - intros [Hs ([k o'] & -> & Ho%elem_of_map_to_list)]. cbn in *. split; [|done]. by rewrite (server_key _ _ _ Ho).
  - intros [Ho Hs]. split; [done|]. exists (r_key o, o). by rewrite elem_of_map_to_list.
Qed.
Next Obligation.
  intros o o' w w'. cbn. destruct (objects w !! r_key o) eqn:E; [done|]. intros [= <- <-].
  eexists _, _, _. split; [done|]. split; [done|]. apply objects_write, insert_own; [apply create_key|].
  unfold released. rewrite create_deletion, (bool_decide_eq_false_2 (is_Some None)) by apply is_Some_None. apply andb_false_r.
Qed.
Next Obligation. intros o w e w'. cbn. destruct (objects w !! r_key o); [by intros [= <- <-]|done]. Qed.
Next Obligation.
  intros o o' w w'. cbn. destruct (objects w !! r_key o) as [cur|] eqn:E; [|done]. case_bool_decide as Ev; [|done].
  intros [= <- <-]. eexists _, _, _. repeat (split; [done|]). apply objects_write, put_own_key.
Qed.
Next Obligation.
  intros o w e w'. cbn. destruct (objects w !! r_key o); [case_bool_decide; [done|]|]; by intros [= <- <-].
Qed.
Next Obligation.
  intros k f o' w w'. cbn. destruct (objects w !! k) as [cur|] eqn:E; [|done]. intros [= <- <-] Hf.
  eexists _, _. split; [done|]. split; [done|]. destruct (Hf cur) as (H1 & H2 & H3). apply objects_write, insert_own.
  - rewrite with_version_key, H1. by eapply server_key.
  - rewrite <- (server_held _ _ _ E). apply released_same; [by rewrite with_version_finalizers|by rewrite with_version_deletion].
Qed.
Next Obligation. intros k f w e w'. cbn. destruct (objects w !! k); [done|by intros [= <- <-]]. Qed.
Next Obligation. intros k f w w'. cbn. by destruct (objects w !! k). Qed.
Next Obligation.
  intros pre k w w'. cbn. destruct (objects w !! k) as [cur|] eqn:E; [|done]. case_decide as Eu; [|done]. intros [= <-].
  exists cur. split; [done|]. split; [done|]. case_bool_decide as Ef; [left|right].
  - split; [done|]. apply objects_write, delete_own.
  - split; [done|]. eexists _, _. apply objects_write, insert_own; [rewrite mark_key; by eapply server_key|].
    unfold released. rewrite mark_finalizers, bool_decide_false by done. done.
Qed.
Next Obligation. intros pre k w e w'. cbn. destruct (objects w !! k); [case_decide; [done|]|]; by intros [= <- <-]. Qed.
Next Obligation. intros pre k w w'. cbn. destruct (objects w !! k); [by case_decide|done]. Qed.

#[export] Instance api_reliable : Reliable Ob t.
Proof.
  split; unfold stored; cbn.
  - by intros k w o ->.
  - by intros k w ->.
  - eauto.
  - intros o w ->. eauto.
  - by intros o w [cur ->].
  - intros o w cur -> ->. rewrite bool_decide_true by done. eauto.
  - intros k f w [cur ->]. eauto.
  - by intros pre k w ->.
  - intros pre k w o -> Hu. by rewrite decide_True.
Qed.
#[export] Instance upsert `{EqDecision Ob} : UpsertApi Ob t := { obj_CreateOrUpdate o f w :=
  match objects w !! r_key o with
  | None =>
      match f o with
      | Err msg => (Err (MutateFailed msg), w)
      | Ok o' =>
          if bool_decide (r_key o' = r_key o) then
            (Ok tt, write w (<[r_key o := r_create o' #"uid" time_zero (rev w + 1)]> (objects w)))
          else (Err (MutateFailed #"MutateFn cannot mutate object name and/or object namespace"), w)
      end
  | Some cur =>
      match f cur with
      | Err msg => (Err (MutateFailed msg), w)
      | Ok o' =>
          if bool_decide (r_key o' = r_key o) then
            if bool_decide (o' = cur) then (Ok tt, w)
            else (Ok tt, write w (put (r_update cur o' (rev w + 1) (rev w + 1)) (objects w)))
          else (Err (MutateFailed #"MutateFn cannot mutate object name and/or object namespace"), w)
      end
  end }.
#[export] Instance upsert_laws `{EqDecision Ob} : UpsertApiLaws Ob t.
Proof.
  split; unfold stored; cbn.
  - intros o f w w'. destruct (objects w !! r_key o) as [cur|] eqn:Ec.
    + destruct (f cur) as [o'|] eqn:Ef; [|done]. case_bool_decide as Hk; [|done]. intros Hw. right. exists cur, o'. split_and!; [done..|].
      case_bool_decide as Ho; injection Hw as <-; [by left|right]. eexists _, _. apply objects_write, put_own_key.
    + destruct (f o) as [o'|] eqn:Ef; [|done]. case_bool_decide as Hk; [|done]. intros [= <-]. left. split; [done|].
      eexists _, _, _, _. split; [done|]. split; [done|]. apply objects_write, insert_own; [by rewrite create_key|].
      unfold released. rewrite create_deletion, (bool_decide_eq_false_2 (is_Some None)) by apply is_Some_None. apply andb_false_r.
  - intros o f w e w'. repeat case_match; intros [= <- <-] || intros [=]; done.
Qed.
End Server.
Arguments t : clear implicits.
(** A server that holds these objects. *)
Definition of_list {Ob} `{Resource Ob} (l : list Ob) : t Ob := mk (list_to_map (map (fun o => (r_key o, o)) l)) 100.
End Server.
