(* ===== verification/ResourceNames.v ===== *)
(** * Names of Kubernetes objects: [internal/controller/hook_runner.go]

    [sanitizeK8sName] and [truncateLabel]; what they give is in
    [K8sNames]. *)

From S2P Require Import Prelude GoStrings GoCrypto.
Local Open Scope Z_scope.

Fixpoint collapse_dashes (s : gostring) : gostring :=
  match s with
  | a :: ((b :: _) as s') =>
      if bool_decide (a = "-"%char) && bool_decide (b = "-"%char) then collapse_dashes s' else a :: collapse_dashes s'
  | _ => s
  end.
Definition k8s_char (c : ascii) : bool := is_lower c || is_digit c || bool_decide (c = "-"%char).
Definition dash_for (c : ascii) : ascii := if bool_decide (c = "."%char) || bool_decide (c = "_"%char) then "-"%char else c.
(** [raw] after the replacements. *)
Definition k8s_raw {U : GoUnicode} (raw : gostring) : gostring :=
  Trim (collapse_dashes (filter (fun c => k8s_char c = true) (map dash_for (ToLower raw)))) #"-".
Definition sanitizeK8sName {U : GoUnicode} (raw hashInput : gostring) (maxLength : nat) : gostring :=
  let maxLength := if (maxLength <? 10)%nat then 10%nat else maxLength in
  let raw := k8s_raw raw in
  let raw := if str_eqb raw [] then #"resource" else raw in
  let hash := take 8 (hex_encode (sha256 hashInput)) in
  let prefix := if (maxLength - 9 <? length raw)%nat then TrimRight (take (maxLength - 9) raw) #"-" else raw in
  let prefix := if str_eqb prefix [] then #"r" else prefix in
  prefix ++ #"-" ++ hash.
(** [validation.LabelValueMaxLength] is 63. *)
Definition truncateLabel (val : gostring) : gostring := TrimRight (take 63 val) #"-_.".
