(* ===== verification/EnvTypes.v ===== *)
(** * Environments: [api/v1alpha1/environment_types.go]

    The custom resource as records, with the parts of its metadata the
    program reads.  Durations are nanoseconds; nil and empty slices and maps
    are one. *)

From S2P Require Import Prelude GoStrings GoCrypto GoTime AgentTask ResourceNames.
Local Open Scope Z_scope.

Record OwnerReference := mkOwner { ow_Kind : gostring; ow_Name : gostring; ow_UID : gostring; ow_Controller : bool }.
#[global] Instance OwnerReference_eq_dec : EqDecision OwnerReference.
Proof. solve_decision. Defined.
Record SecretRef := mkSecretRef {
  sref_Namespace : gostring; sref_Name : gostring; sref_Key : gostring }.
#[global] Instance SecretRef_eq_dec : EqDecision SecretRef.
Proof. solve_decision. Defined.
Record MigrationJobSpec := mkMigrationJob {
  mj_Image : gostring; mj_Args : list gostring; mj_EnvFrom : list SecretRef; mj_TimeoutSeconds : Z; mj_Blocking : option bool }.
#[global] Instance MigrationJobSpec_eq_dec : EqDecision MigrationJobSpec.
Proof. solve_decision. Defined.
Record EnvironmentSource := mkSource {
  src_Provider : gostring; src_Project : gostring; src_MR : Z; src_Branch : gostring; src_CommitSHA : gostring }.
#[global] Instance EnvironmentSource_eq_dec : EqDecision EnvironmentSource.
Proof. solve_decision. Defined.
Definition src_set_Branch (x : gostring) (r : EnvironmentSource) : EnvironmentSource :=
  mkSource (src_Provider r) (src_Project r) (src_MR r) x (src_CommitSHA r).
Record ManifestSource := mkManifests {
  mf_Type : gostring; mf_URL : gostring }.
#[global] Instance ManifestSource_eq_dec : EqDecision ManifestSource.
Proof. solve_decision. Defined.
Record EnvironmentDeploy := mkDeploy {
  dep_Mode : gostring; dep_Namespace : gostring; dep_NamespaceLabels : gmap gostring gostring;
  dep_ChangedServices : list gostring; dep_BaselineRef : gostring; dep_Manifests : option ManifestSource;
  dep_EnvFrom : list SecretRef }.
#[global] Instance EnvironmentDeploy_eq_dec : EqDecision EnvironmentDeploy.
Proof. solve_decision. Defined.
Definition dep_set_Namespace (x : gostring) (r : EnvironmentDeploy) : EnvironmentDeploy :=
  mkDeploy (dep_Mode r) x (dep_NamespaceLabels r) (dep_ChangedServices r) (dep_BaselineRef r) (dep_Manifests r) (dep_EnvFrom
    r).
Definition dep_set_ChangedServices (x : list gostring) (r : EnvironmentDeploy) : EnvironmentDeploy :=
  mkDeploy (dep_Mode r) (dep_Namespace r) (dep_NamespaceLabels r) x (dep_BaselineRef r) (dep_Manifests r) (dep_EnvFrom r).
Record AsyncRouteSpec := mkAsyncRoute {
  ar_Protocol : gostring; ar_Target : gostring; ar_EnvVarMapping : gmap gostring gostring }.
#[global] Instance AsyncRouteSpec_eq_dec : EqDecision AsyncRouteSpec.
Proof. solve_decision. Defined.
Record CookieSpec := mkCookie {
  ck_Enabled : bool; ck_MaxAge : Z; ck_SameSite : gostring; ck_Secure : bool }.
#[global] Instance CookieSpec_eq_dec : EqDecision CookieSpec.
Proof. solve_decision. Defined.
Record BannerSpec := mkBanner {
  bn_Enabled : bool; bn_Text : gostring; bn_Position : gostring; bn_Color : gostring }.
#[global] Instance BannerSpec_eq_dec : EqDecision BannerSpec.
Proof. solve_decision. Defined.
Record EnvironmentRouting := mkRouting {
  rt_Mode : gostring; rt_Provider : gostring; rt_HeaderKey : gostring; rt_HeaderValue : gostring; rt_ExternalURL : gostring;
  rt_DevIP : gostring; rt_BaseDomain : gostring; rt_AsyncRoutes : list AsyncRouteSpec; rt_Cookie : option CookieSpec;
  rt_Banner : option BannerSpec }.
#[global] Instance EnvironmentRouting_eq_dec : EqDecision EnvironmentRouting.
Proof. solve_decision. Defined.
Definition rt_set_HeaderKey (x : gostring) (r : EnvironmentRouting) : EnvironmentRouting :=
  mkRouting (rt_Mode r) (rt_Provider r) x (rt_HeaderValue r) (rt_ExternalURL r) (rt_DevIP r) (rt_BaseDomain r) (rt_AsyncRoutes
    r) (rt_Cookie r) (rt_Banner r).
Record AtlasPolicySpec := mkAtlasPolicy {
  ap_Destructive : gostring }.
#[global] Instance AtlasPolicySpec_eq_dec : EqDecision AtlasPolicySpec.
Proof. solve_decision. Defined.
Record AtlasSpec := mkAtlas {
  at_Mode : gostring; at_MigrationConfigMap : gostring; at_SchemaConfigMap : gostring; at_Blocking : option bool;
  at_Policy : option AtlasPolicySpec; at_Engine : gostring; at_Image : gostring; at_ExtraArgs : list gostring }.
#[global] Instance AtlasSpec_eq_dec : EqDecision AtlasSpec.
Proof. solve_decision. Defined.
Record EnvironmentDatabase := mkDatabase {
  db_Mode : gostring; db_ConnectionRef : gostring; db_SeedSource : gostring; db_MigrationJob : option MigrationJobSpec;
  db_Atlas : option AtlasSpec }.
#[global] Instance EnvironmentDatabase_eq_dec : EqDecision EnvironmentDatabase.
Proof. solve_decision. Defined.
Record PostDeploySpec := mkPostDeploy {
  pd_Image : gostring; pd_Args : list gostring; pd_EnvFrom : list SecretRef; pd_TimeoutSeconds : Z; pd_Blocking : option bool }.
#[global] Instance PostDeploySpec_eq_dec : EqDecision PostDeploySpec.
Proof. solve_decision. Defined.
Record EnvironmentLifecycle := mkLifecycle {
  lc_TTL : option Z; lc_CleanupOnMerge : bool }.
#[global] Instance EnvironmentLifecycle_eq_dec : EqDecision EnvironmentLifecycle.
Proof. solve_decision. Defined.
Definition lc_set_TTL (x : option Z) (r : EnvironmentLifecycle) : EnvironmentLifecycle :=
  mkLifecycle x (lc_CleanupOnMerge r).
Record FeatureSpec := mkFeature {
  ft_Provider : gostring; ft_Overrides : gmap gostring gostring; ft_ConnectionRef : gostring }.
#[global] Instance FeatureSpec_eq_dec : EqDecision FeatureSpec.
Proof. solve_decision. Defined.
Record TestTriggerSpec := mkTrigger {
  tg_Type : gostring; tg_Project : gostring; tg_Ref : gostring; tg_EventType : gostring; tg_Workflow : gostring;
  tg_WebhookURL : gostring; tg_SecretRef : gostring }.
#[global] Instance TestTriggerSpec_eq_dec : EqDecision TestTriggerSpec.
Proof. solve_decision. Defined.
Record TestingSpec := mkTesting {
  tt_Enabled : bool; tt_Trigger : TestTriggerSpec; tt_Timeout : option Z; tt_Required : bool }.
#[global] Instance TestingSpec_eq_dec : EqDecision TestingSpec.
Proof. solve_decision. Defined.
Record TestStatus := mkTestStatus {
  ts_State : gostring; ts_Summary : gostring; ts_URL : gostring; ts_RunID : gostring; ts_StartedAt : option Time;
  ts_CompletedAt : option Time }.
#[global] Instance TestStatus_eq_dec : EqDecision TestStatus.
Proof. solve_decision. Defined.
Definition ts_set_State (x : gostring) (r : TestStatus) : TestStatus :=
  mkTestStatus x (ts_Summary r) (ts_URL r) (ts_RunID r) (ts_StartedAt r) (ts_CompletedAt r).
Definition ts_set_Summary (x : gostring) (r : TestStatus) : TestStatus :=
  mkTestStatus (ts_State r) x (ts_URL r) (ts_RunID r) (ts_StartedAt r) (ts_CompletedAt r).
Definition ts_set_URL (x : gostring) (r : TestStatus) : TestStatus :=
  mkTestStatus (ts_State r) (ts_Summary r) x (ts_RunID r) (ts_StartedAt r) (ts_CompletedAt r).
Definition ts_set_RunID (x : gostring) (r : TestStatus) : TestStatus :=
  mkTestStatus (ts_State r) (ts_Summary r) (ts_URL r) x (ts_StartedAt r) (ts_CompletedAt r).
Definition ts_set_CompletedAt (x : option Time) (r : TestStatus) : TestStatus :=
  mkTestStatus (ts_State r) (ts_Summary r) (ts_URL r) (ts_RunID r) (ts_StartedAt r) x.
Record WebSocketSpec := mkWebSocket {
  ws_Enabled : bool; ws_Path : gostring; ws_Timeout : gostring }.
#[global] Instance WebSocketSpec_eq_dec : EqDecision WebSocketSpec.
Proof. solve_decision. Defined.
Record EnvVar := mkEnvVar {
  var_Name : gostring; var_Value : gostring }.
#[global] Instance EnvVar_eq_dec : EqDecision EnvVar.
Proof. solve_decision. Defined.
Record ResourceOverride := mkResources {
  ro_CPURequest : gostring; ro_MemoryRequest : gostring; ro_CPULimit : gostring; ro_MemoryLimit : gostring }.
#[global] Instance ResourceOverride_eq_dec : EqDecision ResourceOverride.
Proof. solve_decision. Defined.
Record KEDASpec := mkKEDA {
  kd_Enabled : option bool; kd_MinReplicas : option Z; kd_MaxReplicas : option Z; kd_CooldownPeriod : option Z;
  kd_PollingInterval : option Z; kd_TargetQueueSize : option Z }.
#[global] Instance KEDASpec_eq_dec : EqDecision KEDASpec.
Proof. solve_decision. Defined.
Record ServicePreviewConfig := mkServiceConfig {
  sc_ServiceName : gostring; sc_Namespace : gostring; sc_Port : Z; sc_Image : gostring; sc_ImagePullPolicy : gostring;
  sc_DatabaseEnvKey : gostring; sc_ParentRef : gostring; sc_HeaderKey : gostring; sc_PathPrefix : gostring;
  sc_Env : list EnvVar; sc_Protocol : gostring; sc_Endpoint : gostring; sc_Resources : option ResourceOverride;
  sc_KEDA : option KEDASpec; sc_WebSocket : option WebSocketSpec }.
#[global] Instance ServicePreviewConfig_eq_dec : EqDecision ServicePreviewConfig.
Proof. solve_decision. Defined.
Definition sc_set_ServiceName (x : gostring) (r : ServicePreviewConfig) : ServicePreviewConfig :=
  mkServiceConfig x (sc_Namespace r) (sc_Port r) (sc_Image r) (sc_ImagePullPolicy r) (sc_DatabaseEnvKey r) (sc_ParentRef r)
    (sc_HeaderKey r) (sc_PathPrefix r) (sc_Env r) (sc_Protocol r) (sc_Endpoint r) (sc_Resources r) (sc_KEDA r) (sc_WebSocket
    r).
Definition sc_set_Port (x : Z) (r : ServicePreviewConfig) : ServicePreviewConfig :=
  mkServiceConfig (sc_ServiceName r) (sc_Namespace r) x (sc_Image r) (sc_ImagePullPolicy r) (sc_DatabaseEnvKey r)
    (sc_ParentRef r) (sc_HeaderKey r) (sc_PathPrefix r) (sc_Env r) (sc_Protocol r) (sc_Endpoint r) (sc_Resources r) (sc_KEDA
    r) (sc_WebSocket r).
Definition sc_set_Image (x : gostring) (r : ServicePreviewConfig) : ServicePreviewConfig :=
  mkServiceConfig (sc_ServiceName r) (sc_Namespace r) (sc_Port r) x (sc_ImagePullPolicy r) (sc_DatabaseEnvKey r) (sc_ParentRef
    r) (sc_HeaderKey r) (sc_PathPrefix r) (sc_Env r) (sc_Protocol r) (sc_Endpoint r) (sc_Resources r) (sc_KEDA r)
    (sc_WebSocket r).
Record EnvironmentSpec := mkEnvSpec {
  es_Source : EnvironmentSource; es_Deploy : EnvironmentDeploy; es_Routing : EnvironmentRouting;
  es_Database : EnvironmentDatabase; es_Lifecycle : EnvironmentLifecycle; es_Features : option FeatureSpec;
  es_Testing : option TestingSpec; es_ServiceConfig : option ServicePreviewConfig; es_EnvFrom : list SecretRef }.
#[global] Instance EnvironmentSpec_eq_dec : EqDecision EnvironmentSpec.
Proof. solve_decision. Defined.
Definition es_set_Source (x : EnvironmentSource) (r : EnvironmentSpec) : EnvironmentSpec :=
  mkEnvSpec x (es_Deploy r) (es_Routing r) (es_Database r) (es_Lifecycle r) (es_Features r) (es_Testing r) (es_ServiceConfig
    r) (es_EnvFrom r).
Definition es_set_Deploy (x : EnvironmentDeploy) (r : EnvironmentSpec) : EnvironmentSpec :=
  mkEnvSpec (es_Source r) x (es_Routing r) (es_Database r) (es_Lifecycle r) (es_Features r) (es_Testing r) (es_ServiceConfig
    r) (es_EnvFrom r).
Definition es_set_Routing (x : EnvironmentRouting) (r : EnvironmentSpec) : EnvironmentSpec :=
  mkEnvSpec (es_Source r) (es_Deploy r) x (es_Database r) (es_Lifecycle r) (es_Features r) (es_Testing r) (es_ServiceConfig r)
    (es_EnvFrom r).
Definition es_set_Lifecycle (x : EnvironmentLifecycle) (r : EnvironmentSpec) : EnvironmentSpec :=
  mkEnvSpec (es_Source r) (es_Deploy r) (es_Routing r) (es_Database r) x (es_Features r) (es_Testing r) (es_ServiceConfig r)
    (es_EnvFrom r).
Definition es_set_ServiceConfig (x : option ServicePreviewConfig) (r : EnvironmentSpec) : EnvironmentSpec :=
  mkEnvSpec (es_Source r) (es_Deploy r) (es_Routing r) (es_Database r) (es_Lifecycle r) (es_Features r) (es_Testing r) x
    (es_EnvFrom r).
Record EnvironmentStatus := mkEnvStatus {
  et_Phase : gostring; et_URL : gostring; et_Services : list gostring; et_DatabaseStatus : gostring;
  et_DatabaseProvider : gostring; et_CreatedAt : option Time; et_ExpiresAt : option Time; et_ObservedGeneration : Z;
  et_Conditions : list Condition; et_CommitSHA : gostring; et_CommentID : Z; et_CommitStatusURL : gostring;
  et_TestStatus : option TestStatus; et_AsyncEnvVars : gmap gostring gostring; et_MigrationStatus : gostring;
  et_MigrationMessage : gostring; et_PostDeployStatus : gostring; et_FeatureConfigMap : gostring;
  et_FeatureEnvVars : gmap gostring gostring }.
#[global] Instance EnvironmentStatus_eq_dec : EqDecision EnvironmentStatus.
Proof. solve_decision. Defined.
Definition et_set_Phase (x : gostring) (r : EnvironmentStatus) : EnvironmentStatus :=
  mkEnvStatus x (et_URL r) (et_Services r) (et_DatabaseStatus r) (et_DatabaseProvider r) (et_CreatedAt r) (et_ExpiresAt r)
    (et_ObservedGeneration r) (et_Conditions r) (et_CommitSHA r) (et_CommentID r) (et_CommitStatusURL r) (et_TestStatus r)
    (et_AsyncEnvVars r) (et_MigrationStatus r) (et_MigrationMessage r) (et_PostDeployStatus r) (et_FeatureConfigMap r)
    (et_FeatureEnvVars r).
Definition et_set_URL (x : gostring) (r : EnvironmentStatus) : EnvironmentStatus :=
  mkEnvStatus (et_Phase r) x (et_Services r) (et_DatabaseStatus r) (et_DatabaseProvider r) (et_CreatedAt r) (et_ExpiresAt r)
    (et_ObservedGeneration r) (et_Conditions r) (et_CommitSHA r) (et_CommentID r) (et_CommitStatusURL r) (et_TestStatus r)
    (et_AsyncEnvVars r) (et_MigrationStatus r) (et_MigrationMessage r) (et_PostDeployStatus r) (et_FeatureConfigMap r)
    (et_FeatureEnvVars r).
Definition et_set_DatabaseStatus (x : gostring) (r : EnvironmentStatus) : EnvironmentStatus :=
  mkEnvStatus (et_Phase r) (et_URL r) (et_Services r) x (et_DatabaseProvider r) (et_CreatedAt r) (et_ExpiresAt r)
    (et_ObservedGeneration r) (et_Conditions r) (et_CommitSHA r) (et_CommentID r) (et_CommitStatusURL r) (et_TestStatus r)
    (et_AsyncEnvVars r) (et_MigrationStatus r) (et_MigrationMessage r) (et_PostDeployStatus r) (et_FeatureConfigMap r)
    (et_FeatureEnvVars r).
Definition et_set_DatabaseProvider (x : gostring) (r : EnvironmentStatus) : EnvironmentStatus :=
  mkEnvStatus (et_Phase r) (et_URL r) (et_Services r) (et_DatabaseStatus r) x (et_CreatedAt r) (et_ExpiresAt r)
    (et_ObservedGeneration r) (et_Conditions r) (et_CommitSHA r) (et_CommentID r) (et_CommitStatusURL r) (et_TestStatus r)
    (et_AsyncEnvVars r) (et_MigrationStatus r) (et_MigrationMessage r) (et_PostDeployStatus r) (et_FeatureConfigMap r)
    (et_FeatureEnvVars r).
Definition et_set_CreatedAt (x : option Time) (r : EnvironmentStatus) : EnvironmentStatus :=
  mkEnvStatus (et_Phase r) (et_URL r) (et_Services r) (et_DatabaseStatus r) (et_DatabaseProvider r) x (et_ExpiresAt r)
    (et_ObservedGeneration r) (et_Conditions r) (et_CommitSHA r) (et_CommentID r) (et_CommitStatusURL r) (et_TestStatus r)
    (et_AsyncEnvVars r) (et_MigrationStatus r) (et_MigrationMessage r) (et_PostDeployStatus r) (et_FeatureConfigMap r)
    (et_FeatureEnvVars r).
Definition et_set_ExpiresAt (x : option Time) (r : EnvironmentStatus) : EnvironmentStatus :=
  mkEnvStatus (et_Phase r) (et_URL r) (et_Services r) (et_DatabaseStatus r) (et_DatabaseProvider r) (et_CreatedAt r) x
    (et_ObservedGeneration r) (et_Conditions r) (et_CommitSHA r) (et_CommentID r) (et_CommitStatusURL r) (et_TestStatus r)
    (et_AsyncEnvVars r) (et_MigrationStatus r) (et_MigrationMessage r) (et_PostDeployStatus r) (et_FeatureConfigMap r)
    (et_FeatureEnvVars r).
Definition et_set_ObservedGeneration (x : Z) (r : EnvironmentStatus) : EnvironmentStatus :=
  mkEnvStatus (et_Phase r) (et_URL r) (et_Services r) (et_DatabaseStatus r) (et_DatabaseProvider r) (et_CreatedAt r)
    (et_ExpiresAt r) x (et_Conditions r) (et_CommitSHA r) (et_CommentID r) (et_CommitStatusURL r) (et_TestStatus r)
    (et_AsyncEnvVars r) (et_MigrationStatus r) (et_MigrationMessage r) (et_PostDeployStatus r) (et_FeatureConfigMap r)
    (et_FeatureEnvVars r).
Definition et_set_Conditions (x : list Condition) (r : EnvironmentStatus) : EnvironmentStatus :=
  mkEnvStatus (et_Phase r) (et_URL r) (et_Services r) (et_DatabaseStatus r) (et_DatabaseProvider r) (et_CreatedAt r)
    (et_ExpiresAt r) (et_ObservedGeneration r) x (et_CommitSHA r) (et_CommentID r) (et_CommitStatusURL r) (et_TestStatus r)
    (et_AsyncEnvVars r) (et_MigrationStatus r) (et_MigrationMessage r) (et_PostDeployStatus r) (et_FeatureConfigMap r)
    (et_FeatureEnvVars r).
Definition et_set_CommitSHA (x : gostring) (r : EnvironmentStatus) : EnvironmentStatus :=
  mkEnvStatus (et_Phase r) (et_URL r) (et_Services r) (et_DatabaseStatus r) (et_DatabaseProvider r) (et_CreatedAt r)
    (et_ExpiresAt r) (et_ObservedGeneration r) (et_Conditions r) x (et_CommentID r) (et_CommitStatusURL r) (et_TestStatus r)
    (et_AsyncEnvVars r) (et_MigrationStatus r) (et_MigrationMessage r) (et_PostDeployStatus r) (et_FeatureConfigMap r)
    (et_FeatureEnvVars r).
Definition et_set_TestStatus (x : option TestStatus) (r : EnvironmentStatus) : EnvironmentStatus :=
  mkEnvStatus (et_Phase r) (et_URL r) (et_Services r) (et_DatabaseStatus r) (et_DatabaseProvider r) (et_CreatedAt r)
    (et_ExpiresAt r) (et_ObservedGeneration r) (et_Conditions r) (et_CommitSHA r) (et_CommentID r) (et_CommitStatusURL r) x
    (et_AsyncEnvVars r) (et_MigrationStatus r) (et_MigrationMessage r) (et_PostDeployStatus r) (et_FeatureConfigMap r)
    (et_FeatureEnvVars r).
Definition et_set_AsyncEnvVars (x : gmap gostring gostring) (r : EnvironmentStatus) : EnvironmentStatus :=
  mkEnvStatus (et_Phase r) (et_URL r) (et_Services r) (et_DatabaseStatus r) (et_DatabaseProvider r) (et_CreatedAt r)
    (et_ExpiresAt r) (et_ObservedGeneration r) (et_Conditions r) (et_CommitSHA r) (et_CommentID r) (et_CommitStatusURL r)
    (et_TestStatus r) x (et_MigrationStatus r) (et_MigrationMessage r) (et_PostDeployStatus r) (et_FeatureConfigMap r)
    (et_FeatureEnvVars r).
Definition et_set_MigrationStatus (x : gostring) (r : EnvironmentStatus) : EnvironmentStatus :=
  mkEnvStatus (et_Phase r) (et_URL r) (et_Services r) (et_DatabaseStatus r) (et_DatabaseProvider r) (et_CreatedAt r)
    (et_ExpiresAt r) (et_ObservedGeneration r) (et_Conditions r) (et_CommitSHA r) (et_CommentID r) (et_CommitStatusURL r)
    (et_TestStatus r) (et_AsyncEnvVars r) x (et_MigrationMessage r) (et_PostDeployStatus r) (et_FeatureConfigMap r)
    (et_FeatureEnvVars r).
Definition et_set_MigrationMessage (x : gostring) (r : EnvironmentStatus) : EnvironmentStatus :=
  mkEnvStatus (et_Phase r) (et_URL r) (et_Services r) (et_DatabaseStatus r) (et_DatabaseProvider r) (et_CreatedAt r)
    (et_ExpiresAt r) (et_ObservedGeneration r) (et_Conditions r) (et_CommitSHA r) (et_CommentID r) (et_CommitStatusURL r)
    (et_TestStatus r) (et_AsyncEnvVars r) (et_MigrationStatus r) x (et_PostDeployStatus r) (et_FeatureConfigMap r)
    (et_FeatureEnvVars r).
Definition et_set_FeatureConfigMap (x : gostring) (r : EnvironmentStatus) : EnvironmentStatus :=
  mkEnvStatus (et_Phase r) (et_URL r) (et_Services r) (et_DatabaseStatus r) (et_DatabaseProvider r) (et_CreatedAt r)
    (et_ExpiresAt r) (et_ObservedGeneration r) (et_Conditions r) (et_CommitSHA r) (et_CommentID r) (et_CommitStatusURL r)
    (et_TestStatus r) (et_AsyncEnvVars r) (et_MigrationStatus r) (et_MigrationMessage r) (et_PostDeployStatus r) x
    (et_FeatureEnvVars r).
Definition et_set_FeatureEnvVars (x : gmap gostring gostring) (r : EnvironmentStatus) : EnvironmentStatus :=
  mkEnvStatus (et_Phase r) (et_URL r) (et_Services r) (et_DatabaseStatus r) (et_DatabaseProvider r) (et_CreatedAt r)
    (et_ExpiresAt r) (et_ObservedGeneration r) (et_Conditions r) (et_CommitSHA r) (et_CommentID r) (et_CommitStatusURL r)
    (et_TestStatus r) (et_AsyncEnvVars r) (et_MigrationStatus r) (et_MigrationMessage r) (et_PostDeployStatus r)
    (et_FeatureConfigMap r) x.
Record Environment := mkEnvironment {
  ev_Name : gostring; ev_Namespace : gostring; ev_UID : gostring; ev_Labels : gmap gostring gostring;
  ev_Annotations : gmap gostring gostring; ev_Finalizers : list gostring; ev_OwnerReferences : list OwnerReference;
  ev_CreationTimestamp : Time; ev_DeletionTimestamp : option Time; ev_Generation : Z; ev_ResourceVersion : Z;
  ev_Spec : EnvironmentSpec; ev_Status : EnvironmentStatus }.
#[global] Instance Environment_eq_dec : EqDecision Environment.
Proof. solve_decision. Defined.
Definition ev_set_Labels (x : gmap gostring gostring) (r : Environment) : Environment :=
  mkEnvironment (ev_Name r) (ev_Namespace r) (ev_UID r) x (ev_Annotations r) (ev_Finalizers r) (ev_OwnerReferences r)
    (ev_CreationTimestamp r) (ev_DeletionTimestamp r) (ev_Generation r) (ev_ResourceVersion r) (ev_Spec r) (ev_Status r).
Definition ev_set_Annotations (x : gmap gostring gostring) (r : Environment) : Environment :=
  mkEnvironment (ev_Name r) (ev_Namespace r) (ev_UID r) (ev_Labels r) x (ev_Finalizers r) (ev_OwnerReferences r)
    (ev_CreationTimestamp r) (ev_DeletionTimestamp r) (ev_Generation r) (ev_ResourceVersion r) (ev_Spec r) (ev_Status r).
Definition ev_set_Finalizers (x : list gostring) (r : Environment) : Environment :=
  mkEnvironment (ev_Name r) (ev_Namespace r) (ev_UID r) (ev_Labels r) (ev_Annotations r) x (ev_OwnerReferences r)
    (ev_CreationTimestamp r) (ev_DeletionTimestamp r) (ev_Generation r) (ev_ResourceVersion r) (ev_Spec r) (ev_Status r).
Definition ev_set_OwnerReferences (x : list OwnerReference) (r : Environment) : Environment :=
  mkEnvironment (ev_Name r) (ev_Namespace r) (ev_UID r) (ev_Labels r) (ev_Annotations r) (ev_Finalizers r) x
    (ev_CreationTimestamp r) (ev_DeletionTimestamp r) (ev_Generation r) (ev_ResourceVersion r) (ev_Spec r) (ev_Status r).
Definition ev_set_ResourceVersion (x : Z) (r : Environment) : Environment :=
  mkEnvironment (ev_Name r) (ev_Namespace r) (ev_UID r) (ev_Labels r) (ev_Annotations r) (ev_Finalizers r) (ev_OwnerReferences
    r) (ev_CreationTimestamp r) (ev_DeletionTimestamp r) (ev_Generation r) x (ev_Spec r) (ev_Status r).
Definition ev_set_Spec (x : EnvironmentSpec) (r : Environment) : Environment :=
  mkEnvironment (ev_Name r) (ev_Namespace r) (ev_UID r) (ev_Labels r) (ev_Annotations r) (ev_Finalizers r) (ev_OwnerReferences
    r) (ev_CreationTimestamp r) (ev_DeletionTimestamp r) (ev_Generation r) (ev_ResourceVersion r) x (ev_Status r).
Definition ev_set_Status (x : EnvironmentStatus) (r : Environment) : Environment :=
  mkEnvironment (ev_Name r) (ev_Namespace r) (ev_UID r) (ev_Labels r) (ev_Annotations r) (ev_Finalizers r) (ev_OwnerReferences
    r) (ev_CreationTimestamp r) (ev_DeletionTimestamp r) (ev_Generation r) (ev_ResourceVersion r) (ev_Spec r) x.

Definition PhasePending : gostring := #"Pending".
Definition PhaseDeploying : gostring := #"Deploying".
Definition PhaseMigrating : gostring := #"Migrating".
Definition PhaseRunning : gostring := #"Running".
Definition PhaseFailed : gostring := #"Failed".
Definition PhaseTerminating : gostring := #"Terminating".
Definition TestStatePending : gostring := #"pending".
Definition TestStateRunning : gostring := #"running".
Definition TestStatePassed : gostring := #"passed".
Definition TestStateFailed : gostring := #"failed".
Definition TestStateTimedOut : gostring := #"timed-out".

Definition DefaultEnvVarForProtocol (protocol : gostring) : gostring :=
  if str_eqb protocol #"temporal" then #"TEMPORAL_TASK_QUEUE"
  else if str_eqb protocol #"kafka" then #"KAFKA_CONSUMER_GROUP"
  else if bool_decide (protocol ∈ [ #"redis"; #"valkey"]) then #"DIVERGE_REDIS_PREFIX"
  else if bool_decide (protocol ∈ [ #"s3"; #"gcs"; #"minio"]) then #"DIVERGE_STORAGE_PREFIX"
  else [].
Definition PreviewNamespace {U : GoUnicode} (e : Environment) : gostring :=
  let raw := k8s_raw (#"diverge-" ++ ev_Name e) in
  let hash := take 8 (hex_encode (sha256 (ev_Namespace e ++ #"/" ++ ev_Name e))) in
  if (length raw <=? 63 - 9)%nat then raw ++ #"-" ++ hash else take (63 - 9) raw ++ #"-" ++ hash.

(** Empty values, as Go's composite literals leave what they omit. *)
Definition no_source : EnvironmentSource := mkSource [] [] 0 [] [].
Definition no_deploy : EnvironmentDeploy := mkDeploy [] [] ∅ [] [] None [].
Definition no_routing : EnvironmentRouting := mkRouting [] [] [] [] [] [] [] [] None None.
Definition no_database : EnvironmentDatabase := mkDatabase [] [] [] None None.
Definition no_lifecycle : EnvironmentLifecycle := mkLifecycle None false.
Definition no_env_spec : EnvironmentSpec := mkEnvSpec no_source no_deploy no_routing no_database no_lifecycle None None None [].
Definition no_env_status : EnvironmentStatus := mkEnvStatus [] [] [] [] [] None None 0 [] [] 0 [] None ∅ [] [] [] [] ∅.
Definition no_service_config : ServicePreviewConfig := mkServiceConfig [] [] 0 [] [] [] [] [] [] [] [] [] None None None.
(** A new object of that name. *)
Definition new_environment (ns name : gostring) : Environment :=
  mkEnvironment name ns [] ∅ ∅ [] [] time_zero None 0 0 no_env_spec no_env_status.
Abbreviation env_key_of e := (ev_Namespace e, ev_Name e).
