(* ===== verification/Config.v ===== *)
(** * Configuration: [internal/config/config.go]

    The settings a repository gives in its configuration file, their
    validation, and their resolution: the defaults, overridden by the settings
    of an environment type and then by those of each label, in order.  The
    YAML decoder is third party.  A nil and an empty slice or map are one:
    the code asks for their length only. *)

From S2P Require Import Prelude GoStrings GoQuote EnvTypes.
Local Open Scope Z_scope.

(** ** Settings *)
Record ImageConfig := mkImageConfig { im_Repository : gostring; im_TagTemplate : gostring }.
Record HelmConfig := mkHelmConfig { he_Path : gostring; he_ValuesFile : gostring }.
Record ServiceConfig := mkService {
  sv_Paths : list gostring; sv_Image : ImageConfig; sv_Helm : option HelmConfig; sv_AsyncRoutes : list AsyncRouteSpec;
  sv_DependsOn : list gostring; sv_Entrypoint : bool }.
Record DeploySettings := mkDeploySettings { ds_Mode : gostring; ds_Namespace : gostring }.
Record BannerSettings := mkBannerSettings { bs_Enabled : option bool; bs_Text : gostring; bs_Position : gostring; bs_Color : gostring }.
Record RoutingSettings := mkRoutingSettings {
  rs_Mode : gostring; rs_BaselineNamespace : gostring; rs_HeaderKey : gostring; rs_Domain : gostring; rs_Banner : option BannerSettings }.
Record AtlasPolicySettings := mkPolicySettings { po_Destructive : gostring }.
Record AtlasSettings := mkAtlasSettings {
  as_Mode : gostring; as_Engine : gostring; as_Image : gostring; as_Dir : gostring; as_Schema : gostring;
  as_MigrationConfigMap : gostring; as_SchemaConfigMap : gostring; as_Blocking : option bool;
  as_Policy : option AtlasPolicySettings; as_ExtraArgs : list gostring }.
Record DatabaseSettings := mkDatabaseSettings {
  da_Mode : gostring; da_ConnectionRef : gostring; da_SeedSource : gostring; da_MigrationCommand : gostring;
  da_Atlas : option AtlasSettings }.
Record LifecycleSettings := mkLifecycleSettings { li_TTL : gostring; li_CleanupOnMerge : option bool }.
Record FeatureSettings := mkFeatureSettings {
  fs_Provider : gostring; fs_Overrides : gmap gostring gostring; fs_ConnectionRef : gostring }.
Record DevSettings := mkDevSettings { dv_OnConflict : gostring }.
Record EnvironmentSettings := mkSettings {
  st_Deploy : DeploySettings; st_Routing : RoutingSettings; st_Database : DatabaseSettings; st_Lifecycle : LifecycleSettings;
  st_Features : option FeatureSettings; st_Dev : option DevSettings }.
Record EnvironmentType := mkEnvType { ty_Settings : EnvironmentSettings; ty_Trigger : gostring; ty_Label : gostring; ty_Branch : gostring }.
Record LabelOverride := mkOverride { lo_Settings : EnvironmentSettings; lo_Skip : bool }.
Record NotificationConfig := mkNotification {
  no_Provider : gostring; no_CommentOnCreate : bool; no_CommentOnReady : bool; no_CommentOnDestroy : bool }.
Record PrometheusConfig := mkPrometheus {
  pr_Address : gostring; pr_TokenEnv : gostring; pr_TokenFile : gostring; pr_CABundle : gostring; pr_InsecureTLS : bool;
  pr_PollInterval : gostring; pr_CacheTTL : gostring; pr_MeshType : gostring; pr_LookbackWindow : gostring; pr_Namespaces : list gostring }.
Record Config := mkConfig {
  cf_Version : gostring; cf_Services : gmap gostring ServiceConfig; cf_Defaults : EnvironmentSettings;
  cf_Environments : gmap gostring EnvironmentType; cf_LabelOverrides : gmap gostring LabelOverride;
  cf_Notifications : NotificationConfig; cf_Prometheus : option PrometheusConfig }.

(** The zero values of Go. *)
Definition no_banner : BannerSettings := mkBannerSettings None [] [] [].
Definition no_policy : AtlasPolicySettings := mkPolicySettings [].
Definition no_atlas : AtlasSettings := mkAtlasSettings [] [] [] [] [] [] [] None None [].
Definition no_features : FeatureSettings := mkFeatureSettings [] ∅ [].
Definition no_dev : DevSettings := mkDevSettings [].
Definition no_settings : EnvironmentSettings :=
  mkSettings (mkDeploySettings [] []) (mkRoutingSettings [] [] [] [] None) (mkDatabaseSettings [] [] [] [] None)
    (mkLifecycleSettings [] None) None None.

(** ** Validation *)
Section Validate.
Context {U : GoUnicode}.
Definition one_of (s : gostring) (l : list gostring) : bool := bool_decide (s ∈ l).
Definition quoted (s : gostring) : gostring := "034"%char :: s ++ ["034"%char].
Definition is_hex (c : ascii) : bool := bool_decide (is_Some (hex_digit c)).
(** [^#([0-9a-fA-F]{3}|[0-9a-fA-F]{6})$] *)
Definition hexColorRegex (s : gostring) : bool :=
  match s with
  | c :: digits => bool_decide (c = "#"%char) && forallb is_hex digits && bool_decide (length digits ∈ [3; 6]%nat)
  | [] => false
  end.
Abbreviation checked := (result gostring unit).
Definition refuse_when (bad : bool) (msg : gostring) : checked := check (negb bad) msg.
Definition BannerSettings_Validate (b : option BannerSettings) : checked :=
  match b with
  | None => Ok tt
  | Some b =>
      refuse_when (negb (one_of (bs_Position b) [ []; #"top"; #"bottom"]))
        (#"position must be " ++ quoted #"top" ++ #" or " ++ quoted #"bottom" ++ #", got " ++ Quote (bs_Position b)) ≫= fun _ =>
      refuse_when (negb (str_eqb (bs_Color b) []) && negb (hexColorRegex (bs_Color b)))
        (#"color must be a valid hex code (e.g. #00FF00), got " ++ Quote (bs_Color b))
  end.
Definition AtlasSettings_Validate (a : option AtlasSettings) : checked :=
  match a with
  | None => Ok tt
  | Some a =>
      let set s := negb (str_eqb s []) in
      refuse_when (negb (one_of (as_Mode a) [ []; #"versioned"; #"declarative"]))
        (#"atlas mode must be " ++ quoted #"versioned" ++ #" or " ++ quoted #"declarative" ++ #", got " ++ Quote (as_Mode a)) ≫= fun _ =>
      refuse_when (negb (one_of (as_Engine a) [ []; #"operator"; #"job"]))
        (#"atlas engine must be " ++ quoted #"operator" ++ #" or " ++ quoted #"job" ++ #", got " ++ Quote (as_Engine a)) ≫= fun _ =>
      refuse_when (set (as_Dir a) && str_eqb (as_Mode a) #"declarative")
        (#"atlas dir is only supported in " ++ quoted #"versioned" ++ #" mode, got " ++ Quote (as_Mode a)) ≫= fun _ =>
      refuse_when (set (as_Schema a) && str_eqb (as_Mode a) #"versioned")
        (#"atlas schema is only supported in " ++ quoted #"declarative" ++ #" mode, got " ++ Quote (as_Mode a)) ≫= fun _ =>
      refuse_when (set (as_Dir a) && set (as_MigrationConfigMap a)) #"cannot configure both atlas dir and migration_config_map" ≫= fun _ =>
      refuse_when (set (as_Schema a) && set (as_SchemaConfigMap a)) #"cannot configure both atlas schema and schema_config_map" ≫= fun _ =>
      match as_Policy a with
      | None => Ok tt
      | Some p =>
          refuse_when (negb (one_of (po_Destructive p) [ []; #"error"; #"warn"; #"allow"]))
            (#"atlas policy destructive must be " ++ quoted #"error" ++ #", " ++ quoted #"warn" ++ #", or " ++ quoted #"allow" ++
             #", got " ++ Quote (po_Destructive p))
      end
  end.
Definition feature_providers : list gostring := [ #"configmap"; #"flipt"; #"flagsmith"; #"unleash"; #"noop"; #"none"].
Definition FeatureSettings_Validate (f : option FeatureSettings) : checked :=
  match f with
  | None => Ok tt
  | Some f =>
      refuse_when (negb (one_of (fs_Provider f) ([] :: feature_providers)))
        (#"feature provider must be one of " ++ Join (map quoted feature_providers) #", " ++ #", got " ++ Quote (fs_Provider f))
  end.
Definition DevSettings_Validate (d : option DevSettings) : checked :=
  match d with
  | None => Ok tt
  | Some d =>
      refuse_when (negb (one_of (dv_OnConflict d) [ []; #"warn"; #"block"; #"allow"]))
        (#"dev on_conflict must be " ++ quoted #"warn" ++ #", " ++ quoted #"block" ++ #", or " ++ quoted #"allow" ++ #", got " ++
         Quote (dv_OnConflict d))
  end.
(** [fmt.Errorf("what: %w", err)] *)
Definition within (what : gostring) (r : checked) : checked :=
  match r with Ok u => Ok u | Err e => Err (what ++ #": " ++ e) end.
Definition validate_settings (at_ : gostring) (s : EnvironmentSettings) : checked :=
  within (at_ ++ #".routing.banner") (BannerSettings_Validate (rs_Banner (st_Routing s))) ≫= fun _ =>
  within (at_ ++ #".database.atlas") (AtlasSettings_Validate (da_Atlas (st_Database s))) ≫= fun _ =>
  within (at_ ++ #".features") (FeatureSettings_Validate (st_Features s)) ≫= fun _ =>
  within (at_ ++ #".dev") (DevSettings_Validate (st_Dev s)).
Fixpoint validate_each {V} (what : gostring) (settings : V -> EnvironmentSettings) (l : list (gostring * V)) : checked :=
  match l with
  | [] => Ok tt
  | (name, v) :: l => validate_settings (what ++ #"[" ++ name ++ #"]") (settings v) ≫= fun _ => validate_each what settings l
  end.
(** The maps are visited in an order Go leaves open: the entries as listed. *)
Definition Config_Validate (environments : list (gostring * EnvironmentType)) (overrides : list (gostring * LabelOverride)) (c : Config) : checked :=
  validate_settings #"defaults" (cf_Defaults c) ≫= fun _ =>
  validate_each #"environments" ty_Settings environments ≫= fun _ =>
  validate_each #"label_overrides" lo_Settings overrides.
Definition ResolvedSettings_Validate (r : EnvironmentSettings) : checked :=
  BannerSettings_Validate (rs_Banner (st_Routing r)) ≫= fun _ =>
  AtlasSettings_Validate (da_Atlas (st_Database r)) ≫= fun _ =>
  FeatureSettings_Validate (st_Features r) ≫= fun _ => DevSettings_Validate (st_Dev r).

(** ** Parsing *)
(** yaml.v3 with [KnownFields] on the type [Config]. *)
Context (yaml_decode : gostring -> result gostring Config).
Definition Parse (data : gostring) : result gostring Config :=
  match yaml_decode data with
  | Err e => Err (#"failed to parse config: " ++ e)
  | Ok c =>
      check (str_eqb (cf_Version c) #"1") (#"unsupported version " ++ Quote (cf_Version c) ++ #", expected " ++ quoted #"1") ≫= fun _ => Ok c
  end.
(** The size of the file, when it can be read, and its contents. *)
Definition Load (size : option Z) (contents : result gostring gostring) : result gostring Config :=
  match size with
  | Some n => refuse_when (2 ^ 20 <? n) (#"config file too large: " ++ Itoa n ++ #" bytes (max 1MB)")
  | None => Ok tt
  end ≫= fun _ =>
  match contents with
  | Err e => Err (#"failed to read config file: " ++ e)
  | Ok data => Parse data
  end.
End Validate.

(** ** Merging *)
Definition set_string (dst src : gostring) : gostring := if str_eqb src [] then dst else src.
Definition set_pointer {A} (dst src : option A) : option A := match src with Some x => Some x | None => dst end.
Definition set_list {A} (dst src : list A) : list A := match src with [] => dst | _ => src end.
(** [p := &T{}; if dst != nil { *p = *dst }; ...; dst = p] *)
Definition merge_pointer {A} (zero : A) (merge : A -> A -> A) (dst src : option A) : option A :=
  match src with Some s => Some (merge (default zero dst) s) | None => dst end.
Definition merge_banner (d s : BannerSettings) : BannerSettings :=
  mkBannerSettings (set_pointer (bs_Enabled d) (bs_Enabled s)) (set_string (bs_Text d) (bs_Text s))
    (set_string (bs_Position d) (bs_Position s)) (set_string (bs_Color d) (bs_Color s)).
Definition merge_policy (d s : AtlasPolicySettings) : AtlasPolicySettings :=
  mkPolicySettings (set_string (po_Destructive d) (po_Destructive s)).
Definition merge_atlas (d s : AtlasSettings) : AtlasSettings :=
  mkAtlasSettings (set_string (as_Mode d) (as_Mode s)) (set_string (as_Engine d) (as_Engine s)) (set_string (as_Image d) (as_Image s))
    (set_string (as_Dir d) (as_Dir s)) (set_string (as_Schema d) (as_Schema s))
    (set_string (as_MigrationConfigMap d) (as_MigrationConfigMap s)) (set_string (as_SchemaConfigMap d) (as_SchemaConfigMap s))
    (set_pointer (as_Blocking d) (as_Blocking s)) (merge_pointer no_policy merge_policy (as_Policy d) (as_Policy s))
    (set_list (as_ExtraArgs d) (as_ExtraArgs s)).
Definition merge_features (d s : FeatureSettings) : FeatureSettings :=
  mkFeatureSettings (set_string (fs_Provider d) (fs_Provider s)) (fs_Overrides s ∪ fs_Overrides d)
    (set_string (fs_ConnectionRef d) (fs_ConnectionRef s)).
Definition merge_dev (d s : DevSettings) : DevSettings := mkDevSettings (set_string (dv_OnConflict d) (dv_OnConflict s)).
Definition mergeSettings (dst src : EnvironmentSettings) : EnvironmentSettings :=
  mkSettings
    (mkDeploySettings (set_string (ds_Mode (st_Deploy dst)) (ds_Mode (st_Deploy src)))
       (set_string (ds_Namespace (st_Deploy dst)) (ds_Namespace (st_Deploy src))))
    (mkRoutingSettings (set_string (rs_Mode (st_Routing dst)) (rs_Mode (st_Routing src)))
       (set_string (rs_BaselineNamespace (st_Routing dst)) (rs_BaselineNamespace (st_Routing src)))
       (set_string (rs_HeaderKey (st_Routing dst)) (rs_HeaderKey (st_Routing src)))
       (set_string (rs_Domain (st_Routing dst)) (rs_Domain (st_Routing src)))
       (merge_pointer no_banner merge_banner (rs_Banner (st_Routing dst)) (rs_Banner (st_Routing src))))
    (mkDatabaseSettings (set_string (da_Mode (st_Database dst)) (da_Mode (st_Database src)))
       (set_string (da_ConnectionRef (st_Database dst)) (da_ConnectionRef (st_Database src)))
       (set_string (da_SeedSource (st_Database dst)) (da_SeedSource (st_Database src)))
       (set_string (da_MigrationCommand (st_Database dst)) (da_MigrationCommand (st_Database src)))
       (merge_pointer no_atlas merge_atlas (da_Atlas (st_Database dst)) (da_Atlas (st_Database src))))
    (mkLifecycleSettings (set_string (li_TTL (st_Lifecycle dst)) (li_TTL (st_Lifecycle src)))
       (set_pointer (li_CleanupOnMerge (st_Lifecycle dst)) (li_CleanupOnMerge (st_Lifecycle src))))
    (merge_pointer no_features merge_features (st_Features dst) (st_Features src))
    (merge_pointer no_dev merge_dev (st_Dev dst) (st_Dev src)).

(** ** Resolution *)
Definition merge_found (res : EnvironmentSettings) (found : option EnvironmentSettings) : EnvironmentSettings :=
  match found with Some s => mergeSettings res s | None => res end.
Definition Resolve (c : Config) (envType : gostring) (labels : list gostring) : EnvironmentSettings :=
  fold_left (fun res label => merge_found res (lo_Settings <$> cf_LabelOverrides c !! label)) labels
    (merge_found (cf_Defaults c) (ty_Settings <$> cf_Environments c !! envType)).

(** * What the resolution of settings guarantees

    Merging is an overriding operation at every type of the configuration:
    the settings with it are a monoid in which an earlier occurrence of an
    operand is forgotten.  Each text of the resolved settings is the last one
    given, and what each layer validates stays valid, but for Atlas. *)

(** ** Overriding *)
Class Override {A} (merge : A -> A -> A) (zero : A) : Prop := {
  merge_zero_r : forall d, merge d zero = d;
  merge_zero_l : forall s, merge zero s = s;
  merge_assoc : forall d a b, merge (merge d a) b = merge d (merge a b);
  merge_regular : forall a b, merge (merge a b) a = merge b a }.
Lemma merge_idem {A} {merge : A -> A -> A} {zero} `{!Override merge zero} a : merge a a = a.
Proof. rewrite <- (merge_zero_r a) at 1. by rewrite merge_regular, merge_zero_l. Qed.

#[global] Instance set_string_override : Override set_string [].
Proof.
  split; unfold set_string, str_eqb; intros; repeat case_bool_decide; congruence.
Qed.
#[global] Instance set_pointer_override {A} : Override (@set_pointer A) None.
Proof. split; unfold set_pointer; intros; repeat case_match; congruence. Qed.
#[global] Instance set_list_override {A} : Override (@set_list A) [].
Proof. split; unfold set_list; intros; repeat case_match; congruence. Qed.
#[global] Instance union_override : Override (fun d s : gmap gostring gostring => s ∪ d) ∅.
Proof.
  split; intros; [by rewrite (left_id_L ∅ (∪))|by rewrite (right_id_L ∅ (∪))|by rewrite (assoc_L (∪))|].
  apply map_eq. intros k. rewrite !lookup_union. by destruct (a !! k), (b !! k).
Qed.
#[global] Instance merge_pointer_override {A} (zero : A) m `{!Override m zero} : Override (merge_pointer zero m) None.
Proof.
  split; unfold merge_pointer; cbn.
  - done.
  - intros [s|]; [|done]. by rewrite (merge_zero_l (zero := zero)).
  - intros d [a|] [b|]; cbn; [by rewrite (merge_assoc (zero := zero))|done|by rewrite (merge_zero_l (zero := zero))|done].
  - intros [a|] [b|]; cbn; [by rewrite (merge_regular (zero := zero))|by rewrite (merge_idem (zero := zero)), (merge_zero_l (zero := zero))|by rewrite (merge_zero_l (zero := zero))|done].
Qed.

(** A struct is merged field by field. *)
Ltac field_law :=
  first [ apply merge_zero_r | apply merge_zero_l | apply merge_assoc | apply merge_regular
        | apply (merge_zero_r (Override := union_override)) | apply (merge_zero_l (Override := union_override))
        | apply (merge_assoc (Override := union_override)) | apply (merge_regular (Override := union_override))
        | progress f_equal; field_law ].
Ltac open_struct :=
  match goal with
  | x : BannerSettings |- _ => destruct x
  | x : AtlasPolicySettings |- _ => destruct x
  | x : AtlasSettings |- _ => destruct x
  | x : FeatureSettings |- _ => destruct x
  | x : DevSettings |- _ => destruct x
  | x : EnvironmentSettings |- _ => destruct x as [[] [] [] [] ? ?]
  end.
Ltac by_field := split; intros; repeat open_struct; cbn; field_law.
#[global] Instance merge_banner_override : Override merge_banner no_banner.
Proof. unfold merge_banner, no_banner. by_field. Qed.
#[global] Instance merge_policy_override : Override merge_policy no_policy.
Proof. unfold merge_policy, no_policy. by_field. Qed.
#[global] Instance merge_atlas_override : Override merge_atlas no_atlas.
Proof. unfold merge_atlas, no_atlas. by_field. Qed.
#[global] Instance merge_features_override : Override merge_features no_features.
Proof. unfold merge_features, no_features. by_field. Qed.
#[global] Instance merge_dev_override : Override merge_dev no_dev.
Proof. unfold merge_dev, no_dev. by_field. Qed.
#[global] Instance mergeSettings_override : Override mergeSettings no_settings.
Proof. unfold mergeSettings, no_settings. by_field. Qed.

(** ** Layers *)
Lemma fold_merge {A X} {merge : A -> A -> A} {zero} `{!Override merge zero} (g : X -> A) l d :
  fold_left (fun res x => merge res (g x)) l d = merge d (fold_left (fun res x => merge res (g x)) l zero).
Proof.
  revert d. induction l as [|x l IH]; intros d; cbn; [by rewrite merge_zero_r|].
  rewrite IH, (IH (merge zero (g x))), (merge_zero_l (zero := zero)). apply merge_assoc.
Qed.
Lemma merge_found_default res o : merge_found res o = mergeSettings res (default no_settings o).
Proof. destruct o; cbn; [done|]. by rewrite merge_zero_r. Qed.
Definition override_of (c : Config) (label : gostring) : EnvironmentSettings :=
  default no_settings (lo_Settings <$> cf_LabelOverrides c !! label).
Definition overridden (c : Config) (labels : list gostring) (base : EnvironmentSettings) : EnvironmentSettings :=
  fold_left (fun res label => mergeSettings res (override_of c label)) labels base.
Lemma Resolve_overridden c ty labels :
  Resolve c ty labels = overridden c labels (mergeSettings (cf_Defaults c) (default no_settings (ty_Settings <$> cf_Environments c !! ty))).
Proof.
  unfold Resolve. rewrite merge_found_default. generalize (mergeSettings (cf_Defaults c)
    (default no_settings (ty_Settings <$> cf_Environments c !! ty))).
  induction labels as [|l labels IH]; intros base; [done|]. cbn. by rewrite merge_found_default, IH.
Qed.
Lemma overridden_app c l1 l2 base : overridden c (l1 ++ l2) base = overridden c l2 (overridden c l1 base).
Proof. unfold overridden. apply fold_left_app. Qed.

Lemma overridden_cons c l ls base : overridden c (l :: ls) base = overridden c ls (mergeSettings base (override_of c l)).
Proof. done. Qed.
Lemma overridden_base c ls base : overridden c ls base = mergeSettings base (overridden c ls no_settings).
Proof. apply fold_merge. Qed.

(** of a label given twice only the last occurrence counts: an earlier
    one changes no setting. *)
Theorem label_repeated c ty l1 label l2 l3 :
  Resolve c ty (l1 ++ label :: l2 ++ label :: l3) = Resolve c ty (l1 ++ l2 ++ label :: l3).
Proof.
  rewrite !Resolve_overridden, !overridden_app, !overridden_cons, !overridden_app, !overridden_cons. f_equal.
  rewrite overridden_base, (overridden_base _ l2 (overridden _ l1 _)), !merge_assoc. f_equal.
  rewrite <- merge_assoc. apply merge_regular.
Qed.

(** *** Texts *)
Definition banner_text (f : BannerSettings -> gostring) (s : EnvironmentSettings) : gostring := f (default no_banner (rs_Banner (st_Routing s))).
Definition atlas_text (f : AtlasSettings -> gostring) (s : EnvironmentSettings) : gostring := f (default no_atlas (da_Atlas (st_Database s))).
Definition features_text (f : FeatureSettings -> gostring) (s : EnvironmentSettings) : gostring := f (default no_features (st_Features s)).
(** Every text among the settings. *)
Definition text_settings : list (EnvironmentSettings -> gostring) :=
  [ (fun s => ds_Mode (st_Deploy s)); (fun s => ds_Namespace (st_Deploy s));
    (fun s => rs_Mode (st_Routing s)); (fun s => rs_BaselineNamespace (st_Routing s)); (fun s => rs_HeaderKey (st_Routing s));
    (fun s => rs_Domain (st_Routing s)); banner_text bs_Text; banner_text bs_Position; banner_text bs_Color;
    (fun s => da_Mode (st_Database s)); (fun s => da_ConnectionRef (st_Database s)); (fun s => da_SeedSource (st_Database s));
    (fun s => da_MigrationCommand (st_Database s));
    atlas_text as_Mode; atlas_text as_Engine; atlas_text as_Image; atlas_text as_Dir; atlas_text as_Schema;
    atlas_text as_MigrationConfigMap; atlas_text as_SchemaConfigMap; atlas_text (fun a => po_Destructive (default no_policy (as_Policy a)));
    (fun s => li_TTL (st_Lifecycle s)); features_text fs_Provider; features_text fs_ConnectionRef;
    (fun s => dv_OnConflict (default no_dev (st_Dev s)))].
(** The settings that are given, in order. *)
Definition layers (c : Config) (ty : gostring) (labels : list gostring) : list EnvironmentSettings :=
  cf_Defaults c :: from_option (fun e => [ty_Settings e]) [] (cf_Environments c !! ty) ++
  omap (fun label => lo_Settings <$> cf_LabelOverrides c !! label) labels.
(** The last text that is given, empty when none is. *)
Definition last_given (l : list gostring) : gostring := default [] (last (filter (fun s => s <> []) l)).

Lemma last_given_snoc l s : last_given (l ++ [s]) = set_string (last_given l) s.
Proof.
  unfold last_given, set_string, str_eqb. rewrite filter_app, filter_cons. case_bool_decide as Hs.
  - rewrite decide_False by (by intros H; apply H). by rewrite app_nil_r.
  - rewrite decide_True by done. cbn. by rewrite last_snoc.
Qed.
Lemma default_merge_pointer {A} (zero : A) m `{!Override m zero} d s :
  default zero (merge_pointer zero m d s) = m (default zero d) (default zero s).
Proof. destruct s; cbn; [done|]. by rewrite (merge_zero_r (zero := zero)). Qed.
Lemma text_of_merge f : f ∈ text_settings -> forall d s, f (mergeSettings d s) = set_string (f d) (f s).
Proof.
  unfold text_settings. rewrite !elem_of_cons, elem_of_nil. intros Hf d s.
  repeat destruct Hf as [-> |Hf]; try done; unfold banner_text, atlas_text, features_text; cbn -[default];
    rewrite ?default_merge_pointer by apply _; try done.
  cbn -[default]. by rewrite default_merge_pointer by apply _.
Qed.
Lemma Resolve_layers c ty labels : Resolve c ty labels = fold_left mergeSettings (layers c ty labels) no_settings.
Proof.
  unfold Resolve, layers. cbn [fold_left]. rewrite (merge_zero_l (merge := mergeSettings)), fold_left_app.
  assert (fold_left mergeSettings (from_option (fun e => [ty_Settings e]) [] (cf_Environments c !! ty)) (cf_Defaults c) =
          merge_found (cf_Defaults c) (ty_Settings <$> cf_Environments c !! ty)) as -> by (by destruct (_ !! ty)).
  generalize (merge_found (cf_Defaults c) (ty_Settings <$> cf_Environments c !! ty)). induction labels as [|l ls IH]; intros base; [done|].
  cbn. rewrite IH. by destruct (cf_LabelOverrides c !! l).
Qed.

(** C31: each of the 25 texts of the resolved settings is the last one given
    among the defaults, the environment type and the labels in order; it is
    empty only when no layer gives it. *)
Theorem Resolve_texts c ty labels f : f ∈ text_settings -> f (Resolve c ty labels) = last_given (map f (layers c ty labels)).
Proof.
  intros Hf. rewrite Resolve_layers. induction (layers c ty labels) as [|s l IH] using rev_ind.
  - revert Hf. unfold text_settings. rewrite !elem_of_cons, elem_of_nil. intros Hf. by repeat destruct Hf as [-> |Hf].
  - rewrite fold_left_app, map_app. cbn. by rewrite text_of_merge, last_given_snoc, IH.
Qed.

(** ** Validity *)
Lemma one_of_set d s l : [] ∈ l -> one_of d l = true -> one_of s l = true -> one_of (set_string d s) l = true.
Proof. unfold set_string, str_eqb. intros _ Hd Hs. by case_bool_decide. Qed.
Lemma refuse_when_Ok b msg u : refuse_when b msg = Ok u <-> b = false.
Proof. unfold refuse_when. rewrite check_Ok. by destruct b. Qed.
Section Valid.
Context {U : GoUnicode}.
Lemma one_of_refused d l msg u : refuse_when (negb (one_of d l)) msg = Ok u <-> one_of d l = true.
Proof. rewrite refuse_when_Ok. by destruct (one_of d l). Qed.
(** The parts of the settings that can be judged one by one. *)
Definition good_color (s : gostring) : bool := str_eqb s [] || hexColorRegex s.
Definition separable (s : EnvironmentSettings) : Prop :=
  one_of (banner_text bs_Position s) [ []; #"top"; #"bottom"] = true /\ good_color (banner_text bs_Color s) = true /\
  one_of (atlas_text as_Mode s) [ []; #"versioned"; #"declarative"] = true /\ one_of (atlas_text as_Engine s) [ []; #"operator"; #"job"] = true /\
  one_of (atlas_text (fun a => po_Destructive (default no_policy (as_Policy a))) s) [ []; #"error"; #"warn"; #"allow"] = true /\
  one_of (features_text fs_Provider s) ([] :: feature_providers) = true /\
  one_of (dv_OnConflict (default no_dev (st_Dev s))) [ []; #"warn"; #"block"; #"allow"] = true.
(** What cannot: two settings of Atlas that exclude each other. *)
Definition atlas_conflict (a : AtlasSettings) : bool :=
  let set s := negb (str_eqb s []) in
  (set (as_Dir a) && (str_eqb (as_Mode a) #"declarative" || set (as_MigrationConfigMap a))) ||
  (set (as_Schema a) && (str_eqb (as_Mode a) #"versioned" || set (as_SchemaConfigMap a))).
Lemma Banner_Validate_spec b : is_ok (BannerSettings_Validate b) =
  one_of (bs_Position (default no_banner b)) [ []; #"top"; #"bottom"] && good_color (bs_Color (default no_banner b)).
Proof.
  destruct b as [b|]; [|done]. cbn -[one_of str_eqb]. unfold refuse_when, good_color. rewrite negb_involutive, negb_andb, !negb_involutive.
  destruct (one_of _ _); cbn -[str_eqb]; [|done]. by destruct (_ || _).
Qed.
Lemma Features_Validate_spec f : is_ok (FeatureSettings_Validate f) =
  one_of (fs_Provider (default no_features f)) ([] :: feature_providers).
Proof. destruct f as [f|]; [|done]. cbn -[one_of feature_providers]. unfold refuse_when. rewrite negb_involutive. by destruct (one_of _ _). Qed.
Lemma Dev_Validate_spec d : is_ok (DevSettings_Validate d) =
  one_of (dv_OnConflict (default no_dev d)) [ []; #"warn"; #"block"; #"allow"].
Proof. destruct d as [d|]; [|done]. cbn -[one_of]. unfold refuse_when. rewrite negb_involutive. by destruct (one_of _ _). Qed.
Lemma Atlas_Validate_spec a : is_ok (AtlasSettings_Validate a) =
  one_of (as_Mode (default no_atlas a)) [ []; #"versioned"; #"declarative"] && one_of (as_Engine (default no_atlas a)) [ []; #"operator"; #"job"] &&
  negb (atlas_conflict (default no_atlas a)) && one_of (po_Destructive (default no_policy (as_Policy (default no_atlas a)))) [ []; #"error"; #"warn"; #"allow"].
Proof.
  destruct a as [a|]; [|done]. cbn -[one_of str_eqb]. unfold refuse_when, atlas_conflict. rewrite !negb_involutive.
  destruct (one_of (as_Mode a) _); [|done]. destruct (one_of (as_Engine a) _); [|done]. cbn -[one_of str_eqb].
  destruct (str_eqb (as_Dir a) []), (str_eqb (as_Schema a) []), (str_eqb (as_Mode a) #"declarative"), (str_eqb (as_Mode a) #"versioned"),
    (str_eqb (as_MigrationConfigMap a) []), (str_eqb (as_SchemaConfigMap a) []); cbn -[one_of]; try done;
  destruct (as_Policy a) as [p|]; cbn -[one_of]; try done; rewrite ?negb_involutive; by destruct (one_of _ _).
Qed.
Definition valid_settings (s : EnvironmentSettings) : bool :=
  is_ok (BannerSettings_Validate (rs_Banner (st_Routing s))) && is_ok (AtlasSettings_Validate (da_Atlas (st_Database s))) &&
  is_ok (FeatureSettings_Validate (st_Features s)) && is_ok (DevSettings_Validate (st_Dev s)).
Lemma valid_settings_spec s : valid_settings s = true <-> separable s /\ atlas_conflict (default no_atlas (da_Atlas (st_Database s))) = false.
Proof.
  unfold valid_settings, separable, banner_text, atlas_text, features_text.
  rewrite Banner_Validate_spec, Atlas_Validate_spec, Features_Validate_spec, Dev_Validate_spec, !andb_true_iff, negb_true_iff. tauto.
Qed.
Lemma validate_settings_ok at_ s : is_ok (validate_settings at_ s) = valid_settings s.
Proof.
  unfold validate_settings, valid_settings.
  destruct (BannerSettings_Validate _); [|done]. destruct (AtlasSettings_Validate _); [|done].
  destruct (FeatureSettings_Validate _); [|done]. by destruct (DevSettings_Validate _).
Qed.
Lemma resolved_ok s : is_ok (ResolvedSettings_Validate s) = valid_settings s.
Proof. 
  unfold ResolvedSettings_Validate, valid_settings. destruct (BannerSettings_Validate _); [|done]. destruct (AtlasSettings_Validate _); [|done].
  destruct (FeatureSettings_Validate _); [|done]. by destruct (DevSettings_Validate _).
Qed.
Lemma validate_each_ok {V} what settings (l : list (gostring * V)) :
  is_ok (validate_each what settings l) = true -> forall kv, kv ∈ l -> valid_settings (settings (snd kv)) = true.
Proof.
  induction l as [|[k v] l IH]; [by intros _ kv ?%elem_of_nil|]. cbn. pose proof (validate_settings_ok (what ++ #"[" ++ k ++ #"]") (settings v)) as Hv.
  destruct (validate_settings _ _); [|done]. intros H kv [-> |Hin]%elem_of_cons; [done|by apply IH].
Qed.
Lemma separable_none : separable no_settings.
Proof. by vm_compute. Qed.
Lemma good_color_set d s : good_color d = true -> good_color s = true -> good_color (set_string d s) = true.
Proof. unfold good_color, set_string. by destruct (str_eqb s []) eqn:E; cbn; [|rewrite E]. Qed.
Lemma separable_merge d s : separable d -> separable s -> separable (mergeSettings d s).
Proof.
  unfold separable. intros (D1 & D2 & D3 & D4 & D5 & D6 & D7) (S1 & S2 & S3 & S4 & S5 & S6 & S7).
  assert (forall f, f ∈ text_settings -> f (mergeSettings d s) = set_string (f d) (f s)) as Ht by (intros f Hf; by apply text_of_merge).
  rewrite !Forall_forall in Ht || idtac.
  split_and!; [rewrite (Ht (banner_text bs_Position))|rewrite (Ht (banner_text bs_Color))|rewrite (Ht (atlas_text as_Mode))
    |rewrite (Ht (atlas_text as_Engine))|rewrite (Ht (atlas_text (fun a => po_Destructive (default no_policy (as_Policy a)))))
    |rewrite (Ht (features_text fs_Provider))|rewrite (Ht (fun s => dv_OnConflict (default no_dev (st_Dev s))))];
    try (unfold text_settings; rewrite !elem_of_cons; tauto); try (apply one_of_set; [by left|done..]). by apply good_color_set.
Qed.

(** when the configuration is valid, so are the settings it resolves to
    for every environment type and list of labels, unless the Atlas settings
    of two layers exclude each other. *)
Theorem resolved_valid (c : Config) environments overrides ty labels :
  environments ≡ₚ map_to_list (cf_Environments c) -> overrides ≡ₚ map_to_list (cf_LabelOverrides c) ->
  Config_Validate environments overrides c = Ok tt ->
  is_ok (ResolvedSettings_Validate (Resolve c ty labels)) =
  negb (atlas_conflict (default no_atlas (da_Atlas (st_Database (Resolve c ty labels))))).
Proof.
  intros He Ho Hv. assert (separable (Resolve c ty labels)) as Hs.
  - unfold Config_Validate in Hv. inv_ok.
    assert (Forall separable (layers c ty labels)) as Hl.
    { unfold layers. rewrite Forall_cons, Forall_app. split_and!.
      - apply valid_settings_spec. rewrite <- (validate_settings_ok #"defaults"). by rewrite Hr.
      - destruct (cf_Environments c !! ty) as [e|] eqn:Ee; cbn; [|constructor]. constructor; [|constructor]. apply valid_settings_spec.
        apply (validate_each_ok #"environments" ty_Settings environments ltac:(by rewrite Hr0) (ty, e)). by rewrite He, elem_of_map_to_list.
      - apply Forall_forall. intros s (l & _ & Hs)%list_elem_of_omap. destruct (_ !! l) as [o|] eqn:El; [|done]. injection Hs as <-.
        apply valid_settings_spec. apply (validate_each_ok #"label_overrides" lo_Settings overrides ltac:(by rewrite Hv) (l, o)).
        by rewrite Ho, elem_of_map_to_list. }
    rewrite Resolve_layers. pose proof separable_none as Hb. revert Hb. generalize no_settings.
    induction Hl as [|s l Hs Hl IH]; intros b Hb; [done|]. apply IH. by apply separable_merge.
  - rewrite resolved_ok. destruct (atlas_conflict _) eqn:Ec; cbn.
    + apply not_true_iff_false. intros [_ H]%valid_settings_spec. congruence.
    + by apply valid_settings_spec.
Qed.
End Valid.

(** ** A configuration *)
Module ConfigDemo.
Definition with_atlas (a : AtlasSettings) : EnvironmentSettings :=
  mkSettings (st_Deploy no_settings) (st_Routing no_settings) (mkDatabaseSettings [] [] [] [] (Some a)) (st_Lifecycle no_settings) None None.
Definition keyed (key : gostring) : EnvironmentSettings :=
  mkSettings (st_Deploy no_settings) (mkRoutingSettings [] [] key [] (Some (mkBannerSettings None #"preview" #"top" #"#0f0"))) (st_Database no_settings)
    (st_Lifecycle no_settings) None None.
Definition versioned : AtlasSettings := mkAtlasSettings #"versioned" [] [] #"migrations" [] [] [] None None [].
Definition declarative : AtlasSettings := mkAtlasSettings #"declarative" [] [] [] [] [] [] None None [].
Definition labels : gmap gostring LabelOverride :=
  {[ #"schema-first" := mkOverride (with_atlas declarative) false; #"canary" := mkOverride (keyed #"x-canary") false;
     #"stable" := mkOverride (keyed #"x-stable") false]}.
Definition config : Config := mkConfig #"1" ∅ (with_atlas versioned) ∅ labels (mkNotification [] false false false) None.
End ConfigDemo.
Lemma ConfigDemo_valid : Config_Validate (U := ascii_unicode) [] (map_to_list ConfigDemo.labels) ConfigDemo.config = Ok tt.
Proof. by vm_compute. Qed.
(** a configuration that is valid can resolve to settings that are
    refused: the defaults keep versioned migrations in a directory, and a
    label makes Atlas declarative. *)
Theorem valid_config_resolves_invalid :
  Config_Validate (U := ascii_unicode) [] (map_to_list ConfigDemo.labels) ConfigDemo.config = Ok tt /\
  ResolvedSettings_Validate (U := ascii_unicode) (Resolve ConfigDemo.config [] [ #"schema-first"]) =
    Err (#"atlas dir is only supported in " ++ quoted #"versioned" ++ #" mode, got " ++ quoted #"declarative").
Proof. split; [exact ConfigDemo_valid|by vm_compute]. Qed.
Lemma resolved_valid_witness :
  is_ok (ResolvedSettings_Validate (U := ascii_unicode) (Resolve ConfigDemo.config [] [ #"canary"])) =
  negb (atlas_conflict (default no_atlas (da_Atlas (st_Database (Resolve ConfigDemo.config [] [ #"canary"]))))).
Proof.
  exact (resolved_valid (U := ascii_unicode) ConfigDemo.config [] (map_to_list ConfigDemo.labels) [] [ #"canary"] (Permutation_refl _)
    (Permutation_refl _) ConfigDemo_valid).
Defined.
Lemma header_key_is_text : (fun s => rs_HeaderKey (st_Routing s)) ∈ text_settings.
Proof. unfold text_settings. do 4 right. by left. Qed.
Lemma Resolve_texts_witness : rs_HeaderKey (st_Routing (Resolve ConfigDemo.config [] [ #"stable"; #"canary"])) =
  last_given (map (fun s => rs_HeaderKey (st_Routing s)) (layers ConfigDemo.config [] [ #"stable"; #"canary"])).
Proof. exact (Resolve_texts ConfigDemo.config [] [ #"stable"; #"canary"] (fun s => rs_HeaderKey (st_Routing s)) header_key_is_text). Defined.
Example last_label_wins : rs_HeaderKey (st_Routing (Resolve ConfigDemo.config [] [ #"stable"; #"canary"])) = #"x-canary".
Proof. by vm_compute. Qed.
