(* ===== verification/DotDiverge.v ===== *)
(** * The configuration of a service: [internal/deployer/config.go]

    The file [.diverge.yaml] of a service repository, checked and turned into
    the settings of a preview.  The YAML decoder is third party. *)

From S2P Require Import Prelude GoStrings GoFloat GoDuration EnvTypes GoURL.
Local Open Scope Z_scope.

Record DotDivergeRouting := mkDotRouting { dr_ParentRef : gostring; dr_HeaderKey : gostring }.
Record DotDivergeContainer := mkDotContainer { dc_Env : list (gostring * gostring) }.
Record DotDivergeSpec := mkDotSpec {
  dd_Namespace : gostring; dd_ServiceName : gostring; dd_Port : Z; dd_Routing : DotDivergeRouting;
  dd_WebSocket : option WebSocketSpec; dd_Container : DotDivergeContainer }.
Record DotDivergeConfig := mkDotDiverge {
  dot_APIVersion : gostring; dot_Kind : gostring; dot_Name : gostring; dot_Spec : DotDivergeSpec }.
Definition dd_set_Port (p : Z) (s : DotDivergeSpec) : DotDivergeSpec :=
  mkDotSpec (dd_Namespace s) (dd_ServiceName s) p (dd_Routing s) (dd_WebSocket s) (dd_Container s).
Definition dot_set_Spec (s : DotDivergeSpec) (c : DotDivergeConfig) : DotDivergeConfig :=
  mkDotDiverge (dot_APIVersion c) (dot_Kind c) (dot_Name c) s.

Definition maxManifestSize : Z := 5 * 2 ^ 20.
(** The decoder: the text into a node, and the node into the struct. *)
Definition dot_decoder : Type := gostring -> result gostring DotDivergeConfig.
(** The text of the error of [time.ParseDuration]. *)
Definition ParseDotDivergeConfig (yaml_decode : dot_decoder) (duration_error : gostring -> gostring) (data : gostring)
    : result gostring DotDivergeConfig :=
  if maxManifestSize <? Z.of_nat (length data) then
    Err (#"manifest exceeds maximum size of " ++ Itoa maxManifestSize ++ #" bytes")
  else
    match yaml_decode data with
    | Err e => Err (#"failed to parse .diverge.yaml: " ++ e)
    | Ok cfg =>
        if str_eqb (dd_ServiceName (dot_Spec cfg)) [] then Err #".diverge.yaml: spec.serviceName is required"
        else
          let cfg := if dd_Port (dot_Spec cfg) =? 0 then dot_set_Spec (dd_set_Port 8080 (dot_Spec cfg)) cfg else cfg in
          if (dd_Port (dot_Spec cfg) <? 1) || (65535 <? dd_Port (dot_Spec cfg)) then
            Err (#"port " ++ Itoa (dd_Port (dot_Spec cfg)) ++ #" out of valid range 1-65535")
          else
            match dd_WebSocket (dot_Spec cfg) with
            | Some ws =>
                if str_eqb (ws_Timeout ws) [] then Ok cfg
                else match ParseDuration (ws_Timeout ws) with
                     | Some _ => Ok cfg
                     | None => Err (#"invalid websocket timeout: " ++ duration_error (ws_Timeout ws))
                     end
            | None => Ok cfg
            end
    end.
Definition ToServicePreviewConfig (image : gostring) (c : DotDivergeConfig) : ServicePreviewConfig :=
  let s := dot_Spec c in
  mkServiceConfig (dd_ServiceName s) (dd_Namespace s) (dd_Port s) image [] [] (dr_ParentRef (dd_Routing s)) (dr_HeaderKey (dd_Routing s)) []
    (map (fun nv => mkEnvVar (fst nv) (snd nv)) (dc_Env (dd_Container s))) [] [] None None (dd_WebSocket s).

(** What every accepted file says. *)
Definition well_formed_dot (c : DotDivergeConfig) : Prop :=
  dd_ServiceName (dot_Spec c) <> [] /\ 1 <= dd_Port (dot_Spec c) <= 65535 /\
  (forall ws, dd_WebSocket (dot_Spec c) = Some ws -> ws_Timeout ws = [] \/ is_Some (ParseDuration (ws_Timeout ws))).
Lemma ParseDotDivergeConfig_well_formed decode de data c : ParseDotDivergeConfig decode de data = Ok c -> well_formed_dot c.
Proof.
  unfold ParseDotDivergeConfig, str_eqb. destruct (_ <? _); [done|]. destruct (decode data) as [cfg|e]; [|done].
  case_bool_decide as Hs; [done|]. cbv zeta. set (cfg' := if dd_Port (dot_Spec cfg) =? 0 then dot_set_Spec (dd_set_Port 8080 (dot_Spec cfg)) cfg else cfg).
  assert (dd_ServiceName (dot_Spec cfg') <> []) as Hs' by (subst cfg'; by destruct (_ =? _)). clearbody cfg'.
  destruct (_ || _) eqn:Hp; [done|]. bool_simpl.
  assert (1 <= dd_Port (dot_Spec cfg') <= 65535) as Hp' by lia. intros Hc.
  destruct (dd_WebSocket (dot_Spec cfg')) as [ws|] eqn:Hw; [|injection Hc as <-; split_and!; [done|lia..|congruence]].
  case_bool_decide as Ht; [injection Hc as <-|].
  - split_and!; [done|lia..|]. intros ws' Hw'. left. congruence.
  - destruct (ParseDuration _) eqn:Ed; [|done]. injection Hc as <-. split_and!; [done|lia..|]. intros ws' Hw'. right. exists z. congruence.
Qed.

(** * Fetching the configuration of a repository

    [internal/webhook/config_fetcher.go], [config_fetcher_github.go],
    [config_fetcher_gitlab.go], and the escapes of [net/url] they use.  The
    HTTP client and the text of the errors of others are third party. *)

(** ** [url.QueryEscape] and [url.PathEscape] *)
Definition unreserved (c : ascii) : bool := is_alnum c || bool_decide (c ∈ #"-_.~").
Definition percent (c : ascii) : gostring :=
  let hex d := nth (Z.to_nat d) #"0123456789ABCDEF" "0"%char in
  ["%"%char; hex (byteval c / 16); hex (byteval c mod 16)].
Definition query_escape_byte (c : ascii) : gostring :=
  if unreserved c then [c] else if decide (c = " "%char) then [ "+"%char ] else percent c.
Definition path_escape_byte (c : ascii) : gostring :=
  if unreserved c || bool_decide (c ∈ #"$&+:=@") then [c] else percent c.
Definition QueryEscape (s : gostring) : gostring := s ≫= query_escape_byte.
Definition PathEscape (s : gostring) : gostring := s ≫= path_escape_byte.

(** ** The client *)
Record Response := mkResponse { rp_StatusCode : Z; rp_Body : gostring; rp_Broken : bool }.
(** A GET of a URL with headers: the text of the error, or the response. *)
Definition http_client : Type := gostring -> list (gostring * gostring) -> result gostring Response.
(** [config.ErrConfigNotFound], or another error. *)
Inductive fetch_error := ErrConfigNotFound | FetchFailed (text : gostring).
Definition fetch_text (e : fetch_error) : gostring := match e with ErrConfigNotFound => #"config not found" | FetchFailed t => t end.
Definition maxConfigSize : Z := 2 ^ 20.
(** [io.ReadAll(io.LimitReader(body, limit))]: [None] on an error. *)
Definition read_config_limited (limit : Z) (r : Response) : option gostring :=
  if rp_Broken r && (Z.of_nat (length (rp_Body r)) <? limit) then None else Some (take (Z.to_nat limit) (rp_Body r)).
Definition ConfigFetcher : Type := gostring -> gostring -> gostring -> result fetch_error gostring.

Section Fetch.
Context {U : GoUnicode} {N : GoNetip}.
(** The texts of the errors of [url.Parse] and of reading. *)
Context (parse_text read_text : gostring) (client : http_client).
Definition read_config (sent : result gostring Response) : result fetch_error gostring :=
  match sent with
  | Err e => Err (FetchFailed (#"failed to fetch .diverge.yaml: " ++ e))
  | Ok resp =>
      if rp_StatusCode resp =? 404 then Err ErrConfigNotFound
      else if negb (rp_StatusCode resp =? 200) then
        Err (FetchFailed (#"unexpected status " ++ Itoa (rp_StatusCode resp) ++ #" fetching .diverge.yaml"))
      else
        match read_config_limited (maxConfigSize + 1) resp with
        | None => Err (FetchFailed (#"reading response body: " ++ read_text))
        | Some data =>
            if maxConfigSize <? Z.of_nat (length data)
            then Err (FetchFailed (#"config file exceeds maximum size of " ++ Itoa maxConfigSize ++ #" bytes"))
            else Ok data
        end
  end.
Definition get_config (apiURL : gostring) (headers : list (gostring * gostring)) : result fetch_error gostring :=
  match Parse apiURL with
  | None => Err (FetchFailed (#"failed to create request: " ++ parse_text))
  | Some _ => read_config (client apiURL headers)
  end.
Definition github_config_url (project ref : gostring) : gostring :=
  #"https://api.github.com/repos/" ++ project ++ #"/contents/.diverge.yaml?ref=" ++ QueryEscape ref.
Definition GitHubConfigFetcher_FetchConfig (Token : gostring) : ConfigFetcher := fun provider project ref =>
  get_config (github_config_url project ref)
    [(#"Authorization", #"Bearer " ++ Token); (#"Accept", #"application/vnd.github.raw+json")].
Definition gitlab_config_url (BaseURL project ref : gostring) : gostring :=
  (if str_eqb BaseURL [] then #"https://gitlab.com" else BaseURL) ++ #"/api/v4/projects/" ++ PathEscape project ++ #"/repository/files/" ++
  PathEscape #".diverge.yaml" ++ #"/raw?ref=" ++ QueryEscape ref.
Definition GitLabConfigFetcher_FetchConfig (BaseURL Token : gostring) : ConfigFetcher := fun provider project ref =>
  get_config (gitlab_config_url BaseURL project ref) [(#"PRIVATE-TOKEN", Token)].
End Fetch.

(** ** Facts *)
Lemma read_config_limited_length limit r data : 0 <= limit -> read_config_limited limit r = Some data -> Z.of_nat (length data) <= limit.
Proof. unfold read_config_limited. intros Hl. destruct (_ && _); [done|]. intros [= <-]. rewrite length_take. lia. Qed.
Definition escaped_byte (c : ascii) : bool := unreserved c || bool_decide (c ∈ #"%+").
Lemma QueryEscape_bytes s : forallb escaped_byte (QueryEscape s) = true.
Proof.
  unfold QueryEscape. induction s as [|c s IH]; [done|]. change ((c :: s) ≫= query_escape_byte) with (query_escape_byte c ++ (s ≫= query_escape_byte)).
  rewrite forallb_app, IH, andb_true_r. destruct c as [[] [] [] [] [] [] [] []]; vm_compute; reflexivity.
Qed.
(** An escaped path holds no slash: it is one segment of the path. *)
Lemma PathEscape_segment s : forall c, c ∈ PathEscape s -> c <> "/"%char /\ c <> "?"%char /\ c <> "#"%char.
Proof.
  assert (forall c, forallb (fun d => negb (bool_decide (d ∈ #"/?#"))) (path_escape_byte c) = true) as H
    by (intros [[] [] [] [] [] [] [] []]; vm_compute; reflexivity).
  intros c Hc. unfold PathEscape in Hc. apply list_elem_of_bind in Hc as (d & Hc & _). specialize (H d).
  rewrite forallb_forall in H. specialize (H c). rewrite <- list_elem_of_In in H. specialize (H Hc). apply negb_true_iff, bool_decide_eq_false in H.
  split_and!; intros ->; apply H; by apply (bool_decide_eq_true_1 (_ ∈ _)).
Qed.
