(* ===== verification/GroupTypes.v ===== *)
(** * Preview groups: [api/v1alpha1/previewgroup_types.go] *)

From S2P Require Import Prelude GoStrings GoTime AgentTask ResourceNames EnvTypes.
Local Open Scope Z_scope.

Record PreviewGroupServiceSpec := mkGroupService {
  gs_Name : gostring; gs_Image : gostring; gs_Mode : gostring; gs_Endpoint : gostring; gs_Namespace : gostring; gs_Port : Z;
  gs_ParentRef : gostring; gs_PathPrefix : gostring; gs_Protocol : gostring; gs_AsyncRoutes : list AsyncRouteSpec;
  gs_ImagePullPolicy : gostring; gs_Env : list EnvVar; gs_Resources : option ResourceOverride;
  gs_Database : option EnvironmentDatabase; gs_PostDeploy : option PostDeploySpec; gs_KEDA : option KEDASpec }.
#[global] Instance PreviewGroupServiceSpec_eq_dec : EqDecision PreviewGroupServiceSpec.
Proof. solve_decision. Defined.
Record PreviewGroupRouting := mkGroupRouting {
  gr_Mode : gostring; gr_HeaderKey : gostring; gr_HeaderValue : gostring; gr_ExternalURL : gostring; gr_BaseDomain : gostring }.
#[global] Instance PreviewGroupRouting_eq_dec : EqDecision PreviewGroupRouting.
Proof. solve_decision. Defined.
Record PreviewGroupLifecycle := mkGroupLifecycle {
  gl_TTL : option Z; gl_CleanupOnMerge : bool }.
#[global] Instance PreviewGroupLifecycle_eq_dec : EqDecision PreviewGroupLifecycle.
Proof. solve_decision. Defined.
Definition gl_set_TTL (x : option Z) (r : PreviewGroupLifecycle) : PreviewGroupLifecycle :=
  mkGroupLifecycle x (gl_CleanupOnMerge r).
Definition gl_set_CleanupOnMerge (x : bool) (r : PreviewGroupLifecycle) : PreviewGroupLifecycle :=
  mkGroupLifecycle (gl_TTL r) x.
Record TopologyEdge := mkEdgeOverride {
  te_From : gostring; te_To : gostring; te_Protocol : gostring; te_Suppress : bool }.
#[global] Instance TopologyEdge_eq_dec : EqDecision TopologyEdge.
Proof. solve_decision. Defined.
Record PreviewGroupSpec := mkGroupSpec {
  gp_Source : EnvironmentSource; gp_Routing : PreviewGroupRouting; gp_Services : list PreviewGroupServiceSpec;
  gp_Database : option EnvironmentDatabase; gp_Lifecycle : option PreviewGroupLifecycle; gp_Owner : gostring;
  gp_TopologyOverrides : list TopologyEdge }.
#[global] Instance PreviewGroupSpec_eq_dec : EqDecision PreviewGroupSpec.
Proof. solve_decision. Defined.
Definition gp_set_Source (x : EnvironmentSource) (r : PreviewGroupSpec) : PreviewGroupSpec :=
  mkGroupSpec x (gp_Routing r) (gp_Services r) (gp_Database r) (gp_Lifecycle r) (gp_Owner r) (gp_TopologyOverrides r).
Definition gp_set_Routing (x : PreviewGroupRouting) (r : PreviewGroupSpec) : PreviewGroupSpec :=
  mkGroupSpec (gp_Source r) x (gp_Services r) (gp_Database r) (gp_Lifecycle r) (gp_Owner r) (gp_TopologyOverrides r).
Definition gp_set_Services (x : list PreviewGroupServiceSpec) (r : PreviewGroupSpec) : PreviewGroupSpec :=
  mkGroupSpec (gp_Source r) (gp_Routing r) x (gp_Database r) (gp_Lifecycle r) (gp_Owner r) (gp_TopologyOverrides r).
Definition gp_set_Lifecycle (x : option PreviewGroupLifecycle) (r : PreviewGroupSpec) : PreviewGroupSpec :=
  mkGroupSpec (gp_Source r) (gp_Routing r) (gp_Services r) (gp_Database r) x (gp_Owner r) (gp_TopologyOverrides r).
Record PreviewGroupServiceStatus := mkServiceStatus {
  sv_Name : gostring; sv_EnvironmentName : gostring; sv_Namespace : gostring; sv_Phase : gostring; sv_URL : gostring;
  sv_Message : gostring; sv_Reason : gostring; sv_LastLogSnippet : gostring; sv_ChangedServices : list gostring }.
#[global] Instance PreviewGroupServiceStatus_eq_dec : EqDecision PreviewGroupServiceStatus.
Proof. solve_decision. Defined.
Definition sv_set_Phase (x : gostring) (r : PreviewGroupServiceStatus) : PreviewGroupServiceStatus :=
  mkServiceStatus (sv_Name r) (sv_EnvironmentName r) (sv_Namespace r) x (sv_URL r) (sv_Message r) (sv_Reason r)
    (sv_LastLogSnippet r) (sv_ChangedServices r).
Definition sv_set_URL (x : gostring) (r : PreviewGroupServiceStatus) : PreviewGroupServiceStatus :=
  mkServiceStatus (sv_Name r) (sv_EnvironmentName r) (sv_Namespace r) (sv_Phase r) x (sv_Message r) (sv_Reason r)
    (sv_LastLogSnippet r) (sv_ChangedServices r).
Definition sv_set_Message (x : gostring) (r : PreviewGroupServiceStatus) : PreviewGroupServiceStatus :=
  mkServiceStatus (sv_Name r) (sv_EnvironmentName r) (sv_Namespace r) (sv_Phase r) (sv_URL r) x (sv_Reason r)
    (sv_LastLogSnippet r) (sv_ChangedServices r).
Definition sv_set_Reason (x : gostring) (r : PreviewGroupServiceStatus) : PreviewGroupServiceStatus :=
  mkServiceStatus (sv_Name r) (sv_EnvironmentName r) (sv_Namespace r) (sv_Phase r) (sv_URL r) (sv_Message r) x
    (sv_LastLogSnippet r) (sv_ChangedServices r).
Definition sv_set_ChangedServices (x : list gostring) (r : PreviewGroupServiceStatus) : PreviewGroupServiceStatus :=
  mkServiceStatus (sv_Name r) (sv_EnvironmentName r) (sv_Namespace r) (sv_Phase r) (sv_URL r) (sv_Message r) (sv_Reason r)
    (sv_LastLogSnippet r) x.
Record DiscoveredIngressPath := mkIngressPath {
  ip_Entrypoint : gostring; ip_Target : gostring; ip_Hops : list gostring }.
#[global] Instance DiscoveredIngressPath_eq_dec : EqDecision DiscoveredIngressPath.
Proof. solve_decision. Defined.
Record PreviewGroupStatus := mkGroupStatus {
  gt_Phase : gostring; gt_ServiceCount : Z; gt_Services : list PreviewGroupServiceStatus; gt_ObservedGeneration : Z;
  gt_CreatedAt : option Time; gt_ExpiresAt : option Time; gt_Conditions : list Condition; gt_CommentID : Z;
  gt_LeaseRenewedAt : option Time; gt_DiscoveredIngressPaths : list DiscoveredIngressPath; gt_GraphSource : gostring }.
#[global] Instance PreviewGroupStatus_eq_dec : EqDecision PreviewGroupStatus.
Proof. solve_decision. Defined.
Definition gt_set_Phase (x : gostring) (r : PreviewGroupStatus) : PreviewGroupStatus :=
  mkGroupStatus x (gt_ServiceCount r) (gt_Services r) (gt_ObservedGeneration r) (gt_CreatedAt r) (gt_ExpiresAt r)
    (gt_Conditions r) (gt_CommentID r) (gt_LeaseRenewedAt r) (gt_DiscoveredIngressPaths r) (gt_GraphSource r).
Definition gt_set_ServiceCount (x : Z) (r : PreviewGroupStatus) : PreviewGroupStatus :=
  mkGroupStatus (gt_Phase r) x (gt_Services r) (gt_ObservedGeneration r) (gt_CreatedAt r) (gt_ExpiresAt r) (gt_Conditions r)
    (gt_CommentID r) (gt_LeaseRenewedAt r) (gt_DiscoveredIngressPaths r) (gt_GraphSource r).
Definition gt_set_Services (x : list PreviewGroupServiceStatus) (r : PreviewGroupStatus) : PreviewGroupStatus :=
  mkGroupStatus (gt_Phase r) (gt_ServiceCount r) x (gt_ObservedGeneration r) (gt_CreatedAt r) (gt_ExpiresAt r) (gt_Conditions
    r) (gt_CommentID r) (gt_LeaseRenewedAt r) (gt_DiscoveredIngressPaths r) (gt_GraphSource r).
Definition gt_set_ObservedGeneration (x : Z) (r : PreviewGroupStatus) : PreviewGroupStatus :=
  mkGroupStatus (gt_Phase r) (gt_ServiceCount r) (gt_Services r) x (gt_CreatedAt r) (gt_ExpiresAt r) (gt_Conditions r)
    (gt_CommentID r) (gt_LeaseRenewedAt r) (gt_DiscoveredIngressPaths r) (gt_GraphSource r).
Definition gt_set_CreatedAt (x : option Time) (r : PreviewGroupStatus) : PreviewGroupStatus :=
  mkGroupStatus (gt_Phase r) (gt_ServiceCount r) (gt_Services r) (gt_ObservedGeneration r) x (gt_ExpiresAt r) (gt_Conditions
    r) (gt_CommentID r) (gt_LeaseRenewedAt r) (gt_DiscoveredIngressPaths r) (gt_GraphSource r).
Definition gt_set_ExpiresAt (x : option Time) (r : PreviewGroupStatus) : PreviewGroupStatus :=
  mkGroupStatus (gt_Phase r) (gt_ServiceCount r) (gt_Services r) (gt_ObservedGeneration r) (gt_CreatedAt r) x (gt_Conditions
    r) (gt_CommentID r) (gt_LeaseRenewedAt r) (gt_DiscoveredIngressPaths r) (gt_GraphSource r).
Definition gt_set_Conditions (x : list Condition) (r : PreviewGroupStatus) : PreviewGroupStatus :=
  mkGroupStatus (gt_Phase r) (gt_ServiceCount r) (gt_Services r) (gt_ObservedGeneration r) (gt_CreatedAt r) (gt_ExpiresAt r) x
    (gt_CommentID r) (gt_LeaseRenewedAt r) (gt_DiscoveredIngressPaths r) (gt_GraphSource r).
Record PreviewGroup := mkPreviewGroup {
  pg_Name : gostring; pg_Namespace : gostring; pg_UID : gostring; pg_Labels : gmap gostring gostring;
  pg_Annotations : gmap gostring gostring; pg_Finalizers : list gostring;
  pg_CreationTimestamp : Time; pg_DeletionTimestamp : option Time;
  pg_Generation : Z; pg_ResourceVersion : Z; pg_Spec : PreviewGroupSpec; pg_Status : PreviewGroupStatus }.
#[global] Instance PreviewGroup_eq_dec : EqDecision PreviewGroup.
Proof. solve_decision. Defined.
Definition pg_set_Annotations (x : gmap gostring gostring) (r : PreviewGroup) : PreviewGroup :=
  mkPreviewGroup (pg_Name r) (pg_Namespace r) (pg_UID r) (pg_Labels r) x (pg_Finalizers r) (pg_CreationTimestamp r) (pg_DeletionTimestamp r)
    (pg_Generation r) (pg_ResourceVersion r) (pg_Spec r) (pg_Status r).
Definition pg_set_Finalizers (x : list gostring) (r : PreviewGroup) : PreviewGroup :=
  mkPreviewGroup (pg_Name r) (pg_Namespace r) (pg_UID r) (pg_Labels r) (pg_Annotations r) x (pg_CreationTimestamp r) (pg_DeletionTimestamp r)
    (pg_Generation r) (pg_ResourceVersion r) (pg_Spec r) (pg_Status r).
Definition pg_set_ResourceVersion (x : Z) (r : PreviewGroup) : PreviewGroup :=
  mkPreviewGroup (pg_Name r) (pg_Namespace r) (pg_UID r) (pg_Labels r) (pg_Annotations r) (pg_Finalizers r)
    (pg_CreationTimestamp r) (pg_DeletionTimestamp r) (pg_Generation r) x (pg_Spec r) (pg_Status r).
Definition pg_set_Spec (x : PreviewGroupSpec) (r : PreviewGroup) : PreviewGroup :=
  mkPreviewGroup (pg_Name r) (pg_Namespace r) (pg_UID r) (pg_Labels r) (pg_Annotations r) (pg_Finalizers r)
    (pg_CreationTimestamp r) (pg_DeletionTimestamp r) (pg_Generation r) (pg_ResourceVersion r) x (pg_Status r).
Definition pg_set_Status (x : PreviewGroupStatus) (r : PreviewGroup) : PreviewGroup :=
  mkPreviewGroup (pg_Name r) (pg_Namespace r) (pg_UID r) (pg_Labels r) (pg_Annotations r) (pg_Finalizers r)
    (pg_CreationTimestamp r) (pg_DeletionTimestamp r) (pg_Generation r) (pg_ResourceVersion r) (pg_Spec r) x.

Definition PreviewGroupPhasePending : gostring := #"Pending".
Definition PreviewGroupPhaseDeploying : gostring := #"Deploying".
Definition PreviewGroupPhaseRunning : gostring := #"Running".
Definition PreviewGroupPhaseDegraded : gostring := #"Degraded".
Definition PreviewGroupPhaseFailed : gostring := #"Failed".
Definition PreviewGroupPhaseTerminating : gostring := #"Terminating".
Definition PreviewGroupPhaseAbandoned : gostring := #"Abandoned".
Definition ServiceModeImage : gostring := #"image".
Definition ServiceModeLocal : gostring := #"local".
Definition ServiceModeBaseline : gostring := #"baseline".
Definition ServiceProtocolHTTP : gostring := #"http".
Definition ServiceProtocolGRPC : gostring := #"grpc".

Definition no_group_routing : PreviewGroupRouting := mkGroupRouting [] [] [] [] [].
Definition no_group_lifecycle : PreviewGroupLifecycle := mkGroupLifecycle None false.
Definition no_group_spec : PreviewGroupSpec := mkGroupSpec no_source no_group_routing [] None None [] [].
Definition no_group_status : PreviewGroupStatus := mkGroupStatus [] 0 [] 0 None None [] 0 None [] [].
Definition new_group (ns name : gostring) : PreviewGroup :=
  mkPreviewGroup name ns [] ∅ ∅ [] time_zero None 0 0 no_group_spec no_group_status.
