(* ===== verification/WebhookTypes.v ===== *)
(** * Webhook requests and payloads

    The requests the handlers of [internal/webhook] are given, the payloads
    they decode ([github.go], [gitlab.go]) and the trace parents they resolve
    and record ([trace.go]). *)

From S2P Require Import Prelude GoStrings GoCrypto GoJSON.
Local Open Scope Z_scope.

(** [strings.ToUpper]: the tables of Unicode are an argument. *)
Class GoUpper := { unicode_to_upper : gostring -> gostring }.
Definition upper_byte (c : ascii) : ascii := if is_lower c then byte_of_Z (byteval c - 32) else c.
Definition ToUpper {V : GoUpper} (s : gostring) : gostring := if is_ascii_string s then map upper_byte s else unicode_to_upper s.
Definition ascii_upper : GoUpper := {| unicode_to_upper := fun s => s |}.

(** ** Requests *)
(** The first value of each header under its canonical name; the bytes of the
    body, and whether reading fails after them. *)
Record Request := mkRequest {
  rq_Method : gostring; rq_Header : gmap gostring gostring; rq_Body : gostring; rq_Broken : bool }.
(** [textproto.CanonicalMIMEHeaderKey] of a valid name. *)
Fixpoint canonical_go (upper : bool) (s : gostring) : gostring :=
  match s with
  | [] => []
  | c :: s => (if upper then upper_byte c else lower_byte c) :: canonical_go (bool_decide (c = "-"%char)) s
  end.
Definition CanonicalHeaderKey (s : gostring) : gostring := canonical_go true s.
Definition Header_Get (r : Request) (name : gostring) : gostring := default [] (rq_Header r !! CanonicalHeaderKey name).
(** [io.ReadAll(http.MaxBytesReader(w, r.Body, limit))] *)
Definition ReadAll (limit : Z) (r : Request) : option gostring :=
  if rq_Broken r || (limit <? Z.of_nat (length (rq_Body r))) then None else Some (rq_Body r).
Definition maxBody : Z := 5 * 2 ^ 20.

(** The status codes of the answers. *)
Definition StatusOK : Z := 200.
Definition StatusBadRequest : Z := 400.
Definition StatusUnauthorized : Z := 401.
Definition StatusMethodNotAllowed : Z := 405.
Definition StatusInternalServerError : Z := 500.

(** ** Pull requests of GitHub *)
Record GhHead := mkGhHead { hd_Ref : gostring; hd_SHA : gostring }.
Record GhBase := mkGhBase { ba_Ref : gostring }.
Record GhPull := mkGhPull { pl_Number : Z; pl_Head : GhHead; pl_Base : GhBase; pl_State : gostring }.
Record GhRepo := mkGhRepo { re_FullName : gostring }.
Record GitHubPRPayload := mkPRPayload { pp_Action : gostring; pp_PullRequest : GhPull; pp_Repository : GhRepo }.
Definition no_head : GhHead := mkGhHead [] [].
Definition no_pr_payload : GitHubPRPayload := mkPRPayload [] (mkGhPull 0 no_head (mkGhBase []) []) (mkGhRepo []).
Definition dec_head : decoder GhHead := dec_struct [
  fld #"ref" hd_Ref (fun x h => mkGhHead x (hd_SHA h)) dec_string;
  fld #"sha" hd_SHA (fun x h => mkGhHead (hd_Ref h) x) dec_string].
Definition dec_base : decoder GhBase := dec_struct [fld #"ref" ba_Ref (fun x _ => mkGhBase x) dec_string].
Definition dec_pull : decoder GhPull := dec_struct [
  fld #"number" pl_Number (fun x p => mkGhPull x (pl_Head p) (pl_Base p) (pl_State p)) dec_int;
  fld #"head" pl_Head (fun x p => mkGhPull (pl_Number p) x (pl_Base p) (pl_State p)) dec_head;
  fld #"base" pl_Base (fun x p => mkGhPull (pl_Number p) (pl_Head p) x (pl_State p)) dec_base;
  fld #"state" pl_State (fun x p => mkGhPull (pl_Number p) (pl_Head p) (pl_Base p) x) dec_string].
Definition dec_repo : decoder GhRepo := dec_struct [fld #"full_name" re_FullName (fun x _ => mkGhRepo x) dec_string].
Definition dec_pr_payload : decoder GitHubPRPayload := dec_struct [
  fld #"action" pp_Action (fun x p => mkPRPayload x (pp_PullRequest p) (pp_Repository p)) dec_string;
  fld #"pull_request" pp_PullRequest (fun x p => mkPRPayload (pp_Action p) x (pp_Repository p)) dec_pull;
  fld #"repository" pp_Repository (fun x p => mkPRPayload (pp_Action p) (pp_PullRequest p) x) dec_repo].

(** ** Comments of GitHub *)
Record GhLink := mkGhLink { lk_URL : gostring }.
Record GhIssue := mkGhIssue { iu_Number : Z; iu_PullRequest : option GhLink }.
Record GhRefOnly := mkGhRefOnly { ro_Ref : gostring }.
Record GhCommentPull := mkGhCommentPull { cp_Number : Z; cp_Head : GhRefOnly }.
Record GhComment := mkGhComment { co_Body : gostring; co_AuthorAssociation : gostring }.
Record GhCommentRepo := mkGhCommentRepo {
  cr_FullName : gostring; cr_CloneURL : gostring; cr_HTMLURL : gostring; cr_DefaultBranch : gostring }.
Record GitHubIssueCommentPayload := mkCommentPayload {
  cy_Action : gostring; cy_Issue : GhIssue; cy_PullRequest : GhCommentPull; cy_Comment : GhComment; cy_Repository : GhCommentRepo }.
Definition no_comment_payload : GitHubIssueCommentPayload :=
  mkCommentPayload [] (mkGhIssue 0 None) (mkGhCommentPull 0 (mkGhRefOnly [])) (mkGhComment [] []) (mkGhCommentRepo [] [] [] []).
Definition dec_link : decoder GhLink := dec_struct [fld #"url" lk_URL (fun x _ => mkGhLink x) dec_string].
Definition dec_issue : decoder GhIssue := dec_struct [
  fld #"number" iu_Number (fun x i => mkGhIssue x (iu_PullRequest i)) dec_int;
  fld #"pull_request" iu_PullRequest (fun x i => mkGhIssue (iu_Number i) x) (dec_pointer (mkGhLink []) dec_link)].
Definition dec_ref_only : decoder GhRefOnly := dec_struct [fld #"ref" ro_Ref (fun x _ => mkGhRefOnly x) dec_string].
Definition dec_comment_pull : decoder GhCommentPull := dec_struct [
  fld #"number" cp_Number (fun x p => mkGhCommentPull x (cp_Head p)) dec_int;
  fld #"head" cp_Head (fun x p => mkGhCommentPull (cp_Number p) x) dec_ref_only].
Definition dec_comment : decoder GhComment := dec_struct [
  fld #"body" co_Body (fun x c => mkGhComment x (co_AuthorAssociation c)) dec_string;
  fld #"author_association" co_AuthorAssociation (fun x c => mkGhComment (co_Body c) x) dec_string].
Definition dec_comment_repo : decoder GhCommentRepo := dec_struct [
  fld #"full_name" cr_FullName (fun x r => mkGhCommentRepo x (cr_CloneURL r) (cr_HTMLURL r) (cr_DefaultBranch r)) dec_string;
  fld #"clone_url" cr_CloneURL (fun x r => mkGhCommentRepo (cr_FullName r) x (cr_HTMLURL r) (cr_DefaultBranch r)) dec_string;
  fld #"html_url" cr_HTMLURL (fun x r => mkGhCommentRepo (cr_FullName r) (cr_CloneURL r) x (cr_DefaultBranch r)) dec_string;
  fld #"default_branch" cr_DefaultBranch (fun x r => mkGhCommentRepo (cr_FullName r) (cr_CloneURL r) (cr_HTMLURL r) x) dec_string].
Definition dec_comment_payload : decoder GitHubIssueCommentPayload := dec_struct [
  fld #"action" cy_Action (fun x p => mkCommentPayload x (cy_Issue p) (cy_PullRequest p) (cy_Comment p) (cy_Repository p)) dec_string;
  fld #"issue" cy_Issue (fun x p => mkCommentPayload (cy_Action p) x (cy_PullRequest p) (cy_Comment p) (cy_Repository p)) dec_issue;
  fld #"pull_request" cy_PullRequest (fun x p => mkCommentPayload (cy_Action p) (cy_Issue p) x (cy_Comment p) (cy_Repository p)) dec_comment_pull;
  fld #"comment" cy_Comment (fun x p => mkCommentPayload (cy_Action p) (cy_Issue p) (cy_PullRequest p) x (cy_Repository p)) dec_comment;
  fld #"repository" cy_Repository (fun x p => mkCommentPayload (cy_Action p) (cy_Issue p) (cy_PullRequest p) (cy_Comment p) x) dec_comment_repo].

(** ** Merge requests and notes of GitLab *)
Record GlCommit := mkGlCommit { gc_ID : gostring }.
Record GlMRAttributes := mkGlMR {
  mr_ID : Z; mr_IID : Z; mr_TargetBranch : gostring; mr_SourceBranch : gostring; mr_State : gostring; mr_Action : gostring;
  mr_LastCommit : GlCommit }.
Record GlProject := mkGlProject { gj_Name : gostring; gj_PathWithNamespace : gostring }.
Record GitLabMRPayload := mkMRPayload {
  my_ObjectKind : gostring; my_EventType : gostring; my_ObjectAttributes : GlMRAttributes; my_Project : GlProject }.
Definition no_mr_payload : GitLabMRPayload :=
  mkMRPayload [] [] (mkGlMR 0 0 [] [] [] [] (mkGlCommit [])) (mkGlProject [] []).
Definition dec_commit : decoder GlCommit := dec_struct [fld #"id" gc_ID (fun x _ => mkGlCommit x) dec_string].
Definition dec_mr_attributes : decoder GlMRAttributes := dec_struct [
  fld #"id" mr_ID (fun x a => mkGlMR x (mr_IID a) (mr_TargetBranch a) (mr_SourceBranch a) (mr_State a) (mr_Action a) (mr_LastCommit a)) dec_int;
  fld #"iid" mr_IID (fun x a => mkGlMR (mr_ID a) x (mr_TargetBranch a) (mr_SourceBranch a) (mr_State a) (mr_Action a) (mr_LastCommit a)) dec_int;
  fld #"target_branch" mr_TargetBranch (fun x a => mkGlMR (mr_ID a) (mr_IID a) x (mr_SourceBranch a) (mr_State a) (mr_Action a) (mr_LastCommit a)) dec_string;
  fld #"source_branch" mr_SourceBranch (fun x a => mkGlMR (mr_ID a) (mr_IID a) (mr_TargetBranch a) x (mr_State a) (mr_Action a) (mr_LastCommit a)) dec_string;
  fld #"state" mr_State (fun x a => mkGlMR (mr_ID a) (mr_IID a) (mr_TargetBranch a) (mr_SourceBranch a) x (mr_Action a) (mr_LastCommit a)) dec_string;
  fld #"action" mr_Action (fun x a => mkGlMR (mr_ID a) (mr_IID a) (mr_TargetBranch a) (mr_SourceBranch a) (mr_State a) x (mr_LastCommit a)) dec_string;
  fld #"last_commit" mr_LastCommit (fun x a => mkGlMR (mr_ID a) (mr_IID a) (mr_TargetBranch a) (mr_SourceBranch a) (mr_State a) (mr_Action a) x) dec_commit].
Definition dec_project : decoder GlProject := dec_struct [
  fld #"name" gj_Name (fun x p => mkGlProject x (gj_PathWithNamespace p)) dec_string;
  fld #"path_with_namespace" gj_PathWithNamespace (fun x p => mkGlProject (gj_Name p) x) dec_string].
Definition dec_mr_payload : decoder GitLabMRPayload := dec_struct [
  fld #"object_kind" my_ObjectKind (fun x p => mkMRPayload x (my_EventType p) (my_ObjectAttributes p) (my_Project p)) dec_string;
  fld #"event_type" my_EventType (fun x p => mkMRPayload (my_ObjectKind p) x (my_ObjectAttributes p) (my_Project p)) dec_string;
  fld #"object_attributes" my_ObjectAttributes (fun x p => mkMRPayload (my_ObjectKind p) (my_EventType p) x (my_Project p)) dec_mr_attributes;
  fld #"project" my_Project (fun x p => mkMRPayload (my_ObjectKind p) (my_EventType p) (my_ObjectAttributes p) x) dec_project].

Record GlUser := mkGlUser { us_ID : Z; us_Username : gostring }.
Record GlNoteAttributes := mkGlNote {
  na_IID : Z; na_SourceBranch : gostring; na_Note : gostring; na_NoteableType : gostring; na_AuthorAssociation : gostring }.
Record GlNoteMR := mkGlNoteMR { nm_IID : Z; nm_SourceBranch : gostring; nm_TargetBranch : gostring }.
Record GlNoteProject := mkGlNoteProject {
  nj_Name : gostring; nj_PathWithNamespace : gostring; nj_WebURL : gostring; nj_GitHTTPURL : gostring }.
Record GitLabNotePayload := mkNotePayload {
  ny_ObjectKind : gostring; ny_User : GlUser; ny_ObjectAttributes : GlNoteAttributes; ny_MergeRequest : GlNoteMR; ny_Project : GlNoteProject }.
Definition no_note_payload : GitLabNotePayload :=
  mkNotePayload [] (mkGlUser 0 []) (mkGlNote 0 [] [] [] []) (mkGlNoteMR 0 [] []) (mkGlNoteProject [] [] [] []).
Definition dec_user : decoder GlUser := dec_struct [
  fld #"id" us_ID (fun x u => mkGlUser x (us_Username u)) dec_int;
  fld #"username" us_Username (fun x u => mkGlUser (us_ID u) x) dec_string].
Definition dec_note_attributes : decoder GlNoteAttributes := dec_struct [
  fld #"iid" na_IID (fun x a => mkGlNote x (na_SourceBranch a) (na_Note a) (na_NoteableType a) (na_AuthorAssociation a)) dec_int;
  fld #"source_branch" na_SourceBranch (fun x a => mkGlNote (na_IID a) x (na_Note a) (na_NoteableType a) (na_AuthorAssociation a)) dec_string;
  fld #"note" na_Note (fun x a => mkGlNote (na_IID a) (na_SourceBranch a) x (na_NoteableType a) (na_AuthorAssociation a)) dec_string;
  fld #"noteable_type" na_NoteableType (fun x a => mkGlNote (na_IID a) (na_SourceBranch a) (na_Note a) x (na_AuthorAssociation a)) dec_string;
  fld #"author_association" na_AuthorAssociation (fun x a => mkGlNote (na_IID a) (na_SourceBranch a) (na_Note a) (na_NoteableType a) x) dec_string].
Definition dec_note_mr : decoder GlNoteMR := dec_struct [
  fld #"iid" nm_IID (fun x m => mkGlNoteMR x (nm_SourceBranch m) (nm_TargetBranch m)) dec_int;
  fld #"source_branch" nm_SourceBranch (fun x m => mkGlNoteMR (nm_IID m) x (nm_TargetBranch m)) dec_string;
  fld #"target_branch" nm_TargetBranch (fun x m => mkGlNoteMR (nm_IID m) (nm_SourceBranch m) x) dec_string].
Definition dec_note_project : decoder GlNoteProject := dec_struct [
  fld #"name" nj_Name (fun x p => mkGlNoteProject x (nj_PathWithNamespace p) (nj_WebURL p) (nj_GitHTTPURL p)) dec_string;
  fld #"path_with_namespace" nj_PathWithNamespace (fun x p => mkGlNoteProject (nj_Name p) x (nj_WebURL p) (nj_GitHTTPURL p)) dec_string;
  fld #"web_url" nj_WebURL (fun x p => mkGlNoteProject (nj_Name p) (nj_PathWithNamespace p) x (nj_GitHTTPURL p)) dec_string;
  fld #"git_http_url" nj_GitHTTPURL (fun x p => mkGlNoteProject (nj_Name p) (nj_PathWithNamespace p) (nj_WebURL p) x) dec_string].
Definition dec_note_payload : decoder GitLabNotePayload := dec_struct [
  fld #"object_kind" ny_ObjectKind (fun x p => mkNotePayload x (ny_User p) (ny_ObjectAttributes p) (ny_MergeRequest p) (ny_Project p)) dec_string;
  fld #"user" ny_User (fun x p => mkNotePayload (ny_ObjectKind p) x (ny_ObjectAttributes p) (ny_MergeRequest p) (ny_Project p)) dec_user;
  fld #"object_attributes" ny_ObjectAttributes (fun x p => mkNotePayload (ny_ObjectKind p) (ny_User p) x (ny_MergeRequest p) (ny_Project p)) dec_note_attributes;
  fld #"merge_request" ny_MergeRequest (fun x p => mkNotePayload (ny_ObjectKind p) (ny_User p) (ny_ObjectAttributes p) x (ny_Project p)) dec_note_mr;
  fld #"project" ny_Project (fun x p => mkNotePayload (ny_ObjectKind p) (ny_User p) (ny_ObjectAttributes p) (ny_MergeRequest p) x) dec_note_project].

(** ** Trace parents *)
Definition TraceparentAnnotation : gostring := #"divergedev.com/traceparent".
(** What OpenTelemetry says of a text in lower case, the trace parent it
    writes for the span of the request, empty without a valid one, and what
    [rand.Read] leaves in a buffer of that length at each draw, with its
    error. *)
Record Tracing := mkTracing {
  tr_valid : gostring -> bool; tr_span : gostring; tr_read : nat -> nat -> gostring * bool }.
Section Trace.
Context {U : GoUnicode} (tr : Tracing).
Definition isAllZero (b : gostring) : bool := forallb (fun c => byteval c =? 0) b.
(** [id[n - 1] = 1] *)
Definition set_last (b : gostring) : gostring := take (length b - 1) b ++ [byte_of_Z 1].
Definition random_id (draw n : nat) : gostring :=
  let '(b, failed) := tr_read tr draw n in if failed || isAllZero b then set_last b else b.
Definition generateTraceparent (draw : nat) : gostring :=
  #"00-" ++ hex_encode (random_id draw 16) ++ #"-" ++ hex_encode (random_id draw 8) ++ #"-01".
Definition isValidTraceparent (tp : gostring) : bool := tr_valid tr (ToLower (TrimSpace tp)).
Definition formatTraceparentFromContext : gostring := TrimSpace (tr_span tr).
Fixpoint first_valid (r : Request) (headers : list gostring) : option gostring :=
  match headers with
  | [] => None
  | name :: headers =>
      let tp := TrimSpace (Header_Get r name) in
      if negb (str_eqb tp []) && isValidTraceparent tp then Some (ToLower tp) else first_valid r headers
  end.
Definition span_or_generate (draw : nat) : gostring :=
  if str_eqb formatTraceparentFromContext [] then generateTraceparent draw else formatTraceparentFromContext.
Definition ResolveTraceparent (r : Request) : gostring :=
  match first_valid r [ #"traceparent"; #"X-Traceparent"] with Some tp => tp | None => span_or_generate 0 end.
(** The text a context carries, [WithTraceparent] having trimmed it. *)
Definition WithTraceparent (tp : gostring) : gostring := TrimSpace tp.
Definition TraceparentFromContext (carried : gostring) : gostring :=
  if str_eqb (TrimSpace carried) [] then span_or_generate 1 else TrimSpace carried.
(** The annotations of the object. *)
Definition SetTraceparentAnnotation (tp : gostring) (annotations : gmap gostring gostring) : gmap gostring gostring :=
  if str_eqb (TrimSpace tp) [] then annotations else <[TraceparentAnnotation := TrimSpace tp]> annotations.
End Trace.
Definition safeSHA (sha : gostring) (maxLen : Z) : gostring :=
  if maxLen <? Z.of_nat (length sha) then take (Z.to_nat maxLen) sha else sha.
