(* ===== verification/Conditions.v ===== *)
(** * Status conditions

    [meta.SetStatusCondition], [RemoveStatusCondition] and
    [FindStatusCondition] of apimachinery are third party: a class, with the
    documented behaviour as laws, and an instance. *)

From S2P Require Import Prelude GoStrings GoTime AgentTask.

Class ConditionOps := {
  SetStatusCondition : list Condition -> Condition -> list Condition;
  RemoveStatusCondition : list Condition -> gostring -> list Condition;
  FindStatusCondition : list Condition -> gostring -> option Condition }.
Definition at_time (t : Time) (c : Condition) : Condition :=
  mkCondition (cond_Type c) (cond_Status c) (cond_Reason c) (cond_Message c) (cond_ObservedGeneration c) t.
(** Setting updates the condition of that type or appends it, and keeps the
    others; the transition time is the library's. *)
Class ConditionLaws {O : ConditionOps} := {
  Set_has : forall l c, exists t, at_time t c ∈ SetStatusCondition l c;
  Set_in : forall l c c', c' ∈ SetStatusCondition l c ->
    (c' ∈ l /\ (NoDup (map cond_Type l) -> cond_Type c' <> cond_Type c)) \/ exists t, c' = at_time t c;
  Set_keeps : forall l c c', c' ∈ l -> cond_Type c' <> cond_Type c -> c' ∈ SetStatusCondition l c;
  Set_nodup : forall l c, NoDup (map cond_Type l) -> NoDup (map cond_Type (SetStatusCondition l c));
  Remove_in : forall l ty c, c ∈ RemoveStatusCondition l ty <-> c ∈ l /\ cond_Type c <> ty;
  Find_Some : forall l ty c, FindStatusCondition l ty = Some c -> c ∈ l /\ cond_Type c = ty;
  Find_None : forall l ty c, FindStatusCondition l ty = None -> c ∈ l -> cond_Type c <> ty }.

Definition ConditionTrue : gostring := #"True".
Definition ConditionFalse : gostring := #"False".
Definition IsStatusConditionTrue {O : ConditionOps} (l : list Condition) (ty : gostring) : bool :=
  match FindStatusCondition l ty with Some c => str_eqb (cond_Status c) ConditionTrue | None => false end.

(** ** An instance *)
Module SimpleConditions.
Definition merged (now : Time) (old c : Condition) : Condition :=
  at_time (if decide (cond_Status old = cond_Status c) then cond_LastTransitionTime old else now) c.
Fixpoint set (now : Time) (l : list Condition) (c : Condition) : list Condition :=
  match l with
  | [] => [at_time now c]
  | old :: l => if decide (cond_Type old = cond_Type c) then merged now old c :: l else old :: set now l c
  end.
Definition ops (now : Time) : ConditionOps := {|
  SetStatusCondition := set now;
  RemoveStatusCondition l ty := filter (fun c => cond_Type c <> ty) l;
  FindStatusCondition l ty := List.find (fun c => bool_decide (cond_Type c = ty)) l |}.
Lemma set_types now l c : map cond_Type (set now l c) = if decide (cond_Type c ∈ map cond_Type l) then map cond_Type l else map cond_Type l ++ [cond_Type c].
Proof.
  induction l as [|old l IH]; [done|]. cbn [set map]. destruct (decide (cond_Type old = cond_Type c)) as [E|Hne].
  - rewrite decide_True by (rewrite E; by left). cbn. by rewrite E.
  - cbn [map]. rewrite IH. repeat case_decide; [done|exfalso; set_solver|exfalso; set_solver|done].
Qed.
#[global] Instance laws now : @ConditionLaws (ops now).
Proof.
  split; cbn.
  - intros l c. induction l as [|old l [t IH]]; cbn; [exists now; by left|]. case_decide; [eexists; by left|]. exists t. by right.
  - intros l c c'. induction l as [|old l IH]; cbn; [intros ->%list_elem_of_singleton; right; by exists now|].
    case_decide as E; intros [->|Hin]%elem_of_cons.
    + right. by eexists.
    + left. split; [by right|]. intros [Hn _]%NoDup_cons H. apply Hn. rewrite E, <- H. apply list_elem_of_fmap. by exists c'.
    + left. split; [by left|done].
    + destruct (IH Hin) as [[H1 H2]|?]; [left|by right]. split; [by right|]. intros [_ Hn]%NoDup_cons. by apply H2.
  - intros l c c' Hin Hne. induction l as [|old l IH]; cbn; [by apply not_elem_of_nil in Hin|].
    apply elem_of_cons in Hin as [->|Hin]; [by rewrite decide_False; [left|]|]. case_decide; right; auto.
  - intros l c Hn. rewrite set_types. case_decide as Hc; [done|]. apply NoDup_app. split; [done|]. split; [|apply NoDup_singleton].
    intros ty Hin ->%list_elem_of_singleton. done.
  - intros l ty c. rewrite list_elem_of_filter. tauto.
  - intros l ty c [Hin Ht]%find_some. split; [by apply list_elem_of_In|]. by apply bool_decide_eq_true in Ht.
  - intros l ty c Hf Hin. apply list_elem_of_In in Hin. apply (find_none _ _ Hf) in Hin. by apply bool_decide_eq_false in Hin.
Qed.
End SimpleConditions.
