(* ===== verification/Resources.v ===== *)
(** * The resources of the program on the API server

    The instances of [Resource] for environments, preview groups and the
    objects the controllers create around them, and the merge patches of their
    statuses. *)

From S2P Require Import Prelude GoStrings GoTime TokenStore KubeApi AgentTask ResourceNames EnvTypes GroupTypes ObjectApi.
Local Open Scope Z_scope.

(** ** Environments *)
#[global] Instance environment_resource : Resource Environment := {
  r_key e := (ev_Namespace e, ev_Name e);
  r_labels := ev_Labels;
  r_finalizers := ev_Finalizers;
  r_deletion := ev_DeletionTimestamp;
  r_version := ev_ResourceVersion;
  r_uid := ev_UID;
  with_version := ev_set_ResourceVersion;
  r_create o uid now v :=
    mkEnvironment (ev_Name o) (ev_Namespace o) uid (ev_Labels o) (ev_Annotations o) (ev_Finalizers o) (ev_OwnerReferences o)
      now None 1 v (ev_Spec o) no_env_status;
  r_update cur o g v :=
    mkEnvironment (ev_Name cur) (ev_Namespace cur) (ev_UID cur) (ev_Labels o) (ev_Annotations o) (ev_Finalizers o)
      (ev_OwnerReferences o) (ev_CreationTimestamp cur) (ev_DeletionTimestamp cur) g v (ev_Spec o) (ev_Status cur);
  r_mark o now v :=
    mkEnvironment (ev_Name o) (ev_Namespace o) (ev_UID o) (ev_Labels o) (ev_Annotations o) (ev_Finalizers o)
      (ev_OwnerReferences o) (ev_CreationTimestamp o) (Some (default now (ev_DeletionTimestamp o))) (ev_Generation o) v
      (ev_Spec o) (ev_Status o) }.
#[global] Instance environment_laws : ResourceLaws Environment.
Proof. by split. Qed.

(** [client.MergeFrom(base)] on the status: the fields that differ from the
    base, maps and structs by their own fields. *)
Definition merge_test_status (base new cur : option TestStatus) : option TestStatus :=
  match base, new, cur with
  | Some b, Some n, Some c =>
      let m {A} `{EqDecision A} (f : TestStatus -> A) := merge_field (f b) (f n) (f c) in
      Some (mkTestStatus (m ts_State) (m ts_Summary) (m ts_URL) (m ts_RunID) (m ts_StartedAt) (m ts_CompletedAt))
  | _, _, _ => merge_field base new cur
  end.
Definition merge_env_status (base new cur : EnvironmentStatus) : EnvironmentStatus :=
  let m {A} `{EqDecision A} (f : EnvironmentStatus -> A) := merge_field (f base) (f new) (f cur) in
  let mm (f : EnvironmentStatus -> gmap gostring gostring) := merge_map (f base) (f new) (f cur) in
  mkEnvStatus (m et_Phase) (m et_URL) (m et_Services) (m et_DatabaseStatus) (m et_DatabaseProvider) (m et_CreatedAt)
    (m et_ExpiresAt) (m et_ObservedGeneration) (m et_Conditions) (m et_CommitSHA) (m et_CommentID) (m et_CommitStatusURL)
    (merge_test_status (et_TestStatus base) (et_TestStatus new) (et_TestStatus cur)) (mm et_AsyncEnvVars)
    (m et_MigrationStatus) (m et_MigrationMessage) (m et_PostDeployStatus) (m et_FeatureConfigMap) (mm et_FeatureEnvVars).
Lemma merge_env_status_self base new : merge_env_status base new base = new.
Proof.
  unfold merge_env_status. rewrite !merge_field_self, !merge_map_self.
  assert (merge_test_status (et_TestStatus base) (et_TestStatus new) (et_TestStatus base) = et_TestStatus new) as ->.
  { destruct (et_TestStatus base) as [b|], (et_TestStatus new) as [n|]; cbn; rewrite ?merge_field_self; try done. by destruct n. }
  by destruct new.
Qed.

(** ** Preview groups, which have no namespace *)
#[global] Instance group_resource : Resource PreviewGroup := {
  r_key g := (pg_Namespace g, pg_Name g);
  r_labels := pg_Labels;
  r_finalizers := pg_Finalizers;
  r_deletion := pg_DeletionTimestamp;
  r_version := pg_ResourceVersion;
  r_uid := pg_UID;
  with_version := pg_set_ResourceVersion;
  r_create o uid now v :=
    mkPreviewGroup (pg_Name o) (pg_Namespace o) uid (pg_Labels o) (pg_Annotations o) (pg_Finalizers o) now None 1 v (pg_Spec o)
      no_group_status;
  r_update cur o g v :=
    mkPreviewGroup (pg_Name cur) (pg_Namespace cur) (pg_UID cur) (pg_Labels o) (pg_Annotations o) (pg_Finalizers o)
      (pg_CreationTimestamp cur) (pg_DeletionTimestamp cur) g v (pg_Spec o) (pg_Status cur);
  r_mark o now v :=
    mkPreviewGroup (pg_Name o) (pg_Namespace o) (pg_UID o) (pg_Labels o) (pg_Annotations o) (pg_Finalizers o)
      (pg_CreationTimestamp o) (Some (default now (pg_DeletionTimestamp o))) (pg_Generation o) v (pg_Spec o) (pg_Status o) }.
#[global] Instance group_laws : ResourceLaws PreviewGroup.
Proof. by split. Qed.
Definition merge_group_status (base new cur : PreviewGroupStatus) : PreviewGroupStatus :=
  let m {A} `{EqDecision A} (f : PreviewGroupStatus -> A) := merge_field (f base) (f new) (f cur) in
  mkGroupStatus (m gt_Phase) (m gt_ServiceCount) (m gt_Services) (m gt_ObservedGeneration) (m gt_CreatedAt) (m gt_ExpiresAt)
    (m gt_Conditions) (m gt_CommentID) (m gt_LeaseRenewedAt) (m gt_DiscoveredIngressPaths) (m gt_GraphSource).
Lemma merge_group_status_self base new : merge_group_status base new base = new.
Proof. unfold merge_group_status. rewrite !merge_field_self. by destruct new. Qed.

(** ** Other objects: their metadata, what is asked for and what is reported *)
Class NoStatus (St : Type) := no_status : St.
#[global] Instance unit_status : NoStatus unit := tt.
#[global] Instance list_status {A} : NoStatus (list A) := [].
Record Object (Sp St : Type) := mkObject {
  o_Name : gostring; o_Namespace : gostring; o_UID : gostring; o_Labels : labels; o_Annotations : gmap gostring gostring;
  o_Finalizers : list gostring; o_Owners : list OwnerReference; o_Deletion : option Time; o_Version : Z;
  o_Spec : Sp; o_Status : St }.
Arguments mkObject {Sp St}. Arguments o_Name {Sp St}. Arguments o_Namespace {Sp St}. Arguments o_UID {Sp St}.
Arguments o_Labels {Sp St}. Arguments o_Annotations {Sp St}. Arguments o_Finalizers {Sp St}. Arguments o_Owners {Sp St}.
Arguments o_Deletion {Sp St}. Arguments o_Version {Sp St}. Arguments o_Spec {Sp St}. Arguments o_Status {Sp St}.
#[global] Instance Object_eq_dec {Sp St : Type} `{EqDecision Sp, EqDecision St} : EqDecision (Object Sp St).
Proof. solve_decision. Defined.
(** A new object. *)
Definition new_object {Sp St : Type} `{NoStatus St} (ns name : gostring) (ls : labels) (owners : list OwnerReference) (sp : Sp) : Object Sp St :=
  mkObject name ns [] ls ∅ [] owners None 0 sp no_status.
Definition o_set_Spec {Sp St : Type} (sp : Sp) (o : Object Sp St) : Object Sp St :=
  mkObject (o_Name o) (o_Namespace o) (o_UID o) (o_Labels o) (o_Annotations o) (o_Finalizers o) (o_Owners o) (o_Deletion o)
    (o_Version o) sp (o_Status o).
Definition o_set_Labels {Sp St : Type} (ls : labels) (o : Object Sp St) : Object Sp St :=
  mkObject (o_Name o) (o_Namespace o) (o_UID o) ls (o_Annotations o) (o_Finalizers o) (o_Owners o) (o_Deletion o)
    (o_Version o) (o_Spec o) (o_Status o).
Definition o_set_Owners {Sp St : Type} (owners : list OwnerReference) (o : Object Sp St) : Object Sp St :=
  mkObject (o_Name o) (o_Namespace o) (o_UID o) (o_Labels o) (o_Annotations o) (o_Finalizers o) owners (o_Deletion o)
    (o_Version o) (o_Spec o) (o_Status o).
Definition o_set_Annotations {Sp St : Type} (a : gmap gostring gostring) (o : Object Sp St) : Object Sp St :=
  mkObject (o_Name o) (o_Namespace o) (o_UID o) (o_Labels o) a (o_Finalizers o) (o_Owners o) (o_Deletion o)
    (o_Version o) (o_Spec o) (o_Status o).
#[global] Instance object_resource {Sp St : Type} `{NoStatus St} : Resource (Object Sp St) := {
  r_key o := (o_Namespace o, o_Name o);
  r_labels := o_Labels;
  r_finalizers := o_Finalizers;
  r_deletion := o_Deletion;
  r_version := o_Version;
  r_uid := o_UID;
  with_version v o := mkObject (o_Name o) (o_Namespace o) (o_UID o) (o_Labels o) (o_Annotations o) (o_Finalizers o) (o_Owners o)
    (o_Deletion o) v (o_Spec o) (o_Status o);
  r_create o uid now v := mkObject (o_Name o) (o_Namespace o) uid (o_Labels o) (o_Annotations o) (o_Finalizers o) (o_Owners o)
    None v (o_Spec o) no_status;
  r_update cur o g v := mkObject (o_Name cur) (o_Namespace cur) (o_UID cur) (o_Labels o) (o_Annotations o) (o_Finalizers o)
    (o_Owners o) (o_Deletion cur) v (o_Spec o) (o_Status cur);
  r_mark o now v := mkObject (o_Name o) (o_Namespace o) (o_UID o) (o_Labels o) (o_Annotations o) (o_Finalizers o) (o_Owners o)
    (Some (default now (o_Deletion o))) v (o_Spec o) (o_Status o) }.
#[global] Instance object_laws {Sp St : Type} `{NoStatus St} : ResourceLaws (Object Sp St).
Proof. by split. Qed.
(** The data of a Secret as the server keeps it: [StringData] is only written. *)
Record SecretSpec := mkSecret { sec_Type : gostring; sec_Data : gmap gostring gostring }.
Record ConfigMapSpec := mkConfigMap { cm_Data : gmap gostring gostring; cm_BinaryData : gmap gostring gostring }.
#[global] Instance SecretSpec_eq_dec : EqDecision SecretSpec.
Proof. solve_decision. Defined.
#[global] Instance ConfigMapSpec_eq_dec : EqDecision ConfigMapSpec.
Proof. solve_decision. Defined.
Abbreviation Secret := (Object SecretSpec unit).
Abbreviation ConfigMap := (Object ConfigMapSpec unit).
Definition text_data (m : gmap gostring gostring) : ConfigMapSpec := mkConfigMap m ∅.
