(* ===== verification/ResourceMessages.v ===== *)
(** * Messages of environments and preview groups: [internal/server/mapper.go]

    The conversions between the custom resources and the messages of the API,
    which go through JSON.  The message types are generated and their JSON is
    protojson's; the resources are written with the JSON of their own types and
    of apimachinery's: [Codec] has the four calls and what the program reads
    and assigns of a message.  A resource version is a number, the empty one
    zero; nil and empty maps are one. *)

From S2P Require Import Prelude GoStrings GoFloat GoTime GoDuration AgentTask ResourceNames EnvTypes GroupTypes ObjectApi Resources.
Local Open Scope Z_scope.

(** What both sides have besides the specification and the status. *)
Record Meta := mkMeta {
  mt_Name : gostring; mt_Namespace : gostring; mt_Labels : gmap gostring gostring; mt_Annotations : gmap gostring gostring;
  mt_ResourceVersion : Z; mt_CreatedAt : option Time }.

(** A resource [Ob], its message [M] and the documents [Doc] between them. *)
Class Codec (Ob M Doc : Type) := {
  json_Marshal : Ob -> option Doc;
  json_Unmarshal : Doc -> option Ob;
  protojson_Marshal : M -> option Doc;
  (** with [DiscardUnknown] *)
  protojson_Unmarshal : Doc -> option M;
  msg_meta : M -> Meta;
  msg_set_meta : Meta -> M -> M }.
(** [proto.Spec.Lifecycle.Ttl = durationpb.New(ttl)], unless the lifecycle is nil. *)
Class EnvMessage (M : Type) := { msg_set_Ttl : Z -> M -> M }.
(** The namespaces of [GetSpec().GetServices()]; [None] is the nil spec. *)
Class GroupMessage (M : Type) := { msg_service_namespaces : M -> option (list gostring) }.
(** apimachinery's validation of label and annotation names and label values. *)
Class LabelSyntax := { IsQualifiedName : gostring -> bool; IsValidLabelValue : gostring -> bool }.

(** The metadata of the resources. *)
Class Crd (Ob : Type) := { crd_meta : Ob -> Meta; crd_set_meta : Meta -> Ob -> Ob }.
#[global] Instance environment_crd : Crd Environment := {
  crd_meta e := mkMeta (ev_Name e) (ev_Namespace e) (ev_Labels e) (ev_Annotations e) (ev_ResourceVersion e)
    (Some (ev_CreationTimestamp e));
  crd_set_meta m e := mkEnvironment (mt_Name m) (mt_Namespace m) (ev_UID e) (mt_Labels m) (mt_Annotations m) (ev_Finalizers e)
    (ev_OwnerReferences e) (default (ev_CreationTimestamp e) (mt_CreatedAt m)) (ev_DeletionTimestamp e) (ev_Generation e)
    (mt_ResourceVersion m) (ev_Spec e) (ev_Status e) }.
#[global] Instance group_crd : Crd PreviewGroup := {
  crd_meta g := mkMeta (pg_Name g) (pg_Namespace g) (pg_Labels g) (pg_Annotations g) (pg_ResourceVersion g)
    (Some (pg_CreationTimestamp g));
  crd_set_meta m g := mkPreviewGroup (mt_Name m) (mt_Namespace m) (pg_UID g) (mt_Labels m) (mt_Annotations m) (pg_Finalizers g)
    (default (pg_CreationTimestamp g) (mt_CreatedAt m)) (pg_DeletionTimestamp g) (pg_Generation g) (mt_ResourceVersion m)
    (pg_Spec g) (pg_Status g) }.

Section Mapper.
Context {Ob M Doc : Type} `{Codec Ob M Doc} `{Crd Ob} {LS : LabelSyntax}.

(** The assignments after the JSON: a resource that was never created has no
    creation time. *)
Definition message_of (crd : Ob) (proto : M) : M :=
  let m := crd_meta crd in
  msg_set_meta
    (mkMeta (mt_Name m) (mt_Namespace m) (mt_Labels m) (mt_Annotations m) (mt_ResourceVersion m)
       (match mt_CreatedAt m with
        | Some t => if IsZero t then mt_CreatedAt (msg_meta proto) else Some t
        | None => mt_CreatedAt (msg_meta proto)
        end)) proto.
Definition valid_labels (labels annotations : gmap gostring gostring) : bool :=
  bool_decide (map_Forall (fun k v => IsQualifiedName k = true /\ IsValidLabelValue v = true) labels) &&
  bool_decide (map_Forall (fun k _ => IsQualifiedName k = true) annotations).
Definition crd_of (proto : M) : option Ob :=
  b ← protojson_Marshal proto;
  crd ← json_Unmarshal b;
  let m := msg_meta proto in
  if valid_labels (mt_Labels m) (mt_Annotations m) then Some (crd_set_meta m crd) else None.
Definition to_message (crd : Ob) : option M := b ← json_Marshal crd; protojson_Unmarshal b.
End Mapper.

Section Conversions.
Context {EM EDoc GM GDoc : Type} {EC : Codec Environment EM EDoc} {EX : EnvMessage EM} {GC : Codec PreviewGroup GM GDoc}.
Context {LS : LabelSyntax}.
Definition without_TTL (crd : Environment) : Environment :=
  ev_set_Spec (es_set_Lifecycle (lc_set_TTL None (es_Lifecycle (ev_Spec crd))) (ev_Spec crd)) crd.
Definition CRDEnvToProto (crd : Environment) : option EM :=
  proto ← to_message (without_TTL crd);
  Some (message_of crd (match lc_TTL (es_Lifecycle (ev_Spec crd)) with Some ttl => msg_set_Ttl ttl proto | None => proto end)).
Definition ProtoEnvToCRD (proto : EM) : option Environment := crd_of proto.
Definition CRDPgToProto (crd : PreviewGroup) : option GM := proto ← to_message crd; Some (message_of crd proto).
Definition ProtoPgToCRD (proto : GM) : option PreviewGroup := crd_of proto.
End Conversions.

(** ** Laws *)
(** What is assigned to a message is read back. *)
Class CodecLaws (Ob M Doc : Type) {C : Codec Ob M Doc} : Prop := {
  msg_meta_set : forall m p, msg_meta (msg_set_meta m p) = m }.
(** The services of a group message and of its resource have the same
    namespaces. *)
Class GroupCodecLaws (M Doc : Type) {C : Codec PreviewGroup M Doc} {G : GroupMessage M} : Prop := {
  services_kept : forall p b g, protojson_Marshal p = Some b -> json_Unmarshal b = Some g ->
    map gs_Namespace (gp_Services (pg_Spec g)) = default [] (msg_service_namespaces p) }.
(** The text of a [google.protobuf.Duration] is a sign, digits with a fraction
    and the letter s; apimachinery writes a duration as its [String]. *)
Definition duration_char (c : ascii) : Prop := is_digit c = true \/ c ∈ #"+-.s".
#[global] Instance duration_char_dec c : Decision (duration_char c).
Proof. unfold duration_char. apply _. Defined.
Class GroupDurations (M Doc : Type) {C : Codec PreviewGroup M Doc} : Prop := {
  group_ttl_text : forall g l ttl b p, gp_Lifecycle (pg_Spec g) = Some l -> gl_TTL l = Some ttl ->
    json_Marshal g = Some b -> protojson_Unmarshal b = Some p -> Forall duration_char (DurationString ttl) }.
Class EnvDurations (M Doc : Type) {C : Codec Environment M Doc} : Prop := {
  env_timeout_text : forall e t d b p, es_Testing (ev_Spec e) = Some t -> tt_Timeout t = Some d ->
    json_Marshal e = Some b -> protojson_Unmarshal b = Some p -> Forall duration_char (DurationString d) }.

(** ** Durations of a minute and more are not such texts *)
Lemma frac_digits_value prec v print acc : snd (fst (frac_digits prec v print acc)) = v / 10 ^ Z.of_nat prec.
Proof.
  revert v print acc. induction prec as [|prec IH]; intros v print acc; cbn [frac_digits fst snd]; [by rewrite Z.div_1_r|].
  rewrite IH, Z.div_div by (try apply Z.pow_pos_nonneg; lia). f_equal. rewrite Nat2Z.inj_succ, Z.pow_succ_r; lia.
Qed.
Lemma minutes_in_text d : Minute <= Z.abs d -> "m"%char ∈ DurationString d.
Proof.
  intros Hd. unfold DurationString. cbv zeta. rewrite (proj2 (Z.ltb_ge (Z.abs d) (10 ^ 9))) by (unfold Minute, Second in Hd; lia).
  unfold fmtFrac. pose proof (frac_digits_value 9 (Z.abs d) false []) as Hv. destruct (frac_digits 9 _ false []) as [[ds secs] print].
  cbn [fst snd] in Hv. subst secs. set (secs := Z.abs d / _).
  assert (0 < secs / 60) as Hm.
  { unfold secs. apply Z.div_str_pos. split; [lia|]. apply Z.div_le_lower_bound; [done|]. unfold Minute, Second in Hd. lia. }
  rewrite (proj2 (Z.ltb_lt _ _) Hm).
  assert ("m"%char ∈ #"m") as Hin by by left.
  destruct (0 <? _); destruct (d <? 0); rewrite !elem_of_app; auto 8.
Qed.
Lemma minutes_not_seconds d : Minute <= Z.abs d -> ~ Forall duration_char (DurationString d).
Proof.
  intros Hd%minutes_in_text Hall. rewrite Forall_forall in Hall. destruct (Hall _ Hd) as [?|Hin]; [done|]. revert Hin.
  apply (bool_decide_unpack _). vm_compute. done.
Qed.

Section Facts.
Context {EM EDoc GM GDoc : Type} {EC : Codec Environment EM EDoc} {EX : EnvMessage EM} {GC : Codec PreviewGroup GM GDoc}.
Context {GX : GroupMessage GM} {LS : LabelSyntax}.

(** a preview group whose time to live is a minute or more cannot be
    converted to its message: the JSON of the resource has the duration in
    minutes, which a message does not accept; environments are converted with
    their time to live taken out first, and what they cannot have is a test
    timeout of a minute or more. *)
Theorem long_durations_not_converted {GD : GroupDurations GM GDoc} {ED : EnvDurations EM EDoc} :
  (forall g l ttl, gp_Lifecycle (pg_Spec g) = Some l -> gl_TTL l = Some ttl -> Minute <= ttl -> CRDPgToProto g = None) /\
  (forall e t d, es_Testing (ev_Spec e) = Some t -> tt_Timeout t = Some d -> Minute <= d -> CRDEnvToProto e = None).
Proof.
  split.
  - intros g l ttl Hl Ht Hm. unfold CRDPgToProto, to_message. destruct (json_Marshal g) as [b|] eqn:Eb; [|done]. cbn.
    destruct (protojson_Unmarshal b) as [p|] eqn:Ep; [|done]. exfalso.
    apply (minutes_not_seconds ttl); [lia|]. by eapply group_ttl_text.
  - intros e t d Ht Hd Hm. unfold CRDEnvToProto, to_message. destruct (json_Marshal (without_TTL e)) as [b|] eqn:Eb; [|done]. cbn.
    destruct (protojson_Unmarshal b) as [p|] eqn:Ep; [|done]. exfalso.
    apply (minutes_not_seconds d); [lia|]. by eapply (env_timeout_text (without_TTL e)).
Qed.
(** What a conversion keeps. *)
Lemma message_of_meta {Ob M Doc} `{CodecLaws Ob M Doc} `{!Crd Ob} crd (p : M) :
  let m := msg_meta (message_of crd p) in
  mt_Name m = mt_Name (crd_meta crd) /\ mt_Namespace m = mt_Namespace (crd_meta crd) /\
  mt_ResourceVersion m = mt_ResourceVersion (crd_meta crd) /\ mt_Labels m = mt_Labels (crd_meta crd).
Proof. cbn. unfold message_of. by rewrite msg_meta_set. Qed.
Lemma crd_of_meta {Ob M Doc} `{Codec Ob M Doc} `{Crd Ob} (p : M) (o : Ob) : crd_of p = Some o ->
  exists b o0, protojson_Marshal p = Some b /\ json_Unmarshal b = Some o0 /\ o = crd_set_meta (msg_meta p) o0.
Proof.
  unfold crd_of. destruct (protojson_Marshal p) as [b|] eqn:Eb; [|done]. cbn. destruct (json_Unmarshal b) as [o0|] eqn:Eo; [|done]. cbn.
  destruct (valid_labels _ _); [|done]. intros [= <-]. eauto.
Qed.
Lemma crd_services {GL : GroupCodecLaws GM GDoc} (p : GM) g : ProtoPgToCRD p = Some g ->
  map gs_Namespace (gp_Services (pg_Spec g)) = default [] (msg_service_namespaces p).
Proof. intros (b & g0 & Hb & Hg & ->)%crd_of_meta. exact (services_kept _ _ _ Hb Hg). Qed.
End Facts.
