(* ===== verification/HookJobs.v ===== *)
(** * Hook jobs: [internal/controller/hook_runner.go], [migration_runner.go],
    [postdeploy_runner.go], [atlas_runner.go], [setup_sql_runner.go]

    Jobs that migrate the database of a preview or run after its deployment:
    what is created, under which name, and what their state means to the
    controllers.  [api_text] is the text of the client's errors; Secrets,
    ConfigMaps, Jobs and the resources of the Atlas operator are objects on
    the API server. *)

From S2P Require Import Prelude EarlyReturn GoStrings GoCrypto GoTime TokenStore KubeApi AgentTask ResourceNames EnvTypes GroupTypes.
From S2P Require Import ObjectApi Resources.
Local Open Scope Z_scope.

Definition labelHookType : gostring := #"divergedev.com/hook-type".
Definition labelEnvironment : gostring := #"divergedev.com/environment".
Definition hookTypeMigration : gostring := #"migration".
Definition hookTypePostDeploy : gostring := #"postdeploy".
Definition hookTypeSetupSQL : gostring := #"setup-sql".
Definition defaultMigrationTimeout : Z := 120.
Definition defaultPostDeployTimeout : Z := 60.
Definition jobTTLAfterFinished : Z := 1800.
Definition defaultAtlasJobImage : gostring := #"arigaio/atlas:latest".
Definition defaultSetupJobImage : gostring :=
  #"postgres:17-alpine@sha256:7456ef82e5f5bc43d997f4781bbd7c0d6389bff397564649a356e206ba473aee".

(** ** Jobs *)
Inductive EnvSource := EnvValue (value : gostring) | EnvSecret (name key : gostring).
Record PodEnv := mkPodEnv { pe_Name : gostring; pe_From : EnvSource }.
Inductive EnvFromSource := EnvFromSecret (name : gostring) | EnvFromConfigMap (name : gostring).
Inductive VolumeSource := EmptyDir (sizeLimit : Z) | ConfigMapVolume (name : gostring).
Record Volume := mkVolume { vol_Name : gostring; vol_Source : VolumeSource }.
Record VolumeMount := mkMount { vm_Name : gostring; vm_MountPath : gostring; vm_ReadOnly : bool }.
Record HookJobConfig := mkHookJob {
  hc_JobName : gostring; hc_Namespace : gostring; hc_Image : gostring; hc_Args : list gostring; hc_EnvVars : list PodEnv;
  hc_EnvFrom : list EnvFromSource; hc_Volumes : list Volume; hc_VolumeMounts : list VolumeMount; hc_Timeout : Z;
  hc_Owner : option Environment; hc_Labels : labels }.
(** The security contexts of the pod and its container. *)
Record Hardening := mkHardening {
  RunAsNonRoot : bool; RunAsUser : Z; SeccompProfile : gostring; AllowPrivilegeEscalation : bool;
  ReadOnlyRootFilesystem : bool; DropCapabilities : list gostring }.
Record JobSpec := mkJobSpec {
  BackoffLimit : Z; TTLSecondsAfterFinished : Z; ActiveDeadlineSeconds : option Z; PodLabels : labels;
  RestartPolicy : gostring; PodHardening : Hardening; Volumes : list Volume; ContainerName : gostring; Image : gostring;
  Args : list gostring; Env : list PodEnv; EnvFrom : list EnvFromSource; VolumeMounts : list VolumeMount;
  Requests : list (gostring * gostring); Limits : list (gostring * gostring) }.
Abbreviation Job := (Object JobSpec (list Condition)).
Definition js_mount (v : Volume) (m : VolumeMount) (s : JobSpec) : JobSpec :=
  mkJobSpec (BackoffLimit s) (TTLSecondsAfterFinished s) (ActiveDeadlineSeconds s) (PodLabels s) (RestartPolicy s)
    (PodHardening s) (Volumes s ++ [v]) (ContainerName s) (Image s) (Args s) (Env s) (EnvFrom s) (VolumeMounts s ++ [m])
    (Requests s) (Limits s).

Definition owner_of (env : Environment) : OwnerReference := mkOwner #"Environment" (ev_Name env) (ev_UID env) true.
Definition traceparent : gostring := #"divergedev.com/traceparent".
Definition text_at (m : gmap gostring gostring) (k : gostring) : gostring := default [] (m !! k).
Definition hardened : Hardening := mkHardening true 65534 #"RuntimeDefault" false true [ #"ALL"].
Definition buildJob (cfg : HookJobConfig) : Job :=
  let ls := truncateLabel <$> hc_Labels cfg in
  let trace :=
    match hc_Owner cfg with
    | Some env => let tp := text_at (ev_Annotations env) traceparent in
                  if str_eqb tp [] then [] else [mkPodEnv #"TRACEPARENT" (EnvValue tp)]
    | None => []
    end in
  new_object (hc_Namespace cfg) (hc_JobName cfg) ls (match hc_Owner cfg with Some env => [owner_of env] | None => [] end)
    (mkJobSpec 0 jobTTLAfterFinished (if 0 <? hc_Timeout cfg then Some (hc_Timeout cfg) else None) ls #"Never" hardened
       (mkVolume #"tmp" (EmptyDir (64 * 1024 * 1024)) :: hc_Volumes cfg) #"hook" (hc_Image cfg) (hc_Args cfg)
       (hc_EnvVars cfg ++ trace) (hc_EnvFrom cfg) (mkMount #"tmp" #"/tmp" false :: hc_VolumeMounts cfg)
       [(#"cpu", #"100m"); (#"memory", #"128Mi")] [(#"cpu", #"500m"); (#"memory", #"256Mi")]).
Definition hash8 (s : gostring) : gostring := take 8 (hex_encode (sha256 s)).
Definition generateHookJobName {U : GoUnicode} (name suffix : gostring) : gostring :=
  sanitizeK8sName (#"hook-" ++ name ++ #"-" ++ suffix) (name ++ #"/" ++ suffix) 63.

(** ** Errors, by what [errors.Is] tells *)
Inductive hook_error := HookInProgress (msg : gostring) | HookFailed (msg : gostring) | HookError (msg : gostring).
Definition hook_text (e : hook_error) : gostring :=
  match e with
  | HookInProgress m => m ++ #": hook in progress"
  | HookFailed m => m ++ #": hook failed"
  | HookError m => m
  end.
(** What a finished job means; [failed] is the error of a failed one. *)
Fixpoint job_result (failed : Condition -> hook_error) (running : hook_error) (conds : list Condition) : result hook_error unit :=
  match conds with
  | [] => Err running
  | c :: conds =>
      if str_eqb (cond_Type c) #"Complete" && str_eqb (cond_Status c) #"True" then Ok tt
      else if str_eqb (cond_Type c) #"Failed" && str_eqb (cond_Status c) #"True" then Err (failed c)
      else job_result failed running conds
  end.
Definition hook_result (what jobName : gostring) (conds : list Condition) : result hook_error unit :=
  job_result (fun c => HookFailed (what ++ #" job " ++ jobName ++ #" failed: " ++ cond_Reason c))
    (HookInProgress (what ++ #" job " ++ jobName ++ #" is still running")) conds.
Definition secret_env (ref : SecretRef) : PodEnv := mkPodEnv (sref_Key ref) (EnvSecret (sref_Name ref) (sref_Key ref)).
Definition database_url (secretName : gostring) : PodEnv := mkPodEnv #"DATABASE_URL" (EnvSecret secretName #"url").
(** [database.DatabaseResult] *)
Record DatabaseResult := mkDatabaseResult {
  dr_DSN : gostring; dr_EnvVars : gmap gostring gostring; dr_SetupSQL : gostring; dr_SetupSQLExecuted : bool;
  dr_AdminDSN : gostring; dr_Ready : bool; dr_Message : gostring }.

(** A resource of the Atlas operator: the Secret, the ConfigMap of its
    directory or schema, and the policy. *)
Record AtlasCRSpec := mkAtlasCR { ac_Secret : gostring; ac_ConfigMap : option gostring; ac_Destructive : option gostring }.
Abbreviation AtlasCR := (Object AtlasCRSpec (list Condition)).

(** ** The hooks *)
Section Hooks.
Context {U : GoUnicode} (api_text : api_error -> gostring).

(** A call that failed, with the text of its wrapping. *)
Definition wrapped (what : gostring) (e : api_error) : hook_error := HookError (what ++ #": " ++ api_text e).

Section PostDeploy.
Context {J : Type} {JA : ObjectApi Job J}.
Definition postdeploy_name (env : Environment) (spec : PostDeploySpec) : gostring :=
  generateHookJobName (ev_Name env) (#"postdeploy-" ++ hash8 (pd_Image spec ++ concat (pd_Args spec))).
Definition postdeploy_job (env : Environment) (spec : PostDeploySpec) : Job :=
  buildJob (mkHookJob (postdeploy_name env spec) (ev_Namespace env) (pd_Image spec) (pd_Args spec)
    (map secret_env (pd_EnvFrom spec)) [] [] []
    (if 0 <? pd_TimeoutSeconds spec then pd_TimeoutSeconds spec else defaultPostDeployTimeout) (Some env)
    (<[labelHookType := hookTypePostDeploy]> {[labelEnvironment := ev_Name env]})).
Definition runPostDeployJob (env : Environment) (spec : PostDeploySpec) (w : J) : result hook_error unit * J :=
  let jobName := postdeploy_name env spec in
  returned (O := result hook_error unit) (
    let! got := on (obj_Get (ev_Namespace env, jobName)) in
    let! job := match got with
      | Ok job => ret job
      | Err NotFound =>
          let! created := on (obj_Create (postdeploy_job env spec)) in
          match created with
          | Ok job => ret job
          | Err e => finish (Err (wrapped #"failed to create post-deploy job" e))
          end
      | Err e => finish (Err (wrapped #"failed to get post-deploy job" e))
      end in
    if negb (default false (pd_Blocking spec)) then ret (Ok tt)
    else ret (hook_result #"post-deploy" jobName (o_Status job))) w.
End PostDeploy.

(** The stores an environment's hooks use. *)
Context {J S M A : Type} {JA : ObjectApi Job J} {SA : ObjectApi Secret S} {MA : ObjectApi ConfigMap M} {AA : ObjectApi AtlasCR A}.
Record hook_world := mkHookWorld { hw_jobs : J; hw_secrets : S; hw_configmaps : M; hw_migrations : A; hw_schemas : A }.
Abbreviation hook := (run (result hook_error unit) hook_world).
Definition on_jobs {X} (f : J -> X * J) : hook X := on (fun w =>
  let '(x, j) := f (hw_jobs w) in (x, mkHookWorld j (hw_secrets w) (hw_configmaps w) (hw_migrations w) (hw_schemas w))).
Definition on_secrets {X} (f : S -> X * S) : hook X := on (fun w =>
  let '(x, s) := f (hw_secrets w) in (x, mkHookWorld (hw_jobs w) s (hw_configmaps w) (hw_migrations w) (hw_schemas w))).
Definition on_configmaps {X} (f : M -> X * M) : hook X := on (fun w =>
  let '(x, m) := f (hw_configmaps w) in (x, mkHookWorld (hw_jobs w) (hw_secrets w) m (hw_migrations w) (hw_schemas w))).
Definition on_atlas {X} (declarative : bool) (f : A -> X * A) : hook X := on (fun w =>
  if declarative then
    let '(x, a) := f (hw_schemas w) in (x, mkHookWorld (hw_jobs w) (hw_secrets w) (hw_configmaps w) (hw_migrations w) a)
  else
    let '(x, a) := f (hw_migrations w) in (x, mkHookWorld (hw_jobs w) (hw_secrets w) (hw_configmaps w) a (hw_schemas w))).
Definition fails {X} (msg : gostring) : hook X := finish (Err (HookError msg)).
Definition or_wrap {X} (what : gostring) (r : ares X) : hook X :=
  match r with Ok x => ret x | Err e => finish (Err (wrapped what e)) end.

Definition dsn_secret (name namespace dsn : gostring) (owner : Environment) : Secret :=
  new_object namespace (sanitizeK8sName (#"diverge-db-" ++ name) dsn 253)
    (<[labelHookType := hookTypeMigration]> {[labelEnvironment := truncateLabel name]}) [owner_of owner] (mkSecret [] {[ #"url" := dsn]}).
Definition createDSNSecret (name namespace dsn : gostring) (owner : Environment) : hook (ares gostring) :=
  let secret := dsn_secret name namespace dsn owner in
  let! created := on_secrets (obj_Create secret) in
  ret match created with Ok _ | Err AlreadyExists => Ok (o_Name secret) | Err e => Err e end.
(** [Create] or, when the object is there, nothing. *)
Definition or_exists {X} (what : gostring) (r : ares X) : hook unit :=
  match r with Ok _ | Err AlreadyExists => ret tt | Err e => finish (Err (wrapped what e)) end.

(** *** Migration jobs *)
Definition migration_name (env : Environment) (mj : MigrationJobSpec) : gostring :=
  generateHookJobName (ev_Name env) (#"migration-" ++ hash8 (mj_Image mj ++ concat (mj_Args mj))).
Definition migration_labels (env : Environment) : labels :=
  <[labelHookType := hookTypeMigration]> {[labelEnvironment := ev_Name env]}.
Definition migration_job (env : Environment) (mj : MigrationJobSpec) (vars : list PodEnv) : Job :=
  buildJob (mkHookJob (migration_name env mj) (ev_Namespace env) (mj_Image mj) (mj_Args mj)
    (vars ++ map secret_env (mj_EnvFrom mj)) [] [] []
    (if 0 <? mj_TimeoutSeconds mj then mj_TimeoutSeconds mj else defaultMigrationTimeout) (Some env) (migration_labels env)).
Definition migration_vars (env : Environment) (dsn : gostring) : hook (list PodEnv) :=
  if str_eqb dsn [] then ret []
  else
    let! made := createDSNSecret (ev_Name env) (ev_Namespace env) dsn env in
    let! secretName := or_wrap #"failed to create DSN secret for migration" made in
    ret [database_url secretName].
Definition runMigrationJob (env : Environment) (mj : MigrationJobSpec) (dbResult : option DatabaseResult) : hook (result hook_error unit) :=
  match dbResult with
  | None => fails #"migration job requires a provisioned database with DSN"
  | Some db =>
      if str_eqb (dr_DSN db) [] && negb (str_eqb (db_Mode (es_Database (ev_Spec env))) #"shared")
      then fails #"migration job requires a provisioned database with DSN"
      else
        let jobName := migration_name env mj in
        let! got := on_jobs (obj_Get (ev_Namespace env, jobName)) in
        let! job := match got with
          | Ok job => ret job
          | Err NotFound =>
              let! vars := migration_vars env (dr_DSN db) in
              let! created := on_jobs (obj_Create (migration_job env mj vars)) in
              or_wrap #"failed to create migration job" created
          | Err e => finish (Err (wrapped #"failed to get migration job" e))
          end in
        ret (if negb (default true (mj_Blocking mj)) then Ok tt else hook_result #"migration" jobName (o_Status job))
  end.

(** *** Atlas *)
(** [controllerutil.SetOwnerReference], with the scheme of the client. *)
Context (SetOwnerReference : Environment -> list OwnerReference -> list OwnerReference).
Definition ensureConfigMapOwner (env : Environment) (cmName : gostring) : hook unit :=
  if str_eqb cmName [] then ret tt
  else
    let! got := on_configmaps (obj_Get (ev_Namespace env, cmName)) in
    match got with
    | Err _ => ret tt
    | Ok cm =>
        if negb (str_eqb (o_Namespace cm) (ev_Namespace env)) ||
           negb (str_eqb (text_at (o_Labels cm) #"divergedev.com/managed-by") #"diverge") ||
           existsb (fun owner => str_eqb (ow_UID owner) (ev_UID env)) (o_Owners cm)
        then ret tt
        else
          let! _ := on_configmaps (obj_Update (o_set_Owners (SetOwnerReference env (o_Owners cm)) cm)) in
          ret tt
    end.
Definition atlas_spec (at' : AtlasSpec) (declarative : bool) (secretName : gostring) : AtlasCRSpec :=
  let cm := if declarative then at_SchemaConfigMap at' else at_MigrationConfigMap at' in
  let destructive := match at_Policy at' with Some p => ap_Destructive p | None => [] end in
  mkAtlasCR secretName (if str_eqb cm [] then None else Some cm) (if str_eqb destructive [] then None else Some destructive).
#[global] Instance AtlasCRSpec_eq_dec : EqDecision AtlasCRSpec.
Proof. solve_decision. Defined.
Fixpoint atlas_result (kind crName : gostring) (conds : list Condition) : result hook_error unit :=
  match conds with
  | [] => Err (HookInProgress (kind ++ #" " ++ crName ++ #" is still running"))
  | c :: conds =>
      if str_eqb (cond_Type c) #"Ready" then
        if str_eqb (cond_Status c) #"True" then Ok tt
        else if str_eqb (cond_Reason c) #"Failed" then Err (HookFailed (kind ++ #" " ++ crName ++ #" failed"))
        else atlas_result kind crName conds
      else atlas_result kind crName conds
  end.
Definition no_dsn (dbResult : option DatabaseResult) : bool :=
  match dbResult with Some db => str_eqb (dr_DSN db) [] | None => true end.
Definition ensureAtlasCR (env : Environment) (at' : AtlasSpec) (dbResult : option DatabaseResult) : hook (result hook_error unit) :=
  match dbResult with
  | None => fails #"atlas migration requires a provisioned database with DSN"
  | Some db =>
      if no_dsn dbResult then fails #"atlas migration requires a provisioned database with DSN"
      else
        let! made := createDSNSecret (ev_Name env) (ev_Namespace env) (dr_DSN db) env in
        let! secretName := or_wrap #"failed to create DSN secret for atlas" made in
        let declarative := str_eqb (at_Mode at') #"declarative" in
        let kind := if declarative then #"AtlasSchema" else #"AtlasMigration" in
        let crName := generateHookJobName (ev_Name env) #"atlas" in
        let spec := atlas_spec at' declarative secretName in
        do! ensureConfigMapOwner env (default [] (ac_ConfigMap spec)) in
        let! got := on_atlas declarative (obj_Get (ev_Namespace env, crName)) in
        let! cr := match got with
          | Err NotFound =>
              let! created := on_atlas declarative (obj_Create (new_object (ev_Namespace env) crName ∅ [owner_of env] spec)) in
              or_wrap (#"failed to create " ++ kind) created
          | Err e => finish (Err (wrapped (#"failed to get " ++ kind) e))
          | Ok existing =>
              if decide (o_Spec existing = spec) then ret existing
              else
                let! updated := on_atlas declarative (obj_Update (o_set_Spec spec existing)) in
                or_wrap (#"failed to update " ++ kind) updated
          end in
        ret (if negb (default true (at_Blocking at')) then Ok tt else atlas_result kind crName (o_Status cr))
  end.

(** The ConfigMap, its volume and mount, and the arguments so far. *)
Definition atlas_mode (at' : AtlasSpec) : gostring := if str_eqb (at_Mode at') [] then #"versioned" else at_Mode at'.
Definition atlas_target (at' : AtlasSpec) : result hook_error (gostring * gostring * gostring * list gostring) :=
  let mode := atlas_mode at' in
  if str_eqb mode #"versioned" then
    if str_eqb (at_MigrationConfigMap at') [] then Err (HookError #"atlas versioned mode requires migrationConfigMap")
    else Ok (at_MigrationConfigMap at', #"atlas-migrations", #"/migrations",
             [ #"migrate"; #"apply"; #"--url"; #"$(DATABASE_URL)"; #"--dir"; #"file:///migrations"])
  else if str_eqb mode #"declarative" then
    if str_eqb (at_SchemaConfigMap at') [] then Err (HookError #"atlas declarative mode requires schemaConfigMap")
    else Ok (at_SchemaConfigMap at', #"atlas-schema", #"/schema", [])
  else Err (HookError (#"unsupported atlas mode: " ++ mode)).
Definition schema_args (at' : AtlasSpec) (cm : ConfigMap) : list gostring :=
  let target := if bool_decide (is_Some (cm_Data (o_Spec cm) !! #"schema.hcl")) && str_eqb (text_at (cm_Data (o_Spec cm)) #"schema.sql") []
                then #"file:///schema/schema.hcl" else #"file:///schema/schema.sql" in
  let allow := match at_Policy at' with Some p => str_eqb (ap_Destructive p) #"allow" | None => false end in
  [ #"schema"; #"apply"; #"--url"; #"$(DATABASE_URL)"; #"--to"; target; #"--auto-approve"] ++
  (if allow then [ #"--allow-destructive"] else []).
Definition atlas_job_args (at' : AtlasSpec) (cm : ConfigMap) (args : list gostring) : list gostring :=
  (if str_eqb (atlas_mode at') #"declarative" then schema_args at' cm else args) ++ at_ExtraArgs at'.
Definition atlas_image (at' : AtlasSpec) : gostring := if str_eqb (at_Image at') [] then defaultAtlasJobImage else at_Image at'.
(** A resource version is the text of a number. *)
Definition atlas_job_name (env : Environment) (at' : AtlasSpec) (cm : ConfigMap) (args : list gostring) : gostring :=
  let hashInput := atlas_image at' ++ #":" ++ atlas_mode at' ++ #":" ++ o_Name cm ++ #":" ++ FormatInt (o_Version cm) ++ #":" ++
                   Join args #" " in
  generateHookJobName (ev_Name env) (#"atlas-" ++ hash8 hashInput).
Definition atlas_job (env : Environment) (at' : AtlasSpec) (cm : ConfigMap) (volumeName mountPath : gostring) (args : list gostring)
    (secretName : gostring) : Job :=
  buildJob (mkHookJob (atlas_job_name env at' cm args) (ev_Namespace env) (atlas_image at') args
    [mkPodEnv #"HOME" (EnvValue #"/tmp"); database_url secretName] []
    [mkVolume volumeName (ConfigMapVolume (o_Name cm))] [mkMount volumeName mountPath true] defaultMigrationTimeout (Some env)
    (<[ #"divergedev.com/atlas-mode" := atlas_mode at']> (migration_labels env))).
Definition ensureAtlasJob (env : Environment) (at' : AtlasSpec) (dbResult : option DatabaseResult) : hook (result hook_error unit) :=
  match dbResult with
  | None => fails #"atlas migration requires a provisioned database with DSN"
  | Some db =>
      if no_dsn dbResult then fails #"atlas migration requires a provisioned database with DSN"
      else
        match atlas_target at' with
        | Err e => finish (Err e)
        | Ok (cmName, volumeName, mountPath, args) =>
            let! got := on_configmaps (obj_Get (ev_Namespace env, cmName)) in
            let! cm := or_wrap (#"failed to get atlas configmap " ++ cmName) got in
            do! ensureConfigMapOwner env cmName in
            let args := atlas_job_args at' cm args in
            let! made := createDSNSecret (ev_Name env) (ev_Namespace env) (dr_DSN db) env in
            let! secretName := or_wrap #"failed to create DSN secret for atlas" made in
            let job := atlas_job env at' cm volumeName mountPath args secretName in
            let! got := on_jobs (obj_Get (ev_Namespace env, o_Name job)) in
            let! cur := match got with
              | Ok cur => ret cur
              | Err NotFound =>
                  let! created := on_jobs (obj_Create job) in or_wrap #"failed to create atlas migration job" created
              | Err e => finish (Err (wrapped #"failed to get atlas migration job" e))
              end in
            ret (if negb (default true (at_Blocking at')) then Ok tt
                 else hook_result #"atlas migration" (o_Name job) (o_Status cur))
        end
  end.

(** *** Which one runs *)
Definition runMigrations (env : Environment) (dbResult : option DatabaseResult) : hook_world -> result hook_error unit * hook_world :=
  returned (
    match db_Atlas (es_Database (ev_Spec env)), db_MigrationJob (es_Database (ev_Spec env)) with
    | Some _, Some _ => fails #"cannot configure both Atlas and MigrationJob for database hooks"
    | Some at', None => if str_eqb (at_Engine at') #"job" then ensureAtlasJob env at' dbResult else ensureAtlasCR env at' dbResult
    | None, Some mj => runMigrationJob env mj dbResult
    | None, None => ret (Ok tt)
    end).

(** *** Setup SQL *)
Definition setup_name (env : Environment) : gostring := sanitizeK8sName (#"setup-sql-" ++ ev_Name env) (ev_Name env) 63.
Definition setup_configmap (env : Environment) (setupSQL : gostring) : ConfigMap :=
  new_object (ev_Namespace env) (sanitizeK8sName (#"diverge-setup-sql-" ++ ev_Name env) setupSQL 253)
    (<[labelHookType := hookTypeSetupSQL]> {[labelEnvironment := truncateLabel (ev_Name env)]})
    (if str_eqb (ev_UID env) [] then [] else [owner_of env]) (text_data {[ #"setup.sql" := setupSQL]}).
Definition setup_job (env : Environment) (setupImage cmName secretName : gostring) : Job :=
  let job := buildJob (mkHookJob (setup_name env) (ev_Namespace env)
    (if str_eqb setupImage [] then defaultSetupJobImage else setupImage)
    [ #"psql"; #"-v"; #"ON_ERROR_STOP=1"; #"-d"; #"$(DATABASE_URL)"; #"-f"; #"/setup/setup.sql"] [database_url secretName] [] [] []
    300 (Some env) (<[labelHookType := hookTypeSetupSQL]> {[labelEnvironment := ev_Name env]})) in
  o_set_Spec (js_mount (mkVolume #"setup-sql" (ConfigMapVolume cmName)) (mkMount #"setup-sql" #"/setup" true) (o_Spec job)) job.
Definition runSetupSQLJob (setupImage : gostring) (env : Environment) (setupSQL adminDSN : gostring) : hook_world -> result hook_error unit * hook_world :=
  returned (
    if str_eqb setupSQL [] then ret (Ok tt)
    else
      let jobName := setup_name env in
      let! got := on_jobs (obj_Get (ev_Namespace env, jobName)) in
      match got with
      | Ok existing =>
          ret (job_result (fun c => HookError (#"setup-sql job " ++ jobName ++ #" failed: " ++ cond_Message c))
                 (HookInProgress (#"setup-sql job " ++ jobName ++ #" is still running")) (o_Status existing))
      | Err NotFound =>
          let cm := setup_configmap env setupSQL in
          let! made := on_configmaps (obj_Create cm) in
          do! or_exists #"failed to create setup-sql configmap" made in
          let! made := createDSNSecret (ev_Name env ++ #"-admin") (ev_Namespace env) adminDSN env in
          let! secretName := or_wrap #"failed to create admin DSN secret for setup-sql" made in
          let! created := on_jobs (obj_Create (setup_job env setupImage (o_Name cm) secretName)) in
          do! or_exists #"failed to create setup-sql job" created in
          ret (Err (HookInProgress (#"setup-sql job " ++ jobName ++ #" created, waiting for completion")))
      | Err e => finish (Err (wrapped (#"getting setup-sql job " ++ jobName) e))
      end).
End Hooks.
Arguments hook_world : clear implicits.
Arguments mkHookWorld {J S M A}.

(** * What the hooks of an environment guarantee

    A hook succeeds only on a finished job, and writes only in the namespace
    of its environment.  Then where the name of a job does not tell what it
    runs: finished jobs that run again, and changed ones that do not. *)

(** ** Finished jobs *)
Definition has_condition (ty : gostring) (conds : list Condition) : Prop :=
  exists c, c ∈ conds /\ cond_Type c = ty /\ cond_Status c = #"True".
Lemma job_result_Ok failed running conds : job_result failed running conds = Ok tt -> has_condition #"Complete" conds.
Proof.
  induction conds as [|c conds IH]; [done|]. cbn. unfold str_eqb. destruct (_ && _) eqn:E.
  - intros _. bool_simpl. exists c. split; [by left|done].
  - case_match; [done|]. intros (c' & ? & ?)%IH. exists c'. split; [by right|done].
Qed.
(** A job that only completed. *)
Lemma job_result_complete failed running conds : has_condition #"Complete" conds -> ~ has_condition #"Failed" conds ->
  job_result failed running conds = Ok tt.
Proof.
  intros Hc Hf. induction conds as [|c conds IH]; [by destruct Hc as (c & []%not_elem_of_nil & _)|]. cbn. unfold str_eqb.
  case_match eqn:E1; [done|]. case_match eqn:E2.
  - exfalso. apply Hf. bool_simpl. exists c. split; [by left|done].
  - apply IH.
    + destruct Hc as (c' & [->|H]%elem_of_cons & Ht & Hs); [|by exists c']. rewrite Ht, Hs in E1. done.
    + intros (c' & H & ?). apply Hf. exists c'. split; [by right|done].
Qed.

Section Hooks.
Context {U : GoUnicode} (api_text : api_error -> gostring) (setref : Environment -> list OwnerReference -> list OwnerReference).
Context {J S M A : Type} {JA : ObjectApi Job J} {SA : ObjectApi Secret S} {MA : ObjectApi ConfigMap M}
  {AA : ObjectApi (Object AtlasCRSpec (list Condition)) A}.
Context {JL : ObjectApiLaws Job J} {SL : ObjectApiLaws Secret S} {ML : ObjectApiLaws ConfigMap M}
  {AL : ObjectApiLaws (Object AtlasCRSpec (list Condition)) A}.
Abbreviation W := (hook_world J S M A).
Abbreviation hook := (run (result hook_error unit) W).

(** ** Writes stay in the namespace *)
Section Confined.
Context (env : Environment) (ns name : gostring) (Hns : ns <> ev_Namespace env).
(** What is stored under a key of another namespace. *)
Definition elsewhere (w : W) :=
  (stored (hw_jobs w) !! (ns, name), stored (hw_secrets w) !! (ns, name), stored (hw_configmaps w) !! (ns, name),
   stored (hw_migrations w) !! (ns, name), stored (hw_schemas w) !! (ns, name)).
Abbreviation quiet m := (leaves_of elsewhere m).

Lemma quiet_jobs {X} (f : J -> X * J) : (forall j, stored (snd (f j)) !! (ns, name) = stored j !! (ns, name)) -> quiet (on_jobs f : hook _).
Proof. intros H. apply leaves_of_on. intros w. specialize (H (hw_jobs w)). unfold elsewhere. destruct (f _) as [x j]. cbn in *. by rewrite H. Qed.
Lemma quiet_secrets {X} (f : S -> X * S) : (forall j, stored (snd (f j)) !! (ns, name) = stored j !! (ns, name)) -> quiet (on_secrets f : hook _).
Proof. intros H. apply leaves_of_on. intros w. specialize (H (hw_secrets w)). unfold elsewhere. destruct (f _) as [x j]. cbn in *. by rewrite H. Qed.
Lemma quiet_configmaps {X} (f : M -> X * M) : (forall j, stored (snd (f j)) !! (ns, name) = stored j !! (ns, name)) -> quiet (on_configmaps f : hook _).
Proof. intros H. apply leaves_of_on. intros w. specialize (H (hw_configmaps w)). unfold elsewhere. destruct (f _) as [x j]. cbn in *. by rewrite H. Qed.
Lemma quiet_atlas {X} d (f : A -> X * A) : (forall j, stored (snd (f j)) !! (ns, name) = stored j !! (ns, name)) -> quiet (on_atlas d f : hook _).
Proof.
  intros H. apply leaves_of_on. intros w. unfold elsewhere.
  destruct d; [specialize (H (hw_schemas w))|specialize (H (hw_migrations w))]; destruct (f _) as [x j]; cbn in *; by rewrite H.
Qed.

(** Calls on the objects of a kind. *)
Lemma get_quiet {Ob X} `{ObjectApiLaws Ob X} k k' (w : X) : stored (snd (obj_Get (Ob := Ob) k w)) !! k' = stored w !! k'.
Proof. by rewrite obj_Get_pure. Qed.
Lemma create_quiet {Ob X} `{ObjectApiLaws Ob X} (o : Ob) (w : X) : fst (r_key o) = ev_Namespace env ->
  stored (snd (obj_Create o w)) !! (ns, name) = stored w !! (ns, name).
Proof using Hns.
  intros Hk. destruct (obj_Create o w) as [r w'] eqn:E. eapply Create_other; [exact E|]. intros Heq. apply Hns. by rewrite <- Hk, <- Heq.
Qed.
Lemma update_quiet {Ob X} `{ObjectApiLaws Ob X} `{!ResourceLaws Ob} (o : Ob) (w : X) : fst (r_key o) = ev_Namespace env ->
  stored (snd (obj_Update o w)) !! (ns, name) = stored w !! (ns, name).
Proof using Hns.
  intros Hk. destruct (obj_Update o w) as [r w'] eqn:E. eapply Update_other; [exact E|]. intros Heq. apply Hns. by rewrite <- Hk, <- Heq.
Qed.
Hint Extern 1 (leaves_of elsewhere (on_jobs (obj_Get _))) => apply quiet_jobs, get_quiet : leaves.
Hint Extern 1 (leaves_of elsewhere (on_configmaps (obj_Get _))) => apply quiet_configmaps, get_quiet : leaves.
Hint Extern 1 (leaves_of elsewhere (on_atlas _ (obj_Get _))) => apply quiet_atlas, get_quiet : leaves.
Hint Extern 1 (leaves_of elsewhere (on_jobs (obj_Create _))) => apply quiet_jobs; intros ?; apply create_quiet; reflexivity : leaves.
Hint Extern 1 (leaves_of elsewhere (on_configmaps (obj_Create _))) => apply quiet_configmaps; intros ?; apply create_quiet; reflexivity : leaves.
Hint Extern 1 (leaves_of elsewhere (on_atlas _ (obj_Create _))) => apply quiet_atlas; intros ?; apply create_quiet; reflexivity : leaves.
Hint Extern 1 (leaves_of elsewhere (fails _)) => apply leaves_of_finish : leaves.

Lemma quiet_dsn n dsn : quiet (createDSNSecret n (ev_Namespace env) dsn env : hook _).
Proof using Hns. unfold createDSNSecret. apply leaves_of_bind; [|auto with leaves]. apply quiet_secrets. intros j. by apply create_quiet. Qed.
Lemma quiet_or_wrap {X} what (r : ares X) : quiet (or_wrap api_text what r : hook _).
Proof. unfold or_wrap. auto with leaves. Qed.
Lemma quiet_or_exists {X} what (r : ares X) : quiet (or_exists api_text what r : hook _).
Proof. unfold or_exists. destruct r as [|[]]; auto with leaves. Qed.
Hint Resolve quiet_dsn quiet_or_wrap quiet_or_exists : leaves.
Lemma quiet_owner cmName : quiet (ensureConfigMapOwner setref env cmName : hook _).
Proof using Hns.
  unfold ensureConfigMapOwner. destruct (str_eqb cmName []); [auto with leaves|]. apply leaves_of_bind; [auto with leaves|].
  intros [cm|e]; [|auto with leaves]. destruct (_ || _) eqn:E; [auto with leaves|]. apply leaves_of_bind; [|auto with leaves].
  apply quiet_configmaps. intros j. apply update_quiet. cbn. bool_simpl. unfold str_eqb in *. by bool_simpl.
Qed.
Hint Resolve quiet_owner : leaves.
Lemma quiet_migration mj db : quiet (runMigrationJob api_text env mj db : hook _).
Proof using Hns. unfold runMigrationJob, migration_vars. auto 20 with leaves. Qed.
Lemma quiet_atlas_job at' db : quiet (ensureAtlasJob api_text setref env at' db : hook _).
Proof using Hns. unfold ensureAtlasJob. auto 30 with leaves. Qed.
Lemma quiet_atlas_cr at' db : quiet (ensureAtlasCR api_text setref env at' db : hook _).
Proof using Hns.
  unfold ensureAtlasCR. destruct db as [db|]; [|auto with leaves]. destruct (no_dsn _); [auto with leaves|].
  apply leaves_of_bind; [auto with leaves|]. intros made. apply leaves_of_bind; [auto with leaves|]. intros secretName.
  cbv zeta. apply leaves_of_bind; [auto with leaves|]. intros _. apply leaves_of_bind_run; [auto with leaves|].
  intros w got w' Hg. apply leaves_of_bind; [|auto with leaves]. destruct got as [cr|e]; [|auto with leaves].
  case_decide; [auto with leaves|]. apply leaves_of_bind; [|auto with leaves]. apply quiet_atlas. intros a. apply update_quiet.
  assert (r_key cr = (ev_Namespace env, generateHookJobName (ev_Name env) #"atlas")) as Hk; [|exact (f_equal fst Hk)].
  unfold on_atlas, on in Hg. destruct (str_eqb _ _);
    match type of Hg with context [obj_Get ?k ?a] =>
      pose proof (obj_Get_Ok k a cr) as Ho; destruct (obj_Get k a) as [x a'] end;
    injection Hg as -> _; by apply (stored_key _ _ _ (Ho eq_refl)).
Qed.
Lemma quiet_migrations db (w : W) : elsewhere (snd (runMigrations api_text setref env db w)) = elsewhere w.
Proof using Hns.
  apply leaves_of_returned. destruct (db_Atlas _) as [at'|], (db_MigrationJob _) as [mj|]; try apply leaves_of_finish; [| |done].
  - destruct (str_eqb _ _); [by apply quiet_atlas_job|by apply quiet_atlas_cr].
  - by apply quiet_migration.
Qed.
Lemma quiet_setup image sql dsn (w : W) : elsewhere (snd (runSetupSQLJob api_text image env sql dsn w)) = elsewhere w.
Proof using Hns. apply leaves_of_returned. auto 20 with leaves. Qed.
End Confined.

(** C16: whatever an environment asks for, its migration hooks write Jobs,
    Secrets, ConfigMaps and Atlas resources in its own namespace only. *)
Theorem migrations_stay_in_namespace env db (w : W) k : fst k <> ev_Namespace env ->
  let w' := snd (runMigrations api_text setref env db w) in
  stored (hw_jobs w') !! k = stored (hw_jobs w) !! k /\ stored (hw_secrets w') !! k = stored (hw_secrets w) !! k /\
  stored (hw_configmaps w') !! k = stored (hw_configmaps w) !! k /\ stored (hw_migrations w') !! k = stored (hw_migrations w) !! k /\
  stored (hw_schemas w') !! k = stored (hw_schemas w) !! k.
Proof using JL SL ML AL.
  destruct k as [ns name]. intros Hns. cbn in Hns.
  assert (elsewhere ns name (snd (runMigrations api_text setref env db w)) = elsewhere ns name w) as H; [|by injection H].
  by apply quiet_migrations.
Qed.

(** ** Success means a completed job *)
(** An environment that migrates with a job and waits for it. *)
Definition migrates (env : Environment) (mj : MigrationJobSpec) : Prop :=
  db_Atlas (es_Database (ev_Spec env)) = None /\ db_MigrationJob (es_Database (ev_Spec env)) = Some mj /\ mj_Blocking mj <> Some false.
Definition completed_at (w : J) (ns name : gostring) : Prop :=
  exists job, stored w !! (ns, name) = Some job /\ has_condition #"Complete" (o_Status job).

(** A job read or created, and its state. *)
Lemma created_result failed running (o o' : Job) uid now v : o' = r_create o uid now v ->
  job_result failed running (o_Status o') = Err running.
Proof. by intros ->. Qed.

Lemma migration_vars_fails env dsn (w : W) : match migration_vars api_text env dsn w with (inl (Ok _), _) => False | _ => True end.
Proof.
  unfold migration_vars. destruct (str_eqb dsn []); [done|]. unfold createDSNSecret, on_secrets, on, bind, ret.
  by destruct (obj_Create _ (hw_secrets _)) as [[|[]] ?].
Qed.

(** an environment that waits for its migration job goes on only when a
    job of that name is stored in its namespace and has completed. *)
Theorem migration_done env mj db (w w' : W) : migrates env mj -> runMigrations api_text setref env db w = (Ok tt, w') ->
  completed_at (hw_jobs w') (ev_Namespace env) (migration_name env mj).
Proof using JL.
  intros (Ha & Hm & Hb). unfold runMigrations. rewrite Ha, Hm. unfold runMigrationJob, returned, fails, finish.
  destruct db as [db|]; [|done]. destruct (_ && _); [done|]. unfold bind, on_jobs, on.
  pose proof (obj_Get_pure (ev_Namespace env, migration_name env mj) (hw_jobs w)) as Hp.
  pose proof (obj_Get_Ok (ev_Namespace env, migration_name env mj) (hw_jobs w)) as Hg.
  destruct (obj_Get _ (hw_jobs w)) as [[job|e] j]; cbn in Hp, Hg; subst j.
  - cbn. intros H. assert (negb (default true (mj_Blocking mj)) = false) as Hn by (by destruct (mj_Blocking mj) as [[]|]).
    rewrite Hn in H. injection H as H <-. exists job. split; [by apply Hg|]. by eapply job_result_Ok.
  - destruct e; try done. cbn. set (w0 := mkHookWorld _ _ _ _ _). pose proof (migration_vars_fails env (dr_DSN db) w0) as Hf.
    destruct (migration_vars api_text env (dr_DSN db) w0) as [[r|vars] w1]; [by intros [= -> <-]|].
    destruct (obj_Create _ (hw_jobs w1)) as [[job|e] j] eqn:Ec; [|done]. cbn. intros H.
    apply obj_Create_Ok in Ec as (uid & now & v & _ & -> & _).
    assert (negb (default true (mj_Blocking mj)) = false) as Hn by (by destruct (mj_Blocking mj) as [[]|]).
    rewrite Hn in H. done.
Qed.

(** ** Jobs are told apart by their names *)
(** A reliable run of a migration whose job is not there starts it. *)
Definition with_database (env : Environment) (db : DatabaseResult) : Prop :=
  dr_DSN db <> [] \/ db_Mode (es_Database (ev_Spec env)) = #"shared".
Lemma dsn_secret_made {SR : Reliable Secret S} n ns dsn env (w : W) : exists name w',
  (createDSNSecret n ns dsn env : hook _) w = (inr (Ok name), w') /\ hw_jobs w' = hw_jobs w.
Proof.
  unfold createDSNSecret, bind, on_secrets, on, ret. set (o := dsn_secret n ns dsn env).
  destruct (obj_Create o (hw_secrets w)) as [r s] eqn:E. exists (o_Name o). destruct (stored (hw_secrets w) !! r_key o) as [cur|] eqn:Es.
  - pose proof (Create_refused o (hw_secrets w) (mk_is_Some _ _ Es)) as H. rewrite E in H. cbn in H. subst r. by eexists.
  - pose proof (Create_accepted o (hw_secrets w) Es) as [o' H]. rewrite E in H. cbn in H. subst r. by eexists.
Qed.

Lemma migration_vars_made {SR : Reliable Secret S} env dsn (w : W) : exists vs w',
  migration_vars api_text env dsn w = (inr vs, w') /\ hw_jobs w' = hw_jobs w.
Proof.
  unfold migration_vars. destruct (str_eqb dsn []); [by eexists _, _|]. unfold bind.
  destruct (dsn_secret_made (ev_Name env) (ev_Namespace env) dsn env w) as (n & w1 & -> & Hw). by eexists _, _.
Qed.

(** a migration job runs again once it is gone: the cluster removes a
    finished job after half an hour ([jobTTLAfterFinished]), and the first
    run of the controller that does not find it creates it again and waits for
    it, the migration being done or not. *)
Theorem collected_migration_repeats {JR : Reliable Job J} {SR : Reliable Secret S} env mj db (w : W) :
  migrates env mj -> with_database env db -> stored (hw_jobs w) !! (ev_Namespace env, migration_name env mj) = None ->
  exists msg w', runMigrations api_text setref env (Some db) w = (Err (HookInProgress msg), w') /\
    exists job, stored (hw_jobs w') !! (ev_Namespace env, migration_name env mj) = Some job /\
      Image (o_Spec job) = mj_Image mj /\ Args (o_Spec job) = mj_Args mj /\
      TTLSecondsAfterFinished (o_Spec job) = 1800.
Proof.
  intros (Ha & Hm & Hb) Hdb Hnone. unfold runMigrations. rewrite Ha, Hm. unfold runMigrationJob, returned, fails, finish.
  assert (str_eqb (dr_DSN db) [] && negb (str_eqb (db_Mode (es_Database (ev_Spec env))) #"shared") = false) as Hd.
  { unfold str_eqb. destruct Hdb as [H| ->]; [by rewrite (bool_decide_eq_false_2 _ H)|]. by rewrite andb_false_r. }
  rewrite Hd. unfold bind at 1. unfold on_jobs at 1, on at 1.
  pose proof (obj_Get_pure (ev_Namespace env, migration_name env mj) (hw_jobs w)) as Hp.
  pose proof (Get_missing _ _ Hnone) as Hg. destruct (obj_Get _ (hw_jobs w)) as [r j]. cbn in Hp, Hg. subst r j. cbn iota beta.
  set (w0 := mkHookWorld _ _ _ _ _). destruct (migration_vars_made env (dr_DSN db) w0) as (vs & w1 & Ev & Hj).
  unfold bind. rewrite Ev. cbn in Hj. unfold on_jobs, on. rewrite Hj.
  destruct (Create_accepted (migration_job env mj vs) (hw_jobs w) Hnone) as [o' Hc].
  destruct (obj_Create _ (hw_jobs w)) as [r j] eqn:Ec. cbn in Hc. subst r. apply obj_Create_Ok in Ec as (uid & now & v & _ & -> & Hs).
  assert (negb (default true (mj_Blocking mj)) = false) as Hn by (by destruct (mj_Blocking mj) as [[]|]).
  cbn. rewrite Hn. eexists _, _. split; [done|]. cbn. rewrite Hs. cbn. rewrite lookup_insert_eq. by eexists.
Qed.

(** arguments that give the same text when they are put one after the
    other have the same job: with the job of the first migration completed,
    the second one is taken for done, and nothing is created. *)
Theorem changed_migration_skipped {JR : Reliable Job J} env mj mj' db (w : W) job :
  migrates env mj' -> with_database env db -> mj_Image mj' = mj_Image mj -> concat (mj_Args mj') = concat (mj_Args mj) ->
  stored (hw_jobs w) !! (ev_Namespace env, migration_name env mj) = Some job ->
  has_condition #"Complete" (o_Status job) -> ~ has_condition #"Failed" (o_Status job) ->
  fst (runMigrations api_text setref env (Some db) w) = Ok tt /\
  hw_jobs (snd (runMigrations api_text setref env (Some db) w)) = hw_jobs w.
Proof.
  intros (Ha & Hm & Hb) Hdb Hi Hargs Hs Hc Hf. unfold runMigrations. rewrite Ha, Hm. unfold runMigrationJob, returned, fails, finish.
  assert (str_eqb (dr_DSN db) [] && negb (str_eqb (db_Mode (es_Database (ev_Spec env))) #"shared") = false) as Hd.
  { unfold str_eqb. destruct Hdb as [H| ->]; [by rewrite (bool_decide_eq_false_2 _ H)|]. by rewrite andb_false_r. }
  rewrite Hd. assert (migration_name env mj' = migration_name env mj) as -> by (unfold migration_name; by rewrite Hi, Hargs).
  unfold bind, on_jobs, on. pose proof (obj_Get_pure (ev_Namespace env, migration_name env mj) (hw_jobs w)) as Hp.
  pose proof (Get_stored _ _ _ Hs) as Hg. destruct (obj_Get _ (hw_jobs w)) as [r j]. cbn in Hp, Hg. subst r j. cbn.
  assert (negb (default true (mj_Blocking mj')) = false) as -> by (by destruct (mj_Blocking mj') as [[]|]).
  split; [|done]. by apply job_result_complete.
Qed.
End Hooks.

(** ** Executions *)
Module HookDemo.
Import Server.
Abbreviation J := (Server.t Job).
Abbreviation D := (Server.t ConfigMap).
Abbreviation S := (Server.t Secret).
Abbreviation A := (Server.t (Object AtlasCRSpec (list Condition))).
Abbreviation W := (hook_world J S D A).
Definition setref (env : Environment) (l : list OwnerReference) : list OwnerReference :=
  l ++ [mkOwner #"Environment" (ev_Name env) (ev_UID env) false].
Definition text (e : api_error) : gostring := #"error".
Definition database (mj : option MigrationJobSpec) (at' : option AtlasSpec) : EnvironmentDatabase :=
  mkDatabase #"schema" [] [] mj at'.
Definition env (mj : option MigrationJobSpec) (at' : option AtlasSpec) : Environment :=
  mkEnvironment #"shop-42" #"team-a" #"u1" ∅ ∅ [] [] time_zero None 1 7
    (mkEnvSpec no_source no_deploy no_routing (database mj at') no_lifecycle None None None []) no_env_status.
Definition db : DatabaseResult := mkDatabaseResult #"postgres://db" ∅ [] false [] true [].
Definition migration (args : list gostring) : MigrationJobSpec := mkMigrationJob #"migrate:1" args [] 0 None.
Definition condition (ty : gostring) : Condition := mkCondition ty #"True" [] [] 0 time_zero.
Definition run (e : Environment) : W -> result hook_error unit * W :=
  runMigrations (U := ascii_unicode) text setref e (Some db).
(** A finished job of that name. *)
Definition finished (name : gostring) : Job :=
  mkObject name #"team-a" #"j1" ∅ ∅ [] [] None 9 (o_Spec (migration_job (U := ascii_unicode) (env None None) (migration []) [])) [condition #"Complete"].
Definition world (jobs : list Job) (cms : list ConfigMap) (crs : list (Object AtlasCRSpec (list Condition))) : W :=
  mkHookWorld (of_list jobs) (of_list []) (of_list cms) (of_list crs) (of_list []).
Definition up := migration [ #"up"; #"--all"].
Definition up_all := migration [ #"up--all"].
Definition done_world : W := world [finished (migration_name (U := ascii_unicode) (env (Some up) None) up)] [] [].

(** Atlas with versioned migrations in a ConfigMap of the command line
    client. *)
Definition atlas (engine cm : gostring) : AtlasSpec := mkAtlas #"versioned" cm [] None None engine [] [].
Definition atlas_env (engine cm : gostring) : Environment := env None (Some (atlas engine cm)).
Definition migrations : ConfigMap :=
  mkObject #"shop-migrations" #"team-a" #"c1" {[ #"divergedev.com/managed-by" := #"diverge"]} ∅ [] [] None 5
    (text_data {[ #"1.sql" := #"CREATE TABLE t();"]}) tt.
Definition atlas_world : W := world [] [migrations] [].
Definition jobs_of (w : W) : list Job := map snd (map_to_list (objects (hw_jobs w))).
(** A resource of the operator that reports the old directory as applied. *)
Definition applied : Object AtlasCRSpec (list Condition) :=
  mkObject (generateHookJobName (U := ascii_unicode) #"shop-42" #"atlas") #"team-a" #"a1" ∅ ∅ [] [] None 6
    (mkAtlasCR #"dsn" (Some #"old-migrations") None) [condition #"Ready"].
Definition applied_world : W := world [] [] [applied].
End HookDemo.

(** the name of an Atlas job contains the resource version of its
    ConfigMap as it was read, and the run then takes ownership of the
    ConfigMap, which changes that version: the second run does not find the
    job of the first and creates another one for the same files, image and
    arguments. *)
Theorem atlas_migrates_twice :
  let env := HookDemo.atlas_env #"job" #"shop-migrations" in
  let w1 := snd (HookDemo.run env HookDemo.atlas_world) in
  let w2 := snd (HookDemo.run env w1) in
  length (HookDemo.jobs_of w1) = 1%nat /\ length (HookDemo.jobs_of w2) = 2%nat /\
  length (remove_dups (map o_Name (HookDemo.jobs_of w2))) = 2%nat /\
  map (fun j => (Image (o_Spec j), Args (o_Spec j), Volumes (o_Spec j))) (HookDemo.jobs_of w2) =
    map (fun j => (Image (o_Spec j), Args (o_Spec j), Volumes (o_Spec j))) (HookDemo.jobs_of w1 ++ HookDemo.jobs_of w1) /\
  length (HookDemo.jobs_of (snd (HookDemo.run env w2))) = 2%nat.
Proof. vm_compute. auto. Qed.

(** after the directory of the migrations is changed, the run that
    updates the resource of the Atlas operator still reads the old condition
    and takes the new migrations for applied. *)
Theorem atlas_ready_is_stale :
  let run := HookDemo.run (HookDemo.atlas_env #"operator" #"new-migrations") HookDemo.applied_world in
  fst run = Ok tt /\
  map (fun cr => ac_ConfigMap (o_Spec cr)) (map snd (map_to_list (Server.objects (hw_migrations (snd run))))) = [Some #"new-migrations"].
Proof. vm_compute. auto. Qed.

Section Witnesses.
Import Server.
#[local] Existing Instance ascii_unicode.
Definition demo_env := HookDemo.env (Some HookDemo.up) None.
Lemma demo_done_run : HookDemo.run demo_env HookDemo.done_world = (Ok tt, snd (HookDemo.run demo_env HookDemo.done_world)).
Proof. vm_compute. reflexivity. Qed.
Lemma demo_migrates : migrates demo_env HookDemo.up.
Proof. by repeat split. Qed.
Lemma demo_job_stored : stored (hw_jobs HookDemo.done_world) !! (#"team-a", migration_name demo_env HookDemo.up) =
  Some (HookDemo.finished (migration_name demo_env HookDemo.up)).
Proof. vm_compute. reflexivity. Qed.
Lemma demo_no_job : stored (hw_jobs HookDemo.atlas_world) !! (#"team-a", migration_name demo_env HookDemo.up) = None.
Proof. vm_compute. reflexivity. Qed.
Lemma demo_complete : has_condition #"Complete" [HookDemo.condition #"Complete"] /\ ~ has_condition #"Failed" [HookDemo.condition #"Complete"].
Proof. split; [eexists; split; [by left|done]|]. by intros (c & ->%list_elem_of_singleton & ? & _). Qed.

Lemma migrations_stay_in_namespace_witness :
  stored (hw_configmaps (snd (HookDemo.run (HookDemo.atlas_env #"job" #"shop-migrations") HookDemo.atlas_world))) !! (#"team-b", #"shop-migrations") =
  stored (hw_configmaps HookDemo.atlas_world) !! (#"team-b", #"shop-migrations").
Proof.
  refine (proj1 (proj2 (proj2 (migrations_stay_in_namespace HookDemo.text HookDemo.setref
    (HookDemo.atlas_env #"job" #"shop-migrations") (Some HookDemo.db) HookDemo.atlas_world (#"team-b", #"shop-migrations") _)))).
  exact (bool_decide_eq_true_1 (#"team-b" <> #"team-a") eq_refl).
Defined.
Lemma migration_done_witness :
  completed_at (hw_jobs (snd (HookDemo.run demo_env HookDemo.done_world))) #"team-a" (migration_name demo_env HookDemo.up).
Proof. exact (migration_done HookDemo.text HookDemo.setref demo_env HookDemo.up (Some HookDemo.db) _ _ demo_migrates demo_done_run). Defined.
Lemma demo_database : with_database demo_env HookDemo.db.
Proof. by left. Qed.
Lemma collected_migration_repeats_witness : exists msg w', HookDemo.run demo_env HookDemo.atlas_world = (Err (HookInProgress msg), w').
Proof.
  destruct (collected_migration_repeats HookDemo.text HookDemo.setref demo_env HookDemo.up HookDemo.db HookDemo.atlas_world
    demo_migrates demo_database demo_no_job) as (msg & w' & H & _). exists msg, w'. exact H.
Defined.
Definition demo_env2 := HookDemo.env (Some HookDemo.up_all) None.
Definition demo_job := HookDemo.finished (migration_name demo_env HookDemo.up).
Lemma demo_job2_stored : stored (hw_jobs HookDemo.done_world) !! (ev_Namespace demo_env2, migration_name demo_env2 HookDemo.up) = Some demo_job.
Proof. vm_compute. reflexivity. Qed.
Lemma demo_job_complete : has_condition #"Complete" (o_Status demo_job) /\ ~ has_condition #"Failed" (o_Status demo_job).
Proof. exact demo_complete. Qed.
Lemma demo_migrates2 : migrates demo_env2 HookDemo.up_all.
Proof. by repeat split. Qed.
Lemma demo_database2 : with_database demo_env2 HookDemo.db.
Proof. by left. Qed.
Lemma changed_migration_skipped_witness :
  mj_Args HookDemo.up_all <> mj_Args HookDemo.up /\ fst (HookDemo.run demo_env2 HookDemo.done_world) = Ok tt.
Proof.
  split; [by vm_compute|].
  exact (proj1 (changed_migration_skipped HookDemo.text HookDemo.setref demo_env2 HookDemo.up HookDemo.up_all
    HookDemo.db HookDemo.done_world demo_job demo_migrates2 demo_database2 eq_refl eq_refl
    demo_job2_stored (proj1 demo_job_complete) (proj2 demo_job_complete))).
Defined.
End Witnesses.
