(* ===== verification/PreviewGroupController.v ===== *)
(** * The preview group controller:
    [internal/controller/previewgroup_controller.go]

    [Reconcile] as a computation on the stores it acts on: preview groups,
    environments, hook jobs, routes and endpoint slices, and the databases.
    Recorded events and notifications are kept in order.  The clock is read
    several times in a run: [readings].  [validation.IsValidLabelValue], the
    recognition of a kind that is not installed, the database provider and the
    texts of the client's errors are arguments. *)

From S2P Require Import Prelude GoStrings GoCrypto GoTime GoQuote TokenStore KubeApi AgentTask ResourceNames.
From S2P Require Import EnvTypes GroupTypes Conditions EarlyReturn ObjectApi Resources HookJobs.
Local Open Scope Z_scope.

Definition previewGroupFinalizer : gostring := #"divergedev.com/previewgroup-protection".
Definition labelPreviewGroup : gostring := #"divergedev.com/previewgroup".
Definition labelManagedBy : gostring := #"divergedev.com/managed-by".
Definition managedByGroup : gostring := #"diverge-previewgroup".

(** ** The pure parts *)
Definition childEnvironmentName {U : GoUnicode} (groupName serviceName : gostring) : gostring :=
  let raw := k8s_raw (#"pg-" ++ groupName ++ #"-" ++ serviceName) in
  let hash := hash8 (groupName ++ #"/" ++ serviceName) in
  if (length raw <=? 63 - 9)%nat then raw ++ #"-" ++ hash
  else
    let prefix := TrimRight (take (63 - 9) raw) #"-" in
    let prefix := if str_eqb prefix [] then #"pg" else prefix in
    prefix ++ #"-" ++ hash.
Definition target_namespace (svc : PreviewGroupServiceSpec) : gostring :=
  if str_eqb (gs_Namespace svc) [] then #"default" else gs_Namespace svc.

Definition count_phase (phase : gostring) (services : list PreviewGroupServiceStatus) : nat :=
  length (filter (fun s => sv_Phase s = phase) services).
Definition derivePreviewGroupPhase (services : list PreviewGroupServiceStatus) : gostring :=
  let total := length services in
  let running := count_phase PhaseRunning services in
  let failed := count_phase PhaseFailed services in
  let deploying := count_phase PhaseDeploying services in
  if (total =? 0)%nat then PreviewGroupPhasePending
  else if (running =? total)%nat then PreviewGroupPhaseRunning
  else if (failed =? total)%nat then PreviewGroupPhaseFailed
  else if (0 <? failed)%nat then PreviewGroupPhaseDegraded
  else if (0 <? deploying)%nat then PreviewGroupPhaseDeploying
  else PreviewGroupPhasePending.

Definition group_labels (pg : PreviewGroup) : labels := <[labelManagedBy := managedByGroup]> {[labelPreviewGroup := pg_Name pg]}.
Definition child_routing (pg : PreviewGroup) (svc : PreviewGroupServiceSpec) : EnvironmentRouting :=
  let r := gp_Routing (pg_Spec pg) in
  mkRouting (if str_eqb (gr_Mode r) [] then #"header" else gr_Mode r) #"gateway"
    (if str_eqb (gr_HeaderKey r) [] then #"x-preview-env" else gr_HeaderKey r) (gr_HeaderValue r) (gr_ExternalURL r) [] []
    (gs_AsyncRoutes svc) None None.
Definition child_service (gamma : bool) (pg : PreviewGroup) (svc : PreviewGroupServiceSpec) (targetNS : gostring) : ServicePreviewConfig :=
  mkServiceConfig (if gamma then gs_Name svc else []) targetNS (gs_Port svc) (gs_Image svc) (gs_ImagePullPolicy svc) []
    (gs_ParentRef svc) (gr_HeaderKey (gp_Routing (pg_Spec pg))) (gs_PathPrefix svc) (gs_Env svc) (gs_Protocol svc) []
    (gs_Resources svc) (gs_KEDA svc) None.
Definition first_some {A} (x y : option A) : option A := match x with Some _ => x | None => y end.
Definition buildChildEnvironment (gamma : bool) (pg : PreviewGroup) (svc : PreviewGroupServiceSpec) (envName targetNS : gostring) : Environment :=
  let spec := pg_Spec pg in
  let lifecycle := match gp_Lifecycle spec with Some l => mkLifecycle (gl_TTL l) (gl_CleanupOnMerge l) | None => no_lifecycle end in
  let tp := text_at (pg_Annotations pg) traceparent in
  mkEnvironment envName targetNS [] (group_labels pg) (if str_eqb tp [] then ∅ else {[traceparent := tp]}) [] [] time_zero None 0 0
    (mkEnvSpec (gp_Source spec) (mkDeploy #"delta" #"same" ∅ [gs_Name svc] [] None []) (child_routing pg svc)
       (default no_database (first_some (gs_Database svc) (gp_Database spec))) lifecycle None None
       (Some (child_service gamma pg svc targetNS)) [])
    no_env_status.

Definition needsUpdate (existing desired : Environment) : bool :=
  let tp := text_at (ev_Annotations desired) traceparent in
  bool_decide (ev_Spec existing <> ev_Spec desired) ||
  negb (bool_decide (map_Forall (fun k v => text_at (ev_Labels existing) k = v) (ev_Labels desired))) ||
  negb (str_eqb tp []) && negb (str_eqb (text_at (ev_Annotations existing) traceparent) tp).
(** The existing object with the desired spec, labels and trace parent. *)
Definition synced (existing desired : Environment) : Environment :=
  let tp := text_at (ev_Annotations desired) traceparent in
  let a := if str_eqb tp [] then ev_Annotations existing else <[traceparent := tp]> (ev_Annotations existing) in
  ev_set_Annotations a (ev_set_Labels (ev_Labels desired) (ev_set_Spec (ev_Spec desired) existing)).

(** The status copied from the child. *)
Definition child_status (env : Environment) (st : PreviewGroupServiceStatus) : PreviewGroupServiceStatus :=
  let st := sv_set_ChangedServices (dep_ChangedServices (es_Deploy (ev_Spec env)))
              (sv_set_URL (et_URL (ev_Status env)) (sv_set_Phase (et_Phase (ev_Status env)) st)) in
  if str_eqb (et_Phase (ev_Status env)) PhaseFailed then
    match List.find (fun c => str_eqb (cond_Status c) ConditionFalse) (et_Conditions (ev_Status env)) with
    | Some c => sv_set_Reason (cond_Reason c) (sv_set_Message (cond_Message c) st)
    | None => st
    end
  else st.

Definition ready_condition (pg : PreviewGroup) (phase : gostring) (count : Z) : Condition :=
  let mk status reason message := mkCondition #"Ready" status reason message (pg_Generation pg) time_zero in
  if str_eqb phase PreviewGroupPhaseRunning then
    mk ConditionTrue #"AllServicesRunning" (#"All " ++ FormatInt count ++ #" services are running")
  else if str_eqb phase PreviewGroupPhaseDegraded then mk ConditionFalse #"ServicesDegraded" #"Some services are not running"
  else if str_eqb phase PreviewGroupPhaseFailed then mk ConditionFalse #"ServicesFailed" #"All services have failed"
  else mk ConditionFalse #"ServicesProvisioning" #"Services are being provisioned".

Definition with_group_status (f : PreviewGroupStatus -> PreviewGroupStatus) (pg : PreviewGroup) : PreviewGroup :=
  pg_set_Status (f (pg_Status pg)) pg.
Definition mapEnvironmentToGroup (env : Environment) : list gostring :=
  match ev_Labels env !! labelPreviewGroup with Some groupName => [groupName] | None => [] end.

(** ** A run *)
(** The readings of the clock, in order. *)
Record readings := mkReadings {
  at_created : Time; at_ttl : Time; until_ttl : Time; at_lease : Time; until_lease : Time }.
Inductive group_event :=
| Recorded (reason : gostring)
| UpdateGroupStatus (phase : gostring)
| PostGroupReady
| PostGroupFailed (reason : gostring)
| PostGroupTeardown.
Inductive group_error := GroupError (what : gostring) (e : api_error).
(** Routes and slices, of which only the metadata is read. *)
Abbreviation Route := (Object unit unit).

Record PreviewGroupReconciler (D : Type) := mkGroupReconciler {
  gr_notifier : bool; gr_gamma : bool;
  (** [Teardown] of the database provider *)
  gr_database : option (Environment -> D -> result gostring unit * D);
  IsValidLabelValue : gostring -> list gostring;
  IsNoMatchError : api_error -> bool;
  gr_api_text : api_error -> gostring }.
Arguments gr_notifier {D}. Arguments gr_gamma {D}. Arguments gr_database {D}. Arguments IsValidLabelValue {D}.
Arguments IsNoMatchError {D}. Arguments gr_api_text {D}.

Record group_world (G E J R D : Type) := mkGroupWorld {
  gw_groups : G; gw_envs : E; gw_jobs : J; gw_http : R; gw_grpc : R; gw_slices : R; gw_db : D; gw_events : list group_event }.
Arguments mkGroupWorld {G E J R D}. Arguments gw_groups {G E J R D}. Arguments gw_envs {G E J R D}. Arguments gw_jobs {G E J R D}.
Arguments gw_http {G E J R D}. Arguments gw_grpc {G E J R D}. Arguments gw_slices {G E J R D}. Arguments gw_db {G E J R D}.
Arguments gw_events {G E J R D}.

Section Controller.
Context {U : GoUnicode} {O : ConditionOps} {G E J R D : Type}.
Context {GA : ObjectApi PreviewGroup G} {EA : ObjectApi Environment E} {JA : ObjectApi Job J} {RA : ObjectApi Route R}.
Abbreviation W := (group_world G E J R D).
Abbreviation M := (run (outcome group_error) W).
Context (r : PreviewGroupReconciler D) (clock : readings).

Definition on_groups {A} (f : G -> A * G) : M A := on (fun w => let '(a, x) := f (gw_groups w) in
  (a, mkGroupWorld x (gw_envs w) (gw_jobs w) (gw_http w) (gw_grpc w) (gw_slices w) (gw_db w) (gw_events w))).
Definition on_envs {A} (f : E -> A * E) : M A := on (fun w => let '(a, x) := f (gw_envs w) in
  (a, mkGroupWorld (gw_groups w) x (gw_jobs w) (gw_http w) (gw_grpc w) (gw_slices w) (gw_db w) (gw_events w))).
Definition on_jobs {A} (f : J -> A * J) : M A := on (fun w => let '(a, x) := f (gw_jobs w) in
  (a, mkGroupWorld (gw_groups w) (gw_envs w) x (gw_http w) (gw_grpc w) (gw_slices w) (gw_db w) (gw_events w))).
Definition on_db {A} (f : D -> A * D) : M A := on (fun w => let '(a, x) := f (gw_db w) in
  (a, mkGroupWorld (gw_groups w) (gw_envs w) (gw_jobs w) (gw_http w) (gw_grpc w) (gw_slices w) x (gw_events w))).
Inductive route_kind := HTTPRoute | GRPCRoute | EndpointSlice.
Definition on_routes {A} (k : route_kind) (f : R -> A * R) : M A := on (fun w =>
  match k with
  | HTTPRoute => let '(a, x) := f (gw_http w) in
      (a, mkGroupWorld (gw_groups w) (gw_envs w) (gw_jobs w) x (gw_grpc w) (gw_slices w) (gw_db w) (gw_events w))
  | GRPCRoute => let '(a, x) := f (gw_grpc w) in
      (a, mkGroupWorld (gw_groups w) (gw_envs w) (gw_jobs w) (gw_http w) x (gw_slices w) (gw_db w) (gw_events w))
  | EndpointSlice => let '(a, x) := f (gw_slices w) in
      (a, mkGroupWorld (gw_groups w) (gw_envs w) (gw_jobs w) (gw_http w) (gw_grpc w) x (gw_db w) (gw_events w))
  end).
Definition emit (e : group_event) : M unit := modify (fun w =>
  mkGroupWorld (gw_groups w) (gw_envs w) (gw_jobs w) (gw_http w) (gw_grpc w) (gw_slices w) (gw_db w) (gw_events w ++ [e])).
Definition or_return {A} (what : gostring) (x : ares A) : M A :=
  match x with Ok a => ret a | Err e => fail (GroupError what e) end.
(** [client.IgnoreNotFound] *)
Definition or_gone (what : gostring) (x : ares unit) : M unit :=
  match x with Ok _ | Err NotFound => ret tt | Err e => fail (GroupError what e) end.

(** *** Routes *)
Definition route_kind_name (k : route_kind) : gostring :=
  match k with HTTPRoute => #"HTTPRoute" | GRPCRoute => #"GRPCRoute" | EndpointSlice => #"EndpointSlice" end.
Definition route_selector (k : route_kind) (pgName : gostring) : labels :=
  match k with
  | EndpointSlice => <[ #"endpointslice.kubernetes.io/managed-by" := #"diverge"]> {[labelPreviewGroup := pgName]}
  | _ => {[labelPreviewGroup := pgName]}
  end.
Definition cleanup_kind (k : route_kind) (pgName : gostring) : M unit :=
  let! l := on_routes k (obj_List (route_selector k pgName) []) in
  match l with
  | Err e =>
      match k with
      | EndpointSlice => fail (GroupError (#"failed to list " ++ route_kind_name k ++ #"s") e)
      | _ => if IsNoMatchError r e then ret tt else fail (GroupError (#"failed to list " ++ route_kind_name k ++ #"s") e)
      end
  | Ok items =>
      each (fun o : Route =>
        let pre := match k with EndpointSlice => Some (o_UID o) | _ => None end in
        let! x := on_routes k (obj_Delete pre (r_key o)) in
        or_gone (#"failed to delete " ++ route_kind_name k) x) items
  end.
Definition cleanupRoutesAndEndpoints (pgName : gostring) : M unit :=
  do! cleanup_kind HTTPRoute pgName in
  do! cleanup_kind GRPCRoute pgName in
  cleanup_kind EndpointSlice pgName.

(** *** Children *)
Definition listChildEnvironments (pg : PreviewGroup) : M (ares (list Environment)) :=
  on_envs (obj_List (group_labels pg) (pg_Namespace pg)).
Definition child_id (env : Environment) : gostring := ev_Namespace env ++ #"/" ++ ev_Name env.
(** The first failure ends the loop, and is only logged. *)
Fixpoint delete_orphans (desired : list gostring) (children : list Environment) : M unit :=
  match children with
  | [] => ret tt
  | child :: rest =>
      if bool_decide (child_id child ∈ desired) || bool_decide (ev_Name child ∈ desired) then delete_orphans desired rest
      else
        let! x := on_envs (obj_Delete None (r_key child)) in
        match x with
        | Ok _ | Err NotFound => do! emit (Recorded #"OrphanDeleted") in delete_orphans desired rest
        | Err _ => ret tt
        end
  end.
Definition deleteOrphanedEnvironments (pg : PreviewGroup) (desired : list gostring) : M unit :=
  let! l := listChildEnvironments pg in
  match l with Err _ => ret tt | Ok children => delete_orphans desired children end.

(** *** Teardown *)
(** One child of a deleted group. *)
Definition teardown_child (child : Environment) : M unit :=
  match ev_DeletionTimestamp child with
  | Some _ => ret tt
  | None =>
      do! (match gr_database r with
           | Some teardown =>
               if str_eqb (db_Mode (es_Database (ev_Spec child))) [] then ret tt
               else let! _ := on_db (teardown child) in ret tt
           | None => ret tt
           end) in
      let! x := on_envs (obj_Delete None (r_key child)) in
      match x with
      | Ok _ | Err NotFound => emit (Recorded #"ChildDeleted")
      | Err _ => ret tt
      end
  end.
Definition without_finalizer (pg : PreviewGroup) : PreviewGroup :=
  pg_set_Finalizers (filter (fun f => f <> previewGroupFinalizer) (pg_Finalizers pg)) pg.
Definition handleTeardown (pg : PreviewGroup) : M unit :=
  if bool_decide (previewGroupFinalizer ∈ pg_Finalizers pg) then
    do! emit (Recorded #"Terminating") in
    do! cleanupRoutesAndEndpoints (pg_Name pg) in
    let! l := listChildEnvironments pg in
    let! children := or_return #"failed to list child Environments" l in
    do! each teardown_child children in
    match children with
    | _ :: _ => requeue (2 * Second)
    | [] =>
        do! when (gr_notifier r) (emit PostGroupTeardown) in
        let! u := on_groups (obj_Update (without_finalizer pg)) in
        do! or_return #"failed to remove finalizer" u in
        do! emit (Recorded #"Terminated") in done
    end
  else done.

(** *** The services *)
Definition patch_group (base pg : PreviewGroup) : M PreviewGroup :=
  let! x := on_groups (obj_Patch (r_key pg) (with_group_status (merge_group_status (pg_Status base) (pg_Status pg)))) in
  or_return #"failed to update PreviewGroup status" x.
Definition new_service_status (svc : PreviewGroupServiceSpec) (envName targetNS : gostring) : PreviewGroupServiceStatus :=
  mkServiceStatus (gs_Name svc) envName targetNS [] [] [] [] [] [].
Definition sv_report (phase reason message : gostring) (st : PreviewGroupServiceStatus) : PreviewGroupServiceStatus :=
  sv_set_Message message (sv_set_Reason reason (sv_set_Phase phase st)).

(** The child of a service, its status, and whether the rest of the service is
    skipped; the flag asks for another run. *)
Definition sync_child (pg : PreviewGroup) (svc : PreviewGroupServiceSpec) (envName targetNS : gostring)
    : M (option Environment * PreviewGroupServiceStatus * bool) :=
  let st := new_service_status svc envName targetNS in
  let desired := buildChildEnvironment (gr_gamma r) pg svc envName targetNS in
  let! got := on_envs (obj_Get (targetNS, envName)) in
  match got with
  | Err NotFound =>
      let! created := on_envs (obj_Create desired) in
      match created with
      | Err AlreadyExists =>
          ret (None, sv_report PhasePending #"CreateConflict" #"Environment already exists, resyncing" st, true)
      | Err e =>
          ret (None, sv_report PhaseFailed #"CreateFailed" (#"Failed to create Environment: " ++ gr_api_text r e) st, false)
      | Ok env =>
          ret (Some env, sv_set_ChangedServices (dep_ChangedServices (es_Deploy (ev_Spec env)))
                 (sv_set_Message #"Environment created" (sv_set_Phase PhasePending st)), false)
      end
  | Err e => fail (GroupError (#"failed to get child Environment " ++ targetNS ++ #"/" ++ envName) e)
  | Ok existing =>
      let! env := (if needsUpdate existing desired then
          let! u := on_envs (obj_Update (synced existing desired)) in
          let! env := or_return (#"failed to update child Environment " ++ targetNS ++ #"/" ++ envName) u in
          do! emit (Recorded #"ChildUpdated") in ret env
        else ret existing) in
      ret (Some env, child_status env st, false)
  end.
Definition post_deploy (svc : PreviewGroupServiceSpec) (env : Environment) (st : PreviewGroupServiceStatus)
    : M (PreviewGroupServiceStatus * bool) :=
  match gs_PostDeploy svc with
  | Some hook =>
      if str_eqb (sv_Phase st) PhaseRunning then
        let! x := on_jobs (runPostDeployJob (gr_api_text r) env hook) in
        let blocking := default false (pd_Blocking hook) in
        match x with
        | Ok _ => ret (st, false)
        | Err (HookInProgress _) =>
            ret (if blocking then (sv_report PhaseDeploying #"PostDeployRunning" #"Post-deploy hook is currently running" st, true)
                 else (st, false))
        | Err e =>
            ret (if blocking then (sv_report PhaseFailed #"PostDeployFailed" (#"Post-deploy hook failed: " ++ hook_text e) st, false)
                 else (st, false))
        end
      else ret (st, false)
  | None => ret (st, false)
  end.
(** The entry of [desiredEnvNames], the status, and whether to requeue. *)
Definition reconcile_service (pg : PreviewGroup) (svc : PreviewGroupServiceSpec) : M (gostring * PreviewGroupServiceStatus * bool) :=
  let envName := childEnvironmentName (pg_Name pg) (gs_Name svc) in
  let targetNS := target_namespace svc in
  let id := targetNS ++ #"/" ++ envName in
  if str_eqb (gs_Mode svc) ServiceModeBaseline then
    ret (id, sv_set_Message #"Using baseline service" (sv_set_Phase PhaseRunning (new_service_status svc envName targetNS)), false)
  else
    let! x := sync_child pg svc envName targetNS in
    let '(child, st, again) := x in
    match child with
    | None => ret (id, st, again)
    | Some env => let! y := post_deploy svc env st in ret (id, fst y, again || snd y)
    end.
Fixpoint reconcile_services (pg : PreviewGroup) (services : list PreviewGroupServiceSpec)
    : M (list gostring * list PreviewGroupServiceStatus * bool) :=
  match services with
  | [] => ret ([], [], false)
  | svc :: services =>
      let! x := reconcile_service pg svc in
      let! y := reconcile_services pg services in
      let '(id, st, again) := x in
      let '(ids, sts, more) := y in
      ret (id :: ids, st :: sts, again || more)
  end.

(** *** The lifetime *)
(** Some: the group is live, with the delay until it has to be looked at again
    (zero for none). *)
Definition delete_group (what : gostring) (pg : PreviewGroup) : M unit :=
  do! cleanupRoutesAndEndpoints (pg_Name pg) in
  let! x := on_groups (obj_Delete None (r_key pg)) in
  do! or_return what x in done.
Definition ttl_of (pg : PreviewGroup) : option Z := l ← gp_Lifecycle (pg_Spec pg); gl_TTL l.
Definition check_ttl (pg : PreviewGroup) : M (PreviewGroup * Z) :=
  match ttl_of pg, gt_CreatedAt (pg_Status pg) with
  | Some ttl, Some created =>
      let expiryTime := Add created ttl in
      let pg := with_group_status (gt_set_ExpiresAt (Some expiryTime)) pg in
      if After (at_ttl clock) expiryTime then
        do! delete_group #"failed to delete expired PreviewGroup" pg in ret (pg, 0)
      else ret (pg, Sub expiryTime (until_ttl clock))
  | _, _ => ret (pg, 0)
  end.
Definition lease_timeout : Z := 90 * Second.
Definition check_lease (statusBase pg : PreviewGroup) (requeueAfter : Z) : M Z :=
  match gt_LeaseRenewedAt (pg_Status pg) with
  | None => ret requeueAfter
  | Some renewed =>
      let expiration := Add renewed lease_timeout in
      if After (at_lease clock) expiration then
        let! pg := patch_group statusBase (with_group_status (gt_set_Phase PreviewGroupPhaseAbandoned) pg) in
        do! delete_group #"failed to delete abandoned PreviewGroup" pg in ret 0
      else
        let d := Sub expiration (until_lease clock) in
        ret (if (requeueAfter =? 0) || (d <? requeueAfter) then d else requeueAfter)
  end.

(** *** Reconcile *)
Definition notify_group (prevPhase reason : gostring) (pg : PreviewGroup) : M unit :=
  let phase := gt_Phase (pg_Status pg) in
  when (gr_notifier r) (
    do! emit (UpdateGroupStatus phase) in
    if str_eqb phase prevPhase then ret tt
    else if str_eqb phase PreviewGroupPhaseRunning then emit PostGroupReady
    else if str_eqb phase PreviewGroupPhaseFailed || str_eqb phase PreviewGroupPhaseDegraded then emit (PostGroupFailed reason)
    else ret tt).
Definition set_condition (c : Condition) (st : PreviewGroupStatus) : PreviewGroupStatus :=
  gt_set_Conditions (SetStatusCondition (gt_Conditions st) c) st.
Definition invalid_name (statusBase pg : PreviewGroup) (errs : list gostring) : M unit :=
  let c := mkCondition #"Ready" ConditionFalse #"InvalidName"
             (#"PreviewGroup name " ++ Quote (pg_Name pg) ++ #" is invalid as a label value: " ++ Join errs #", ")
             (pg_Generation pg) time_zero in
  let! _ := patch_group statusBase (with_group_status (fun st => set_condition c (gt_set_Phase PreviewGroupPhaseFailed st)) pg) in
  done.
(** The status of the services, reported. *)
Definition report_services (statusBase pg : PreviewGroup) (statuses : list PreviewGroupServiceStatus) : M unit :=
  let count := Z.of_nat (length (gp_Services (pg_Spec pg))) in
  let phase := derivePreviewGroupPhase statuses in
  let c := ready_condition pg phase count in
  let! pg := patch_group statusBase (with_group_status (fun st =>
      set_condition c (gt_set_Phase phase (gt_set_ServiceCount count (gt_set_Services statuses st)))) pg) in
  notify_group (gt_Phase (pg_Status statusBase)) (cond_Reason c) pg.
Definition started (pg : PreviewGroup) : PreviewGroup :=
  with_group_status (fun st =>
    let st := gt_set_ObservedGeneration (pg_Generation pg) st in
    match gt_CreatedAt st with None => gt_set_CreatedAt (Some (at_created clock)) st | Some _ => st end) pg.
Definition reconcile_live (statusBase : PreviewGroup) : M unit :=
  let! x := check_ttl (started statusBase) in
  let '(pg, requeueAfter) := x in
  let! requeueAfter := check_lease statusBase pg requeueAfter in
  do! (match IsValidLabelValue r (pg_Name pg) with [] => ret tt | errs => invalid_name statusBase pg errs end) in
  let! x := reconcile_services pg (gp_Services (pg_Spec pg)) in
  let '(desired, statuses, again) := x in
  do! deleteOrphanedEnvironments pg desired in
  do! report_services statusBase pg statuses in
  if 0 <? requeueAfter then requeue requeueAfter
  else if again : bool then requeue Second
  else done.
Definition add_finalizer (pg : PreviewGroup) : M unit :=
  let! u := on_groups (obj_Update (pg_set_Finalizers (pg_Finalizers pg ++ [previewGroupFinalizer]) pg)) in
  do! or_return #"failed to add finalizer" u in
  do! emit (Recorded #"Created") in done.
Definition reconcile_group (pg : PreviewGroup) : M unit :=
  match pg_DeletionTimestamp pg with
  | Some _ => handleTeardown pg
  | None =>
      if bool_decide (previewGroupFinalizer ∈ pg_Finalizers pg) then reconcile_live pg else add_finalizer pg
  end.
Definition reconcile_body (name : gostring) : M unit :=
  let! got := on_groups (obj_Get ([], name)) in
  match got with
  | Ok pg => reconcile_group pg
  | Err NotFound => done
  | Err e => fail (GroupError [] e)
  end.
(** Every path of the body returns. *)
Definition Reconcile (name : gostring) (w : W) : outcome group_error * W :=
  match reconcile_body name w with
  | (inl o, w1) => (o, w1)
  | (inr _, w1) => (mkOutcome 0 None, w1)
  end.
End Controller.
