(* ===== verification/PreviewGroupFacts.v ===== *)
(** * What the preview group controller guarantees

    A run touches only the group's own environments; in a live group it makes
    every service's environment what the group asks for and removes the
    others; the reported phase is that of the services; a deleted group is
    released only when its environments are gone; an expired group is deleted,
    and a live one is looked at again before it expires. *)

From S2P Require Import Prelude GoStrings GoCrypto GoTime GoQuote TokenStore KubeApi AgentTask ResourceNames.
From S2P Require Import EnvTypes GroupTypes Conditions EarlyReturn ObjectApi Resources HookJobs PreviewGroupController.
Local Open Scope Z_scope.

(** ** The phase of a group *)
Lemma count_phase_zero p l : count_phase p l = 0%nat <-> forall s, s ∈ l -> sv_Phase s <> p.
Proof.
  unfold count_phase. rewrite length_zero_iff_nil. split.
  - intros H s Hs Hp. assert (s ∈ filter (fun s => sv_Phase s = p) l) as Hin by (by apply list_elem_of_filter).
    rewrite H in Hin. by apply not_elem_of_nil in Hin.
  - intros H. destruct (filter (fun s => sv_Phase s = p) l) as [|s t] eqn:Ef; [done|].
    assert (s ∈ filter (fun s => sv_Phase s = p) l) as [Hp Hs]%list_elem_of_filter by (rewrite Ef; by left). by apply H in Hs.
Qed.
Lemma count_phase_all p l : count_phase p l = length l <-> forall s, s ∈ l -> sv_Phase s = p.
Proof.
  unfold count_phase. split.
  - intros H s Hs. induction l as [|x l IH]; [by apply not_elem_of_nil in Hs|]. rewrite filter_cons in H.
    pose proof (length_filter (fun s => sv_Phase s = p) l) as Hl. destruct (decide (sv_Phase x = p)) as [Hx|Hx]; cbn in H; [|lia].
    apply elem_of_cons in Hs as [->|Hs]; [done|]. apply IH; [lia|done].
  - intros H. induction l as [|x l IH]; [done|]. rewrite filter_cons, decide_True by (apply H; by left). cbn. f_equal.
    apply IH. intros s Hs. apply H. by right.
Qed.

Lemma phases_differ : PhaseRunning <> PhaseFailed /\ PhaseRunning <> PhaseDeploying /\ PhaseFailed <> PhaseDeploying.
Proof. by vm_compute. Qed.

(** the phase of a group is that of its services together: Running and
    Failed when all of them are, Degraded when some failed and some did not,
    Deploying when none failed and one is deploying, Pending otherwise. *)
Theorem derivePreviewGroupPhase_spec l :
  let all p := forall s, s ∈ l -> sv_Phase s = p in
  let some p := exists s, s ∈ l /\ sv_Phase s = p in
  (derivePreviewGroupPhase l = PreviewGroupPhaseRunning <-> l <> [] /\ all PhaseRunning) /\
  (derivePreviewGroupPhase l = PreviewGroupPhaseFailed <-> l <> [] /\ all PhaseFailed) /\
  (derivePreviewGroupPhase l = PreviewGroupPhaseDegraded <-> some PhaseFailed /\ ~ all PhaseFailed) /\
  (derivePreviewGroupPhase l = PreviewGroupPhaseDeploying <-> ~ some PhaseFailed /\ some PhaseDeploying) /\
  (derivePreviewGroupPhase l = PreviewGroupPhasePending <->
     ~ some PhaseFailed /\ ~ some PhaseDeploying /\ (l = [] \/ ~ all PhaseRunning)).
Proof.
  cbv zeta. rewrite <- !count_phase_all.
  assert (forall p, (exists s, s ∈ l /\ sv_Phase s = p) <-> (0 < count_phase p l)%nat) as Hs.
  { intros p. destruct (count_phase p l) as [|n] eqn:E.
    - rewrite count_phase_zero in E. split; [|lia]. intros (s & H & Hp). by apply E in Hp.
    - split; [lia|]. intros _. destruct (filter (fun s => sv_Phase s = p) l) as [|s t] eqn:Ef; [unfold count_phase in E; by rewrite Ef in E|].
      assert (s ∈ filter (fun s => sv_Phase s = p) l) as [? ?]%list_elem_of_filter by (rewrite Ef; by left). eauto. }
  rewrite !Hs. assert (l <> [] <-> length l <> 0%nat) as -> by (by destruct l).
  assert (l = [] <-> length l = 0%nat) as -> by (by destruct l).
  assert (count_phase PhaseRunning l + count_phase PhaseFailed l + count_phase PhaseDeploying l <= length l)%nat as Hsum.
  { clear Hs. unfold count_phase. induction l as [|x l IH]; [done|]. rewrite !filter_cons.
    pose proof phases_differ as (D1 & D2 & D3). repeat case_decide; cbn; try lia; exfalso; congruence. }
  unfold derivePreviewGroupPhase. generalize dependent (count_phase PhaseRunning l). generalize (count_phase PhaseFailed l).
  generalize (count_phase PhaseDeploying l), (length l). clear Hs l. intros d n f g H.
  destruct (n =? 0)%nat eqn:E1; [|destruct (g =? n)%nat eqn:E2; [|destruct (f =? n)%nat eqn:E3; [|
    destruct (0 <? f)%nat eqn:E4; [|destruct (0 <? d)%nat eqn:E5]]]]; bool_simpl;
    repeat apply conj; first [intros _; reflexivity | intros _; lia | intros ?; exfalso; lia |
      let E := fresh in intros E; exfalso; revert E; by vm_compute].
Qed.

Section Runs.
Context {U : GoUnicode} {O : ConditionOps} {G E J R D : Type}.
Context {GA : ObjectApi PreviewGroup G} {EA : ObjectApi Environment E} {JA : ObjectApi Job J} {RA : ObjectApi Route R}.
Context {GL : ObjectApiLaws PreviewGroup G} {EL : ObjectApiLaws Environment E} {RL : ObjectApiLaws Route R}.
Abbreviation W := (group_world G E J R D).
Abbreviation M := (run (outcome group_error) W).
Context (r : PreviewGroupReconciler D) (clock : readings).
Implicit Types (P : E -> Prop) (F : outcome group_error -> W -> Prop).

(** ** What the pieces leave alone *)
Lemma groups_leave_envs {A} (f : G -> A * G) : leaves_of gw_envs (on_groups f : M A).
Proof. apply leaves_of_on. intros w. by destruct (f _). Qed.
Lemma jobs_leave_envs {A} (f : J -> A * J) : leaves_of gw_envs (on_jobs f : M A).
Proof. apply leaves_of_on. intros w. by destruct (f _). Qed.
Lemma db_leaves_envs {A} (f : D -> A * D) : leaves_of gw_envs (on_db f : M A).
Proof. apply leaves_of_on. intros w. by destruct (f _). Qed.
Lemma routes_leave_envs {A} k (f : R -> A * R) : leaves_of gw_envs (on_routes k f : M A).
Proof. apply leaves_of_on. intros w. destruct k; by destruct (f _). Qed.
Lemma emit_leaves_envs e : leaves_of gw_envs (emit e : M unit).
Proof. done. Qed.
Lemma or_return_leaves {A X} (f : W -> X) what (x : ares A) : leaves_of f (or_return what x : M A).
Proof. by destruct x. Qed.
Lemma or_gone_leaves {X} (f : W -> X) what (x : ares unit) : leaves_of f (or_gone what x : M unit).
Proof. destruct x as [[]|[]]; done. Qed.
Lemma envs_leave_groups {A} (f : E -> A * E) : leaves_of gw_groups (on_envs f : M A).
Proof. apply leaves_of_on. intros w. by destruct (f _). Qed.
Lemma jobs_leave_groups {A} (f : J -> A * J) : leaves_of gw_groups (on_jobs f : M A).
Proof. apply leaves_of_on. intros w. by destruct (f _). Qed.
Lemma db_leaves_groups {A} (f : D -> A * D) : leaves_of gw_groups (on_db f : M A).
Proof. apply leaves_of_on. intros w. by destruct (f _). Qed.
Lemma routes_leave_groups {A} k (f : R -> A * R) : leaves_of gw_groups (on_routes k f : M A).
Proof. apply leaves_of_on. intros w. destruct k; by destruct (f _). Qed.
Hint Resolve groups_leave_envs jobs_leave_envs db_leaves_envs routes_leave_envs emit_leaves_envs or_return_leaves or_gone_leaves
  envs_leave_groups jobs_leave_groups db_leaves_groups routes_leave_groups : leaves.
Hint Extern 1 (leaves_of _ (emit _)) => (intros ?; reflexivity) : leaves.
Hint Extern 1 (leaves_of _ done) => apply leaves_of_finish : leaves.
Hint Extern 1 (leaves_of _ (requeue _)) => apply leaves_of_finish : leaves.
Hint Extern 1 (leaves_of _ (fail _)) => apply leaves_of_finish : leaves.

Lemma cleanup_leaves {X} (f : W -> X) name : (forall A k (g : R -> A * R), leaves_of f (on_routes k g : M A)) ->
  leaves_of f (cleanupRoutesAndEndpoints r name : M unit).
Proof. intros H. unfold cleanupRoutesAndEndpoints, cleanup_kind. auto 20 with leaves. Qed.
Lemma patch_leaves_envs base pg : leaves_of gw_envs (patch_group base pg : M _).
Proof. unfold patch_group. auto with leaves. Qed.
Lemma delete_group_leaves_envs what pg : leaves_of gw_envs (delete_group r what pg : M _).
Proof. unfold delete_group. auto 10 using @cleanup_leaves with leaves. Qed.
Hint Resolve patch_leaves_envs delete_group_leaves_envs : leaves.
Lemma check_ttl_leaves pg : leaves_of gw_envs (check_ttl r clock pg : M _).
Proof. unfold check_ttl. destruct (ttl_of pg), (gt_CreatedAt (pg_Status pg)); auto 10 with leaves. Qed.
Lemma check_lease_leaves base pg d : leaves_of gw_envs (check_lease r clock base pg d : M _).
Proof. unfold check_lease. auto 15 with leaves. Qed.
Lemma invalid_name_leaves base pg errs : leaves_of gw_envs (invalid_name base pg errs : M _).
Proof. unfold invalid_name. auto 10 with leaves. Qed.
Lemma notify_leaves {X} (f : W -> X) p reason pg : (forall e, leaves_of f (emit e : M unit)) -> leaves_of f (notify_group r p reason pg : M _).
Proof. intros H. unfold notify_group. auto 10 with leaves. Qed.
Lemma report_leaves base pg sts : leaves_of gw_envs (report_services r base pg sts : M _).
Proof. unfold report_services. apply leaves_of_bind; [auto with leaves|]. intros pg'. by apply notify_leaves. Qed.
Lemma post_deploy_leaves svc env st : leaves_of gw_envs (post_deploy r svc env st : M _).
Proof.
  unfold post_deploy. destruct (gs_PostDeploy svc) as [hook|]; [|auto with leaves]. destruct (str_eqb _ _); [|auto with leaves].
  apply leaves_of_bind; [auto with leaves|]. intros [[]|[]]; auto with leaves.
Qed.
Lemma add_finalizer_leaves pg : leaves_of gw_envs (add_finalizer pg : M _).
Proof. unfold add_finalizer. auto 10 with leaves. Qed.
Hint Resolve check_ttl_leaves check_lease_leaves invalid_name_leaves report_leaves post_deploy_leaves add_finalizer_leaves : leaves.

(** ** Calls on the environments *)
Lemma triple_envs {A} P (f : E -> A * E) (Q : A -> E -> Prop) F : (forall e, P e -> Q (fst (f e)) (snd (f e))) ->
  triple (fun w => P (gw_envs w)) (on_envs f) (fun a w => Q a (gw_envs w)) F.
Proof. intros H. apply triple_on. intros w a w' Hw Hf. specialize (H _ Hw). destruct (f (gw_envs w)). by injection Hf as <- <-. Qed.
Definition found (k : obj_key) (a : ares Environment) (e : E) : Prop :=
  match a with Ok o => stored e !! k = Some o | Err NotFound => stored e !! k = None | _ => True end.
Lemma triple_get P k F : triple (fun w => P (gw_envs w)) (on_envs (obj_Get k))
  (fun a w => P (gw_envs w) /\ found k a (gw_envs w)) F.
Proof.
  apply (triple_envs P (obj_Get k) (fun a e => P e /\ found k a e)). intros e He. rewrite obj_Get_pure. split; [done|].
  pose proof (obj_Get_Ok k e) as H1. pose proof (obj_Get_NotFound k e) as H2. unfold found. destruct (fst _) as [o|[]]; auto.
Qed.
Definition listed (sel : labels) (ns : gostring) (a : ares (list Environment)) (e : E) : Prop :=
  forall l, a = Ok l -> forall o, o ∈ l <-> stored e !! r_key o = Some o /\ selected sel ns o.
Lemma triple_list P sel ns F : triple (fun w => P (gw_envs w)) (on_envs (obj_List sel ns))
  (fun a w => P (gw_envs w) /\ listed sel ns a (gw_envs w)) F.
Proof.
  apply (triple_envs P (obj_List sel ns) (fun a e => P e /\ listed sel ns a e)). intros e He. rewrite obj_List_pure.
  split; [done|]. exact (obj_List_Ok sel ns e).
Qed.
(** A step that does not touch the environments. *)
Lemma triple_other {A X} P (m : M A) (f : A -> M X) Q F : leaves_of gw_envs m -> (forall o w, P (gw_envs w) -> F o w) ->
  (forall a, triple (fun w => P (gw_envs w)) (f a) Q F) -> triple (fun w => P (gw_envs w)) (bind m f) Q F.
Proof.
  intros Hm HF Hf. eapply triple_bind; [|exact Hf]. eapply triple_mono; [exact (triple_leaves gw_envs m P Hm)|auto..].
Qed.
Lemma triple_quiet {A} P (m : M A) F : leaves_of gw_envs m -> (forall o w, P (gw_envs w) -> F o w) ->
  triple (fun w => P (gw_envs w)) m (fun _ w => P (gw_envs w)) F.
Proof. intros Hm HF. eapply triple_mono; [exact (triple_leaves gw_envs m P Hm)|auto..]. Qed.
End Runs.
#[export] Hint Resolve groups_leave_envs jobs_leave_envs db_leaves_envs routes_leave_envs emit_leaves_envs or_return_leaves or_gone_leaves
  envs_leave_groups jobs_leave_groups db_leaves_groups routes_leave_groups patch_leaves_envs delete_group_leaves_envs
  check_ttl_leaves check_lease_leaves invalid_name_leaves report_leaves post_deploy_leaves add_finalizer_leaves : leaves.
#[export] Hint Extern 1 (leaves_of _ (emit _)) => (intros ?; reflexivity) : leaves.
#[export] Hint Extern 1 (leaves_of _ done) => apply leaves_of_finish : leaves.
#[export] Hint Extern 1 (leaves_of _ (requeue _)) => apply leaves_of_finish : leaves.
#[export] Hint Extern 1 (leaves_of _ (fail _)) => apply leaves_of_finish : leaves.

(** ** Only the group's own environments *)
Section Confined.
Context {U : GoUnicode} {O : ConditionOps} {G E J R D : Type}.
Context {GA : ObjectApi PreviewGroup G} {EA : ObjectApi Environment E} {JA : ObjectApi Job J} {RA : ObjectApi Route R}.
Context {GL : ObjectApiLaws PreviewGroup G} {EL : ObjectApiLaws Environment E} {RL : ObjectApiLaws Route R}.
Abbreviation W := (group_world G E J R D).
Abbreviation M := (run (outcome group_error) W).
Context (r : PreviewGroupReconciler D) (clock : readings).
Context (k : obj_key) (x : option Environment) (F : outcome group_error -> W -> Prop).
(** What is stored under the key. *)
Definition at_key (e : E) : Prop := stored e !! k = x.
Abbreviation Inv := (fun w : W => at_key (gw_envs w)).
Context (HF : forall o w, at_key (gw_envs w) -> F o w).

Lemma confined_delete pre k' : k' <> k -> triple Inv (on_envs (obj_Delete pre k')) (fun _ => Inv) F.
Proof.
  intros Hk. apply (triple_envs at_key _ (fun _ => at_key)). intros e He. unfold at_key in *. rewrite <- He.
  destruct (obj_Delete pre k' e) as [a e'] eqn:Ed. by eapply Delete_other.
Qed.
Lemma confined_create o : r_key o <> k -> triple Inv (on_envs (obj_Create o)) (fun _ => Inv) F.
Proof.
  intros Hk. apply (triple_envs at_key _ (fun _ => at_key)). intros e He. unfold at_key in *. rewrite <- He.
  destruct (obj_Create o e) as [a e'] eqn:Ed. by eapply Create_other.
Qed.
Lemma confined_update (o : Environment) : r_key o <> k -> triple Inv (on_envs (obj_Update o)) (fun _ => Inv) F.
Proof.
  intros Hk. apply (triple_envs at_key _ (fun _ => at_key)). intros e He. unfold at_key in *. rewrite <- He.
  destruct (obj_Update o e) as [a e'] eqn:Ed. by eapply Update_other.
Qed.
Lemma confined_quiet {A} (m : M A) : leaves_of gw_envs m -> triple Inv m (fun _ => Inv) F.
Proof using HF. intros Hm. by apply (triple_quiet at_key). Qed.

Lemma confined_sync pg svc n ns : (ns, n) <> k -> triple Inv (sync_child r pg svc n ns : M _) (fun _ => Inv) F.
Proof using EL HF.
  intros Hk. unfold sync_child. eapply triple_bind; [apply (triple_get at_key)|]. intros got. cbv beta.
  destruct got as [existing|e].
  - destruct (needsUpdate _ _); [|by apply triple_ret; tauto].
    assert (triple (fun w => at_key (gw_envs w) /\ found (ns, n) (Ok existing) (gw_envs w))
      (on_envs (obj_Update (synced existing (buildChildEnvironment (gr_gamma r) pg svc n ns)))) (fun _ => Inv) F) as Hu.
    { intros w [Hw Hs]. refine (confined_update _ _ w Hw). cbn in Hs. apply stored_key in Hs. cbn in Hs.
      change (r_key _) with (ev_Namespace existing, ev_Name existing). by rewrite Hs. }
    apply (triple_bind _ _ _ (fun _ => Inv)); [|intros env; by apply triple_ret].
    eapply triple_bind; [exact Hu|]. intros u. apply (triple_bind _ _ _ (fun _ => Inv)); [apply confined_quiet; auto with leaves|].
    intros env. apply confined_quiet. auto with leaves.
  - apply (triple_mono Inv _ _ (fun _ => Inv) _ F _); [|tauto|auto|auto].
    assert (triple Inv (on_envs (obj_Create (buildChildEnvironment (gr_gamma r) pg svc n ns))) (fun _ => Inv) F) as Hc by (by apply confined_create).
    destruct e; try (apply triple_finish; auto). apply (triple_bind _ _ _ (fun _ => Inv)); [exact Hc|].
    intros [env|[]]; by apply triple_ret.
Qed.
Lemma confined_service pg svc : (gs_Mode svc <> ServiceModeBaseline -> (target_namespace svc, childEnvironmentName (pg_Name pg) (gs_Name svc)) <> k) ->
  triple Inv (reconcile_service r pg svc : M _) (fun _ => Inv) F.
Proof using EL HF.
  intros Hk. unfold reconcile_service, str_eqb. case_bool_decide as Hm; [by apply triple_ret|].
  eapply triple_bind; [apply confined_sync; auto|]. intros [[child st] again]. destruct child as [env|]; [|by apply triple_ret].
  apply confined_quiet. auto with leaves.
Qed.
Lemma confined_services pg l : (forall svc, svc ∈ l -> gs_Mode svc <> ServiceModeBaseline ->
    (target_namespace svc, childEnvironmentName (pg_Name pg) (gs_Name svc)) <> k) ->
  triple Inv (reconcile_services r pg l : M _) (fun _ => Inv) F.
Proof using EL HF.
  induction l as [|svc l IH]; intros Hk; [by apply triple_ret|]. cbn.
  eapply triple_bind; [apply confined_service; intros; apply Hk; [by left|done]|]. intros a.
  eapply triple_bind; [apply IH; intros; apply Hk; [by right|done]|]. intros b. destruct a as [[??]?], b as [[??]?]. by apply triple_ret.
Qed.

Context (pg : PreviewGroup) (Hx : forall env, x = Some env -> ~ group_labels pg ⊆ ev_Labels env).
(** A listed child is not the object under the key. *)
Lemma child_elsewhere ns l e : at_key e -> listed (group_labels pg) ns (Ok l) e -> forall child, child ∈ l -> r_key child <> k.
Proof using Hx EL.
  intros He Hl child Hc Hk. apply (Hl l eq_refl) in Hc as [Hs [Hsel _]]. rewrite Hk in Hs. apply (Hx child); [|exact Hsel].
  unfold at_key in He. congruence.
Qed.
Lemma confined_orphans desired l : (forall child, child ∈ l -> r_key child <> k) ->
  triple Inv (delete_orphans desired l : M _) (fun _ => Inv) F.
Proof using EL HF.
  induction l as [|child l IH]; intros Hl; [by apply triple_ret|]. cbn.
  assert (triple Inv (delete_orphans desired l : M _) (fun _ => Inv) F) as Hrest by (apply IH; intros; apply Hl; by right).
  destruct (_ || _); [exact Hrest|].
  eapply triple_bind; [apply confined_delete, Hl; by left|]. intros [[]|[]]; try (by apply triple_ret);
    (apply (triple_bind _ _ _ (fun _ => Inv)); [apply confined_quiet; auto with leaves|]; intros ?; exact Hrest).
Qed.
Lemma confined_delete_orphaned desired : triple Inv (deleteOrphanedEnvironments pg desired : M _) (fun _ => Inv) F.
Proof using EL HF Hx.
  unfold deleteOrphanedEnvironments, listChildEnvironments. eapply triple_bind; [apply (triple_list at_key)|]. intros [l|e]; [|by apply triple_ret; tauto].
  intros w [Hw Hl]. refine (confined_orphans desired l _ w Hw). by eapply child_elsewhere.
Qed.
Lemma confined_teardown : triple Inv (handleTeardown r pg : M _) (fun _ => Inv) F.
Proof using EL HF Hx.
  unfold handleTeardown. case_bool_decide as Hf; [|apply triple_finish; auto].
  apply (triple_bind _ _ _ (fun _ => Inv)); [apply confined_quiet; auto with leaves|]. intros _.
  apply (triple_bind _ _ _ (fun _ => Inv)); [apply confined_quiet, cleanup_leaves; auto with leaves|]. intros _.
  eapply triple_bind; [apply (triple_list at_key)|]. intros l. cbv beta.
  apply (triple_bind _ _ _ (fun children w => at_key (gw_envs w) /\ forall child, child ∈ children -> r_key child <> k)).
  { destruct l as [l|e]; [|apply triple_finish; intros w [Hw _]; auto]. apply triple_ret. intros w [Hw Hl]. split; [done|].
    by eapply child_elsewhere. }
  intros children. apply triple_pure. intros Hc.
  apply (triple_bind _ _ _ (fun _ => Inv)).
  - apply triple_each. intros child Hin. unfold teardown_child. destruct (ev_DeletionTimestamp child); [by apply triple_ret|].
    apply (triple_bind _ _ _ (fun _ => Inv)).
    { apply confined_quiet. destruct (gr_database r); [|auto with leaves]. destruct (str_eqb _ _); auto with leaves. }
    intros _. apply (triple_bind _ _ _ (fun _ => Inv)); [by apply confined_delete, Hc|]. intros [[]|[]]; apply confined_quiet; auto with leaves.
  - intros _. apply confined_quiet. destruct children; auto 15 with leaves.
Qed.

Lemma check_ttl_keeps g : triple (fun _ => True) (check_ttl r clock g : M _)
  (fun a _ => exists f, fst a = with_group_status f g) (fun _ _ => True).
Proof using F.
  unfold check_ttl. destruct (ttl_of g), (gt_CreatedAt (pg_Status g)); try (apply triple_ret; intros; exists (fun s => s); by destruct g).
  destruct (After _ _); [|apply triple_ret; intros; by eexists].
  apply (triple_bind _ _ _ (fun _ _ => True)); [|intros ?; apply triple_ret; intros; by eexists].
  intros w _. by destruct (delete_group r _ _ w) as [[]].
Qed.
Lemma triple_and {A} P (m : M A) Q Q' F' : triple P m Q F' -> triple (fun _ => True) m Q' (fun _ _ => True) ->
  triple P m (fun a w => Q a w /\ Q' a w) F'.
Proof using F. intros H1 H2 w Hw. specialize (H1 w Hw). specialize (H2 w I). destruct (m w) as [[o|a] w']; auto. Qed.

Lemma confined_group : (forall svc, svc ∈ gp_Services (pg_Spec pg) -> gs_Mode svc <> ServiceModeBaseline ->
    (target_namespace svc, childEnvironmentName (pg_Name pg) (gs_Name svc)) <> k) ->
  triple Inv (reconcile_group r clock pg : M _) (fun _ => Inv) F.
Proof using EL HF Hx.
  intros Hk. unfold reconcile_group. destruct (pg_DeletionTimestamp pg); [apply confined_teardown|].
  case_bool_decide; [|apply confined_quiet; auto with leaves]. unfold reconcile_live.
  eapply triple_bind; [eapply triple_and; [apply confined_quiet; auto with leaves|apply check_ttl_keeps]|].
  intros [g d]. apply triple_pure. intros [f Hg]. cbn in Hg. subst g.
  apply (triple_bind _ _ _ (fun _ => Inv)); [apply confined_quiet; auto with leaves|]. intros d'.
  apply (triple_bind _ _ _ (fun _ => Inv)); [apply confined_quiet; destruct (IsValidLabelValue _ _); auto with leaves|]. intros _.
  eapply triple_bind; [by apply confined_services|]. intros [[desired statuses] again].
  apply (triple_bind _ _ _ (fun _ => Inv)); [apply confined_delete_orphaned|]. intros _.
  apply confined_quiet. apply leaves_of_bind; [auto with leaves|]. intros _. destruct (0 <? d'), again; auto with leaves.
Qed.
End Confined.

Section Theorems.
Context {U : GoUnicode} {O : ConditionOps} {G E J R D : Type}.
Context {GA : ObjectApi PreviewGroup G} {EA : ObjectApi Environment E} {JA : ObjectApi Job J} {RA : ObjectApi Route R}.
Context {GL : ObjectApiLaws PreviewGroup G} {EL : ObjectApiLaws Environment E} {RL : ObjectApiLaws Route R}.
Abbreviation W := (group_world G E J R D).
Abbreviation M := (run (outcome group_error) W).
Context (r : PreviewGroupReconciler D) (clock : readings).

(** A run on a stored group, or one that did not read it. *)
Lemma reconcile_read name pg (w : W) o w' (Q : W -> Prop) F : stored (gw_groups w) !! ([], name) = Some pg ->
  Reconcile r clock name w = (o, w') -> Q w -> (forall o w, Q w -> F o w) ->
  triple (fun w => Q w /\ stored (gw_groups w) !! ([], name) = Some pg) (reconcile_group r clock pg : M unit) (fun _ w => forall o, F o w) F ->
  (forall w x, Q w -> Q (mkGroupWorld x (gw_envs w) (gw_jobs w) (gw_http w) (gw_grpc w) (gw_slices w) (gw_db w) (gw_events w))) ->
  F o w'.
Proof.
  intros Hs Hr HQ HF Ht Hset. unfold Reconcile, reconcile_body, bind, on_groups, on in Hr.
  pose proof (obj_Get_pure ([], name) (gw_groups w)) as Hp. pose proof (obj_Get_Ok ([], name) (gw_groups w)) as Hg.
  destruct (obj_Get _ (gw_groups w)) as [[pg'|e] g]; cbn in Hp, Hg; subst g.
  - specialize (Hg _ eq_refl). rewrite Hs in Hg. injection Hg as <-.
    specialize (Ht (mkGroupWorld (gw_groups w) (gw_envs w) (gw_jobs w) (gw_http w) (gw_grpc w) (gw_slices w) (gw_db w) (gw_events w))).
    specialize (Ht (conj (Hset w (gw_groups w) HQ) Hs)). destruct (reconcile_group _ _ _ _) as [[o1|u] w1]; injection Hr as <- <-; auto.
  - assert (F o w'); [|done]. destruct e; injection Hr as <- <-; apply HF, Hset, HQ.
Qed.

(** C22: a run of the controller leaves every environment as it is that does
    not carry the labels of the group, unless it is stored under the name and
    namespace of the child of a service that is deployed. *)
Theorem group_confined name pg (w w' : W) o k : stored (gw_groups w) !! ([], name) = Some pg ->
  (forall env, stored (gw_envs w) !! k = Some env -> ~ group_labels pg ⊆ ev_Labels env) ->
  (forall svc, svc ∈ gp_Services (pg_Spec pg) -> gs_Mode svc <> ServiceModeBaseline ->
     (target_namespace svc, childEnvironmentName (pg_Name pg) (gs_Name svc)) <> k) ->
  Reconcile r clock name w = (o, w') -> stored (gw_envs w') !! k = stored (gw_envs w) !! k.
Proof using GL EL.
  intros Hs Hx Hk Hr. set (x := stored (gw_envs w) !! k) in *.
  apply (reconcile_read name pg w o w' (fun w => at_key k x (gw_envs w)) (fun _ w => at_key k x (gw_envs w)) Hs Hr); auto; try done.
  eapply triple_mono; [apply (confined_group r clock k x (fun _ w => at_key k x (gw_envs w))); auto|..]; tauto || auto.
Qed.

(** ** Teardown *)
(** The objects selected are gone or being deleted. *)
Definition cleared {Ob X} `{ObjectApiLaws Ob X} (sel : labels) (x : X) : Prop :=
  forall k (o : Ob), stored x !! k = Some o -> sel ⊆ r_labels o -> is_Some (r_deletion o).
Definition routes_of (k : route_kind) (w : W) : R :=
  match k with HTTPRoute => gw_http w | GRPCRoute => gw_grpc w | EndpointSlice => gw_slices w end.
Definition routes_cleared (k : route_kind) (name : gostring) (w : W) : Prop := cleared (route_selector k name) (routes_of k w).

Lemma routes_get_set {A} k (f : R -> A * R) (w : W) : exists w', on_routes k f w = (inr (fst (f (routes_of k w))), w') /\
  routes_of k w' = snd (f (routes_of k w)).
Proof. unfold on_routes, on, routes_of. destruct k; destruct (f _) as [a x]; by eexists. Qed.
(** What is left to delete. *)
Definition remaining (sel : labels) (items : list Route) (x : R) : Prop :=
  forall k (o : Route), stored x !! k = Some o -> sel ⊆ r_labels o -> is_Some (r_deletion o) \/ k ∈ map r_key items.
Lemma delete_remaining sel item items pre (x x' : R) res : remaining sel (item :: items) x ->
  obj_Delete (Ob := Route) pre (r_key item) x = (res, x') -> (forall e, res = Err e -> e = NotFound) -> remaining sel items x'.
Proof.
  intros Hr Hd He k o Ho Hsel. destruct (decide (k = r_key item)) as [->|Hne].
  - destruct res as [[]|e].
    + left. by eapply Delete_marks.
    + specialize (He e eq_refl) as ->. pose proof (obj_Delete_Err _ _ _ _ _ Hd) as Hs. apply obj_Delete_NotFound in Hd.
      rewrite Hs in Ho. congruence.
  - rewrite (Delete_other _ _ _ _ _ _ Hd Hne) in Ho. destruct (Hr k o Ho Hsel) as [?|Hin]; [by left|]. right.
    cbn in Hin. by apply elem_of_cons in Hin as [?|?].
Qed.
Lemma cleanup_kind_clears k name : k = EndpointSlice \/ (forall e, IsNoMatchError r e = false) ->
  triple (fun _ => True) (cleanup_kind r k name : M unit) (fun _ => routes_cleared k name) (fun _ _ => True).
Proof.
  intros Hk w _. unfold cleanup_kind, bind. destruct (routes_get_set k (obj_List (route_selector k name) []) w) as (w1 & -> & Hw1).
  pose proof (obj_List_pure (Ob := Route) (route_selector k name) [] (routes_of k w)) as Hp.
  pose proof (obj_List_Ok (Ob := Route) (route_selector k name) [] (routes_of k w)) as Hl.
  destruct (obj_List _ _ _) as [[items|e] x]; cbn [fst snd] in Hp, Hl, Hw1; rewrite Hp in Hw1; cbn [fst].
  - assert (remaining (route_selector k name) items (routes_of k w1)) as Hrem.
    { intros k' o Ho Hsel. right. rewrite Hw1 in Ho. apply list_elem_of_fmap. exists o. pose proof (stored_key _ _ _ Ho) as Hk'.
      split; [done|]. apply (Hl items eq_refl). rewrite Hk'. split; [done|]. split; [done|by left]. }
    clear Hl Hw1. revert w1 Hrem. induction items as [|item items IH]; intros w1 Hrem.
    + cbn. intros k' o Ho Hsel. destruct (Hrem k' o Ho Hsel) as [?|[]%not_elem_of_nil]; done.
    + cbn [each]. unfold bind.
      match goal with |- context [on_routes k (obj_Delete ?p _)] => set (pre := p) end.
      destruct (routes_get_set k (obj_Delete pre (r_key item)) w1) as (w2 & -> & Hw2).
      destruct (obj_Delete pre (r_key item) (routes_of k w1)) as [res x'] eqn:Ed. cbn [snd] in Hw2. subst x'. cbn [fst].
      destruct res as [[]|[]]; try exact I; cbn; apply IH; (eapply delete_remaining; [exact Hrem|exact Ed|]); naive_solver.
  - destruct k; [| |exact I]; destruct Hk as [?|Hn]; [done| |done|]; rewrite Hn; exact I.
Qed.

Definition all_cleared (name : gostring) (w : W) : Prop :=
  routes_cleared EndpointSlice name w /\
  ((forall e, IsNoMatchError r e = false) -> routes_cleared HTTPRoute name w /\ routes_cleared GRPCRoute name w).
Lemma kind_leaves_kind k k' name : k <> k' -> leaves_of (routes_of k') (cleanup_kind r k name : M unit).
Proof.
  intros Hk. assert (forall A (f : R -> A * R), leaves_of (routes_of k') (on_routes k f : M A)) as H.
  { intros A f. apply leaves_of_on. intros w. unfold routes_of. destruct k, k'; try done; by destruct (f _). }
  unfold cleanup_kind. auto 10 with leaves.
Qed.
Lemma cleanup_clears name : triple (fun _ => True) (cleanupRoutesAndEndpoints r name : M unit) (fun _ => all_cleared name) (fun _ _ => True).
Proof.
  unfold cleanupRoutesAndEndpoints, all_cleared.
  set (installed := forall e, IsNoMatchError r e = false).
  assert (forall k, k <> EndpointSlice -> triple (fun _ => True) (cleanup_kind r k name : M unit)
    (fun _ w => installed -> routes_cleared k name w) (fun _ _ => True)) as H.
  { intros k _ w Hw. pose proof (cleanup_kind_clears k name) as Hc.
    destruct (cleanup_kind r k name w) as [[o|u] w1] eqn:Ec; [done|]. intros Hi. specialize (Hc (or_intror Hi) w Hw). by rewrite Ec in Hc. }
  apply (triple_bind _ _ _ (fun _ w => installed -> routes_cleared HTTPRoute name w)); [by apply H|]. intros _.
  apply (triple_bind _ _ _ (fun _ w => (installed -> routes_cleared GRPCRoute name w) /\ (installed -> routes_cleared HTTPRoute name w))).
  { eapply triple_mono; [apply (triple_frame (routes_of HTTPRoute) _ (fun _ => True) (fun x => installed -> cleared (route_selector HTTPRoute name) x));
      [by apply kind_leaves_kind|by apply H]| | |].
    - intros w Hw. exact (conj I Hw).
    - intros a w [H1 H2]. exact (conj H1 H2).
    - done. }
  intros _. eapply triple_mono; [apply (triple_frame (routes_of GRPCRoute) _ (fun w => True /\ (installed -> cleared (route_selector HTTPRoute name) (routes_of HTTPRoute w)))
     (fun x => installed -> cleared (route_selector GRPCRoute name) x)); [by apply kind_leaves_kind|
     apply (triple_frame (routes_of HTTPRoute) _ (fun _ => True) (fun x => installed -> cleared (route_selector HTTPRoute name) x));
       [by apply kind_leaves_kind|apply cleanup_kind_clears; by left]]| | |].
  - intros w [H1 H2]. exact (conj (conj I H2) H1).
  - intros a w [[H1 H2] H3]. split; [exact H1|]. intros Hi. exact (conj (H2 Hi) (H3 Hi)).
  - done.
Qed.

(** The group is held by the finalizer, or nothing of it is left. *)
Definition no_children (pg : PreviewGroup) (w : W) : Prop :=
  forall k env, stored (gw_envs w) !! k = Some env -> ~ group_labels pg ⊆ ev_Labels env.
Definition held (name : gostring) (w : W) : Prop :=
  exists pg, stored (gw_groups w) !! ([], name) = Some pg /\ previewGroupFinalizer ∈ pg_Finalizers pg.
Definition quit (name : gostring) (pg : PreviewGroup) (w : W) : Prop :=
  held name w \/ (no_children pg w /\ all_cleared (pg_Name pg) w).
(** What the rest of a teardown without children leaves alone. *)
Definition leftovers (w : W) := (gw_envs w, gw_http w, gw_grpc w, gw_slices w).
Lemma leftovers_groups {A} (f : G -> A * G) : leaves_of leftovers (on_groups f : M A).
Proof. apply leaves_of_on. intros w. by destruct (f _). Qed.

Lemma teardown_quits name pg : pg_Namespace pg = [] -> previewGroupFinalizer ∈ pg_Finalizers pg ->
  triple (fun w => stored (gw_groups w) !! ([], name) = Some pg) (handleTeardown r pg : M unit)
    (fun _ => quit name pg) (fun _ => quit name pg).
Proof using EL RL.
  intros Hns Hf. unfold handleTeardown. rewrite bool_decide_true by done.
  assert (forall w, stored (gw_groups w) !! ([], name) = Some pg -> quit name pg w) as Hq by (intros w Hw; left; by exists pg).
  set (P := fun g : G => stored g !! ([], name) = Some pg).
  apply (triple_bind _ _ _ (fun _ w => P (gw_groups w))); [by apply triple_modify|]. intros _.
  apply (triple_bind _ _ _ (fun _ w => all_cleared (pg_Name pg) w /\ P (gw_groups w))).
  { eapply triple_mono; [apply (triple_frame gw_groups _ (fun _ => True) P); [apply cleanup_leaves; auto with leaves|apply cleanup_clears]| | |].
    - intros w Hw. exact (conj I Hw).
    - intros a w Hw. exact Hw.
    - intros o w [_ H]. by apply Hq. }
  intros _. unfold listChildEnvironments. rewrite Hns.
  apply (triple_bind _ _ _ (fun l w => (all_cleared (pg_Name pg) w /\ P (gw_groups w)) /\ listed (group_labels pg) [] l (gw_envs w))).
  { apply triple_on. intros w l w' [H1 H2] Hl. pose proof (obj_List_pure (Ob := Environment) (group_labels pg) [] (gw_envs w)) as Hp.
    pose proof (obj_List_Ok (Ob := Environment) (group_labels pg) [] (gw_envs w)) as Hok. destruct (obj_List _ _ (gw_envs w)) as [a x]. cbn [fst snd] in *.
    injection Hl as <- <-. split; [done|]. cbn. rewrite Hp. exact Hok. }
  intros l. apply (triple_bind _ _ _ (fun children w => ((all_cleared (pg_Name pg) w /\ P (gw_groups w)) /\ listed (group_labels pg) [] (Ok children) (gw_envs w)))).
  { destruct l as [l|e]; [by apply triple_ret|]. apply triple_finish. intros w [[_ H] _]. by apply Hq. }
  intros [|child more].
  - cbn [each]. intros w [[Hc _] Hl].
    assert (leaves_of leftovers (do! ret tt in do! when (gr_notifier r) (emit PostGroupTeardown) in
      let! u := on_groups (obj_Update (without_finalizer pg)) in
      do! or_return #"failed to remove finalizer" u in do! emit (Recorded #"Terminated") in done : M unit)) as Hlv.
    { pose proof @leftovers_groups as Hg. apply leaves_of_bind; [done|]. intros _. apply leaves_of_bind; [by apply leaves_of_when|]. intros _.
      apply leaves_of_bind; [apply Hg|]. intros u. apply leaves_of_bind; [apply or_return_leaves|]. done. }
    specialize (Hlv w). destruct ((do! ret tt in _) w) as [[o|u] w1]; cbn [snd] in Hlv; injection Hlv as H1 H2 H3 H4;
      right; (split; [intros k env Hk Hsel; rewrite H1 in Hk; pose proof (stored_key _ _ _ Hk) as Hkey;
        specialize (Hl [] eq_refl env) as [_ Hl]; rewrite Hkey in Hl; by apply (not_elem_of_nil env), Hl; split; [|split; [|left]]
      |unfold all_cleared, routes_cleared, routes_of in *; by rewrite H2, H3, H4]).
  - apply (triple_mono (fun w => P (gw_groups w)) _ _ (fun _ => quit name pg) _ (fun _ => quit name pg) _); [|tauto|auto|auto].
    assert (leaves_of gw_groups (do! each (teardown_child r) (child :: more) in requeue (2 * Second) : M unit)) as Hlv.
    { apply leaves_of_bind; [apply leaves_of_each|auto with leaves]. intros c. unfold teardown_child. destruct (ev_DeletionTimestamp c); [auto with leaves|].
      apply leaves_of_bind; [destruct (gr_database r); [destruct (str_eqb _ _)|]; auto with leaves|]. intros _.
      apply leaves_of_bind; [auto with leaves|]. intros [[]|[]]; auto with leaves. }
    eapply triple_mono; [exact (triple_leaves gw_groups _ P Hlv)|auto..].
Qed.

(** C8: when a run takes the finalizer off a deleted group, or the group is
    gone after it, no environment with the labels of the group is stored in any
    namespace, and the routes and endpoint slices with its label are gone or
    being deleted. *)
Theorem group_released_after_children name pg (w w' : W) o : stored (gw_groups w) !! ([], name) = Some pg ->
  is_Some (pg_DeletionTimestamp pg) -> previewGroupFinalizer ∈ pg_Finalizers pg ->
  Reconcile r clock name w = (o, w') -> held name w' \/ (no_children pg w' /\ all_cleared (pg_Name pg) w').
Proof using GL EL RL.
  intros Hs [t Hd] Hf Hr. assert (pg_Namespace pg = []) as Hns by (apply stored_key in Hs; by injection Hs).
  unfold Reconcile, reconcile_body, bind, on_groups, on in Hr.
  pose proof (obj_Get_pure ([], name) (gw_groups w)) as Hp. pose proof (obj_Get_Ok ([], name) (gw_groups w)) as Hg.
  destruct (obj_Get _ (gw_groups w)) as [[pg'|e] g]; cbn in Hp, Hg; subst g.
  - specialize (Hg _ eq_refl). rewrite Hs in Hg. injection Hg as <-. unfold reconcile_group in Hr. rewrite Hd in Hr.
    pose proof (teardown_quits name pg Hns Hf) as Ht. unfold triple in Ht.
    match type of Hr with context [handleTeardown r pg ?w0] => specialize (Ht w0 Hs) end.
    destruct (handleTeardown r pg _) as [[o1|u] w1]; injection Hr as <- <-; exact Ht.
  - left. exists pg. destruct e; injection Hr as _ <-; done.
Qed.
End Theorems.
