(* ===== verification/PreviewGroupLive.v ===== *)
(** * A live preview group

    What one run of the controller makes of a group that is neither deleted
    nor expired: the environments of its services and only those, a phase that
    does not promise more than they do, and another run before it expires.
    Then two cases in which it does not. *)

From S2P Require Import Prelude GoStrings GoCrypto GoTime GoQuote TokenStore KubeApi AgentTask ResourceNames.
From S2P Require Import EnvTypes GroupTypes Conditions EarlyReturn ObjectApi Resources HookJobs.
From S2P Require Import PreviewGroupController PreviewGroupFacts.
Local Open Scope Z_scope.

Definition child_key {U : GoUnicode} (pg : PreviewGroup) (svc : PreviewGroupServiceSpec) : obj_key :=
  (target_namespace svc, childEnvironmentName (pg_Name pg) (gs_Name svc)).
Definition service_id {U : GoUnicode} (pg : PreviewGroup) (svc : PreviewGroupServiceSpec) : gostring :=
  target_namespace svc ++ #"/" ++ childEnvironmentName (pg_Name pg) (gs_Name svc).
Definition deployed_services (pg : PreviewGroup) : list PreviewGroupServiceSpec :=
  filter (fun svc => gs_Mode svc <> ServiceModeBaseline) (gp_Services (pg_Spec pg)).

Section Live.
Context {U : GoUnicode} {O : ConditionOps} {G E J R D : Type}.
Context {GA : ObjectApi PreviewGroup G} {EA : ObjectApi Environment E} {JA : ObjectApi Job J} {RA : ObjectApi Route R}.
Context {GL : ObjectApiLaws PreviewGroup G} {EL : ObjectApiLaws Environment E} {RL : ObjectApiLaws Route R}.
Abbreviation W := (group_world G E J R D).
Abbreviation M := (run (outcome group_error) W).
Context (r : PreviewGroupReconciler D) (clock : readings).

(** The computation ends early only with an error. *)
Definition fails_only (o : outcome group_error) (w : W) : Prop := failure o <> None.
Lemma early_fail {A} P e (R' : A -> W -> Prop) : triple P (fail e : M A) R' fails_only.
Proof. by apply triple_finish. Qed.

(** ** One service *)
Definition desired_spec (pg : PreviewGroup) (svc : PreviewGroupServiceSpec) : EnvironmentSpec :=
  ev_Spec (buildChildEnvironment (gr_gamma r) pg svc (snd (child_key pg svc)) (target_namespace svc)).
Definition deployed_at (pg : PreviewGroup) (svc : PreviewGroupServiceSpec) (env : Environment) (e : E) : Prop :=
  stored e !! child_key pg svc = Some env /\ ev_Spec env = desired_spec pg svc /\ group_labels pg ⊆ ev_Labels env.
Definition deployed (pg : PreviewGroup) (svc : PreviewGroupServiceSpec) (e : E) : Prop := exists env, deployed_at pg svc env e.
Definition running_at (k : obj_key) (e : E) : Prop :=
  exists env, stored e !! k = Some env /\ et_Phase (ev_Status env) = PhaseRunning.

Lemma group_labels_named pg env : pg_Name pg <> [] ->
  map_Forall (fun k v => text_at (ev_Labels env) k = v) (group_labels pg) -> group_labels pg ⊆ ev_Labels env.
Proof.
  intros Hn H. apply map_subseteq_spec. intros k v Hk. specialize (H k v Hk). unfold text_at in H.
  destruct (ev_Labels env !! k) as [v'|]; cbn in H; [by f_equal|]. exfalso.
  assert (managedByGroup <> []) as Hm by (by vm_compute). unfold group_labels in Hk.
  apply lookup_insert_Some in Hk as [[_ Hk]|[_ Hk]]; [|apply lookup_singleton_Some in Hk as [_ Hk]]; congruence.
Qed.
Lemma synced_child pg svc existing cur g v : pg_Name pg <> [] ->
  let env := r_update cur (synced existing (buildChildEnvironment (gr_gamma r) pg svc (snd (child_key pg svc)) (target_namespace svc))) g v in
  ev_Spec env = desired_spec pg svc /\ group_labels pg ⊆ ev_Labels env.
Proof. done. Qed.
Lemma up_to_date pg svc existing : pg_Name pg <> [] ->
  needsUpdate existing (buildChildEnvironment (gr_gamma r) pg svc (snd (child_key pg svc)) (target_namespace svc)) = false ->
  ev_Spec existing = desired_spec pg svc /\ group_labels pg ⊆ ev_Labels existing.
Proof.
  intros Hn H. unfold needsUpdate in H. apply orb_false_iff in H as [H _]. apply orb_false_iff in H as [H1 H2].
  apply bool_decide_eq_false in H1. apply negb_false_iff, bool_decide_eq_true in H2. split; [by apply dec_stable|].
  by apply group_labels_named.
Qed.

(** What the status of a child reports. *)
Definition reports (child : option Environment) (st : PreviewGroupServiceStatus) : Prop :=
  match child with
  | Some env => sv_Phase st = PhaseRunning -> et_Phase (ev_Status env) = PhaseRunning
  | None => sv_Phase st <> PhaseRunning
  end.
Lemma child_status_phase env st : sv_Phase (child_status env st) = et_Phase (ev_Status env).
Proof.
  unfold child_status. destruct (str_eqb _ _); [|done]. by destruct (List.find _ _).
Qed.
Lemma sync_reports pg svc : pg_Name pg <> [] ->
  triple (fun _ => True) (sync_child r pg svc (snd (child_key pg svc)) (target_namespace svc) : M _)
    (fun a w => reports a.1.1 a.1.2 /\ match a.1.1 with Some env => deployed_at pg svc env (gw_envs w) | None => True end) fails_only.
Proof using EL.
  intros Hn. unfold sync_child. eapply triple_bind; [apply (triple_get (fun _ => True))|]. intros got. cbv beta.
  assert (PhasePending <> PhaseRunning /\ PhaseFailed <> PhaseRunning) as [Hp Hf] by (by vm_compute).
  set (desired := buildChildEnvironment _ _ _ _ _). destruct got as [existing|e].
  - destruct (needsUpdate existing desired) eqn:Eu.
    + apply (triple_bind _ _ _ (fun env w => deployed_at pg svc env (gw_envs w))).
      * apply (triple_bind _ _ _ (fun u w => forall env, u = Ok env -> deployed_at pg svc env (gw_envs w))).
        -- apply triple_on. intros w u w' [_ Hs] Hu. cbn in Hs. destruct (obj_Update _ (gw_envs w)) as [x e'] eqn:Eo. injection Hu as <- <-.
           intros env ->. apply obj_Update_Ok in Eo as (cur & g & v & Hc & _ & -> & Hst).
           pose proof (stored_key _ _ _ Hs) as Hk. change (r_key (synced existing desired)) with (r_key existing) in Hc. rewrite Hk, Hs in Hc.
           injection Hc as <-. destruct (synced_child pg svc existing existing g v Hn) as [H1 H2]. split; [|by split].
           cbn [gw_envs]. rewrite Hst. unfold put. assert (released (r_update existing (synced existing desired) g v) = false) as ->.
           { rewrite <- (stored_held _ _ _ Hs). done. }
           change (r_key (r_update existing _ g v)) with (r_key existing). rewrite Hk. by rewrite lookup_insert_eq.
        -- intros [env|e]; [|apply early_fail]. cbn. intros w Hw. specialize (Hw env eq_refl). exact Hw.
      * intros env. apply triple_ret. intros w Hw. cbn. split; [|done]. by rewrite child_status_phase.
    + apply triple_ret. intros w [_ Hs]. cbn. rewrite child_status_phase. split; [done|].
      split; [exact Hs|]. by apply up_to_date.
  - destruct e; try (apply triple_finish; done).
    apply (triple_bind _ _ _ (fun c w => match c with Ok env => deployed_at pg svc env (gw_envs w) | _ => True end)).
    + apply triple_on. intros w c w' _ Hc. destruct (obj_Create _ (gw_envs w)) as [x e'] eqn:Ec. injection Hc as <- <-.
      destruct x as [env|]; [|done]. apply obj_Create_Ok in Ec as (uid & now & v & _ & -> & Hst). split; [|done].
      cbn [gw_envs]. rewrite Hst. apply lookup_insert_eq.
    + intros [env|[]]; apply triple_ret; cbn; try done.
Qed.

(** ** All services

    [Pr] says of a service and its result something that depends on the
    environment stored under its key, if it has one. *)
Abbreviation service_result := (gostring * PreviewGroupServiceStatus * bool)%type.
Abbreviation at_ k := (fun w : W => stored (gw_envs w) !! k).
Lemma services_leave pg l k : (forall svc, svc ∈ l -> gs_Mode svc <> ServiceModeBaseline -> child_key pg svc <> k) ->
  leaves_of (at_ k) (reconcile_services r pg l : M _).
Proof using EL.
  intros Hk w. pose proof (confined_services r k (at_ k w) (fun _ w' => at_key k (at_ k w) (gw_envs w')) (fun _ _ H => H) pg l Hk w eq_refl) as H.
  by destruct (reconcile_services r pg l w) as [[o|a] w'].
Qed.
Section Services.
Context (pg : PreviewGroup) (Pr : PreviewGroupServiceSpec -> service_result -> option Environment -> Prop).
Context (Pr_baseline : forall svc a x x', gs_Mode svc = ServiceModeBaseline -> Pr svc a x -> Pr svc a x').
Context (F : outcome group_error -> W -> Prop).
Context (one : forall svc, triple (fun _ => True) (reconcile_service r pg svc : M _) (fun a w => Pr svc a (at_ (child_key pg svc) w)) F).
Definition results (l : list PreviewGroupServiceSpec) (y : list gostring * list PreviewGroupServiceStatus * bool) (w : W) : Prop :=
  exists rs, Forall2 (fun svc a => Pr svc a (at_ (child_key pg svc) w)) l rs /\ y.1.1 = map (fun a => a.1.1) rs /\ y.1.2 = map (fun a => a.1.2) rs.
Lemma services_results l : NoDup (map (child_key pg) (filter (fun svc => gs_Mode svc <> ServiceModeBaseline) l)) ->
  triple (fun _ => True) (reconcile_services r pg l : M _) (results l) F.
Proof using EL Pr_baseline one.
  induction l as [|svc l IH]; intros Hnd.
  - apply triple_ret. intros w _. exists []. done.
  - cbn [reconcile_services]. eapply triple_bind; [apply one|]. intros a. cbv beta.
    apply (triple_bind _ _ _ (fun y w => results l y w /\ Pr svc a (at_ (child_key pg svc) w))).
    + rewrite filter_cons in Hnd. destruct (decide (gs_Mode svc <> ServiceModeBaseline)) as [Hm|Hm].
      * cbn in Hnd. apply NoDup_cons in Hnd as [Hnin Hnd]. specialize (IH Hnd). eapply triple_mono;
          [apply (triple_frame (at_ (child_key pg svc)) _ (fun _ => True) (fun x => Pr svc a x)); [|exact IH]| | |].
        -- apply services_leave. intros svc' Hin Hm' Hk. apply Hnin. rewrite <- Hk. apply list_elem_of_fmap. exists svc'.
           split; [done|]. by apply list_elem_of_filter.
        -- intros w Hw. exact (conj I Hw).
        -- intros y w [H1 H2]. by split.
        -- intros o w [H _]. exact H.
      * specialize (IH Hnd). intros w Hw. specialize (IH w I). destruct (reconcile_services r pg l w) as [[o|y] w']; [done|].
        split; [done|]. eapply Pr_baseline; [by apply dec_stable|exact Hw].
    + intros [[ids sts] more]. destruct a as [[id st] again]. apply triple_ret. intros w [(rs & Hf & H1 & H2) Hp].
      exists ((id, st, again) :: rs). cbn in *. split; [by constructor|]. by rewrite H1, H2.
Qed.
End Services.

(** *** What is reported and what is deployed *)
Definition told (pg : PreviewGroup) (svc : PreviewGroupServiceSpec) (a : service_result) (x : option Environment) : Prop :=
  a.1.1 = service_id pg svc /\
  (sv_Phase a.1.2 = PhaseRunning -> gs_Mode svc = ServiceModeBaseline \/ exists env, x = Some env /\ et_Phase (ev_Status env) = PhaseRunning).
Lemma post_deploy_phase svc env st : triple (fun _ => True) (post_deploy r svc env st : M _)
  (fun y _ => sv_Phase y.1 = PhaseRunning -> sv_Phase st = PhaseRunning) fails_only.
Proof.
  assert (PhaseDeploying <> PhaseRunning /\ PhaseFailed <> PhaseRunning) as [Hp Hf] by (by vm_compute).
  unfold post_deploy. destruct (gs_PostDeploy svc) as [hook|]; [|by apply triple_ret].
  unfold str_eqb. case_bool_decide as E1; [|by apply triple_ret].
  apply (triple_bind _ _ _ (fun _ _ => True)); [apply triple_on; by intros|]. by intros [[]|[]]; destruct (default false (pd_Blocking hook)); apply triple_ret.
Qed.
Lemma service_told pg svc : pg_Name pg <> [] ->
  triple (fun _ => True) (reconcile_service r pg svc : M _) (fun a w => told pg svc a (at_ (child_key pg svc) w)) fails_only.
Proof using EL.
  intros Hn. unfold reconcile_service, str_eqb. case_bool_decide as Hm.
  { apply triple_ret. intros w _. split; [done|]. by left. }
  eapply triple_bind; [apply (sync_reports pg svc Hn)|]. intros [[child st] again]. cbn [fst snd].
  destruct child as [env|]; [|apply triple_ret; intros w [H _]; split; [done|]; intros Hr; by apply H in Hr].
  apply (triple_bind _ _ _ (fun y w => (sv_Phase y.1 = PhaseRunning -> sv_Phase st = PhaseRunning) /\
    (reports (Some env) st /\ deployed_at pg svc env (gw_envs w)))).
  - eapply triple_mono; [apply (triple_frame gw_envs _ (fun _ => True) (fun e => reports (Some env) st /\ deployed_at pg svc env e));
      [apply post_deploy_leaves|apply post_deploy_phase]| | |].
    + intros w Hw. exact (conj I Hw).
    + intros a w [H1 H2]. exact (conj H1 H2).
    + intros o w [H _]. exact H.
  - intros [st' more]. apply triple_ret. cbn. intros w (H1 & H2 & H3). split; [done|]. cbn. intros Hr. right. exists env.
    split; [apply H3|]. by apply H2, H1.
Qed.
Definition placed (pg : PreviewGroup) (svc : PreviewGroupServiceSpec) (a : service_result) (x : option Environment) : Prop :=
  a.1.1 = service_id pg svc /\
  (gs_Mode svc <> ServiceModeBaseline -> exists env, x = Some env /\ ev_Spec env = desired_spec pg svc /\ group_labels pg ⊆ ev_Labels env).
Lemma sync_total {ER : Reliable Environment E} pg svc :
  triple (fun _ => True) (sync_child r pg svc (snd (child_key pg svc)) (target_namespace svc) : M _) (fun a _ => a.1.1 <> None) (fun _ _ => False).
Proof.
  unfold sync_child. set (k := (target_namespace svc, snd (child_key pg svc))). set (desired := buildChildEnvironment _ _ _ _ _).
  apply (triple_bind _ _ _ (fun got w => match got with Ok o => stored (gw_envs w) !! k = Some o | Err e => e = NotFound /\ stored (gw_envs w) !! k = None end)).
  - apply triple_on. intros w a w' _ Hg. pose proof (obj_Get_pure (Ob := Environment) k (gw_envs w)) as Hp.
    destruct (stored (gw_envs w) !! k) as [env|] eqn:Es.
    + pose proof (Get_stored k (gw_envs w) env Es) as H. destruct (obj_Get k (gw_envs w)) as [x e]. cbn in *. injection Hg as <- <-. subst. done.
    + pose proof (Get_missing k (gw_envs w) Es) as H. destruct (obj_Get k (gw_envs w)) as [x e]. cbn in *. injection Hg as <- <-. by subst.
  - intros [existing|e].
    + destruct (needsUpdate existing desired); [|by apply triple_ret].
      apply (triple_bind _ _ _ (fun _ _ => True)); [|intros env; by apply triple_ret].
      apply (triple_bind _ _ _ (fun u _ => exists env, u = Ok env)).
      * apply triple_on. intros w u w' Hs Hu. pose proof (stored_key _ _ _ Hs) as Hk.
        destruct (Update_accepted (synced existing desired) (gw_envs w) existing) as [env He];
          [change (r_key (synced existing desired)) with (r_key existing); by rewrite Hk|done|].
        destruct (obj_Update _ (gw_envs w)). cbn in He. injection Hu as <- _. eauto.
      * intros u w [env ->]. exact I.
    + intros w [-> Hs]. unfold bind, on_envs, on. destruct (Create_accepted desired (gw_envs w) Hs) as [env He].
      destruct (obj_Create desired (gw_envs w)). cbn in He. by subst.
Qed.
Lemma service_placed {ER : Reliable Environment E} pg svc : pg_Name pg <> [] ->
  triple (fun _ => True) (reconcile_service r pg svc : M _) (fun a w => placed pg svc a (at_ (child_key pg svc) w)) (fun _ _ => False).
Proof.
  intros Hn. unfold reconcile_service, str_eqb. case_bool_decide as Hm.
  { apply triple_ret. intros w _. by split. }
  apply (triple_bind _ _ _ (fun a w => match a.1.1 with Some env => deployed_at pg svc env (gw_envs w) | None => False end)).
  - intros w Hw. pose proof (sync_reports pg svc Hn w I) as H1. pose proof (sync_total pg svc w I) as H2.
    change (childEnvironmentName _ _) with (snd (child_key pg svc)). destruct (sync_child _ _ _ _ _ w) as [[o|a] w']; [done|].
    destruct H1 as [_ H1]. by destruct (a.1.1).
  - intros [[[env|] st] again]; [|by intros w]. cbn [fst snd].
    apply (triple_bind _ _ _ (fun _ w => deployed_at pg svc env (gw_envs w))).
    + intros w Hw. pose proof (post_deploy_leaves r svc env st w) as Hl.
      assert (triple (fun _ => True) (post_deploy r svc env st : M _) (fun _ _ => True) (fun _ _ => False)) as Ht.
      { unfold post_deploy. destruct (gs_PostDeploy svc) as [hook|]; [|by apply triple_ret]. destruct (str_eqb _ _); [|by apply triple_ret].
        apply (triple_bind _ _ _ (fun _ _ => True)); [apply triple_on; by intros|]. by intros [[]|[]]; apply triple_ret. }
      specialize (Ht w I). destruct (post_deploy r svc env st w) as [[o|y] w']; [done|]. cbn in Hl. by rewrite Hl.
    + intros y. apply triple_ret. intros w (H1 & H2 & H3). split; [done|]. intros _. by exists env.
Qed.

(** ** The other environments of the group *)
Definition key_id (k : obj_key) : gostring := fst k ++ #"/" ++ snd k.
Lemma orphans_leave desired l k : key_id k ∈ desired -> leaves_of (at_ k) (delete_orphans desired l : M _).
Proof using EL.
  intros Hk. induction l as [|child l IH]; [done|]. cbn [delete_orphans]. destruct (bool_decide (child_id child ∈ desired)) eqn:Ed; [exact IH|]. cbn [orb].
  destruct (bool_decide (ev_Name child ∈ desired)); [exact IH|]. apply leaves_of_bind.
  - apply leaves_of_on. intros w. destruct (obj_Delete None (r_key child) (gw_envs w)) as [x e] eqn:E1. cbn.
    eapply Delete_other; [exact E1|]. intros ->. apply bool_decide_eq_false in Ed. by apply Ed.
  - intros [[]|[]]; auto with leaves.
Qed.
Lemma delete_orphaned_leaves pg desired k : key_id k ∈ desired -> leaves_of (at_ k) (deleteOrphanedEnvironments pg desired : M _).
Proof using EL.
  intros Hk. unfold deleteOrphanedEnvironments, listChildEnvironments. apply leaves_of_bind.
  - apply leaves_of_on. intros w. pose proof (obj_List_pure (Ob := Environment) (group_labels pg) (pg_Namespace pg) (gw_envs w)) as Hp.
    destruct (obj_List _ _ (gw_envs w)). cbn in *. by subst.
  - intros [l|e]; [by apply orphans_leave|done].
Qed.
Lemma orphans_never_fail pg desired : triple (fun _ => True) (deleteOrphanedEnvironments pg desired : M _) (fun _ _ => True) (fun _ _ => False).
Proof.
  unfold deleteOrphanedEnvironments. apply (triple_bind _ _ _ (fun _ _ => True)); [by apply triple_on|]. intros [l|e]; [|by apply triple_ret].
  induction l as [|child l IH]; [by apply triple_ret|]. cbn. destruct (_ || _); [exact IH|].
  apply (triple_bind _ _ _ (fun _ _ => True)); [by apply triple_on|].
  intros [[]|[]]; try (by apply triple_ret); (apply (triple_bind _ _ _ (fun _ _ => True)); [by apply triple_modify|]; intros _; exact IH).
Qed.
(** Every environment with the labels is wanted, or being deleted, or among [l]. *)
Definition wanted_or pg (desired : list gostring) (l : list Environment) (e : E) : Prop :=
  forall k env, stored e !! k = Some env -> group_labels pg ⊆ ev_Labels env ->
    child_id env ∈ desired \/ ev_Name env ∈ desired \/ is_Some (ev_DeletionTimestamp env) \/ k ∈ map r_key l.
Lemma orphans_deleted {ER : Reliable Environment E} pg desired l :
  triple (fun w => wanted_or pg desired l (gw_envs w)) (delete_orphans desired l : M _) (fun _ w => wanted_or pg desired [] (gw_envs w)) (fun _ _ => False).
Proof.
  induction l as [|child l IH]; [by apply triple_ret|]. cbn [delete_orphans].
  destruct (bool_decide (child_id child ∈ desired) || bool_decide (ev_Name child ∈ desired)) eqn:Ed.
  - eapply triple_mono; [exact IH| |auto|auto]. intros w Hw k env Hs Hsel.
    destruct (Hw k env Hs Hsel) as [?|[?|[?|Hin]]]; [auto..|]. cbn in Hin. apply elem_of_cons in Hin as [Hk|Hin]; [|auto].
    pose proof (stored_key _ _ _ Hs) as Hk'. rewrite Hk in Hk'. apply orb_true_iff in Ed. rewrite !bool_decide_eq_true in Ed.
    cbn in Hk'. injection Hk' as H1 H2. unfold child_id in *. rewrite H1, H2. tauto.
  - apply (triple_bind _ _ _ (fun x w => (x = Ok tt \/ x = Err NotFound) /\ wanted_or pg desired l (gw_envs w))).
    + apply triple_on. intros w x w' Hw Hd. destruct (obj_Delete None (r_key child) (gw_envs w)) as [y e] eqn:E1. injection Hd as <- <-.
      assert (y = Ok tt \/ y = Err NotFound) as Hy.
      { destruct (stored (gw_envs w) !! r_key child) as [o|] eqn:Eo.
        - pose proof (Delete_accepted None _ _ o Eo) as H. rewrite E1 in H. left. by apply H.
        - pose proof (Delete_missing None _ _ Eo) as H. rewrite E1 in H. by right. }
      split; [done|]. cbn [gw_envs]. intros k env Hs Hsel. destruct (decide (k = r_key child)) as [->|Hne].
      * right. right. left. destruct Hy as [->| ->]; [change (is_Some (r_deletion env)); by eapply Delete_marks|].
        pose proof (obj_Delete_Err _ _ _ _ _ E1) as Hsame. apply obj_Delete_NotFound in E1. rewrite Hsame in Hs. congruence.
      * rewrite (Delete_other _ _ _ _ _ _ E1 Hne) in Hs. destruct (Hw k env Hs Hsel) as [?|[?|[?|Hin]]]; [auto..|]. cbn in Hin.
        apply elem_of_cons in Hin as [?|?]; [done|auto].
    + assert (triple (fun w => wanted_or pg desired l (gw_envs w)) (do! emit (Recorded #"OrphanDeleted") in delete_orphans desired l : M _)
        (fun _ w => wanted_or pg desired [] (gw_envs w)) (fun _ _ => False)) as Hrest.
      { apply (triple_bind _ _ _ (fun _ w => wanted_or pg desired l (gw_envs w))); [by apply triple_modify|]. intros _. exact IH. }
      intros x w [[->| ->] Hw]; exact (Hrest w Hw).
Qed.
Lemma delete_orphaned_total {ER : Reliable Environment E} pg desired : pg_Namespace pg = [] ->
  triple (fun _ => True) (deleteOrphanedEnvironments pg desired : M _) (fun _ w => wanted_or pg desired [] (gw_envs w)) (fun _ _ => False).
Proof.
  intros Hns. unfold deleteOrphanedEnvironments, listChildEnvironments. rewrite Hns.
  apply (triple_bind _ _ _ (fun x w => exists l, x = Ok l /\ wanted_or pg desired l (gw_envs w))).
  - apply triple_on. intros w x w' _ Hl. pose proof (obj_List_pure (Ob := Environment) (group_labels pg) [] (gw_envs w)) as Hp.
    destruct (List_answers (Ob := Environment) (group_labels pg) [] (gw_envs w)) as [l Ha].
    pose proof (obj_List_Ok _ _ _ _ Ha) as Hok. destruct (obj_List _ _ (gw_envs w)) as [y e]. cbn [fst snd] in *. injection Hl as <- <-.
    exists l. split; [done|]. cbn [gw_envs]. subst e. intros k env Hs Hsel. right. right. right. apply list_elem_of_fmap.
    pose proof (stored_key _ _ _ Hs) as Hk. exists env. split; [done|]. apply Hok. rewrite Hk. split; [done|]. split; [done|by left].
  - intros x w (l & -> & Hw). exact (orphans_deleted pg desired l w Hw).
Qed.

(** ** The run *)
Record live (pg : PreviewGroup) : Prop := {
  live_kept : pg_DeletionTimestamp pg = None;
  live_held : previewGroupFinalizer ∈ pg_Finalizers pg;
  live_ttl : forall ttl, ttl_of pg = Some ttl ->
    After (at_ttl clock) (Add (default (at_created clock) (gt_CreatedAt (pg_Status pg))) ttl) = false;
  live_lease : forall t, gt_LeaseRenewedAt (pg_Status pg) = Some t -> After (at_lease clock) (Add t lease_timeout) = false;
  live_name : pg_Name pg <> [] /\ IsValidLabelValue r (pg_Name pg) = [];
  (** no two services share an environment *)
  live_services : NoDup (map (child_key pg) (deployed_services pg)) }.
(** The delay until the group has to be looked at again, for its lifetime and
    its lease; zero for none. *)
Definition ttl_delay (pg : PreviewGroup) : Z :=
  match ttl_of pg with
  | Some ttl => Sub (Add (default (at_created clock) (gt_CreatedAt (pg_Status pg))) ttl) (until_ttl clock)
  | None => 0
  end.
Definition delay (pg : PreviewGroup) : Z :=
  match gt_LeaseRenewedAt (pg_Status pg) with
  | Some t =>
      let d := Sub (Add t lease_timeout) (until_lease clock) in
      if (ttl_delay pg =? 0) || (d <? ttl_delay pg) then d else ttl_delay pg
  | None => ttl_delay pg
  end.
Definition live_rest (base pg : PreviewGroup) (requeueAfter : Z) : M unit :=
  let! x := reconcile_services r pg (gp_Services (pg_Spec pg)) in
  let '(desired, statuses, again) := x in
  do! deleteOrphanedEnvironments pg desired in
  do! report_services r base pg statuses in
  if 0 <? requeueAfter then requeue requeueAfter else if again : bool then requeue Second else done.
Lemma live_unfold pg w : live pg -> exists f, reconcile_group r clock pg w = live_rest pg (with_group_status f pg) (delay pg) w.
Proof.
  intros [H1 H2 H3 H4 [_ H5] _]. unfold reconcile_group. rewrite H1, bool_decide_true by done. unfold reconcile_live.
  assert (gt_CreatedAt (pg_Status (started clock pg)) = Some (default (at_created clock) (gt_CreatedAt (pg_Status pg)))) as Hc.
  { unfold started, with_group_status. cbn. by destruct (gt_CreatedAt (pg_Status pg)) as [t|] eqn:Eg. }
  assert (gt_LeaseRenewedAt (pg_Status (started clock pg)) = gt_LeaseRenewedAt (pg_Status pg)) as Hl.
  { unfold started, with_group_status. cbn. by destruct (gt_CreatedAt (pg_Status pg)) as [t|] eqn:Eg. }
  assert (exists f, check_ttl r clock (started clock pg) w = (inr (with_group_status f pg, ttl_delay pg), w) /\
    gt_LeaseRenewedAt (pg_Status (with_group_status f pg)) = gt_LeaseRenewedAt (pg_Status pg)) as (f & Ht & Hf).
  { unfold check_ttl, ttl_delay. change (ttl_of (started clock pg)) with (ttl_of pg). destruct (ttl_of pg) as [ttl|] eqn:Et.
    - rewrite Hc, (H3 ttl eq_refl). eexists (fun st => gt_set_ExpiresAt _ (pg_Status (started clock pg))). split; [reflexivity|]. cbn. exact Hl.
    - exists (fun _ => pg_Status (started clock pg)). split; [reflexivity|]. exact Hl. }
  exists f. unfold bind at 1. rewrite Ht. unfold bind at 1. unfold check_lease, delay. rewrite Hf.
  destruct (gt_LeaseRenewedAt (pg_Status pg)) as [t|] eqn:El; [rewrite (H4 t eq_refl)|]; cbn [ret];
    change (pg_Name (with_group_status f pg)) with (pg_Name pg); rewrite H5; reflexivity.
Qed.

Lemma reconcile_run name pg (w w' : W) o : stored (gw_groups w) !! ([], name) = Some pg -> Reconcile r clock name w = (o, w') ->
  (failure o <> None /\ fst (obj_Get ([], name) (gw_groups w)) <> Ok pg) \/ reconcile_group r clock pg w = (inl o, w') \/ exists u, reconcile_group r clock pg w = (inr u, w') /\ o = mkOutcome 0 None.
Proof using GL.
  intros Hs Hr. unfold Reconcile, reconcile_body, bind, on_groups, on in Hr.
  pose proof (obj_Get_pure (Ob := PreviewGroup) ([], name) (gw_groups w)) as Hp. pose proof (obj_Get_Ok ([], name) (gw_groups w)) as Hg.
  pose proof (obj_Get_NotFound (Ob := PreviewGroup) ([], name) (gw_groups w)) as Hn.
  destruct (obj_Get _ (gw_groups w)) as [[pg'|e] g]; cbn in Hp, Hg, Hn; subst g.
  - specialize (Hg _ eq_refl). rewrite Hs in Hg. injection Hg as <-. right. destruct w as [w1 w2 w3 w4 w5 w6 w7 w8]. cbn in Hr.
    destruct (reconcile_group _ _ _ _) as [[o1|u] w0]; injection Hr as <- <-; eauto.
  - destruct e; [by specialize (Hn eq_refl); congruence|..]; left; by injection Hr as <- <-.
Qed.
Lemma services_leave_groups pg l : leaves_of gw_groups (reconcile_services r pg l : M _).
Proof.
  assert (forall svc, leaves_of gw_groups (reconcile_service r pg svc : M _)) as H.
  { intros svc. unfold reconcile_service. destruct (str_eqb _ _); [auto with leaves|]. apply leaves_of_bind.
    - unfold sync_child. apply leaves_of_bind; [auto with leaves|]. intros [existing|e].
      + apply leaves_of_bind; [|auto with leaves]. destruct (needsUpdate _ _); auto 10 with leaves.
      + destruct e; auto 10 with leaves.
    - intros [[[env|] st] again]; [|auto with leaves]. apply leaves_of_bind; [|auto with leaves]. unfold post_deploy.
      destruct (gs_PostDeploy svc); [|auto with leaves]. destruct (str_eqb _ _); [|auto with leaves].
      apply leaves_of_bind; [auto with leaves|]. intros [[]|[]]; auto with leaves. }
  induction l as [|svc l IH]; [done|]. cbn. apply leaves_of_bind; [apply H|]. intros [[??]?]. apply leaves_of_bind; [exact IH|]. by intros [[??]?].
Qed.
Lemma orphaned_leave_groups pg desired : leaves_of gw_groups (deleteOrphanedEnvironments pg desired : M _).
Proof.
  unfold deleteOrphanedEnvironments, listChildEnvironments. apply leaves_of_bind; [auto with leaves|]. intros [l|e]; [|done].
  induction l as [|child l IH]; [done|]. cbn. destruct (_ || _); [exact IH|]. apply leaves_of_bind; [auto with leaves|].
  intros [[]|[]]; auto with leaves; (apply leaves_of_bind; [by intros ?|]; intros _; exact IH).
Qed.

(** The results of the services outlive the removal of the others. *)
Lemma results_kept pg (Pr : PreviewGroupServiceSpec -> service_result -> option Environment -> Prop) l y w w' :
  (forall svc a x, Pr svc a x -> a.1.1 = service_id pg svc) -> results pg Pr l y w ->
  (forall k, key_id k ∈ y.1.1 -> at_ k w' = at_ k w) -> results pg Pr l y w'.
Proof.
  intros Hid (rs & Hf & H1 & H2) Hk. exists rs. split; [|done]. rewrite H1 in Hk. clear H1 H2.
  induction Hf as [|svc a l rs Ha Hf IH]; constructor.
  - rewrite Hk; [done|]. cbn. apply elem_of_cons. left. symmetry. by eapply Hid.
  - apply IH. intros k Hin. apply Hk. cbn. apply elem_of_cons. by right.
Qed.

Section Rest.
Context (name : gostring) (pg : PreviewGroup) (f : PreviewGroupStatus -> PreviewGroupStatus) (d : Z).
Context (Pr : PreviewGroupServiceSpec -> service_result -> option Environment -> Prop).
Context (Pr_id : forall svc a x, Pr svc a x -> a.1.1 = service_id pg svc).
Context (Hpg : r_key pg = ([], name)).
(** The group stored, and what is reported of its services. *)
Definition settled_group (statuses : list PreviewGroupServiceStatus) (w : W) : Prop :=
  exists pg', stored (gw_groups w) !! ([], name) = Some pg' /\ gt_Phase (pg_Status pg') = derivePreviewGroupPhase statuses /\
    gt_Services (pg_Status pg') = statuses.
(** Patches of the group's status are accepted. *)
Definition patchable : Prop := forall (w : W) v g, stored (gw_groups w) !! ([], name) = Some v ->
  exists o : PreviewGroup, fst (obj_Patch ([], name) (with_group_status g) (gw_groups w)) = Ok o.
Lemma report_settles statuses (F : outcome group_error -> W -> Prop) (X : E -> Prop) :
  (forall e w, F (mkOutcome 0 (Some e)) w) \/ patchable ->
  triple (fun w => stored (gw_groups w) !! ([], name) = Some pg /\ X (gw_envs w)) (report_services r pg (with_group_status f pg) statuses : M unit)
    (fun _ w => settled_group statuses w /\ X (gw_envs w)) F.
Proof using GL Hpg.
  intros HF. unfold report_services. set (new := with_group_status _ (with_group_status f pg)).
  apply (triple_bind _ _ _ (fun _ w => settled_group statuses w /\ X (gw_envs w))).
  - intros w [Hs HX]. unfold patch_group, bind, on_groups, on. change (r_key new) with (r_key pg). rewrite Hpg.
    destruct (obj_Patch _ _ (gw_groups w)) as [[pg'|e] g] eqn:Ep; cbn.
    + apply obj_Patch_Ok in Ep as (cur & v & Hc & -> & Hst); [|by intros cur]. rewrite Hs in Hc. injection Hc as <-. split; [|exact HX].
      eexists. cbn. rewrite Hst, lookup_insert_eq. split; [done|]. cbn -[new derivePreviewGroupPhase]. rewrite !merge_field_self. done.
    + destruct HF as [HF|HF]; [apply HF|]. destruct (HF w pg (merge_group_status (pg_Status pg) (pg_Status new)) Hs) as [o Ho]. rewrite Ep in Ho. done.
  - intros pg' w Hw. unfold notify_group, when. repeat match goal with |- context [if ?b then _ else _] => destruct b; try exact Hw end.
Qed.
(** The whole of it, for a bound on how it may fail. *)
Lemma rest_spec (F Q : outcome group_error -> W -> Prop) (X : list gostring -> E -> Prop) :
  triple (fun _ => True) (reconcile_services r (with_group_status f pg) (gp_Services (pg_Spec pg)) : M _) (results pg Pr (gp_Services (pg_Spec pg))) F ->
  (forall y, triple (fun _ => True) (deleteOrphanedEnvironments (with_group_status f pg) y : M _) (fun _ w => X y (gw_envs w)) F) ->
  ((forall e w, F (mkOutcome 0 (Some e)) w) \/ patchable) ->
  (forall o w, F o w -> Q o w) ->
  (forall rs w o, Forall2 (fun svc a => Pr svc a (at_ (child_key pg svc) w)) (gp_Services (pg_Spec pg)) rs ->
     settled_group (map (fun a => a.1.2) rs) w -> X (map (fun a => a.1.1) rs) (gw_envs w) ->
     failure o = None -> (0 < d -> RequeueAfter o = d) -> Q o w) ->
  triple (fun w => stored (gw_groups w) !! ([], name) = Some pg) (live_rest pg (with_group_status f pg) d : M unit) (fun _ _ => False) Q.
Proof using GL EL Hpg Pr_id.
  intros Hsvc Horph Hpatch HFQ HQ. unfold live_rest.
  set (P := fun g : G => stored g !! ([], name) = Some pg).
  apply (triple_bind _ _ _ (fun y w => results pg Pr (gp_Services (pg_Spec pg)) y w /\ P (gw_groups w))).
  { eapply triple_mono; [apply (triple_frame gw_groups _ (fun _ => True) P); [apply services_leave_groups|exact Hsvc]| | |].
    - intros w Hw. exact (conj I Hw).
    - intros y w H. exact H.
    - intros o w [H _]. by apply HFQ. }
  intros [[desired statuses] again].
  apply (triple_bind _ _ _ (fun _ w => P (gw_groups w) /\ (results pg Pr (gp_Services (pg_Spec pg)) (desired, statuses, again) w /\ X desired (gw_envs w)))).
  { intros w [Hw HP]. pose proof (orphaned_leave_groups (with_group_status f pg) desired w) as Hg. specialize (Horph desired w I).
    assert (forall k, key_id k ∈ desired -> at_ k (snd (deleteOrphanedEnvironments (with_group_status f pg) desired w)) = at_ k w) as Hk.
    { intros k Hk. by apply (delete_orphaned_leaves (with_group_status f pg) desired k Hk). }
    destruct (deleteOrphanedEnvironments _ _ w) as [[o|u] w']; [by apply HFQ|]. cbn in Hg, Hk. rewrite Hg. split; [done|]. split; [|done].
    by eapply results_kept. }
  intros _. apply (triple_bind _ _ _ (fun _ w => settled_group statuses w /\ (results pg Pr (gp_Services (pg_Spec pg)) (desired, statuses, again) w /\ X desired (gw_envs w)))).
  { eapply triple_mono; [apply (report_settles statuses F (fun e => (exists rs, Forall2 (fun svc a => Pr svc a (stored e !! child_key pg svc)) (gp_Services (pg_Spec pg)) rs /\
       desired = map (fun a => a.1.1) rs /\ statuses = map (fun a => a.1.2) rs) /\ X desired e)); exact Hpatch| | |].
    - intros w H. exact H.
    - intros u w H. exact H.
    - exact HFQ. }
  intros _ w (Hset & (rs & Hf & H1 & H2) & HX). cbn in H1, H2. subst desired statuses.
  destruct (0 <? d) eqn:Ed; [|destruct again]; cbn; (eapply HQ; [exact Hf|exact Hset|exact HX|done|cbn; lia]).
Qed.
End Rest.

Lemma told_baseline pg svc a x x' : gs_Mode svc = ServiceModeBaseline -> told pg svc a x -> told pg svc a x'.
Proof. intros Hm [H _]. split; [done|]. by left. Qed.
Lemma placed_baseline pg svc a x x' : gs_Mode svc = ServiceModeBaseline -> placed pg svc a x -> placed pg svc a x'.
Proof. intros Hm [H _]. by split. Qed.
(** A run on a live group, through its rest. *)
Lemma live_run name pg (w w' : W) o (Q : outcome group_error -> W -> Prop) : stored (gw_groups w) !! ([], name) = Some pg -> live pg ->
  (forall f, r_key pg = ([], name) ->
     triple (fun w => stored (gw_groups w) !! ([], name) = Some pg) (live_rest pg (with_group_status f pg) (delay pg) : M unit) (fun _ _ => False) Q) ->
  Reconcile r clock name w = (o, w') -> (failure o <> None /\ fst (obj_Get ([], name) (gw_groups w)) <> Ok pg) \/ Q o w'.
Proof using GL.
  intros Hs Hlive Hrest Hr. destruct (reconcile_run name pg w w' o Hs Hr) as [H|H]; [by left|right].
  destruct (live_unfold pg w Hlive) as [f Hf]. rewrite Hf in H. specialize (Hrest f (stored_key _ _ _ Hs) w Hs).
  destruct H as [H|(u & H & _)]; by rewrite H in Hrest.
Qed.
Lemma services_of_results pg (Pr : PreviewGroupServiceSpec -> service_result -> option Environment -> Prop) l rs w svc :
  Forall2 (fun svc a => Pr svc a (at_ (child_key pg svc) w)) l rs -> svc ∈ l -> exists a, a ∈ rs /\ Pr svc a (at_ (child_key pg svc) w).
Proof.
  intros Hf Hin. apply list_elem_of_lookup in Hin as [i Hi]. destruct (Forall2_lookup_l _ _ _ _ _ Hf Hi) as (a & Ha & Hp).
  exists a. split; [|done]. apply list_elem_of_lookup. by exists i.
Qed.

(** when a run on a live group succeeds and the stored phase of the group
    is Running, the environment of every service is stored and Running,
    unless the service uses the baseline. *)
Theorem running_group name pg (w w' : W) o : stored (gw_groups w) !! ([], name) = Some pg -> live pg ->
  Reconcile r clock name w = (o, w') -> failure o = None ->
  exists pg', stored (gw_groups w') !! ([], name) = Some pg' /\
    (gt_Phase (pg_Status pg') = PreviewGroupPhaseRunning -> forall svc, svc ∈ gp_Services (pg_Spec pg) ->
       gs_Mode svc = ServiceModeBaseline \/ running_at (child_key pg svc) (gw_envs w')).
Proof using GL EL.
  intros Hs Hlive Hr Ho. set (Q := fun (o : outcome group_error) (w : W) => failure o = None -> exists pg', stored (gw_groups w) !! ([], name) = Some pg' /\
    (gt_Phase (pg_Status pg') = PreviewGroupPhaseRunning -> forall svc, svc ∈ gp_Services (pg_Spec pg) ->
       gs_Mode svc = ServiceModeBaseline \/ running_at (child_key pg svc) (gw_envs w))).
  destruct (live_run name pg w w' o Q Hs Hlive) as [[H _]|H]; [|done|done|by apply H].
  intros f Hk. apply (rest_spec name pg f (delay pg) (told pg) (fun svc a x H => proj1 H) Hk fails_only Q (fun _ _ => True)).
  - apply (services_results (with_group_status f pg) (told pg) (told_baseline pg)); [|apply Hlive].
    intros svc. apply (service_told (with_group_status f pg)), Hlive.
  - intros y. eapply triple_mono; [apply orphans_never_fail|..]; done.
  - by left.
  - intros o' w0 H H'. done.
  - intros rs w0 o' Hf (pg' & Hp & Hph & _) _ _ _ _. exists pg'. split; [done|]. rewrite Hph. intros Hrun svc Hin.
    destruct (derivePreviewGroupPhase_spec (map (fun a => a.1.2) rs)) as [[Hall _] _]. destruct (Hall Hrun) as [_ Hall'].
    destruct (services_of_results pg _ _ rs w0 svc Hf Hin) as (a & Ha & [_ Ht]). apply Ht, Hall', list_elem_of_fmap. by exists a.
Qed.


(** a successful run on a live group whose lifetime ends later asks for
    another run at that time or, for the lease, before. *)
Theorem expiry_scheduled name pg (w w' : W) o : stored (gw_groups w) !! ([], name) = Some pg -> live pg ->
  0 < ttl_delay pg -> 0 < delay pg -> Reconcile r clock name w = (o, w') -> failure o = None ->
  0 < RequeueAfter o <= ttl_delay pg.
Proof using GL EL.
  intros Hs Hlive Httl Hd Hr Ho. set (Q := fun (o : outcome group_error) (w : W) => failure o = None -> RequeueAfter o = delay pg).
  assert (Q o w') as HQ.
  { destruct (live_run name pg w w' o Q Hs Hlive) as [[H _]|H]; [|done|done|exact H].
    intros f Hk. apply (rest_spec name pg f (delay pg) (told pg) (fun svc a x H => proj1 H) Hk fails_only Q (fun _ _ => True)).
    - apply (services_results (with_group_status f pg) (told pg) (told_baseline pg)); [|apply Hlive].
      intros svc. apply (service_told (with_group_status f pg)), Hlive.
    - intros y. eapply triple_mono; [apply orphans_never_fail|..]; done.
    - by left.
    - intros o' w0 H H'. done.
    - intros rs w0 o' _ _ _ _ H _. by apply H. }
  rewrite (HQ Ho). split; [done|]. unfold delay. destruct (gt_LeaseRenewedAt _); [|done].
  destruct (_ || _) eqn:E1; [|done]. apply orb_true_iff in E1 as [E1|E1]; lia.
Qed.

(** ** The end of a group's life *)
Lemma cleanup_total {RR : Reliable Route R} name : triple (fun _ => True) (cleanupRoutesAndEndpoints r name : M unit) (fun _ _ => True) (fun _ _ => False).
Proof.
  assert (forall k, triple (fun _ => True) (cleanup_kind r k name : M unit) (fun _ _ => True) (fun _ _ => False)) as Hk.
  { intros k w _. unfold cleanup_kind, bind. destruct (routes_get_set k (obj_List (route_selector k name) []) w) as (w1 & -> & Hw1).
    destruct (List_answers (Ob := Route) (route_selector k name) [] (routes_of k w)) as [items Ha].
    pose proof (obj_List_Ok _ _ _ _ Ha) as Hl. pose proof (obj_List_pure (Ob := Route) (route_selector k name) [] (routes_of k w)) as Hp.
    rewrite Hp in Hw1. rewrite Ha. assert (forall o, o ∈ items -> forall x, stored (routes_of k w1) !! r_key o = Some x -> r_uid x = r_uid o) as Hu.
    { intros o Ho x Hx. apply Hl in Ho as [Ho _]. rewrite Hw1 in Hx. congruence. }
    clear Ha Hl Hp Hw1. revert w1 Hu. induction items as [|item items IH]; intros w1 Hu; [done|]. cbn [each]. unfold bind.
    match goal with |- context [on_routes k (obj_Delete ?p _)] => set (pre := p) end.
    destruct (routes_get_set k (obj_Delete pre (r_key item)) w1) as (w2 & -> & Hw2).
    assert (fst (obj_Delete (Ob := Route) pre (r_key item) (routes_of k w1)) = Ok tt \/ fst (obj_Delete (Ob := Route) pre (r_key item) (routes_of k w1)) = Err NotFound) as Hd.
    { destruct (stored (routes_of k w1) !! r_key item) as [x|] eqn:Ex; [|right; by apply Delete_missing]. left.
      eapply Delete_accepted; [exact Ex|]. intros u Hpre. rewrite (Hu item (list_elem_of_here _ _) x Ex). subst pre. destruct k; [done..|]. by injection Hpre. }
    assert (forall o, o ∈ items -> forall x, stored (routes_of k w2) !! r_key o = Some x -> r_uid x = r_uid o) as Hu2.
    { intros o Ho x Hx. rewrite Hw2 in Hx. destruct (obj_Delete pre (r_key item) (routes_of k w1)) as [res y] eqn:Ed. cbn [snd] in Hx.
      destruct (decide (r_key o = r_key item)) as [Hk|Hk]; [|rewrite (Delete_other _ _ _ _ _ _ Ed Hk) in Hx; apply (Hu o); [by right|done]].
      destruct res as [[]|e]; [|apply obj_Delete_Err in Ed; rewrite Ed in Hx; apply (Hu o); [by right|done]].
      apply obj_Delete_Ok in Ed as (cur & Hc & _ & [[_ Hst]|(_ & now & v & Hst)]); rewrite Hst, Hk in Hx; [by rewrite lookup_delete_eq in Hx|].
      rewrite lookup_insert_eq in Hx. injection Hx as <-. rewrite <- Hk in Hc. exact (Hu o (list_elem_of_further _ _ _ Ho) cur Hc). }
    destruct Hd as [-> | ->]; cbn; by apply IH. }
  unfold cleanupRoutesAndEndpoints. apply (triple_bind _ _ _ (fun _ _ => True)); [apply Hk|]. intros _.
  apply (triple_bind _ _ _ (fun _ _ => True)); [apply Hk|]. intros _. apply Hk.
Qed.

(** C24: with an API server that answers, a run on a group whose time to live
    is over deletes it: it is gone, or marked and waiting for its teardown. *)
Theorem expired_group_deleted {GR : Reliable PreviewGroup G} {RR : Reliable Route R} name pg (w w' : W) o ttl :
  stored (gw_groups w) !! ([], name) = Some pg -> pg_DeletionTimestamp pg = None -> previewGroupFinalizer ∈ pg_Finalizers pg ->
  ttl_of pg = Some ttl -> After (at_ttl clock) (Add (default (at_created clock) (gt_CreatedAt (pg_Status pg))) ttl) = true ->
  Reconcile r clock name w = (o, w') ->
  failure o = None /\ forall pg', stored (gw_groups w') !! ([], name) = Some pg' -> is_Some (pg_DeletionTimestamp pg').
Proof using GL RL.
  intros Hs Hdel Hfin Httl Hexp Hr. destruct (reconcile_run name pg w w' o Hs Hr) as [[_ H]|H]; [by destruct H; apply Get_stored|].
  unfold reconcile_group in H. rewrite Hdel, bool_decide_true in H by done. unfold reconcile_live, check_ttl in H.
  change (ttl_of (started clock pg)) with (ttl_of pg) in H. rewrite Httl in H.
  assert (gt_CreatedAt (pg_Status (started clock pg)) = Some (default (at_created clock) (gt_CreatedAt (pg_Status pg)))) as Hc.
  { unfold started, with_group_status. cbn. by destruct (gt_CreatedAt (pg_Status pg)) as [t|] eqn:Eg. }
  rewrite Hc, Hexp in H. pose proof (stored_key _ _ _ Hs) as Hk.
  assert (match delete_group r #"failed to delete expired PreviewGroup"
      (with_group_status (gt_set_ExpiresAt (Some (Add (default (at_created clock) (gt_CreatedAt (pg_Status pg))) ttl))) (started clock pg)) w with
    | (inl o1, w1) => o1 = mkOutcome 0 None /\ forall pg', stored (gw_groups w1) !! ([], name) = Some pg' -> is_Some (pg_DeletionTimestamp pg')
    | (inr _, _) => False end) as Hd.
  { unfold delete_group. set (pg1 := with_group_status _ (started clock pg)). unfold bind at 1.
    pose proof (cleanup_total (pg_Name pg1) w I) as Ht.
    pose proof (cleanup_leaves r gw_groups (pg_Name pg1) (fun A k g => routes_leave_groups k g) w) as Hl.
    destruct (cleanupRoutesAndEndpoints r (pg_Name pg1) w) as [[o1|u] w1]; [done|]. cbn in Hl. unfold bind, on_groups, on.
    change (r_key pg1) with (r_key pg). rewrite Hk, Hl. pose proof (Delete_accepted None _ _ _ Hs (fun u (H0 : None = Some u) => match H0 with end)) as Ha.
    destruct (obj_Delete None ([], name) (gw_groups w)) as [x g] eqn:Ed. cbn in Ha. subst x. cbn. split; [done|].
    intros pg' Hst. change (is_Some (r_deletion pg')). eapply Delete_marks; [exact Ed|]. exact Hst. }
  destruct (delete_group _ _ _ w) as [[o1|u] w1] eqn:Edel; [|done]. destruct Hd as [-> Hd].
  rewrite (bind_inl _ _ _ _ _ (bind_inl _ _ _ _ _ Edel)) in H. destruct H as [H|(u & H & _)]; [|done]. injection H as <- <-. by split.
Qed.
End Live.

(** ** Executions *)
Module GroupDemo.
Import Server.
Abbreviation W := (group_world (Server.t PreviewGroup) (Server.t Environment) (Server.t Job) (Server.t Route) unit).
Definition at_second (n : Z) : Time := mkTime n 0.
Definition clock : readings := mkReadings (at_second 1000) (at_second 1000) (at_second 1000) (at_second 1000) (at_second 1000).
Definition reconciler : PreviewGroupReconciler unit :=
  mkGroupReconciler unit true false None (fun _ => []) (fun _ => false) (fun _ => #"error").
Definition service (name mode : gostring) (hook : option PostDeploySpec) : PreviewGroupServiceSpec :=
  mkGroupService name #"shop:2" mode [] [] 8080 [] [] #"http" [] [] [] None None hook None.
Definition group (ttl : option Z) (services : list PreviewGroupServiceSpec) : PreviewGroup :=
  mkPreviewGroup #"checkout" [] #"g1" ∅ ∅ [previewGroupFinalizer] time_zero None 1 7
    (mkGroupSpec no_source no_group_routing services None (Some (mkGroupLifecycle ttl false)) [] []) no_group_status.
Definition world (pg : PreviewGroup) (envs : list Environment) : W :=
  mkGroupWorld (of_list [pg]) (of_list envs) (of_list []) (of_list []) (of_list []) (of_list []) tt [].
#[export] Instance conditions : ConditionOps := SimpleConditions.ops (at_second 1000).
#[export] Instance unicode : GoUnicode := ascii_unicode.
Definition run (w : W) : outcome group_error * W := Reconcile reconciler clock #"checkout" w.
Definition children (w : W) : list (gostring * gostring) :=
  map (fun env => (ev_Name env, et_Phase (ev_Status env))) (map snd (map_to_list (objects (gw_envs w)))).
Definition statuses (w : W) : list (gostring * gostring) :=
  pg ← map snd (map_to_list (objects (gw_groups w))); map (fun s => (sv_Name s, sv_Phase s)) (gt_Services (pg_Status pg)).
(** Another spec for the group, and the phase its environments reach. *)
Definition respec (services : list PreviewGroupServiceSpec) (w : W) : W :=
  mkGroupWorld (mk (pg_set_Spec (mkGroupSpec no_source no_group_routing services None None [] []) <$> objects (gw_groups w)) (rev (gw_groups w)))
    (gw_envs w) (gw_jobs w) (gw_http w) (gw_grpc w) (gw_slices w) (gw_db w) (gw_events w).
Definition set_running (w : W) : W :=
  mkGroupWorld (gw_groups w) (mk (ev_set_Status (et_set_Phase PhaseRunning no_env_status) <$> objects (gw_envs w)) (rev (gw_envs w)))
    (gw_jobs w) (gw_http w) (gw_grpc w) (gw_slices w) (gw_db w) (gw_events w).
Definition shop : PreviewGroupServiceSpec := service #"shop" #"preview" None.
Definition child_name : gostring := #"pg-checkout-shop-4bcd905a".
Definition blocking_hook : PostDeploySpec := mkPostDeploy #"hook:1" [] [] 60 (Some true).

(** A service that becomes a baseline service keeps its preview environment,
    while the group reports the baseline. *)
Theorem baseline_keeps_child :
  let w1 := snd (run (world (group None [shop]) [])) in
  let w2 := snd (run (respec [service #"shop" ServiceModeBaseline None] w1)) in
  let w3 := snd (run (respec [] w1)) in
  children w1 = [(child_name, [])] /\ children w2 = [(child_name, [])] /\ statuses w2 = [(#"shop", PhaseRunning)] /\ children w3 = [].
Proof. vm_compute. repeat split. Qed.
(** While a blocking hook runs the group asks to be looked at again in a
    second; with a time to live of an hour it asks for an hour. *)
Theorem hook_forgotten_for_ttl :
  let wait ttl := fst (run (set_running (snd (run (world (group ttl [service #"shop" #"preview" (Some blocking_hook)]) []))))) in
  wait None = mkOutcome Second None /\ wait (Some (3600 * Second)) = mkOutcome (3600 * Second) None.
Proof. vm_compute. repeat split. Qed.

(** *** The theorems on these executions *)
Definition hourly : PreviewGroup := group (Some (3600 * Second)) [shop].
Definition expired_group : PreviewGroup := group (Some (-1)) [shop].
Definition deleted : PreviewGroup :=
  mkPreviewGroup #"checkout" [] #"g1" ∅ ∅ [previewGroupFinalizer] time_zero (Some (at_second 900)) 1 7 (pg_Spec hourly) no_group_status.
Definition hour_world : W := set_running (snd (run (world hourly []))).
Lemma hourly_live pg : pg_DeletionTimestamp pg = None -> pg_Finalizers pg = [previewGroupFinalizer] -> pg_Name pg = #"checkout" ->
  ttl_of pg = Some (3600 * Second) -> gt_LeaseRenewedAt (pg_Status pg) = None -> default (at_second 1000) (gt_CreatedAt (pg_Status pg)) = at_second 1000 ->
  gp_Services (pg_Spec pg) = [shop] -> live reconciler clock pg.
Proof.
  intros Hd Hf Hn Ht Hl Hc Hs. split; [done|rewrite Hf; by left| | |by rewrite Hn| ].
  - rewrite Ht. intros ttl [= <-]. change (at_created clock) with (at_second 1000). rewrite Hc. by vm_compute.
  - by rewrite Hl.
  - unfold deployed_services. rewrite Hs. change (NoDup [child_key pg shop]). apply NoDup_singleton.
Qed.
Definition hour_group : PreviewGroup := Eval vm_compute in default hourly (stored (gw_groups hour_world) !! ([], #"checkout")).
Lemma hour_stored : stored (gw_groups hour_world) !! ([], #"checkout") = Some hour_group.
Proof. by vm_compute. Qed.
Lemma hour_live : live reconciler clock hour_group.
Proof. by apply hourly_live. Qed.
Lemma hour_ok : failure (fst (run hour_world)) = None.
Proof. by vm_compute. Qed.
Lemma stored_in pg envs : pg_Name pg = #"checkout" -> pg_Namespace pg = [] -> released pg = false ->
  stored (gw_groups (world pg envs)) !! ([], #"checkout") = Some pg.
Proof.
  intros Hn Hns Hr. assert (r_key pg = ([], #"checkout")) as Hk by (unfold r_key; cbn [group_resource]; by rewrite Hn, Hns).
  apply map_lookup_filter_Some. cbn [fst snd]. split; [|done]. unfold world, of_list. cbn [gw_groups raw map].
  rewrite Hk. apply lookup_insert_eq.
Qed.

Lemma ran w : Reconcile reconciler clock #"checkout" w = (fst (run w), snd (run w)).
Proof. apply surjective_pairing. Qed.

Lemma running_group_witness : exists pg', stored (gw_groups (snd (run hour_world))) !! ([], #"checkout") = Some pg' /\
  (gt_Phase (pg_Status pg') = PreviewGroupPhaseRunning -> forall svc, svc ∈ gp_Services (pg_Spec hour_group) ->
     gs_Mode svc = ServiceModeBaseline \/ running_at (child_key hour_group svc) (gw_envs (snd (run hour_world)))).
Proof.
  exact (running_group reconciler clock #"checkout" hour_group hour_world (snd (run hour_world)) (fst (run hour_world))
    hour_stored hour_live (ran hour_world) hour_ok).
Defined.
Lemma expiry_scheduled_witness : 0 < RequeueAfter (fst (run hour_world)) <= ttl_delay clock hour_group.
Proof.
  refine (expiry_scheduled reconciler clock #"checkout" hour_group hour_world (snd (run hour_world)) (fst (run hour_world))
    hour_stored hour_live _ _ (ran hour_world) hour_ok); by vm_compute.
Defined.
Lemma expired_group_deleted_witness : failure (fst (run (world expired_group []))) = None /\
  forall pg', stored (gw_groups (snd (run (world expired_group [])))) !! ([], #"checkout") = Some pg' -> is_Some (pg_DeletionTimestamp pg').
Proof.
  refine (expired_group_deleted reconciler clock #"checkout" expired_group (world expired_group []) (snd (run (world expired_group []))) (fst (run (world expired_group [])))
    (-1) _ eq_refl (list_elem_of_here _ _) eq_refl _ (ran (world expired_group []))).
  - by apply stored_in.
  - by vm_compute.
Defined.
Lemma group_released_after_children_witness :
  held #"checkout" (snd (run (world deleted []))) \/
  (no_children deleted (snd (run (world deleted []))) /\ all_cleared reconciler #"checkout" (snd (run (world deleted [])))).
Proof.
  refine (group_released_after_children reconciler clock #"checkout" deleted (world deleted []) (snd (run (world deleted []))) (fst (run (world deleted [])))
    _ (ex_intro _ _ eq_refl) (list_elem_of_here _ _) (ran (world deleted []))).
  by apply stored_in.
Defined.
Lemma group_confined_witness :
  stored (gw_envs (snd (run (world hourly [])))) !! (#"other", #"mine") = stored (gw_envs (world hourly [])) !! (#"other", #"mine").
Proof.
  refine (group_confined reconciler clock #"checkout" hourly (world hourly []) (snd (run (world hourly []))) (fst (run (world hourly [])))
    (#"other", #"mine") _ _ _ (ran (world hourly []))).
  - by apply stored_in.
  - intros env Henv. exfalso. revert Henv. by vm_compute.
  - intros svc Hsvc _ [= Hns _]. apply list_elem_of_singleton in Hsvc as ->. discriminate Hns.
Defined.
End GroupDemo.
