(* ===== verification/EnvStatus.v ===== *)
(** * Status of environments: [internal/controller/environment_status.go]

    The pure parts: the phase derived from the conditions, the variables a
    mapping may not name, and the merge of environment variables.  The
    iteration order of a Go map is not specified: [MapOrder]. *)

From S2P Require Import Prelude GoStrings GoTime GoQuote AgentTask ResourceNames EnvTypes Conditions.
From S2P Require Import GoDuration GoFloat HookJobs.
Local Open Scope Z_scope.

(** The order in which a [range] over a map visits it. *)
Class MapOrder := { map_entries : gmap gostring gostring -> list (gostring * gostring) }.
Class MapOrderLaws {R : MapOrder} := { map_entries_perm : forall m, map_entries m ≡ₚ map_to_list m }.

Definition ConditionBaselineDrift : gostring := #"BaselineDriftDetected".
Definition blockedEnvVars : list gostring :=
  [ #"KUBERNETES_SERVICE_HOST"; #"KUBERNETES_SERVICE_PORT"; #"KUBECONFIG"; #"HOME"; #"PATH"; #"LD_PRELOAD"; #"LD_LIBRARY_PATH";
    #"DYLD_INSERT_LIBRARIES"; #"PYTHONPATH"; #"NODE_PATH"; #"RUBYLIB"; #"PERL5LIB"; #"CLASSPATH"; #"GEM_HOME"; #"GOPATH";
    #"NODE_OPTIONS"; #"JAVA_TOOL_OPTIONS"].
Definition blocked (name : gostring) : bool := bool_decide (name ∈ blockedEnvVars).

Section Mapping.
Context {U : GoUnicode} {R : MapOrder}.
Fixpoint validate_entries (entries : list (gostring * gostring)) : result gostring unit :=
  match entries with
  | [] => Ok tt
  | (k, v) :: entries =>
      if blocked k then Err (#"env var key " ++ Quote k ++ #" is restricted and cannot be used in mapping")
      else if blocked v then Err (#"env var " ++ Quote v ++ #" is restricted and cannot be overridden")
      else validate_entries entries
  end.
Definition validateEnvVarMapping (mapping : gmap gostring gostring) : result gostring unit := validate_entries (map_entries mapping).
End Mapping.

(** [derivePhase]: the loop, with [allReady] so far. *)
Fixpoint derive_from (allReady : bool) (conditions : list Condition) : gostring :=
  match conditions with
  | [] => if allReady then PhaseRunning else PhaseDeploying
  | c :: conditions =>
      if str_eqb (cond_Type c) ConditionBaselineDrift then derive_from allReady conditions
      else if str_eqb (cond_Status c) ConditionFalse then
        if str_eqb (cond_Type c) #"MigrationReady" && str_eqb (cond_Reason c) #"MigrationRunning" then derive_from false conditions
        else PhaseFailed
      else if str_eqb (cond_Status c) ConditionTrue then derive_from allReady conditions
      else derive_from false conditions
  end.
Definition derivePhase (conditions : list Condition) : gostring :=
  match conditions with [] => PhasePending | _ => derive_from true conditions end.

Section Merge.
Context {U : GoUnicode}.
(** One variable added, unless another value has its name. *)
Definition add_var (out : list EnvVar) (v : EnvVar) : result gostring (list EnvVar) :=
  match List.find (fun e => str_eqb (var_Name e) (var_Name v)) out with
  | Some e =>
      if str_eqb (var_Value e) (var_Value v) then Ok out
      else Err (#"env var conflict for " ++ Quote (var_Name v) ++ #": existing=" ++ Quote (var_Value e) ++ #" vs async=" ++ Quote (var_Value v))
  | None => Ok (out ++ [v])
  end.
Fixpoint mergeEnvVars (existing asyncVars : list EnvVar) : result gostring (list EnvVar) :=
  match asyncVars with
  | [] => Ok existing
  | v :: asyncVars => match add_var existing v with Ok out => mergeEnvVars out asyncVars | Err e => Err e end
  end.
End Merge.

(** ** The phase *)
(** A condition that says failed, that says ready, and one that still waits. *)
Definition says_failed (c : Condition) : Prop :=
  cond_Type c <> ConditionBaselineDrift /\ cond_Status c = ConditionFalse /\
  ~ (cond_Type c = #"MigrationReady" /\ cond_Reason c = #"MigrationRunning").
Definition says_ready (c : Condition) : Prop := cond_Type c = ConditionBaselineDrift \/ cond_Status c = ConditionTrue.
Lemma str_eqb_spec s t : reflect (s = t) (str_eqb s t).
Proof. apply iff_reflect. symmetry. apply bool_decide_eq_true. Qed.
Lemma true_not_false : ConditionTrue <> ConditionFalse.
Proof. by vm_compute. Qed.
Lemma derive_from_spec b l :
  (derive_from b l = PhaseFailed <-> exists c, c ∈ l /\ says_failed c) /\
  (derive_from b l = PhaseRunning <-> b = true /\ forall c, c ∈ l -> says_ready c) /\
  (derive_from b l = PhaseFailed \/ derive_from b l = PhaseRunning \/ derive_from b l = PhaseDeploying).
Proof.
  assert (PhaseRunning <> PhaseFailed /\ PhaseDeploying <> PhaseFailed /\ PhaseRunning <> PhaseDeploying) as (N1 & N2 & N3) by (split_and!; by vm_compute).
  revert b. induction l as [|c l IH]; intros b; cbn [derive_from].
  { assert (forall (P : Condition -> Prop), ~ exists c, c ∈ [] /\ P c) as Hno by set_solver.
    assert (forall (P : Condition -> Prop) c, c ∈ [] -> P c) as Hall by set_solver.
    destruct b; split_and!; [split; [by intros ?%N1|by intros ?%Hno]|split; [intros _; split; [done|apply Hall]|done]|tauto|split; [by intros ?%N2|by intros ?%Hno]| |tauto].
    split; [by intros ?%eq_sym%N3|by intros [? _]]. }
  assert (forall b', (derive_from b' l = PhaseFailed <-> exists c, c ∈ l /\ says_failed c) /\
    (derive_from b' l = PhaseRunning <-> b' = true /\ forall c, c ∈ l -> says_ready c) /\
    (derive_from b' l = PhaseFailed \/ derive_from b' l = PhaseRunning \/ derive_from b' l = PhaseDeploying)) as IH' by done.
  destruct (str_eqb_spec (cond_Type c) ConditionBaselineDrift) as [Hd|Hd].
  { destruct (IH' b) as (H1 & H2 & H3). split_and!; [rewrite H1|rewrite H2|done]; unfold says_failed, says_ready; set_solver. }
  pose proof true_not_false. destruct (str_eqb_spec (cond_Status c) ConditionFalse) as [Hf|Hf].
  { assert (~ says_ready c) as Hr by (unfold says_ready; intros [?|?]; congruence). destruct (str_eqb _ _ && _) eqn:Em.
    - apply andb_true_iff in Em as [E1 E2]. apply bool_decide_eq_true in E1, E2. destruct (IH' false) as (H1 & H2 & H3).
      split_and!; [rewrite H1; unfold says_failed; set_solver| |done].
      split; [by intros [? _]%H2|]. intros [_ H0]. by destruct Hr; apply H0; left.
    - assert (says_failed c) as Hc. { split_and!; [done..|]. intros [E1 E2]. rewrite E1, E2 in Em. by vm_compute in Em. }
      split_and!; [split; [intros _; exists c; set_solver|done]| |by left].
      split; [by intros ?%eq_sym%N1|]. intros [_ H0]. by destruct Hr; apply H0; left. }
  destruct (str_eqb_spec (cond_Status c) ConditionTrue) as [Ht|Ht].
  - destruct (IH' b) as (H1 & H2 & H3). split_and!; [rewrite H1|rewrite H2|done]; unfold says_failed, says_ready; set_solver.
  - assert (~ says_ready c) as Hr by (unfold says_ready; intros [?|?]; congruence). destruct (IH' false) as (H1 & H2 & H3).
    split_and!; [rewrite H1; unfold says_failed; set_solver| |done].
    split; [by intros [? _]%H2|]. intros [_ H0]. by destruct Hr; apply H0; left.
Qed.
(** an environment is Failed exactly when a condition other than drift is
    False, the running migration apart; Running exactly when it has conditions
    and each is True or about drift; Pending without conditions; and Deploying
    otherwise. *)
Theorem derivePhase_spec l :
  (derivePhase l = PhaseFailed <-> exists c, c ∈ l /\ says_failed c) /\
  (derivePhase l = PhaseRunning <-> l <> [] /\ forall c, c ∈ l -> says_ready c) /\
  (derivePhase l = PhasePending <-> l = []) /\
  (derivePhase l = PhaseDeploying <-> l <> [] /\ ~ (exists c, c ∈ l /\ says_failed c) /\ ~ (forall c, c ∈ l -> says_ready c)).
Proof.
  assert (PhaseRunning <> PhaseFailed /\ PhaseDeploying <> PhaseFailed /\ PhaseRunning <> PhaseDeploying /\ PhasePending <> PhaseFailed /\
          PhasePending <> PhaseRunning /\ PhasePending <> PhaseDeploying) as (N1 & N2 & N3 & N4 & N5 & N6) by (split_and!; by vm_compute).
  destruct l as [|c l]; [unfold derivePhase; split_and!; set_solver|]. unfold derivePhase.
  destruct (derive_from_spec true (c :: l)) as (H1 & H2 & H3). split_and!; [done| | |].
  - rewrite H2. naive_solver.
  - split; [|done]. intros H. destruct H3 as [H3|[H3|H3]]; congruence.
  - rewrite <- H1. split.
    + intros H. rewrite H. split_and!; [done|congruence|]. intros H0. assert (derive_from true (c :: l) = PhaseRunning) by (apply H2; auto). congruence.
    + intros (_ & Hf & Hr). destruct H3 as [H3|[H3|H3]]; [done| |done]. apply H2 in H3 as [_ H3]. done.
Qed.

(** ** Variables *)
Section Facts.
Context {U : GoUnicode} {R : MapOrder} {RL : MapOrderLaws}.
(** a mapping is accepted exactly when no blocked variable is one of its
    keys or values, whatever order the map is visited in. *)
Theorem validateEnvVarMapping_spec m :
  validateEnvVarMapping m = Ok tt <-> forall k v, m !! k = Some v -> k ∉ blockedEnvVars /\ v ∉ blockedEnvVars.
Proof using RL.
  unfold validateEnvVarMapping.
  assert (forall l, validate_entries l = Ok tt <-> forall kv, kv ∈ l -> kv.1 ∉ blockedEnvVars /\ kv.2 ∉ blockedEnvVars) as Hl.
  { intros l. induction l as [|[k v] l IH]; cbn [validate_entries]; [set_solver|]. unfold blocked.
    destruct (bool_decide (k ∈ _)) eqn:Ek; [apply bool_decide_eq_true in Ek|apply bool_decide_eq_false in Ek].
    { split; [done|]. intros H. by destruct (H (k, v) (list_elem_of_here _ _)). }
    destruct (bool_decide (v ∈ _)) eqn:Ev; [apply bool_decide_eq_true in Ev|apply bool_decide_eq_false in Ev].
    { split; [done|]. intros H. by destruct (H (k, v) (list_elem_of_here _ _)). }
    rewrite IH. split.
    - intros H kv [->|Hin]%elem_of_cons; [done|by apply H].
    - intros H kv Hin. apply H. by right. }
  rewrite Hl. setoid_rewrite map_entries_perm. split.
  - intros H k v Hk. apply (H (k, v)). by apply elem_of_map_to_list.
  - intros H [k v] Hin%elem_of_map_to_list. by apply H.
Qed.
End Facts.

Section MergeFacts.
Context {U : GoUnicode}.
Definition vars_agree (l : list EnvVar) : Prop := forall v v', v ∈ l -> v' ∈ l -> var_Name v = var_Name v' -> var_Value v = var_Value v'.
Lemma add_var_Ok out v out' : add_var out v = Ok out' ->
  (out' = out /\ v ∈ out) \/ (out' = out ++ [v] /\ var_Name v ∉ map var_Name out).
Proof.
  unfold add_var. destruct (List.find _ out) as [e|] eqn:Ef.
  - apply find_some in Ef as [Hin Hn]. apply list_elem_of_In in Hin. apply bool_decide_eq_true in Hn.
    destruct (str_eqb_spec (var_Value e) (var_Value v)) as [Hv|Hv]; [|done]. intros [= <-]. left. split; [done|].
    destruct e, v; cbn in *; by subst.
  - intros [= <-]. right. split; [done|]. intros (e & He & Hin)%list_elem_of_fmap. apply list_elem_of_In in Hin.
    apply (find_none _ _ Ef) in Hin. apply bool_decide_eq_false in Hin. done.
Qed.
Lemma add_var_Err out v e : add_var out v = Err e -> exists v', v' ∈ out /\ var_Name v' = var_Name v /\ var_Value v' <> var_Value v.
Proof.
  unfold add_var. destruct (List.find _ out) as [x|] eqn:Ef; [|done]. apply find_some in Ef as [Hin Hn].
  destruct (str_eqb_spec (var_Value x) (var_Value v)) as [Hv|Hv]; [done|]. intros _. exists x.
  split_and!; [by apply list_elem_of_In|by apply bool_decide_eq_true in Hn|done].
Qed.
(** a merge keeps the existing variables in front, adds exactly the new
    ones, gives no name two values when the existing ones do not, and fails
    exactly when two of the variables have one name and different values. *)
Theorem mergeEnvVars_spec existing asyncVars : vars_agree existing ->
  match mergeEnvVars existing asyncVars with
  | Ok out => existing `prefix_of` out /\ (forall v, v ∈ out <-> v ∈ existing \/ v ∈ asyncVars) /\ vars_agree out
  | Err _ => ~ vars_agree (existing ++ asyncVars)
  end.
Proof.
  revert existing. induction asyncVars as [|v l IH]; intros existing Ha; cbn [mergeEnvVars].
  { split_and!; [done|set_solver|done]. }
  destruct (add_var existing v) as [out|e] eqn:Eadd.
  - destruct (add_var_Ok _ _ _ Eadd) as [[-> Hin]|[-> Hn]].
    + specialize (IH existing Ha). destruct (mergeEnvVars existing l) as [out|e'].
      * destruct IH as (H1 & H2 & H3). split_and!; [done| |done]. intros x. rewrite H2. set_solver.
      * intros H. apply IH. intros x y Hx Hy. apply H; set_solver.
    + assert (vars_agree (existing ++ [v])) as Ha'.
      { intros x y [Hx|Hx%list_elem_of_singleton]%elem_of_app [Hy|Hy%list_elem_of_singleton]%elem_of_app Hxy; subst.
        - by apply Ha. - exfalso. apply Hn. rewrite <- Hxy. by apply list_elem_of_fmap_2.
        - exfalso. apply Hn. rewrite Hxy. by apply list_elem_of_fmap_2. - done. }
      specialize (IH _ Ha'). destruct (mergeEnvVars (existing ++ [v]) l) as [out|e'].
      * destruct IH as (H1 & H2 & H3). split_and!; [by eapply prefix_app_l| |done]. intros x. rewrite H2. set_solver.
      * intros H. apply IH. by rewrite <- app_assoc.
  - destruct (add_var_Err _ _ _ Eadd) as (v' & Hin & Hn & Hv). intros H. apply Hv, H; set_solver.
Qed.
Lemma mergeEnvVars_spec_witness :
  match mergeEnvVars [mkEnvVar #"A" #"1"] [mkEnvVar #"B" #"2"; mkEnvVar #"A" #"1"] with
  | Ok out => [mkEnvVar #"A" #"1"] `prefix_of` out /\
      (forall v, v ∈ out <-> v ∈ [mkEnvVar #"A" #"1"] \/ v ∈ [mkEnvVar #"B" #"2"; mkEnvVar #"A" #"1"]) /\ vars_agree out
  | Err _ => ~ vars_agree ([mkEnvVar #"A" #"1"] ++ [mkEnvVar #"B" #"2"; mkEnvVar #"A" #"1"])
  end.
Proof. apply mergeEnvVars_spec. intros v v' ->%list_elem_of_singleton ->%list_elem_of_singleton _. done. Defined.
End MergeFacts.

(** * The cost of an environment and its idle time: [internal/metrics/cost.go]

    Floating point as Go computes it on a machine without fused multiply-add.
    [resource.ParseQuantity] is third party: [QuantityOps] has the readings of
    a quantity that the code uses. *)

(** [AsApproximateFloat64] and [Value] of a quantity that parses. *)
Class QuantityOps := { quantity_float : gostring -> option float64; quantity_value : gostring -> option Z }.

Definition AnnotationHibernateAfter : gostring := #"divergedev.com/hibernate-after".
Definition AnnotationLastTrafficAt : gostring := #"divergedev.com/last-traffic-at".
Definition AnnotationHibernated : gostring := #"divergedev.com/hibernated".
Definition DefaultServiceCPUCores : float64 := f_of_ratio false 1 4.
Definition DefaultServiceMemoryGiB : float64 := f_of_ratio false 1 2.
Definition Hour : Z := 60 * Minute.
Definition defaultIdleThreshold : Z := 30 * Minute.
Definition defaultPreviewTTL : Z := 24 * Hour.

Record CostRateCard := mkRateCard { VCPUHourUSD : float64; MemoryGiBHourUSD : float64; DatabaseSchemaHrUSD : float64 }.
Definition DefaultCostRateCard : CostRateCard := mkRateCard (f_of_ratio false 4 100) (f_of_ratio false 4 1000) (f_of_ratio false 1 100).
Definition at_least_zero (x : float64) : float64 := if f_lt x f_zero then f_zero else x.
Definition normalizeRateCard (rate : CostRateCard) : CostRateCard :=
  if sf_eqb (VCPUHourUSD rate) f_zero && sf_eqb (MemoryGiBHourUSD rate) f_zero && sf_eqb (DatabaseSchemaHrUSD rate) f_zero
  then DefaultCostRateCard
  else mkRateCard (at_least_zero (VCPUHourUSD rate)) (at_least_zero (MemoryGiBHourUSD rate)) (at_least_zero (DatabaseSchemaHrUSD rate)).
(** [Duration.Hours] *)
Definition Hours (d : Z) : float64 := f_add (f_of_Z (Z.quot d Hour)) (f_div (f_of_Z (Z.rem d Hour)) (f_of_Z Hour)).

Record EnvironmentCostEstimate := mkCost {
  HourlyUSD : float64; AccruedUSD : float64; ProjectedTTLUSD : float64; IdleDuration : Z; ShouldHibernate : bool }.

Section Cost.
Context {Q : QuantityOps}.

(** An annotation that parses to a time. *)
Definition annotated_time (env : Environment) (key : gostring) : option Time :=
  raw ← ev_Annotations env !! key; if str_eqb raw [] then None else ParseRFC3339 raw.
Definition hibernated (env : Environment) : bool := str_eqb (text_at (ev_Annotations env) AnnotationHibernated) #"true".

Definition first_time (t : Time) (next : Time) : Time := if IsZero t then next else t.
Definition created_or_zero (env : Environment) : Time := default time_zero (et_CreatedAt (ev_Status env)).
Definition idle_threshold (env : Environment) (idleThreshold : Z) : Z :=
  let t := match ev_Annotations env !! AnnotationHibernateAfter with
           | Some raw =>
               if str_eqb raw [] then idleThreshold
               else match ParseDuration raw with Some d => if 0 <? d then d else idleThreshold | None => idleThreshold end
           | None => idleThreshold
           end in
  if t <=? 0 then defaultIdleThreshold else t.
Definition ShouldHibernateIdleEnvironment (env : Environment) (lastTrafficAt now : Time) (idleThreshold : Z) : bool :=
  if negb (str_eqb (et_Phase (ev_Status env)) PhaseRunning) then false
  else
    let refTime := first_time lastTrafficAt (default lastTrafficAt (annotated_time env AnnotationLastTrafficAt)) in
    let refTime := first_time refTime (ev_CreationTimestamp env) in
    let refTime := if IsZero refTime then default refTime (et_CreatedAt (ev_Status env)) else refTime in
    if IsZero refTime || negb (After now refTime) then false
    else idle_threshold env idleThreshold <=? Sub now refTime.

Definition service_count (env : Environment) : Z :=
  let n := Z.max (Z.of_nat (length (dep_ChangedServices (es_Deploy (ev_Spec env))))) (Z.of_nat (length (et_Services (ev_Status env)))) in
  if n <? 1 then 1 else n.
Definition resources_of (env : Environment) : option ResourceOverride := c ← es_ServiceConfig (ev_Spec env); sc_Resources c.
Definition cpu_cores (env : Environment) : float64 :=
  match resources_of env with
  | Some r =>
      if str_eqb (ro_CPURequest r) [] then DefaultServiceCPUCores
      else match quantity_float (ro_CPURequest r) with
           | Some cores => if f_gt cores f_zero then cores else DefaultServiceCPUCores
           | None => DefaultServiceCPUCores
           end
  | None => DefaultServiceCPUCores
  end.
Definition memory_gib (env : Environment) : float64 :=
  match resources_of env with
  | Some r =>
      if str_eqb (ro_MemoryRequest r) [] then DefaultServiceMemoryGiB
      else match quantity_value (ro_MemoryRequest r) with
           | Some v => let gib := f_div (f_of_Z v) (f_of_Z (1024 * 1024 * 1024)) in
                       if f_gt gib f_zero then gib else DefaultServiceMemoryGiB
           | None => DefaultServiceMemoryGiB
           end
  | None => DefaultServiceMemoryGiB
  end.
Definition hourly_cost (env : Environment) (rate : CostRateCard) : float64 :=
  let perService := f_add (f_mul (cpu_cores env) (VCPUHourUSD rate)) (f_mul (memory_gib env) (MemoryGiBHourUSD rate)) in
  let hourly := f_mul (f_of_Z (service_count env)) perService in
  let mode := db_Mode (es_Database (ev_Spec env)) in
  let hourly := if str_eqb mode [] || str_eqb mode #"none" then hourly else f_add hourly (DatabaseSchemaHrUSD rate) in
  if f_lt hourly f_zero || hibernated env then f_zero else hourly.
Definition start_time (env : Environment) : Time :=
  if IsZero (ev_CreationTimestamp env) then default (ev_CreationTimestamp env) (et_CreatedAt (ev_Status env)) else ev_CreationTimestamp env.
(** The time since [t], when it is known and past. *)
Definition since (now t : Time) : Z := if negb (IsZero t) && After now t then Sub now t else 0.
Definition EstimateEnvironmentCost (env : Environment) (now : Time) (rate : CostRateCard) : EnvironmentCostEstimate :=
  let hourly := hourly_cost env (normalizeRateCard rate) in
  let startTime := start_time env in
  let runtimeHours := if negb (IsZero startTime) && After now startTime then Hours (Sub now startTime) else f_zero in
  let accrued := f_mul hourly runtimeHours in
  let ttl := match lc_TTL (es_Lifecycle (ev_Spec env)) with Some d => if 0 <? d then d else defaultPreviewTTL | None => defaultPreviewTTL end in
  let projected := f_mul hourly (Hours ttl) in
  let projected := if f_lt projected accrued then accrued else projected in
  let lastTraffic := default startTime (annotated_time env AnnotationLastTrafficAt) in
  mkCost hourly accrued projected (since now lastTraffic)
    (ShouldHibernateIdleEnvironment env lastTraffic now defaultIdleThreshold).

(** the two places that decide whether an environment is idle agree: the
    controller, which passes no time of last traffic and no threshold, and the
    cost estimate. *)
Theorem idle_decisions_agree env now rate :
  ShouldHibernate (EstimateEnvironmentCost env now rate) = ShouldHibernateIdleEnvironment env time_zero now 0.
Proof.
  unfold EstimateEnvironmentCost; cbn. unfold ShouldHibernateIdleEnvironment.
  replace (idle_threshold env defaultIdleThreshold) with (idle_threshold env 0)
    by (unfold idle_threshold; repeat case_match; done).
  destruct (negb _); [done|]. unfold start_time, first_time.
  destruct (annotated_time env AnnotationLastTrafficAt) as [t|]; cbn;
    destruct (ev_CreationTimestamp env) as [s n]; destruct (et_CreatedAt (ev_Status env)) as [c|]; cbn; repeat case_match; congruence || done.
Qed.
End Cost.
