(* ===== verification/EnvWorld.v ===== *)
(** * The world of the environment controller:
    [internal/controller/environment_controller.go], the interfaces it calls
    and the status update of [environment_status.go]

    A run of the controller is a computation on the stores of the API server,
    on what lies behind the providers ([X]: routes, databases, queues, CI and
    notifications) and on the environment it has in memory.  Providers are
    interfaces of the program: records of functions on [X], any of which may
    fail.  Recorded events, notifications and calls of providers, with whether
    they failed, are kept in order. *)

From S2P Require Import Prelude GoStrings GoCrypto GoTime TokenStore KubeApi AgentTask ResourceNames.
From S2P Require Import EnvTypes Conditions EarlyReturn ObjectApi Resources HookJobs EnvStatus.
Local Open Scope Z_scope.

Definition environmentFinalizer : gostring := #"divergedev.com/environment-protection".
(** Where the resources of the preview go. *)
Definition preview_ns {U : GoUnicode} (env : Environment) : gostring :=
  if str_eqb (dep_Namespace (es_Deploy (ev_Spec env))) #"create" then PreviewNamespace env else ev_Namespace env.

(** ** Objects *)
(** A container, of which the fingerprint reads these fields. *)
Record CtEnv := mkCtEnv {
  ce_Name : gostring; ce_Value : gostring; ce_ConfigMap : option (gostring * gostring); ce_Secret : option (gostring * gostring) }.
Record CtEnvFrom := mkCtEnvFrom { cf_Prefix : gostring; cf_ConfigMap : option gostring; cf_Secret : option gostring }.
Record CtPort := mkCtPort { cp_Name : gostring; cp_Port : Z; cp_Protocol : gostring }.
Record Container := mkContainer {
  ct_Name : gostring; ct_Image : gostring; ct_Command : list gostring; ct_Args : list gostring; ct_Ports : list CtPort;
  ct_Env : list CtEnv; ct_EnvFrom : list CtEnvFrom }.
(** The ConfigMap, the Secret and the projections of a volume. *)
Record PodVolume := mkPodVolume {
  pv_ConfigMap : option gostring; pv_Secret : option gostring; pv_Projected : list (option gostring * option gostring) }.
Record WorkloadSpec := mkWorkload {
  wl_Replicas : option Z; wl_PodAnnotations : gmap gostring gostring; wl_InitContainers : list Container;
  wl_Containers : list Container; wl_Volumes : list PodVolume }.
Definition wl_set_Replicas (n : option Z) (s : WorkloadSpec) : WorkloadSpec :=
  mkWorkload n (wl_PodAnnotations s) (wl_InitContainers s) (wl_Containers s) (wl_Volumes s).
(** Deployments and StatefulSets. *)
Abbreviation Workload := (Object WorkloadSpec unit).
Abbreviation Namespace := (Object unit unit).
(** What limits a preview namespace. *)
Inductive GuardSpec :=
| LimitRange (limits requests : list (gostring * gostring))
| ResourceQuota (hard : list (gostring * gostring))
| NetworkPolicy (policyTypes : list gostring) (egress : list (gostring * list gostring)).
Abbreviation Guard := (Object GuardSpec unit).

(** ** Providers *)
Section Providers.
Context (X : Type).
Definition call (A : Type) : Type := X -> result gostring A * X.
Record Router := mkRouter {
  router_Reconcile : Environment -> call unit; router_Teardown : Environment -> call unit;
  GetExternalURL : Environment -> gostring }.
Record Deployer := mkDeployer {
  deployer_Deploy : Environment -> call unit; deployer_Teardown : Environment -> call unit;
  deployer_Status : Environment -> call (list gostring) }.
(** What the type switches on a database provider see. *)
Inductive DatabaseProvider := mkDatabaseProvider {
  db_Provision : Environment -> call (option DatabaseResult);
  db_Teardown : Environment -> call unit;
  db_Close : option (X -> X);
  db_Noop : bool;
  db_Instrumented : option (gostring * option DatabaseProvider) }.
Record AsyncProvisioner := mkAsync {
  async_Name : gostring;
  (** the environment variables of the route; a nil result is none *)
  async_Provision : Environment -> AsyncRouteSpec -> call (option (gmap gostring gostring));
  async_Teardown : Environment -> AsyncRouteSpec -> call unit }.
Record FeatureResult := mkFeatureResult { fr_ConfigMapName : gostring; fr_EnvVars : gmap gostring gostring; fr_Message : gostring }.
Record FeatureProvider := mkFeatures {
  feature_Type : gostring;
  (** it may write annotations of the environment in memory *)
  feature_Provision : Environment -> X -> result gostring (option FeatureResult) * gmap gostring gostring * X;
  feature_Teardown : Environment -> call unit }.
(** A registry of providers; [Create] of an unknown name is an error. *)
Record Registry (P : Type) := mkRegistry { Has : gostring -> bool; Create : gostring -> result gostring (option P) }.
Inductive notice :=
| EnvironmentCreated | EnvironmentReady | EnvironmentFailed (reason : gostring) | EnvironmentTeardown
| CommitStatus (state description : gostring).
Record TestResult := mkTestResult { tr_State : gostring; tr_Summary : gostring; tr_URL : gostring; tr_ResolvedRunID : gostring }.
Record TestRunner := mkTestRunner {
  test_Trigger : Environment -> call gostring; test_Status : Environment -> gostring -> call (option TestResult) }.
(** The setup runners of [setup_sql_interface.go]: in process, with an
    executor or a connection, or as a Job. *)
Inductive SetupRunner := DirectSetup (executor : option (gostring -> call unit)) | JobSetup.
End Providers.
Arguments mkRegistry {P}. Arguments Has {P}. Arguments Create {P}.
Arguments mkRouter {X}. Arguments router_Reconcile {X}. Arguments router_Teardown {X}. Arguments GetExternalURL {X}.
Arguments mkDeployer {X}. Arguments deployer_Deploy {X}. Arguments deployer_Teardown {X}. Arguments deployer_Status {X}.
Arguments mkDatabaseProvider {X}. Arguments db_Provision {X}. Arguments db_Teardown {X}. Arguments db_Close {X}.
Arguments db_Noop {X}. Arguments db_Instrumented {X}.
Arguments mkAsync {X}. Arguments async_Name {X}. Arguments async_Provision {X}. Arguments async_Teardown {X}.
Arguments mkFeatures {X}. Arguments feature_Type {X}. Arguments feature_Provision {X}. Arguments feature_Teardown {X}.
Arguments mkTestRunner {X}. Arguments test_Trigger {X}. Arguments test_Status {X}.
Arguments DirectSetup {X}. Arguments JobSetup {X}.

Record EnvironmentReconciler (X : Type) := mkEnvReconciler {
  er_Router : Router X;
  er_DatabaseProvider : option (DatabaseProvider X);
  er_Deployer : option (Deployer X);
  (** [PostEnvironment...] and [PostCommitStatus]: the text of the error *)
  er_Notifier : option (notice -> Environment -> X -> option gostring * X);
  er_StatusReporter : option (notice -> Environment -> X -> option gostring * X);
  er_TestRunner : option (TestRunner X);
  er_AsyncProvisioner : option (AsyncProvisioner X);
  er_FeatureProvider : option (FeatureProvider X);
  er_SetupJobImage : gostring;
  er_SetupRunner : option (SetupRunner X);
  (** the registries of the packages *)
  er_databases : Registry (DatabaseProvider X);
  er_asyncs : Registry (AsyncProvisioner X);
  er_features : Registry (FeatureProvider X);
  (** [sql.Open] of a DSN, and [ExecContext] on it *)
  er_OpenSQL : gostring -> result gostring unit;
  er_ExecSQL : gostring -> gostring -> call X unit;
  (** the client and the scheme: texts of errors, kinds that are not
      registered, [SetOwnerReference] and [SetControllerReference] *)
  er_api_text : api_error -> gostring;
  IsNotRegisteredError : api_error -> bool;
  SetOwnerReference : Environment -> list OwnerReference -> list OwnerReference;
  er_Scheme : bool;
  SetControllerReference : Environment -> list OwnerReference -> result gostring (list OwnerReference) }.
Arguments er_Router {X}. Arguments er_DatabaseProvider {X}. Arguments er_Deployer {X}. Arguments er_Notifier {X}.
Arguments er_StatusReporter {X}. Arguments er_TestRunner {X}. Arguments er_AsyncProvisioner {X}. Arguments er_FeatureProvider {X}.
Arguments er_SetupJobImage {X}. Arguments er_SetupRunner {X}. Arguments er_databases {X}. Arguments er_asyncs {X}.
Arguments er_features {X}. Arguments er_OpenSQL {X}. Arguments er_ExecSQL {X}. Arguments er_api_text {X}. Arguments IsNotRegisteredError {X}.
Arguments SetOwnerReference {X}. Arguments er_Scheme {X}. Arguments SetControllerReference {X}. Arguments mkEnvReconciler {X}.

(** ** The world *)
Inductive env_event :=
| Recorded (reason : gostring)
| Posted (n : notice)
| Called (what : gostring) (failed : bool).
Record env_world (E N L P J S M A X : Type) := mkEnvWorld {
  ew_envs : E; ew_namespaces : N; ew_limits : L; ew_quotas : L; ew_netpols : L; ew_deployments : P; ew_statefulsets : P;
  ew_hooks : hook_world J S M A; ew_ext : X; ew_events : list env_event;
  (** the environment in memory *)
  ew_cur : Environment }.
Arguments mkEnvWorld {E N L P J S M A X}. Arguments ew_envs {E N L P J S M A X}. Arguments ew_namespaces {E N L P J S M A X}.
Arguments ew_limits {E N L P J S M A X}. Arguments ew_quotas {E N L P J S M A X}. Arguments ew_netpols {E N L P J S M A X}.
Arguments ew_deployments {E N L P J S M A X}. Arguments ew_statefulsets {E N L P J S M A X}. Arguments ew_hooks {E N L P J S M A X}.
Arguments ew_ext {E N L P J S M A X}. Arguments ew_events {E N L P J S M A X}. Arguments ew_cur {E N L P J S M A X}.

(** The readings of the clock, in the order of the code. *)
Record env_readings := mkEnvReadings {
  now_quota : Time; now_created : Time; now_ttl : Time; until_ttl : Time; now_idle : Time;
  now_triggered : Time; since_started : Time; now_finished : Time; since_polled : Time; since_deleted : Time }.

Section World.
Context {U : GoUnicode} {O : ConditionOps} {E N L P J S M A X : Type}.
Context {EA : ObjectApi Environment E} {NA : ObjectApi Namespace N} {LA : ObjectApi Guard L} {PA : ObjectApi Workload P}.
Context {JA : ObjectApi Job J} {SA : ObjectApi Secret S} {MA : ObjectApi ConfigMap M} {AA : ObjectApi AtlasCR A}.
Abbreviation W := (env_world E N L P J S M A X).
(** Errors are their texts. *)
Abbreviation C := (run (outcome gostring) W).
Context (r : EnvironmentReconciler X).

Definition on_envs {B} (f : E -> B * E) : C B := on (fun w => let '(b, x) := f (ew_envs w) in
  (b, mkEnvWorld x (ew_namespaces w) (ew_limits w) (ew_quotas w) (ew_netpols w) (ew_deployments w) (ew_statefulsets w) (ew_hooks w) (ew_ext w) (ew_events w) (ew_cur w))).
Definition on_namespaces {B} (f : N -> B * N) : C B := on (fun w => let '(b, x) := f (ew_namespaces w) in
  (b, mkEnvWorld (ew_envs w) x (ew_limits w) (ew_quotas w) (ew_netpols w) (ew_deployments w) (ew_statefulsets w) (ew_hooks w) (ew_ext w) (ew_events w) (ew_cur w))).
Definition on_limits {B} (f : L -> B * L) : C B := on (fun w => let '(b, x) := f (ew_limits w) in
  (b, mkEnvWorld (ew_envs w) (ew_namespaces w) x (ew_quotas w) (ew_netpols w) (ew_deployments w) (ew_statefulsets w) (ew_hooks w) (ew_ext w) (ew_events w) (ew_cur w))).
Definition on_quotas {B} (f : L -> B * L) : C B := on (fun w => let '(b, x) := f (ew_quotas w) in
  (b, mkEnvWorld (ew_envs w) (ew_namespaces w) (ew_limits w) x (ew_netpols w) (ew_deployments w) (ew_statefulsets w) (ew_hooks w) (ew_ext w) (ew_events w) (ew_cur w))).
Definition on_netpols {B} (f : L -> B * L) : C B := on (fun w => let '(b, x) := f (ew_netpols w) in
  (b, mkEnvWorld (ew_envs w) (ew_namespaces w) (ew_limits w) (ew_quotas w) x (ew_deployments w) (ew_statefulsets w) (ew_hooks w) (ew_ext w) (ew_events w) (ew_cur w))).
Definition on_deployments {B} (f : P -> B * P) : C B := on (fun w => let '(b, x) := f (ew_deployments w) in
  (b, mkEnvWorld (ew_envs w) (ew_namespaces w) (ew_limits w) (ew_quotas w) (ew_netpols w) x (ew_statefulsets w) (ew_hooks w) (ew_ext w) (ew_events w) (ew_cur w))).
Definition on_statefulsets {B} (f : P -> B * P) : C B := on (fun w => let '(b, x) := f (ew_statefulsets w) in
  (b, mkEnvWorld (ew_envs w) (ew_namespaces w) (ew_limits w) (ew_quotas w) (ew_netpols w) (ew_deployments w) x (ew_hooks w) (ew_ext w) (ew_events w) (ew_cur w))).
Definition on_hooks {B} (f : hook_world J S M A -> B * hook_world J S M A) : C B := on (fun w => let '(b, x) := f (ew_hooks w) in
  (b, mkEnvWorld (ew_envs w) (ew_namespaces w) (ew_limits w) (ew_quotas w) (ew_netpols w) (ew_deployments w) (ew_statefulsets w) x (ew_ext w) (ew_events w) (ew_cur w))).
Definition on_ext {B} (f : X -> B * X) : C B := on (fun w => let '(b, x) := f (ew_ext w) in
  (b, mkEnvWorld (ew_envs w) (ew_namespaces w) (ew_limits w) (ew_quotas w) (ew_netpols w) (ew_deployments w) (ew_statefulsets w) (ew_hooks w) x (ew_events w) (ew_cur w))).
Definition emit (e : env_event) : C unit := modify (fun w =>
  mkEnvWorld (ew_envs w) (ew_namespaces w) (ew_limits w) (ew_quotas w) (ew_netpols w) (ew_deployments w) (ew_statefulsets w) (ew_hooks w) (ew_ext w) (ew_events w ++ [e]) (ew_cur w)).
Definition current : C Environment := on (fun w => (ew_cur w, w)).
Definition mutate (f : Environment -> Environment) : C unit := modify (fun w =>
  mkEnvWorld (ew_envs w) (ew_namespaces w) (ew_limits w) (ew_quotas w) (ew_netpols w) (ew_deployments w) (ew_statefulsets w) (ew_hooks w) (ew_ext w) (ew_events w) (f (ew_cur w))).
Definition on_secrets {B} (f : S -> B * S) : C B := on_hooks (fun h => let '(b, x) := f (hw_secrets h) in
  (b, mkHookWorld (hw_jobs h) x (hw_configmaps h) (hw_migrations h) (hw_schemas h))).
Definition on_configmaps {B} (f : M -> B * M) : C B := on_hooks (fun h => let '(b, x) := f (hw_configmaps h) in
  (b, mkHookWorld (hw_jobs h) (hw_secrets h) x (hw_migrations h) (hw_schemas h))).

(** A call of a provider, with its place in the trace. *)
Definition failed_result {B} (x : result gostring B) : bool := match x with Ok _ => false | Err _ => true end.
Definition provider {B} (what : gostring) (f : call X B) : C (result gostring B) :=
  let! x := on_ext f in
  do! emit (Called what (failed_result x)) in ret x.
Definition record (reason : gostring) : C unit := emit (Recorded reason).

(** The text of [fmt.Errorf] with [%w] at the end. *)
Definition wrap (what : gostring) (e : api_error) : gostring := what ++ #": " ++ er_api_text r e.

(** *** Status *)
Definition with_env_status (f : EnvironmentStatus -> EnvironmentStatus) (env : Environment) : Environment :=
  ev_set_Status (f (ev_Status env)) env.
Definition set_status (f : EnvironmentStatus -> EnvironmentStatus) : C unit := mutate (with_env_status f).
Definition set_condition (ty status reason message : gostring) : C unit := set_status (fun st =>
  et_set_Conditions (SetStatusCondition (et_Conditions st) (mkCondition ty status reason message 0 time_zero)) st).
(** Every caller returns what this returns. *)
Definition updateStatusWithRequeue {B} (base : Environment) (err : option gostring) (requeueAfter : Z) : C B :=
  let! env := current in
  let! x := on_envs (obj_Patch (r_key env) (with_env_status (merge_env_status (ev_Status base) (ev_Status env)))) in
  match x with
  | Err e => fail (wrap #"failed to update status" e)
  | Ok env' =>
      do! mutate (fun _ => env') in
      match err with
      | Some e => fail e
      | None => if 0 <? requeueAfter then requeue requeueAfter else done
      end
  end.

(** *** Notifications *)
(** The notifier, with the event of a failed notification. *)
Definition notify (n : notice) : C unit :=
  match er_Notifier r with
  | None => ret tt
  | Some post =>
      let! env := current in
      let! x := on_ext (post n env) in
      do! emit (Posted n) in
      match x with Some _ => record #"NotificationFailed" | None => ret tt end
  end.
Definition notifyFailed (msg : gostring) : C unit := notify (EnvironmentFailed msg).
(** Errors of the status reporter are only logged. *)
Definition commit_status (state description : gostring) : C unit :=
  match er_StatusReporter r with
  | None => ret tt
  | Some post =>
      let! env := current in
      let! _ := on_ext (post (CommitStatus state description) env) in
      emit (Posted (CommitStatus state description))
  end.
(** A failed step: its condition, the notification and the status. *)
Definition step_failed {B} (base : Environment) (ty reason err : gostring) : C B :=
  do! set_condition ty ConditionFalse reason err in
  do! notifyFailed err in
  updateStatusWithRequeue base (Some err) 0.
End World.
