(* ===== verification/EnvDrift.v ===== *)
(** * Drift from the baseline: [internal/controller/environment_drift.go]

    A fingerprint of the baseline's workloads and of the ConfigMaps and
    Secrets they and the environment use, kept in an annotation, and what a
    change of it does.  Go maps of keys are sets, visited in the order of
    [elements]; that order only picks which of two failed reads is reported. *)

From S2P Require Import Prelude GoSort GoStrings GoCrypto GoTime TokenStore KubeApi AgentTask ResourceNames.
From S2P Require Import EnvTypes Conditions EarlyReturn ObjectApi Resources HookJobs EnvStatus EnvWorld.
Local Open Scope Z_scope.

Definition AnnotationBaselineFingerprint : gostring := #"divergedev.com/baseline-fingerprint".
Definition AnnotationDriftPolicy : gostring := #"divergedev.com/drift-policy".
Definition DriftPolicySync : gostring := #"sync".
Definition DriftPolicyIgnore : gostring := #"ignore".

Definition baselineNamespaceForEnvironment (env : Environment) : gostring :=
  match es_ServiceConfig (ev_Spec env) with
  | Some sc => let ns := TrimSpace (sc_Namespace sc) in if str_eqb ns [] then ev_Namespace env else ns
  | None => ev_Namespace env
  end.
Definition containsString (slice : list gostring) (target : gostring) : bool :=
  if str_eqb target [] then false else bool_decide (target ∈ slice).

(** ** What is read *)
Definition target_services (env : Environment) : list gostring :=
  let sc := match es_ServiceConfig (ev_Spec env) with Some c => [sc_ServiceName c] | None => [] end in
  filter (fun s => s <> []) (map TrimSpace (dep_ChangedServices (es_Deploy (ev_Spec env)) ++ sc)).
Definition baseline_of (targets : list gostring) (dep : Workload) : bool :=
  let role := text_at (o_Labels dep) #"divergedev.com/role" in
  let matchesTarget := containsString targets (text_at (o_Labels dep) #"divergedev.com/service") || containsString targets (o_Name dep) in
  if str_eqb role #"preview" || negb (str_eqb (text_at (o_Labels dep) #"divergedev.com/environment") []) then false
  else str_eqb role #"baseline" && (bool_decide (targets = []) || matchesTarget) || matchesTarget.
Abbreviation keys := (gset (gostring * gostring)).
Definition key_of (ns : gostring) (name : option gostring) : keys :=
  match name with Some n => if str_eqb (TrimSpace n) [] then ∅ else {[(ns, TrimSpace n)]} | None => ∅ end.
Definition container_keys (configmaps : bool) (ns : gostring) (c : Container) : keys :=
  ⋃ (map (fun ef => key_of ns (if configmaps then cf_ConfigMap ef else cf_Secret ef)) (ct_EnvFrom c)) ∪
  ⋃ (map (fun e => key_of ns (fst <$> (if configmaps then ce_ConfigMap e else ce_Secret e))) (ct_Env c)).
Definition volume_keys (configmaps : bool) (ns : gostring) (v : PodVolume) : keys :=
  key_of ns (if configmaps then pv_ConfigMap v else pv_Secret v) ∪
  ⋃ (map (fun p => key_of ns (if configmaps then fst p else snd p)) (pv_Projected v)).
Definition workload_keys (configmaps : bool) (dep : Workload) : keys :=
  let ns := o_Namespace dep in
  let spec := o_Spec dep in
  ⋃ (map (container_keys configmaps ns) (wl_InitContainers spec ++ wl_Containers spec)) ∪
  ⋃ (map (volume_keys configmaps ns) (wl_Volumes spec)).
(** References of the environment; those to other namespaces are skipped. *)
Definition env_from_keys (env : Environment) : keys :=
  ⋃ (map (fun ref =>
    let refNS := TrimSpace (sref_Namespace ref) in
    if negb (str_eqb refNS []) && negb (str_eqb refNS (ev_Namespace env)) then ∅ else key_of (ev_Namespace env) (Some (sref_Name ref)))
    (es_EnvFrom (ev_Spec env) ++ dep_EnvFrom (es_Deploy (ev_Spec env)))).

(** [sort.Slice] by namespace and name, which identify the objects sorted. *)
Definition sort_key {Sp : Type} (o : Object Sp unit) : gostring := o_Namespace o ++ #"/" ++ o_Name o.
Definition before {Sp : Type} (o o' : Object Sp unit) : Prop := str_le (sort_key o) (sort_key o').
#[global] Instance before_dec {Sp : Type} : RelDecision (before (Sp := Sp)).
Proof. intros o o'. unfold before. apply _. Defined.
Definition sort_objects {Sp : Type} (l : list (Object Sp unit)) : list (Object Sp unit) := merge_sort before l.

(** ** What is hashed *)
Definition NL : gostring := [ascii_of_nat 10].
Definition NUL : gostring := [ascii_of_nat 0].
(** The entries of a map by key. *)
Definition entries {V : Type} (m : gmap gostring V) : list (gostring * V) :=
  k ← sort_strings (map fst (map_to_list m)); match m !! k with Some v => [(k, v)] | None => [] end.
Definition env_text (e : CtEnv) : gostring :=
  let valFrom := match ce_ConfigMap e, ce_Secret e with
                 | Some (name, key), _ => #"cm:" ++ name ++ #":" ++ key
                 | None, Some (name, key) => #"sec:" ++ name ++ #":" ++ key
                 | None, None => []
                 end in
  #"env:" ++ ce_Name e ++ #"=" ++ ce_Value e ++ #"(" ++ valFrom ++ #")" ++ NL.
Definition container_text (prefix : gostring) (c : Container) : gostring :=
  prefix ++ #":" ++ ct_Name c ++ #"|image:" ++ ct_Image c ++ #"|cmd:" ++ Join (ct_Command c) NUL ++ #"|args:" ++ Join (ct_Args c) NUL ++ NL ++
  concat (map (fun p => #"port:" ++ cp_Name p ++ #":" ++ FormatInt (cp_Port p) ++ #"/" ++ cp_Protocol p ++ NL) (ct_Ports c)) ++
  concat (map env_text (ct_Env c)) ++
  concat (map (fun ef => #"envFrom:prefix=" ++ cf_Prefix ef ++ #"|cm=" ++ default [] (cf_ConfigMap ef) ++ #"|sec=" ++ default [] (cf_Secret ef) ++ NL)
    (ct_EnvFrom c)).
Definition workload_text (dep : Workload) : gostring :=
  let spec := o_Spec dep in
  #"deploy:" ++ o_Namespace dep ++ #"/" ++ o_Name dep ++ NL ++
  concat (map (fun kv => #"pod-anno:" ++ fst kv ++ #"=" ++ snd kv ++ NL) (entries (wl_PodAnnotations spec))) ++
  concat (map (container_text #"init-container") (wl_InitContainers spec)) ++
  concat (map (container_text #"container") (wl_Containers spec)).
Definition hashed_entry (what : gostring) (kv : gostring * gostring) : gostring :=
  what ++ #":" ++ fst kv ++ #"=" ++ hex_encode (sha256 (snd kv)) ++ NL.
Definition configmap_text (cm : ConfigMap) : gostring :=
  #"cm:" ++ o_Namespace cm ++ #"/" ++ o_Name cm ++ NL ++
  concat (map (fun kv => #"data:" ++ fst kv ++ #"=" ++ snd kv ++ NL) (entries (cm_Data (o_Spec cm)))) ++
  concat (map (hashed_entry #"bdata") (entries (cm_BinaryData (o_Spec cm)))).
Definition secret_text (s : Secret) : gostring :=
  #"secret:" ++ o_Namespace s ++ #"/" ++ o_Name s ++ #"|type:" ++ sec_Type (o_Spec s) ++ NL ++
  concat (map (hashed_entry #"data") (entries (sec_Data (o_Spec s)))).
Definition fingerprint (deps : list Workload) (cms : list ConfigMap) (secs : list Secret) : gostring :=
  if bool_decide (deps = [] /\ cms = [] /\ secs = []) then []
  else #"sha256:" ++ hex_encode (take 16 (sha256 (concat (map workload_text deps) ++ concat (map configmap_text cms) ++
                                                   concat (map secret_text secs)))).

Section Drift.
Context {U : GoUnicode} {O : ConditionOps} {E N L P J S M A X : Type}.
Context {EA : ObjectApi Environment E} {NA : ObjectApi Namespace N} {LA : ObjectApi Guard L} {PA : ObjectApi Workload P}.
Context {JA : ObjectApi Job J} {SA : ObjectApi Secret S} {MA : ObjectApi ConfigMap M} {AA : ObjectApi AtlasCR A}.
Abbreviation W := (env_world E N L P J S M A X).
Abbreviation C := (run (outcome gostring) W).
Context (r : EnvironmentReconciler X).

(** ** The fingerprint *)
(** Objects read one by one; what is missing is skipped. *)
Fixpoint get_all {Sp : Type} (get : obj_key -> C (ares (Object Sp unit))) (what : gostring) (ks : list obj_key)
    : C (result gostring (list (Object Sp unit))) :=
  match ks with
  | [] => ret (Ok [])
  | k :: ks =>
      let! got := get k in
      match got with
      | Ok o => let! rest := get_all get what ks in ret (l ← rest; Ok (o :: l))
      | Err NotFound => get_all get what ks
      | Err e => ret (Err (wrap r (what ++ fst k ++ #"/" ++ snd k) e))
      end
  end.
Definition manifest_labels (env : Environment) : labels :=
  <[ #"divergedev.com/manifests" := #"true"]> {[ #"divergedev.com/environment" := ev_Name env]}.
Definition listed_keys (what ns : gostring) (sel : labels) : C (result gostring keys) :=
  let! l := on_configmaps (obj_List sel ns) in
  ret match l with
      | Ok cms => Ok (list_to_set (map (fun cm : ConfigMap => (o_Namespace cm, o_Name cm)) cms))
      | Err e => Err (wrap r what e)
      end.
Definition manifest_keys (env : Environment) : C (result gostring keys) :=
  match dep_Manifests (es_Deploy (ev_Spec env)) with
  | Some m =>
      if str_eqb (mf_Type m) #"configmap" then
        let! x := listed_keys #"failed to list manifest configmaps" (preview_ns env) (manifest_labels env) in
        match x with
        | Err e => ret (Err e)
        | Ok ks =>
            if str_eqb (preview_ns env) (ev_Namespace env) then ret (Ok ks)
            else
              let! y := listed_keys #"failed to list source manifest configmaps" (ev_Namespace env) (manifest_labels env) in
              ret (ks' ← y; Ok (ks ∪ ks'))
        end
      else ret (Ok ∅)
  | None => ret (Ok ∅)
  end.
Definition computeBaselineFingerprint (env : Environment) : C (result gostring gostring) :=
  if str_eqb (dep_Mode (es_Deploy (ev_Spec env))) #"full" then ret (Ok [])
  else
    let baselineNS := baselineNamespaceForEnvironment env in
    let! l := on_deployments (obj_List ∅ baselineNS) in
    match l with
    | Err e => ret (Err (wrap r (#"failed to list baseline deployments in " ++ baselineNS) e))
    | Ok deps =>
        let matched := sort_objects (filter (fun dep => baseline_of (target_services env) dep = true) deps) in
        let! x := manifest_keys env in
        match x with
        | Err e => ret (Err e)
        | Ok manifests =>
            let cmKeys := ⋃ (map (workload_keys true) matched) ∪ manifests in
            let secretKeys := ⋃ (map (workload_keys false) matched) ∪ env_from_keys env in
            let! cms := get_all (fun k => on_configmaps (obj_Get k)) #"failed to get configmap " (elements cmKeys) in
            match cms with
            | Err e => ret (Err e)
            | Ok cms =>
                let! secs := get_all (fun k => on_secrets (obj_Get k)) #"failed to get secret " (elements secretKeys) in
                match secs with
                | Err e => ret (Err e)
                | Ok secs => ret (Ok (fingerprint matched (sort_objects cms) (sort_objects secs)))
                end
            end
        end
    end.

(** ** The reaction *)
Definition drift_ignored (env : Environment) : bool := EqualFold (TrimSpace (text_at (ev_Annotations env) AnnotationDriftPolicy)) DriftPolicyIgnore.
Definition set_annotation (k v : gostring) (env : Environment) : Environment := ev_set_Annotations (<[k := v]> (ev_Annotations env)) env.
(** The annotation on the stored object; the one in memory takes it and the
    version. *)
Definition persistAnnotation (k v : gostring) : C (ares unit) :=
  let! env := current in
  let! x := on_envs (obj_Patch (r_key env) (set_annotation k v)) in
  match x with
  | Err e => ret (Err e)
  | Ok patched => do! mutate (fun env => ev_set_ResourceVersion (ev_ResourceVersion patched) (set_annotation k v env)) in ret (Ok tt)
  end.
(** Whether the baseline drifted, and whether the preview was synced. *)
Definition reconcileBaselineDrift : C (result gostring (bool * bool)) :=
  let! env := current in
  if drift_ignored env then ret (Ok (false, false))
  else
    let! x := computeBaselineFingerprint env in
    match x with
    | Err e => ret (Err e)
    | Ok fp =>
        if str_eqb fp [] then ret (Ok (false, false))
        else
          let prevFP := TrimSpace (text_at (ev_Annotations env) AnnotationBaselineFingerprint) in
          if str_eqb prevFP [] then
            let! p := persistAnnotation AnnotationBaselineFingerprint fp in
            match p with
            | Err e => ret (Err (wrap r #"failed to persist initial baseline fingerprint" e))
            | Ok _ =>
                do! set_condition ConditionBaselineDrift ConditionFalse #"BaselineInSync" (#"Baseline fingerprint recorded (" ++ fp ++ #")") in
                ret (Ok (false, false))
            end
          else if str_eqb prevFP fp then
            do! set_condition ConditionBaselineDrift ConditionFalse #"BaselineInSync"
                  (#"Preview matches baseline configuration (" ++ fp ++ #")") in
            ret (Ok (false, false))
          else if str_eqb (ToLower (TrimSpace (text_at (ev_Annotations env) AnnotationDriftPolicy))) DriftPolicySync then
            do! mutate (set_annotation AnnotationBaselineFingerprint fp) in
            let! deployed := (match er_Deployer r with
              | None => ret (Ok tt)
              | Some d => let! env := current in provider #"deploy" (deployer_Deploy d env)
              end) in
            do! mutate (set_annotation AnnotationBaselineFingerprint prevFP) in
            match deployed with
            | Err e => ret (Err e)
            | Ok _ =>
                let! p := persistAnnotation AnnotationBaselineFingerprint fp in
                match p with
                | Err e => ret (Err (wrap r #"failed to update baseline fingerprint during sync" e))
                | Ok _ =>
                    do! set_condition ConditionBaselineDrift ConditionFalse #"BaselineSynced"
                          (#"Automatically synced preview with updated baseline (" ++ prevFP ++ #" -> " ++ fp ++ #")") in
                    do! record #"BaselineSynced" in
                    ret (Ok (false, true))
                end
            end
          else
            let msg := #"Baseline configuration changed (" ++ prevFP ++ #" -> " ++ fp ++
                       #"); set divergedev.com/drift-policy=sync to auto-refresh" in
            let alreadyReported := match FindStatusCondition (et_Conditions (ev_Status env)) ConditionBaselineDrift with
              | Some c => str_eqb (cond_Status c) ConditionTrue && str_eqb (cond_Message c) msg
              | None => false
              end in
            do! set_condition ConditionBaselineDrift ConditionTrue #"BaselineUpdated" msg in
            do! when (negb alreadyReported) (record #"BaselineDriftDetected") in
            ret (Ok (true, false))
    end.

(** ** Which environments a change of the baseline wakes *)
Definition shouldEnqueueEnvironmentForDrift (env : Environment) : bool :=
  let phase := et_Phase (ev_Status env) in
  match ev_DeletionTimestamp env with
  | Some _ => false
  | None =>
      if str_eqb (dep_Mode (es_Deploy (ev_Spec env))) #"full" then false
      else if drift_ignored env then false
      else negb (str_eqb phase PhaseFailed || str_eqb phase PhaseTerminating || str_eqb phase #"Expired")
  end.
Definition environments_of (ns : gostring) (envs : list Environment) : list obj_key :=
  map r_key (filter (fun env => baselineNamespaceForEnvironment env = ns /\ shouldEnqueueEnvironmentForDrift env = true) envs).
Definition wake (ns : gostring) (w : E) : list obj_key :=
  match fst (obj_List ∅ [] w) with Ok envs => environments_of ns envs | Err _ => [] end.
Definition mapBaselineDeploymentToEnvironments (ns : gostring) (ls : labels) (w : E) : list obj_key :=
  if str_eqb (text_at ls #"divergedev.com/role") #"preview" || negb (str_eqb (text_at ls #"divergedev.com/environment") []) ||
     str_eqb (text_at ls #"divergedev.com/managed-by") #"diverge"
  then []
  else wake ns w.
Definition mapConfigMapToEnvironments (ns name : gostring) (ls : labels) (w : E) : list obj_key :=
  if str_eqb name #"kube-root-ca.crt" then []
  else if negb (str_eqb (text_at ls #"divergedev.com/manifests") #"true") &&
          (str_eqb (text_at ls #"divergedev.com/managed-by") #"diverge" ||
           negb (str_eqb (text_at ls #"divergedev.com/environment") []) ||
           HasPrefix name #"diverge-banner-" || HasPrefix name #"diverge-features-" || HasPrefix name #"diverge-dev-")
  then []
  else wake ns w.
End Drift.
