(* ===== verification/EnvQuota.v ===== *)
(** * Namespace quotas and hibernation: [internal/controller/environment_quota.go]

    A namespace's annotations bound its active environments, its database
    clusters and their hourly cost; an environment that does not fit is
    refused, or puts the least recently used others to sleep.  The lock of the
    namespace orders the runs of one process and has no other effect. *)

From S2P Require Import Prelude GoSort GoStrings GoCrypto GoTime GoFloat GoDuration TokenStore KubeApi AgentTask ResourceNames.
From S2P Require Import EnvTypes Conditions EarlyReturn ObjectApi Resources HookJobs EnvStatus EnvWorld.
Local Open Scope Z_scope.

Definition AnnotationMaxActiveEnvironments : gostring := #"divergedev.com/max-active-environments".
Definition AnnotationMaxCNPGClusters : gostring := #"divergedev.com/max-cnpg-clusters".
Definition AnnotationMaxHourlyCostUSD : gostring := #"divergedev.com/max-hourly-cost-usd".
Definition AnnotationQuotaExceedPolicy : gostring := #"divergedev.com/quota-exceed-policy".
Definition AnnotationQuotaLastAdmitted : gostring := #"divergedev.com/quota-last-admitted".
Definition QuotaPolicyHibernateOldest : gostring := #"hibernate-oldest".
Definition QuotaPolicyReject : gostring := #"reject".
Definition ConditionQuotaReady : gostring := #"QuotaReady".
Definition UnixNano (t : Time) : Z := wrap64 ((t_sec t - unixToInternal) * 10 ^ 9 + t_nsec t).

Section Pure.
Context {U : GoUnicode} {Q : QuantityOps}.
Definition cnpg_name (s : gostring) : bool :=
  let s := ToLower (TrimSpace s) in str_eqb s #"cnpg" || str_eqb s #"fresh" || str_eqb s #"snapshot".
Definition usesCNPGCluster (env : Environment) : bool :=
  cnpg_name (db_Mode (es_Database (ev_Spec env))) ||
  cnpg_name (text_at (ev_Annotations env) #"divergedev.com/database-provider") ||
  cnpg_name (et_DatabaseProvider (ev_Status env)).
Definition environmentLRUTimestamp (env : Environment) : Time :=
  let raw := TrimSpace (text_at (ev_Annotations env) AnnotationLastTrafficAt) in
  match (if str_eqb raw [] then None else ParseRFC3339 raw) with
  | Some t => t
  | None =>
      if negb (IsZero (ev_CreationTimestamp env)) then ev_CreationTimestamp env
      else match et_CreatedAt (ev_Status env) with Some t => if IsZero t then time_zero else t | None => time_zero end
  end.
(** A positive bound of an annotation; zero is none. *)
Definition max_count (ann : gmap gostring gostring) (key : gostring) : Z :=
  match Atoi (TrimSpace (text_at ann key)) with Some v => if 0 <? v then v else 0 | None => 0 end.
Definition max_cost (ann : gmap gostring gostring) : float64 :=
  match ParseFloat (TrimPrefix (TrimSpace (text_at ann AnnotationMaxHourlyCostUSD)) #"$") with
  | Some v => if f_gt v f_zero then v else f_zero
  | None => f_zero
  end.
(** Another environment of the namespace that counts. *)
Definition other_live (env item : Environment) : bool :=
  negb (str_eqb (ev_Name item) (ev_Name env)) && negb (bool_decide (is_Some (ev_DeletionTimestamp item))) &&
  negb (str_eqb (et_Phase (ev_Status item)) PhaseFailed || str_eqb (et_Phase (ev_Status item)) #"Expired" ||
        str_eqb (et_Phase (ev_Status item)) PhaseTerminating).
Definition other_active (env item : Environment) : bool := other_live env item && negb (hibernated item).
(** Least recently used first. *)
Definition lru_le (a b : Environment) : Prop :=
  let ta := environmentLRUTimestamp a in
  let tb := environmentLRUTimestamp b in
  Before ta tb = true \/ (ta = tb /\ str_le (ev_Name a) (ev_Name b)).
#[global] Instance lru_le_dec : RelDecision lru_le.
Proof. intros a b. unfold lru_le. apply _. Defined.
Definition sort_lru (l : list Environment) : list Environment := merge_sort lru_le l.

Definition cost_at (now : Time) (env : Environment) : float64 := HourlyUSD (EstimateEnvironmentCost env now DefaultCostRateCard).
Definition sum_cost (now : Time) (others : list Environment) : float64 :=
  fold_left (fun sum item => f_add sum (cost_at now item)) others f_zero.
(** The message of an exceeded quota. *)
Definition exceedsQuota (env : Environment) (now : Time) (maxActive : Z) (maxCost : float64) (others : list Environment) : option gostring :=
  let n := Z.of_nat (length others) + 1 in
  if (0 <? maxActive) && (maxActive <? n) then
    Some (#"namespace " ++ ev_Namespace env ++ #" quota exceeded: active environments " ++ FormatInt n ++ #" exceeds max-active-environments=" ++
          FormatInt maxActive)
  else if f_gt maxCost f_zero then
    let total := f_add (sum_cost now others) (cost_at now env) in
    if f_gt total (f_add maxCost (f_of_ratio false 1 (10 ^ 9))) then
      Some (#"namespace " ++ ev_Namespace env ++ #" quota exceeded: hourly cost $" ++ FormatFixed 3 total ++
            #"/hr exceeds max-hourly-cost-usd=$" ++ FormatFixed 3 maxCost ++ #"/hr")
    else None
  else None.
(** The environments to hibernate, or the message of the refusal. *)
Fixpoint choose_victims (exceeds : list Environment -> option gostring) (reject : bool) (active : list Environment)
    : result gostring (list Environment) :=
  match exceeds active with
  | None => Ok []
  | Some msg =>
      match reject, active with
      | false, victim :: rest => victims ← choose_victims exceeds reject rest; Ok (victim :: victims)
      | _, _ => Err msg
      end
  end.
Lemma choose_victims_in exceeds reject active victims : choose_victims exceeds reject active = Ok victims ->
  victims `prefix_of` active.
Proof.
  revert victims. induction active as [|a active IH]; intros victims; cbn; destruct (exceeds _), reject; try done;
    try (intros [= <-]; apply prefix_nil).
  destruct (choose_victims exceeds false active) as [vs|] eqn:Evs; cbn; [|done]. intros [= <-]. by apply prefix_cons, IH.
Qed.
End Pure.

Section Quota.
Context {U : GoUnicode} {O : ConditionOps} {Q : QuantityOps} {E N L P J S M A X : Type}.
Context {EA : ObjectApi Environment E} {NA : ObjectApi Namespace N} {LA : ObjectApi Guard L} {PA : ObjectApi Workload P}.
Context {JA : ObjectApi Job J} {SA : ObjectApi Secret S} {MA : ObjectApi ConfigMap M} {AA : ObjectApi AtlasCR A}.
Abbreviation W := (env_world E N L P J S M A X).
Abbreviation C := (run (outcome gostring) W).
Context (r : EnvironmentReconciler X) (clock : env_readings).

(** ** Hibernation *)
(** Each [Some] is the error that ends the function. *)
Fixpoint first_error {B : Type} (f : B -> C (option gostring)) (l : list B) : C (option gostring) :=
  match l with
  | [] => ret None
  | b :: l => let! x := f b in match x with Some e => ret (Some e) | None => first_error f l end
  end.
Definition to_zero (o : Workload) : Workload := o_set_Spec (wl_set_Replicas (Some 0) (o_Spec o)) o.
Definition scale_to_zero (what : gostring) (on_workloads : forall B, (P -> B * P) -> C B) (o : Workload) : C (option gostring) :=
  if bool_decide (wl_Replicas (o_Spec o) = Some 0) then ret None
  else
    let! x := on_workloads _ (obj_Patch (r_key o) to_zero) in
    match x with
    | Ok _ | Err NotFound => ret None
    | Err e => ret (Some (wrap r (#"failed to scale " ++ what ++ #" " ++ o_Namespace o ++ #"/" ++ o_Name o ++ #" to zero") e))
    end.
Definition scale_down (what : gostring) (on_workloads : forall B, (P -> B * P) -> C B) (name ns : gostring) : C (option gostring) :=
  let! l := on_workloads _ (obj_List {[ #"divergedev.com/environment" := name]} ns) in
  match l with
  | Err e =>
      if IsNotRegisteredError r e then ret None
      else ret (Some (wrap r (#"failed to list " ++ what ++ #"s for hibernation of " ++ name ++ #" in " ++ ns) e))
  | Ok items =>
      first_error (scale_to_zero what on_workloads) items
  end.
Definition hibernation_namespaces (env : Environment) : list gostring :=
  ev_Namespace env :: (if str_eqb (dep_Namespace (es_Deploy (ev_Spec env))) #"create" && negb (str_eqb (PreviewNamespace env) (ev_Namespace env))
                       then [PreviewNamespace env] else []).
(** The workloads of an environment in one namespace. *)
Definition scale_namespace (name ns : gostring) : C (option gostring) :=
  let! e := scale_down #"deployment" (fun B => on_deployments) name ns in
  match e with Some e => ret (Some e) | None => scale_down #"statefulset" (fun B => on_statefulsets) name ns end.
Definition mark_hibernated (env : Environment) : Environment := ev_set_Annotations (<[AnnotationHibernated := #"true"]> (ev_Annotations env)) env.
(** The environment with its annotation and version, or the error. *)
Definition hibernateEnvironment (target : Environment) : C (result gostring Environment) :=
  let! err := first_error (scale_namespace (ev_Name target)) (hibernation_namespaces target) in
  match err with
  | Some e => ret (Err e)
  | None =>
      let! x := on_envs (obj_Patch (r_key target) mark_hibernated) in
      ret match x with
          | Err e => Err (er_api_text r e)
          | Ok patched => Ok (ev_set_ResourceVersion (ev_ResourceVersion patched) (mark_hibernated target))
          end
  end.

(** ** Admission *)
(** The run ends with the refusal. *)
Definition refuse (base : Environment) (reason msg : gostring) : C unit :=
  do! set_condition ConditionQuotaReady ConditionFalse reason msg in
  do! set_status (fun st => et_set_Phase (derivePhase (et_Conditions st)) st) in
  do! record #"QuotaExceeded" in
  updateStatusWithRequeue r base None 0.
Definition claim_namespace (env : Environment) (ns : Namespace) : Namespace :=
  o_set_Annotations (<[AnnotationQuotaLastAdmitted := ev_Name env ++ #"@" ++ FormatInt (UnixNano (now_quota clock))]> (o_Annotations ns)) ns.
Definition admitted (env : Environment) : bool :=
  match FindStatusCondition (et_Conditions (ev_Status env)) ConditionQuotaReady with
  | Some c => str_eqb (cond_Status c) ConditionTrue && str_eqb (cond_Reason c) #"WithinQuota"
  | None => false
  end.
Fixpoint hibernate_all (victims : list Environment) : C (option gostring) :=
  match victims with
  | [] => ret None
  | victim :: victims =>
      let! x := hibernateEnvironment victim in
      match x with
      | Err e => ret (Some (#"failed to hibernate oldest environment " ++ ev_Name victim ++ #" for quota: " ++ e))
      | Ok _ => do! record #"QuotaPreempted" in do! record #"QuotaPreempted" in hibernate_all victims
      end
  end.
(** The quotas of the namespace: nothing when there are none, a refusal that
    ends the run, or an error. *)
Definition reconcileNamespaceQuota (base : Environment) : C (option gostring) :=
  let! env := current in
  let! got := on_namespaces (obj_Get ([], ev_Namespace env)) in
  match got with
  | Err (NotFound | Forbidden) => ret None
  | Err e => ret (Some (wrap r (#"failed to get namespace " ++ ev_Namespace env ++ #" for quota check") e))
  | Ok ns =>
      let maxActive := max_count (o_Annotations ns) AnnotationMaxActiveEnvironments in
      let maxCNPG := max_count (o_Annotations ns) AnnotationMaxCNPGClusters in
      let maxCost := max_cost (o_Annotations ns) in
      if (maxActive <=? 0) && (maxCNPG <=? 0) && f_le maxCost f_zero then ret None
      else if hibernated env then
        do! set_condition ConditionQuotaReady ConditionTrue #"Hibernated" #"Environment is hibernated" in ret None
      else
        let reject := str_eqb (ToLower (TrimSpace (text_at (o_Annotations ns) AnnotationQuotaExceedPolicy))) QuotaPolicyReject in
        let! l := on_envs (obj_List ∅ (ev_Namespace env)) in
        match l with
        | Err e => ret (Some (wrap r (#"failed to list environments in namespace " ++ ev_Namespace env) e))
        | Ok items =>
            let clusters := length (filter (fun item => other_live env item && usesCNPGCluster item = true) items) in
            do! when ((0 <? maxCNPG) && usesCNPGCluster env && (maxCNPG <? Z.of_nat clusters + 1))
              (refuse base #"MaxCNPGClustersExceeded"
                 (#"namespace " ++ ev_Namespace env ++ #" quota exceeded: max-cnpg-clusters=" ++ FormatInt maxCNPG)) in
            let active := sort_lru (filter (fun item => other_active env item = true) items) in
            match choose_victims (exceedsQuota env (now_quota clock) maxActive maxCost) reject active with
            | Err msg => do! refuse base #"NamespaceQuotaExceeded" msg in ret None
            | Ok victims =>
                let! claimed := (if negb (admitted env) || negb (bool_decide (victims = [])) then
                    let! u := on_namespaces (obj_Update (claim_namespace env ns)) in
                    ret match u with
                        | Ok _ | Err Forbidden => None
                        | Err e => Some (wrap r (#"failed to record namespace quota admission claim for " ++ ev_Name env) e)
                        end
                  else ret None) in
                match claimed with
                | Some e => ret (Some e)
                | None =>
                    let! failed := hibernate_all victims in
                    match failed with
                    | Some e => ret (Some e)
                    | None =>
                        do! set_condition ConditionQuotaReady ConditionTrue #"WithinQuota" #"Namespace FinOps and concurrency quotas satisfied" in
                        ret None
                    end
                end
            end
        end
  end.
End Quota.

(** * What quotas and hibernation guarantee

    Which environments make room for one that asks to be admitted, that they
    sleep when it is, and that the namespace keeps its bound. *)

(** ** The victims *)
#[global] Instance Before_trans : Transitive (fun t u => Before t u = true).
Proof. intros t u s. unfold Before. rewrite !orb_true_iff, !andb_true_iff, !Z.ltb_lt, !Z.eqb_eq. lia. Qed.
Lemma Before_total t u : Before t u = true \/ t = u \/ Before u t = true.
Proof.
  destruct t as [s n], u as [s' n']. unfold Before. cbn. rewrite !orb_true_iff, !andb_true_iff, !Z.ltb_lt, !Z.eqb_eq.
  destruct (decide (s = s')) as [<-|]; [|lia]. destruct (decide (n = n')) as [<-|]; [by right; left|lia].
Qed.
#[global] Instance lru_le_trans : Transitive lru_le.
Proof.
  intros a b c. unfold lru_le. cbv zeta. intros [H1|[E1 H1]] [H2|[E2 H2]].
  - left. by eapply Before_trans.
  - left. by rewrite <- E2.
  - left. by rewrite E1.
  - right. split; [congruence|by etrans].
Qed.
#[global] Instance lru_le_total : Total lru_le.
Proof.
  intros a b. unfold lru_le. cbv zeta. destruct (Before_total (environmentLRUTimestamp a) (environmentLRUTimestamp b)) as [H|[H|H]]; [auto| |auto].
  destruct (str_le_total (ev_Name a) (ev_Name b)); [left; right|right; right]; auto.
Qed.
Lemma sort_lru_sorted l : StronglySorted lru_le (sort_lru l).
Proof. apply Sorted_StronglySorted; [apply _|]. apply Sorted_merge_sort, _. Qed.
Lemma StronglySorted_app_le {B} (R : B -> B -> Prop) l l' x y : StronglySorted R (l ++ l') -> x ∈ l -> y ∈ l' -> R x y.
Proof.
  induction l as [|a l IH]; intros Hs Hx Hy; [by apply not_elem_of_nil in Hx|]. inversion Hs as [|? ? Hs' Hall]; subst.
  apply elem_of_cons in Hx as [->|Hx]; [|by apply IH]. rewrite Forall_forall in Hall. apply Hall, elem_of_app. by right.
Qed.

Section Victims.
Context {U : GoUnicode} {Q : QuantityOps}.
Lemma choose_victims_rest exceeds reject active :
  match choose_victims exceeds reject active with
  | Ok victims => exists rest, active = victims ++ rest /\ exceeds rest = None /\
      forall n, (n < length victims)%nat -> is_Some (exceeds (drop n active))
  | Err _ => if reject : bool then is_Some (exceeds active) else forall n, is_Some (exceeds (drop n active))
  end.
Proof.
  induction active as [|a active IH]; cbn [choose_victims]; [destruct (exceeds []) as [msg|] eqn:Ex|destruct (exceeds (a :: active)) as [msg|] eqn:Ex].
  - destruct reject; cbn; [by eexists|]. intros n. rewrite drop_nil, Ex. by eexists.
  - exists []. split_and!; [done..|]. cbn. lia.
  - destruct reject; cbn; [by eexists|]. destruct (choose_victims exceeds false active) as [victims|e]; cbn.
    + destruct IH as (rest & -> & Hr & Hn). exists rest. split_and!; [done..|]. intros [|n] Hlt; [cbn; rewrite ?Ex; by eexists|].
      apply Hn. cbn in Hlt. lia.
    + intros [|n]; [cbn; rewrite ?Ex; by eexists|]. apply IH.
  - exists (a :: active). split_and!; [done..|]. cbn. lia.
Qed.
(** when the quota hibernates, the victims are the least recently used of
    the active environments, none of them could have been spared and the rest
    fits; and a newcomer is refused only when no number of victims is enough. *)
Theorem least_recently_used_make_room env now maxActive maxCost others :
  let exceeds := exceedsQuota env now maxActive maxCost in
  match choose_victims exceeds false (sort_lru others) with
  | Ok victims => exists rest, victims ++ rest ≡ₚ others /\ exceeds rest = None /\
      (forall victim spared, victim ∈ victims -> spared ∈ rest -> lru_le victim spared) /\
      (forall n, (n < length victims)%nat -> is_Some (exceeds (drop n victims ++ rest)))
  | Err _ => forall n, is_Some (exceeds (drop n (sort_lru others)))
  end.
Proof.
  intros exceeds. pose proof (choose_victims_rest exceeds false (sort_lru others)) as H.
  destruct (choose_victims _ _ _) as [victims|e]; [|done]. destruct H as (rest & Hs & Hr & Hn). exists rest. split_and!.
  - rewrite <- Hs. apply merge_sort_Permutation.
  - done.
  - intros x y. apply (StronglySorted_app_le _ victims rest). rewrite <- Hs. apply sort_lru_sorted.
  - intros n Hlt. specialize (Hn n Hlt). rewrite Hs, drop_app_le in Hn by lia. done.
Qed.
Lemma exceedsQuota_active env now maxActive maxCost others : exceedsQuota env now maxActive maxCost others = None -> 0 < maxActive ->
  Z.of_nat (length others) + 1 <= maxActive.
Proof. unfold exceedsQuota. cbv zeta. destruct (_ && _) eqn:E; [done|]. intros _ Hm. bool_simpl. lia. Qed.
End Victims.

(** ** Hibernation *)
Section Hibernation.
Context {U : GoUnicode} {O : ConditionOps} {Q : QuantityOps} {E N L P J S M A X : Type}.
Context {EA : ObjectApi Environment E} {NA : ObjectApi Namespace N} {LA : ObjectApi Guard L} {PA : ObjectApi Workload P}.
Context {JA : ObjectApi Job J} {SA : ObjectApi Secret S} {MA : ObjectApi ConfigMap M} {AA : ObjectApi AtlasCR A}.
Context {EL : ObjectApiLaws Environment E} {PL : ObjectApiLaws Workload P}.
Abbreviation W := (env_world E N L P J S M A X).
Abbreviation C := (run (outcome gostring) W).
Context (r : EnvironmentReconciler X) (clock : env_readings).

(** Calls on one of the stores of workloads. *)
Definition store_at (get : W -> P) (on_workloads : forall B, (P -> B * P) -> C B) : Prop :=
  forall B (f : P -> B * P) w, exists w', on_workloads B f w = (inr (fst (f (get w))), w') /\ get w' = snd (f (get w)).
Lemma deployments_at : store_at ew_deployments (fun B => on_deployments).
Proof. intros B f w. unfold on_deployments, on. destruct (f (ew_deployments w)) as [b p]. by eexists. Qed.
Lemma statefulsets_at : store_at ew_statefulsets (fun B => on_statefulsets).
Proof. intros B f w. unfold on_statefulsets, on. destruct (f (ew_statefulsets w)) as [b p]. by eexists. Qed.

Definition at_zero (o : Workload) : Prop := wl_Replicas (o_Spec o) = Some 0.
(** What [p'] has that is not at zero is what [p] had. *)
Definition calmer (p p' : P) : Prop := forall k o, stored p' !! k = Some o -> stored p !! k = Some o \/ at_zero o.
Lemma calmer_refl p : calmer p p.
Proof. intros k o. auto. Qed.
Lemma calmer_trans p p' p'' : calmer p p' -> calmer p' p'' -> calmer p p''.
Proof. intros H1 H2 k o Ho. destruct (H2 k o Ho) as [H|H]; [by apply H1|by right]. Qed.
Definition asleep (name ns : gostring) (p : P) : Prop := forall k o, stored p !! k = Some o ->
  selected {[ #"divergedev.com/environment" := name]} ns o -> at_zero o.
Lemma asleep_calmer name ns p p' : asleep name ns p -> calmer p p' -> asleep name ns p'.
Proof. intros Ha Hc k o Ho Hs. destruct (Hc k o Ho) as [H|H]; [by apply (Ha k)|done]. Qed.

Lemma scaled_item get on_workloads what (o : Workload) w p0 : store_at get on_workloads -> calmer p0 (get w) -> stored p0 !! r_key o = Some o ->
  match scale_to_zero r what on_workloads o w with
  | (inr None, w') => calmer (get w) (get w') /\ forall o', stored (get w') !! r_key o = Some o' -> at_zero o'
  | (inr (Some _), _) => True
  | (inl _, _) => False
  end.
Proof using PL.
  intros Hst Hc Ho. unfold scale_to_zero. case_bool_decide as Hz.
  { split; [apply calmer_refl|]. intros o' Ho'. destruct (Hc _ _ Ho') as [H|H]; [|done]. rewrite Ho in H. by injection H as <-. }
  unfold bind. destruct (Hst _ (obj_Patch (r_key o) to_zero) w) as (w' & -> & Hw').
  destruct (obj_Patch (r_key o) to_zero (get w)) as [x p'] eqn:Ep. cbn [fst snd] in *. subst p'. destruct x as [o1|e].
  - apply obj_Patch_Ok in Ep as (cur & v & Hcur & -> & Hs); [|done]. cbn. rewrite Hs. split.
    + intros k o'. rewrite Hs, lookup_insert. case_decide; [intros [= <-]; by right|]. by left.
    + intros o'. rewrite lookup_insert_eq. by intros [= <-].
  - destruct e; cbn; try done. pose proof (obj_Patch_Err _ _ _ _ _ Ep) as Hs. pose proof (obj_Patch_NotFound _ _ _ _ Ep) as Hn.
    split; [intros k o'; rewrite Hs; by left|]. intros o' Ho'. rewrite Hs in Ho'. by pose proof (eq_trans (eq_sym Hn) Ho').
Qed.
Lemma scaled_items get on_workloads what items w p0 : store_at get on_workloads -> calmer p0 (get w) ->
  (forall o : Workload, o ∈ items -> stored p0 !! r_key o = Some o) ->
  match first_error (scale_to_zero r what on_workloads) items w with
  | (inr None, w') => calmer (get w) (get w') /\ forall o o', o ∈ items -> stored (get w') !! r_key o = Some o' -> at_zero o'
  | (inr (Some _), _) => True
  | (inl _, _) => False
  end.
Proof using PL.
  intros Hst. revert w. induction items as [|o items IH]; intros w Hc Hi; cbn [first_error].
  { split; [apply calmer_refl|]. by intros o o' ?%not_elem_of_nil. }
  pose proof (scaled_item get on_workloads what o w p0 Hst Hc (Hi o (list_elem_of_here _ _))) as Ho.
  unfold bind at 1. destruct (scale_to_zero _ _ _ _ w) as [[?|[e|]] w1]; [done..|]. destruct Ho as [Hc1 Hz].
  assert (calmer p0 (get w1)) as Hc0 by (by eapply calmer_trans). specialize (IH w1 Hc0 ltac:(intros; apply Hi; by right)).
  destruct (first_error _ items w1) as [[?|[e|]] w2]; [done..|]. destruct IH as [Hc2 Hz2].
  split; [by eapply calmer_trans|]. intros o1 o' [->|Hin]%elem_of_cons Ho'; [|by eapply Hz2].
  destruct (Hc2 _ _ Ho') as [H|H]; [by apply Hz|done].
Qed.
(** One kind of workload in one namespace. *)
Lemma scaled_down get on_workloads what name ns w : store_at get on_workloads -> (forall e, IsNotRegisteredError r e = false) ->
  match scale_down r what on_workloads name ns w with
  | (inr None, w') => calmer (get w) (get w') /\ asleep name ns (get w')
  | (inr (Some _), _) => True
  | (inl _, _) => False
  end.
Proof using PL.
  intros Hst Hreg. unfold scale_down, bind at 1.
  destruct (Hst _ (obj_List {[ #"divergedev.com/environment" := name]} ns) w) as (w1 & -> & Hw1). rewrite obj_List_pure in Hw1.
  destruct (fst (obj_List _ ns (get w))) as [items|e] eqn:El; [|by rewrite Hreg].
  pose proof (scaled_items get on_workloads what
    items w1 (get w) Hst ltac:(rewrite Hw1; apply calmer_refl)) as H.
  specialize (H ltac:(intros o Ho; by apply (obj_List_Ok _ _ _ _ El) in Ho as [? _])).
  destruct (first_error _ items w1) as [[?|[e|]] w2]; [done..|]. rewrite Hw1 in H. destruct H as [Hc Hz]. split; [done|].
  intros k o Ho Hs. destruct (Hc k o Ho) as [H|H]; [|done]. pose proof (stored_key _ _ _ H) as Hk. rewrite <- Hk in Ho, H.
  eapply Hz; [|exact Ho]. apply (obj_List_Ok _ _ _ _ El). auto.
Qed.
Lemma first_error_leaves {B Y} (f : W -> Y) (g : B -> C (option gostring)) l : (forall b, leaves_of f (g b)) -> leaves_of f (first_error g l).
Proof. intros Hg. induction l as [|b l IH]; cbn [first_error]; auto with leaves. Qed.
Lemma scale_leaves {Y} (f : W -> Y) what on_workloads name ns : (forall B g, leaves_of f (on_workloads B g)) ->
  leaves_of f (scale_down r what on_workloads name ns).
Proof.
  intros H. unfold scale_down. apply leaves_of_bind; [apply H|]. intros [items|e]; [|auto with leaves]. apply first_error_leaves.
  intros o. unfold scale_to_zero. auto with leaves.
Qed.
Lemma deployments_leave {Y} (f : W -> Y) : (forall B (g : P -> B * P) w, f (snd (on_deployments g w : _ * W)) = f w) ->
  forall name ns, leaves_of f (scale_down r #"deployment" (fun B => on_deployments) name ns).
Proof. intros H name ns. apply scale_leaves. intros B g w. apply H. Qed.
Lemma statefulsets_leave {Y} (f : W -> Y) : (forall B (g : P -> B * P) w, f (snd (on_statefulsets g w : _ * W)) = f w) ->
  forall name ns, leaves_of f (scale_down r #"statefulset" (fun B => on_statefulsets) name ns).
Proof. intros H name ns. apply scale_leaves. intros B g w. apply H. Qed.
Ltac frame := intros ? g0 ?; unfold on_deployments, on_statefulsets, on; cbv beta; match goal with |- context [g0 ?x] => by destruct (g0 x) end.

Definition quiet_in (name ns : gostring) (w : W) : Prop := asleep name ns (ew_deployments w) /\ asleep name ns (ew_statefulsets w).
Definition calmed (w w' : W) : Prop := calmer (ew_deployments w) (ew_deployments w') /\ calmer (ew_statefulsets w) (ew_statefulsets w').
Lemma quiet_calmed name ns w w' : quiet_in name ns w -> calmed w w' -> quiet_in name ns w'.
Proof. intros [H1 H2] [C1 C2]. split; [apply (asleep_calmer _ _ _ _ H1 C1)|apply (asleep_calmer _ _ _ _ H2 C2)]. Qed.
Lemma scaled_namespace name ns w : (forall e, IsNotRegisteredError r e = false) ->
  match scale_namespace r name ns w with
  | (inr None, w') => calmed w w' /\ quiet_in name ns w'
  | (inr (Some _), _) => True
  | (inl _, _) => False
  end.
Proof using PL.
  intros Hreg. unfold scale_namespace, bind.
  pose proof (scaled_down ew_deployments (fun B => on_deployments) #"deployment" name ns w deployments_at Hreg) as H1.
  pose proof (deployments_leave ew_statefulsets ltac:(frame) name ns w) as L1.
  destruct (scale_down _ _ _ _ _ w) as [[?|[e|]] w1]; [done..|]. cbn in L1. destruct H1 as [C1 A1].
  pose proof (scaled_down ew_statefulsets (fun B => on_statefulsets) #"statefulset" name ns w1 statefulsets_at Hreg) as H2.
  pose proof (statefulsets_leave ew_deployments ltac:(frame) name ns w1) as L2.
  destruct (scale_down _ _ _ _ _ w1) as [[?|[e|]] w2]; [done..|]. cbn in L2. destruct H2 as [C2 A2].
  unfold calmed, quiet_in. rewrite L2. rewrite L1 in C2. done.
Qed.
Lemma scaled_namespaces name l w : (forall e, IsNotRegisteredError r e = false) ->
  match first_error (scale_namespace r name) l w with
  | (inr None, w') => calmed w w' /\ forall ns, ns ∈ l -> quiet_in name ns w'
  | (inr (Some _), _) => True
  | (inl _, _) => False
  end.
Proof using PL.
  intros Hreg. revert w. induction l as [|ns l IH]; intros w; cbn [first_error].
  { split; [split; apply calmer_refl|]. by intros ns ?%not_elem_of_nil. }
  pose proof (scaled_namespace name ns w Hreg) as H1. unfold bind. destruct (scale_namespace r name ns w) as [[?|[e|]] w1]; [done..|].
  specialize (IH w1). destruct (first_error _ l w1) as [[?|[e|]] w2]; [done..|]. destruct H1 as [[C1 C1'] A1], IH as [C2 A2].
  split; [by split; [eapply calmer_trans; [exact C1|apply C2]|eapply calmer_trans; [exact C1'|apply C2]]|]. intros ns' [->|Hn]%elem_of_cons; [by eapply quiet_calmed|by apply A2].
Qed.
Lemma scale_namespace_envs name ns : leaves_of (ew_envs : W -> E) (scale_namespace r name ns).
Proof.
  unfold scale_namespace. apply leaves_of_bind; [apply deployments_leave; frame|]. intros [e|]; [auto with leaves|].
  apply statefulsets_leave; frame.
Qed.
Lemma mark_hibernated_hibernated env v : hibernated (with_version v (mark_hibernated env)) = true.
Proof. unfold hibernated. cbn. unfold text_at. rewrite lookup_insert_eq. by vm_compute. Qed.
(** What hibernation does to the stored environments. *)
Definition put_to_sleep (keys : list obj_key) (e e' : E) : Prop := forall k,
  stored e' !! k = stored e !! k \/ (k ∈ keys /\ exists env, stored e' !! k = Some env /\ hibernated env = true).
Lemma hibernate_env target (w : W) :
  match hibernateEnvironment r target w with
  | (inr x, w') => put_to_sleep [r_key target] (ew_envs w) (ew_envs w') /\
      forall env', x = Ok env' -> exists env, stored (ew_envs w') !! r_key target = Some env /\ hibernated env = true
  | (inl _, w') => True
  end.
Proof using EL.
  unfold hibernateEnvironment, bind at 1.
  pose proof (first_error_leaves ew_envs (scale_namespace r (ev_Name target)) (hibernation_namespaces target) (scale_namespace_envs _) w) as Hl.
  destruct (first_error _ _ w) as [[?|[e|]] w1]; [done| |]; cbn [snd] in Hl.
  { split; [|done]. intros k. left. by rewrite Hl. }
  rewrite <- Hl. unfold bind, on_envs, on. destruct (obj_Patch (r_key target) mark_hibernated (ew_envs w1)) as [[patched|e] x] eqn:Ep.
  - apply obj_Patch_Ok in Ep as (cur & v & Hc & -> & Hs); [|done]. cbn [ret ew_envs]. unfold put_to_sleep. rewrite Hs. split.
    + intros k. rewrite lookup_insert. case_decide as Hk; [right|by left]. subst k. split; [by left|]. eexists. split; [done|].
      apply mark_hibernated_hibernated.
    + intros env' _. eexists. rewrite lookup_insert_eq. split; [done|]. apply mark_hibernated_hibernated.
  - apply obj_Patch_Err in Ep. cbn. split; [|done]. intros k. left. by rewrite Ep.
Qed.
(** an environment that was put to sleep is marked, and every Deployment
    and StatefulSet with its label in its namespaces, the preview's included,
    is scaled to zero. *)
Theorem hibernated_at_zero target env (w w' : W) : (forall e, IsNotRegisteredError r e = false) ->
  hibernateEnvironment r target w = (inr (Ok env), w') ->
  (forall ns, ns ∈ hibernation_namespaces target -> quiet_in (ev_Name target) ns w') /\
  exists marked, stored (ew_envs w') !! r_key target = Some marked /\ hibernated marked = true.
Proof using EL PL.
  intros Hreg Hw. pose proof (hibernate_env target w) as He. rewrite Hw in He. destruct He as [_ He]. specialize (He env eq_refl).
  split; [|done]. clear He. unfold hibernateEnvironment, bind at 1 in Hw.
  pose proof (scaled_namespaces (ev_Name target) (hibernation_namespaces target) w Hreg) as H.
  destruct (first_error _ _ w) as [[?|[e|]] w1]; [done|by cbn in Hw|]. destruct H as [_ H]. intros ns Hn. specialize (H ns Hn).
  unfold bind, on_envs, on in Hw. destruct (obj_Patch _ _ _) as [[p|e] x]; cbn in Hw; [|done]. injection Hw as _ <-. exact H.
Qed.

(** ** Admission *)
Lemma put_to_sleep_same keys e : put_to_sleep keys e e.
Proof. intros k. by left. Qed.
Lemma put_to_sleep_trans keys e e' e'' : put_to_sleep keys e e' -> put_to_sleep keys e' e'' -> put_to_sleep keys e e''.
Proof. intros H1 H2 k. destruct (H2 k) as [->|H]; [apply H1|by right]. Qed.
Lemma put_to_sleep_sub keys keys' e e' : keys ⊆ keys' -> put_to_sleep keys e e' -> put_to_sleep keys' e e'.
Proof. intros Hk H k. destruct (H k) as [?|[? ?]]; [by left|right]. split; [by apply Hk|done]. Qed.
Definition sleeps (e : E) (k : obj_key) : Prop := exists env, stored e !! k = Some env /\ hibernated env = true.
Lemma sleeps_on keys e e' k : sleeps e k -> put_to_sleep keys e e' -> sleeps e' k.
Proof. intros Hs Hp. destruct (Hp k) as [Heq|[_ H]]; [|done]. unfold sleeps. by rewrite Heq. Qed.
Lemma hibernated_victims victims (w w' : W) : hibernate_all r victims w = (inr None, w') ->
  put_to_sleep (map r_key victims) (ew_envs w) (ew_envs w') /\ forall victim, victim ∈ victims -> sleeps (ew_envs w') (r_key victim).
Proof using EL.
  revert w. induction victims as [|v victims IH]; intros w; cbn [hibernate_all].
  { intros [= <-]. split; [apply put_to_sleep_same|]. by intros v ?%not_elem_of_nil. }
  intros (x & w1 & Hv & Hw)%bind_gives. pose proof (hibernate_env v w) as Hs. rewrite Hv in Hs. destruct Hs as [Hp Hs].
  destruct x as [env|e]; [|done]. specialize (Hs env eq_refl).
  apply bind_gives in Hw as ([] & w2 & [= <-] & Hw). apply bind_gives in Hw as ([] & w3 & [= <-] & Hw).
  apply IH in Hw as [Hp2 Hs2]. cbn in Hp2. split.
  - eapply put_to_sleep_trans; [eapply put_to_sleep_sub, Hp|eapply put_to_sleep_sub, Hp2]; intros k; cbn; rewrite !elem_of_cons.
    + intros [->|?%not_elem_of_nil]; [by left|done].
    + by right.
  - intros victim [->|Hin]%elem_of_cons; [|by apply Hs2]. eapply sleeps_on; [exact Hs|exact Hp2].
Qed.
Lemma status_ends {B} base err d (b : B) (w w' : W) : updateStatusWithRequeue r base err d w = (inr b, w') -> False.
Proof.
  unfold updateStatusWithRequeue. intros (env & w1 & _ & H)%bind_gives. apply bind_gives in H as (x & w2 & _ & H).
  destruct x; [|done]. apply bind_gives in H as ([] & w3 & _ & H). destruct err; [done|]. by destruct (0 <? d).
Qed.
Lemma refuse_ends base reason msg b (w w' : W) : refuse r base reason msg w = (inr b, w') -> False.
Proof. unfold refuse. intros ([] & w1 & _ & H)%bind_gives. do 2 (apply bind_gives in H as ([] & ? & _ & H)). by apply status_ends in H. Qed.

(** The keys of the environments that satisfy a test are those of a list. *)
Lemma count_stored (f : Environment -> bool) ns (e : E) (l : list Environment) :
  (forall k env, stored e !! k = Some env -> fst k = ns -> f env = true -> k ∈ map r_key l) ->
  (size (filter (fun kv => fst kv.1 = ns /\ f kv.2 = true) (stored e)) <= length l)%nat.
Proof.
  intros H. rewrite <- (length_map r_key l), <- length_map_to_list, <- (length_map fst). apply submseteq_length, NoDup_submseteq.
  - apply NoDup_fst_map_to_list.
  - intros k ([k' env] & -> & [Hs [Hk Hf]]%elem_of_map_to_list%map_lookup_filter_Some)%list_elem_of_fmap. by eapply H.
Qed.
Lemma on_namespaces_envs {B} (f : N -> B * N) : leaves_of (ew_envs : W -> E) (on_namespaces f).
Proof. apply leaves_of_on. intros w. by destruct (f _). Qed.

(** Environments of a namespace, the given one apart, that count. *)
Definition others_in (ns : gostring) (f : Environment -> bool) (e : E) : Z :=
  Z.of_nat (size (filter (fun kv : obj_key * Environment => fst kv.1 = ns /\ f kv.2 = true) (stored e))).
Lemma others_at_most ns (f : Environment -> bool) (e : E) (l : list Environment) :
  (forall k env, stored e !! k = Some env -> fst k = ns -> f env = true -> k ∈ map r_key l) ->
  others_in ns f e <= Z.of_nat (length l).
Proof. intros H%count_stored. unfold others_in. lia. Qed.
(** After room was made, what is active is among those that were spared. *)
Lemma room_made env items victims rest (w w' : W) :
  (forall k item, stored (ew_envs w) !! k = Some item -> fst k = ev_Namespace env -> item ∈ items /\ r_key item = k) ->
  sort_lru (filter (fun item => other_active env item = true) items) = victims ++ rest ->
  hibernate_all r victims w = (inr None, w') ->
  others_in (ev_Namespace env) (other_active env) (ew_envs w') <= Z.of_nat (length rest).
Proof using EL.
  intros Hin Hrest [Hp Hs]%hibernated_victims. apply others_at_most. intros k env' Hk Hf Ha.
  assert (hibernated env' = false) as Hnot by (unfold other_active in Ha; bool_simpl; done).
  destruct (Hp k) as [Hsame|[_ (env1 & Hk1 & Hh1)]]; [|congruence]. rewrite Hk in Hsame. symmetry in Hsame. destruct (Hin _ _ Hsame Hf) as [Hit <-].
  assert (env' ∈ victims ++ rest) as Hact by (rewrite <- Hrest; unfold sort_lru; rewrite merge_sort_Permutation; by apply list_elem_of_filter).
  apply elem_of_app in Hact as [Hv|Hr]; [|by apply list_elem_of_fmap_2]. destruct (Hs _ Hv) as (env1 & Hk1 & Hh1). congruence.
Qed.
Lemma claim_envs (b : bool) env ns (w w' : W) x :
  (if b then let! u := on_namespaces (obj_Update (claim_namespace clock env ns)) in
             ret match u with Ok _ | Err Forbidden => None | Err e => Some (wrap r (#"failed to record namespace quota admission claim for " ++ ev_Name env) e) end
   else ret None) w = (inr x, w') -> ew_envs w' = ew_envs w.
Proof.
  destruct b; [|by intros [= _ <-]]. intros (u & w7 & Hu & [= _ <-])%bind_gives. pose proof (on_namespaces_envs (obj_Update (claim_namespace clock env ns)) w) as H.
  by rewrite Hu in H.
Qed.
(** What the code reads: the namespace and the environments. *)
Lemma namespace_read k (w w1 : W) got ns : on_namespaces (obj_Get k) w = (inr got, w1) -> fst (obj_Get k (ew_namespaces w)) = Ok ns ->
  got = Ok ns /\ ew_envs w1 = ew_envs w.
Proof.
  intros Hg Hgot. pose proof (on_namespaces_envs (obj_Get k) w) as Hl. rewrite Hg in Hl. split; [|done]. unfold on_namespaces in Hg. apply on_gives in Hg.
  destruct (obj_Get k (ew_namespaces w)) as [x n]. cbn in Hgot. subst x. by injection Hg as <- _.
Qed.
Lemma environments_read ns (w w1 : W) items : on_envs (obj_List ∅ ns) w = (inr (Ok items), w1) -> ew_envs w1 = ew_envs w /\
  forall k item, stored (ew_envs w) !! k = Some item -> fst k = ns -> item ∈ items /\ r_key item = k.
Proof.
  intros Hl. unfold on_envs in Hl. apply on_gives in Hl. pose proof (obj_List_Ok (Ob := Environment) ∅ ns (ew_envs w)) as Hitems.
  pose proof (obj_List_pure (Ob := Environment) ∅ ns (ew_envs w)) as Hpure. destruct (obj_List ∅ ns (ew_envs w)) as [x e]. cbn [fst snd] in *.
  subst e. injection Hl as -> <-. split; [done|]. intros k item Hk Hf. pose proof (stored_key _ _ _ Hk) as <-. split; [|done].
  apply (Hitems items eq_refl). split; [done|]. split; [apply map_empty_subseteq|by right].
Qed.
End Hibernation.
