(* ===== verification/EnvProvision.v ===== *)
(** * Provisioning of environments:
    [internal/controller/environment_provisioner.go], [environment_namespace.go]
    and the runners of [setup_sql_interface.go]

    The steps of a run up to the deployment: references to Secrets, the
    namespace and its guards, quotas, the database with its setup, its Secret
    and its migrations, routes, asynchronous routes, the banner and features.
    The goroutines of the asynchronous routes call their providers in any
    order, one at a time: [schedule].  [banner_script] is the embedded file. *)

From S2P Require Import Prelude GoSort GoStrings GoCrypto GoTime GoQuote GoJSON TokenStore KubeApi AgentTask ResourceNames.
From S2P Require Import EnvTypes Conditions EarlyReturn ObjectApi Resources HookJobs EnvStatus EnvWorld EnvDrift EnvQuota.
Local Open Scope Z_scope.

(** [strings.ReplaceAll], for a text that is not empty: [skip] bytes belong to
    the occurrence replaced last. *)
Fixpoint replace_from (old new : gostring) (skip : nat) (s : gostring) : gostring :=
  match s with
  | [] => []
  | c :: s' =>
      match skip with
      | S k => replace_from old new k s'
      | O => if HasPrefix s old then new ++ replace_from old new (length old - 1) s' else c :: replace_from old new 0 s'
      end
  end.
Definition ReplaceAll (s old new : gostring) : gostring := replace_from old new 0 s.

(** ** Names and objects *)
Definition managed_labels (env : Environment) : labels :=
  <[ #"divergedev.com/managed-by" := #"diverge"]> {[ #"divergedev.com/environment" := ev_Name env]}.
Definition own_prefix : gostring := #"divergedev.com/".
(** User labels that are not the program's, under the program's. *)
Definition namespace_labels (env : Environment) : labels :=
  let user := filter (fun kv => HasPrefix kv.1 own_prefix = false) (dep_NamespaceLabels (es_Deploy (ev_Spec env))) in
  let ls := managed_labels env ∪ user in
  let ls := fold_right (fun mode (ls : labels) =>
    <[ #"pod-security.kubernetes.io/" ++ mode := #"restricted"]> (<[ #"pod-security.kubernetes.io/" ++ mode ++ #"-version" := #"latest"]> ls))
    ls [ #"enforce"; #"warn"; #"audit"] in
  let ls := if str_eqb (text_at (ev_Annotations env) #"divergedev.com/ambient-mesh") #"true"
            then <[ #"istio.io/dataplane-mode" := #"ambient"]> ls else ls in
  let wp := TrimSpace (text_at (ev_Annotations env) #"divergedev.com/waypoint") in
  if str_eqb wp [] then ls else <[ #"istio.io/use-waypoint" := wp]> ls.
Definition guard (ns name : gostring) (spec : GuardSpec) : Guard :=
  new_object ns name {[ #"divergedev.com/managed-by" := #"diverge"]} [] spec.
Definition limit_range (ns : gostring) : Guard :=
  guard ns #"diverge-default-limits" (LimitRange [(#"memory", #"256Mi"); (#"cpu", #"250m")] [(#"memory", #"128Mi"); (#"cpu", #"100m")]).
Definition resource_quota (ns : gostring) : Guard :=
  guard ns #"diverge-preview-quota" (ResourceQuota [(#"pods", #"5"); (#"requests.memory", #"1Gi"); (#"requests.cpu", #"1");
                                                    (#"limits.memory", #"2Gi"); (#"limits.cpu", #"2")]).
Definition network_policy (ns : gostring) : Guard :=
  guard ns #"diverge-default-netpol" (NetworkPolicy [ #"Egress"] [(#"0.0.0.0/0", [ #"169.254.169.254/32"]); (#"::/0", [ #"fd00:ec2::254/128"])]).
Definition banner_name (env : Environment) : gostring := take 253 (#"diverge-banner-" ++ ev_Name env).
Definition db_secret_name {U : GoUnicode} (env : Environment) : gostring :=
  sanitizeK8sName (#"diverge-db-env-" ++ ev_Name env) (ev_Name env) 63.
Definition or_default (s dflt : gostring) : gostring := if str_eqb s [] then dflt else s.
(** The JSON object of a map, by key. *)
Definition banner_config {U : GoUnicode} (env : Environment) (spec : BannerSpec) : gostring :=
  #"{" ++ encode_string #"branch" ++ #":" ++ encode_string (src_Branch (es_Source (ev_Spec env))) ++ #"," ++
  encode_string #"color" ++ #":" ++ encode_string (or_default (bn_Color spec) #"#FF6B00") ++ #"," ++
  encode_string #"position" ++ #":" ++ encode_string (or_default (bn_Position spec) #"top") ++ #"," ++
  encode_string #"text" ++ #":" ++ encode_string (or_default (bn_Text spec) #"Preview Environment") ++ #"}".

(** ** Resolution of providers *)
Definition isKeyPrefixAsyncProto (p : gostring) : bool := bool_decide (p ∈ [ #"redis"; #"valkey"; #"s3"; #"gcs"; #"minio"]).
Definition isRedisValkeyPair (a b : gostring) : bool :=
  (str_eqb a #"redis" || str_eqb a #"valkey") && (str_eqb b #"redis" || str_eqb b #"valkey").
Definition allowedEnvDatabaseProviders : list gostring := [ #"cnpg"; #"fresh"; #"snapshot"; #"schema"; #"noop"; #"none"].
Section Resolve.
Context {U : GoUnicode} {X : Type} (r : EnvironmentReconciler X).
Definition created {P : Type} (reg : Registry P) (name : gostring) : option P :=
  match Create reg name with Ok p => p | Err _ => None end.
Definition resolveAsyncProvisioner (dflt : AsyncProvisioner X) (route : AsyncRouteSpec) : AsyncProvisioner X :=
  let proto := ToLower (TrimSpace (ar_Protocol route)) in
  let name := ToLower (TrimSpace (async_Name dflt)) in
  let reg := er_asyncs r in
  if str_eqb name #"webhook" || negb (Has reg name) then dflt
  else if str_eqb name proto || isRedisValkeyPair name proto then dflt
  else
    match (if negb (str_eqb name #"noop") && Has reg proto || isKeyPrefixAsyncProto proto then created reg proto else None) with
    | Some p => p
    | None =>
        match (if isKeyPrefixAsyncProto name && negb (isKeyPrefixAsyncProto proto) then created reg #"noop" else None) with
        | Some p => p
        | None => dflt
        end
    end.
Definition getFeatureProvider (env : Environment) : result gostring (option (FeatureProvider X)) :=
  let providerName := match es_Features (ev_Spec env) with Some f => or_default (ft_Provider f) #"configmap" | None => #"configmap" end in
  match er_FeatureProvider r with
  | Some p =>
      if str_eqb (feature_Type p) providerName then Ok (Some p)
      else if Has (er_features r) providerName then Create (er_features r) providerName else Ok (Some p)
  | None =>
      if Has (er_features r) providerName then Create (er_features r) providerName
      else Err (#"feature provider " ++ Quote providerName ++ #" not registered")
  end.
Fixpoint isDefaultOrNoopDBProvider (p : DatabaseProvider X) : bool :=
  db_Noop p ||
  match p with
  | mkDatabaseProvider _ _ _ _ (Some (mode, inner)) =>
      match inner with None => true | Some i => bool_decide (mode ∈ [ []; #"none"; #"noop"]) || isDefaultOrNoopDBProvider i end
  | _ => false
  end.
Fixpoint closeDatabaseProvider (p : DatabaseProvider X) : X -> X :=
  match p with
  | mkDatabaseProvider _ _ (Some close) _ _ => close
  | mkDatabaseProvider _ _ None _ (Some (_, Some inner)) => closeDatabaseProvider inner
  | _ => id
  end.
(** The provider, whether it was created for this run, and the name to
    record; the text of the error. *)
Definition database := (option (DatabaseProvider X) * bool * gostring)%type.
Definition create_database (what name : gostring) : result gostring database :=
  match Create (er_databases r) name with
  | Ok p => Ok (p, true, name)
  | Err e => Err (#"failed to create " ++ what ++ #"database provider " ++ Quote name ++ #": " ++ e)
  end.
Definition resolveDatabaseProvider (env : Environment) (forTeardown : bool) : result gostring database :=
  let recorded := TrimSpace (et_DatabaseProvider (ev_Status env)) in
  if forTeardown && negb (str_eqb recorded []) && Has (er_databases r) recorded then create_database #"recorded " recorded
  else
    let explicit := TrimSpace (text_at (ev_Annotations env) #"divergedev.com/database-provider") in
    let mode := TrimSpace (db_Mode (es_Database (ev_Spec env))) in
    let branching := str_eqb mode #"snapshot" || str_eqb mode #"cnpg" || str_eqb mode #"fresh" in
    let noop := match er_DatabaseProvider r with Some p => isDefaultOrNoopDBProvider p | None => true end in
    if negb (str_eqb explicit []) && negb (bool_decide (explicit ∈ allowedEnvDatabaseProviders))
    then Err (#"unsupported database provider annotation " ++ Quote explicit)
    else
      let candidate := if negb (str_eqb explicit []) then explicit else if branching && noop then mode else [] in
      if negb (str_eqb recorded []) && negb (str_eqb candidate []) && negb (str_eqb candidate recorded)
      then Err (#"cannot change database provider from " ++ Quote recorded ++ #" to " ++ Quote candidate ++ #" after provisioning")
      else
        let candidate := if str_eqb recorded [] then candidate else recorded in
        if str_eqb candidate [] then Ok (er_DatabaseProvider r, false, [])
        else if negb (Has (er_databases r) candidate) then Err (#"database provider " ++ Quote candidate ++ #" is not registered")
        else create_database [] candidate.
End Resolve.

Section Provision.
Context {U : GoUnicode} {O : ConditionOps} {Q : QuantityOps} {R : MapOrder} {E N L P J S M A X : Type}.
Context {EA : ObjectApi Environment E} {NA : ObjectApi Namespace N} {LA : ObjectApi Guard L} {PA : ObjectApi Workload P}.
Context {JA : ObjectApi Job J} {SA : ObjectApi Secret S} {MA : ObjectApi ConfigMap M} {AA : ObjectApi AtlasCR A}.
Context {NV : UpsertApi Namespace N} {SV : UpsertApi Secret S} {MV : UpsertApi ConfigMap M}.
Abbreviation W := (env_world E N L P J S M A X).
Abbreviation C := (run (outcome gostring) W).
Context (r : EnvironmentReconciler X) (clock : env_readings) (schedule : nat -> list nat) (banner_script : gostring).

Definition upsert_text (e : upsert_error) : gostring := match e with ApiFailed e => er_api_text r e | MutateFailed msg => msg end.

(** ** The namespace *)
(** [Create], where an object that is there will do. *)
Definition ensure_guard (on_guards : forall B, (L -> B * L) -> C B) (what : gostring) (g : Guard) : C (option gostring) :=
  let! x := on_guards _ (obj_Create g) in
  ret match x with Ok _ | Err AlreadyExists => None | Err e => Some (wrap r (#"failed to create " ++ what) e) end.
Definition ensureNamespace (env : Environment) : C (option gostring) :=
  if str_eqb (dep_Namespace (es_Deploy (ev_Spec env))) #"create" then
    let ns := PreviewNamespace env in
    let! x := on_namespaces (obj_CreateOrUpdate (new_object [] ns ∅ [] tt) (fun o => Ok (o_set_Labels (namespace_labels env) o))) in
    match x with
    | Err e => ret (Some (#"failed to create or update namespace: " ++ upsert_text e))
    | Ok _ =>
        let! x := ensure_guard (fun B => on_limits) #"limit range" (limit_range ns) in
        match x with
        | Some e => ret (Some e)
        | None =>
            let! x := ensure_guard (fun B => on_quotas) #"resource quota" (resource_quota ns) in
            match x with
            | Some e => ret (Some e)
            | None => ensure_guard (fun B => on_netpols) #"network policy" (network_policy ns)
            end
        end
    end
  else ret None.

(** ** ConfigMaps and Secrets *)
Definition remove_banner (k : obj_key) : C (option gostring) :=
  let! got := on_configmaps (obj_Get (Ob := ConfigMap) k) in
  match got with
  | Err _ => ret None
  | Ok existing =>
      let! x := on_configmaps (obj_Delete (Ob := ConfigMap) None (r_key existing)) in
      ret match x with Ok _ => None | Err e => Some (wrap r #"failed to delete banner configmap" e) end
  end.
Definition ensureBannerConfigMap (env : Environment) : C (option gostring) :=
  let k := (preview_ns env, banner_name env) in
  match rt_Banner (es_Routing (ev_Spec env)) with
  | Some spec =>
      if bn_Enabled spec then
        match (if str_eqb (preview_ns env) (ev_Namespace env) then SetControllerReference r env [] else Ok []) with
        | Err e => ret (Some (#"failed to set owner reference: " ++ e))
        | Ok owners =>
            let script := ReplaceAll banner_script #"{{CONFIG_JSON}}" (banner_config env spec) in
            let! x := on_configmaps (obj_CreateOrUpdate (new_object (fst k) (snd k) (managed_labels env) owners (text_data ∅))
              (fun o => Ok (o_set_Spec (mkConfigMap (<[ #"diverge-banner.js" := script]> (cm_Data (o_Spec o))) (cm_BinaryData (o_Spec o))) o))) in
            ret match x with Ok _ => None | Err e => Some (#"failed to create or update banner ConfigMap: " ++ upsert_text e) end
        end
      else remove_banner k
  | None => remove_banner k
  end.
Definition other_controller (env : Environment) (ref : OwnerReference) : bool :=
  ow_Controller ref && (negb (str_eqb (ow_Kind ref) #"Environment") || negb (str_eqb (ow_Name ref) (ev_Name env))).
Definition secret_owners (env : Environment) (s : Secret) : result gostring (list OwnerReference) :=
  if str_eqb (preview_ns env) (ev_Namespace env) then
    if er_Scheme r then SetControllerReference r env (o_Owners s)
    else
      match List.find (other_controller env) (o_Owners s) with
      | Some ref => Err (#"secret " ++ o_Name s ++ #" is already owned by " ++ ow_Kind ref ++ #"/" ++ ow_Name ref)
      | None => Ok (if str_eqb (ev_UID env) [] then o_Owners s else [owner_of env])
      end
  else Ok (o_Owners s).
Definition ensureDatabaseEnvSecret (env : Environment) (envVars : gmap gostring gostring) : C (option gostring) :=
  let! x := on_secrets (obj_CreateOrUpdate (new_object (preview_ns env) (db_secret_name env) ∅ [] (mkSecret [] ∅)) (fun s : Secret =>
    let ls := <[ #"divergedev.com/managed-by" := #"diverge"]> (<[ #"divergedev.com/environment" := truncateLabel (ev_Name env)]> (o_Labels s)) in
    owners ← secret_owners env s;
    Ok (o_set_Spec (mkSecret (sec_Type (o_Spec s)) envVars) (o_set_Owners owners (o_set_Labels ls s))))) in
  ret match x with Ok _ => None | Err e => Some (#"failed to create or update database env secret: " ++ upsert_text e) end.

(** ** Steps *)
(** The condition and the end of the run, without a notification. *)
Definition step_ended {B} (base : Environment) (ty reason message : gostring) (err : option gostring) (requeueAfter : Z) : C B :=
  do! set_condition ty ConditionFalse reason message in
  updateStatusWithRequeue r base err requeueAfter.
Definition cross_namespace (env : Environment) (ref : SecretRef) : bool :=
  negb (str_eqb (sref_Namespace ref) []) && negb (str_eqb (sref_Namespace ref) (ev_Namespace env)).
Definition check_secret_refs (base : Environment) : C unit :=
  let! env := current in
  when (existsb (cross_namespace env) (es_EnvFrom (ev_Spec env) ++ dep_EnvFrom (es_Deploy (ev_Spec env)))) (
    do! record #"SecurityViolation" in
    step_ended base #"SecretRefValid" #"CrossNamespaceRef" #"cross-namespace SecretRef not allowed" None 0).
Definition namespace_step (base : Environment) : C unit :=
  let! env := current in
  let! x := ensureNamespace env in
  match x with
  | Some e => step_failed r base #"NamespaceReady" #"NamespaceProvisionFailed" e
  | None => set_condition #"NamespaceReady" ConditionTrue #"NamespaceProvisioned" #"Namespace is ready"
  end.
Definition quota_step (base : Environment) : C unit :=
  let! x := reconcileNamespaceQuota r clock base in
  match x with Some e => updateStatusWithRequeue r base (Some e) 0 | None => ret tt end.

(** *** The database *)
Definition RunSetupSQL (env : Environment) (setupSQL adminDSN : gostring) : C (result hook_error unit) :=
  match default (DirectSetup None) (er_SetupRunner r) with
  | JobSetup => on_hooks (runSetupSQLJob (er_api_text r) (er_SetupJobImage r) env setupSQL adminDSN)
  | DirectSetup executor =>
      if str_eqb setupSQL [] then ret (Ok tt)
      else
        match executor with
        | Some exec =>
            let! x := provider #"setup sql" (exec setupSQL) in
            ret match x with Ok _ => Ok tt | Err e => Err (HookError (#"failed to execute setup SQL via executor: " ++ e)) end
        | None =>
            if str_eqb adminDSN [] then ret (Err (HookError #"cannot execute setup SQL: admin DSN is empty and no executor provided"))
            else
              match er_OpenSQL r adminDSN with
              | Err e => ret (Err (HookError (#"failed to open database connection for setup SQL: " ++ e)))
              | Ok _ =>
                  let! x := provider #"setup sql" (er_ExecSQL r adminDSN setupSQL) in
                  ret match x with Ok _ => Ok tt | Err e => Err (HookError (#"failed to execute setup SQL: " ++ e)) end
              end
        end
  end.
Definition setup_step (base : Environment) (db : DatabaseResult) : C unit :=
  if str_eqb (dr_SetupSQL db) [] || dr_SetupSQLExecuted db then ret tt
  else
    let! env := current in
    let! x := RunSetupSQL env (dr_SetupSQL db) (dr_AdminDSN db) in
    match x with
    | Ok _ => ret tt
    | Err (HookInProgress _) =>
        step_ended base #"DatabaseReady" #"DatabaseSetupRunning" #"SetupSQL job is running" None (2 * Second)
    | Err e => step_failed r base #"DatabaseReady" #"DatabaseSetupFailed" (hook_text e)
    end.
Definition branching_mode (env : Environment) : bool :=
  bool_decide (db_Mode (es_Database (ev_Spec env)) ∈ [ #"snapshot"; #"cnpg"; #"fresh"]) ||
  negb (str_eqb (text_at (ev_Annotations env) #"divergedev.com/database-provider") []).
Definition secret_step (base : Environment) (db : DatabaseResult) : C unit :=
  let! env := current in
  let spec := es_Database (ev_Spec env) in
  if (str_eqb (db_ConnectionRef spec) [] || branching_mode env) && (negb (bool_decide (dr_EnvVars db = ∅)) || str_eqb (db_Mode spec) #"schema")
  then
    let envVars := if bool_decide (dr_EnvVars db = ∅) then {[ #"DATABASE_URL" := dr_DSN db]} else dr_EnvVars db in
    let! x := ensureDatabaseEnvSecret env envVars in
    match x with
    | Some e => step_failed r base #"DatabaseReady" #"DatabaseSecretProvisionFailed" e
    | None => ret tt
    end
  else ret tt.
Definition blocking_migration (spec : EnvironmentDatabase) : bool :=
  match at_Blocking <$> db_Atlas spec, mj_Blocking <$> db_MigrationJob spec with
  | Some (Some b), _ => b
  | _, Some (Some b) => b
  | _, _ => true
  end.
Definition set_migration (status message : gostring) : C unit :=
  set_status (fun st => et_set_MigrationMessage message (et_set_MigrationStatus status st)).
Definition migration_failed (base : Environment) (blocking : bool) (reason err : gostring) : C unit :=
  do! set_migration #"Failed" err in
  do! set_condition #"MigrationReady" ConditionFalse reason err in
  when blocking (
    do! set_status (et_set_Phase PhaseFailed) in
    do! record #"MigrationFailed" in
    do! notifyFailed r err in
    updateStatusWithRequeue r base (Some err) 0).
Definition migration_step (base : Environment) (db : DatabaseResult) : C unit :=
  let! env := current in
  let spec := es_Database (ev_Spec env) in
  match db_Atlas spec, db_MigrationJob spec with
  | None, None => ret tt
  | _, _ =>
      let blocking := blocking_migration spec in
      let! x := on_hooks (runMigrations (er_api_text r) (SetOwnerReference r) env (Some db)) in
      match x with
      | Err (HookInProgress _ as e) =>
          do! set_migration #"Running" (hook_text e) in
          do! set_condition #"MigrationReady" ConditionFalse #"MigrationRunning" (hook_text e) in
          when blocking (
            do! set_status (et_set_Phase PhaseMigrating) in
            do! record #"MigrationInProgress" in
            updateStatusWithRequeue r base None (3 * Second))
      | Err (HookFailed _ as e) => migration_failed base blocking #"MigrationFailed" (hook_text e)
      | Err e => migration_failed base blocking #"MigrationError" (hook_text e)
      | Ok _ =>
          do! set_migration #"Succeeded" #"Migrations applied successfully" in
          set_condition #"MigrationReady" ConditionTrue #"MigrationSucceeded" #"Migrations applied successfully"
      end
  end.
(** What is provisioned, or the end of the run. *)
Definition provision_database (base : Environment) : C (option DatabaseResult * option (DatabaseProvider X)) :=
  let! env := current in
  match resolveDatabaseProvider r env false with
  | Err e => step_failed r base #"DatabaseReady" #"DatabaseProvisionFailed" e
  | Ok (None, _, _) => ret (None, None)
  | Ok (Some p, fresh, name) =>
      do! when (str_eqb (et_DatabaseProvider (ev_Status env)) [] && negb (str_eqb name [])) (set_status (et_set_DatabaseProvider name)) in
      let! env := current in
      let! x := provider #"database" (db_Provision p env) in
      match x with
      | Ok db => ret (db, if fresh : bool then Some p else None)
      | Err e =>
          deferred (when fresh (on_ext (fun x => (tt, closeDatabaseProvider p x))))
            (step_failed r base #"DatabaseReady" #"DatabaseProvisionFailed" e)
      end
  end.
Definition database_step (base : Environment) (db : option DatabaseResult) : C unit :=
  match db with
  | Some db =>
      if dr_Ready db then
        do! setup_step base db in
        do! set_condition #"DatabaseReady" ConditionTrue #"DatabaseProvisioned" #"Database is ready" in
        do! set_status (et_set_DatabaseStatus (dr_Message db)) in
        do! secret_step base db in
        migration_step base db
      else set_condition #"DatabaseReady" ConditionFalse #"DatabaseProvisioning" #"Database is provisioning"
  | None => set_condition #"DatabaseReady" ConditionFalse #"DatabaseProvisioning" #"Database is provisioning"
  end.

(** *** Routes *)
Definition routing_step (base : Environment) : C unit :=
  let! env := current in
  let! x := provider #"routing" (router_Reconcile (er_Router r) env) in
  match x with
  | Err e => step_failed r base #"RoutingReady" #"RoutingProvisionFailed" e
  | Ok _ =>
      do! set_condition #"RoutingReady" ConditionTrue #"RoutingProvisioned" #"Routing is ready" in
      let! env := current in
      set_status (et_set_URL (GetExternalURL (er_Router r) env))
  end.
(** The first error in the order of the calls, else the variables by route. *)
Fixpoint provision_routes (dflt : AsyncProvisioner X) (env : Environment) (routes : list AsyncRouteSpec) (order : list nat)
    (done : gmap nat (gmap gostring gostring)) (err : option gostring) : C (result gostring (gmap nat (gmap gostring gostring))) :=
  match order with
  | [] => ret match err with Some e => Err e | None => Ok done end
  | i :: order =>
      match routes !! i with
      | None => provision_routes dflt env routes order done err
      | Some route =>
          let! x := provider #"async" (async_Provision (resolveAsyncProvisioner r dflt route) env route) in
          let failed e := #"async provision failed for " ++ ar_Protocol route ++ #"/" ++ ar_Target route ++ #": " ++ e in
          match x with
          | Ok (Some vars) => provision_routes dflt env routes order (<[i := vars]> done) err
          | Ok None => provision_routes dflt env routes order done (Some (default (failed #"provisioner returned nil result") err))
          | Err e => provision_routes dflt env routes order done (Some (default (failed e) err))
          end
      end
  end.
(** The variables of the routes together, or the name of a collision. *)
Fixpoint add_entries (l : list (gostring * gostring)) (m : gmap gostring gostring) : result gostring (gmap gostring gostring) :=
  match l with
  | [] => Ok m
  | (k, v) :: l =>
      match m !! k with
      | Some v' => if str_eqb v' v then add_entries l (<[k := v]> m) else Err k
      | None => add_entries l (<[k := v]> m)
      end
  end.
Definition merge_routes (n : nat) (results : gmap nat (gmap gostring gostring)) : result gostring (gmap gostring gostring) :=
  add_entries (i ← seq 0 n; entries (default ∅ (results !! i))) ∅.
Fixpoint validate_routes (routes : list AsyncRouteSpec) : result gostring unit :=
  match routes with
  | [] => Ok tt
  | route :: routes => match validateEnvVarMapping (ar_EnvVarMapping route) with Ok _ => validate_routes routes | Err e => Err e end
  end.
Definition async_conflict (base : Environment) (err : gostring) : C unit :=
  do! set_condition #"AsyncRoutingReady" ConditionFalse #"EnvVarConflict" err in
  do! record #"ValidationFailed" in
  updateStatusWithRequeue r base None 0.
Definition async_step (base : Environment) : C unit :=
  let! env := current in
  let routes := rt_AsyncRoutes (es_Routing (ev_Spec env)) in
  match er_AsyncProvisioner r with
  | None => ret tt
  | Some dflt =>
      if bool_decide (routes = []) || IsStatusConditionTrue (et_Conditions (ev_Status env)) #"AsyncRoutingReady" then ret tt
      else
        match validate_routes routes with
        | Err e => async_conflict base e
        | Ok _ =>
            let! x := provision_routes dflt env routes (schedule (length routes)) ∅ None in
            match x with
            | Err e =>
                do! set_condition #"AsyncRoutingReady" ConditionFalse #"AsyncProvisionFailed" e in
                do! record #"AsyncProvisionFailed" in
                updateStatusWithRequeue r base (Some e) 0
            | Ok results =>
                match merge_routes (length routes) results with
                | Err k => async_conflict base (#"env var collision for " ++ Quote k)
                | Ok vars =>
                    do! set_status (et_set_AsyncEnvVars vars) in
                    set_condition #"AsyncRoutingReady" ConditionTrue #"AsyncProvisioned"
                      (FormatInt (Z.of_nat (length routes)) ++ #" async routes provisioned")
                end
            end
        end
  end.

(** *** The banner and features *)
Definition banner_step : C unit :=
  let! env := current in
  let! x := ensureBannerConfigMap env in
  if match rt_Banner (es_Routing (ev_Spec env)) with Some b => bn_Enabled b | None => false end then
    match x with
    | Some e => set_condition #"BannerReady" ConditionFalse #"BannerProvisionFailed" e
    | None => set_condition #"BannerReady" ConditionTrue #"BannerProvisioned" #"Preview banner ConfigMap is ready"
    end
  else ret tt.
(** A provider that writes annotations of the environment in memory. *)
Definition call_feature (p : FeatureProvider X) : C (result gostring (option FeatureResult)) :=
  let! env := current in
  let! x := on_ext (fun w => let '(x, ann, w') := feature_Provision p env w in ((x, ann), w')) in
  do! mutate (ev_set_Annotations (snd x)) in
  do! emit (Called #"features" (failed_result (fst x))) in
  ret (fst x).
Definition nil_provider : gostring := #"runtime error: invalid memory address or nil pointer dereference".
Definition features_recorded (env : Environment) (f : FeatureSpec) : bool :=
  IsStatusConditionTrue (et_Conditions (ev_Status env)) #"FeaturesReady" &&
  (negb (str_eqb (et_FeatureConfigMap (ev_Status env)) []) || negb (bool_decide (et_FeatureEnvVars (ev_Status env) = ∅)) ||
   bool_decide (ft_Overrides f = ∅)).
Definition features_step (base : Environment) : C unit :=
  let! env := current in
  match es_Features (ev_Spec env) with
  | None => ret tt
  | Some f =>
      if features_recorded env f then ret tt
      else
        match getFeatureProvider r env with
        | Err e =>
            do! set_condition #"FeaturesReady" ConditionFalse #"FeatureProviderNotFound" e in
            do! record #"FeatureProvisionFailed" in
            updateStatusWithRequeue r base (Some e) 0
        | Ok None => fail nil_provider
        | Ok (Some p) =>
            let! x := call_feature p in
            match x with
            | Err e => step_failed r base #"FeaturesReady" #"FeatureProvisionFailed" e
            | Ok result =>
                do! (match result with
                     | Some fr => set_status (fun st => et_set_FeatureEnvVars (fr_EnvVars fr) (et_set_FeatureConfigMap (fr_ConfigMapName fr) st))
                     | None => ret tt
                     end) in
                let msg := match result with Some fr => or_default (fr_Message fr) #"Features ready" | None => #"Features ready" end in
                set_condition #"FeaturesReady" ConditionTrue #"FeaturesProvisioned" msg
            end
        end
  end.

Definition reconcileProvisioning (base : Environment) : C unit :=
  do! check_secret_refs base in
  do! namespace_step base in
  do! quota_step base in
  let! x := provision_database base in
  let '(db, opened) := x in
  deferred (match opened with Some p => on_ext (fun x => (tt, closeDatabaseProvider p x)) | None => ret tt end) (
    do! database_step base db in
    do! routing_step base in
    do! async_step base in
    do! banner_step in
    features_step base).
End Provision.
