(* ===== verification/EnvController.v ===== *)
(** * The environment controller: [internal/controller/environment_controller.go],
    [environment_deploy.go], [environment_lifecycle.go] and
    [environment_teardown.go]

    [Reconcile]: the finalizer, provisioning, the deployment, the phase, the
    lifetime, tests and the status; and the teardown of a deleted
    environment. *)

From S2P Require Import Prelude GoStrings GoTime GoFloat TokenStore KubeApi AgentTask ResourceNames.
From S2P Require Import EnvTypes Conditions EarlyReturn ObjectApi Resources HookJobs EnvStatus EnvWorld EnvDrift EnvQuota EnvProvision.
Local Open Scope Z_scope.


Section Controller.
Context {U : GoUnicode} {O : ConditionOps} {Q : QuantityOps} {R : MapOrder} {E N L P J S M A X : Type}.
Context {EA : ObjectApi Environment E} {NA : ObjectApi Namespace N} {LA : ObjectApi Guard L} {PA : ObjectApi Workload P}.
Context {JA : ObjectApi Job J} {SA : ObjectApi Secret S} {MA : ObjectApi ConfigMap M} {AA : ObjectApi AtlasCR A}.
Context {NV : UpsertApi Namespace N} {SV : UpsertApi Secret S} {MV : UpsertApi ConfigMap M}.
Abbreviation W := (env_world E N L P J S M A X).
Abbreviation C := (run (outcome gostring) W).
Context (r : EnvironmentReconciler X) (clock : env_readings) (schedule : nat -> list nat) (banner_script : gostring).

(** ** The deployment *)
Definition without_annotation (k : gostring) (env : Environment) : Environment := ev_set_Annotations (delete k (ev_Annotations env)) env.
(** The fingerprint shown to the deployer of a first deployment. *)
Definition inject_fingerprint (env : Environment) (prevFP : gostring) : C bool :=
  if str_eqb prevFP [] && negb (drift_ignored env) then
    let! x := computeBaselineFingerprint r env in
    match x with
    | Ok fp => if str_eqb fp [] then ret false else do! mutate (set_annotation AnnotationBaselineFingerprint fp) in ret true
    | Err _ => ret false
    end
  else ret false.
Definition deploy_services (base : Environment) (prevFP : gostring) : C unit :=
  match er_Deployer r with
  | None => ret tt
  | Some d =>
      let! env := current in
      let! injected := inject_fingerprint env prevFP in
      let! env := current in
      let! x := provider #"deploy" (deployer_Deploy d env) in
      do! when injected (mutate (without_annotation AnnotationBaselineFingerprint)) in
      match x with
      | Ok _ => ret tt
      | Err e => step_failed r base #"ServicesReady" #"DeployFailed" e
      end
  end.
Definition reconcileDeploy (base : Environment) : C unit :=
  let! env := current in
  let prevFP := TrimSpace (text_at (ev_Annotations env) AnnotationBaselineFingerprint) in
  let! synced := (if str_eqb prevFP [] then ret false
    else
      let! x := reconcileBaselineDrift r in
      match x with
      | Err e => step_failed r base #"ServicesReady" #"DeployFailed" e
      | Ok (_, synced) => ret synced
      end) in
  do! (if synced : bool then ret tt else deploy_services base prevFP) in
  do! set_condition #"ServicesReady" ConditionTrue #"ServicesDeployed" #"Services deployed successfully" in
  if str_eqb prevFP [] then let! _ := reconcileBaselineDrift r in ret tt else ret tt.

(** ** The lifetime *)
(** The delay until it ends; zero without a time to live. *)
Definition lifetime : C Z :=
  do! set_status (fun st => match et_CreatedAt st with None => et_set_CreatedAt (Some (now_created clock)) st | Some _ => st end) in
  let! env := current in
  match lc_TTL (es_Lifecycle (ev_Spec env)), et_CreatedAt (ev_Status env) with
  | Some ttl, Some created =>
      let expiryTime := Add created ttl in
      do! set_status (et_set_ExpiresAt (Some expiryTime)) in
      if After (now_ttl clock) expiryTime then
        let! x := on_envs (obj_Delete (Ob := Environment) None (r_key env)) in
        match x with Ok _ => done | Err e => fail (wrap r #"failed to delete expired environment" e) end
      else ret (Sub expiryTime (until_ttl clock))
  | _, _ => ret 0
  end.
Definition hibernate_idle : C unit :=
  let! env := current in
  if ShouldHibernateIdleEnvironment env time_zero (now_idle clock) 0 && negb (hibernated env) then
    let! x := hibernateEnvironment r env in
    match x with
    | Err _ => ret tt
    | Ok env' => do! mutate (fun _ => env') in record #"Hibernated"
    end
  else ret tt.
Definition notify_phase (oldPhase newPhase : gostring) : C unit :=
  match er_Notifier r with
  | None => ret tt
  | Some _ =>
      if str_eqb oldPhase newPhase then ret tt
      else if str_eqb newPhase PhaseRunning then
        do! commit_status r #"success" #"Preview environment ready" in notify r EnvironmentReady
      else if str_eqb newPhase PhaseFailed then
        do! commit_status r #"failed" #"Preview environment failed" in notify r (EnvironmentFailed #"Environment failed to deploy")
      else ret tt
  end.

(** *** Tests *)
Definition test_required (env : Environment) : bool := match es_Testing (ev_Spec env) with Some t => tt_Required t | None => false end.
Definition commit_state (required : bool) : gostring := if required then #"failed" else #"success".
Definition set_test (f : TestStatus -> TestStatus) : C unit := set_status (fun st => et_set_TestStatus (f <$> et_TestStatus st) st).
Definition trigger_tests (base : Environment) (oldPhase newPhase : gostring) : C unit :=
  let! env := current in
  match er_TestRunner r, es_Testing (ev_Spec env) with
  | Some runner, Some testing =>
      if negb (str_eqb oldPhase newPhase) && str_eqb newPhase PhaseRunning && tt_Enabled testing then
        let! x := provider #"trigger tests" (test_Trigger runner env) in
        match x with
        | Err e =>
            do! record #"TestTriggerFailed" in
            do! set_status (et_set_TestStatus (Some (mkTestStatus TestStateFailed (#"Failed to trigger: " ++ e) [] [] None (Some (now_triggered clock))))) in
            commit_status r (commit_state (test_required env)) e
        | Ok runID =>
            do! set_status (et_set_TestStatus (Some (mkTestStatus TestStatePending [] [] runID (Some (now_triggered clock)) None))) in
            do! record #"TestsTriggered" in
            do! commit_status r #"pending" #"Tests running..." in
            when (str_eqb runID #"dispatch-pending") (updateStatusWithRequeue r base None (5 * Second))
        end
      else ret tt
  | _, _ => ret tt
  end.
Definition test_timeout (env : Environment) : Z := default (30 * Minute) (t ← es_Testing (ev_Spec env); tt_Timeout t).
Definition poll_result (required : bool) (x : TestResult) : C unit :=
  do! set_test (fun ts =>
    let ts := ts_set_Summary (tr_Summary x) (ts_set_State (tr_State x) ts) in
    let ts := if str_eqb (tr_URL x) [] then ts else ts_set_URL (tr_URL x) ts in
    if str_eqb (tr_ResolvedRunID x) [] then ts else ts_set_RunID (tr_ResolvedRunID x) ts) in
  if str_eqb (tr_State x) TestStatePassed then
    do! set_test (ts_set_CompletedAt (Some (now_finished clock))) in
    do! record #"TestsPassed" in
    commit_status r #"success" (tr_Summary x)
  else if str_eqb (tr_State x) TestStateFailed then
    do! set_test (ts_set_CompletedAt (Some (now_finished clock))) in
    do! record #"TestsFailed" in
    commit_status r (commit_state required) (tr_Summary x)
  else ret tt.
(** When to poll again. *)
Definition poll_delay (ts : TestStatus) (requeueAfter : Z) : Z :=
  if str_eqb (ts_State ts) TestStatePending then
    match ts_StartedAt ts with
    | None => 5 * Second
    | Some started =>
        let elapsed := Sub (since_polled clock) started in
        if elapsed <? 30 * Second then 5 * Second else if elapsed <? 60 * Second then 10 * Second else 30 * Second
    end
  else if str_eqb (ts_State ts) TestStateRunning then
    if (requeueAfter =? 0) || (15 * Second <? requeueAfter) then 30 * Second else requeueAfter
  else requeueAfter.
Definition poll_tests (requeueAfter : Z) : C Z :=
  let! env := current in
  match er_TestRunner r, et_TestStatus (ev_Status env) with
  | Some runner, Some ts =>
      let required := test_required env in
      if str_eqb (ts_State ts) TestStatePending || str_eqb (ts_State ts) TestStateRunning then
        if match ts_StartedAt ts with Some started => test_timeout env <? Sub (since_started clock) started | None => false end then
          do! set_test (fun ts => ts_set_CompletedAt (Some (now_finished clock)) (ts_set_Summary #"Tests timed out" (ts_set_State TestStateTimedOut ts))) in
          do! record #"TestsTimedOut" in
          do! commit_status r (commit_state required) #"Tests timed out" in
          ret requeueAfter
        else
          let! x := provider #"poll tests" (test_Status runner env (ts_RunID ts)) in
          do! (match x with Ok (Some result) => poll_result required result | _ => ret tt end) in
          let! env := current in
          ret (poll_delay (default ts (et_TestStatus (ev_Status env))) requeueAfter)
      else ret requeueAfter
  | _, _ => ret requeueAfter
  end.
Definition reconcileLifecycle (base : Environment) (oldPhase newPhase : gostring) : C Z :=
  let! requeueAfter := lifetime in
  do! hibernate_idle in
  do! notify_phase oldPhase newPhase in
  do! trigger_tests base oldPhase newPhase in
  poll_tests requeueAfter.

(** ** Teardown *)
Definition errors (x : result gostring unit) (what : gostring) : list gostring :=
  match x with Ok _ => [] | Err e => [what ++ #": " ++ e] end.
Definition api_errors (x : ares unit) (what : gostring) : list gostring :=
  match x with Ok _ | Err NotFound => [] | Err e => [wrap r what e] end.
Definition teardown_deployer (env : Environment) : C (list gostring) :=
  match er_Deployer r with
  | None => ret []
  | Some d => let! x := provider #"teardown deployments" (deployer_Teardown d env) in ret (errors x #"failed to teardown deployments")
  end.
Fixpoint teardown_routes (dflt : AsyncProvisioner X) (env : Environment) (routes : list AsyncRouteSpec) : C (list gostring) :=
  match routes with
  | [] => ret []
  | route :: routes =>
      let! x := provider #"teardown async" (async_Teardown (resolveAsyncProvisioner r dflt route) env route) in
      let! rest := teardown_routes dflt env routes in
      ret (errors x (#"failed to teardown async route " ++ ar_Protocol route ++ #"/" ++ ar_Target route) ++ rest)
  end.
Definition teardown_async (env : Environment) : C (list gostring) :=
  match er_AsyncProvisioner r with
  | None => ret []
  | Some dflt => teardown_routes dflt env (rt_AsyncRoutes (es_Routing (ev_Spec env)))
  end.
(** The errors, and the provider to close. *)
Definition teardown_database (env : Environment) : C (list gostring * option (DatabaseProvider X)) :=
  match resolveDatabaseProvider r env true with
  | Err e => ret ([ #"failed to resolve database provider for teardown: " ++ e], None)
  | Ok (None, _, _) => ret ([], None)
  | Ok (Some p, fresh, _) =>
      let! x := provider #"teardown database" (db_Teardown p env) in
      ret (errors x #"failed to teardown database", if fresh : bool then Some p else None)
  end.
(** Waits for the workloads of the preview. *)
Definition await_workloads (env : Environment) : C (list gostring) :=
  match er_Deployer r with
  | None => ret []
  | Some d =>
      let! x := provider #"deployment status" (deployer_Status d env) in
      match x with
      | Err e => ret [ #"failed to check deployer status during teardown: " ++ e]
      | Ok [] => ret []
      | Ok (_ :: _) => requeue (5 * Second)
      end
  end.
Definition teardown_features (env : Environment) : C (list gostring) :=
  match getFeatureProvider r env with
  | Ok (Some p) => let! x := provider #"teardown features" (feature_Teardown p env) in ret (errors x #"failed to teardown features")
  | _ => ret []
  end.
Definition delete_namespace (env : Environment) : C (list gostring) :=
  if str_eqb (dep_Namespace (es_Deploy (ev_Spec env))) #"create" then
    let! x := on_namespaces (obj_Delete (Ob := Namespace) None ([], PreviewNamespace env)) in
    ret (api_errors x #"failed to delete namespace")
  else ret [].
Definition forced (env : Environment) : bool :=
  str_eqb (text_at (ev_Annotations env) #"divergedev.com/force-teardown") #"true" ||
  match ev_DeletionTimestamp env with Some t => 15 * Minute <? Sub (since_deleted clock) t | None => false end.
Definition without_finalizer (env : Environment) : Environment :=
  ev_set_Finalizers (filter (fun f => f <> environmentFinalizer) (ev_Finalizers env)) env.
Definition release (env : Environment) : C unit :=
  let! u := on_envs (obj_Update (without_finalizer env)) in
  match u with
  | Err e => finish (mkOutcome (5 * Second) (Some (wrap r #"failed to remove finalizer" e)))
  | Ok _ => do! record #"Terminated" in done
  end.
(** What follows the wait for the workloads. *)
Definition finish_teardown (env : Environment) (errs : list gostring) : C unit :=
  let! x := on_secrets (obj_Delete (Ob := Secret) None (preview_ns env, db_secret_name env)) in
  let errs := errs ++ api_errors x #"failed to delete database env secret" in
  let! fs := teardown_features env in
  let! ns := delete_namespace env in
  let errs := errs ++ fs ++ ns in
  match errs with
  | [] => release env
  | _ :: _ =>
      if forced env then do! record #"ForceTeardown" in release env
      else finish (mkOutcome (10 * Second) (Some (Join errs NL)))
  end.
Definition handleTeardown (env : Environment) : C unit :=
  if bool_decide (environmentFinalizer ∈ ev_Finalizers env) then
    do! record #"Terminating" in
    do! commit_status r #"canceled" #"Preview environment torn down" in
    do! notify r EnvironmentTeardown in
    let! e1 := teardown_deployer env in
    let! e2 := teardown_async env in
    let! x := provider #"teardown routing" (router_Teardown (er_Router r) env) in
    let! y := teardown_database env in
    let '(e4, opened) := y in
    deferred (match opened with Some p => on_ext (fun x => (tt, closeDatabaseProvider p x)) | None => ret tt end) (
      let! e5 := await_workloads env in
      finish_teardown env (e1 ++ e2 ++ errors x #"failed to teardown routing" ++ e4 ++ e5))
  else done.

(** ** Reconcile *)
Definition add_finalizer (env : Environment) : C unit :=
  let! u := on_envs (obj_Update (ev_set_Finalizers (ev_Finalizers env ++ [environmentFinalizer]) env)) in
  match u with
  | Err e => fail (wrap r #"failed to add finalizer" e)
  | Ok env' =>
      do! mutate (fun _ => env') in
      do! notify r EnvironmentCreated in
      do! commit_status r #"pending" #"Preview environment provisioning" in
      do! record #"Created" in done
  end.
Definition with_commit (env : Environment) : Environment :=
  let sha := src_CommitSHA (es_Source (ev_Spec env)) in
  if negb (str_eqb sha []) && str_eqb (et_CommitSHA (ev_Status env)) [] then with_env_status (et_set_CommitSHA sha) env else env.
Definition reconcile_live (base : Environment) : C unit :=
  do! set_status (et_set_ObservedGeneration (ev_Generation base)) in
  do! reconcileProvisioning r clock schedule banner_script base in
  do! reconcileDeploy base in
  let! env := current in
  let oldPhase := et_Phase (ev_Status env) in
  let newPhase := derivePhase (et_Conditions (ev_Status env)) in
  do! set_status (et_set_Phase newPhase) in
  do! when (str_eqb newPhase PhaseRunning) (record #"Running") in
  let! requeueAfter := reconcileLifecycle base oldPhase newPhase in
  updateStatusWithRequeue r base None requeueAfter.
Definition reconcile_env (env : Environment) : C unit :=
  match ev_DeletionTimestamp env with
  | Some _ => handleTeardown env
  | None =>
      do! mutate with_commit in
      if bool_decide (environmentFinalizer ∈ ev_Finalizers env) then reconcile_live env else add_finalizer (with_commit env)
  end.
Definition reconcile_body (key : obj_key) : C unit :=
  let! got := on_envs (obj_Get key) in
  match got with
  | Err NotFound => done
  | Err e => fail (er_api_text r e)
  | Ok env => do! mutate (fun _ => env) in reconcile_env env
  end.
(** Every path of the body returns. *)
Definition Reconcile (key : obj_key) (w : W) : outcome gostring * W :=
  match reconcile_body key w with
  | (inl o, w1) => (o, w1)
  | (inr _, w1) => (mkOutcome 0 None, w1)
  end.
End Controller.
