(* ===== verification/EnvScope.v ===== *)
(** * What a run of the environment controller may touch

    Environments of one Kubernetes namespace may come from one team: whatever
    the spec and the providers do, a run writes objects of the environment's
    namespace and of the preview namespaces of that namespace only. *)

From S2P Require Import Prelude GoSort GoStrings GoCrypto GoTime GoFloat TokenStore KubeApi AgentTask ResourceNames.
From S2P Require Import EnvTypes Conditions EarlyReturn ObjectApi Resources HookJobs EnvStatus EnvWorld.
From S2P Require Import EnvDrift EnvQuota EnvProvision EnvController.
Local Open Scope Z_scope.

(** A namespace that is neither [NS] nor the preview of one of its environments. *)
Definition outside {U : GoUnicode} (NS ns : gostring) : Prop :=
  ns <> NS /\ forall env, ev_Namespace env = NS -> PreviewNamespace env <> ns.

Section Scope.
Context {U : GoUnicode} {O : ConditionOps} {Q : QuantityOps} {R : MapOrder} {E N L P J S M A X : Type}.
Context {EA : ObjectApi Environment E} {NA : ObjectApi Namespace N} {LA : ObjectApi Guard L} {PA : ObjectApi Workload P}.
Context {JA : ObjectApi Job J} {SA : ObjectApi Secret S} {MA : ObjectApi ConfigMap M} {AA : ObjectApi AtlasCR A}.
Context {NV : UpsertApi Namespace N} {SV : UpsertApi Secret S} {MV : UpsertApi ConfigMap M}.
Context {EL : ObjectApiLaws Environment E} {NL : ObjectApiLaws Namespace N} {LL : ObjectApiLaws Guard L} {PL : ObjectApiLaws Workload P}.
Context {JL : ObjectApiLaws Job J} {SL : ObjectApiLaws Secret S} {ML : ObjectApiLaws ConfigMap M} {AL : ObjectApiLaws AtlasCR A}.
Context {NVL : UpsertApiLaws Namespace N} {SVL : UpsertApiLaws Secret S} {MVL : UpsertApiLaws ConfigMap M}.
Abbreviation W := (env_world E N L P J S M A X).
Abbreviation C := (run (outcome gostring) W).
Context (r : EnvironmentReconciler X) (clock : env_readings) (schedule : nat -> list nat) (banner_script : gostring).

(** What is stored under the key [k], and the namespace it is in. *)
Record view := mkView {
  v_env : option Environment; v_ns : option Namespace; v_limit : option Guard; v_quota : option Guard; v_netpol : option Guard;
  v_dep : option Workload; v_sts : option Workload; v_job : option Job; v_secret : option Secret; v_cm : option ConfigMap;
  v_migration : option AtlasCR; v_schema : option AtlasCR }.
Definition view_at (k : obj_key) (w : W) : view :=
  mkView (stored (ew_envs w) !! k) (stored (ew_namespaces w) !! ([], fst k)) (stored (ew_limits w) !! k) (stored (ew_quotas w) !! k)
    (stored (ew_netpols w) !! k) (stored (ew_deployments w) !! k) (stored (ew_statefulsets w) !! k)
    (stored (hw_jobs (ew_hooks w)) !! k) (stored (hw_secrets (ew_hooks w)) !! k) (stored (hw_configmaps (ew_hooks w)) !! k)
    (stored (hw_migrations (ew_hooks w)) !! k) (stored (hw_schemas (ew_hooks w)) !! k).

Section Keeps.
Context (NS NM : gostring) (HNS : NS <> []) (k : obj_key) (Hk : outside NS (fst k)) (v : view).
Definition located (env : Environment) : Prop := r_key env = (NS, NM).
(** The environment in memory stays the one of the run, and the view is [v]. *)
Definition kept (w : W) : Prop := located (ew_cur w) /\ view_at k w = v.
Definition yields {B} (m : C B) (Rb : B -> Prop) : Prop := triple kept m (fun b w => kept w /\ Rb b) (fun _ => kept).
Abbreviation keeps m := (yields m (fun _ => True)).

Lemma yields_bind {B D} (m : C B) (f : B -> C D) Rb Rd : yields m Rb -> (forall b, Rb b -> yields (f b) Rd) -> yields (bind m f) Rd.
Proof.
  intros Hm Hf. unfold yields. eapply triple_bind; [exact Hm|]. intros b. apply triple_pure. intros Hb. by apply Hf.
Qed.
Lemma kept_bind {B D} (m : C B) (f : B -> C D) Rd : keeps m -> (forall b, yields (f b) Rd) -> yields (bind m f) Rd.
Proof. intros Hm Hf. eapply yields_bind; [exact Hm|]. auto. Qed.
Lemma yields_ret {B} (b : B) (Rb : B -> Prop) : Rb b -> yields (ret b) Rb.
Proof. intros H. by apply triple_ret. Qed.
Lemma kept_ret {B} (b : B) : keeps (ret b).
Proof. by apply yields_ret. Qed.
Lemma yields_finish {B} o (Rb : B -> Prop) : yields (finish o) Rb.
Proof. by apply triple_finish. Qed.
Lemma yields_fail {B} e (Rb : B -> Prop) : yields (fail e) Rb.
Proof. apply yields_finish. Qed.
Lemma yields_done {B} (Rb : B -> Prop) : yields done Rb.
Proof. apply yields_finish. Qed.
Lemma yields_requeue {B} d (Rb : B -> Prop) : yields (requeue d) Rb.
Proof. apply yields_finish. Qed.
Lemma kept_when b m : keeps m -> keeps (when b m).
Proof. intros H. destruct b; [done|apply kept_ret]. Qed.
Lemma yields_weaken {B} (m : C B) (Rb : B -> Prop) : yields m Rb -> keeps m.
Proof. intros H. eapply triple_mono; [exact H|..]; naive_solver. Qed.
Lemma yields_deferred {B} (d : C unit) (m : C B) Rb : keeps d -> yields m Rb -> yields (deferred d m) Rb.
Proof.
  intros Hd Hm. eapply triple_deferred; [exact Hm| |].
  - intros b w [Hw Hb]. specialize (Hd w Hw). destruct (d w) as [[?|?] w1]; [done|]. by destruct Hd.
  - intros o w Hw. specialize (Hd w Hw). destruct (d w) as [[?|?] w1]; [done|]. by destruct Hd.
Qed.
Lemma yields_current : yields (current : C _) located.
Proof. intros w Hw. split; [done|]. apply Hw. Qed.
Lemma keeps_mutate f : (forall env, located env -> located (f env)) -> keeps (mutate f : C _).
Proof. intros Hf w [Hw Hv]. split; [|done]. split; [by apply Hf|done]. Qed.
Lemma kept_emit e : keeps (emit e : C _).
Proof. by intros w Hw. Qed.
Lemma keeps_ext {B} (f : X -> B * X) : keeps (on_ext f : C _).
Proof. intros w Hw. unfold on_ext, on. by destruct (f _). Qed.

(** *** Calls on the stores *)
Ltac store := intros Hs Hv w [Hw Hview]; unfold on_envs, on_namespaces, on_limits, on_quotas, on_netpols, on_deployments, on_statefulsets,
    on_secrets, on_configmaps, on_hooks, on;
  match goal with |- context [let '(_, _) := ?f ?x in _] => specialize (Hs x); specialize (Hv x); destruct (f x) as [b y] end;
  cbn [fst snd] in *; split; [|done]; split; [done|]; rewrite <- Hview; unfold view_at; cbn; by rewrite Hs.
Lemma yields_envs {B} (f : E -> B * E) Rb : spares k f -> (forall e, Rb (fst (f e))) -> yields (on_envs f : C _) Rb.
Proof. store. Qed.
Lemma yields_namespaces {B} (f : N -> B * N) Rb : spares ([], fst k) f -> (forall e, Rb (fst (f e))) -> yields (on_namespaces f : C _) Rb.
Proof. store. Qed.
Lemma yields_limits {B} (f : L -> B * L) Rb : spares k f -> (forall e, Rb (fst (f e))) -> yields (on_limits f : C _) Rb.
Proof. store. Qed.
Lemma yields_quotas {B} (f : L -> B * L) Rb : spares k f -> (forall e, Rb (fst (f e))) -> yields (on_quotas f : C _) Rb.
Proof. store. Qed.
Lemma yields_netpols {B} (f : L -> B * L) Rb : spares k f -> (forall e, Rb (fst (f e))) -> yields (on_netpols f : C _) Rb.
Proof. store. Qed.
Lemma yields_deployments {B} (f : P -> B * P) Rb : spares k f -> (forall e, Rb (fst (f e))) -> yields (on_deployments f : C _) Rb.
Proof. store. Qed.
Lemma yields_statefulsets {B} (f : P -> B * P) Rb : spares k f -> (forall e, Rb (fst (f e))) -> yields (on_statefulsets f : C _) Rb.
Proof. store. Qed.
Lemma yields_secrets {B} (f : S -> B * S) Rb : spares k f -> (forall e, Rb (fst (f e))) -> yields (on_secrets f : C _) Rb.
Proof.
  intros Hs Hv w [Hw Hview]. unfold on_secrets, on_hooks, on. specialize (Hs (hw_secrets (ew_hooks w))). specialize (Hv (hw_secrets (ew_hooks w))).
  destruct (f _) as [b y]. cbn [fst snd] in *. split; [|done]. split; [done|]. rewrite <- Hview. unfold view_at. cbn. by rewrite Hs.
Qed.
Lemma yields_configmaps {B} (f : M -> B * M) Rb : spares k f -> (forall e, Rb (fst (f e))) -> yields (on_configmaps f : C _) Rb.
Proof.
  intros Hs Hv w [Hw Hview]. unfold on_configmaps, on_hooks, on. specialize (Hs (hw_configmaps (ew_hooks w))). specialize (Hv (hw_configmaps (ew_hooks w))).
  destruct (f _) as [b y]. cbn [fst snd] in *. split; [|done]. split; [done|]. rewrite <- Hview. unfold view_at. cbn. by rewrite Hs.
Qed.
Lemma keeps_hooks {B} (f : hook_world J S M A -> B * hook_world J S M A) :
  (forall h, elsewhere (fst k) (snd k) (snd (f h)) = elsewhere (fst k) (snd k) h) -> keeps (on_hooks f : C _).
Proof.
  intros Hs w [Hw Hview]. unfold on_hooks, on. specialize (Hs (ew_hooks w)). destruct (f _) as [b y]. cbn [snd] in Hs.
  split; [|done]. split; [done|]. rewrite <- Hview. unfold view_at, elsewhere in *.
  rewrite <- !surjective_pairing in Hs. cbn. by injection Hs as -> -> -> -> ->.
Qed.

(** *** Facts on keys *)
Lemma located_ns env : located env -> ev_Namespace env = NS.
Proof. by intros [= H _]. Qed.
Lemma NS_out (n : gostring) : (NS, n) <> k.
Proof using Hk. intros H. destruct Hk as [Hn _]. apply Hn. by rewrite <- H. Qed.
Lemma preview_out env (n : gostring) : ev_Namespace env = NS -> (preview_ns env, n) <> k.
Proof using Hk.
  intros He H. destruct Hk as [Hn Hp]. unfold preview_ns in H. case_match; [|apply Hn; by rewrite <- H, <- He].
  apply (Hp env He). by rewrite <- H.
Qed.
Lemma PreviewNamespace_out env (n : gostring) : ev_Namespace env = NS -> (PreviewNamespace env, n) <> k.
Proof using Hk. intros He H. destruct Hk as [_ Hp]. apply (Hp env He). by rewrite <- H. Qed.
Lemma in_NS_out {Ob} `{Resource Ob} (o : Ob) : fst (r_key o) = NS -> r_key o <> k.
Proof using Hk. intros Ho He. destruct Hk as [Hn _]. apply Hn. by rewrite <- He, Ho. Qed.
Lemma namespace_out (n : gostring) env : ev_Namespace env = NS -> n = NS \/ n = PreviewNamespace env -> (([] : gostring), n) <> ([], fst k).
Proof using Hk. intros He Hn [= H]. destruct Hk as [H1 H2]. destruct Hn as [-> | ->]; [by apply H1|by apply (H2 env)]. Qed.
Lemma located_out env : located env -> r_key env <> k.
Proof using Hk. intros ->. apply NS_out. Qed.

Hint Resolve kept_ret yields_ret yields_finish yields_fail yields_done yields_requeue kept_when kept_emit keeps_ext yields_deferred : keeps.
Hint Extern 4 (forall _, yields _ _) => intros ? : keeps.
Hint Extern 5 (yields (match ?x with _ => _ end) _) => destruct x : keeps.
Hint Resolve kept_bind | 10 : keeps.

Lemma keeps_provider {B} what (f : call X B) : keeps (provider what f : C _).
Proof. unfold provider. auto with keeps. Qed.
Lemma keeps_status f : keeps (set_status f : C _).
Proof. apply keeps_mutate. intros env He. exact He. Qed.
Lemma keeps_condition ty st reason msg : keeps (set_condition ty st reason msg : C _).
Proof. apply keeps_status. Qed.
Lemma keeps_record reason : keeps (record reason : C _).
Proof. apply kept_emit. Qed.
Hint Resolve keeps_provider keeps_status keeps_condition keeps_record : keeps.
(** The environment in memory, with where it is. *)
Lemma yields_on_current {D} (f : Environment -> C D) Rd : (forall env, located env -> yields (f env) Rd) -> yields (bind current f) Rd.
Proof. apply yields_bind, yields_current. Qed.
Lemma kept_notify n : keeps (notify r n : C _).
Proof. unfold notify. case_match; [|auto with keeps]. apply yields_on_current. auto with keeps. Qed.
Lemma keeps_commit s d : keeps (commit_status r s d : C _).
Proof. unfold commit_status. case_match; [|auto with keeps]. apply yields_on_current. auto with keeps. Qed.
Hint Resolve kept_notify keeps_commit : keeps.
Lemma env_status_meta f : keeps_meta (with_env_status f).
Proof. done. Qed.
Lemma update_status_keeps {B} base err d Rb : yields (updateStatusWithRequeue (B := B) r base err d) Rb.
Proof using EL Hk.
  unfold updateStatusWithRequeue. apply yields_on_current. intros env He.
  apply (yields_bind _ _ (fun x => forall env', x = Ok env' -> located env')).
  - apply yields_envs; [apply spares_patch; [apply env_status_meta|by apply located_out]|].
    intros e env' Hx. red in He |- *. rewrite <- He. by eapply patch_key_of; [apply env_status_meta|].
  - intros [env'|e] Hx; [|auto with keeps]. apply kept_bind; [apply keeps_mutate; auto|].
    auto with keeps.
Qed.
Hint Resolve update_status_keeps : keeps.
Lemma step_failed_keeps {B} base ty reason err Rb : yields (step_failed (B := B) r base ty reason err) Rb.
Proof using EL Hk. unfold step_failed, notifyFailed. auto with keeps. Qed.
Lemma step_ended_keeps {B} base ty reason msg err d Rb : yields (step_ended (B := B) r base ty reason msg err d) Rb.
Proof using EL Hk. unfold step_ended. auto with keeps. Qed.
Hint Resolve step_failed_keeps step_ended_keeps : keeps.

(** Calls whose result does not matter. *)
Lemma kept_envs {B} (f : E -> B * E) : spares k f -> keeps (on_envs f : C _).
Proof. intros H. by apply yields_envs. Qed.
Lemma keeps_namespaces {B} (f : N -> B * N) : spares ([], fst k) f -> keeps (on_namespaces f : C _).
Proof. intros H. by apply yields_namespaces. Qed.
Lemma keeps_limits {B} (f : L -> B * L) : spares k f -> keeps (on_limits f : C _).
Proof. intros H. by apply yields_limits. Qed.
Lemma keeps_quotas {B} (f : L -> B * L) : spares k f -> keeps (on_quotas f : C _).
Proof. intros H. by apply yields_quotas. Qed.
Lemma keeps_netpols {B} (f : L -> B * L) : spares k f -> keeps (on_netpols f : C _).
Proof. intros H. by apply yields_netpols. Qed.
Lemma keeps_deployments {B} (f : P -> B * P) : spares k f -> keeps (on_deployments f : C _).
Proof. intros H. by apply yields_deployments. Qed.
Lemma keeps_secrets {B} (f : S -> B * S) : spares k f -> keeps (on_secrets f : C _).
Proof. intros H. by apply yields_secrets. Qed.
Lemma keeps_configmaps {B} (f : M -> B * M) : spares k f -> keeps (on_configmaps f : C _).
Proof. intros H. by apply yields_configmaps. Qed.
Hint Resolve kept_envs keeps_namespaces keeps_limits keeps_quotas keeps_netpols keeps_deployments keeps_secrets keeps_configmaps
  spares_get spares_list spares_create spares_update spares_patch spares_delete spares_upsert : keeps.

(** ** Drift *)
Lemma get_all_keeps {Sp : Type} (get : obj_key -> C (ares (Object Sp unit))) what ks : (forall key, keeps (get key)) -> keeps (get_all r get what ks).
Proof. intros Hg. induction ks as [|key ks IH]; cbn [get_all]; auto with keeps. Qed.
Lemma keys_keep what ns sel : keeps (listed_keys r what ns sel : C _).
Proof using ML. unfold listed_keys. auto with keeps. Qed.
Hint Resolve keys_keep : keeps.
Lemma fingerprint_keeps env : keeps (computeBaselineFingerprint r env : C _).
Proof using PL ML SL.
  unfold computeBaselineFingerprint, manifest_keys. destruct (str_eqb _ _); [auto with keeps|]. cbv zeta.
  apply kept_bind; [auto with keeps|]. intros [deps|e]; [|auto with keeps]. apply kept_bind; [auto 20 with keeps|].
  intros [ks|e]; [|auto with keeps]. apply kept_bind; [apply get_all_keeps; auto with keeps|].
  intros [cms|e]; [|auto with keeps]. apply kept_bind; [apply get_all_keeps; auto with keeps|]. auto with keeps.
Qed.
Hint Resolve fingerprint_keeps : keeps.
Lemma annotate_keeps key val : keeps (mutate (set_annotation key val) : C _).
Proof. apply keeps_mutate. intros env He. exact He. Qed.
Lemma without_keeps key : keeps (mutate (without_annotation key) : C _).
Proof. apply keeps_mutate. intros env He. exact He. Qed.
Hint Resolve annotate_keeps without_keeps : keeps.
Lemma persist_keeps key val : keeps (persistAnnotation key val : C _).
Proof using EL Hk.
  unfold persistAnnotation. apply yields_on_current. intros env He. apply kept_bind.
  - apply kept_envs, spares_patch; [done|by apply located_out].
  - intros [env'|e]; [|auto with keeps]. apply kept_bind; [apply keeps_mutate; intros x Hx; exact Hx|auto with keeps].
Qed.
Hint Resolve persist_keeps : keeps.
Lemma drift_keeps : keeps (reconcileBaselineDrift r : C _).
Proof using EL PL ML SL Hk.
  unfold reconcileBaselineDrift. apply yields_on_current. intros env He. case_match; [auto with keeps|].
  apply kept_bind; [auto with keeps|]. intros [fp|e]; [|auto with keeps]. case_match; [auto with keeps|]. cbv zeta.
  case_match; [auto 10 with keeps|]. case_match; [auto with keeps|]. case_match; [|auto with keeps].
  apply kept_bind; [auto with keeps|]. intros _. apply kept_bind.
  { case_match; [|auto with keeps]. apply yields_on_current. auto with keeps. }
  auto 10 with keeps.
Qed.
Hint Resolve drift_keeps : keeps.

(** ** Quotas and hibernation *)
Lemma first_error_keeps {B} (f : B -> C (option gostring)) l : (forall b, b ∈ l -> keeps (f b)) -> keeps (first_error f l).
Proof.
  intros Hf. induction l as [|b l IH]; cbn [first_error]; [auto with keeps|]. apply kept_bind; [apply Hf; by left|].
  intros [e|]; [auto with keeps|]. apply IH. intros b' Hb. apply Hf. by right.
Qed.
(** The calls on Deployments or on StatefulSets. *)
Definition workload_store (on_workloads : forall B, (P -> B * P) -> C B) : Prop :=
  forall B (f : P -> B * P) Rb, spares k f -> (forall p, Rb (fst (f p))) -> yields (on_workloads B f) Rb.
Lemma scale_keeps what on_workloads name ns : workload_store on_workloads -> ns <> [] -> ns <> fst k ->
  keeps (scale_down r what on_workloads name ns).
Proof using PL.
  intros Hst Hn Hout. unfold scale_down.
  apply (yields_bind _ _ (fun l => forall items, l = Ok items -> forall o, o ∈ items -> fst (r_key o) = ns)).
  - apply Hst; [auto with keeps|]. intros p items Hl o Ho. by eapply list_namespace.
  - intros [items|e] Hl; [|case_match; auto with keeps]. apply first_error_keeps. intros o Ho. unfold scale_to_zero. case_bool_decide; [auto with keeps|].
    apply kept_bind; [|intros [?|[]]; auto with keeps]. apply Hst; [|done]. apply spares_patch; [done|].
    intros Heq. apply Hout. rewrite <- Heq. symmetry. by apply (Hl items eq_refl).
Qed.
Lemma PreviewNamespace_nonempty env : PreviewNamespace env <> [].
Proof.
  assert (#"-" <> []) as Hd by by vm_compute. unfold PreviewNamespace.
  destruct (_ <=? _)%nat; intros [_ [Hl _]%app_nil]%app_nil; by apply Hd.
Qed.
Lemma hibernate_yields env : ev_Namespace env = NS ->
  yields (hibernateEnvironment r env : C _) (fun x => forall env', x = Ok env' -> r_key env' = r_key env).
Proof using EL PL Hk HNS.
  intros He. unfold hibernateEnvironment. apply kept_bind.
  - apply first_error_keeps. intros ns Hns.
    assert (ns <> [] /\ ns <> fst k) as [Hn Hout].
    { destruct Hk as [H1 H2]. unfold hibernation_namespaces in Hns. apply elem_of_cons in Hns as [->|Hns]; [rewrite He; auto|].
      case_match; [|by apply not_elem_of_nil in Hns]. apply list_elem_of_singleton in Hns as ->. split; [apply PreviewNamespace_nonempty|by apply H2]. }
    unfold scale_namespace. apply kept_bind; [apply scale_keeps; [intros B f Rb; apply yields_deployments|done..]|].
    intros [e|]; [auto with keeps|]. apply scale_keeps; [intros B f Rb; apply yields_statefulsets|done..].
  - intros [e|]; [apply yields_ret; done|]. apply kept_bind.
    + apply kept_envs, spares_patch; [done|]. apply in_NS_out. exact He.
    + intros [patched|e]; apply yields_ret; [|done]. by intros env' [= <-].
Qed.
Lemma hibernate_all_keeps victims : (forall v', v' ∈ victims -> ev_Namespace v' = NS) -> keeps (hibernate_all r victims : C _).
Proof using EL PL Hk HNS.
  induction victims as [|x victims IH]; intros Hv; cbn [hibernate_all]; [auto with keeps|]. apply kept_bind.
  - eapply yields_weaken, hibernate_yields, Hv. by left.
  - assert (keeps (hibernate_all r victims : C _)) by (apply IH; intros v' Hv'; apply Hv; by right). auto with keeps.
Qed.
Lemma refuse_keeps base reason msg : keeps (refuse r base reason msg : C _).
Proof using EL Hk. unfold refuse. auto with keeps. Qed.
Hint Resolve refuse_keeps : keeps.
Lemma quota_keeps base : keeps (reconcileNamespaceQuota r clock base : C _).
Proof using EL NL PL Hk HNS.
  unfold reconcileNamespaceQuota. apply yields_on_current. intros env He. pose proof (located_ns env He) as Hns.
  apply (yields_bind _ _ (fun x => forall ns, x = Ok ns -> r_key ns = ([], NS))).
  { apply yields_namespaces; [auto with keeps|]. intros e ns Hx. rewrite <- Hns. by eapply get_key. }
  intros [ns|e] Hgot; [|destruct e; auto with keeps]. cbv zeta. case_match; [auto with keeps|]. case_match; [auto with keeps|].
  apply (yields_bind _ _ (fun x => forall items, x = Ok items -> forall item, item ∈ items -> ev_Namespace item = NS)).
  { apply yields_envs; [auto with keeps|]. intros e items Hx item Hi. rewrite <- Hns. refine (list_namespace (L := EL) ∅ (ev_Namespace env) e items item Hx _ Hi). by rewrite Hns. }
  intros [items|e] Hitems; [|auto with keeps]. apply kept_bind; [auto with keeps|]. intros _.
  destruct (choose_victims _ _ _) as [victims|msg] eqn:Ec; [|auto with keeps]. apply kept_bind.
  - case_match; [|auto with keeps]. apply kept_bind; [|auto with keeps]. apply keeps_namespaces, spares_update.
    change (r_key (claim_namespace clock env ns)) with (r_key ns). rewrite (Hgot ns eq_refl). apply (namespace_out NS env Hns). by left.
  - intros [e|]; [auto with keeps|]. apply kept_bind; [|auto with keeps]. apply hibernate_all_keeps.
    intros v' Hv'. apply (Hitems items eq_refl). apply choose_victims_in in Ec as [rest Hrest].
    assert (v' ∈ sort_lru (filter (fun item => other_active env item = true) items)) as Hin by (rewrite Hrest; apply elem_of_app; by left).
    unfold sort_lru in Hin. rewrite merge_sort_Permutation in Hin. by apply list_elem_of_filter in Hin as [_ ?].
Qed.
Hint Resolve quota_keeps : keeps.

(** ** Provisioning *)
Lemma guard_keeps (on_guards : forall B, (L -> B * L) -> C B) what g : (forall B (f : L -> B * L), spares k f -> keeps (on_guards B f)) ->
  r_key g <> k -> keeps (ensure_guard r on_guards what g).
Proof using LL. intros Hg Hout. unfold ensure_guard. apply kept_bind; [apply Hg; auto with keeps|auto with keeps]. Qed.
Lemma namespace_keeps env : located env -> keeps (ensureNamespace r env : C _).
Proof using NL LL NVL Hk.
  intros He. pose proof (located_ns env He) as Hns. unfold ensureNamespace. case_match; [|auto with keeps]. cbv zeta. apply kept_bind.
  { apply keeps_namespaces, spares_upsert. apply (namespace_out _ env Hns). by right. }
  intros [?|e]; [|auto with keeps].
  assert (forall n, (PreviewNamespace env, n) <> k) as Hp by (intros n; by apply PreviewNamespace_out).
  apply kept_bind; [apply guard_keeps; [intros; by apply keeps_limits|apply Hp]|]. intros [?|]; [auto with keeps|].
  apply kept_bind; [apply guard_keeps; [intros; by apply keeps_quotas|apply Hp]|]. intros [?|]; [auto with keeps|].
  apply guard_keeps; [intros; by apply keeps_netpols|apply Hp].
Qed.
Lemma banner_keeps : keeps (banner_step r banner_script : C _).
Proof using ML MVL Hk.
  unfold banner_step. apply yields_on_current. intros env He. pose proof (located_ns env He) as Hns. apply kept_bind; [|auto with keeps].
  assert (keeps (remove_banner r (preview_ns env, banner_name env) : C _)) as Hrm.
  { unfold remove_banner. apply (yields_bind _ _ (fun x => forall cm : ConfigMap, x = Ok cm -> r_key cm = (preview_ns env, banner_name env))).
    - apply yields_configmaps; [auto with keeps|]. intros m cm Hcm. by eapply get_key.
    - intros [cm|e] Hcm; [|auto with keeps]. apply kept_bind; [|auto with keeps]. apply keeps_configmaps, spares_delete.
      rewrite (Hcm cm eq_refl). by apply preview_out. }
  unfold ensureBannerConfigMap. cbv zeta. case_match; [|done]. case_match; [|done]. case_match; [|auto with keeps].
  apply kept_bind; [|auto with keeps]. apply keeps_configmaps, spares_upsert. by apply preview_out.
Qed.
Lemma secret_keeps env vars : located env -> keeps (ensureDatabaseEnvSecret r env vars : C _).
Proof using SL SVL Hk.
  intros He. unfold ensureDatabaseEnvSecret. apply kept_bind; [|auto with keeps]. apply keeps_secrets, spares_upsert.
  by apply preview_out, located_ns.
Qed.
Hint Resolve banner_keeps : keeps.
Lemma refs_keep base : keeps (check_secret_refs r base : C _).
Proof using EL Hk. unfold check_secret_refs. apply yields_on_current. auto with keeps. Qed.
Lemma namespace_step_keeps base : keeps (namespace_step r base : C _).
Proof using EL NL LL NVL Hk.
  unfold namespace_step. apply yields_on_current. intros env He. apply kept_bind; [by apply namespace_keeps|]. auto with keeps.
Qed.
Lemma quota_step_keeps base : keeps (quota_step r clock base : C _).
Proof using EL NL PL Hk HNS. unfold quota_step. auto with keeps. Qed.
Lemma hooks_out env : located env -> fst k <> ev_Namespace env.
Proof using Hk. intros He. rewrite (located_ns env He). apply Hk. Qed.
Lemma setup_keeps base db : keeps (setup_step r base db : C _).
Proof using EL JL SL ML AL Hk.
  unfold setup_step. case_match; [auto with keeps|]. apply yields_on_current. intros env He.
  apply kept_bind; [|intros [?|[]]; auto with keeps]. unfold RunSetupSQL. destruct (default _ _) as [executor|].
  - auto 10 with keeps.
  - apply keeps_hooks. intros h. apply quiet_setup. by apply hooks_out.
Qed.
Lemma secret_step_keeps base db : keeps (secret_step r base db : C _).
Proof using EL SL SVL Hk.
  unfold secret_step. apply yields_on_current. intros env He. cbv zeta. case_match; [|auto with keeps].
  apply kept_bind; [by apply secret_keeps|auto with keeps].
Qed.
Lemma migration_failed_keeps base b reason e : keeps (migration_failed r base b reason e : C _).
Proof using EL Hk. unfold migration_failed, set_migration, notifyFailed. auto 10 with keeps. Qed.
Lemma migration_keeps base db : keeps (migration_step r base db : C _).
Proof using EL JL SL ML AL Hk.
  unfold migration_step, set_migration. apply yields_on_current. intros env He. cbv zeta.
  assert (keeps (on_hooks (runMigrations (er_api_text r) (SetOwnerReference r) env (Some db)) : C _)) as Hm.
  { apply keeps_hooks. intros h. apply quiet_migrations. by apply hooks_out. }
  case_match; [|case_match; [|auto with keeps]]; (apply kept_bind; [exact Hm|]); intros [?|[]]; auto 12 using migration_failed_keeps with keeps.
Qed.
Lemma provision_keeps base : keeps (provision_database r base : C _).
Proof using EL Hk.
  unfold provision_database. apply yields_on_current. intros env He. case_match; [|auto with keeps]. do 2 case_match. case_match; [|auto with keeps].
  apply kept_bind; [auto with keeps|]. intros _. apply yields_on_current. intros env' He'. apply kept_bind; [auto with keeps|]. auto with keeps.
Qed.
Lemma database_keeps base db : keeps (database_step r base db : C _).
Proof using EL JL SL ML AL SVL Hk.
  unfold database_step. case_match; [|auto with keeps]. case_match; [|auto with keeps].
  auto 10 using setup_keeps, secret_step_keeps, migration_keeps with keeps.
Qed.
Lemma routing_keeps base : keeps (routing_step r base : C _).
Proof using EL Hk.
  unfold routing_step. apply yields_on_current. intros env He. apply kept_bind; [auto with keeps|].
  intros [?|?]; [|auto with keeps]. apply kept_bind; [auto with keeps|]. intros _. apply yields_on_current. auto with keeps.
Qed.
Lemma routes_keep dflt env routes order dn err : keeps (provision_routes r dflt env routes order dn err : C _).
Proof.
  revert dn err. induction order as [|i order IH]; intros dn err; cbn [provision_routes]; [auto with keeps|].
  case_match; [|apply IH]. apply kept_bind; [auto with keeps|]. intros [[vars|]|e]; apply IH.
Qed.
Lemma async_keeps base : keeps (async_step r schedule base : C _).
Proof using EL Hk.
  unfold async_step, async_conflict. apply yields_on_current. intros env He. cbv zeta. case_match; [|auto with keeps]. case_match; [auto with keeps|].
  case_match; [|auto with keeps]. apply kept_bind; [apply routes_keep|]. intros [results|e]; [|auto with keeps].
  destruct (merge_routes _ _); auto with keeps.
Qed.
Lemma feature_keeps p : keeps (call_feature p : C _).
Proof.
  unfold call_feature. apply yields_on_current. intros env He. apply kept_bind; [auto with keeps|]. intros x.
  apply kept_bind; [apply keeps_mutate; intros e' He'; exact He'|auto with keeps].
Qed.
Lemma features_keep base : keeps (features_step r base : C _).
Proof using EL Hk.
  unfold features_step. apply yields_on_current. intros env He. case_match; [|auto with keeps]. case_match; [auto with keeps|].
  destruct (getFeatureProvider r env) as [[p|]|]; [|auto with keeps|auto with keeps]. apply kept_bind; [apply feature_keeps|].
  intros [result|e]; [|auto with keeps]. apply kept_bind; [destruct result; auto with keeps|auto with keeps].
Qed.
Lemma provisioning_keeps base : keeps (reconcileProvisioning r clock schedule banner_script base : C _).
Proof using EL NL LL PL JL SL ML AL NVL SVL MVL Hk HNS.
  unfold reconcileProvisioning. apply kept_bind; [apply refs_keep|]. intros _. apply kept_bind; [apply namespace_step_keeps|]. intros _.
  apply kept_bind; [apply quota_step_keeps|]. intros _. apply kept_bind; [apply provision_keeps|]. intros [db opened].
  apply yields_deferred; [case_match; auto with keeps|].
  auto 10 using database_keeps, routing_keeps, async_keeps, features_keep with keeps.
Qed.

(** ** Deployment and lifetime *)
Lemma deploy_keeps base : keeps (reconcileDeploy r base : C _).
Proof using EL PL ML SL Hk.
  unfold reconcileDeploy, deploy_services, inject_fingerprint. apply yields_on_current. intros env He. cbv zeta. apply kept_bind; [auto 10 with keeps|].
  intros synced. apply kept_bind; [|auto 10 with keeps]. case_match; [auto with keeps|]. case_match; [|auto with keeps].
  apply yields_on_current. intros env' He'. apply kept_bind; [auto 10 with keeps|]. intros injected.
  apply yields_on_current. intros env2 He2. auto 10 with keeps.
Qed.
Lemma lifetime_keeps : keeps (lifetime r clock : C _).
Proof using EL Hk.
  unfold lifetime. apply kept_bind; [auto with keeps|]. intros _. apply yields_on_current. intros env He.
  do 2 (case_match; [|auto with keeps]). apply kept_bind; [auto with keeps|]. intros _. case_match; [|auto with keeps].
  apply kept_bind; [|auto with keeps]. apply kept_envs, spares_delete. by apply located_out.
Qed.
Lemma idle_keeps : keeps (hibernate_idle r clock : C _).
Proof using EL PL Hk HNS.
  unfold hibernate_idle. apply yields_on_current. intros env He. case_match; [|auto with keeps].
  eapply yields_bind; [apply hibernate_yields, located_ns, He|]. intros [env'|e] Hx; [|auto with keeps].
  apply kept_bind; [|auto with keeps]. apply keeps_mutate. intros _ _. red. by rewrite (Hx env' eq_refl).
Qed.
Lemma tests_keep base old new d : keeps (do! notify_phase r old new in do! trigger_tests r clock base old new in poll_tests r clock d : C _).
Proof using EL Hk.
  unfold notify_phase, trigger_tests, poll_tests, poll_result, set_test. apply kept_bind; [auto 10 with keeps|]. intros _. apply kept_bind.
  - apply yields_on_current. intros env He. do 3 (case_match; [|auto with keeps]). apply kept_bind; [auto with keeps|].
    intros [runID|e]; auto 10 with keeps.
  - intros _. apply yields_on_current. intros env He. do 2 (case_match; [|auto with keeps]). cbv zeta. case_match; [|auto with keeps].
    case_match; [auto 10 with keeps|]. apply kept_bind; [auto with keeps|]. intros x. apply kept_bind; [|intros _; apply yields_on_current; auto with keeps].
    destruct x as [[result|]|]; auto 10 with keeps.
Qed.

(** ** Teardown *)
Lemma teardown_routes_keep dflt env routes : keeps (teardown_routes r dflt env routes : C _).
Proof. induction routes as [|route routes IH]; cbn [teardown_routes]; auto with keeps. Qed.
Lemma release_keeps env : located env -> keeps (release r env : C _).
Proof using EL Hk.
  intros He. unfold release. apply kept_bind; [|auto with keeps]. apply kept_envs, spares_update. by apply (located_out env).
Qed.
Lemma finish_teardown_keeps env errs : located env -> keeps (finish_teardown r clock env errs : C _).
Proof using EL NL SL Hk.
  intros He. pose proof (located_ns env He) as Hns. pose proof (release_keeps env He). unfold finish_teardown, teardown_features, delete_namespace.
  apply kept_bind; [apply keeps_secrets, spares_delete; by apply preview_out|]. intros x. cbv zeta.
  apply kept_bind; [destruct (getFeatureProvider r env) as [[p|]|]; auto with keeps|]. intros fs.
  apply kept_bind; [|auto with keeps]. case_match; [|auto with keeps]. apply kept_bind; [|auto with keeps].
  apply keeps_namespaces, spares_delete. apply (namespace_out _ env Hns). by right.
Qed.
Lemma teardown_keeps env : located env -> keeps (handleTeardown r clock env : C _).
Proof using EL NL SL Hk.
  intros He. unfold handleTeardown, teardown_deployer, teardown_async, teardown_database, await_workloads. case_match; [|auto with keeps].
  apply kept_bind; [auto with keeps|]. intros _. apply kept_bind; [auto with keeps|]. intros _. apply kept_bind; [auto with keeps|]. intros _.
  apply kept_bind; [auto with keeps|]. intros e1. apply kept_bind; [case_match; auto using teardown_routes_keep with keeps|]. intros e2.
  apply kept_bind; [auto with keeps|]. intros x. apply kept_bind; [auto 10 with keeps|]. intros [e4 opened].
  apply yields_deferred; [case_match; auto with keeps|]. apply kept_bind; [auto 10 with keeps|]. intros e5. by apply finish_teardown_keeps.
Qed.

(** ** The run *)
Lemma live_keeps base : keeps (reconcile_live r clock schedule banner_script base : C _).
Proof using EL NL LL PL JL SL ML AL NVL SVL MVL Hk HNS.
  unfold reconcile_live, reconcileLifecycle. apply kept_bind; [auto with keeps|]. intros _. apply kept_bind; [apply provisioning_keeps|]. intros _.
  apply kept_bind; [apply deploy_keeps|]. intros _. apply yields_on_current. intros env He. cbv zeta.
  apply kept_bind; [auto with keeps|]. intros _. apply kept_bind; [auto with keeps|]. intros _. apply kept_bind; [|auto with keeps].
  apply kept_bind; [apply lifetime_keeps|]. intros d. apply kept_bind; [apply idle_keeps|]. intros _. apply tests_keep.
Qed.
Lemma with_commit_located env : located env -> located (with_commit env).
Proof. unfold with_commit. cbv zeta. by destruct (_ && _). Qed.
Lemma add_finalizer_keeps env : located env -> keeps (add_finalizer r env : C _).
Proof using EL Hk.
  intros He. unfold add_finalizer. apply (yields_bind _ _ (fun x => forall env', x = Ok env' -> located env')).
  - apply yields_envs; [apply spares_update; by apply (located_out env)|]. intros e env' Hx. red in He |- *. rewrite <- He.
    by apply update_key_of in Hx as ->.
  - intros [env'|e] Hx; [|auto with keeps]. apply kept_bind; [apply keeps_mutate; auto|auto with keeps].
Qed.
Lemma reconcile_keeps env : located env -> keeps (reconcile_env r clock schedule banner_script env : C _).
Proof using EL NL LL PL JL SL ML AL NVL SVL MVL Hk HNS.
  intros He. unfold reconcile_env. case_match; [by apply teardown_keeps|]. apply kept_bind; [apply keeps_mutate, with_commit_located|].
  intros _. case_match; [apply live_keeps|]. by apply add_finalizer_keeps, with_commit_located.
Qed.
End Keeps.

(** C4: a run on an environment of [NS] leaves every object of every kind as
    it is whose namespace is neither [NS] nor the preview namespace of an
    environment of [NS], whatever its spec asks for and the providers do. *)
Theorem run_stays_in_namespace NS NM k (w w' : W) o : NS <> [] -> outside NS (fst k) ->
  Reconcile r clock schedule banner_script (NS, NM) w = (o, w') -> view_at k w' = view_at k w.
Proof using EL NL LL PL JL SL ML AL NVL SVL MVL.
  intros Hn Hk Hr. unfold Reconcile, reconcile_body, bind, on_envs, on in Hr.
  pose proof (obj_Get_pure (Ob := Environment) (NS, NM) (ew_envs w)) as Hp.
  pose proof (fun env => get_key (L := EL) (NS, NM) (ew_envs w) env) as Hg.
  destruct (obj_Get (NS, NM) (ew_envs w)) as [[env|e] x]; cbn in Hp, Hg; subst x.
  - assert (forall w1 : W, kept NS NM k (view_at k w) w1 -> view_at k (snd (reconcile_env r clock schedule banner_script env w1)) = view_at k w) as Hrun.
    { intros w1 Hw1. pose proof (reconcile_keeps NS NM Hn k Hk (view_at k w) env (Hg env eq_refl) w1 Hw1) as Ht.
      destruct (reconcile_env _ _ _ _ env w1) as [[o1|u] w2]; [apply Ht|apply Ht]. }
    match type of Hr with context [mutate _ ?w0] => specialize (Hrun (snd (mutate (fun _ => env) w0 : _ * W))) end.
    cbn in Hr. match type of Hr with context [reconcile_env _ _ _ _ env ?w1] => specialize (Hrun ltac:(split; [exact (Hg env eq_refl)|done])); cbn in Hrun;
      destruct (reconcile_env r clock schedule banner_script env w1) as [[o1|u] w2] end; injection Hr as <- <-; exact Hrun.
  - destruct e; injection Hr as <- <-; done.
Qed.
End Scope.
