(* ===== verification/EnvTrace.v ===== *)
(** * The trace of a run of the environment controller

    What a run does is added to the trace.  "Running" is recorded last, and
    only of an environment whose providers were all called with success. *)

From S2P Require Import Prelude GoSort GoStrings GoCrypto GoTime GoFloat TokenStore KubeApi AgentTask ResourceNames.
From S2P Require Import EnvTypes Conditions EarlyReturn ObjectApi Resources HookJobs EnvStatus EnvWorld.
From S2P Require Import EnvDrift EnvQuota EnvProvision EnvController.
Local Open Scope Z_scope.

Section Trace.
Context {U : GoUnicode} {O : ConditionOps} {Q : QuantityOps} {R : MapOrder} {E N L P J S M A X : Type}.
Context {EA : ObjectApi Environment E} {NA : ObjectApi Namespace N} {LA : ObjectApi Guard L} {PA : ObjectApi Workload P}.
Context {JA : ObjectApi Job J} {SA : ObjectApi Secret S} {MA : ObjectApi ConfigMap M} {AA : ObjectApi AtlasCR A}.
Context {NV : UpsertApi Namespace N} {SV : UpsertApi Secret S} {MV : UpsertApi ConfigMap M}.
Abbreviation W := (env_world E N L P J S M A X).
Abbreviation C := (run (outcome gostring) W).
Context (r : EnvironmentReconciler X) (clock : env_readings) (schedule : nat -> list nat) (banner_script : gostring).

(** [m] adds events to the trace, none of which says Running. *)
Definition modest (e : env_event) : Prop := e <> Recorded #"Running".
Definition adds {B} (m : C B) : Prop := forall w, exists l, ew_events (snd (m w)) = ew_events w ++ l /\ Forall modest l.
Lemma adds_none {B} (m : C B) : leaves_of (ew_events : W -> _) m -> adds m.
Proof. intros H w. exists []. by rewrite H, app_nil_r. Qed.
Lemma adds_bind {B D} (m : C B) (f : B -> C D) : adds m -> (forall b, adds (f b)) -> adds (bind m f).
Proof.
  intros Hm Hf w. destruct (Hm w) as (l & Hl & Hq). unfold bind. destruct (m w) as [[o|b] w1]; [by exists l|].
  destruct (Hf b w1) as (l' & Hl' & Hq'). exists (l ++ l'). cbn in Hl. by rewrite Hl', Hl, app_assoc, Forall_app.
Qed.
Lemma adds_deferred {B} (d : C unit) (m : C B) : adds d -> adds m -> adds (deferred d m).
Proof.
  intros Hd Hm w. destruct (Hm w) as (l & Hl & Hq). unfold deferred. destruct (m w) as [x w1]. cbn in *.
  destruct (Hd w1) as (l' & Hl' & Hq'). exists (l ++ l'). by rewrite Hl', Hl, app_assoc, Forall_app.
Qed.
Lemma adds_when b m : adds m -> adds (when b m).
Proof. intros H. destruct b; [done|]. by apply adds_none. Qed.
Lemma adds_emit e : modest e -> adds (emit e).
Proof. intros H w. exists [e]. split; [done|]. by repeat constructor. Qed.
Lemma adds_record reason : reason <> #"Running" -> adds (record reason).
Proof. intros H. apply adds_emit. by intros [=]. Qed.
Lemma adds_on {B} (f : W -> B * W) : (forall w, ew_events (snd (f w)) = ew_events w) -> adds (on f).
Proof. intros H. by apply adds_none, leaves_of_on. Qed.
Lemma adds_mutate f : adds (mutate f).
Proof. by apply adds_none. Qed.
(** Calls on the stores and the providers. *)
Ltac store := intros; apply adds_on; intros ?; match goal with |- context [let '(_, _) := ?c in _] => by destruct c end.
Lemma adds_envs {B} (f : E -> B * E) : adds (on_envs f). Proof. store. Qed.
Lemma adds_namespaces {B} (f : N -> B * N) : adds (on_namespaces f). Proof. store. Qed.
Lemma adds_limits {B} (f : L -> B * L) : adds (on_limits f). Proof. store. Qed.
Lemma adds_quotas {B} (f : L -> B * L) : adds (on_quotas f). Proof. store. Qed.
Lemma adds_netpols {B} (f : L -> B * L) : adds (on_netpols f). Proof. store. Qed.
Lemma adds_deployments {B} (f : P -> B * P) : adds (on_deployments f). Proof. store. Qed.
Lemma adds_statefulsets {B} (f : P -> B * P) : adds (on_statefulsets f). Proof. store. Qed.
Lemma adds_hooks {B} (f : hook_world J S M A -> B * hook_world J S M A) : adds (on_hooks f). Proof. store. Qed.
Lemma adds_secrets {B} (f : S -> B * S) : adds (on_secrets f). Proof. apply adds_hooks. Qed.
Lemma adds_configmaps {B} (f : M -> B * M) : adds (on_configmaps f). Proof. apply adds_hooks. Qed.
Lemma adds_ext {B} (f : X -> B * X) : adds (on_ext f). Proof. store. Qed.
Create HintDb trace.
Hint Resolve adds_none adds_mutate adds_emit adds_record adds_envs adds_namespaces adds_limits adds_quotas adds_netpols
  adds_deployments adds_statefulsets adds_hooks adds_secrets adds_configmaps adds_ext leaves_of_ret leaves_of_finish adds_when adds_deferred : trace.
Hint Extern 1 (modest _) => discriminate : trace.
Hint Extern 1 (_ <> #"Running") => by vm_compute : trace.
Hint Extern 1 (leaves_of _ _) => done : trace.
Hint Extern 2 (forall _, adds _) => intros ? : trace.
Hint Extern 3 (adds (match ?x with _ => _ end)) => destruct x : trace.
Hint Extern 3 (adds (bind _ _)) => apply adds_bind : trace.
Ltac quiet := auto 60 with trace.

Lemma adds_provider {B} what (f : call X B) : adds (provider what f).
Proof. unfold provider. quiet. Qed.
Lemma adds_status f : adds (set_status f).
Proof. unfold set_status. quiet. Qed.
Lemma adds_condition ty st reason msg : adds (set_condition ty st reason msg).
Proof. apply adds_status. Qed.
Hint Resolve adds_provider adds_status adds_condition : trace.
Lemma adds_notify n : adds (notify r n).
Proof. unfold notify. quiet. Qed.
Lemma adds_commit s d : adds (commit_status r s d).
Proof. unfold commit_status. quiet. Qed.
Lemma adds_update {B} base err d : adds (updateStatusWithRequeue (B := B) r base err d).
Proof. unfold updateStatusWithRequeue. quiet. Qed.
Hint Resolve adds_notify adds_commit adds_update : trace.
Lemma adds_step_failed {B} base ty reason err : adds (step_failed (B := B) r base ty reason err).
Proof. unfold step_failed, notifyFailed. quiet. Qed.
Lemma adds_step_ended {B} base ty reason msg err d : adds (step_ended (B := B) r base ty reason msg err d).
Proof. unfold step_ended. quiet. Qed.
Hint Resolve adds_step_failed adds_step_ended : trace.
(** ** Drift and quotas *)
Lemma adds_get_all {Sp : Type} (get : obj_key -> C (ares (Object Sp unit))) what ks : (forall k, adds (get k)) -> adds (get_all r get what ks).
Proof. intros Hg. induction ks as [|k ks IH]; cbn [get_all]; quiet. Qed.
Hint Resolve adds_get_all : trace.
Lemma adds_fingerprint env : adds (computeBaselineFingerprint r env).
Proof. unfold computeBaselineFingerprint, manifest_keys, listed_keys. quiet. Qed.
Hint Resolve adds_fingerprint : trace.
Lemma adds_persist k v : adds (persistAnnotation k v).
Proof. unfold persistAnnotation. quiet. Qed.
Hint Resolve adds_persist : trace.
Lemma adds_drift : adds (reconcileBaselineDrift r).
Proof. unfold reconcileBaselineDrift. quiet. Qed.
Lemma adds_first_error {B} (f : B -> C (option gostring)) l : (forall b, adds (f b)) -> adds (first_error f l).
Proof. intros Hf. induction l as [|b l IH]; cbn [first_error]; quiet. Qed.
Hint Resolve adds_drift adds_first_error : trace.
Lemma adds_scale what on_workloads name ns : (forall B f, adds (on_workloads B f)) -> adds (scale_down r what on_workloads name ns).
Proof. intros H. unfold scale_down, scale_to_zero. quiet. Qed.
Hint Resolve adds_scale : trace.
Lemma adds_hibernate env : adds (hibernateEnvironment r env).
Proof. unfold hibernateEnvironment, scale_namespace. quiet. Qed.
Hint Resolve adds_hibernate : trace.
Lemma adds_hibernate_all victims : adds (hibernate_all r victims).
Proof. induction victims as [|v victims IH]; cbn [hibernate_all]; quiet. Qed.
Lemma adds_refuse base reason msg : adds (refuse r base reason msg).
Proof. unfold refuse. quiet. Qed.
Hint Resolve adds_hibernate_all adds_refuse : trace.
Lemma adds_quota base : adds (reconcileNamespaceQuota r clock base).
Proof. unfold reconcileNamespaceQuota. quiet. Qed.
Hint Resolve adds_quota : trace.

(** ** Provisioning *)
Lemma adds_ensure_guard (on_guards : forall B, (L -> B * L) -> C B) what g : (forall B f, adds (on_guards B f)) -> adds (ensure_guard r on_guards what g).
Proof. intros H. unfold ensure_guard. quiet. Qed.
Hint Resolve adds_ensure_guard : trace.
Lemma adds_namespace_step base : adds (namespace_step r base).
Proof. unfold namespace_step, ensureNamespace. quiet. Qed.
Lemma adds_quota_step base : adds (quota_step r clock base).
Proof. unfold quota_step. quiet. Qed.
Lemma adds_secret_refs base : adds (check_secret_refs r base).
Proof. unfold check_secret_refs. quiet. Qed.
Lemma adds_setup base db : adds (setup_step r base db).
Proof. unfold setup_step, RunSetupSQL. quiet. Qed.
Lemma adds_db_secret env vars : adds (ensureDatabaseEnvSecret r env vars).
Proof. unfold ensureDatabaseEnvSecret. quiet. Qed.
Hint Resolve adds_namespace_step adds_quota_step adds_secret_refs adds_setup adds_db_secret : trace.
Lemma adds_secret_step base db : adds (secret_step r base db).
Proof. unfold secret_step. quiet. Qed.
Lemma adds_migration_failed base blocking reason err : adds (migration_failed r base blocking reason err).
Proof. unfold migration_failed, set_migration, notifyFailed. quiet. Qed.
Hint Resolve adds_secret_step adds_migration_failed : trace.
Lemma adds_migration base db : adds (migration_step r base db).
Proof. unfold migration_step, set_migration. quiet. Qed.
Hint Resolve adds_migration : trace.
Lemma adds_database_step base db : adds (database_step r base db).
Proof. unfold database_step. quiet. Qed.
Lemma adds_provision_database base : adds (provision_database r base).
Proof. unfold provision_database. quiet. Qed.
Lemma adds_routing base : adds (routing_step r base).
Proof. unfold routing_step. quiet. Qed.
Lemma adds_routes dflt env routes order made err : adds (provision_routes r dflt env routes order made err).
Proof. revert made err. induction order as [|i order IH]; intros; cbn [provision_routes]; quiet. Qed.
Hint Resolve adds_database_step adds_provision_database adds_routing adds_routes : trace.
Lemma adds_async base : adds (async_step r schedule base).
Proof. unfold async_step, async_conflict. quiet. Qed.
Lemma adds_remove_banner k : adds (remove_banner r k).
Proof. unfold remove_banner. quiet. Qed.
Hint Resolve adds_async adds_remove_banner : trace.
Lemma adds_banner : adds (banner_step r banner_script).
Proof. unfold banner_step, ensureBannerConfigMap. quiet. Qed.
Lemma adds_features base : adds (features_step r base).
Proof. unfold features_step, call_feature. quiet. Qed.
Hint Resolve adds_banner adds_features : trace.
Lemma adds_provisioning base : adds (reconcileProvisioning r clock schedule banner_script base).
Proof. unfold reconcileProvisioning. quiet. Qed.

(** ** The deployment and the lifetime *)
Lemma adds_deploy base : adds (reconcileDeploy r base).
Proof. unfold reconcileDeploy, deploy_services, inject_fingerprint. quiet. Qed.
Lemma adds_lifetime : adds (lifetime r clock).
Proof. unfold lifetime. quiet. Qed.
Lemma adds_idle : adds (hibernate_idle r clock).
Proof. unfold hibernate_idle. quiet. Qed.
Lemma adds_phase oldPhase newPhase : adds (notify_phase r oldPhase newPhase).
Proof. unfold notify_phase. quiet. Qed.
Lemma adds_trigger base oldPhase newPhase : adds (trigger_tests r clock base oldPhase newPhase).
Proof. unfold trigger_tests. quiet. Qed.
Lemma adds_poll d : adds (poll_tests r clock d).
Proof. unfold poll_tests, poll_result, set_test. quiet. Qed.
Hint Resolve adds_provisioning adds_deploy adds_lifetime adds_idle adds_phase adds_trigger adds_poll : trace.
Lemma adds_lifecycle base oldPhase newPhase : adds (reconcileLifecycle r clock base oldPhase newPhase).
Proof. unfold reconcileLifecycle. quiet. Qed.

(** ** Teardown *)
Lemma adds_teardown_routes dflt env routes : adds (teardown_routes r dflt env routes).
Proof. induction routes as [|route routes IH]; cbn [teardown_routes]; quiet. Qed.
Hint Resolve adds_lifecycle adds_teardown_routes : trace.
Lemma adds_release env : adds (release r env).
Proof. unfold release. quiet. Qed.
Hint Resolve adds_release : trace.
Lemma adds_finish_teardown env errs : adds (finish_teardown r clock env errs).
Proof. unfold finish_teardown, teardown_features, delete_namespace. quiet. Qed.
Hint Resolve adds_finish_teardown : trace.
Lemma adds_teardown env : adds (handleTeardown r clock env).
Proof. unfold handleTeardown, teardown_deployer, teardown_async, teardown_database, await_workloads. quiet. Qed.
Lemma adds_add_finalizer env : adds (add_finalizer r env).
Proof. unfold add_finalizer. quiet. Qed.

(** ** What a run went through *)
Lemma still {B} (m : C B) e (w : W) : adds m -> e ∈ ew_events w -> e ∈ ew_events (snd (m w)).
Proof. intros H He. destruct (H w) as (l & -> & _). apply elem_of_app. by left. Qed.
Lemma still_run {B} (m : C B) e (w : W) x w' : adds m -> m w = (x, w') -> e ∈ ew_events w -> e ∈ ew_events w'.
Proof. intros H Hm He. pose proof (still m e w H He) as Hs. by rewrite Hm in Hs. Qed.
Lemma called_ok {B} what (f : call X B) (w : W) b w' : provider what f w = (inr (Ok b), w') -> Called what false ∈ ew_events w'.
Proof.
  intros (x & w1 & _ & H)%bind_gives. apply bind_gives in H as ([] & w2 & [= <-] & [= -> <-]). cbn. apply elem_of_app. right. by left.
Qed.
Lemma failed_ends {B} base ty reason err (b : B) (w w' : W) : step_failed r base ty reason err w = (inr b, w') -> False.
Proof.
  unfold step_failed. intros ([] & w1 & _ & H)%bind_gives. apply bind_gives in H as ([] & w2 & _ & H). revert H.
  unfold updateStatusWithRequeue. intros (env & w3 & _ & H)%bind_gives. apply bind_gives in H as (x & w4 & _ & H).
  destruct x; [|done]. apply bind_gives in H as ([] & w5 & _ & H). done.
Qed.
Lemma routed base (w w' : W) : routing_step r base w = (inr tt, w') -> Called #"routing" false ∈ ew_events w'.
Proof.
  unfold routing_step. intros (env & w1 & _ & H)%bind_gives. apply bind_gives in H as (x & w2 & Hx & H).
  destruct x as [[]|e]; [|by apply failed_ends in H]. apply called_ok in Hx. eapply (still_run _ _ w2); [|exact H|exact Hx]. quiet.
Qed.
Lemma database_called base (w : W) x w' : provision_database r base w = (inr x, w') ->
  match resolveDatabaseProvider r (ew_cur w) false with Ok (Some _, _, _) => Called #"database" false ∈ ew_events w' | Ok _ => True | Err _ => False end.
Proof.
  unfold provision_database. intros (env & w1 & [= <- <-] & H)%bind_gives.
  destruct (resolveDatabaseProvider r (ew_cur w) false) as [[[[p|] fresh] name]|e]; [|done|by apply failed_ends in H].
  apply bind_gives in H as ([] & w2 & _ & H). apply bind_gives in H as (env & w3 & _ & H). apply bind_gives in H as (y & w4 & Hy & H).
  destruct y as [db|e]; [apply called_ok in Hy; by injection H as _ <-|]. exfalso. unfold deferred in H.
  destruct (step_failed _ _ _ _ _ w4) as [[o|b] w5] eqn:Ef; [done|by apply failed_ends in Ef].
Qed.
(** A preview is synced by a deployment. *)
Lemma drift_synced drift (w w' : W) : reconcileBaselineDrift r w = (inr (Ok (drift, true)), w') -> is_Some (er_Deployer r) -> Called #"deploy" false ∈ ew_events w'.
Proof.
  intros H [d Hd]. unfold reconcileBaselineDrift in H. rewrite Hd in H. apply bind_gives in H as (env & w1 & _ & H). destruct (drift_ignored env); [done|].
  apply bind_gives in H as (x & w2 & _ & H). destruct x as [fp|e]; [|done]. destruct (str_eqb fp []); [done|]. cbv zeta in H.
  destruct (str_eqb _ []); [apply bind_gives in H as ([[]|e] & w3 & _ & H); [by apply bind_gives in H as ([] & w4 & _ & H)|done]|].
  destruct (str_eqb _ fp); [by apply bind_gives in H as ([] & w4 & _ & H)|].
  destruct (str_eqb _ DriftPolicySync).
  - apply bind_gives in H as ([] & w3 & _ & H). apply bind_gives in H as (x & w4 & Hx & H). apply bind_gives in H as ([] & w5 & H5 & H).
    apply bind_gives in Hx as (env' & w6 & _ & Hx). destruct x as [[]|e]; [|done]. apply called_ok in Hx.
    eapply (still_run _ _ w5); [|exact H|by injection H5 as <-]. quiet.
  - apply bind_gives in H as ([] & w3 & _ & H). by apply bind_gives in H as ([] & w4 & _ & H).
Qed.
Lemma deployed base (w w' : W) : reconcileDeploy r base w = (inr tt, w') -> is_Some (er_Deployer r) -> Called #"deploy" false ∈ ew_events w'.
Proof.
  intros H [d Hd]. unfold reconcileDeploy in H. apply bind_gives in H as (env & w1 & [= <- <-] & H). apply bind_gives in H as (synced & w2 & Hs & H).
  apply bind_gives in H as ([] & w3 & Hdep & H). eapply (still_run _ _ w3); [|exact H|]; [quiet|]. clear H. destruct synced.
  - injection Hdep as <-. destruct (str_eqb _ []); [done|]. apply bind_gives in Hs as (x & w4 & Hr & Hs).
    destruct x as [[drift b]|e]; [|by apply failed_ends in Hs]. injection Hs as -> <-. apply drift_synced in Hr; [done|]. by eexists.
  - revert Hdep. unfold deploy_services. rewrite Hd. intros (env & w4 & _ & H)%bind_gives. apply bind_gives in H as (inj & w5 & _ & H).
    apply bind_gives in H as (env' & w6 & _ & H). apply bind_gives in H as (x & w7 & Hx & H).
    destruct x as [[]|e]; [|apply bind_gives in H as ([] & w8 & _ & H); by apply failed_ends in H].
    apply called_ok in Hx. eapply (still_run _ _ w7); [|exact H|exact Hx]. quiet.
Qed.
(** The steps before the phase. *)
Definition prepared (w : W) : Prop :=
  Called #"routing" false ∈ ew_events w /\ (is_Some (er_Deployer r) -> Called #"deploy" false ∈ ew_events w) /\
  (is_Some (er_DatabaseProvider r) -> (forall name, Create (er_databases r) name <> Ok None) -> Called #"database" false ∈ ew_events w).
Lemma prepared_still {B} (m : C B) (w : W) : adds m -> prepared w -> prepared (snd (m w)).
Proof. intros Hm (H1 & H2 & H3). split_and!; intros; apply (still m); auto. Qed.
Lemma resolves_to_none env fresh name : resolveDatabaseProvider r env false = Ok (None, fresh, name) -> is_Some (er_DatabaseProvider r) ->
  exists name', Create (er_databases r) name' = Ok None.
Proof.
  intros H [p Hp]. unfold resolveDatabaseProvider in H. cbv zeta in H. rewrite andb_false_l, Hp in H. unfold create_database in H.
  repeat case_match; try done; injection H as [=]; subst; eauto.
Qed.
Lemma provisioned base (w w' : W) : reconcileProvisioning r clock schedule banner_script base w = (inr tt, w') ->
  Called #"routing" false ∈ ew_events w' /\
  (is_Some (er_DatabaseProvider r) -> (forall name, Create (er_databases r) name <> Ok None) -> Called #"database" false ∈ ew_events w').
Proof.
  unfold reconcileProvisioning. intros ([] & w1 & _ & H)%bind_gives. apply bind_gives in H as ([] & w2 & _ & H). apply bind_gives in H as ([] & w3 & _ & H).
  apply bind_gives in H as ([db opened] & w4 & Hd & H). apply database_called in Hd. unfold deferred in H.
  destruct ((do! database_step r base db in _) w4) as [x w5] eqn:H5. injection H as -> <-.
  apply bind_gives in H5 as ([] & w6 & H6 & H5). apply bind_gives in H5 as ([] & w7 & H7 & H5). apply routed in H7 as Hr.
  assert (Called #"routing" false ∈ ew_events w5) as Hr5 by (eapply (still_run _ _ w7); [|exact H5|exact Hr]; quiet).
  split.
  - apply still; [quiet|done].
  - intros Hp Hc. destruct (resolveDatabaseProvider r (ew_cur w3) false) as [[[[p|] fresh] name]|e] eqn:Er.
    + apply still; [quiet|]. eapply (still_run _ _ w7); [|exact H5|]; [quiet|]. eapply (still_run _ _ w6); [|exact H7|]; [quiet|].
      eapply (still_run _ _ w4); [|exact H6|exact Hd]. quiet.
    + destruct (resolves_to_none _ _ _ Er Hp) as [name' Hn]. by destruct (Hc name').
    + done.
Qed.
Definition grows {B} (m : C B) : Prop := forall w, exists l, ew_events (snd (m w)) = ew_events w ++ l.
Lemma adds_grows {B} (m : C B) : adds m -> grows m.
Proof. intros H w. destruct (H w) as (l & Hl & _). by exists l. Qed.
Lemma grows_bind {B D} (m : C B) (f : B -> C D) : grows m -> (forall b, grows (f b)) -> grows (bind m f).
Proof.
  intros Hm Hf w. unfold bind. destruct (Hm w) as (l & Hl). destruct (m w) as [[o|b] w1]; [by exists l|]. destruct (Hf b w1) as (l' & Hl').
  exists (l ++ l'). cbn in Hl. by rewrite Hl', Hl, app_assoc.
Qed.
(** From [Pre], [m] says Running only when all is prepared. *)
Definition honest {B} (Pre : W -> Prop) (m : C B) : Prop := forall w, Pre w -> exists l, ew_events (snd (m w)) = ew_events w ++ l /\
  (Recorded #"Running" ∈ l -> prepared (snd (m w))).
Lemma honest_adds {B} (m : C B) : adds m -> honest (fun _ => True) m.
Proof.
  intros H w _. destruct (H w) as (l & Hl & Hq). exists l. split; [done|]. intros Hin. rewrite Forall_forall in Hq. by destruct (Hq _ Hin).
Qed.
Lemma honest_prepared {B} (m : C B) : grows m -> honest prepared m.
Proof.
  intros H w (H1 & H2 & H3). destruct (H w) as (l & Hl). exists l. split; [done|]. intros _. unfold prepared. rewrite Hl.
  split_and!; intros; apply elem_of_app; left; auto.
Qed.
Lemma honest_bind {B D} (Pre Post : W -> Prop) (m : C B) (f : B -> C D) : adds m -> (forall w b w', Pre w -> m w = (inr b, w') -> Post w') ->
  (forall b, honest Post (f b)) -> honest Pre (bind m f).
Proof.
  intros Hm Hp Hf w Hw. destruct (Hm w) as (l & Hl & Hq). unfold bind. destruct (m w) as [[o|b] w1] eqn:Em.
  - exists l. split; [done|]. intros Hin. rewrite Forall_forall in Hq. by destruct (Hq _ Hin).
  - destruct (Hf b w1 (Hp _ _ _ Hw Em)) as (l' & Hl' & Hr). exists (l ++ l'). cbn in Hl. rewrite Hl', Hl, app_assoc. split; [done|].
    intros [Hin|Hin]%elem_of_app; [|by apply Hr]. rewrite Forall_forall in Hq. by destruct (Hq _ Hin).
Qed.
Lemma honest_then {B D} (m : C B) (f : B -> C D) : adds m -> (forall b, honest (fun _ => True) (f b)) -> honest (fun _ => True) (bind m f).
Proof. intros Hm Hf. apply (honest_bind _ (fun _ => True)); [done|auto|done]. Qed.
Lemma honest_live base : honest (fun _ => True) (reconcile_live r clock schedule banner_script base).
Proof.
  unfold reconcile_live. apply honest_then; [quiet|]. intros _.
  apply (honest_bind _ (fun w => Called #"routing" false ∈ ew_events w /\
    (is_Some (er_DatabaseProvider r) -> (forall name, Create (er_databases r) name <> Ok None) -> Called #"database" false ∈ ew_events w)));
    [quiet|intros w [] w' _; apply provisioned|]. intros _.
  apply (honest_bind _ prepared); [quiet| |].
  { intros w [] w' [H1 H2] Hd. split_and!; [eapply (still_run _ _ w); [|exact Hd|exact H1]; quiet|by eapply deployed|].
    intros Hp Hc. eapply (still_run _ _ w); [|exact Hd|by apply H2]. quiet. }
  intros _. apply honest_prepared. apply grows_bind; [apply adds_grows; quiet|]. intros env. cbv zeta.
  apply grows_bind; [apply adds_grows; quiet|]. intros _. apply grows_bind; [destruct (str_eqb _ _); intros w; [by eexists|]; exists []; cbn; by rewrite app_nil_r|].
  intros _. apply grows_bind; [apply adds_grows, adds_lifecycle|]. intros d. apply adds_grows. quiet.
Qed.
Lemma honest_body key : honest (fun _ => True) (reconcile_body r clock schedule banner_script key).
Proof.
  unfold reconcile_body. apply honest_then; [quiet|]. intros [env|e]; [|apply honest_adds; quiet]. apply honest_then; [quiet|]. intros _.
  unfold reconcile_env. destruct (ev_DeletionTimestamp env); [apply honest_adds, adds_teardown|]. apply honest_then; [quiet|]. intros _.
  destruct (bool_decide _); [apply honest_live|apply honest_adds, adds_add_finalizer].
Qed.
(** C12: when a run reports that an environment is running, the router has
    answered with success in that run, and so have the deployer and the
    database provider of a controller that has them. *)
Theorem running_is_provisioned key (w w' : W) o : ew_events w = [] ->
  Reconcile r clock schedule banner_script key w = (o, w') -> Recorded #"Running" ∈ ew_events w' -> prepared w'.
Proof.
  intros Hw Hr Hrun. destruct (honest_body key w I) as (l & Hl & Hp). unfold Reconcile in Hr.
  assert (snd (reconcile_body r clock schedule banner_script key w) = w') as Hs by (destruct (reconcile_body _ _ _ _ key w) as [[o1|u] w1]; by injection Hr as _ <-).
  rewrite Hs in Hl, Hp. rewrite Hw in Hl. cbn in Hl. apply Hp. by rewrite <- Hl.
Qed.
End Trace.
