(* ===== verification/EnvFacts.v ===== *)
(** * What a run of the environment controller does first and last

    Nothing is provisioned before the finalizer is stored or for an
    environment that names another namespace's Secrets, and the finalizer is
    kept until everything is torn down. *)

From S2P Require Import Prelude GoSort GoStrings GoCrypto GoTime GoFloat TokenStore KubeApi AgentTask ResourceNames.
From S2P Require Import EnvTypes Conditions EarlyReturn ObjectApi Resources HookJobs EnvStatus EnvWorld.
From S2P Require Import EnvDrift EnvQuota EnvProvision EnvController.
Local Open Scope Z_scope.

Section Facts.
Context {U : GoUnicode} {O : ConditionOps} {Q : QuantityOps} {R : MapOrder} {E N L P J S M A X : Type}.
Context {EA : ObjectApi Environment E} {NA : ObjectApi Namespace N} {LA : ObjectApi Guard L} {PA : ObjectApi Workload P}.
Context {JA : ObjectApi Job J} {SA : ObjectApi Secret S} {MA : ObjectApi ConfigMap M} {AA : ObjectApi AtlasCR A}.
Context {NV : UpsertApi Namespace N} {SV : UpsertApi Secret S} {MV : UpsertApi ConfigMap M}.
Context {EL : ObjectApiLaws Environment E} {NL : ObjectApiLaws Namespace N} {SL : ObjectApiLaws Secret S}.
Abbreviation W := (env_world E N L P J S M A X).
Abbreviation C := (run (outcome gostring) W).
Context (r : EnvironmentReconciler X) (clock : env_readings) (schedule : nat -> list nat) (banner_script : gostring).

(** ** Nothing provisioned *)
(** The calls of providers of the trace, and the stores besides that of
    environments. *)
Definition is_call (e : env_event) : Prop := match e with Called _ _ => True | _ => False end.
#[local] Instance is_call_dec e : Decision (is_call e).
Proof. destruct e; apply _. Defined.
Definition provisions (w : W) :=
  (filter is_call (ew_events w), (ew_namespaces w, ew_limits w, ew_quotas w, ew_netpols w, ew_deployments w, ew_statefulsets w, ew_hooks w)).
Abbreviation idle m := (leaves_of provisions m).
Lemma idle_envs {B} (f : E -> B * E) : idle (on_envs f).
Proof. apply leaves_of_on. intros w. by destruct (f _). Qed.
Lemma idle_ext {B} (f : X -> B * X) : idle (on_ext f).
Proof. apply leaves_of_on. intros w. by destruct (f _). Qed.
Lemma idle_emit e : ~ is_call e -> idle (emit e).
Proof. intros He. apply leaves_of_modify. intros w. unfold provisions. cbn. by rewrite filter_app, filter_cons_False, app_nil_r. Qed.
Lemma idle_mutate f : idle (mutate f).
Proof. by apply leaves_of_modify. Qed.
Lemma idle_current : idle current.
Proof. by apply leaves_of_on. Qed.
Hint Resolve idle_envs idle_ext idle_mutate idle_current : leaves.
Hint Extern 1 (idle (emit _)) => apply idle_emit; tauto : leaves.
Hint Extern 1 (idle (record _)) => apply idle_emit; tauto : leaves.
Hint Extern 1 (idle (set_status _)) => apply idle_mutate : leaves.
Hint Extern 1 (idle (set_condition _ _ _ _)) => apply idle_mutate : leaves.
Hint Extern 1 (idle done) => apply leaves_of_finish : leaves.
Hint Extern 1 (idle (fail _)) => apply leaves_of_finish : leaves.
Hint Extern 1 (idle (requeue _)) => apply leaves_of_finish : leaves.
Lemma idle_notify n : idle (notify r n).
Proof. unfold notify. auto 10 with leaves. Qed.
Lemma idle_commit s d : idle (commit_status r s d).
Proof. unfold commit_status. auto 10 with leaves. Qed.
Lemma idle_update {B} base err d : idle (updateStatusWithRequeue (B := B) r base err d).
Proof. unfold updateStatusWithRequeue. auto 10 with leaves. Qed.
Hint Resolve idle_notify idle_commit idle_update : leaves.

(** What follows when a live environment was found. *)
Definition live (env : Environment) : C unit :=
  if bool_decide (environmentFinalizer ∈ ev_Finalizers env) then reconcile_live r clock schedule banner_script env
  else add_finalizer r (with_commit env).
Lemma live_env_run key (w w' : W) o env : fst (obj_Get key (ew_envs w)) = Ok env -> ev_DeletionTimestamp env = None ->
  Reconcile r clock schedule banner_script key w = (o, w') ->
  exists w1, provisions w1 = provisions w /\ ew_envs w1 = ew_envs w /\ ew_ext w1 = ew_ext w /\ ew_cur w1 = with_commit env /\
    match live env w1 with (inl o1, w2) => o = o1 /\ w' = w2 | (inr _, w2) => o = mkOutcome 0 None /\ w' = w2 end.
Proof using EL.
  intros Hg Hd Hr. unfold Reconcile, reconcile_body, bind at 1, on_envs, on at 1 in Hr. pose proof (obj_Get_pure (Ob := Environment) key (ew_envs w)) as Hp.
  destruct (obj_Get key (ew_envs w)) as [x e]. cbn in Hg, Hp. subst x e. unfold bind at 1, mutate at 1, modify at 1 in Hr. cbv beta iota in Hr.
  unfold reconcile_env in Hr. rewrite Hd in Hr. unfold bind at 1, mutate at 1, modify at 1 in Hr. cbv beta iota in Hr. fold (live env) in Hr.
  match type of Hr with context [live env ?w1] => exists w1 end. split_and!; try done. 
  destruct (live env _) as [[o1|u] w2]; by injection Hr as <- <-.
Qed.
Lemma with_commit_meta env : r_key (with_commit env) = r_key env /\ ev_Finalizers (with_commit env) = ev_Finalizers env /\
  ev_DeletionTimestamp (with_commit env) = ev_DeletionTimestamp env.
Proof. unfold with_commit. cbv zeta. by destruct (_ && _). Qed.
(** The tail of the first run leaves the stored environments. *)
Abbreviation envs := (ew_envs : W -> E).
Lemma envs_ext {B} (f : X -> B * X) : leaves_of envs (on_ext f).
Proof. apply leaves_of_on. intros w. by destruct (f _). Qed.
Lemma envs_current : leaves_of envs current.
Proof. by apply leaves_of_on. Qed.
Lemma envs_emit e : leaves_of envs (emit e).
Proof. by apply leaves_of_modify. Qed.
Lemma envs_mutate f : leaves_of envs (mutate f).
Proof. by apply leaves_of_modify. Qed.
Lemma envs_record reason : leaves_of envs (record reason).
Proof. apply envs_emit. Qed.
Hint Resolve envs_ext envs_current envs_emit envs_mutate envs_record : leaves.
Lemma envs_notify n : leaves_of envs (notify r n).
Proof. unfold notify. auto 10 with leaves. Qed.
Lemma envs_commit s d : leaves_of envs (commit_status r s d).
Proof. unfold commit_status. auto 10 with leaves. Qed.
Lemma envs_provider {B} what (f : call X B) : leaves_of envs (provider what f).
Proof. unfold provider. auto 10 with leaves. Qed.
Hint Resolve envs_notify envs_commit envs_provider : leaves.
Lemma envs_announced env : leaves_of (ew_envs : W -> E) (do! mutate (fun _ => env) in do! notify r EnvironmentCreated in
     do! commit_status r #"pending" #"Preview environment provisioning" in do! record #"Created" in done : C unit).
Proof. auto 10 with leaves. Qed.
Lemma finalizer_stored env cur (w : W) : stored (ew_envs w) !! r_key env = Some cur -> ev_DeletionTimestamp cur = None ->
  match add_finalizer r env w with
  | (inl o, w') => failure o = None -> exists env', stored (ew_envs w') !! r_key env = Some env' /\ environmentFinalizer ∈ ev_Finalizers env'
  | (inr _, _) => True
  end.
Proof using EL.
  intros Hs Hd. unfold add_finalizer, bind at 1, on_envs, on.
  set (new := ev_set_Finalizers (ev_Finalizers env ++ [environmentFinalizer]) env).
  destruct (obj_Update new (ew_envs w)) as [[env'|e] es] eqn:Eu; [|by cbn].
  apply obj_Update_Ok in Eu as (cur' & g & v & Hc & _ & -> & Hst). change (r_key new) with (r_key env) in Hc. rewrite Hs in Hc. injection Hc as <-.
  match goal with |- context [bind (mutate ?f) ?k ?w1] => pose proof (envs_announced (r_update cur new g v) w1) as Hl end.
  destruct (bind (mutate _) _ _) as [[o|u] w2]; [|done]. cbn [snd ew_envs] in Hl. rewrite Hl, Hst. intros _.
  exists (r_update cur new g v). pose proof (stored_key _ _ _ Hs) as Hk. split; [|cbn; apply elem_of_app; right; by left].
  assert (r_key (r_update cur new g v) = r_key env) as Hk' by exact Hk.
  destruct (put_own (r_update cur new g v) (stored (ew_envs w))) as [Hput|(_ & Hfin & _)]; [by rewrite Hk' in Hput|].
  cbn in Hfin. by destruct (ev_Finalizers env).
Qed.
(** the run on an environment without the finalizer stores the finalizer
    and does nothing else: no provider is called and no other object is
    written; and if it reports no failure, the finalizer is stored. *)
Theorem finalizer_first key (w w' : W) o env : fst (obj_Get key (ew_envs w)) = Ok env -> ev_DeletionTimestamp env = None ->
  environmentFinalizer ∉ ev_Finalizers env -> Reconcile r clock schedule banner_script key w = (o, w') ->
  provisions w' = provisions w /\
  (failure o = None -> exists env', stored (ew_envs w') !! key = Some env' /\ environmentFinalizer ∈ ev_Finalizers env').
Proof using EL.
  intros Hg Hd Hf Hr. destruct (live_env_run key w w' o env Hg Hd Hr) as (w1 & Hp & He & _ & _ & Hrun). unfold live in Hrun.
  rewrite bool_decide_false in Hrun by done. assert (stored (ew_envs w) !! key = Some env) as Hs by (by apply obj_Get_Ok).
  destruct (with_commit_meta env) as (Hk & _ & _). rewrite (stored_key _ _ _ Hs) in Hk.
  pose proof (finalizer_stored (with_commit env) env w1) as Hst. rewrite Hk, He in Hst. specialize (Hst Hs Hd).
  assert (idle (add_finalizer r (with_commit env))) as Hi by (unfold add_finalizer; auto 10 with leaves). specialize (Hi w1).
  destruct (add_finalizer _ _ w1) as [[o1|[]] w2] eqn:Ea; destruct Hrun as [-> ->]; [by rewrite <- Hp|].
  exfalso. revert Ea. unfold add_finalizer. intros (u & w3 & _ & H)%bind_gives. destruct u; [|done].
  do 4 apply bind_gives in H as (? & ? & _ & H). done.
Qed.
(** The refusal writes the environment only. *)
Abbreviation ext := (ew_ext : W -> X).
Lemma ext_envs {B} (f : E -> B * E) : leaves_of ext (on_envs f).
Proof. apply leaves_of_on. intros w. by destruct (f _). Qed.
Lemma ext_update {B} base err d : leaves_of ext (updateStatusWithRequeue (B := B) r base err d).
Proof.
  unfold updateStatusWithRequeue. apply leaves_of_bind; [by apply leaves_of_on|]. intros env. apply leaves_of_bind; [apply ext_envs|].
  intros [env'|e]; [|apply leaves_of_finish]. apply leaves_of_bind; [by apply leaves_of_modify|]. intros _. destruct err, (0 <? d); apply leaves_of_finish.
Qed.
Lemma update_ends {B} base err d (w : W) : match updateStatusWithRequeue (B := B) r base err d w with (inl _, _) => True | (inr _, _) => False end.
Proof.
  unfold updateStatusWithRequeue, bind, current, on_envs, on. destruct (obj_Patch _ _ _) as [[env'|e] es]; [|done].
  cbn. by destruct err, (0 <? d).
Qed.
Lemma refs_refused base (w : W) : existsb (cross_namespace (ew_cur w)) (es_EnvFrom (ev_Spec (ew_cur w)) ++ dep_EnvFrom (es_Deploy (ev_Spec (ew_cur w)))) = true ->
  match check_secret_refs r base w with (inl _, w') => provisions w' = provisions w /\ ew_ext w' = ew_ext w | (inr _, _) => False end.
Proof.
  intros Hx. assert (idle (check_secret_refs r base)) as Hi by (unfold check_secret_refs, step_ended; auto 10 with leaves).
  assert (leaves_of ext (check_secret_refs r base)) as He.
  { unfold check_secret_refs, step_ended. apply leaves_of_bind; [by apply leaves_of_on|]. intros env. apply leaves_of_when.
    apply leaves_of_bind; [by apply leaves_of_modify|]. intros _. apply leaves_of_bind; [by apply leaves_of_modify|]. intros _. apply ext_update. }
  specialize (Hi w). specialize (He w). destruct (check_secret_refs r base w) as [[o|u] w'] eqn:Er; [done|].
  unfold check_secret_refs in Er. apply bind_gives in Er as (env & w1 & [= <- <-] & Er). rewrite Hx in Er. cbn [when] in Er.
  apply bind_gives in Er as ([] & w2 & _ & Er). unfold step_ended in Er. apply bind_gives in Er as ([] & w3 & _ & Er).
  pose proof (update_ends (B := unit) base None 0 w3) as Hu. by rewrite Er in Hu.
Qed.

(** ** Teardown *)
(** No provider failed, the Secret and the namespace of the preview are gone
    or being deleted, and the deployer has said that no workload is left. *)
Definition spotless (w : W) : Prop := forall what, Called what true ∉ ew_events w.
Definition gone {Ob St} `{ObjectApiLaws Ob St} (k : obj_key) (st : St) : Prop := forall o : Ob, stored st !! k = Some o -> is_Some (r_deletion o).
Definition workloads_gone (env : Environment) : Prop := forall d, er_Deployer r = Some d -> exists x, fst (deployer_Status d env x) = Ok [].
Definition torn_down (env : Environment) (w : W) : Prop :=
  spotless w /\ workloads_gone env /\ gone (Ob := Secret) (preview_ns env, db_secret_name env) (hw_secrets (ew_hooks w)) /\
  (dep_Namespace (es_Deploy (ev_Spec env)) = #"create" -> gone (Ob := Namespace) ([], PreviewNamespace env) (ew_namespaces w)).
Section Teardown.
Context (env : Environment) (e0 : E).
(** So far: the environments as they were, and no failure without an error. *)
Definition so_far (errs : list gostring) (w : W) : Prop := ew_envs w = e0 /\ (errs = [] -> spotless w).
Definition collects (m : C (list gostring)) : Prop := forall acc,
  triple (so_far acc) m (fun errs => so_far (acc ++ errs)) (fun _ w => ew_envs w = e0).
Lemma collects_ret errs : collects (ret errs).
Proof. intros acc. apply triple_ret. intros w [He Hs]. split; [done|]. intros [-> _]%app_nil. by apply Hs. Qed.
Lemma so_far_more acc errs w : so_far acc w -> so_far (acc ++ errs) w.
Proof. intros [He Hs]. split; [done|]. intros [-> _]%app_nil. by apply Hs. Qed.
Lemma provider_so_far {B} what (f : call X B) acc :
  triple (so_far acc) (provider what f) (fun x w => ew_envs w = e0 /\ (acc = [] -> failed_result x = false -> spotless w)) (fun _ w => ew_envs w = e0).
Proof.
  intros w [He Hs]. unfold provider, bind, on_ext, on, emit, modify. destruct (f (ew_ext w)) as [x y]. cbn. split; [done|].
  intros Ha Hf what' Hin. apply elem_of_app in Hin as [Hin|Hin]; [by apply (Hs Ha what')|].
  apply list_elem_of_singleton in Hin. injection Hin as _ Hx. congruence.
Qed.
(** A call whose error is collected. *)
Lemma collects_call (what text : gostring) (f : call X unit) (k : result gostring unit -> C (list gostring)) :
  (forall x, exists rest, collects rest /\ k x = (let! errs := rest in ret (errors x text ++ errs))) -> collects (let! x := provider what f in k x).
Proof.
  intros Hk acc. eapply triple_bind; [apply provider_so_far|]. intros x. destruct (Hk x) as (rest & Hr & ->).
  intros w [He Hs]. assert (so_far (acc ++ errors x text) w) as Hw.
  { split; [done|]. intros [-> Hx]%app_nil. apply Hs; [done|]. by destruct x. }
  specialize (Hr (acc ++ errors x text) w Hw). unfold bind. destruct (rest w) as [[o|errs] w1]; [done|]. cbn. by rewrite <- app_assoc in Hr.
Qed.
Lemma collects_one what text (f : call X unit) : collects (let! x := provider what f in ret (errors x text)).
Proof.
  intros acc. eapply triple_bind; [apply provider_so_far|]. intros x. apply triple_ret. intros w [He Hs]. split; [done|].
  intros [-> Hx]%app_nil. apply Hs; [done|]. by destruct x.
Qed.
Lemma collects_deployer : collects (teardown_deployer r env).
Proof. unfold teardown_deployer. destruct (er_Deployer r); [apply collects_one|apply collects_ret]. Qed.
Lemma collects_routes dflt routes : collects (teardown_routes r dflt env routes).
Proof.
  induction routes as [|route routes IH]; cbn [teardown_routes]; [apply collects_ret|].
  apply (collects_call _ (#"failed to teardown async route " ++ ar_Protocol route ++ #"/" ++ ar_Target route)). intros x. by eexists.
Qed.
Lemma collects_async : collects (teardown_async r env).
Proof. unfold teardown_async. destruct (er_AsyncProvisioner r); [apply collects_routes|apply collects_ret]. Qed.
Lemma collects_features : collects (teardown_features r env).
Proof. unfold teardown_features. destruct (getFeatureProvider r env) as [[p|]|]; [apply collects_one|apply collects_ret..]. Qed.
Lemma collects_database acc : triple (so_far acc) (teardown_database r env) (fun y => so_far (acc ++ fst y)) (fun _ w => ew_envs w = e0).
Proof.
  unfold teardown_database. destruct (resolveDatabaseProvider r env true) as [[[[p|] fresh] name]|e]; [|apply triple_ret; intros w; apply so_far_more..].
  eapply triple_bind; [apply provider_so_far|]. intros x. apply triple_ret. intros w [He Hs]. split; [done|]. cbn.
  intros [-> Hx]%app_nil. apply Hs; [done|]. by destruct x.
Qed.
Lemma awaited acc : triple (so_far acc) (await_workloads r env)
  (fun errs w => so_far (acc ++ errs) w /\ (errs = [] -> workloads_gone env)) (fun _ w => ew_envs w = e0).
Proof.
  unfold await_workloads, workloads_gone. destruct (er_Deployer r) as [d|].
  - intros w [He Hs]. unfold bind, provider, on_ext, bind, on, emit, modify, ret. destruct (deployer_Status d env (ew_ext w)) as [x y] eqn:Ex. cbn.
    destruct x as [[|l ls]|e]; cbn; [|done|].
    + split; [|intros _ d' [= <-]; exists (ew_ext w); by rewrite Ex]. split; [done|]. rewrite app_nil_r. intros Ha what Hin.
      apply elem_of_app in Hin as [Hin|Hin%list_elem_of_singleton]; [by apply (Hs Ha what)|done].
    + split; [|done]. split; [done|]. by intros [_ ?]%app_nil.
  - apply triple_ret. intros w Hw. split; [by apply so_far_more|done].
Qed.
Lemma deletion_gone {Ob St} `{ObjectApiLaws Ob St, !ResourceLaws Ob} k (st st' : St) x what : obj_Delete (Ob := Ob) None k st = (x, st') ->
  api_errors r x what = [] -> gone (Ob := Ob) k st'.
Proof.
  intros Hd Hx o Ho. destruct x as [[]|[]]; try done; [by eapply Delete_marks|].
  pose proof (obj_Delete_Err _ _ _ _ _ Hd) as Hs. pose proof (obj_Delete_NotFound _ _ _ _ Hd) as Hn. by rewrite Hs, Hn in Ho.
Qed.
Lemma deleted_secret acc : triple (so_far acc) (on_secrets (obj_Delete (Ob := Secret) None (preview_ns env, db_secret_name env)))
  (fun x w => so_far acc w /\ forall what, api_errors r x what = [] -> gone (Ob := Secret) (preview_ns env, db_secret_name env) (hw_secrets (ew_hooks w)))
  (fun _ w => ew_envs w = e0).
Proof using SL.
  intros w Hw. unfold on_secrets, on_hooks, on. destruct (obj_Delete _ _ (hw_secrets (ew_hooks w))) as [x st] eqn:Ed. split; [exact Hw|].
  intros what Hx. cbn. by eapply deletion_gone.
Qed.
Lemma deleted_namespace acc (Keep : hook_world J S M A -> Prop) : triple (fun w => so_far acc w /\ Keep (ew_hooks w)) (delete_namespace r env)
  (fun errs w => (so_far acc w /\ Keep (ew_hooks w)) /\
     (errs = [] -> dep_Namespace (es_Deploy (ev_Spec env)) = #"create" -> gone (Ob := Namespace) ([], PreviewNamespace env) (ew_namespaces w)))
  (fun _ w => ew_envs w = e0).
Proof using NL.
  unfold delete_namespace, str_eqb. case_bool_decide as Hc.
  - intros w Hw. unfold on_namespaces, bind, on, ret. destruct (obj_Delete _ _ (ew_namespaces w)) as [x st] eqn:Ed. split; [exact Hw|].
    intros Hx _. cbn. by eapply deletion_gone.
  - apply triple_ret. intros w Hw. split; [done|]. by intros _ ?.
Qed.
Lemma hooks_features : leaves_of (ew_hooks : W -> _) (teardown_features r env).
Proof.
  unfold teardown_features. destruct (getFeatureProvider r env) as [[p|]|]; [|by auto with leaves..]. apply leaves_of_bind; [|auto with leaves].
  unfold provider. apply leaves_of_bind; [apply leaves_of_on; intros w; by destruct (feature_Teardown _ _ _)|]. intros x.
  apply leaves_of_bind; [by apply leaves_of_modify|auto with leaves].
Qed.
(** What is posted does not matter. *)
Lemma post_so_far acc post n (what : option gostring -> C unit) : (forall x, triple (so_far acc) (what x) (fun _ => so_far acc) (fun _ w => ew_envs w = e0)) ->
  triple (so_far acc) (let! cur := current in let! x := on_ext (post n cur) in do! emit (Posted n) in what x) (fun _ => so_far acc) (fun _ w => ew_envs w = e0).
Proof.
  intros Hx. apply (triple_bind _ _ _ (fun _ => so_far acc)); [by apply triple_on; intros w a w' Hw [= <- <-]|]. intros cur.
  apply (triple_bind _ _ _ (fun _ => so_far acc)); [apply triple_on; intros w a w' Hw; destruct (post n cur (ew_ext w)); by intros [= <- <-]|]. intros x.
  apply (triple_bind _ _ _ (fun _ => so_far acc)); [|intros _; apply Hx]. apply triple_modify. intros w [He Hs]. split; [done|].
  intros Ha what'. cbn. intros [Hin|Hin%list_elem_of_singleton]%elem_of_app; [by apply (Hs Ha what')|done].
Qed.
Lemma record_so_far acc reason : triple (so_far acc) (record reason) (fun _ => so_far acc) (fun _ w => ew_envs w = e0).
Proof.
  apply triple_modify. intros w [He Hs]. split; [done|].
  intros Ha what'. cbn. intros [Hin|Hin%list_elem_of_singleton]%elem_of_app; [by apply (Hs Ha what')|done].
Qed.
Lemma notify_so_far acc n : triple (so_far acc) (notify r n) (fun _ => so_far acc) (fun _ w => ew_envs w = e0).
Proof.
  unfold notify. destruct (er_Notifier r) as [post|]; [|by apply triple_ret]. apply post_so_far. intros [?|]; [apply record_so_far|by apply triple_ret].
Qed.
Lemma commit_so_far acc s d : triple (so_far acc) (commit_status r s d) (fun _ => so_far acc) (fun _ w => ew_envs w = e0).
Proof.
  unfold commit_status. destruct (er_StatusReporter r) as [post|]; [|by apply triple_ret].
  pose proof (post_so_far acc post (CommitStatus s d) (fun _ => ret tt) ltac:(intros x; by apply triple_ret)) as H.
  intros w Hw. specialize (H w Hw). exact H.
Qed.
Lemma routing_so_far acc : triple (so_far acc) (provider #"teardown routing" (router_Teardown (er_Router r) env))
  (fun x => so_far (acc ++ errors x #"failed to teardown routing")) (fun _ w => ew_envs w = e0).
Proof.
  eapply triple_mono; [apply provider_so_far|done| |done]. intros x w [He Hs]. split; [done|].
  intros [-> Hx]%app_nil. apply Hs; [done|]. by destruct x.
Qed.
(** What is true when the environments are no longer as they were. *)
Definition released_right (w : W) : Prop := ew_envs w = e0 \/ forced clock env = true \/ torn_down env w.
Lemma unchanged_right {B} (Pre : W -> Prop) (m : C B) Rb : triple Pre m Rb (fun _ w => ew_envs w = e0) -> triple Pre m Rb (fun _ => released_right).
Proof. intros Hm. eapply triple_mono; [exact Hm|done..|]. intros o w. by left. Qed.
Lemma release_right : triple (fun w => ew_envs w = e0 /\ (forced clock env = true \/ torn_down env w)) (release r env)
  (fun _ => released_right) (fun _ => released_right).
Proof.
  intros w [He Ht]. unfold release, bind, on_envs, on. destruct (obj_Update _ _) as [u e]. destruct u; (right; destruct Ht as [Ht|Ht]; [by left|right]).
  - destruct Ht as (H1 & H2 & H3 & H4). split_and!; try done. intros what [Hin|Hin%list_elem_of_singleton]%elem_of_app; [by apply (H1 what)|done].
  - exact Ht.
Qed.
Lemma finished errs : triple (fun w => so_far errs w /\ (errs = [] -> workloads_gone env)) (finish_teardown r clock env errs)
  (fun _ => released_right) (fun _ => released_right).
Proof using NL SL.
  unfold finish_teardown. apply triple_pure. intros Hwl.
  eapply triple_bind; [apply unchanged_right, deleted_secret|]. intros x. cbv zeta.
  set (esec := api_errors r x #"failed to delete database env secret").
  set (Keep := fun h : hook_world J S M A => esec = [] -> gone (Ob := Secret) (preview_ns env, db_secret_name env) (hw_secrets h)).
  apply (triple_bind _ _ _ (fun fs w => so_far (errs ++ fs) w /\ Keep (ew_hooks w))).
  { apply unchanged_right. eapply triple_mono; [apply (triple_frame ew_hooks _ (so_far errs) Keep (fun fs => so_far (errs ++ fs)) (fun _ w => ew_envs w = e0) hooks_features), collects_features| |done|].
    - intros w [Hw Hg]. split; [exact Hw|]. intros Hsec. by eapply Hg.
    - by intros o w [He _]. }
  intros fs. eapply triple_bind; [apply unchanged_right, (deleted_namespace (errs ++ fs) Keep)|]. intros ns.
  destruct ((errs ++ esec) ++ fs ++ ns) as [|err rest] eqn:Eall.
  - apply app_nil in Eall as [[-> Hsec]%app_nil [-> ->]%app_nil]. eapply triple_mono; [apply release_right| |done|done].
    intros w [[[He Hs] Hk] Hn]. split; [done|]. right. split_and!; [by apply Hs|by apply Hwl|by apply Hk|by apply Hn].
  - destruct (forced clock env) eqn:Ef.
    + apply (triple_bind _ _ _ (fun _ w => ew_envs w = e0)); [intros w [[[He _] _] _]; exact He|]. intros [].
      eapply triple_mono; [apply release_right| |done|done]. intros w He. split; [done|by left].
    + apply triple_finish. intros w [[[He _] _] _]. by left.
Qed.
Lemma torn_down_right : triple (fun w => ew_envs w = e0 /\ spotless w) (handleTeardown r clock env)
  (fun _ => released_right) (fun _ => released_right).
Proof using NL SL.
  unfold handleTeardown. case_bool_decide; [|apply triple_finish; intros w [He _]; by left].
  apply (triple_bind _ _ _ (fun _ => so_far [])); [intros w [He Hs]; split; [done|]; intros _ what; cbn; intros [Hin|Hin%list_elem_of_singleton]%elem_of_app; [by apply (Hs what)|done]|].
  intros _. apply (triple_bind _ _ _ (fun _ => so_far [])); [apply unchanged_right, commit_so_far|]. intros _.
  apply (triple_bind _ _ _ (fun _ => so_far [])); [apply unchanged_right, notify_so_far|]. intros _.
  apply (triple_bind _ _ _ (fun errs => so_far errs)); [apply unchanged_right, (collects_deployer [])|]. intros e1.
  apply (triple_bind _ _ _ (fun errs => so_far (e1 ++ errs))); [apply unchanged_right, (collects_async e1)|]. intros e2.
  eapply triple_bind; [apply unchanged_right, (routing_so_far (e1 ++ e2))|]. intros x.
  eapply triple_bind; [apply unchanged_right, (collects_database _)|]. intros [e4 opened]. cbn [fst].
  apply triple_deferred.
  - eapply triple_bind; [apply unchanged_right, awaited|]. intros e5. eapply triple_mono; [apply finished| |done|done].
    intros w [Hw He]. rewrite <- !app_assoc in Hw. split; [exact Hw|]. intros Ha. apply He. by do 4 apply app_nil in Ha as [_ Ha].
  - intros _. destruct opened; [|by apply triple_ret]. apply triple_on. intros w u w' Hw [= <- <-]. exact Hw.
  - intros _. destruct opened; [|by apply triple_ret]. apply triple_on. intros w u w' Hw [= <- <-]. exact Hw.
Qed.
End Teardown.
(** C7: the run that takes the finalizer off a deleted environment, so that it
    can go, is either forced or one in which no provider failed, the deployer
    said that no workload is left, and the database Secret and the preview
    namespace are gone or being deleted. *)
Theorem finalizer_kept_until_torn_down key (w w' : W) o env : fst (obj_Get key (ew_envs w)) = Ok env -> is_Some (ev_DeletionTimestamp env) ->
  ew_events w = [] -> Reconcile r clock schedule banner_script key w = (o, w') ->
  ew_envs w' = ew_envs w \/ forced clock env = true \/ torn_down env w'.
Proof using EL NL SL.
  intros Hg [t Hd] Hev Hr. unfold Reconcile, reconcile_body, bind at 1, on_envs, on at 1 in Hr. pose proof (obj_Get_pure (Ob := Environment) key (ew_envs w)) as Hp.
  destruct (obj_Get key (ew_envs w)) as [x e]. cbn in Hg, Hp. subst x e. unfold bind at 1, mutate at 1, modify at 1 in Hr. cbv beta iota in Hr.
  unfold reconcile_env in Hr. rewrite Hd in Hr.
  match type of Hr with context [handleTeardown r clock env ?w1] => pose proof (torn_down_right env (ew_envs w) w1) as H end.
  lapply H; [clear H; intros H|split; [done|]; intros what; cbn; rewrite Hev; apply not_elem_of_nil].
  destruct (handleTeardown r clock env _) as [[o1|u] w2]; injection Hr as <- <-; exact H.
Qed.
End Facts.
