(* ===== verification/EnvDemo.v ===== *)
(** * Executions of the environment controller

    A controller with providers that answer as told, on servers that satisfy
    the laws; and what it does in some cases its authors may not expect. *)

From S2P Require Import Prelude GoSort GoStrings GoCrypto GoTime GoFloat TokenStore KubeApi AgentTask ResourceNames.
From S2P Require Import EnvTypes Conditions EarlyReturn ObjectApi Resources HookJobs EnvStatus EnvWorld.
From S2P Require Import EnvDrift EnvQuota EnvProvision EnvController EnvScope EnvTrace EnvFacts.
Local Open Scope Z_scope.

Module EnvDemo.
Import Server.
#[export] Instance unicode : GoUnicode := ascii_unicode.
Definition at_second (n : Z) : Time := mkTime n 0.
#[export] Instance conditions : ConditionOps := SimpleConditions.ops (at_second 1000).
#[export] Instance quantities : QuantityOps := { quantity_float _ := None; quantity_value _ := None }.
#[export] Instance map_order : MapOrder := { map_entries := map_to_list }.
(** The texts of the calls that reached the providers. *)
Abbreviation X := (list gostring).
Abbreviation W := (env_world (Server.t Environment) (Server.t Namespace) (Server.t Guard) (Server.t Workload) (Server.t Job)
  (Server.t Secret) (Server.t ConfigMap) (Server.t AtlasCR) X).
Definition clock : env_readings :=
  let t := at_second 1000 in mkEnvReadings t t t t t t t t t t.

(** ** Providers *)
Definition answer {B} (what : gostring) (x : result gostring B) : call X B := fun w => (x, w ++ [what]).
Definition router (x : result gostring unit) : Router X :=
  mkRouter (fun _ => answer #"route" x) (fun _ => answer #"unroute" x) (fun _ => #"https://preview").
Definition databases (x : result gostring (option DatabaseResult)) : DatabaseProvider X :=
  mkDatabaseProvider (fun _ => answer #"database" x) (fun _ => answer #"drop" (Ok tt)) None false None.
Definition deployer : Deployer X :=
  mkDeployer (fun _ => answer #"deploy" (Ok tt)) (fun _ => answer #"undeploy" (Ok tt)) (fun _ => answer #"status" (Ok [])).
Definition queues : AsyncProvisioner X :=
  mkAsync #"kafka" (fun _ route => answer (#"queue " ++ ar_Target route) (Ok (Some ∅))) (fun _ route => answer (#"unqueue " ++ ar_Target route) (Ok tt)).
Definition ready (ok : bool) : result gostring (option DatabaseResult) := Ok (Some (mkDatabaseResult #"postgres://db" ∅ [] false [] ok #"ok")).
Definition nothing {Pr : Type} : Registry Pr := mkRegistry (fun _ => false) (fun name => Err (#"no provider " ++ name)).
Definition notifier : notice -> Environment -> X -> option gostring * X := fun _ _ w => (None, w).
Definition reconciler (route : result gostring unit) (db : result gostring (option DatabaseResult)) : EnvironmentReconciler X :=
  mkEnvReconciler (router route) (Some (databases db)) (Some deployer) (Some notifier) None None (Some queues) None [] None nothing nothing nothing
    (fun _ => Ok tt) (fun _ _ => answer #"sql" (Ok tt)) (fun _ => #"error") (fun _ => false) (fun _ l => l) false (fun _ l => Ok l).
Definition fine : EnvironmentReconciler X := reconciler (Ok tt) (ready true).

(** ** Environments *)
Definition env_at (name : gostring) (spec : EnvironmentSpec) (status : EnvironmentStatus) : Environment :=
  mkEnvironment name #"team-a" (#"uid-" ++ name) ∅ {[AnnotationDriftPolicy := #"ignore"]} [environmentFinalizer] [] (at_second 500) None 1 7 spec status.
Definition spec_with (ttl : option Z) (routes : list AsyncRouteSpec) (refs : list SecretRef) : EnvironmentSpec :=
  mkEnvSpec no_source no_deploy (mkRouting [] [] [] [] [] [] [] routes None None) no_database (mkLifecycle ttl false) None None None refs.
Definition shop (ttl : option Z) (routes : list AsyncRouteSpec) (refs : list SecretRef) : Environment :=
  env_at #"shop" (spec_with ttl routes refs) no_env_status.
Definition world_of (envs : list Environment) (nss : list Namespace) : W :=
  mkEnvWorld (of_list envs) (of_list nss) (of_list []) (of_list []) (of_list []) (of_list []) (of_list [])
    (mkHookWorld (of_list []) (of_list []) (of_list []) (of_list []) (of_list [])) [] [] (env_at [] (spec_with None [] []) no_env_status).
Definition team (annotations : gmap gostring gostring) : Namespace := mkObject #"team-a" [] #"ns" ∅ annotations [] [] None 3 tt tt.
Definition run (r : EnvironmentReconciler X) (name : gostring) (w : W) : outcome gostring * W :=
  Reconcile r clock (fun n => seq 0 n) #"{{CONFIG_JSON}}" (#"team-a", name) w.
Definition stored_env (name : gostring) (w : W) : option Environment := objects (ew_envs w) !! (#"team-a", name).
Definition phase_of (name : gostring) (w : W) : option gostring := et_Phase ∘ ev_Status <$> stored_env name w.
(** The conditions that are not True. *)
Definition waiting (name : gostring) (w : W) : list (gostring * gostring) :=
  match stored_env name w with
  | Some env => map (fun c => (cond_Type c, cond_Reason c)) (filter (fun c => cond_Status c <> ConditionTrue) (et_Conditions (ev_Status env)))
  | None => []
  end.
Definition notices (w : W) : list notice := e ← ew_events w; match e with Posted n => [n] | _ => [] end.
(** Another spec. *)
Definition respec (spec : EnvironmentSpec) (w : W) : W :=
  mkEnvWorld (mk (ev_set_Spec spec <$> objects (ew_envs w)) (rev (ew_envs w))) (ew_namespaces w) (ew_limits w) (ew_quotas w) (ew_netpols w)
    (ew_deployments w) (ew_statefulsets w) (ew_hooks w) (ew_ext w) (ew_events w) (ew_cur w).

Definition plain (routes : list AsyncRouteSpec) (refs : list SecretRef) : W := world_of [shop None routes refs] [].
Definition ended_well (o : outcome gostring) : Prop := failure o = None.
#[global] Instance ended_well_dec o : Decision (ended_well o).
Proof. unfold ended_well. apply _. Defined.
Definition after (r : EnvironmentReconciler X) (name : gostring) (w : W) : W := snd (run r name w).

(** ** A good run, and what follows failures *)
Lemma good_run : phase_of #"shop" (after fine #"shop" (plain [] [])) = Some PhaseRunning /\
  ew_ext (after fine #"shop" (plain [] [])) = [ #"database"; #"route"; #"deploy"].
Proof. by vm_compute. Qed.
Definition broken_gateway : EnvironmentReconciler X := reconciler (Err #"gateway down") (ready true).
Definition other_team : SecretRef := mkSecretRef #"team-b" #"password" #"key".
(** an environment that named a Secret of another namespace once is
    Failed also when its spec no longer does and every provider succeeds. *)
Theorem secret_ref_condition_stays :
  let refused := after fine #"shop" (plain [] [other_team]) in
  let mended := after fine #"shop" (respec (spec_with None [] []) refused) in
  waiting #"shop" refused = [(#"SecretRefValid", #"CrossNamespaceRef")] /\ ew_ext mended = [ #"database"; #"route"; #"deploy"] /\
  phase_of #"shop" mended = Some PhaseFailed /\ waiting #"shop" mended = waiting #"shop" refused.
Proof. by vm_compute. Qed.
(** while its database is still being provisioned an environment is
    Failed, its failure is notified, and no further run is scheduled. *)
Theorem provisioning_database_is_failed :
  let '(o, w) := run (reconciler (Ok tt) (ready false)) #"shop" (plain [] []) in
  o = mkOutcome 0 None /\ phase_of #"shop" w = Some PhaseFailed /\ waiting #"shop" w = [(#"DatabaseReady", #"DatabaseProvisioning")] /\
  notices w = [EnvironmentFailed #"Environment failed to deploy"].
Proof. by vm_compute. Qed.
Definition expired_shop : W := world_of [with_env_status (et_set_CreatedAt (Some (at_second (-100000)))) (shop (Some (60 * Minute)) [] [])] [].
Definition deleted_in (name : gostring) (w : W) : bool := bool_decide (is_Some (stored_env name w ≫= ev_DeletionTimestamp)).
(** an environment past its time to live is deleted by a run that gets to
    the lifecycle, and by no run while its database fails. *)
Theorem expiry_waits_for_the_database :
  deleted_in #"shop" (after fine #"shop" expired_shop) = true /\
  deleted_in #"shop" (after (reconciler (Ok tt) (Err #"no database")) #"shop" expired_shop) = false.
Proof. by vm_compute. Qed.
Definition orders : AsyncRouteSpec := mkAsyncRoute #"kafka" #"orders" ∅.
Definition payments : AsyncRouteSpec := mkAsyncRoute #"kafka" #"payments" ∅.
(** an asynchronous route added to an environment whose routes are ready
    is never provisioned, and the environment is Running all the same. *)
Theorem added_route_not_provisioned :
  let w := after fine #"shop" (plain [orders] []) in
  let w' := after fine #"shop" (respec (spec_with None [orders; payments] []) w) in
  #"queue orders" ∈ ew_ext w /\ #"queue payments" ∉ ew_ext w' /\ phase_of #"shop" w' = Some PhaseRunning.
Proof. vm_compute. split_and!; [set_solver|set_solver|done]. Qed.

(** ** Quotas *)
Definition small_team : Namespace := team (<[AnnotationMaxActiveEnvironments := #"1"]> {[AnnotationQuotaExceedPolicy := #"reject"]}).
Definition no_demands (name : gostring) : Environment := env_at name (spec_with None [] []) no_env_status.
Definition joined (env : Environment) (w : W) : W :=
  mkEnvWorld (mk (<[r_key env := env]> (objects (ew_envs w))) (rev (ew_envs w))) (ew_namespaces w) (ew_limits w) (ew_quotas w) (ew_netpols w)
    (ew_deployments w) (ew_statefulsets w) (ew_hooks w) (ew_ext w) (ew_events w) (ew_cur w).
(** in a namespace for one environment that rejects more, the environment
    that was admitted and runs is refused as soon as another is created, and
    the other then takes its place. *)
Theorem newcomer_displaces_admitted :
  let alone := after fine #"first" (world_of [no_demands #"first"] [small_team]) in
  let both := after fine #"first" (joined (no_demands #"second") alone) in
  phase_of #"first" alone = Some PhaseRunning /\ waiting #"first" both = [(#"QuotaReady", #"NamespaceQuotaExceeded")] /\
  phase_of #"first" both = Some PhaseFailed /\ phase_of #"second" (after fine #"second" both) = Some PhaseRunning.
Proof. by vm_compute. Qed.

(** ** The fingerprint *)
Definition settings (data : gmap gostring gostring) : ConfigMap := mkObject #"team-a" #"settings" #"uid" ∅ ∅ [] [] None 3 (text_data data) tt.
(** two different ConfigMaps have one fingerprint: a value with a newline
    looks like another entry. *)
Theorem fingerprint_collision :
  let one := settings {[ #"a" := #"1" ++ NL ++ #"data:b=2"]} in
  let two := settings (<[ #"b" := #"2"]> {[ #"a" := #"1"]}) in
  one <> two /\ fingerprint [] [one] [] = fingerprint [] [two] [].
Proof.
  split; [intros [= H]; apply (f_equal (fun m : gmap gostring gostring => m !! #"b")) in H; by vm_compute in H|].
  unfold fingerprint. do 2 f_equal.
Qed.

(** ** The theorems on these worlds *)
#[export] Instance map_order_laws : MapOrderLaws.
Proof. by split. Qed.
Lemma env_ran (r : EnvironmentReconciler X) (name : gostring) (w : W) : run r name w = (fst (run r name w), snd (run r name w)).
Proof. apply surjective_pairing. Qed.
Lemma validateEnvVarMapping_spec_witness :
  validateEnvVarMapping {[ #"ORDERS" := #"ORDERS_TOPIC"]} = Ok tt /\
  (forall k v, ({[ #"ORDERS" := #"ORDERS_TOPIC"]} : gmap gostring gostring) !! k = Some v -> k ∉ blockedEnvVars /\ v ∉ blockedEnvVars).
Proof.
  split; [by vm_compute|]. apply (validateEnvVarMapping_spec (RL := map_order_laws) {[ #"ORDERS" := #"ORDERS_TOPIC"]}). by vm_compute.
Defined.
Lemma other_is_outside : outside #"team-a" #"other".
Proof.
  split; [by vm_compute|]. intros env _ H. assert (#"-" ⊆ PreviewNamespace env) as Hd.
  { intros c Hc. unfold PreviewNamespace. destruct (_ <=? _)%nat; rewrite !elem_of_app; auto. }
  rewrite H in Hd. refine (bool_decide_eq_false_1 _ _ (Hd "-"%char _)); [by vm_compute|by left].
Qed.
Definition other_settings : ConfigMap := mkObject #"other" #"settings" #"uid" ∅ ∅ [] [] None 3 (text_data ∅) tt.
Lemma run_stays_in_namespace_witness :
  view_at (#"other", #"settings") (snd (run fine #"shop" (plain [orders] []))) = view_at (#"other", #"settings") (plain [orders] []).
Proof.
  refine (run_stays_in_namespace fine clock (fun n => seq 0 n) #"{{CONFIG_JSON}}" #"team-a" #"shop" (#"other", #"settings")
    (plain [orders] []) (snd (run fine #"shop" (plain [orders] []))) (fst (run fine #"shop" (plain [orders] []))) _ other_is_outside (env_ran fine #"shop" (plain [orders] []))).
  by vm_compute.
Defined.
Lemma good_run_reports : Recorded #"Running" ∈ ew_events (snd (run fine #"shop" (plain [] []))).
Proof. vm_compute. set_solver. Qed.
Lemma running_is_provisioned_witness : prepared fine (snd (run fine #"shop" (plain [] []))).
Proof.
  exact (running_is_provisioned fine clock (fun n => seq 0 n) #"{{CONFIG_JSON}}" (#"team-a", #"shop") (plain [] [])
    (snd (run fine #"shop" (plain [] []))) (fst (run fine #"shop" (plain [] []))) eq_refl (env_ran fine #"shop" (plain [] [])) good_run_reports).
Defined.
(** *** The first run *)
Definition new_shop : Environment := ev_set_Finalizers [] (shop None [] []).
Definition new_world : W := world_of [new_shop] [].
Lemma new_run_succeeds : failure (fst (run fine #"shop" new_world)) = None.
Proof. by vm_compute. Qed.
Lemma finalizer_first_witness :
  provisions (snd (run fine #"shop" new_world)) = provisions new_world /\
  exists env', stored (ew_envs (snd (run fine #"shop" new_world))) !! (#"team-a", #"shop") = Some env' /\ environmentFinalizer ∈ ev_Finalizers env'.
Proof.
  assert (environmentFinalizer ∉ ev_Finalizers new_shop) as Hf by apply not_elem_of_nil.
  destruct (finalizer_first fine clock (fun n => seq 0 n) #"{{CONFIG_JSON}}" (#"team-a", #"shop") new_world (snd (run fine #"shop" new_world))
    (fst (run fine #"shop" new_world)) new_shop ltac:(by vm_compute) eq_refl Hf (env_ran fine #"shop" new_world)) as [H1 H2].
  split; [exact H1|exact (H2 new_run_succeeds)].
Defined.
Definition greedy : Environment := shop None [] [other_team].
(** *** The last run *)
Definition leaving : Environment := r_mark (shop None [orders] []) (at_second 990) 8.
Lemma leaving_is_found : fst (obj_Get (#"team-a", #"shop") (ew_envs (world_of [leaving] []))) = Ok leaving.
Proof. by vm_compute. Qed.
Lemma leaving_is_released : stored_env #"shop" (snd (run fine #"shop" (world_of [leaving] []))) = None /\ forced clock leaving = false.
Proof. by vm_compute. Qed.
Lemma finalizer_kept_until_torn_down_witness : torn_down fine leaving (snd (run fine #"shop" (world_of [leaving] []))).
Proof.
  destruct leaving_is_released as [Hn Hforced].
  destruct (finalizer_kept_until_torn_down fine clock (fun n => seq 0 n) #"{{CONFIG_JSON}}" (#"team-a", #"shop") (world_of [leaving] [])
    (snd (run fine #"shop" (world_of [leaving] []))) (fst (run fine #"shop" (world_of [leaving] []))) leaving leaving_is_found
    (ex_intro _ _ eq_refl) eq_refl (env_ran fine #"shop" (world_of [leaving] []))) as [H|[H|H]]; [|rewrite Hforced in H; discriminate|exact H].
  exfalso. unfold stored_env in Hn. rewrite H in Hn. revert Hn. by vm_compute.
Defined.
(** *** Making room *)
Definition tight_team : Namespace := team {[AnnotationMaxActiveEnvironments := #"1"]}.
Definition incumbent : Environment := no_demands #"first".
Definition applicant : Environment := no_demands #"second".
Definition web : Workload :=
  mkObject #"team-a" #"web" #"uid" {[ #"divergedev.com/environment" := #"first"]} ∅ [] [] None 3 (mkWorkload (Some 2) ∅ [] [] []) tt.
Definition full_world : W :=
  mkEnvWorld (of_list [incumbent; applicant]) (of_list [tight_team]) (of_list []) (of_list []) (of_list []) (of_list [web]) (of_list [])
    (mkHookWorld (of_list []) (of_list []) (of_list []) (of_list []) (of_list [])) [] [] applicant.
Definition admission : (outcome gostring + option gostring) * W := reconcileNamespaceQuota fine clock applicant full_world.
Lemma admitted_after_all : fst admission = inr None /\ max_count (o_Annotations tight_team) AnnotationMaxActiveEnvironments = 1 /\
  max_count (o_Annotations tight_team) AnnotationMaxCNPGClusters = 0 /\
  fst (obj_Get ([], #"team-a") (ew_namespaces full_world)) = Ok tight_team /\ hibernated applicant = false.
Proof. by vm_compute. Qed.
Definition hibernation : (outcome gostring + result gostring Environment) * W := hibernateEnvironment fine incumbent full_world.
Lemma hibernation_succeeds : exists env, fst hibernation = inr (Ok env).
Proof. eexists. by vm_compute. Qed.
Lemma hibernated_at_zero_witness : quiet_in #"first" #"team-a" (snd hibernation).
Proof.
  destruct hibernation_succeeds as [env Henv].
  refine (proj1 (hibernated_at_zero fine incumbent env full_world (snd hibernation) (fun _ => eq_refl) _) #"team-a" _).
  - rewrite <- Henv. apply surjective_pairing.
  - by left.
Defined.
End EnvDemo.
