(* ===== verification/AgentTaskPreview.v ===== *)
(** * The preview environment linked to an agent task:
    [internal/controller/agenttask_preview.go]

    The calls on [Environment] objects, [controllerutil.CreateOrUpdate] and the
    condition helpers of apimachinery are third party: the classes
    [EnvClient] and [ConditionOps] (of [Conditions]). *)

From S2P Require Import Prelude GoStrings GoCrypto GoTime TokenStore KubeApi AgentTask ResourceNames EnvTypes Conditions.
Local Open Scope Z_scope.

(** ** Names *)
Definition linkedPreviewEnvironmentName {U : GoUnicode} (taskName : gostring) : gostring :=
  sanitizeK8sName (#"agent-preview-" ++ taskName) taskName 63.

(** ** Environments *)
Abbreviation en_Branch e := (src_Branch (es_Source (ev_Spec e))).
Abbreviation en_Phase e := (et_Phase (ev_Status e)).
Abbreviation en_URL e := (et_URL (ev_Status e)).
Definition env_annotations (f : strmap -> strmap) (e : Environment) : Environment := ev_set_Annotations (f (ev_Annotations e)) e.

Class EnvClient (E : Type) := {
  env_Get : task_key -> E -> ares Environment * E;
  env_Patch : task_key -> (strmap -> strmap) -> E -> ares unit * E;
  env_Delete : task_key -> E -> ares unit * E;
  (** the mutated object, created or updated *)
  env_CreateOrUpdate : task_key -> (Environment -> option Environment) -> E -> option Environment * E }.
(** Reads change nothing. *)
Class EnvClientLaws (E : Type) {K : EnvClient E} := {
  env_stored : E -> gmap task_key Environment;
  env_Get_pure : forall k e, snd (env_Get k e) = e;
  env_Get_Ok : forall k e o, fst (env_Get k e) = Ok o -> env_stored e !! k = Some o;
  env_Patch_Ok : forall k f e e', env_Patch k f e = (Ok tt, e') ->
    exists cur, env_stored e !! k = Some cur /\ env_stored e' = <[k := env_annotations f cur]> (env_stored e);
  env_Patch_Err : forall k f e x e', env_Patch k f e = (Err x, e') -> env_stored e' = env_stored e }.
Definition annotationPreviewEnabled : gostring := #"divergedev.com/preview-enabled".
Definition annotationPreviewBranch : gostring := #"divergedev.com/preview-branch".
Definition annotationPreviewService : gostring := #"divergedev.com/preview-service".
Definition annotationPreviewImage : gostring := #"divergedev.com/preview-image".
Definition annotationPreviewPort : gostring := #"divergedev.com/preview-port".
Definition annotationPreviewEnvironment : gostring := #"divergedev.com/preview-environment".
Definition annotationPreviewURL : gostring := #"divergedev.com/preview-url".
Definition annotationSandboxIP : gostring := #"divergedev.com/sandbox-ip".
Definition annotationHibernated : gostring := #"divergedev.com/hibernated".
Definition labelManagedBy : gostring := #"divergedev.com/managed-by".
Definition managedByAgentTask : gostring := #"diverge-agenttask".
Definition conditionPreviewEnvReady : gostring := #"PreviewEnvironmentReady".

Section Preview.
Context {U : GoUnicode} {O : ConditionOps} {T : Type} {C : TaskClient T} {E : Type} {K : EnvClient E}.

Definition restoreReconcilerStatus (saved : AgentTaskStatus) (task : AgentTask) : AgentTask :=
  with_Status (fun st =>
    let keep (cur old : gostring) := if str_eqb old [] then cur else old in
    let st1 := if str_eqb (st_Phase st) [] && negb (str_eqb (st_Phase saved) []) then set_Phase (st_Phase saved) st else st in
    let st2 := set_Sandbox (keep (st_SandboxClaimRef st1) (st_SandboxClaimRef saved))
                 (keep (st_SandboxPodName st1) (st_SandboxPodName saved)) (keep (st_SandboxIP st1) (st_SandboxIP saved)) st1 in
    let st3 := if str_eqb (st_Message st2) [] && negb (str_eqb (st_Message saved) []) then set_Message (st_Message saved) st2 else st2 in
    set_Conditions (fold_left SetStatusCondition (st_Conditions saved) (st_Conditions st3)) st3) task.

Definition isPreviewEnabledForTask (task : AgentTask) : bool :=
  match tk_Annotations task !! annotationPreviewEnabled with
  | Some v => if str_eqb v #"false" then false else if str_eqb v #"true" then true
              else negb (str_eqb (sp_RepoURL (tk_Spec task)) [])
  | None => negb (str_eqb (sp_RepoURL (tk_Spec task)) [])
  end.
Fixpoint first_nonempty (l : list gostring) : gostring :=
  match l with [] => [] | s :: l => if str_eqb s [] then first_nonempty l else s end.
Definition resolveTaskPreviewBranch (task : AgentTask) : gostring :=
  first_nonempty [sp_WorkingBranch (tk_Spec task); annotation task annotationPreviewBranch; sp_BaseBranch (tk_Spec task); #"main"].
Definition resolveTaskPreviewService (task : AgentTask) : gostring :=
  first_nonempty [annotation task annotationPreviewService; tk_Name task; #"agent-service"].
Definition resolveTaskPreviewImage (task : AgentTask) : gostring :=
  first_nonempty [annotation task annotationPreviewImage; #"nginx:alpine"].
Definition resolveTaskPreviewPort (task : AgentTask) : Z :=
  let raw := TrimSpace (annotation task annotationPreviewPort) in
  if str_eqb raw [] then 0
  else match Atoi raw with
       | Some p => if (p <? 1) || (65535 <? p) then 0 else p
       | None => 0
       end.

Definition isOwnedByAgentTask (env : Environment) (task : AgentTask) : bool :=
  let lbl := get (ev_Labels env) LabelAgentTask in
  if str_eqb (get (ev_Labels env) labelManagedBy) managedByAgentTask &&
     (str_eqb lbl (TaskLabelValue (tk_Name task)) || str_eqb lbl (truncateLabel (tk_Name task)))
  then true
  else existsb (fun ref => str_eqb (ow_Kind ref) #"AgentTask" && str_eqb (ow_Name ref) (tk_Name task)) (ev_OwnerReferences env).

Definition env_key (task : AgentTask) : task_key := (tk_Namespace task, linkedPreviewEnvironmentName (tk_Name task)).
(** [client.IgnoreNotFound] *)
Definition IgnoreNotFound {A} (default : A) (e : api_error) : ares A :=
  if decide (e = NotFound) then Ok default else Err e.

Definition setLinkedPreviewEnvironmentHibernated (task : AgentTask) (hibernated : bool) (e : E) : ares unit * E :=
  match env_Get (env_key task) e with
  | (Err x, e1) => (IgnoreNotFound tt x, e1)
  | (Ok env, e1) =>
      if negb (isOwnedByAgentTask env task) then (Ok tt, e1)
      else if hibernated then
        if str_eqb (get (ev_Annotations env) annotationHibernated) #"true" then (Ok tt, e1)
        else env_Patch (env_key task)
               (merge_map (ev_Annotations env) (<[annotationHibernated := #"true"]> (ev_Annotations env))) e1
      else
        match ev_Annotations env !! annotationHibernated with
        | None => (Ok tt, e1)
        | Some _ => env_Patch (env_key task) (merge_map (ev_Annotations env) (delete annotationHibernated (ev_Annotations env))) e1
        end
  end.

(** [task.Annotations] changed from [base] and patched: the task becomes the
    server's object, with the status of before restored. *)
Definition patch_annotations (base : strmap) (task : AgentTask) (w : T) : bool * AgentTask * T :=
  match task_Patch (key_of task) (merge_map base (tk_Annotations task)) w with
  | (Ok task', w1) => (true, restoreReconcilerStatus (tk_Status task) task', w1)
  | (Err _, w1) => (false, task, w1)
  end.

(** The callback of [CreateOrUpdate]; [scheme] is [SetControllerReference],
    when there is a scheme. *)
Context (scheme : option (AgentTask -> Environment -> option Environment)).
Definition set_owner (task : AgentTask) (env : Environment) : option Environment :=
  match scheme with
  | Some setref => setref task env
  | None =>
      if existsb (fun ref => ow_Controller ref &&
           (negb (str_eqb (ow_Kind ref) #"AgentTask") || negb (str_eqb (ow_Name ref) (tk_Name task)))) (ev_OwnerReferences env)
      then None
      else Some (if str_eqb (tk_UID task) [] then env
                 else ev_set_OwnerReferences [mkOwner #"AgentTask" (tk_Name task) (tk_UID task) true] env)
  end.
Definition preview_port (task : AgentTask) (port : Z) : Z :=
  if port =? 0 then
    let customPort := resolveTaskPreviewPort task in
    if 0 <? customPort then customPort
    else if str_eqb (annotation task annotationPreviewImage) [] then 80 else 8080
  else port.
Definition mutate_env (task : AgentTask) (env : Environment) : option Environment :=
  let labels := <[labelManagedBy := managedByAgentTask]> (<[LabelAgentTask := TaskLabelValue (tk_Name task)]> (ev_Labels env)) in
  let a1 := if str_eqb (st_SandboxIP (tk_Status task)) [] then ev_Annotations env
            else <[annotationSandboxIP := st_SandboxIP (tk_Status task)]> (ev_Annotations env) in
  let a2 := if sp_Suspended (tk_Spec task) || str_eqb (st_Phase (tk_Status task)) AgentTaskPhasePaused
            then <[annotationHibernated := #"true"]> a1 else delete annotationHibernated a1 in
  env ← set_owner task (ev_set_Labels labels (ev_set_Annotations a2 env));
  let config := default no_service_config (es_ServiceConfig (ev_Spec env)) in
  let config := sc_set_ServiceName (resolveTaskPreviewService task) (sc_set_Image (resolveTaskPreviewImage task)
                  (sc_set_Port (preview_port task (sc_Port config)) config)) in
  Some (ev_set_Spec (es_set_Source (src_set_Branch (resolveTaskPreviewBranch task) (es_Source (ev_Spec env)))
          (es_set_ServiceConfig (Some config) (ev_Spec env))) env).

Definition preview_condition (now : Time) (task : AgentTask) (envName : gostring) (env : Environment) : Condition :=
  let mk status reason message := mkCondition conditionPreviewEnvReady status reason message (tk_Generation task) now in
  let linked := #"Linked preview environment " ++ envName in
  if str_eqb (en_Phase env) #"Running" && negb (str_eqb (en_URL env) [])
  then mk #"True" #"EnvironmentRunning" (linked ++ #" is ready (" ++ en_URL env ++ #")")
  else if str_eqb (en_Phase env) #"Failed" then mk #"False" #"EnvironmentFailed" (linked ++ #" failed")
  else mk #"False" #"EnvironmentProvisioning" (linked ++ #" is provisioning").
Definition update_conditions (f : list Condition -> list Condition) : AgentTask -> AgentTask :=
  with_Status (fun st => set_Conditions (f (st_Conditions st)) st).

(** Whether it succeeded, the task in memory, and the stores: the callers
    only log the error. *)
Definition clear_preview (task : AgentTask) (w : T) : bool * AgentTask * T :=
  if str_eqb (annotation task annotationPreviewEnvironment) [] && str_eqb (annotation task annotationPreviewURL) []
  then (true, task, w)
  else patch_annotations (tk_Annotations task)
         (with_Annotations (delete annotationPreviewURL (delete annotationPreviewEnvironment (tk_Annotations task))) task) w.
Definition unlink_preview (task : AgentTask) (w : T * E) : bool * AgentTask * (T * E) :=
  let '(tasks, envs) := w in
  let finish envs :=
    match clear_preview task tasks with
    | (true, task', tasks') =>
        (true, update_conditions (fun l => RemoveStatusCondition l conditionPreviewEnvReady) task', (tasks', envs))
    | (false, task', tasks') => (false, task', (tasks', envs))
    end in
  match env_Get (env_key task) envs with
  | (Ok env, e1) =>
      if isOwnedByAgentTask env task then
        match env_Delete (env_key task) e1 with
        | (Ok _, e2) | (Err NotFound, e2) => finish e2
        | (Err _, e2) => (false, task, (tasks, e2))
        end
      else finish e1
  | (Err NotFound, e1) => finish e1
  | (Err _, e1) => (false, task, (tasks, e1))
  end.

Definition record_preview (task : AgentTask) (env : Environment) : AgentTask * bool :=
  let envName := linkedPreviewEnvironmentName (tk_Name task) in
  let stale := negb (str_eqb (annotation task annotationPreviewEnvironment) envName) in
  let a1 := if stale then <[annotationPreviewEnvironment := envName]> (tk_Annotations task) else tk_Annotations task in
  let moved := negb (str_eqb (en_URL env) []) && negb (str_eqb (get a1 annotationPreviewURL) (en_URL env)) in
  let a2 := if moved then <[annotationPreviewURL := en_URL env]> a1 else a1 in
  (with_Annotations a2 task, stale || moved).

Definition reconcileLinkedPreviewEnvironment (now : Time) (task : AgentTask) (w : T * E) : bool * AgentTask * (T * E) :=
  if negb (isPreviewEnabledForTask task) then unlink_preview task w
  else
    let '(tasks, envs) := w in
    match env_CreateOrUpdate (env_key task) (mutate_env task) envs with
    | (None, e1) => (false, task, (tasks, e1))
    | (Some env, e1) =>
        let '(fetched, e2) := env_Get (env_key task) e1 in
        let env := match fetched with Ok env' => env' | Err _ => env end in
        let '(task1, needAnnoPatch) := record_preview task env in
        let '(ok, task2, tasks2) :=
          if needAnnoPatch then patch_annotations (tk_Annotations task) task1 tasks else (true, task1, tasks) in
        if ok : bool then
          (true, update_conditions (fun l => SetStatusCondition l
                   (preview_condition now task2 (linkedPreviewEnvironmentName (tk_Name task)) env)) task2, (tasks2, e2))
        else (false, task2, (tasks2, e2))
    end.
End Preview.
