(* ===== verification/AgentTaskService.v ===== *)
(** * The agent task service: [internal/server/agenttask.go]

    The RPC handlers on agent tasks, from the request to the reply, the audit
    log and the stored tasks, and [SanitizeK8sError] of
    [internal/server/errors.go].  The API client, the access reviews and
    [retry.RetryOnConflict] are used through their interfaces; the user is the
    one the authentication middleware put into the context. *)

From S2P Require Import Prelude GoStrings GoFloat GoTime AuthProvider Authz StreamLimiter KubeApi AgentTask.
Local Open Scope Z_scope.

(** ** [SanitizeK8sError] *)
(** The classes of API errors it tells apart. *)
Inductive k8s_error :=
| KNotFound | KAlreadyExists | KConflict | KResourceExpired | KForbidden | KUnauthorized | KInvalid | KBadRequest
| KTimeout | KTooManyRequests | KServiceUnavailable | KCanceled | KDeadlineExceeded | KOther.
Definition SanitizeK8sError (e : k8s_error) : rpc_error :=
  match e with
  | KNotFound => RpcError CodeNotFound #"resource not found"
  | KAlreadyExists => RpcError CodeAlreadyExists #"resource already exists"
  | KConflict => RpcError CodeAborted #"resource was modified, please retry with the latest resource_version"
  | KResourceExpired => RpcError CodeAborted #"pagination token expired, please restart listing from the beginning"
  | KForbidden => RpcError CodePermissionDenied #"permission denied"
  | KUnauthorized => RpcError CodeUnauthenticated #"not authenticated"
  | KInvalid => RpcError CodeInvalidArgument #"invalid resource specification"
  | KBadRequest => RpcError CodeInvalidArgument #"bad request"
  | KTimeout => RpcError CodeDeadlineExceeded #"request timed out"
  | KTooManyRequests => RpcError CodeResourceExhausted #"too many requests, please retry later"
  | KServiceUnavailable => RpcError CodeUnavailable #"service temporarily unavailable"
  | KCanceled => RpcError CodeCanceled #"request canceled"
  | KDeadlineExceeded => RpcError CodeDeadlineExceeded #"request deadline exceeded"
  | KOther => RpcError CodeInternal #"internal server error"
  end.

(** ** Messages *)
Record RepositoryMsg := mkRepositoryMsg { rm_Url : gostring; rm_BaseBranch : gostring; rm_WorkingBranch : gostring }.
Record SandboxMsg := mkSandboxMsg {
  sm_Provider : gostring; sm_PoolRef : gostring; sm_TemplateRef : gostring; sm_TimeoutSeconds : Z }.
Record SpecMsg := mkSpecMsg {
  sx_Objective : gostring; sx_Repository : option RepositoryMsg; sx_Sandbox : option SandboxMsg;
  sx_BudgetUsd : gostring; sx_BudgetTokens : Z; sx_MaxIterations : Z; sx_Capabilities : list gostring;
  sx_DraftPr : bool; sx_Suspended : bool }.
Inductive PhaseMsg :=
| PHASE_UNSPECIFIED | PHASE_PENDING | PHASE_PROVISIONING | PHASE_ACTIVE | PHASE_PAUSING | PHASE_PAUSED
| PHASE_COMPLETED | PHASE_FAILED.
Record TaskMsg := mkTaskMsg {
  tm_Name : gostring; tm_Namespace : gostring; tm_CreatedAt : Time; tm_Spec : SpecMsg; tm_Phase : PhaseMsg;
  tm_SandboxClaimRef : gostring; tm_SandboxPodName : gostring; tm_SandboxIp : gostring; tm_Iteration : Z;
  tm_PrUrl : gostring; tm_CostUsd : gostring; tm_TokensConsumed : Z; tm_Message : gostring; tm_ObservedGeneration : Z }.

Definition phase_msg (phase : gostring) : PhaseMsg :=
  if str_eqb phase AgentTaskPhasePending then PHASE_PENDING
  else if str_eqb phase AgentTaskPhaseProvisioning then PHASE_PROVISIONING
  else if str_eqb phase AgentTaskPhaseActive then PHASE_ACTIVE
  else if str_eqb phase AgentTaskPhasePausing then PHASE_PAUSING
  else if str_eqb phase AgentTaskPhasePaused then PHASE_PAUSED
  else if str_eqb phase AgentTaskPhaseCompleted then PHASE_COMPLETED
  else if str_eqb phase AgentTaskPhaseFailed then PHASE_FAILED
  else PHASE_UNSPECIFIED.
Definition toProtoAgentTask (task : AgentTask) : TaskMsg :=
  let sp := tk_Spec task in
  let st := tk_Status task in
  mkTaskMsg (tk_Name task) (tk_Namespace task) (tk_CreationTimestamp task)
    (mkSpecMsg (sp_Objective sp) (Some (mkRepositoryMsg (sp_RepoURL sp) (sp_BaseBranch sp) (sp_WorkingBranch sp)))
       (Some (mkSandboxMsg (sp_Provider sp) (sp_PoolRef sp) (sp_TemplateRef sp) (sp_TimeoutSeconds sp)))
       (sp_BudgetUSD sp) (sp_BudgetTokens sp) (sp_MaxIterations sp) (sp_Capabilities sp) (sp_DraftPR sp) (sp_Suspended sp))
    (phase_msg (st_Phase st)) (st_SandboxClaimRef st) (st_SandboxPodName st) (st_SandboxIP st) (st_Iteration st)
    (st_PRURL st) (st_CostUSD st) (st_TokensConsumed st) (st_Message st) (st_ObservedGeneration st).

(** The spec of a new task. *)
Definition task_spec (m : SpecMsg) (repo : RepositoryMsg) : AgentTaskSpec :=
  let sb := default (mkSandboxMsg [] [] [] 0) (sx_Sandbox m) in
  mkTaskSpec (sx_Objective m) (rm_Url repo) (rm_BaseBranch repo) (rm_WorkingBranch repo) (sm_Provider sb) (sm_PoolRef sb)
    (sm_TemplateRef sb) (sm_TimeoutSeconds sb) (sx_BudgetUsd m) (sx_BudgetTokens m) (sx_MaxIterations m)
    (sx_Capabilities m) (sx_DraftPr m) (sx_Suspended m).

(** ** Budgets *)
Definition normalizeBudgetBumpString (raw : gostring) : gostring :=
  let s := TrimSpace (TrimPrefix (TrimSpace raw) #"+") in
  TrimSpace (TrimPrefix (TrimPrefix s #"$") #"+").
(** A finite amount, as [ParseFloat], [IsNaN] and [IsInf] accept it. *)
Definition finite_amount (s : gostring) : option float64 :=
  match ParseFloat s with Some f => if is_nan f || is_inf f then None else Some f | None => None end.
Definition set_Limits (usd : gostring) (tokens iterations : Z) (s : AgentTaskSpec) : AgentTaskSpec :=
  mkTaskSpec (sp_Objective s) (sp_RepoURL s) (sp_BaseBranch s) (sp_WorkingBranch s) (sp_Provider s) (sp_PoolRef s)
    (sp_TemplateRef s) (sp_TimeoutSeconds s) usd tokens iterations (sp_Capabilities s) (sp_DraftPR s) (sp_Suspended s).
(** A 32-bit integer. *)
Definition wrap32 (z : Z) : Z := (z + 2 ^ 31) mod 2 ^ 32 - 2 ^ 31.
Definition resumed_spec (cleanBump : gostring) (bumpUSD : float64) (tokensBump : Z) (st : AgentTaskStatus)
    (sp : AgentTaskSpec) : AgentTaskSpec :=
  let usd :=
    if str_eqb cleanBump [] then sp_BudgetUSD sp
    else match finite_amount (normalizeBudgetBumpString (sp_BudgetUSD sp)) with
         | Some existing => FormatFixed2 (f_add existing bumpUSD)
         | None => FormatFixed2 bumpUSD
         end in
  let tokens := if 0 <? tokensBump then wrap64 (sp_BudgetTokens sp + tokensBump) else sp_BudgetTokens sp in
  let iterations :=
    if (0 <? sp_MaxIterations sp) && (sp_MaxIterations sp <=? st_Iteration st)
    then wrap32 (st_Iteration st + 5) else sp_MaxIterations sp in
  set_Suspended false (set_Limits usd tokens iterations sp).

(** ** Handlers *)
Inductive log_entry := LogAuthz (e : audit_event) | LogMutation (event name namespace : gostring).

Section Service.
Context {T : Type} {C : TaskClient T} {A : TaskAdmin T} {R : Retry T}.
(** The class of the API errors other than not found, exists and conflict;
    the answers of the access reviews; [auditLogger != nil]; the user of the
    context; the time. *)
Context (other : k8s_error) (review : UserInfo -> attrs -> option bool) (audited : bool) (user : option UserInfo) (now : Time).

(** A handler: the reply or the error, what it logs, the stored tasks. *)
Definition handler (X : Type) : Type := T -> result rpc_error X * list log_entry * T.
Definition reply {X} (x : X) : handler X := fun w => (Ok x, [], w).
Definition refusal {X} (e : rpc_error) : handler X := fun w => (Err e, [], w).
Definition seq {X Y} (m : handler X) (f : X -> handler Y) : handler Y := fun w =>
  match m w with
  | (Ok x, l, w1) => let '(r, l', w2) := f x w1 in (r, l ++ l', w2)
  | (Err e, l, w1) => (Err e, l, w1)
  end.
Local Notation "'let?' x ':=' m 'in' k" := (seq m (fun x => k)) (at level 200, x pattern, m at level 100, k at level 200).
Local Notation "'do?' m 'in' k" := (seq m (fun _ => k)) (at level 200, m at level 100, k at level 200).

Definition lift {X} (r : result rpc_error X) : handler X := fun w => (r, [], w).
Definition authorize (v : verdict) : handler unit := fun w => (v.1, map LogAuthz v.2, w).
Definition log_mutation (event name namespace : gostring) : handler unit := fun w =>
  (Ok tt, if audited then [LogMutation event name namespace] else [], w).
Definition sanitized (e : api_error) : rpc_error :=
  SanitizeK8sError match e with
                   | NotFound => KNotFound | AlreadyExists => KAlreadyExists | Conflict => KConflict | Forbidden => KForbidden | OtherError => other
                   end.
Definition api_call {X} (f : T -> ares X * T) : handler X := fun w =>
  let '(r, w1) := f w in (match r with Ok x => Ok x | Err e => Err (sanitized e) end, [], w1).

Definition invalid {X} (msg : gostring) : handler X := refusal (RpcError CodeInvalidArgument msg).
Definition or_default (namespace : gostring) : gostring := if str_eqb namespace [] then #"default" else namespace.
(** The checks every handler on one task starts with; its namespace. *)
Definition task_target (name namespace : gostring) : handler gostring :=
  let ns := or_default namespace in
  do? lift (ValidateDNS1123Label ns #"namespace") in
  do? lift (ValidateDNS1123Label name #"name") in reply ns.
Definition named_task (name namespace : gostring) : handler gostring :=
  if str_eqb name [] then invalid #"task name is required" else task_target name namespace.
Definition may_access (verb ns name : gostring) : handler unit :=
  do? authorize (AuthorizeAction review audited user verb ns #"agenttasks") in
  authorize (AuthorizeTaskObjectAccess audited user verb ns name).

Definition check_budget_usd (s : gostring) : handler unit :=
  if str_eqb s [] then reply tt
  else match finite_amount s with
       | Some budget => if f_lt budget f_zero then invalid #"budget_usd must be a non-negative number" else reply tt
       | None => invalid #"budget_usd must be a non-negative number"
       end.
Definition CreateTask (name namespace : gostring) (spec : option SpecMsg) : handler TaskMsg :=
  let? ns := named_task name namespace in
  do? authorize (AuthorizeAction review audited user #"create" ns #"agenttasks") in
  match spec with
  | None => invalid #"task spec is required"
  | Some m =>
      if str_eqb (sx_Objective m) [] then invalid #"task objective is required"
      else
        match sx_Repository m with
        | Some repo =>
            if str_eqb (rm_Url repo) [] then invalid #"repository url is required"
            else
              do? check_budget_usd (sx_BudgetUsd m) in
              if sx_BudgetTokens m <? 0 then invalid #"budget_tokens must be non-negative"
              else
                let? task := api_call (task_Create (mkTask name ns [] ∅ ∅ [] time_zero None 0 0 (task_spec m repo) empty_status)) in
                do? log_mutation #"resource.created" (tk_Name task) (tk_Namespace task) in reply (toProtoAgentTask task)
        | None => invalid #"repository url is required"
        end
  end.

Definition GetTask (name namespace : gostring) : handler TaskMsg :=
  let? ns := named_task name namespace in
  do? may_access #"get" ns name in
  let? task := api_call (task_Get (ns, name)) in reply (toProtoAgentTask task).

Definition maxPageTokenLen : nat := 4096.
Definition page_limit (pageSize : Z) : Z := if pageSize <=? 0 then 100 else if 1000 <? pageSize then 1000 else pageSize.
Definition ListTasks (namespace : gostring) (pageSize : Z) (pageToken : gostring) : handler (list TaskMsg * gostring) :=
  do? (if str_eqb namespace [] then reply tt else lift (ValidateDNS1123Label namespace #"namespace")) in
  if (maxPageTokenLen <? length pageToken)%nat then invalid #"page_token exceeds maximum length of 4096"
  else
    do? authorize (AuthorizeAction review audited user #"list" namespace #"agenttasks") in
    let? l := api_call (task_List namespace (Some (page_limit pageSize)) pageToken) in
    reply (map toProtoAgentTask l.1, l.2).

Definition DeleteTask (name namespace : gostring) : handler unit :=
  let? ns := named_task name namespace in
  do? may_access #"delete" ns name in
  do? api_call (fun w => match task_Delete (ns, name) w with (Err NotFound, w1) => (Ok tt, w1) | r => r end) in
  log_mutation #"resource.deleted" name ns.

(** [retry.RetryOnConflict(retry.DefaultRetry, ...)] of a read and an update. *)
Definition is_conflict (e : api_error) : bool := bool_decide (e = Conflict).
Definition update_attempt (k : task_key) (f : AgentTask -> AgentTask) (w : T) : ares AgentTask * T :=
  match task_Get k w with
  | (Ok task, w1) => task_Update (f task) w1
  | (Err e, w1) => (Err e, w1)
  end.
Definition update_task (k : task_key) (f : AgentTask -> AgentTask) : handler AgentTask :=
  api_call (RetryOnConflict is_conflict (update_attempt k f)).

Definition PauseTask (name namespace : gostring) : handler TaskMsg :=
  let? ns := named_task name namespace in
  do? may_access #"update" ns name in
  let? task := update_task (ns, name) (with_Spec (set_Suspended true)) in
  do? log_mutation #"resource.paused" name ns in reply (toProtoAgentTask task).

(** The amount of a resume request; the empty text asks for none. *)
Definition resume_bump (raw : gostring) : option (gostring * float64) :=
  let clean := normalizeBudgetBumpString raw in
  if negb (str_eqb (TrimSpace raw) []) && str_eqb clean [] then None
  else if str_eqb clean [] then Some (clean, f_zero)
  else match finite_amount clean with
       | Some bump => if f_le bump f_zero then None else Some (clean, bump)
       | None => None
       end.
Definition stale_status (st : AgentTaskStatus) : bool :=
  negb (str_eqb (st_Message st) []) || negb (bool_decide (st_LastMeterRequestIDs st = [])).
Definition clear_attempt (k : task_key) (w : T) : ares AgentTask * T :=
  match task_Get k w with
  | (Ok latest, w1) =>
      if negb (stale_status (tk_Status latest)) then (Ok latest, w1)
      else
        let cleared := with_Status (fun st => set_Message [] (set_LastMeterRequestIDs [] st)) latest in
        match task_StatusUpdate cleared w1 with
        | (Err NotFound, w2) => task_Update cleared w2
        | r => r
        end
  | (Err e, w1) => (Err e, w1)
  end.
Definition ResumeTask (name namespace budgetUsdBump : gostring) (budgetTokensBump : Z) : handler TaskMsg :=
  let? ns := named_task name namespace in
  if budgetTokensBump <? 0 then invalid #"budget_tokens_bump must be non-negative"
  else
    match resume_bump budgetUsdBump with
    | None => invalid #"budget_usd_bump must be a positive number"
    | Some (cleanBump, bumpUSD) =>
        do? may_access #"update" ns name in
        let? task := update_task (ns, name)
          (fun task => with_Spec (resumed_spec cleanBump bumpUSD budgetTokensBump (tk_Status task)) task) in
        let? task := (if stale_status (tk_Status task) then api_call (RetryOnConflict is_conflict (clear_attempt (ns, name)))
                      else reply task) in
        do? log_mutation #"resource.resumed" name ns in reply (toProtoAgentTask task)
    end.

(** The error of the guiding callback: the API's, or the refusal. *)
Inductive guide_error := GuideApi (e : api_error) | GuideTerminal (phase : gostring).
Definition terminal_phase (phase : gostring) : bool :=
  str_eqb phase AgentTaskPhaseCompleted || str_eqb phase AgentTaskPhaseFailed.
Definition guided (message : gostring) (task : AgentTask) : AgentTask :=
  with_Annotations (<[ #"divergedev.com/guidance-timestamp" := FormatRFC3339 now]>
                      (<[ #"divergedev.com/guidance" := message]> (tk_Annotations task))) task.
Definition guide_attempt (k : task_key) (message : gostring) (w : T) : result guide_error AgentTask * T :=
  match task_Get k w with
  | (Ok task, w1) =>
      let phase := st_Phase (tk_Status task) in
      if terminal_phase phase then (Err (GuideTerminal phase), w1)
      else match task_Update (guided message task) w1 with
           | (Ok t, w2) => (Ok t, w2)
           | (Err e, w2) => (Err (GuideApi e), w2)
           end
  | (Err e, w1) => (Err (GuideApi e), w1)
  end.
Definition GuideTask (name namespace message : gostring) : handler unit :=
  if str_eqb name [] || str_eqb message [] then invalid #"task name and message are required"
  else
    let? ns := task_target name namespace in
    do? may_access #"update" ns name in
    do? (fun w =>
           let '(r, w1) := RetryOnConflict (fun e => match e with GuideApi x => is_conflict x | _ => false end)
                             (guide_attempt (ns, name) message) w in
           (match r with
            | Ok _ => Ok tt
            | Err (GuideApi e) => Err (sanitized e)
            | Err (GuideTerminal phase) =>
                Err (RpcError CodeFailedPrecondition (#"cannot guide task in terminal phase " ++ phase))
            end, [], w1)) in
    log_mutation #"resource.guided" name ns.

(** ** Logs *)
(** A read of the log: the bytes, and then the end, or an error, or more. *)
Inductive read_end := More | EOF | ReadError (msg : gostring).
(** The loop: what is sent, and how it ends; [None] waits for more. [send n]
    is the error of the [n]th message. *)
Fixpoint pump (send : nat -> option rpc_error) (reads : list (gostring * read_end)) (n : nat)
    : list gostring * option (result rpc_error unit) :=
  match reads with
  | [] => ([], None)
  | (data, e) :: reads =>
      let after n :=
        match e with
        | More => pump send reads n
        | EOF => ([], Some (Ok tt))
        | ReadError msg => ([], Some (Err (RpcError CodeInternal (#"read pod log stream: " ++ msg))))
        end in
      match data with
      | [] => after n
      | _ =>
          match send n with
          | Some err => ([data], Some (Err err))
          | None => let '(sent, r) := after (S n) in (data :: sent, r)
          end
      end
  end.
(** What a streamer opens: the pod, the options, and the reads. *)
Context (connect_text : limit_error -> gostring) (clientset : bool)
  (GetLogs : gostring -> gostring -> bool -> option Z -> result k8s_error (list (gostring * read_end)))
  (send : nat -> option rpc_error).
(** The stream limiter, when there is one: the slot is taken before the log is
    opened and given back when the stream ends. *)
Definition log_stream (ns podName : gostring) (follow : bool) (tailLines : Z) : list gostring * option (result rpc_error unit) :=
  if negb clientset then
    let line := #"k8sClient unavailable for logs" ++ ["010"%char] in
    ([line], Some (match send O with Some e => Err e | None => Ok tt end))
  else
    match GetLogs ns podName follow (if 0 <? tailLines then Some tailLines else None) with
    | Err e => ([], Some (Err (SanitizeK8sError e)))
    | Ok reads => pump send reads O
    end.
Definition log_task (name namespace : gostring) : handler (gostring * gostring) :=
  let? ns := named_task name namespace in
  do? may_access #"get" ns name in
  do? authorize (AuthorizePodLogs review audited user ns) in
  let? task := api_call (task_Get (ns, name)) in
  let podName := st_SandboxPodName (tk_Status task) in
  if str_eqb podName []
  then refusal (RpcError CodeFailedPrecondition (#"sandbox pod not yet bound for task " ++ name))
  else reply (ns, podName).
(** The messages sent, the result once the stream has ended, and the limiter. *)
Definition StreamTaskLogs (name namespace : gostring) (follow : bool) (tailLines : Z) (lim : option limiter) (w : T)
    : list gostring * option (result rpc_error unit) * option limiter * list log_entry * T :=
  let '(r, l, w1) := log_task name namespace w in
  match r with
  | Err e => ([], Some (Err e), lim, l, w1)
  | Ok (ns, podName) =>
      match lim with
      | None => let '(sent, res) := log_stream ns podName follow tailLines in (sent, res, None, l, w1)
      | Some lm =>
          match Acquire user lm with
          | (Err e, lm1, _) => ([], Some (Err (RpcError CodeResourceExhausted (connect_text e))), Some lm1, l, w1)
          | (Ok username, lm1, _) =>
              let '(sent, res) := log_stream ns podName follow tailLines in
              (sent, res, Some (match res with Some _ => fst (release_body username lm1) | None => lm1 end), l, w1)
          end
      end
  end.
End Service.
