(* ===== verification/ResourceService.v ===== *)
(** * The environment and preview group services:
    [internal/server/environment.go], [internal/server/previewgroup.go],
    [internal/server/hooks.go]

    The RPC handlers on environments and preview groups, in the handlers of
    [AgentTaskService]: the reply or the error, the audit log, the API server.
    The two services have the same handlers up to a [Kind]: the names of the
    resource, its messages, the paths of an update mask, and for preview
    groups the check of the namespaces of their services.  An audit entry is
    about the kind of its handler.  [client.List] with a limit, a continue
    token and a parsed selector is [PageApi]; watching is in [ResourceWatch] and logs in [ResourceLogs]. *)

From stdpp Require Import sorting.
From S2P Require Import Prelude GoStrings GoTime GoQuote AuthProvider Authz TokenStore KubeApi AgentTask ObjectApi ResourceNames.
From S2P Require Import EnvTypes GroupTypes Resources ResourceMessages AgentTaskService.
Local Open Scope Z_scope.

(** ** Pages *)
Class PageApi (Ob W Sel : Type) := {
  labels_Parse : gostring -> result gostring Sel;
  (** namespace, empty for all; limit; continue token; selector *)
  obj_ListPage : gostring -> Z -> gostring -> option Sel -> W -> ares (list Ob * gostring) * W }.

(** ** Jobs of hooks, as the service reads them *)
Record JobCondition := mkJobCondition { jc_Type : gostring; jc_Status : gostring; jc_Message : gostring }.
#[global] Instance JobCondition_eq_dec : EqDecision JobCondition.
Proof. solve_decision. Defined.
Record HookJob := mkHookJob {
  hj_Name : gostring; hj_Namespace : gostring; hj_UID : gostring; hj_Labels : labels; hj_Finalizers : list gostring;
  hj_CreationTimestamp : Time; hj_Deletion : option Time; hj_Version : Z;
  hj_Active : Z; hj_Conditions : list JobCondition; hj_CompletionTime : option Time }.
#[global] Instance HookJob_eq_dec : EqDecision HookJob.
Proof. solve_decision. Defined.
#[global] Instance hook_job_resource : Resource HookJob := {
  r_key j := (hj_Namespace j, hj_Name j);
  r_labels := hj_Labels; r_finalizers := hj_Finalizers; r_deletion := hj_Deletion; r_version := hj_Version; r_uid := hj_UID;
  with_version v j := mkHookJob (hj_Name j) (hj_Namespace j) (hj_UID j) (hj_Labels j) (hj_Finalizers j) (hj_CreationTimestamp j)
    (hj_Deletion j) v (hj_Active j) (hj_Conditions j) (hj_CompletionTime j);
  r_create j uid now v := mkHookJob (hj_Name j) (hj_Namespace j) uid (hj_Labels j) (hj_Finalizers j) now None v 0 [] None;
  r_update cur j g v := mkHookJob (hj_Name cur) (hj_Namespace cur) (hj_UID cur) (hj_Labels j) (hj_Finalizers j)
    (hj_CreationTimestamp cur) (hj_Deletion cur) v (hj_Active cur) (hj_Conditions cur) (hj_CompletionTime cur);
  r_mark j now v := mkHookJob (hj_Name j) (hj_Namespace j) (hj_UID j) (hj_Labels j) (hj_Finalizers j) (hj_CreationTimestamp j)
    (Some (default now (hj_Deletion j))) v (hj_Active j) (hj_Conditions j) (hj_CompletionTime j) }.
#[global] Instance hook_job_laws : ResourceLaws HookJob.
Proof. by split. Qed.

(** The message of a job; [sort.Slice] is not stable: any order with the newest
    first. *)
Record HookJobMsg := mkHookJobMsg {
  hm_Name : gostring; hm_Type : gostring; hm_Phase : gostring; hm_Message : gostring; hm_CreatedAt : Time;
  hm_CompletedAt : option Time; hm_DurationSeconds : Z }.
Definition not_older (a b : HookJobMsg) : Prop := After (hm_CreatedAt b) (hm_CreatedAt a) = false.
Class JobOrder := {
  newest_first : list HookJobMsg -> list HookJobMsg;
  newest_first_perm : forall l, newest_first l ≡ₚ l;
  newest_first_sorted : forall l, StronglySorted not_older (newest_first l) }.

Section Handlers.
Context (other : k8s_error) (review : UserInfo -> attrs -> option bool) (audited : bool) (user : option UserInfo) (now : Time).
Local Notation "'let?' x ':=' m 'in' k" := (seq m (fun x => k)) (at level 200, x pattern, m at level 100, k at level 200).
Local Notation "'do?' m 'in' k" := (seq m (fun _ => k)) (at level 200, m at level 100, k at level 200).

Section Kinds.
Context {U : GoUnicode} {Ob M W Sel : Type} {R : Resource Ob} {CM : Crd Ob} {API : ObjectApi Ob W} {PA : PageApi Ob W Sel}.
Local Abbreviation H := (handler (T := W)).

Definition internal {X} : H X := refusal (RpcError CodeInternal #"internal server error").
Definition converted {X} (o : option X) : H X := match o with Some x => reply x | None => internal end.
Definition may (verb ns resource : gostring) : H unit := authorize (AuthorizeAction review audited user verb ns resource).
Definition label (value field : gostring) : H unit := lift (ValidateDNS1123Label value field).
Definition label_if_any (value field : gostring) : H unit := if str_eqb value [] then reply tt else label value field.

Record Kind := mkKind {
  kd_resource : gostring;
  kd_required : gostring;
  kd_meta : M -> Meta;
  kd_to_message : Ob -> option M;
  kd_of_message : M -> option Ob;
  (** the paths of an update mask, their list in the error, what one copies *)
  kd_paths : list gostring;
  kd_paths_text : gostring;
  kd_copy : gostring -> Ob -> Ob -> Ob;
  kd_check : gostring -> M -> H unit }.
Context (k : Kind).

Definition set_crd_namespace (ns : gostring) (o : Ob) : Ob :=
  let m := crd_meta o in
  crd_set_meta (mkMeta (mt_Name m) ns (mt_Labels m) (mt_Annotations m) (mt_ResourceVersion m) (mt_CreatedAt m)) o.
Definition Create (namespace : gostring) (msg : option M) : H M :=
  match msg with
  | None => invalid (kd_required k)
  | Some m =>
      let ns := or_default namespace in
      do? label ns #"namespace" in
      do? label_if_any (mt_Name (kd_meta k m)) #"name" in
      do? (if str_eqb (mt_Namespace (kd_meta k m)) [] then reply tt
           else lift (ValidateNamespaceMatch ns (mt_Namespace (kd_meta k m)))) in
      do? may #"create" ns (kd_resource k) in
      do? kd_check k ns m in
      let? crd := converted (kd_of_message k m) in
      let? made := api_call other (obj_Create (set_crd_namespace ns crd)) in
      do? log_mutation audited #"resource.created" (snd (r_key made)) (fst (r_key made)) in
      converted (kd_to_message k made)
  end.

Definition Get (name namespace : gostring) : H M :=
  do? label name #"name" in
  do? label namespace #"namespace" in
  do? may #"get" namespace (kd_resource k) in
  let? crd := api_call other (obj_Get (namespace, name)) in
  converted (kd_to_message k crd).

Definition maxLabelSelectorLen : nat := 1024.
Definition parsed_selector (text : gostring) : H (option Sel) :=
  if str_eqb text [] then reply None
  else match labels_Parse text with
       | Ok sel => reply (Some sel)
       | Err e => invalid (#"invalid label_selector: " ++ e)
       end.
Definition List_ (namespace : gostring) (pageSize : Z) (pageToken labelSelector : gostring) : H (list M * gostring) :=
  do? label_if_any namespace #"namespace" in
  if (maxPageTokenLen <? length pageToken)%nat then invalid #"page_token exceeds maximum length of 4096"
  else if (maxLabelSelectorLen <? length labelSelector)%nat then invalid #"label_selector exceeds maximum length of 1024"
  else
    do? may #"list" namespace (kd_resource k) in
    let? sel := parsed_selector labelSelector in
    let? page := api_call other (obj_ListPage namespace (page_limit pageSize) pageToken sel) in
    reply (omap (kd_to_message k) page.1, page.2).

Definition set_version (v : Z) (o : Ob) : Ob := with_version v o.
Definition resource_version_required : gostring :=
  #"resource_version is required; fetch the current resource first and include its resource_version to prevent concurrent modification".
(** [msg.UpdateMask.Paths]: no mask is one without paths. *)
Fixpoint check_paths (paths : list gostring) : H unit :=
  match paths with
  | [] => reply tt
  | path :: paths =>
      if bool_decide (path ∈ kd_paths k) then check_paths paths
      else invalid (#"unsupported field mask path: " ++ Quote path ++ #"; allowed paths are: " ++ kd_paths_text k)
  end.
Definition whole_paths : list gostring := [ #"spec"; #"labels"; #"annotations"].
Definition masked (paths : list gostring) (new existing : Ob) : Ob :=
  fold_left (fun o path => kd_copy k path new o) (match paths with [] => whole_paths | _ => paths end) existing.
Definition Update (msg : option M) (paths : list gostring) : H M :=
  match msg with
  | None => invalid (kd_required k)
  | Some m =>
      let mt := kd_meta k m in
      if mt_ResourceVersion mt =? 0 then invalid resource_version_required
      else
        do? label_if_any (mt_Name mt) #"name" in
        let ns := or_default (mt_Namespace mt) in
        do? label ns #"namespace" in
        do? may #"update" ns (kd_resource k) in
        do? kd_check k ns m in
        let? existing := api_call other (obj_Get (ns, mt_Name mt)) in
        let? new := converted (kd_of_message k m) in
        do? check_paths paths in
        let? stored := api_call other (obj_Update (masked paths new (set_version (mt_ResourceVersion mt) existing))) in
        do? log_mutation audited #"resource.updated" (snd (r_key stored)) (fst (r_key stored)) in
        converted (kd_to_message k stored)
  end.

Definition Delete (name namespace : gostring) : H unit :=
  do? label name #"name" in
  do? label namespace #"namespace" in
  do? may #"delete" namespace (kd_resource k) in
  do? api_call other (obj_Delete (Ob := Ob) None (namespace, name)) in
  log_mutation audited #"resource.deleted" name namespace.
End Kinds.
Arguments Kind : clear implicits.

(** ** Environments *)
Section Environments.
Context {U : GoUnicode} {M Doc W Sel : Type} {EC : Codec Environment M Doc} {EX : EnvMessage M} {LS : LabelSyntax}.
Context {API : ObjectApi Environment W} {PA : PageApi Environment W Sel}.
Local Abbreviation H := (handler (T := W)).
Definition es_set_Features (x : option FeatureSpec) (s : EnvironmentSpec) : EnvironmentSpec :=
  mkEnvSpec (es_Source s) (es_Deploy s) (es_Routing s) (es_Database s) (es_Lifecycle s) x (es_Testing s) (es_ServiceConfig s) (es_EnvFrom s).
Definition set_Overrides (x : gmap gostring gostring) (f : FeatureSpec) : FeatureSpec := mkFeature (ft_Provider f) x (ft_ConnectionRef f).
Definition environment_paths : list gostring := [ #"spec"; #"spec.features"; #"spec.features.overrides"; #"labels"; #"annotations"].
Definition copy_environment (path : gostring) (new o : Environment) : Environment :=
  let with_features x := ev_set_Spec (es_set_Features x (ev_Spec o)) o in
  if str_eqb path #"spec" then ev_set_Spec (ev_Spec new) o
  else if str_eqb path #"spec.features" then with_features (es_Features (ev_Spec new))
  else if str_eqb path #"spec.features.overrides" then
    with_features (Some (set_Overrides (match es_Features (ev_Spec new) with Some f => ft_Overrides f | None => ∅ end)
                           (default (mkFeature [] ∅ []) (es_Features (ev_Spec o)))))
  else if str_eqb path #"labels" then
    mkEnvironment (ev_Name o) (ev_Namespace o) (ev_UID o) (ev_Labels new) (ev_Annotations o) (ev_Finalizers o) (ev_OwnerReferences o)
      (ev_CreationTimestamp o) (ev_DeletionTimestamp o) (ev_Generation o) (ev_ResourceVersion o) (ev_Spec o) (ev_Status o)
  else if str_eqb path #"annotations" then ev_set_Annotations (ev_Annotations new) o
  else o.
Definition EnvironmentKind : Kind Environment M W :=
  mkKind #"environments" #"environment is required" msg_meta CRDEnvToProto ProtoEnvToCRD environment_paths
    #"spec, spec.features, spec.features.overrides, labels, annotations" copy_environment (fun _ _ => reply tt).
Definition CreateEnvironment := Create EnvironmentKind.
Definition GetEnvironment := Get EnvironmentKind.
Definition ListEnvironments := List_ (Sel := Sel) EnvironmentKind.
Definition UpdateEnvironment := Update EnvironmentKind.
Definition DeleteEnvironment := Delete EnvironmentKind.

(** *** [ExtendTTL] *)
(** The errors of an attempt: a reply, or an error of the API as it is, which
    connect replies with its text and the unknown code. *)
Inductive extend_error := ExtendRefused (e : rpc_error) | ExtendApi (e : api_error) | ExtendUnconverted (msg : gostring).
Context {RT : Retry W} (api_text : api_error -> gostring) (mapper_text : gostring).
Definition uncoded (msg : gostring) : rpc_error := RpcError CodeUnknown msg.
Definition extend_reply (e : extend_error) : rpc_error :=
  match e with ExtendRefused e => e | ExtendApi e => uncoded (api_text e) | ExtendUnconverted msg => uncoded msg end.
Definition max_extension : Z := 168 * 60 * Minute.
Definition precondition (msg : gostring) : extend_error := ExtendRefused (RpcError CodeFailedPrecondition msg).
(** The time to live that ends [extendBy] after the expiry, or after now. *)
Definition new_expiry (extendBy : Z) (env : Environment) : Time :=
  let expiresAt := default time_zero (et_ExpiresAt (ev_Status env)) in
  Add (if Before expiresAt now then now else expiresAt) extendBy.
Definition ttl_start (env : Environment) : Time := default (ev_CreationTimestamp env) (et_CreatedAt (ev_Status env)).
Definition extended (extendBy : Z) (env : Environment) : Environment :=
  ev_set_Spec (es_set_Lifecycle (lc_set_TTL (Some (Sub (new_expiry extendBy env) (ttl_start env))) (es_Lifecycle (ev_Spec env))) (ev_Spec env)) env.
Definition extend_attempt (key : obj_key) (extendBy : Z) (w : W) : result extend_error M * W :=
  match obj_Get (Ob := Environment) key w with
  | (Err e, w1) => (Err (ExtendRefused (sanitized other e)), w1)
  | (Ok env, w1) =>
      if bool_decide (is_Some (ev_DeletionTimestamp env)) then (Err (precondition #"environment is being deleted"), w1)
      else if bool_decide (lc_TTL (es_Lifecycle (ev_Spec env)) = None) then (Err (precondition #"environment has no TTL configured"), w1)
      else
        match obj_Update (extended extendBy env) w1 with
        | (Err e, w2) => (Err (ExtendApi e), w2)
        | (Ok env', w2) =>
            match CRDEnvToProto env' with
            | Some m => (Ok m, w2)
            | None => (Err (ExtendUnconverted mapper_text), w2)
            end
        end
  end.
Definition is_api_conflict (e : extend_error) : bool := match e with ExtendApi e => is_conflict e | _ => false end.
Definition extend_retried (key : obj_key) (extendBy : Z) : H M := fun w =>
  let '(r, w1) := RetryOnConflict is_api_conflict (extend_attempt key extendBy) w in
  (match r with Ok m => Ok m | Err e => Err (extend_reply e) end, [], w1).
(** [extendBy] is [AsDuration] of the field, nil without it. *)
Definition ExtendTTL (name namespace : gostring) (extendBy : option Z) : H M :=
  do? label name #"name" in
  do? label namespace #"namespace" in
  do? may #"update" namespace #"environments" in
  match extendBy with
  | Some d =>
      if d <=? 0 then invalid #"extend_by must be a positive duration"
      else if max_extension <? d then invalid #"extend_by cannot exceed 7 days"
      else
        let? m := extend_retried (namespace, name) d in
        do? log_mutation audited #"resource.ttl_extended" name namespace in reply m
  | None => invalid #"extend_by must be a positive duration"
  end.
End Environments.

(** ** Hooks *)
(** The environments and the jobs of the API server. *)
Section Hooks.
Context {WE WJ : Type} {API : ObjectApi Environment WE} {JA : ObjectApi HookJob WJ} {JO : JobOrder}.
Local Abbreviation H := (handler (T := WE * WJ)).
Definition of_environments {X} (m : handler (T := WE) X) : H X := fun w => let '(r, l, w1) := m (fst w) in (r, l, (w1, snd w)).
Definition of_jobs {X} (m : handler (T := WJ) X) : H X := fun w => let '(r, l, w1) := m (snd w) in (r, l, (fst w, w1)).
Definition hookEnvironmentLabel : gostring := #"divergedev.com/environment".
Definition hookTypeLabel : gostring := #"divergedev.com/hook-type".
Definition JobComplete : gostring := #"Complete".
Definition JobFailed : gostring := #"Failed".
Definition holds (type : gostring) (c : JobCondition) : bool := str_eqb (jc_Type c) type && str_eqb (jc_Status c) #"True".
(** The phase and the message of the first condition that ends the job. *)
Fixpoint finished (conds : list JobCondition) : option (gostring * gostring) :=
  match conds with
  | [] => None
  | c :: conds =>
      if holds JobComplete c then Some (#"Succeeded", jc_Message c)
      else if holds JobFailed c then Some (#"Failed", jc_Message c)
      else finished conds
  end.
Definition hook_phase (job : HookJob) : gostring * gostring :=
  match hj_Conditions job with
  | [] => (if 0 <? hj_Active job then #"Running" else #"Pending", [])
  | conds => default (#"Pending", []) (finished conds)
  end.
(** Times of the API are whole seconds. *)
Definition hook_message (job : HookJob) : HookJobMsg :=
  let '(phase, message) := hook_phase job in
  mkHookJobMsg (hj_Name job) (default [] (hj_Labels job !! hookTypeLabel)) phase message (hj_CreationTimestamp job)
    (hj_CompletionTime job)
    (match hj_CompletionTime job with Some t => wrap32 (Z.quot (Sub t (hj_CreationTimestamp job)) Second) | None => 0 end).
Definition hook_target (environment namespace : gostring) : H gostring :=
  let ns := or_default namespace in
  do? label ns #"namespace" in do? label environment #"environment_name" in reply ns.
Definition ListHookJobs (environment namespace : gostring) : H (list HookJobMsg) :=
  let? ns := hook_target environment namespace in
  do? may #"list" ns #"jobs" in
  let? jobs := of_jobs (api_call other (obj_List (Ob := HookJob) {[hookEnvironmentLabel := environment]} ns)) in
  reply (newest_first (map hook_message jobs)).

(** The newest failed job, the first of those created together. *)
Definition newer_failed (best : option HookJob) (job : HookJob) : option HookJob :=
  if existsb (holds JobFailed) (hj_Conditions job) then
    match best with
    | Some b => if After (hj_CreationTimestamp job) (hj_CreationTimestamp b) then Some job else best
    | None => Some job
    end
  else best.
Definition newest_failed (jobs : list HookJob) : option HookJob := fold_left newer_failed jobs None.
Definition AnnotationRetryHook : gostring := #"divergedev.com/retry-hook".
(** [client.MergeFrom(base)] on the annotations. *)
Definition retry_patch (base : Environment) (hookType : gostring) (cur : Environment) : Environment :=
  ev_set_Annotations (merge_map (ev_Annotations base) (<[AnnotationRetryHook := hookType]> (ev_Annotations base)) (ev_Annotations cur)) cur.
Definition RetryHook (environment namespace hookType : gostring) : H HookJobMsg :=
  let? ns := hook_target environment namespace in
  if negb (str_eqb hookType #"migration") && negb (str_eqb hookType #"postdeploy")
  then invalid #"hook_type must be migration or postdeploy"
  else
    do? authorize (AuthorizeRetryHook review audited user ns) in
    let? jobs := of_jobs (api_call other (obj_List (Ob := HookJob) (<[hookEnvironmentLabel := environment]> {[hookTypeLabel := hookType]}) ns)) in
    match newest_failed jobs with
    | None => refusal (RpcError CodeFailedPrecondition #"no failed job found to retry")
    | Some failed =>
        let? env := of_environments (api_call other (obj_Get (Ob := Environment) (ns, environment))) in
        do? of_jobs (api_call other (obj_Delete (Ob := HookJob) None (r_key failed))) in
        do? of_environments (api_call other (obj_Patch (r_key env) (retry_patch env hookType))) in
        do? log_mutation audited #"retry" (hj_Name failed) ns in
        reply (mkHookJobMsg (hj_Name failed) hookType #"Pending" [] now None 0)
    end.
End Hooks.

(** ** Preview groups *)
Section Groups.
Context {U : GoUnicode} {M Doc W Sel : Type} {GC : Codec PreviewGroup M Doc} {GX : GroupMessage M} {LS : LabelSyntax}.
Context {API : ObjectApi PreviewGroup W} {PA : PageApi PreviewGroup W Sel}.
Local Abbreviation H := (handler (T := W)).
Definition denied_for (ns : gostring) (m : H unit) : H unit := fun w =>
  match m w with
  | (Err (RpcError CodePermissionDenied _), l, w1) =>
      (Err (RpcError CodePermissionDenied (#"permission denied for service namespace " ++ ns)), l, w1)
  | r => r
  end.
Fixpoint authorize_namespaces (checked : gset gostring) (namespaces : list gostring) : H unit :=
  match namespaces with
  | [] => reply tt
  | ns :: namespaces =>
      if str_eqb ns [] || bool_decide (ns ∈ checked) then authorize_namespaces checked namespaces
      else
        do? label ns #"service.namespace" in
        do? denied_for ns (may #"create" ns #"environments") in
        authorize_namespaces ({[ns]} ∪ checked) namespaces
  end.
Definition authorizeServiceNamespaces (namespace : gostring) (m : M) : H unit :=
  match msg_service_namespaces m with
  | None => reply tt
  | Some namespaces => authorize_namespaces {[namespace]} namespaces
  end.
Definition group_paths : list gostring := [ #"spec"; #"labels"; #"annotations"].
Definition copy_group (path : gostring) (new o : PreviewGroup) : PreviewGroup :=
  if str_eqb path #"spec" then pg_set_Spec (pg_Spec new) o
  else if str_eqb path #"labels" then
    mkPreviewGroup (pg_Name o) (pg_Namespace o) (pg_UID o) (pg_Labels new) (pg_Annotations o) (pg_Finalizers o)
      (pg_CreationTimestamp o) (pg_DeletionTimestamp o) (pg_Generation o) (pg_ResourceVersion o) (pg_Spec o) (pg_Status o)
  else if str_eqb path #"annotations" then pg_set_Annotations (pg_Annotations new) o
  else o.
Definition GroupKind : Kind PreviewGroup M W :=
  mkKind #"previewgroups" #"preview group is required" msg_meta CRDPgToProto ProtoPgToCRD group_paths
    #"spec, labels, annotations" copy_group authorizeServiceNamespaces.
Definition CreatePreviewGroup := Create GroupKind.
Definition GetPreviewGroup := Get GroupKind.
Definition ListPreviewGroups := List_ (Sel := Sel) GroupKind.
Definition UpdatePreviewGroup := Update GroupKind.
Definition DeletePreviewGroup := Delete GroupKind.
End Groups.
End Handlers.
Arguments Kind : clear implicits.
