(* ===== verification/AgentTaskServiceFacts.v ===== *)
(** * What the agent task service guarantees

    A capability token reads its own task and does nothing else; each
    mutation either changes exactly the fields it names of the one stored task
    or changes nothing; resuming lifts the limits it says it lifts. *)

From S2P Require Import Prelude GoStrings GoFloat GoTime AuthProvider Authz AuthFacts StreamLimiter.
From S2P Require Import KubeApi AgentTask AgentTaskService.
Local Open Scope Z_scope.

Section Facts.
Context {T : Type} {C : TaskClient T} {L : TaskClientLaws T} {A : TaskAdmin T} {AL : TaskAdminLaws T} {R : Retry T}.
Context (other : k8s_error) (review : UserInfo -> attrs -> option bool) (audited : bool) (user : option UserInfo) (now : Time).

Abbreviation H := (handler (T := T)).

(** ** Handlers *)
Lemma seq_Ok {X Y} (m : H X) (f : X -> handler Y) w y l w' : seq m f w = (Ok y, l, w') ->
  exists x l1 w1 l2, m w = (Ok x, l1, w1) /\ f x w1 = (Ok y, l2, w') /\ l = l1 ++ l2.
Proof.
  unfold seq. destruct (m w) as [[[x|e] l1] w1]; [|done]. destruct (f x w1) as [[r l2] w2] eqn:Ef.
  intros [= -> <- ->]. eauto 10.
Qed.
(** A handler that leaves the world as it is. *)
Definition pure {X} (m : H X) : Prop := forall w, snd (m w) = w.
Lemma pure_seq {X Y} (m : H X) (f : X -> handler Y) : pure m -> (forall x, pure (f x)) -> pure (seq m f).
Proof.
  intros Hm Hf w. unfold seq. specialize (Hm w). destruct (m w) as [[[x|e] l] w1]; cbn in *; [|done]. subst w1.
  specialize (Hf x w). by destruct (f x w) as [[r l'] w2].
Qed.
Lemma pure_named name ns : pure (named_task name ns : H _).
Proof.
  unfold named_task. destruct (str_eqb name []); [done|]. apply pure_seq; [done|]. intros _. by apply pure_seq.
Qed.
Lemma pure_access verb ns name : pure (may_access review audited user verb ns name : H _).
Proof. by apply pure_seq. Qed.

(** What is common to the handlers on one task: a part that only checks,
    then the access check. *)
Lemma named_Ok name ns w x l w' : (named_task name ns : H _) w = (Ok x, l, w') -> x = or_default ns /\ w' = w /\ name <> [].
Proof.
  intros H. pose proof (pure_named name ns w) as Hp. rewrite H in Hp. cbn in Hp. revert H. unfold named_task, str_eqb.
  case_bool_decide; [done|]. intros (? & ? & ? & ? & _ & (? & ? & ? & ? & _ & [= <- <- <-] & _)%seq_Ok & _)%seq_Ok. auto.
Qed.
Lemma macaroon_refused u verb ns : isMacaroonUser u = true -> verb <> #"get" ->
  AuthorizeAction review audited (Some u) verb ns #"agenttasks" = denied audited u verb #"agenttasks" ns #"permission denied".
Proof.
  intros Hu Hv. unfold AuthorizeAction. rewrite Hu. unfold authorizeMacaroon, eqs.
  by rewrite (bool_decide_eq_true_2 (_ = _)), (bool_decide_eq_false_2 _ Hv) by done.
Qed.
(** [m] is refused and changes nothing. *)
Definition refused {X} (m : H X) (w : T) : Prop := exists e, fst (fst (m w)) = Err e /\ snd (m w) = w.
Lemma refused_seq {X Y} (m : H X) (f : X -> handler Y) w : pure m ->
  (forall x l w', m w = (Ok x, l, w') -> refused (f x) w) -> refused (seq m f) w.
Proof.
  intros Hm Hf. specialize (Hm w). unfold refused, seq. destruct (m w) as [[[x|e] l] w1] eqn:Em; cbn in *; [|eauto]. subst w1.
  destruct (Hf x l w eq_refl) as (e & He & Hw). destruct (f x w) as [[r l'] w2]; cbn in *. eauto.
Qed.
Lemma refused_authorize {X} v (f : unit -> H X) w e l : v = (Err e, l) -> refused (seq (authorize v) f : H _) w.
Proof. intros ->. exists e. done. Qed.
Lemma refused_access {X} u verb ns name (f : unit -> H X) w : user = Some u -> isMacaroonUser u = true -> verb <> #"get" ->
  refused (seq (may_access review audited user verb ns name) f) w.
Proof.
  intros Hs Hu Hv. apply refused_seq; [apply pure_access|]. intros x l w' Ha. exfalso.
  apply seq_Ok in Ha as (? & ? & ? & ? & Ha & _). unfold authorize in Ha. by rewrite Hs, macaroon_refused in Ha.
Qed.

(** The requests on tasks other than reading one. *)
Inductive request :=
| RCreate (name namespace : gostring) (spec : option SpecMsg)
| RList (namespace : gostring) (pageSize : Z) (pageToken : gostring)
| RDelete (name namespace : gostring)
| RPause (name namespace : gostring)
| RResume (name namespace budgetUsdBump : gostring) (budgetTokensBump : Z)
| RGuide (name namespace message : gostring).
Definition serve_request (q : request) : H unit :=
  let drop {X} (m : handler X) : handler unit := seq m (fun _ => reply tt) in
  match q with
  | RCreate name ns spec => drop (CreateTask other review audited user name ns spec)
  | RList ns n tok => drop (ListTasks other review audited user ns n tok)
  | RDelete name ns => DeleteTask other review audited user name ns
  | RPause name ns => drop (PauseTask other review audited user name ns)
  | RResume name ns usd tokens => drop (ResumeTask other review audited user name ns usd tokens)
  | RGuide name ns msg => GuideTask other review audited user now name ns msg
  end.
Lemma refused_drop {X} (m : H X) w : refused m w -> refused (seq m (fun _ => reply tt)) w.
Proof. intros (e & He & Hw). unfold refused, seq. destruct (m w) as [[[x|e'] l] w1]; cbn in *; [done|eauto]. Qed.
Lemma invalid_refused {X} msg w : refused (invalid msg : H X) w.
Proof. by eexists. Qed.

(** C15: the capability token of a sandbox can read its own task and nothing
    else of the service: every request to create, list, delete, pause, resume
    or guide a task is refused and changes nothing, and a task it reads is the
    one the token was minted for, in the token's namespace. *)
Theorem token_reads_own_task u : user = Some u -> isMacaroonUser u = true ->
  (forall q w, refused (serve_request q) w) /\
  forall name ns w m l w', GetTask other review audited user name ns w = (Ok m, l, w') ->
    name = extra_first u ExtraKeyTaskID /\ or_default ns = extra_first u ExtraKeyNamespace /\ w' = w /\
    exists t, task_stored w !! (extra_first u ExtraKeyNamespace, extra_first u ExtraKeyTaskID) = Some t /\ m = toProtoAgentTask t.
Proof using L.
  intros Hu Hm. split.
  - intros [] w; cbn [serve_request]; try apply refused_drop.
    + apply refused_seq; [apply pure_named|]. intros ns' l w' _. eapply refused_authorize. rewrite Hu. by apply macaroon_refused.
    + apply refused_seq; [by destruct (str_eqb namespace [])|]. intros _ l w' _.
      destruct (_ <? _)%nat; [apply invalid_refused|]. eapply refused_authorize. rewrite Hu. by apply macaroon_refused.
    + apply refused_seq; [apply pure_named|]. intros ns' l w' _. by eapply refused_access.
    + apply refused_seq; [apply pure_named|]. intros ns' l w' _. by eapply refused_access.
    + apply refused_seq; [apply pure_named|]. intros ns' l w' _. destruct (_ <? 0); [apply invalid_refused|].
      destruct (resume_bump _) as [[c b]|]; [by eapply refused_access|apply invalid_refused].
    + unfold GuideTask. destruct (_ || _); [apply invalid_refused|].
      apply refused_seq; [by apply pure_seq; [|intros; apply pure_seq]|]. intros ns' l w' _. by eapply refused_access.
  - intros name ns w m l w' (ns' & ? & w1 & ? & (-> & -> & _)%named_Ok & H & _)%seq_Ok.
    apply seq_Ok in H as (? & ? & w2 & ? & Ha & H & _).
    pose proof (pure_access #"get" (or_default ns) name w) as Hp. rewrite Ha in Hp. cbn in Hp. subst w2.
    apply seq_Ok in H as (t & ? & w3 & ? & Hc & [= <- _ ->] & _).
    apply seq_Ok in Ha as ([] & ? & w4 & ? & H1 & H2 & _). rewrite Hu in H1, H2.
    assert (extra_first u ExtraKeyNamespace = or_default ns) as Hns.
    { injection H1 as H1 _ _. unfold AuthorizeAction in H1. rewrite Hm in H1. unfold authorizeMacaroon, eqs in H1.
      rewrite andb_false_r in H1. destruct (_ || _) eqn:E; [done|]. apply orb_false_iff in E as [_ E].
      by apply negb_false_iff, bool_decide_eq_true in E. }
    assert (extra_first u ExtraKeyTaskID = name) as Hn.
    { injection H2 as H2 _ _. unfold AuthorizeTaskObjectAccess in H2. rewrite Hm in H2. cbn [negb] in H2.
      destruct (_ || negb (eqs _ _)) eqn:E; [done|]. apply orb_false_iff in E as [_ E].
      by apply negb_false_iff, bool_decide_eq_true in E. }
    rewrite Hns, Hn. unfold api_call in Hc. pose proof (task_Get_pure (or_default ns, name) w) as Hg.
    destruct (task_Get _ w) as [[t0|e] w5] eqn:Et; [|done]. cbn in Hg. subst w5. injection Hc as -> _ ->.
    split; [done|]. split; [done|]. split; [done|]. exists t. split; [|done]. apply task_Get_Ok. by rewrite Et.
Qed.

(** ** Mutations *)
(** What an update of one task stores. *)
Lemma update_task_spec k (f : AgentTask -> AgentTask) w r l w' : (forall t, key_of (f t) = key_of t) ->
  (update_task other k f : H _) w = (r, l, w') ->
  match r with
  | Ok t' => exists t g v, task_stored w !! k = Some t /\ t' = updated t (f t) g v /\
               task_stored w' = store_updated t' (task_stored w)
  | Err _ => task_stored w' = task_stored w
  end.
Proof using L.
  intros Hf. unfold update_task, api_call.
  destruct (RetryOnConflict is_conflict (update_attempt k f) w) as [x w1] eqn:Er. intros [= <- _ <-].
  apply Retry_attempts in Er. apply attempts_last_run with (P := fun v => task_stored v = task_stored w) in Er as (v & Hv & Ha); [|done|].
  - unfold update_attempt in Ha. pose proof (task_Get_pure k v) as Hp. pose proof (task_Get_Ok k v) as Hg.
    destruct (task_Get k v) as [[t|e] v1]; cbn in *; subst v1; [|injection Ha as <- <-; done].
    specialize (Hg t eq_refl). pose proof (task_stored_key _ _ _ Hg) as Hk.
    destruct x as [t'|e]; [|by apply task_Update_Err in Ha; rewrite Ha].
    apply task_Update_Ok in Ha as (cur & g & ver & Hc & _ & -> & ->). rewrite Hf, Hk, Hg in Hc. injection Hc as <-.
    exists t, g, ver. by rewrite <- Hv.
  - intros v e v' Hv Ha. unfold update_attempt in Ha. pose proof (task_Get_pure k v) as Hp.
    destruct (task_Get k v) as [[t|e'] v1]; cbn in *; subst v1; [|injection Ha as _ <-; done].
    apply task_Update_Err in Ha. congruence.
Qed.
Lemma may_access_world verb ns name w x l w' : (may_access review audited user verb ns name : H _) w = (x, l, w') -> w' = w.
Proof. intros Ha. pose proof (pure_access verb ns name w) as Hp. by rewrite Ha in Hp. Qed.
(** A stored object that is not being deleted is kept by an update. *)
Lemma store_updated_kept (t' : AgentTask) m : tk_DeletionTimestamp t' = None -> store_updated t' m = <[key_of t' := t']> m.
Proof. intros Hd. unfold store_updated. rewrite Hd, bool_decide_eq_false_2; [done|]. by intros [? ?]. Qed.

Lemma pause_stores name ns w r l w' : PauseTask other review audited user name ns w = (r, l, w') ->
  match r with
  | Ok m => exists t g v, task_stored w !! (or_default ns, name) = Some t /\
      (tk_DeletionTimestamp t = None ->
       task_stored w' = <[(or_default ns, name) := updated t (with_Spec (set_Suspended true) t) g v]> (task_stored w)) /\
      fst (AuthorizeAction review audited user #"update" (or_default ns) #"agenttasks") = Ok tt
  | Err _ => task_stored w' = task_stored w
  end.
Proof using L.
  intros Hp. unfold PauseTask in Hp. revert Hp. unfold seq at 1.
  destruct (named_task name ns w) as [[[ns'|e] l1] w1] eqn:En; [|pose proof (pure_named name ns w) as Hp; rewrite En in Hp; cbn in Hp; by intros [= <- _ <-]; subst].
  apply named_Ok in En as (-> & -> & _). unfold seq at 1.
  destruct (may_access review audited user #"update" (or_default ns) name w) as [[[[]|e] l2] w2] eqn:Ea;
    pose proof (may_access_world _ _ _ _ _ _ _ Ea) as ->; [|by intros [= <- _ <-]].
  unfold seq at 1. destruct (update_task other (or_default ns, name) _ w) as [[x l3] w3] eqn:Eu.
  apply update_task_spec in Eu; [|done]. destruct x as [t'|e]; cbn; [|by intros [= <- _ <-]]. intros [= <- _ <-].
  destruct Eu as (t & g & v & Ht & -> & Hs). exists t, g, v. split; [done|]. pose proof (task_stored_key _ _ _ Ht) as Hk. split.
  - intros Hd. by rewrite Hs, store_updated_kept, <- Hk.
  - apply seq_Ok in Ea as ([] & ? & ? & ? & H1 & _). by injection H1 as H1 _ _.
Qed.

(** a pause that is accepted sets [spec.suspended] of the named task,
    which the caller may update, and changes nothing else of it or of any
    other task; one that is not accepted changes nothing. *)
Theorem pause_exact name ns w r l w' : PauseTask other review audited user name ns w = (r, l, w') ->
  match r with
  | Ok m => exists t g v, task_stored w !! (or_default ns, name) = Some t /\
      (tk_DeletionTimestamp t = None ->
       task_stored w' = <[(or_default ns, name) := updated t (with_Spec (set_Suspended true) t) g v]> (task_stored w)) /\
      fst (AuthorizeAction review audited user #"update" (or_default ns) #"agenttasks") = Ok tt
  | Err _ => task_stored w' = task_stored w
  end.
Proof using L. apply pause_stores. Qed.

(** ** Resuming *)
Definition cleared (st : AgentTaskStatus) : AgentTaskStatus := set_Message [] (set_LastMeterRequestIDs [] st).
Lemma not_stale st : stale_status st = false -> st = cleared st.
Proof.
  unfold stale_status, str_eqb. intros [Hm Hi]%orb_false_iff. apply negb_false_iff, bool_decide_eq_true in Hm, Hi.
  destruct st. cbn in *. by subst.
Qed.
(** The second half of a resume: the task with its message and its request
    identifiers cleared. *)
Lemma clear_task_spec k (w : T) t r l w' : task_stored w !! k = Some t ->
  (api_call other (RetryOnConflict is_conflict (clear_attempt k)) : H _) w = (r, l, w') -> is_ok r = true ->
  exists t', task_stored w' !! k = Some t' /\ tk_Spec t' = tk_Spec t /\ tk_Status t' = cleared (tk_Status t).
Proof using L.
  intros Ht. unfold api_call. destruct (RetryOnConflict is_conflict (clear_attempt k) w) as [x w1] eqn:Er. intros [= <- _ <-] Hok.
  apply Retry_attempts in Er. apply attempts_last_run with (P := fun v => task_stored v = task_stored w) in Er as (v & Hv & Ha); [|done|].
  - destruct x as [t1|e]; [|done]. unfold clear_attempt in Ha. pose proof (task_Get_pure k v) as Hp. pose proof (task_Get_Ok k v) as Hg.
    destruct (task_Get k v) as [[t0|e] v1]; cbn in *; subst v1; [|done]. specialize (Hg t0 eq_refl). rewrite Hv in Hg. assert (t0 = t) as -> by congruence.
    pose proof (task_stored_key _ _ _ Ht) as Hk.
    destruct (stale_status (tk_Status t)) eqn:Es; cbn [negb] in Ha.
    + destruct (task_StatusUpdate _ v) as [[t2|[]] v2] eqn:Eu; try done.
      * injection Ha as -> ->. apply task_StatusUpdate_Ok in Eu as (cur & ver & Hc & _ & -> & Hs).
        change (key_of (with_Status _ t)) with (key_of t) in *. rewrite Hk in *.
        assert (cur = t) as -> by congruence. rewrite Hs, lookup_insert_eq. eauto.
      * apply task_StatusUpdate_NotFound in Eu. rewrite Hv in Eu.
        change (key_of (with_Status _ t)) with (key_of t) in Eu. congruence.
    + injection Ha as <- <-. exists t. rewrite Hv. split; [done|]. split; [done|]. by apply not_stale.
  - intros v e v' Hv Ha. unfold clear_attempt in Ha. pose proof (task_Get_pure k v) as Hp.
    destruct (task_Get k v) as [[t1|e'] v1]; cbn in *; subst v1; [|injection Ha as _ <-; done].
    destruct (negb _); [done|]. destruct (task_StatusUpdate _ v) as [[t2|e2] v2] eqn:Eu; [done|].
    apply task_StatusUpdate_Err in Eu. destruct e2; try (injection Ha as _ <-; congruence).
    apply task_Update_Err in Ha. congruence.
Qed.
Lemma wrap32_id z : - 2 ^ 31 <= z < 2 ^ 31 -> wrap32 z = z.
Proof. intros Hz. unfold wrap32. rewrite Z.mod_small; lia. Qed.

(** a resume that is accepted leaves the task unsuspended with the
    message and the seen request identifiers cleared and its usage as it was;
    as long as the sums are in range, the token budget is raised by exactly
    the amount asked for, and the iteration limit is above the iteration
    reached. *)
Theorem resume_exact name ns usd tokens w m l w' t :
  ResumeTask other review audited user name ns usd tokens w = (Ok m, l, w') ->
  task_stored w !! (or_default ns, name) = Some t -> tk_DeletionTimestamp t = None ->
  0 <= tokens /\ exists t', task_stored w' !! (or_default ns, name) = Some t' /\
    tk_Status t' = cleared (tk_Status t) /\ sp_Suspended (tk_Spec t') = false /\
    (- 2 ^ 63 <= sp_BudgetTokens (tk_Spec t) /\ sp_BudgetTokens (tk_Spec t) + tokens < 2 ^ 63 ->
     sp_BudgetTokens (tk_Spec t') = sp_BudgetTokens (tk_Spec t) + tokens) /\
    (0 <= st_Iteration (tk_Status t) < 2 ^ 31 - 5 ->
     sp_MaxIterations (tk_Spec t') <= 0 \/ st_Iteration (tk_Status t') < sp_MaxIterations (tk_Spec t')).
Proof using L.
  intros Hr Ht Hd. unfold ResumeTask in Hr. apply seq_Ok in Hr as (ns' & ? & ? & ? & (-> & -> & _)%named_Ok & Hr & _).
  destruct (tokens <? 0) eqn:Etok; [done|]. apply Z.ltb_ge in Etok. split; [done|].
  destruct (resume_bump usd) as [[c b]|]; [|done].
  apply seq_Ok in Hr as ([] & ? & w1 & ? & ->%may_access_world & Hr & _).
  apply seq_Ok in Hr as (t1 & ? & w2 & ? & Hu & Hr & _). apply update_task_spec in Hu; [|done].
  destruct Hu as (t0 & g & v & Ht0 & -> & Hs). rewrite Ht in Ht0. injection Ht0 as <-.
  pose proof (task_stored_key _ _ _ Ht) as Hk. rewrite store_updated_kept in Hs by done.
  change (key_of (updated _ _ _ _)) with (key_of t) in Hs. rewrite Hk in Hs. set (t1 := updated _ _ _ _) in *.
  assert (task_stored w2 !! (or_default ns, name) = Some t1) as Ht1 by (rewrite Hs; apply lookup_insert_eq).
  apply seq_Ok in Hr as (t2 & ? & w3 & ? & Hc & (? & ? & ? & ? & [= _ _ <-] & [= _ _ <-] & _)%seq_Ok & _).
  assert (exists t', task_stored w3 !! (or_default ns, name) = Some t' /\ tk_Spec t' = tk_Spec t1 /\
    tk_Status t' = cleared (tk_Status t1)) as (t' & H1 & H2 & H3).
  { destruct (stale_status (tk_Status t1)) eqn:Es; [by eapply clear_task_spec|].
    injection Hc as _ _ <-. exists t1. split; [done|]. split; [done|]. by apply not_stale. }
  exists t'. split; [done|]. rewrite H2, H3. subst t1. cbn. split; [done|]. split; [done|]. split.
  - intros [? ?]. destruct (0 <? tokens) eqn:E; [apply wrap64_id; lia|]. apply Z.ltb_ge in E. lia.
  - intros Hi. destruct (0 <? sp_MaxIterations _) eqn:E1; cbn; [|left; apply Z.ltb_ge in E1; done].
    destruct (_ <=? _) eqn:E2; [right; rewrite wrap32_id; lia|]. apply Z.leb_gt in E2. by right.
Qed.
End Facts.

(** * Executions *)
Module ServiceDemo.
#[local] Existing Instance default_retry.
Definition sandbox_user : UserInfo :=
  mkUser #"task:task-1" #"task-1" [] [] (<[ExtraKeyAuthType := [ #"macaroon"]]> (<[ExtraKeyNamespace := [ #"default"]]>
    (<[ExtraKeyTaskID := [ #"task-1"]]> (<[ExtraKeyAllowedTools := [ #"diverge_get_task"]]> ∅)))).
Definition developer : UserInfo := mkUser #"dev" #"dev" [] [] ∅.
Definition spec (suspended : bool) : AgentTaskSpec :=
  mkTaskSpec #"fix" #"https://github.com/acme/app" #"main" [] #"pod" [] [] 0 [] 1000 3 [] false suspended.
Definition task (suspended : bool) : AgentTask :=
  mkTask #"task-1" #"default" #"uid" ∅ ∅ [] time_zero None 1 1 (spec suspended)
    (mkTaskStatus AgentTaskPhasePaused [] [] [] 3 [] [] 5000 #"paused" [] [ #"r1"] 0).
Definition world (suspended : bool) : TaskServer.t := TaskServer.mk {[(#"default", #"task-1") := task suspended]} 1.
Definition pause := PauseTask (T := TaskServer.t) KOther (fun _ _ => Some true) true (Some developer) #"task-1" [] (world false).
Definition resume (tokens : Z) :=
  ResumeTask (T := TaskServer.t) KOther (fun _ _ => Some true) true (Some developer) #"task-1" [] #"+$5" tokens (world true).
Definition read :=
  GetTask (T := TaskServer.t) KOther (fun _ _ => None) true (Some sandbox_user) #"task-1" #"default" (world false).
Definition reply_of {X} (x : result rpc_error TaskMsg * list log_entry * X) : TaskMsg :=
  match x with (Ok m, _, _) => m | _ => toProtoAgentTask (task false) end.
End ServiceDemo.

Section Witnesses.
#[local] Existing Instance default_retry.
Lemma demo_stored_task b : task_stored (ServiceDemo.world b) !! (#"default", #"task-1") = Some (ServiceDemo.task b).
Proof. by destruct b. Qed.
Lemma demo_reads : ServiceDemo.read = (Ok (ServiceDemo.reply_of ServiceDemo.read), ServiceDemo.read.1.2, ServiceDemo.read.2).
Proof. vm_compute. reflexivity. Qed.
Lemma demo_pauses : ServiceDemo.pause = (Ok (ServiceDemo.reply_of ServiceDemo.pause), ServiceDemo.pause.1.2, ServiceDemo.pause.2).
Proof. vm_compute. reflexivity. Qed.
Lemma demo_resumes : ServiceDemo.resume 7000 =
  (Ok (ServiceDemo.reply_of (ServiceDemo.resume 7000)), (ServiceDemo.resume 7000).1.2, (ServiceDemo.resume 7000).2).
Proof. vm_compute. reflexivity. Qed.

Lemma token_reads_own_task_witness : exists t,
  task_stored (ServiceDemo.world false) !! (#"default", #"task-1") = Some t /\ ServiceDemo.reply_of ServiceDemo.read = toProtoAgentTask t.
Proof.
  destruct (proj2 (token_reads_own_task (T := TaskServer.t) KOther (fun _ _ => None) true (Some ServiceDemo.sandbox_user) time_zero
    ServiceDemo.sandbox_user eq_refl eq_refl) #"task-1" #"default" (ServiceDemo.world false) _ _ _ demo_reads) as (_ & _ & _ & t & Ht & Hm).
  exists t. exact (conj Ht Hm).
Defined.
Lemma resume_exact_witness : exists t', task_stored (ServiceDemo.resume 7000).2 !! (#"default", #"task-1") = Some t' /\
  sp_Suspended (tk_Spec t') = false.
Proof.
  destruct (resume_exact (T := TaskServer.t) KOther (fun _ _ => Some true) true (Some ServiceDemo.developer) #"task-1" [] #"+$5" 7000 (ServiceDemo.world true) _ _ _ _ demo_resumes
    (demo_stored_task true) eq_refl) as (_ & t' & H1 & _ & H2 & _).
  exists t'. exact (conj H1 H2).
Defined.
Lemma pause_exact_witness : exists t g v, task_stored ServiceDemo.pause.2 =
  <[(#"default", #"task-1") := updated t (with_Spec (set_Suspended true) t) g v]> (task_stored (ServiceDemo.world false)).
Proof.
  destruct (pause_exact (T := TaskServer.t) KOther (fun _ _ => Some true) true (Some ServiceDemo.developer) #"task-1" [] (ServiceDemo.world false) _ _ _ demo_pauses)
    as (t & g & v & H1 & H2 & _).
  exists t, g, v. apply H2. pose proof (eq_trans (eq_sym H1) (demo_stored_task false)) as H3. injection H3 as ->. reflexivity.
Defined.
End Witnesses.
