(* ===== verification/ResourceServiceFacts.v ===== *)
(** * What the environment and preview group services guarantee

    Nothing is read or written outside the namespaces the user is authorized
    for; an update writes what it was asked to over the version it was asked
    for; the new end of a lifetime is what was asked for; a hook is retried by
    deleting one failed job. *)

From stdpp Require Import sorting.
From S2P Require Import Prelude GoStrings GoTime GoDuration GoQuote AuthProvider Authz AuthFacts TokenStore KubeApi AgentTask ObjectApi.
From S2P Require Import ResourceNames EnvTypes GroupTypes Resources ResourceMessages AgentTaskService AgentTaskServiceFacts ResourceService.
Local Open Scope Z_scope.

(** ** Handlers *)
(** What holds of the reply and of the state after it. *)
Definition yields {T X} (m : handler X) (w : T) (Q : result rpc_error X -> T -> Prop) : Prop := Q (fst (fst (m w))) (snd (m w)).
Lemma yields_seq {T X Y} (m : handler X) (f : X -> handler Y) (w : T) Q :
  yields m w (fun r w1 => match r with Ok x => yields (f x) w1 Q | Err e => Q (Err e) w1 end) -> yields (seq m f) w Q.
Proof. unfold yields, seq. destruct (m w) as [[[x|e] l] w1]; cbn; [|done]. by destruct (f x w1) as [[r l'] w2]. Qed.
Lemma yields_mono {T X} (m : handler X) (w : T) Q Q' : yields m w Q -> (forall r w', Q r w' -> Q' r w') -> yields m w Q'.
Proof. unfold yields. eauto. Qed.
Lemma yields_lift {T X} (r : result rpc_error X) (w : T) (Q : _ -> _ -> Prop) : Q r w -> yields (lift r) w Q.
Proof. done. Qed.
Lemma yields_reply {T X} (x : X) (w : T) (Q : _ -> _ -> Prop) : Q (Ok x) w -> yields (reply x) w Q.
Proof. done. Qed.
Lemma yields_refusal {T X} e (w : T) (Q : result rpc_error X -> _ -> Prop) : Q (Err e) w -> yields (refusal e) w Q.
Proof. done. Qed.
Lemma yields_authorize {T} v (w : T) (Q : _ -> _ -> Prop) : Q (fst v) w -> yields (authorize v) w Q.
Proof. done. Qed.
Lemma yields_log {T} audited event name ns (w : T) (Q : _ -> _ -> Prop) : Q (Ok tt) w -> yields (log_mutation audited event name ns) w Q.
Proof. done. Qed.
Lemma yields_call {T X} other (f : T -> ares X * T) w (Q : result rpc_error X -> T -> Prop) :
  (forall x w1, f w = (Ok x, w1) -> Q (Ok x) w1) -> (forall e w1, f w = (Err e, w1) -> Q (Err (sanitized other e)) w1) ->
  yields (api_call other f) w Q.
Proof. unfold yields, api_call. destruct (f w) as [[x|e] w1]; cbn; auto. Qed.
Lemma yields_pure {T X} (m : handler X) (w : T) (Q : result rpc_error X -> T -> Prop) :
  pure m -> (forall r, fst (fst (m w)) = r -> Q r w) -> yields m w Q.
Proof. unfold yields. intros Hp HQ. rewrite (Hp w). auto. Qed.
Lemma pure_lift {T X} (r : result rpc_error X) : pure (T := T) (lift r).
Proof. done. Qed.
Lemma pure_converted {T X} (o : option X) : pure (T := T) (converted o).
Proof. by destruct o. Qed.
Lemma pure_label_if_any {T} v f : pure (T := T) (label_if_any v f).
Proof. unfold label_if_any. by destruct (str_eqb v []). Qed.
Create HintDb pure.
#[export] Hint Resolve pure_lift pure_converted pure_label_if_any pure_seq : pure.
#[export] Hint Extern 1 (pure (reply _)) => intros ?; reflexivity : pure.
#[export] Hint Extern 1 (pure (refusal _)) => intros ?; reflexivity : pure.
#[export] Hint Extern 1 (pure (invalid _)) => intros ?; reflexivity : pure.
#[export] Hint Extern 1 (pure (authorize _)) => intros ?; reflexivity : pure.
#[export] Hint Extern 1 (pure (may _ _ _ _ _ _)) => intros ?; reflexivity : pure.
#[export] Hint Extern 1 (pure (label _ _)) => intros ?; reflexivity : pure.
#[export] Hint Extern 1 (pure (log_mutation _ _ _ _)) => intros ?; reflexivity : pure.

(** The metadata of a resource are its key. *)
Class CrdLaws (Ob : Type) {R : Resource Ob} {C : Crd Ob} : Prop := {
  crd_set_key : forall m o, r_key (crd_set_meta m o) = (mt_Namespace m, mt_Name m);
  crd_key : forall o, r_key o = (mt_Namespace (crd_meta o), mt_Name (crd_meta o)) }.
#[global] Instance environment_crd_laws : CrdLaws Environment.
Proof. by split. Qed.
#[global] Instance group_crd_laws : CrdLaws PreviewGroup.
Proof. by split. Qed.

Section Facts.
Context (other : k8s_error) (review : UserInfo -> attrs -> option bool) (audited : bool) (user : option UserInfo) (now : Time).

(** The user may do that in that namespace. *)
Definition may_do (verb resource ns : gostring) : Prop := fst (AuthorizeAction review audited user verb ns resource) = Ok tt.
(** A capability token may act in its own namespace only. *)
Lemma may_do_bound u verb resource ns : user = Some u -> isMacaroonUser u = true -> may_do verb resource ns ->
  ns = extra_first u ExtraKeyNamespace.
Proof.
  intros Hu Hm. unfold may_do, AuthorizeAction. rewrite Hu, Hm. unfold authorizeMacaroon, eqs.
  destruct (_ && _); [done|]. destruct (_ || _) eqn:E; [done|]. intros _. by bool_simpl.
Qed.

Section Kinds.
Context {U : GoUnicode} {Ob M W Sel : Type} {R : Resource Ob} {RL : ResourceLaws Ob} {CM : Crd Ob} {CL : CrdLaws Ob}.
Context {API : ObjectApi Ob W} {L : ObjectApiLaws Ob W} {PA : PageApi Ob W Sel}.
Context (k : Kind Ob M W).
(** What both kinds have: the check changes nothing, and copying a path keeps
    the key and the version. *)
Record regular : Prop := {
  check_pure : forall ns m, pure (kd_check k ns m);
  copy_key : forall p new o, r_key (kd_copy k p new o) = r_key o;
  copy_version : forall p new o, r_version (kd_copy k p new o) = r_version o }.
Context (HK : regular).

Lemma masked_key paths new o : r_key (masked k paths new o) = r_key o.
Proof using HK. unfold masked. generalize (match paths with [] => whole_paths | _ => paths end). intros l. revert o. induction l as [|p l IH]; intros o; cbn; [done|]. by rewrite IH, copy_key. Qed.
Lemma masked_version paths new o : r_version (masked k paths new o) = r_version o.
Proof using HK. unfold masked. generalize (match paths with [] => whole_paths | _ => paths end). intros l. revert o. induction l as [|p l IH]; intros o; cbn; [done|]. by rewrite IH, copy_version. Qed.
Lemma set_crd_namespace_key ns o : r_key (set_crd_namespace ns o) = (ns, mt_Name (crd_meta o)).
Proof using CL. unfold set_crd_namespace. by rewrite crd_set_key. Qed.

(** How a reply says what was stored. *)
Definition replied (r : result rpc_error M) (o : Ob) : Prop := r = fst (fst (converted (kd_to_message k o) tt)).
Lemma yields_converted {X} (o : option X) (w : W) (Q : result rpc_error X -> W -> Prop) :
  Q (fst (fst (converted o tt))) w -> yields (converted o) w Q.
Proof. by destruct o. Qed.

Lemma Create_spec namespace msg w : yields (Create other review audited user k namespace msg) w (fun r w' =>
  (is_ok r = false /\ stored w' = stored w) \/
  exists m crd o, msg = Some m /\ may_do #"create" (kd_resource k) (or_default namespace) /\
    fst (fst (kd_check k (or_default namespace) m w)) = Ok tt /\ kd_of_message k m = Some crd /\
    obj_Create (set_crd_namespace (or_default namespace) crd) w = (Ok o, w') /\ replied r o).
Proof using HK L.
  destruct msg as [m|]; cbn [Create]; [|apply yields_refusal; by left].
  do 3 (apply yields_seq, yields_pure; [auto with pure; by case_match|intros [[]|?] _; [|by left]]).
  apply yields_seq, yields_pure; [auto with pure|intros [[]|?] Hmay; [|by left]].
  apply yields_seq, yields_pure; [by apply check_pure|intros [[]|?] Hcheck; [|by left]].
  apply yields_seq, yields_pure; [auto with pure|intros [crd|?] Hcrd; [|by left]].
  apply yields_seq, yields_call; [intros o w1 Ho|intros e w1 ->%obj_Create_Err; by left].
  apply yields_seq, yields_log, yields_converted. right. exists m, crd, o.
  destruct (kd_of_message k m) eqn:E; [|done]. injection Hcrd as ->. done.
Qed.
Lemma check_paths_spec paths w : yields (check_paths k paths : handler (T := W) unit) w (fun r w' =>
  w' = w /\ (r = Ok tt -> Forall (fun p => p ∈ kd_paths k) paths)).
Proof.
  induction paths as [|p paths IH]; cbn [check_paths]; [by split|]. case_bool_decide; [|by split].
  refine (yields_mono _ _ _ _ IH _). intros r w' [-> ?]. split; [done|]. auto.
Qed.
Lemma Update_spec msg paths w : yields (Update other review audited user k msg paths) w (fun r w' =>
  (is_ok r = false /\ stored w' = stored w) \/
  exists m cur new o, let mt := kd_meta k m in let ns := or_default (mt_Namespace mt) in
    msg = Some m /\ may_do #"update" (kd_resource k) ns /\ fst (fst (kd_check k ns m w)) = Ok tt /\
    Forall (fun p => p ∈ kd_paths k) paths /\ kd_of_message k m = Some new /\ stored w !! (ns, mt_Name mt) = Some cur /\
    obj_Update (masked k paths new (set_version (mt_ResourceVersion mt) cur)) w = (Ok o, w') /\ replied r o).
Proof using HK L.
  destruct msg as [m|]; cbn [Update]; [|apply yields_refusal; by left].
  destruct (_ =? 0); [apply yields_refusal; by left|]. cbv zeta.
  do 2 (apply yields_seq, yields_pure; [auto with pure|intros [[]|?] _; [|by left]]).
  apply yields_seq, yields_pure; [auto with pure|intros [[]|?] Hmay; [|by left]].
  apply yields_seq, yields_pure; [by apply check_pure|intros [[]|?] Hcheck; [|by left]].
  apply yields_seq, yields_call; intros cur w1 Hg; pose proof (obj_Get_pure (Ob := Ob) (or_default (mt_Namespace (kd_meta k m)), mt_Name (kd_meta k m)) w) as Hp;
    rewrite Hg in Hp; cbn in Hp; subst w1; [|by left].
  apply yields_seq, yields_pure; [auto with pure|intros [new|?] Hnew; [|by left]].
  apply yields_seq. refine (yields_mono _ _ _ _ (check_paths_spec paths w) _). intros [[]|?] w' [-> Hpaths]; [|by left].
  apply yields_seq, yields_call; [intros o w1 Ho|intros e w1 ->%obj_Update_Err; by left].
  apply yields_seq, yields_log, yields_converted. right. exists m, cur, new, o.
  destruct (kd_of_message k m) eqn:E; [|done]. injection Hnew as ->. split_and!; auto; [by apply obj_Get_Ok; rewrite Hg|done].
Qed.
Lemma Delete_spec name namespace w : yields (Delete other review audited user k name namespace) w (fun r w' =>
  (is_ok r = false /\ stored w' = stored w) \/
  may_do #"delete" (kd_resource k) namespace /\ obj_Delete (Ob := Ob) None (namespace, name) w = (Ok tt, w')).
Proof using L.
  do 2 (apply yields_seq, yields_pure; [auto with pure|intros [[]|?] _; [|by left]]).
  apply yields_seq, yields_pure; [auto with pure|intros [[]|?] Hmay; [|by left]].
  apply yields_seq, yields_call; [intros [] w1 Ho|intros e w1 ->%obj_Delete_Err; by left].
  apply yields_log. by right.
Qed.
Lemma Get_spec name namespace w : yields (Get other review audited user k name namespace) w (fun r w' =>
  w' = w /\ forall m, r = Ok m -> may_do #"get" (kd_resource k) namespace /\
    exists o, stored w !! (namespace, name) = Some o /\ kd_to_message k o = Some m).
Proof using L.
  do 2 (apply yields_seq, yields_pure; [auto with pure|intros [[]|?] _; [|by split]]).
  apply yields_seq, yields_pure; [auto with pure|intros [[]|?] Hmay; [|by split]].
  apply yields_seq, yields_call; intros o w1 Hg; pose proof (obj_Get_pure (Ob := Ob) (namespace, name) w) as Hp;
    rewrite Hg in Hp; cbn in Hp; subst w1; [|by split].
  apply yields_converted. split; [done|]. intros m Hm. split; [done|]. exists o. split; [by apply obj_Get_Ok; rewrite Hg|].
  destruct (kd_to_message k o); cbn in Hm; congruence.
Qed.
End Kinds.
End Facts.

(** ** Times *)
Definition proper (t : Time) : Prop := 0 <= t_nsec t < 10 ^ 9.
Definition nanos (t : Time) : Z := t_sec t * 10 ^ 9 + t_nsec t.
Lemma nanos_inj t u : proper t -> proper u -> nanos t = nanos u -> t = u.
Proof. destruct t as [s n], u as [s' n']. unfold proper, nanos. cbn. intros ? ? ?. f_equal; lia. Qed.
Lemma Add_nanos t d : proper (Add t d) /\ nanos (Add t d) = nanos t + d.
Proof.
  unfold proper, nanos, Add. cbn [t_sec t_nsec].
  pose proof (Z.mod_pos_bound (t_nsec t + d) (10 ^ 9)). pose proof (Z.div_mod (t_nsec t + d) (10 ^ 9)). lia.
Qed.
Lemma Before_nanos t u : proper t -> proper u -> Before t u = true <-> nanos t < nanos u.
Proof. unfold proper, nanos, Before. intros ? ?. rewrite orb_true_iff, andb_true_iff, !Z.ltb_lt, Z.eqb_eq. lia. Qed.
Definition representable (d : Z) : Prop := minDuration <= d <= maxDuration.
Lemma Add_Sub t u : proper t -> representable (nanos t - nanos u) -> Add u (Sub t u) = t.
Proof.
  unfold representable. intros Ht Hd. apply nanos_inj; [apply Add_nanos|done|]. destruct (Add_nanos u (Sub t u)) as [_ ->].
  unfold Sub, nanos in *. lia.
Qed.

(** What conflicting attempts preserve holds at the last one. *)
Lemma attempts_conflict_run {T E A} (conflict : E -> bool) (fn : T -> result E A * T) (P : T -> Prop) w r w' :
  attempts conflict fn w r w' -> P w -> (forall v e v', P v -> fn v = (Err e, v') -> conflict e = true -> P v') ->
  exists v, P v /\ fn v = (r, w').
Proof. induction 1 as [w r w' Hf|w e w1 r w' Hf Hc _ IH]; intros Hw HP; [eauto|]. apply IH; [by eapply HP|done]. Qed.

Section Environments.
Context (other : k8s_error) (review : UserInfo -> attrs -> option bool) (audited : bool) (user : option UserInfo) (now : Time).
Context {U : GoUnicode} {M Doc WE WJ Sel : Type} {EC : Codec Environment M Doc} {EX : EnvMessage M} {LS : LabelSyntax}.
Context {API : ObjectApi Environment WE} {L : ObjectApiLaws Environment WE} {PA : PageApi Environment WE Sel}.
Context {JA : ObjectApi HookJob WJ} {JL : ObjectApiLaws HookJob WJ} {JO : JobOrder}.
Context {RT : Retry WE} (api_text : api_error -> gostring) (mapper_text : gostring).
Abbreviation may_do := (may_do review audited user).

Lemma environment_regular : regular (EnvironmentKind (M := M) (W := WE)).
Proof.
  split; [done| |]; intros p new o; cbn; unfold copy_environment; repeat (case_match; [done|]); done.
Qed.

(** *** Lifetimes *)
Lemma extend_attempt_spec key d w r w' : extend_attempt other now mapper_text key d w = (r, w') ->
  (is_ok r = false /\ stored w' = stored w) \/
  exists env o, stored w !! key = Some env /\ ev_DeletionTimestamp env = None /\ lc_TTL (es_Lifecycle (ev_Spec env)) <> None /\
    obj_Update (extended now d env) w = (Ok o, w') /\
    (r = Err (ExtendUnconverted mapper_text) \/ exists m, r = Ok m /\ CRDEnvToProto o = Some m).
Proof using L.
  unfold extend_attempt. pose proof (obj_Get_pure (Ob := Environment) key w) as Hp. pose proof (obj_Get_Ok (Ob := Environment) key w) as Hg.
  destruct (obj_Get key w) as [[env|e] w1]; cbn in Hp, Hg; subst w1; [|intros [= <- <-]; by left].
  case_bool_decide as Hd; [intros [= <- <-]; by left|]. case_bool_decide as Ht; [intros [= <- <-]; by left|].
  destruct (obj_Update _ w) as [[o|e] w2] eqn:Eu; [|intros [= <- <-]; left; split; [done|by eapply obj_Update_Err]].
  intros Hr. right. exists env, o. split; [by apply Hg|]. split; [by destruct (ev_DeletionTimestamp env); [destruct Hd|]|].
  split; [done|]. destruct (CRDEnvToProto o) as [m|]; injection Hr as <- <-; eauto.
Qed.
Lemma extend_conflict key d w e w' : extend_attempt (M := M) other now mapper_text key d w = (Err e, w') ->
  is_api_conflict e = true -> stored w' = stored w.
Proof using L.
  intros Ha He. apply extend_attempt_spec in Ha as [[_ ?]|(env & o & _ & _ & _ & _ & [[= ->]|(m & ? & _)])]; done.
Qed.
Lemma ExtendTTL_spec name namespace extendBy w :
  yields (ExtendTTL (M := M) other review audited user now api_text mapper_text name namespace extendBy) w (fun r w' =>
    (is_ok r = false /\ stored w' = stored w) \/
    exists d env o v, extendBy = Some d /\ 0 < d <= max_extension /\ may_do #"update" #"environments" namespace /\
      stored w !! (namespace, name) = Some env /\ ev_DeletionTimestamp env = None /\ lc_TTL (es_Lifecycle (ev_Spec env)) <> None /\
      stored v = stored w /\ obj_Update (extended now d env) v = (Ok o, w') /\
      (r = Err (uncoded mapper_text) \/ exists m, r = Ok m /\ CRDEnvToProto o = Some m)).
Proof using L.
  do 2 (apply yields_seq, yields_pure; [auto with pure|intros [[]|?] _; [|by left]]).
  apply yields_seq, yields_pure; [auto with pure|intros [[]|?] Hmay; [|by left]].
  destruct extendBy as [d|]; [|apply yields_refusal; by left].
  destruct (Z.leb_spec d 0); [apply yields_refusal; by left|]. destruct (Z.ltb_spec max_extension d); [apply yields_refusal; by left|].
  apply yields_seq. unfold yields at 1, extend_retried.
  destruct (RetryOnConflict _ _ w) as [r w1] eqn:Er. cbn [fst snd].
  apply Retry_attempts in Er. apply (attempts_conflict_run _ _ (fun v => stored v = stored w)) in Er as (v & Hv & Ha); [|done|].
  - apply extend_attempt_spec in Ha as [[Hr Hs]|(env & o & Hg & Hd & Ht & Hu & Hr)].
    + rewrite Hv in Hs. destruct r as [m|e]; [done|]. by left.
    + rewrite Hv in Hg. destruct Hr as [->|(m & -> & Hm)]; [|apply yields_seq, yields_log, yields_reply]; right; exists d, env, o, v; split_and!; eauto.
  - intros v e v' Hv Ha He. rewrite <- Hv. by eapply extend_conflict.
Qed.

(** *** Hooks *)
Definition hook_labels (environment hookType : gostring) : labels := <[hookEnvironmentLabel := environment]> {[hookTypeLabel := hookType]}.
Definition failed (job : HookJob) : Prop := existsb (holds JobFailed) (hj_Conditions job) = true.
Definition newest_of (l : list HookJob) (job : HookJob) : Prop :=
  job ∈ l /\ failed job /\ forall j, j ∈ l -> failed j -> After (hj_CreationTimestamp j) (hj_CreationTimestamp job) = false.
Lemma not_after_chain (a b c : Time) : After a b = false -> After c b = true -> After a c = false.
Proof.
  unfold After, Before. rewrite orb_true_iff, !orb_false_iff, andb_true_iff, !andb_false_iff, !Z.ltb_lt, !Z.ltb_ge, !Z.eqb_eq, !Z.eqb_neq. lia.
Qed.
Lemma After_irrefl t : After t t = false.
Proof. unfold After, Before. by rewrite !Z.ltb_irrefl, andb_false_r. Qed.
Lemma newest_failed_spec l job : newest_failed l = Some job -> newest_of l job.
Proof.
  unfold newest_failed. revert job. induction l as [|j l IH] using rev_ind; intros job; [done|]. rewrite fold_left_app. cbn [fold_left]. unfold newer_failed at 1.
  assert (forall x, newest_of l x -> (failed j -> After (hj_CreationTimestamp j) (hj_CreationTimestamp x) = false) -> newest_of (l ++ [j]) x) as Hold.
  { intros x (Hin & Hf & Hn) Hj. split_and!; [apply elem_of_app; auto|done|].
    intros y [Hy| ->%list_elem_of_singleton]%elem_of_app Hy'; auto. }
  destruct (existsb _ (hj_Conditions j)) eqn:Ej; [|intros H%IH; apply Hold; [done|intros ?; unfold failed in *; congruence]].
  destruct (fold_left newer_failed l None) as [b|] eqn:Eb.
  - destruct (After _ _) eqn:Ea; intros [= <-]; [|apply Hold; [by apply IH|done]].
    destruct (IH b eq_refl) as (Hin & Hf & Hn). split_and!; [apply elem_of_app; right; by left|done|].
    intros y [Hy| ->%list_elem_of_singleton]%elem_of_app Hy'; [|apply After_irrefl]. eapply not_after_chain; [by apply Hn|done].
  - intros [= <-]. split_and!; [apply elem_of_app; right; by left|done|].
    intros y [Hy| ->%list_elem_of_singleton]%elem_of_app Hy'; [|apply After_irrefl]. exfalso.
    assert (forall l o, fold_left newer_failed l o = None -> o = None /\ forall y, y ∈ l -> ~ failed y) as Hnone.
    { clear. induction l as [|x l IH]; intros o; cbn [fold_left]; [intros ->; split; [done|]; by intros y ?%elem_of_nil|].
      intros [Ho Hl]%IH. unfold newer_failed in Ho. destruct (existsb _ _) eqn:E; [by repeat case_match|].
      split; [done|]. intros y [->|?]%elem_of_cons; [unfold failed; congruence|auto]. }
    destruct (Hnone _ _ Eb) as [_ Hl]. by eapply Hl.
Qed.
Lemma yields_of_environments {X} (m : handler (T := WE) X) (w : WE * WJ) (Q : result rpc_error X -> WE * WJ -> Prop) :
  yields m (fst w) (fun r w1 => Q r (w1, snd w)) -> yields (of_environments m) w Q.
Proof. unfold yields, of_environments. by destruct (m (fst w)) as [[r l] w1]. Qed.
Lemma yields_of_jobs {X} (m : handler (T := WJ) X) (w : WE * WJ) (Q : result rpc_error X -> WE * WJ -> Prop) :
  yields m (snd w) (fun r w1 => Q r (fst w, w1)) -> yields (of_jobs m) w Q.
Proof. unfold yields, of_jobs. by destruct (m (snd w)) as [[r l] w1]. Qed.
Lemma yields_hook_target environment namespace (w : WE * WJ) (Q : result rpc_error gostring -> WE * WJ -> Prop) :
  (forall r, (forall ns, r = Ok ns -> ns = or_default namespace) -> Q r w) -> yields (hook_target environment namespace) w Q.
Proof.
  intros HQ. apply yields_pure; [unfold hook_target; auto with pure|]. intros r Hr. apply HQ. intros ns ->.
  unfold hook_target, seq in Hr. cbn in Hr.
  repeat (destruct (ValidateDNS1123Label _ _); cbn in Hr; [|done]). by injection Hr.
Qed.
Definition hook_types : list gostring := [ #"migration"; #"postdeploy"].
(** What a retry that got as far as deleting the job has done. *)
Definition retried (environment namespace hookType : gostring) (w : WE * WJ) (r : result rpc_error HookJobMsg) (w' : WE * WJ) : Prop :=
  exists jobs job e, hookType ∈ hook_types /\ fst (AuthorizeRetryHook review audited user namespace) = Ok tt /\
    fst (obj_List (hook_labels environment hookType) namespace (snd w)) = Ok jobs /\ newest_of jobs job /\
    stored (fst w) !! (namespace, environment) = Some e /\
    obj_Delete (Ob := HookJob) None (r_key job) (snd w) = (Ok tt, snd w') /\
    ((is_ok r = false /\ stored (fst w') = stored (fst w)) \/
     exists o, obj_Patch (namespace, environment) (retry_patch e hookType) (fst w) = (Ok o, fst w') /\
       r = Ok (mkHookJobMsg (hj_Name job) hookType #"Pending" [] now None 0)).
Lemma RetryHook_spec environment namespace hookType w :
  yields (RetryHook other review audited user now environment namespace hookType) w (fun r w' =>
    (is_ok r = false /\ stored (fst w') = stored (fst w) /\ stored (snd w') = stored (snd w)) \/
    retried environment (or_default namespace) hookType w r w').
Proof using L JL.
  apply yields_seq, yields_hook_target. intros [ns|?] Hns; [|by left]. rewrite (Hns ns eq_refl). clear Hns.
  destruct (_ && _) eqn:Et; [apply yields_refusal; by left|].
  assert (hookType ∈ hook_types) as Hin.
  { apply andb_false_iff in Et. rewrite !negb_false_iff, !str_eqb_true in Et. unfold hook_types. rewrite !elem_of_cons. tauto. }
  apply yields_seq, yields_authorize. destruct (fst (AuthorizeRetryHook _ _ _ _)) as [[]|?] eqn:Ea; [|by left].
  apply yields_seq, yields_of_jobs, yields_call; intros jobs wj Hl;
    pose proof (obj_List_pure (Ob := HookJob) (hook_labels environment hookType) (or_default namespace) (snd w)) as Hp;
    unfold hook_labels in Hp; rewrite Hl in Hp; cbn [snd] in Hp; subst wj; [|left; by destruct w].
  destruct (newest_failed jobs) as [job|] eqn:En; [|apply yields_refusal; left; by destruct w].
  apply newest_failed_spec in En.
  apply yields_seq, yields_of_environments, yields_call; cbn [fst snd]; intros e we Hg;
    pose proof (obj_Get_pure (Ob := Environment) (or_default namespace, environment) (fst w)) as Hp;
    rewrite Hg in Hp; cbn [snd] in Hp; subst we; [|left; by destruct w].
  assert (stored (fst w) !! (or_default namespace, environment) = Some e) as He by (apply obj_Get_Ok; by rewrite Hg).
  apply yields_seq, yields_of_jobs, yields_call; cbn [fst snd]; [intros [] wj Hd|intros ? wj Hd].
  2: { left. by apply obj_Delete_Err in Hd. }
  assert (forall r w', snd w' = wj -> ((is_ok r = false /\ stored (fst w') = stored (fst w)) \/
     exists o, obj_Patch (or_default namespace, environment) (retry_patch e hookType) (fst w) = (Ok o, fst w') /\
       r = Ok (mkHookJobMsg (hj_Name job) hookType #"Pending" [] now None 0)) -> retried environment (or_default namespace) hookType w r w') as Hdone.
  { intros r w' Hw Hr. exists jobs, job, e. unfold hook_labels. rewrite Hl, Hw. auto 10. }
  rewrite (stored_key _ _ _ He).
  apply yields_seq, yields_of_environments, yields_call; cbn [fst snd]; [intros o we Hu|intros ? we Hu]; (right; apply Hdone; [done|]).
  - right. eauto.
  - left. by apply obj_Patch_Err in Hu.
Qed.

(** *** Who may change what *)
Inductive environment_write :=
| WCreate (namespace : gostring) (msg : option M)
| WUpdate (msg : option M) (paths : list gostring)
| WDelete (name namespace : gostring)
| WExtend (name namespace : gostring) (extendBy : option Z)
| WRetry (environment namespace hookType : gostring).
Definition serve_write (q : environment_write) : handler (T := WE * WJ) unit :=
  let drop {X} (m : handler (T := WE * WJ) X) := seq m (fun _ => reply tt) in
  match q with
  | WCreate ns msg => drop (of_environments (CreateEnvironment other review audited user ns msg))
  | WUpdate msg paths => drop (of_environments (UpdateEnvironment other review audited user msg paths))
  | WDelete name ns => of_environments (DeleteEnvironment (M := M) other review audited user name ns)
  | WExtend name ns d => drop (of_environments (ExtendTTL (M := M) other review audited user now api_text mapper_text name ns d))
  | WRetry env ns ty => drop (RetryHook other review audited user now env ns ty)
  end.
Lemma yields_drop {X} (m : handler (T := WE * WJ) X) w (Q : WE * WJ -> Prop) :
  yields m w (fun _ => Q) -> yields (seq m (fun _ => reply tt)) w (fun _ => Q).
Proof. intros H. apply yields_seq. refine (yields_mono _ _ _ _ H _). by intros [x|e] w'. Qed.
Definition verbs : list gostring := [ #"create"; #"update"; #"delete"; #"retry-hook"].
Definition may_change (ns : gostring) : Prop := exists verb, verb ∈ verbs /\ may_do verb #"environments" ns.
Definition may_retry (ns : gostring) : Prop := fst (AuthorizeRetryHook review audited user ns) = Ok tt.
Lemma may_retry_change ns : may_retry ns -> may_change ns.
Proof.
  unfold may_retry, AuthorizeRetryHook, may_change, may_do, AuthorizeAction. destruct user as [u|]; [|done].
  destruct (isMacaroonUser u).
  - intros H. exists #"retry-hook". split; [|done]. unfold verbs. rewrite !elem_of_cons. tauto.
  - unfold and_then. destruct (checkSAR _ _ _ (mkAttrs ns #"create" _ _ _) _) as [[[]|e] l]; [|done]. cbn. intros H.
    exists #"update". split; [|done]. unfold verbs. rewrite !elem_of_cons. tauto.
Qed.
Lemma may_change_with verb ns : verb ∈ verbs -> may_do verb #"environments" ns -> may_change ns.
Proof. unfold may_change. eauto. Qed.
Definition changes_within (w w' : WE * WJ) : Prop :=
  (forall key, stored (fst w') !! key <> stored (fst w) !! key -> may_change (fst key)) /\
  (forall key, stored (snd w') !! key <> stored (snd w) !! key -> may_retry (fst key) /\ exists job, stored (snd w) !! key = Some job /\ failed job).
Lemma within_environments (w w' : WE * WJ) ns name verb : snd w' = snd w -> verb ∈ verbs -> may_do verb #"environments" ns ->
  (forall key, key <> (ns, name) -> stored (fst w') !! key = stored (fst w) !! key) -> changes_within w w'.
Proof.
  intros Hs Hv Hm Hf. split; [|rewrite Hs; done]. intros key Hk. destruct (decide (key = (ns, name))) as [->|Hne]; [|by rewrite Hf in Hk].
  by eapply may_change_with.
Qed.
Lemma within_same (w w' : WE * WJ) : stored (fst w') = stored (fst w) -> stored (snd w') = stored (snd w) -> changes_within w w'.
Proof. by intros H1 H2; split; rewrite ?H1, ?H2. Qed.
Lemma or_default_nonempty ns : or_default ns <> [].
Proof. unfold or_default, str_eqb. by case_bool_decide. Qed.
Lemma within_retried w r w' env ns ty : ns <> [] -> retried env ns ty w r w' -> changes_within w w'.
Proof using L JL.
  intros Hne (jobs & job & e & _ & Hmay & Hl & (Hin & Hf & _) & He & Hd & Hp). split.
  - intros key Hk. destruct Hp as [[_ Hs]|(o & Hp & _)]; [by rewrite Hs in Hk|].
    destruct (decide (key = (ns, env))) as [->|Hk']; [by apply may_retry_change|]. exfalso. apply Hk.
    eapply Patch_other; [exact Hp|by intros cur|done].
  - intros key Hk. destruct (decide (key = r_key job)) as [->|Hk']; [|exfalso; apply Hk; by eapply Delete_other].
    apply (obj_List_Ok _ _ _ _ Hl) in Hin as [Hj [_ [?|Hns]]]; [done|]. rewrite Hns. eauto.
Qed.


(** *** Reads *)
Class PageLaws : Prop := {
  ListPage_pure : forall ns limit token sel w, snd (obj_ListPage (Ob := Environment) (Sel := Sel) ns limit token sel w) = w;
  ListPage_Ok : forall ns limit token sel w l next, 0 < limit -> fst (obj_ListPage (Ob := Environment) (Sel := Sel) ns limit token sel w) = Ok (l, next) ->
    Z.of_nat (length l) <= limit /\
    forall o : Environment, o ∈ l -> stored w !! r_key o = Some o /\ (ns = [] \/ fst (r_key o) = ns) }.
Lemma page_limit_bound n : 0 < page_limit n <= 1000.
Proof. unfold page_limit. destruct (Z.leb_spec n 0); [lia|]. destruct (Z.ltb_spec 1000 n); lia. Qed.
Lemma length_omap_le {A B} (f : A -> option B) l : (length (omap f l) <= length l)%nat.
Proof. induction l as [|a l IH]; cbn; [done|]. destruct (f a); cbn; lia. Qed.
Lemma List_spec {PL : PageLaws} namespace size token selector w :
  yields (ListEnvironments (Sel := Sel) (M := M) other review audited user namespace size token selector) w (fun r w' =>
    w' = w /\ forall ms next, r = Ok (ms, next) -> may_do #"list" #"environments" namespace /\ (length ms <= 1000)%nat /\
      forall m, m ∈ ms -> exists o, stored w !! r_key o = Some o /\ (namespace = [] \/ fst (r_key o) = namespace) /\ CRDEnvToProto o = Some m).
Proof using L.
  apply yields_seq, yields_pure; [auto with pure|intros [[]|?] _; [|by split]].
  do 2 (case_match; [by apply yields_refusal|]).
  apply yields_seq, yields_pure; [auto with pure|intros [[]|?] Hmay; [|by split]].
  apply yields_seq, yields_pure; [unfold parsed_selector; repeat case_match; auto with pure|intros [sel|?] _; [|by split]].
  apply yields_seq, yields_call; intros page w1 Hl;
    pose proof (ListPage_pure namespace (page_limit size) token sel w) as Hp; rewrite Hl in Hp; cbn in Hp; subst w1; [|by split].
  apply yields_reply. split; [done|]. intros ms next [= <- <-]. destruct page as [l next].
  destruct (ListPage_Ok namespace (page_limit size) token sel w l next) as [Hlen Hall]; [apply page_limit_bound|by rewrite Hl|].
  split; [done|]. cbn [fst]. split.
  - pose proof (page_limit_bound size). pose proof (length_omap_le CRDEnvToProto l). lia.
  - intros m (o & Ho & Hm)%list_elem_of_omap. exists o. by destruct (Hall o Ho).
Qed.
(** reading environments changes nothing and shows only what is stored in
    a namespace the user may read: the one environment asked for, or at most a
    thousand of those of the namespace. *)
Theorem environment_reads_authorized {PL : PageLaws} w :
  (forall name namespace r l w', GetEnvironment (M := M) other review audited user name namespace w = (r, l, w') ->
    w' = w /\ forall m, r = Ok m -> may_do #"get" #"environments" namespace /\
      exists o, stored w !! (namespace, name) = Some o /\ CRDEnvToProto o = Some m) /\
  (forall namespace size token selector r l w',
    ListEnvironments (Sel := Sel) (M := M) other review audited user namespace size token selector w = (r, l, w') ->
    w' = w /\ forall ms next, r = Ok (ms, next) -> may_do #"list" #"environments" namespace /\ (length ms <= 1000)%nat /\
      forall m, m ∈ ms -> exists o, stored w !! r_key o = Some o /\ (namespace = [] \/ fst (r_key o) = namespace) /\ CRDEnvToProto o = Some m).
Proof using L.
  split.
  - intros name ns r l w' H. pose proof (Get_spec other review audited user EnvironmentKind name ns w) as Hs.
    unfold yields in Hs. unfold GetEnvironment in H. rewrite H in Hs. exact Hs.
  - intros ns size token sel r l w' H. pose proof (List_spec ns size token sel w) as Hs. unfold yields in Hs. rewrite H in Hs. exact Hs.
Qed.

(** *** Updates *)
Definition effective (paths : list gostring) : list gostring := match paths with [] => whole_paths | _ => paths end.
Definition covers (paths : list gostring) (p : gostring) : Prop := p ∈ effective paths.
Lemma masked_effective paths new (o : Environment) :
  masked (EnvironmentKind (M := M) (W := WE)) paths new o = fold_left (fun o p => copy_environment p new o) (effective paths) o.
Proof. done. Qed.
(** A field that some of the paths copy and the others leave. *)
Lemma copied_field {A} (get : Environment -> A) (mine : gostring -> Prop) {D : forall p, Decision (mine p)} new ps o :
  (forall p o, p ∈ ps -> mine p -> get (copy_environment p new o) = get new) ->
  (forall p o, p ∈ ps -> ~ mine p -> get (copy_environment p new o) = get o) ->
  let o' := fold_left (fun o p => copy_environment p new o) ps o in
  (Exists mine ps -> get o' = get new) /\ (~ Exists mine ps -> get o' = get o).
Proof.
  cbv zeta. revert o. induction ps as [|p ps IH]; intros o Hm Hn; cbn [fold_left].
  { split; [|done]. by intros ?%Exists_nil. }
  destruct (IH (copy_environment p new o)) as [H1 H2]; [intros; apply Hm; [by right|done]|intros; apply Hn; [by right|done]|].
  rewrite Exists_cons. destruct (D p) as [Hp|Hp].
  - split; [|tauto]. intros _. destruct (decide (Exists mine ps)); [auto|]. rewrite H2 by done. apply Hm; [by left|done].
  - split; [intros [?|?]; [done|auto]|]. intros Hno. rewrite H2 by tauto. apply Hn; [by left|done].
Qed.
(** What an update makes of one part of an environment. *)
Definition taken {A} (P : Prop) (get : Environment -> A) (new cur o : Environment) : Prop :=
  (P -> get o = get new) /\ (~ P -> get o = get cur).
Definition other_than_features (e : Environment) : EnvironmentSpec := es_set_Features None (ev_Spec e).
Definition features (e : Environment) : option FeatureSpec := es_Features (ev_Spec e).
Lemma taken_path {A} (get : Environment -> A) p0 new cur ps :
  (forall o, get (copy_environment p0 new o) = get new) -> (forall p o, p <> p0 -> get (copy_environment p new o) = get o) ->
  taken (p0 ∈ ps) get new cur (fold_left (fun o p => copy_environment p new o) ps cur).
Proof.
  intros Hm Hn. destruct (copied_field get (fun p => p = p0) new ps cur) as [H1 H2]; [by intros p o _ ->|auto|].
  assert (Exists (fun p => p = p0) ps <-> p0 ∈ ps) as He by (rewrite Exists_exists; naive_solver).
  split; intros Hp; [apply H1|apply H2]; by rewrite He.
Qed.
Ltac copies := intros; unfold copy_environment, str_eqb; repeat (case_bool_decide; [subst; solve [done | congruence | tauto]|]); done.
Lemma taken_parts new cur ps : let o := fold_left (fun o p => copy_environment p new o) ps cur in
  taken (#"labels" ∈ ps) ev_Labels new cur o /\ taken (#"annotations" ∈ ps) ev_Annotations new cur o /\
  taken (#"spec" ∈ ps) other_than_features new cur o /\ ev_Finalizers o = ev_Finalizers cur /\
  (#"spec.features.overrides" ∉ ps -> taken (#"spec" ∈ ps \/ #"spec.features" ∈ ps) features new cur o).
Proof.
  cbv zeta. split_and!; [apply taken_path; copies..| |].
  { apply (copied_field ev_Finalizers (fun _ => False)); [done|copies|]. by intros (? & ? & ?)%Exists_exists. }
  intros Hno.
  destruct (copied_field features (fun p => p = #"spec" \/ p = #"spec.features") new ps cur) as [H1 H2].
  - intros p o _ [->| ->]; done.
  - intros p o Hp Hq. assert (p <> #"spec.features.overrides") by congruence. copies.
  - assert (Exists (fun p => p = #"spec" \/ p = #"spec.features") ps <-> #"spec" ∈ ps \/ #"spec.features" ∈ ps) as He
      by (rewrite Exists_exists; naive_solver).
    split; intros Hp; [apply H1|apply H2]; by rewrite He.
Qed.


(** *** What the other requests do *)
Definition expiry (env : Environment) : Time := default time_zero (et_ExpiresAt (ev_Status env)).
(** What a deletion leaves under its key. *)
Definition deleted {Ob W} `{ObjectApiLaws Ob W} (w : W) (key : obj_key) : Prop := forall o : Ob, stored w !! key = Some o -> is_Some (r_deletion o).
(** a hook that is retried was one of the two types, and what has happened
    is that one failed job of it and of that environment, than which no failed
    one is newer, is deleted, and that the environment asks for the retry: no
    other job and nothing else of any environment is changed. *)
Theorem retry_hook_exact environment namespace hookType (w : WE * WJ) m l w' :
  RetryHook other review audited user now environment namespace hookType w = (Ok m, l, w') ->
  exists jobs job e ver, let ns := or_default namespace in
    hookType ∈ hook_types /\ fst (obj_List (hook_labels environment hookType) ns (snd w)) = Ok jobs /\
    newest_of jobs job /\ stored (snd w) !! r_key job = Some job /\ hook_labels environment hookType ⊆ hj_Labels job /\
    deleted (Ob := HookJob) (snd w') (r_key job) /\ (forall key, key <> r_key job -> stored (snd w') !! key = stored (snd w) !! key) /\
    stored (fst w) !! (ns, environment) = Some e /\
    stored (fst w') = <[(ns, environment) := ev_set_ResourceVersion ver
      (ev_set_Annotations (<[AnnotationRetryHook := hookType]> (ev_Annotations e)) e)]> (stored (fst w)).
Proof using L JL.
  intros H. pose proof (RetryHook_spec environment namespace hookType w) as Hs. unfold yields in Hs. rewrite H in Hs. cbn [fst snd] in Hs. clear H.
  destruct Hs as [[? _]|(jobs & job & e & Ht & _ & Hl & Hn & He & Hd & [[? _]|(o & Hp & _)])]; [done..|].
  pose proof Hn as (Hin & _). apply (obj_List_Ok _ _ _ _ Hl) in Hin as [Hj [Hsel _]].
  apply obj_Patch_Ok in Hp as (cur & ver & Hc & -> & Hs); [|by intros cur].
  assert (cur = e) as -> by congruence. exists jobs, job, e, ver. split_and!; try done.
  - intros j. by eapply Delete_marks.
  - intros key Hk. by eapply Delete_other.
  - rewrite Hs. unfold retry_patch. by rewrite merge_map_self.
Qed.
(** the jobs of an environment are listed completely and from the newest,
    to those who may list jobs in its namespace. *)
Theorem hook_jobs_listed environment namespace (w : WE * WJ) ms l w' :
  ListHookJobs other review audited user environment namespace w = (Ok ms, l, w') ->
  let ns := or_default namespace in
  w' = w /\ may_do #"list" #"jobs" ns /\ StronglySorted not_older ms /\
  exists jobs, ms ≡ₚ map hook_message jobs /\
    forall job : HookJob, job ∈ jobs <-> stored (snd w) !! r_key job = Some job /\ hj_Namespace job = ns /\
      hj_Labels job !! hookEnvironmentLabel = Some environment.
Proof using JL.
  intros H. cbv zeta. assert (yields (ListHookJobs other review audited user environment namespace) w (fun r w' =>
    w' = w /\ forall ms, r = Ok ms -> may_do #"list" #"jobs" (or_default namespace) /\ exists jobs, ms = newest_first (map hook_message jobs) /\
      fst (obj_List (Ob := HookJob) {[hookEnvironmentLabel := environment]} (or_default namespace) (snd w)) = Ok jobs)) as Hs.
  { apply yields_seq, yields_hook_target. intros [ns|?] Hns; [|by split]. rewrite (Hns ns eq_refl). clear Hns.
    apply yields_seq, yields_pure; [auto with pure|intros [[]|?] Hmay; [|by split]].
    apply yields_seq, yields_of_jobs, yields_call; intros jobs wj Hl;
      pose proof (obj_List_pure (Ob := HookJob) {[hookEnvironmentLabel := environment]} (or_default namespace) (snd w)) as Hp;
      rewrite Hl in Hp; cbn [snd] in Hp; subst wj; [apply yields_reply|]; (split; [by destruct w|]); [|done].
    intros ms0 [= <-]. split; [done|]. exists jobs. by rewrite Hl. }
  unfold yields in Hs. rewrite H in Hs. cbn [fst snd] in Hs. destruct Hs as [-> Hs]. destruct (Hs ms eq_refl) as (Hmay & jobs & -> & Hl).
  split_and!; [done|done|apply newest_first_sorted|]. exists jobs. split; [apply newest_first_perm|]. intros job.
  rewrite (obj_List_Ok _ _ _ _ Hl). unfold selected. cbn [r_labels r_key hook_job_resource fst].
  rewrite map_singleton_subseteq_l. pose proof (or_default_nonempty namespace). naive_solver.
Qed.
End Environments.

(** ** Preview groups *)
Section Groups.
Context (other : k8s_error) (review : UserInfo -> attrs -> option bool) (audited : bool) (user : option UserInfo).
Context {U : GoUnicode} {M Doc W Sel : Type} {GC : Codec PreviewGroup M Doc} {GX : GroupMessage M} {LS : LabelSyntax}.
Context {GL : GroupCodecLaws M Doc} {API : ObjectApi PreviewGroup W} {L : ObjectApiLaws PreviewGroup W} {PA : PageApi PreviewGroup W Sel}.
Abbreviation may_do := (may_do review audited user).
Abbreviation Groups := (GroupKind review audited user (M := M) (W := W)).

Lemma authorize_namespaces_spec checked l w : yields (authorize_namespaces review audited user checked l) w (fun r (w' : W) =>
  w' = w /\ (r = Ok tt -> forall ns, ns ∈ l -> ns = [] \/ ns ∈ checked \/ may_do #"create" #"environments" ns)).
Proof.
  revert checked. induction l as [|ns l IH]; intros checked; cbn [authorize_namespaces]; [apply yields_reply; split; [done|]; by intros _ ns ?%elem_of_nil|].
  destruct (str_eqb ns [] || bool_decide (ns ∈ checked)) eqn:E.
  - refine (yields_mono _ _ _ _ (IH checked) _). intros r w' [-> H]. split; [done|]. intros Hr x [->|Hx]%elem_of_cons; [|auto].
    apply orb_true_iff in E as [?%str_eqb_true|?%bool_decide_eq_true]; auto.
  - apply yields_seq, yields_pure; [auto with pure|intros [[]|?] _; [|by split]].
    apply yields_seq, yields_pure.
    { intros v. unfold denied_for, may, authorize. by destruct (fst (AuthorizeAction _ _ _ _ _ _)) as [[]|[[] ?]]. }
    intros [[]|?] Hm; [|by split]. assert (may_do #"create" #"environments" ns) as Hmay.
    { unfold denied_for, may, authorize in Hm. change (fst (AuthorizeAction review audited user #"create" ns #"environments") = Ok tt).
      destruct (fst (AuthorizeAction review audited user _ ns _)) as [[]|[[] ?]]; done. }
    refine (yields_mono _ _ _ _ (IH _) _). intros r w' [-> H]. split; [done|].
    intros Hr x [->|Hx]%elem_of_cons; [auto|]. destruct (H Hr x Hx) as [?|[[->%elem_of_singleton|?]%elem_of_union|?]]; auto.
Qed.
Lemma group_check_spec ns m w : yields (kd_check Groups ns m) w (fun r w' =>
  w' = w /\ (r = Ok tt -> forall x, x ∈ default [] (msg_service_namespaces m) -> x = [] \/ x = ns \/ may_do #"create" #"environments" x)).
Proof.
  cbn. unfold authorizeServiceNamespaces. destruct (msg_service_namespaces m) as [l|]; cbn; [|apply yields_reply; split; [done|]; by intros _ x ?%elem_of_nil].
  refine (yields_mono _ _ _ _ (authorize_namespaces_spec _ _ _) _). intros r w' [-> H]. split; [done|]. intros Hr x Hx.
  destruct (H Hr x Hx) as [?|[?%elem_of_singleton|?]]; auto.
Qed.
Lemma group_regular : regular Groups.
Proof.
  split; [intros ns m w; apply group_check_spec| |]; intros p new o; cbn; unfold copy_group; repeat (case_match; [done|]); done.
Qed.

Inductive group_write := GCreate (namespace : gostring) (msg : option M) | GUpdate (msg : option M) (paths : list gostring) | GDelete (name namespace : gostring).
Definition serve_group (q : group_write) : handler (T := W) unit :=
  match q with
  | GCreate ns msg => seq (CreatePreviewGroup other review audited user ns msg) (fun _ => reply tt)
  | GUpdate msg paths => seq (UpdatePreviewGroup other review audited user msg paths) (fun _ => reply tt)
  | GDelete name ns => DeletePreviewGroup (M := M) other review audited user name ns
  end.
Definition services (g : PreviewGroup) : list gostring := map gs_Namespace (gp_Services (pg_Spec g)).
(** The namespaces the services of a group may have. *)
Definition may_serve (group_ns ns : gostring) : Prop := ns = [] \/ ns = group_ns \/ may_do #"create" #"environments" ns.
Definition group_changes_within (w w' : W) : Prop := forall key, stored w' !! key <> stored w !! key ->
  (exists verb, may_do verb #"previewgroups" (fst key)) /\
  forall g', stored w' !! key = Some g' -> Forall (may_serve (fst key)) (services g') \/ exists g, stored w !! key = Some g /\ services g' = services g.
Lemma group_within_key w w' ns name verb : may_do verb #"previewgroups" ns ->
  (forall key, key <> (ns, name) -> stored w' !! key = stored w !! key) ->
  (forall g', stored w' !! (ns, name) = Some g' -> Forall (may_serve ns) (services g') \/ exists g, stored w !! (ns, name) = Some g /\ services g' = services g) ->
  group_changes_within w w'.
Proof.
  intros Hm Hf Hs key Hk. destruct (decide (key = (ns, name))) as [->|Hne]; [|by rewrite Hf in Hk]. split; [by exists verb|done].
Qed.
Lemma masked_services paths new o : services (masked Groups paths new o) = services new \/ services (masked Groups paths new o) = services o.
Proof.
  unfold masked. generalize (match paths with [] => whole_paths | _ => paths end). intros l. revert o. induction l as [|p l IH]; intros o; cbn [fold_left]; [by right|].
  destruct (IH (kd_copy Groups p new o)) as [-> | ->]; [by left|]. cbn. unfold copy_group. repeat (case_match; [by auto|]). by right.
Qed.
Lemma checked_services m crd ns w : fst (fst (kd_check Groups ns m w)) = Ok tt -> ProtoPgToCRD m = Some crd -> Forall (may_serve ns) (services crd).
Proof using GL.
  intros Hc Hm. destruct (group_check_spec ns m w) as [_ H]. apply Forall_forall. intros x Hx. unfold services in Hx.
  rewrite (crd_services _ _ Hm) in Hx. by apply H.
Qed.

Lemma group_changes q w : group_changes_within w (snd (serve_group q w)).
Proof using L GL.
  change (yields (serve_group q) w (fun _ w' => group_changes_within w w')).
  assert (forall X (m : handler (T := W) X), yields m w (fun _ => group_changes_within w) -> yields (seq m (fun _ => reply tt)) w (fun _ => group_changes_within w)) as Hdrop.
  { intros X m H. apply yields_seq. refine (yields_mono _ _ _ _ H _). by intros [x|e] w'. }
  assert (forall (r : result rpc_error M) w', is_ok r = false /\ stored w' = stored w -> group_changes_within w w') as Hsame.
  { intros r w' [_ Hs] key Hk. by rewrite Hs in Hk. }
  destruct q as [ns msg|msg paths|name ns]; cbn [serve_group]; try apply Hdrop.
  - refine (yields_mono _ _ _ _ (Create_spec _ _ _ _ _ group_regular _ _ _) _).
    intros r w' [Hs|(m & crd & o & -> & Hm & Hc & Hp & Ho & _)]; [by eapply Hsame|].
    pose proof (checked_services _ _ _ _ Hc Hp) as Hsv. pose proof Ho as Ho'.
    apply obj_Create_Ok in Ho' as (uid & t & v & _ & -> & Hs). rewrite set_crd_namespace_key in Hs.
    eapply group_within_key; [exact Hm| |].
    + intros key Hk. rewrite Hs. by rewrite lookup_insert_ne.
    + intros g'. rewrite Hs, lookup_insert_eq. intros [= <-]. by left.
  - refine (yields_mono _ _ _ _ (Update_spec _ _ _ _ _ group_regular _ _ _) _).
    intros r w' [Hs|(m & cur & new & o & -> & Hm & Hc & _ & Hp & Hg & Ho & _)]; [by eapply Hsame|].
    pose proof (checked_services _ _ _ _ Hc Hp) as Hsv. pose proof (stored_key _ _ _ Hg) as Hk0.
    set (o1 := masked _ _ _ _) in *. assert (r_key o1 = r_key cur) as Hk1 by (unfold o1; by rewrite (masked_key _ group_regular)).
    eapply group_within_key; [exact Hm| |].
    + intros key Hk. eapply Update_other; [exact Ho|]. by rewrite Hk1, Hk0.
    + intros g'. apply obj_Update_Ok in Ho as (cur' & g & v & Hc' & _ & -> & ->). rewrite Hk1, Hk0 in Hc'.
      assert (cur' = cur) as -> by congruence.
      assert (r_key (r_update cur o1 g v) = (or_default (mt_Namespace (kd_meta Groups m)), mt_Name (kd_meta Groups m))) as Hkey by (by rewrite update_key).
      rewrite <- Hkey at 1. destruct (put_own (r_update cur o1 g v) (stored w)) as [->|[-> _]]; [|done]. intros Heq.
      assert (services g' = services o1) as -> by (by injection Heq as <-). rewrite Hg.
      destruct (masked_services paths new (set_version (mt_ResourceVersion (kd_meta Groups m)) cur)) as [Hn|Hn]; fold o1 in Hn; rewrite Hn; [by left|right; eauto].
  - refine (yields_mono _ _ _ _ (Delete_spec _ _ _ _ _ _ _ _) _).
    intros r w' [[_ Hs]|[Hm Ho]]; [intros key Hk; by rewrite Hs in Hk|].
    eapply group_within_key; [exact Hm| |].
    + intros key Hk. by eapply Delete_other.
    + intros g'. apply obj_Delete_Ok in Ho as (cur & Hc & _ & [[_ ->]|(_ & t & v & ->)]); [by rewrite lookup_delete_eq|].
      rewrite lookup_insert_eq. intros [= <-]. right. eauto.
Qed.

End Groups.
