(* ===== verification/ResourceServiceDemo.v ===== *)
(** * Executions of the environment and preview group services

    A server with environments, jobs and preview groups, a codec whose
    documents are the specification and the status, and the requests that show
    the theorems of [ResourceServiceFacts] at work; and what the services do
    that they do not mean to. *)

From stdpp Require Import sorting.
From S2P Require Import Prelude GoStrings GoTime GoDuration GoQuote AuthProvider Authz TokenStore KubeApi AgentTask ObjectApi.
From S2P Require Import ResourceNames EnvTypes GroupTypes Resources ResourceMessages AgentTaskService AgentTaskServiceFacts ResourceService.
From S2P Require Import ResourceServiceFacts.
Local Open Scope Z_scope.

Module ResourceDemo.
#[local] Existing Instances Server.api Server.api_laws ascii_unicode.

(** ** Codecs *)
Definition text_ok (d : option Z) : bool := match d with Some d => bool_decide (Forall duration_char (DurationString d)) | None => true end.
Record EnvMsg := mkEnvMsg { em_Meta : Meta; em_Spec : EnvironmentSpec; em_Status : EnvironmentStatus }.
Definition no_meta : Meta := mkMeta [] [] ∅ ∅ 0 None.
#[local] Instance env_codec : Codec Environment EnvMsg (EnvironmentSpec * EnvironmentStatus) := {
  json_Marshal e := Some (ev_Spec e, ev_Status e);
  json_Unmarshal d := Some (ev_set_Status d.2 (ev_set_Spec d.1 (new_environment [] [])));
  protojson_Marshal m := Some (em_Spec m, em_Status m);
  protojson_Unmarshal d :=
    if text_ok (lc_TTL (es_Lifecycle d.1)) && text_ok (t ← es_Testing d.1; tt_Timeout t) then Some (mkEnvMsg no_meta d.1 d.2) else None;
  msg_meta := em_Meta;
  msg_set_meta m e := mkEnvMsg m (em_Spec e) (em_Status e) }.
#[local] Instance env_message : EnvMessage EnvMsg := {
  msg_set_Ttl ttl m := mkEnvMsg (em_Meta m) (es_set_Lifecycle (lc_set_TTL (Some ttl) (es_Lifecycle (em_Spec m))) (em_Spec m)) (em_Status m) }.
#[local] Instance env_durations : EnvDurations EnvMsg (EnvironmentSpec * EnvironmentStatus).
Proof.
  split. intros e t d b p Ht Hd [= <-]. cbn. rewrite Ht. cbn. rewrite Hd. destruct (text_ok (lc_TTL _)); cbn [andb]; [|done].
  unfold text_ok. by case_bool_decide.
Qed.
Record GroupMsg := mkGroupMsg { gm_Meta : Meta; gm_Spec : option PreviewGroupSpec; gm_Status : PreviewGroupStatus }.
#[local] Instance group_codec : Codec PreviewGroup GroupMsg (PreviewGroupSpec * PreviewGroupStatus) := {
  json_Marshal g := Some (pg_Spec g, pg_Status g);
  json_Unmarshal d := Some (pg_set_Status d.2 (pg_set_Spec d.1 (new_group [] [])));
  protojson_Marshal m := Some (default no_group_spec (gm_Spec m), gm_Status m);
  protojson_Unmarshal d := if text_ok (l ← gp_Lifecycle d.1; gl_TTL l) then Some (mkGroupMsg no_meta (Some d.1) d.2) else None;
  msg_meta := gm_Meta;
  msg_set_meta m g := mkGroupMsg m (gm_Spec g) (gm_Status g) }.
#[local] Instance group_message : GroupMessage GroupMsg := {
  msg_service_namespaces m := sp ← gm_Spec m; Some (map gs_Namespace (gp_Services sp)) }.
#[local] Instance group_codec_laws : GroupCodecLaws GroupMsg (PreviewGroupSpec * PreviewGroupStatus).
Proof. split. intros p b g [= <-] [= <-]. cbn. by destruct (gm_Spec p). Qed.
#[local] Instance group_durations : GroupDurations GroupMsg (PreviewGroupSpec * PreviewGroupStatus).
Proof.
  split. intros g l ttl b p Hl Ht [= <-]. cbn. rewrite Hl. cbn. rewrite Ht. unfold text_ok. by case_bool_decide.
Qed.
#[local] Instance any_label : LabelSyntax := {| IsQualifiedName _ := true; IsValidLabelValue _ := true |}.

(** ** Orders and pages *)
#[local] Instance not_older_dec : RelDecision not_older.
Proof. intros a b. unfold not_older. apply _. Defined.
#[local] Instance not_older_trans : Transitive not_older.
Proof.
  intros a b c. unfold not_older, After, Before.
  rewrite !orb_false_iff, !andb_false_iff, !Z.ltb_ge, !Z.eqb_neq. lia.
Qed.
#[local] Instance not_older_total : Total not_older.
Proof.
  intros a b. unfold not_older, After, Before. rewrite !orb_false_iff, !andb_false_iff, !Z.ltb_ge, !Z.eqb_neq. lia.
Qed.
#[local] Instance job_order : JobOrder.
Proof. refine {| newest_first := merge_sort not_older |}; intros l; [apply merge_sort_Permutation|apply (StronglySorted_merge_sort _)]. Defined.
#[local] Instance pages : PageApi Environment (Server.t Environment) labels := {
  labels_Parse _ := Ok ∅;
  obj_ListPage ns limit _ sel w :=
    match obj_List (default ∅ sel) ns w with (Ok l, w1) => (Ok (take (Z.to_nat (Z.max 0 limit)) l, []), w1) | (Err e, w1) => (Err e, w1) end }.
#[local] Instance group_pages : PageApi PreviewGroup (Server.t PreviewGroup) labels := {
  labels_Parse _ := Ok ∅;
  obj_ListPage ns limit _ sel w :=
    match obj_List (default ∅ sel) ns w with (Ok l, w1) => (Ok (take (Z.to_nat (Z.max 0 limit)) l, []), w1) | (Err e, w1) => (Err e, w1) end }.
#[local] Instance server_retry : Retry (Server.t Environment) := default_retry _.

(** ** A server *)
Definition at_second (s : Z) : Time := mkTime (63000000000 + s) 0.
Definition hour : Z := 3600 * Second.
Definition developer : UserInfo := mkUser #"dev" #"dev" [] [] ∅.
Definition token : UserInfo :=
  mkUser #"task:t" #"t" [] [] (<[ExtraKeyAuthType := [ #"macaroon"]]> (<[ExtraKeyNamespace := [ #"team"]]>
    (<[ExtraKeyAllowedTools := [ #"diverge_delete_environment"; #"diverge_create_preview_group"]]> ∅))).
(** The developer may do everything in the namespaces of the team. *)
Definition reviews (u : UserInfo) (a : attrs) : option bool := Some (bool_decide (at_namespace a ∈ [ #"team"; #"team-db"])).
Definition environment (name : gostring) (ttl expires : option Z) : Environment :=
  mkEnvironment name #"team" #"u1" {[ #"app" := #"shop"]} ∅ [] [] (at_second 0) None 1 7
    (es_set_Lifecycle (mkLifecycle ttl false) no_env_spec)
    (et_set_ExpiresAt (at_second <$> expires) (et_set_CreatedAt (Some (at_second 10)) no_env_status)).
Definition job (name type : gostring) (created : Z) (failed : bool) : HookJob :=
  mkHookJob name #"team" #"j" (<[hookEnvironmentLabel := #"web"]> {[hookTypeLabel := type]}) [] (at_second created) None 3 0
    [mkJobCondition (if failed then JobFailed else JobComplete) #"True" #"done"] (Some (at_second (created + 30))).
Definition environments : Server.t Environment := Server.of_list [environment #"web" (Some (2 * hour)) (Some 7210); environment #"old" None None].
Definition jobs : Server.t HookJob :=
  Server.of_list [job #"m1" #"migration" 100 true; job #"m2" #"migration" 300 true; job #"m3" #"migration" 400 false; job #"p1" #"postdeploy" 500 true].
Definition world : Server.t Environment * Server.t HookJob := (environments, jobs).
Definition api_text (e : api_error) : gostring :=
  match e with
  | Forbidden => #"environments.divergedev.com 'web' is forbidden: User 'system:serviceaccount:diverge:server' cannot update resource"
  | _ => #"the API server has failed"
  end.
Definition extend := ExtendTTL (M := EnvMsg) (W := Server.t Environment) KOther reviews true (Some developer) (at_second 5000) api_text [].
Definition message (version : Z) (features : option FeatureSpec) (labels : gmap gostring gostring) : EnvMsg :=
  mkEnvMsg (mkMeta #"web" #"team" labels ∅ version None) (es_set_Features features no_env_spec) no_env_status.
Definition update (version : Z) (paths : list gostring) :=
  UpdateEnvironment (W := Server.t Environment) KOther reviews true (Some developer)
    (Some (message version (Some (mkFeature [] {[ #"dark" := #"on"]} [])) {[ #"app" := #"cart"]})) paths environments.
Example lost_update_refused : fst (fst (update 6 [])) = Err (SanitizeK8sError KConflict).
Proof. vm_compute. done. Qed.
Example seven_days_at_most : map (fun d => fst (fst (extend #"web" #"team" (Some d) environments))) [ - 1; 169 * hour] =
  [Err (RpcError CodeInvalidArgument #"extend_by must be a positive duration"); Err (RpcError CodeInvalidArgument #"extend_by cannot exceed 7 days")].
Proof. vm_compute. done. Qed.

(** ** Requests *)
Definition got {X W} (x : result rpc_error EnvMsg * X * W) : EnvMsg := match x with (Ok m, _, _) => m | _ => message 0 None ∅ end.
Definition extension := extend #"web" #"team" (Some hour) environments.
Lemma extension_runs : extension = (Ok (got extension), extension.1.2, extension.2).
Proof. vm_compute. reflexivity. Qed.
Lemma web_stored : stored environments !! (#"team", #"web") = Some (environment #"web" (Some (2 * hour)) (Some 7210)).
Proof. vm_compute. reflexivity. Qed.

Definition updated := update 7 [ #"labels"; #"spec.features"].
Lemma updated_runs : updated = (Ok (got updated), updated.1.2, updated.2).
Proof. vm_compute. reflexivity. Qed.
Lemma updated_labels : (ev_Labels <$> ProtoEnvToCRD (message 7 (Some (mkFeature [] {[ #"dark" := #"on"]} [])) {[ #"app" := #"cart"]})) =
  Some {[ #"app" := #"cart"]}.
Proof. vm_compute. reflexivity. Qed.

Definition retry := RetryHook KOther reviews true (Some developer) (at_second 900) #"web" #"team" #"migration" world.
Definition retried_message : HookJobMsg := mkHookJobMsg #"m2" #"migration" #"Pending" [] (at_second 900) None 0.
Lemma hook_retry_runs : retry = (Ok retried_message, retry.1.2, retry.2).
Proof. vm_compute. reflexivity. Qed.
(** The newer of the two migrations that have failed. *)
Lemma retry_hook_exact_witness : exists job, failed job /\ hook_labels #"web" #"migration" ⊆ hj_Labels job /\
  deleted (Ob := HookJob) (snd retry.2) (r_key job) /\
  exists ver e, stored (fst retry.2) = <[(#"team", #"web") := ev_set_ResourceVersion ver (ev_set_Annotations {[AnnotationRetryHook := #"migration"]} e)]> (stored environments).
Proof.
  destruct (retry_hook_exact KOther reviews true (Some developer) (at_second 900) #"web" #"team" #"migration" world _ _ _ hook_retry_runs)
    as (js & j & e & ver & _ & _ & Hn & _ & Hl & Hd & _ & He & Hs).
  change (stored environments !! (#"team", #"web") = Some e) in He. rewrite web_stored in He. injection He as <-.
  exists j. split; [exact (proj1 (proj2 Hn))|]. split; [exact Hl|]. split; [exact Hd|].
  exists ver, (environment #"web" (Some (2 * hour)) (Some 7210)). exact Hs.
Defined.

Definition listed := ListHookJobs KOther reviews true (Some developer) #"web" #"team" world.
Definition listed_jobs : list HookJobMsg := match listed with (Ok l, _, _) => l | _ => [] end.
Lemma listed_runs : listed = (Ok listed_jobs, listed.1.2, listed.2).
Proof. vm_compute. reflexivity. Qed.
Example listed_names : map (fun m => (hm_Name m, hm_Phase m, hm_DurationSeconds m)) listed_jobs =
  [(#"p1", #"Failed", 30); (#"m3", #"Succeeded", 30); (#"m2", #"Failed", 30); (#"m1", #"Failed", 30)].
Proof. vm_compute. done. Qed.
Lemma hook_jobs_listed_witness : StronglySorted not_older listed_jobs /\ exists js, listed_jobs ≡ₚ map hook_message js.
Proof.
  destruct (hook_jobs_listed KOther reviews true (Some developer) #"web" #"team" world _ _ _ listed_runs) as (_ & _ & Hs & js & Hp & _).
  split; [exact Hs|]. exists js. exact Hp.
Defined.

Lemma page_of_listed {Ob} `{ResourceLaws Ob} (sel : labels) ns n (w : Server.t Ob) o l :
  fst (obj_List sel ns w) = Ok l -> o ∈ take n l -> stored w !! r_key o = Some o /\ selected sel ns o.
Proof. intros Hl (i & Hi & _)%elem_of_take. apply (obj_List_Ok sel ns w l Hl). by apply list_elem_of_lookup_2 in Hi. Qed.
#[local] Instance page_laws : PageLaws (WE := Server.t Environment) (Sel := labels).
Proof.
  split; [done|]. intros ns limit tok sel w l next Hl [= <- <-]. split; [rewrite length_take; lia|].
  intros o Ho. destruct (page_of_listed (default ∅ sel) ns _ w o _ eq_refl Ho) as [Hs [_ Hn]]. done.
Qed.
Definition reading := GetEnvironment (M := EnvMsg) (W := Server.t Environment) KOther reviews true (Some developer) #"old" #"team" environments.
Lemma reading_runs : reading = (Ok (got reading), reading.1.2, reading.2).
Proof. vm_compute. reflexivity. Qed.
Lemma environment_reads_authorized_witness : reading.2 = environments /\ exists o, stored environments !! (#"team", #"old") = Some o.
Proof.
  destruct (environment_reads_authorized KOther reviews true (Some developer) (M := EnvMsg) (WE := Server.t Environment) (Sel := labels) environments) as [H _].
  destruct (H #"old" #"team" _ _ _ reading_runs) as [Hw Hm]. split; [exact Hw|]. destruct (Hm _ eq_refl) as (_ & o & Ho & _). exists o. exact Ho.
Defined.

(** A capability token deletes an environment of its namespace. *)
Definition deletion : environment_write (M := EnvMsg) := WDelete #"old" #"team".
Definition after_deletion := snd (serve_write KOther reviews true (Some token) (at_second 0) api_text [] deletion world).
Lemma deletion_deletes : stored (fst after_deletion) !! (#"team", #"old") <> stored (fst world) !! (#"team", #"old").
Proof. vm_compute. done. Qed.

(** *** Preview groups *)
Definition service (ns : gostring) : PreviewGroupServiceSpec :=
  mkGroupService #"cart" #"cart:1" [] [] ns 80 [] [] [] [] [] [] None None None None.
Definition group_spec (ttl : option Z) (ns : gostring) : PreviewGroupSpec :=
  mkGroupSpec no_source no_group_routing [service ns] None (Some (mkGroupLifecycle ttl true)) [] [].
Definition group_message_of (ttl : option Z) (ns : gostring) : GroupMsg :=
  mkGroupMsg (mkMeta #"pr-7" #"team" ∅ ∅ 0 None) (Some (group_spec ttl ns)) no_group_status.
Definition group_creation (user : UserInfo) (ttl : option Z) (ns : gostring) :=
  CreatePreviewGroup (W := Server.t PreviewGroup) KOther reviews true (Some user) #"team" (Some (group_message_of ttl ns)) (Server.of_list []).
Definition stored_group (ttl : option Z) (ns : gostring) : PreviewGroup :=
  pg_set_Spec (group_spec ttl ns) (mkPreviewGroup #"pr-7" #"team" #"uid" ∅ ∅ [] time_zero None 1 1 no_group_spec no_group_status).
Example service_namespaces_checked :
  map (fun ns => fst (fst (group_creation developer None ns))) [ #"prod"; #"Prod"] =
    [Err (RpcError CodePermissionDenied #"permission denied for service namespace prod");
     Err (RpcError CodeInvalidArgument #"service.namespace must be a valid DNS label (lowercase alphanumeric and hyphens)")] /\
  is_ok (fst (fst (group_creation developer None #"team-db"))) = true /\
  is_ok (fst (fst (group_creation token None #"team-db"))) = false.
Proof. vm_compute. done. Qed.
Definition group_request : group_write (M := GroupMsg) := GCreate #"team" (Some (group_message_of (Some (30 * Second)) #"team")).
Definition group_created := snd (serve_group KOther reviews true (Some token) group_request (Server.of_list [])).
Lemma created_group : exists g', stored group_created !! (#"team", #"pr-7") = Some g' /\ services g' = [ #"team"].
Proof. eexists. vm_compute. split; reflexivity. Qed.

Definition long_tests : Environment :=
  ev_set_Spec (mkEnvSpec no_source no_deploy no_routing no_database (mkLifecycle None false) None
    (Some (mkTesting true (mkTrigger [] [] [] [] [] [] []) (Some (10 * Minute)) false)) None []) (new_environment #"team" #"web").
Lemma long_durations_not_converted_witness :
  CRDPgToProto (GM := GroupMsg) (stored_group (Some (24 * hour)) #"team") = None /\ CRDEnvToProto (EM := EnvMsg) long_tests = None.
Proof.
  destruct (long_durations_not_converted (EM := EnvMsg) (GM := GroupMsg)) as [Hg He].
  split.
  - refine (Hg (stored_group (Some (24 * hour)) #"team") (mkGroupLifecycle (Some (24 * hour)) true) (24 * hour) eq_refl eq_refl _).
    vm_compute. discriminate.
  - refine (He long_tests (mkTesting true (mkTrigger [] [] [] [] [] [] []) (Some (10 * Minute)) false) (10 * Minute) eq_refl eq_refl _).
    vm_compute. discriminate.
Defined.

(** ** What the services do not mean to do *)
(** A preview group for a day is stored, its creation replies an internal
    error, and it can be neither read nor listed. *)
Theorem long_lived_group_unreadable :
  let '(r, _, w) := group_creation developer (Some (24 * hour)) #"team" in
  r = Err (RpcError CodeInternal #"internal server error") /\
  (exists g, stored w !! (#"team", #"pr-7") = Some g /\ pg_Spec g = group_spec (Some (24 * hour)) #"team") /\
  fst (fst (GetPreviewGroup (M := GroupMsg) KOther reviews true (Some developer) #"pr-7" #"team" w)) = r /\
  fst (fst (ListPreviewGroups (M := GroupMsg) (Sel := labels) KOther reviews true (Some developer) #"team" 0 [] [] w)) = Ok ([], []).
Proof. vm_compute. split_and!; [done| |done|done]. eexists. split; reflexivity. Qed.

Section Forbidding.
(** The server reads and does not let update. *)
#[local] Instance forbidding : ObjectApi Environment (Server.t Environment) :=
  let A := Server.api in {|
    obj_Get := obj_Get (ObjectApi := A); obj_Create := obj_Create (ObjectApi := A); obj_Update _ w := (Err Forbidden, w);
    obj_Patch := obj_Patch (ObjectApi := A); obj_Delete := obj_Delete (ObjectApi := A); obj_List := obj_List (ObjectApi := A) |}.
(** An error of the API server in [ExtendTTL] is replied with its text, where
    every other handler replies what [SanitizeK8sError] makes of it. *)
Theorem extend_ttl_leaks_error :
  fst (fst (ExtendTTL (M := EnvMsg) (W := Server.t Environment) KOther reviews true (Some developer) (at_second 5000) api_text []
              #"web" #"team" (Some hour) environments)) = Err (RpcError CodeUnknown (api_text Forbidden)) /\
  fst (fst (UpdateEnvironment (M := EnvMsg) (W := Server.t Environment) KOther reviews true (Some developer)
              (Some (message 7 None ∅)) [] environments)) = Err (RpcError CodePermissionDenied #"permission denied").
Proof. vm_compute. done. Qed.
End Forbidding.

(** A job that runs is reported as pending when it has a condition that does
    not end it. *)
Theorem running_job_pending :
  let job conds := mkHookJob #"m" #"team" #"j" ∅ [] (at_second 0) None 1 1 conds None in
  hook_phase (job []) = (#"Running", []) /\ hook_phase (job [mkJobCondition #"FailureTarget" #"True" #"backoff"]) = (#"Pending", []).
Proof. done. Qed.
End ResourceDemo.
