(* ===== verification/ResourceWatch.v ===== *)
(** * Watching environments and preview groups:
    [internal/server/streaming/informer.go], [WatchEnvironments] of
    [internal/server/environment.go] and [WatchPreviewGroups] of
    [internal/server/previewgroup.go]

    The poller lists the objects and publishes how the listing differs from the
    previous one; a watch subscribes, lists, sends what is there, and then the
    events it has not sent already.  Watches, publishers, cancellations, the
    API server and [Close] run concurrently: an execution is a sequence of
    steps.  The names of an object and a version are kept as they are where the
    code joins them with slashes and at signs, which no name contains. *)

From S2P Require Import Prelude GoStrings GoTime GoQuote AuthProvider Authz TokenStore KubeApi AgentTask ObjectApi ResourceNames.
From S2P Require Import EnvTypes GroupTypes Resources ResourceMessages AgentTaskService AgentTaskServiceFacts.
From S2P Require StreamLimiter Broadcaster.
From S2P Require Import ResourceService ResourceServiceFacts.
Local Open Scope Z_scope.

Inductive event_type := ADDED | MODIFIED | DELETED.
Record watch_event (Ob : Type) := mkWatchEvent { we_Type : event_type; we_Object : Ob; we_Version : Z }.
Arguments mkWatchEvent {Ob}. Arguments we_Type {Ob}. Arguments we_Object {Ob}. Arguments we_Version {Ob}.

(** ** The poller *)
Section Poller.
Context {Ob : Type} {R : Resource Ob}.
Implicit Types (known : gmap obj_key Ob) (items : list Ob).
Definition HandleEvent (t : event_type) (o : Ob) : watch_event Ob := mkWatchEvent t o (r_version o).
(** The events an item of the listing makes. *)
Definition item_events known (item : Ob) : list (watch_event Ob) :=
  match known !! r_key item with
  | None => [HandleEvent ADDED item]
  | Some prev =>
      if negb (str_eqb (r_uid prev) (r_uid item)) then [HandleEvent DELETED prev; HandleEvent ADDED item]
      else if negb (r_version prev =? r_version item) then [HandleEvent MODIFIED item]
      else []
  end.
Definition current_objects items : gmap obj_key Ob := fold_left (fun m o => <[r_key o := o]> m) items ∅.
Definition gone_events items (prev : obj_key * Ob) : list (watch_event Ob) :=
  match current_objects items !! prev.1 with Some _ => [] | None => [HandleEvent DELETED prev.2] end.
(** The order of a range over a map. *)
Class KnownOrder := {
  known_entries : gmap obj_key Ob -> list (obj_key * Ob);
  known_entries_perm : forall m, known_entries m ≡ₚ map_to_list m }.
Context {KO : KnownOrder}.
(** The events published and what is known from then on; a listing that fails
    changes nothing. *)
Definition poll {E} (listing : result E (list Ob)) known : list (watch_event Ob) * gmap obj_key Ob :=
  match listing with
  | Err _ => ([], known)
  | Ok items => (flat_map (item_events known) items ++ flat_map (gone_events items) (known_entries known), current_objects items)
  end.
Fixpoint polls {E} (listings : list (result E (list Ob))) known : list (watch_event Ob) * gmap obj_key Ob :=
  match listings with
  | [] => ([], known)
  | l :: listings => let '(evs, known1) := poll l known in let '(evs', known2) := polls listings known1 in (evs ++ evs', known2)
  end.
End Poller.
Arguments KnownOrder Ob : clear implicits.

(** ** Watches *)
Definition limit_reply {U : GoUnicode} (l : StreamLimiter.limiter) (e : StreamLimiter.limit_error) : rpc_error :=
  match e with
  | StreamLimiter.StreamUnauthenticated => RpcError CodeUnauthenticated #"unauthenticated: missing user identity"
  | StreamLimiter.ExhaustedPerUser u =>
      RpcError CodeResourceExhausted (#"stream limit of " ++ FormatInt (StreamLimiter.maxPerUser l) ++ #" reached for user " ++ Quote u ++
        #"; close idle watch/log streams")
  | StreamLimiter.ExhaustedGlobal => RpcError CodeResourceExhausted #"server stream capacity reached; try again later"
  end.

(** Subscriptions and receipts are the watches'. *)
Definition of_others {Event} (l : Broadcaster.label Event) : bool :=
  match l with Broadcaster.LSubscribe _ | Broadcaster.LReceive _ => false | _ => true end.

Section Watches.
Context (other : k8s_error) (review : UserInfo -> attrs -> option bool) (audited informer : bool).
Context {U : GoUnicode} {Ob M W : Type} {R : Resource Ob} {API : ObjectApi Ob W} (k : Kind Ob M W).

Record watch_message := mkWatchMessage { wm_Type : event_type; wm_Resource : M; wm_Version : Z }.
(** What was sent in the initial listing, for deduplication. *)
Definition object_version : Type := obj_key * Z.
Inductive watch_phase :=
| Subscribed | Following (sent : gset object_version) | Ended (r : result rpc_error unit) | Left (r : result rpc_error unit).
Record watch := mkWatch { wa_user : option UserInfo; wa_namespace : gostring; wa_phase : watch_phase; wa_out : list watch_message }.
(** Whose slot it has. *)
Definition slot_user (a : watch) : gostring := match wa_user a with Some u => Username u | None => [] end.
Record watching := mkWatching {
  wt_limiter : StreamLimiter.limiter; wt_broadcaster : Broadcaster.broadcaster (watch_event Ob); wt_world : W;
  wt_watches : gmap gostring watch; wt_log : list log_entry }.

(** Acquire, the checks, Subscribe; [id] is the identifier the subscription is
    given. *)
Definition watch_checks (user : option UserInfo) (namespace : gostring) : verdict :=
  and_then (if str_eqb namespace [] then (Ok tt, []) else (ValidateDNS1123Label namespace #"namespace", []))
    (AuthorizeAction review audited user #"watch" namespace (kd_resource k)).
Definition watch_enter (id : gostring) (user : option UserInfo) (namespace : gostring) (s : watching) : option watching :=
  let left l b e log := Some (mkWatching l b (wt_world s)
    (<[id := mkWatch user namespace (Left (Err e)) []]> (wt_watches s)) (wt_log s ++ log)) in
  if negb informer then left (wt_limiter s) (wt_broadcaster s) (RpcError CodeUnimplemented #"informer manager is not configured") []
  else
    match StreamLimiter.Acquire user (wt_limiter s) with
    | (Err e, l1, _) => left l1 (wt_broadcaster s) (limit_reply l1 e) []
    | (Ok username, l1, _) =>
        let released := fst (StreamLimiter.release_body username l1) in
        match watch_checks user namespace with
        | (Err e, log) => left released (wt_broadcaster s) e (map LogAuthz log)
        | (Ok _, log) =>
            match Broadcaster.step (Broadcaster.LSubscribe id) (wt_broadcaster s) with
            | Broadcaster.Next b1 =>
                if Broadcaster.b_closed (wt_broadcaster s)
                then left released b1 (RpcError CodeUnavailable #"server is shutting down") (map LogAuthz log)
                else Some (mkWatching l1 b1 (wt_world s) (<[id := mkWatch user namespace Subscribed []]> (wt_watches s))
                             (wt_log s ++ map LogAuthz log))
            | _ => None
            end
        end
    end.

(** The state is sent as ADDED; [send n] is the error of the [n]th message. *)
Fixpoint send_initial (send : nat -> option rpc_error) (n : nat) (items : list Ob)
    : list watch_message * gset object_version * option rpc_error :=
  match items with
  | [] => ([], ∅, None)
  | crd :: items =>
      match kd_to_message k crd with
      | None => send_initial send n items
      | Some m =>
          match send n with
          | Some e => ([], {[(r_key crd, r_version crd)]}, Some e)
          | None =>
              let '(out, sent, r) := send_initial send (S n) items in
              (mkWatchMessage ADDED m (r_version crd) :: out, {[(r_key crd, r_version crd)]} ∪ sent, r)
          end
      end
  end.
Definition watch_list (send : nat -> option rpc_error) (a : watch) (w : W) : watch * W :=
  match obj_List (Ob := Ob) ∅ (wa_namespace a) w with
  | (Err e, w1) => (mkWatch (wa_user a) (wa_namespace a) (Ended (Err (sanitized other e))) (wa_out a), w1)
  | (Ok items, w1) =>
      let '(out, sent, r) := send_initial send O items in
      (mkWatch (wa_user a) (wa_namespace a) (match r with Some e => Ended (Err e) | None => Following sent end) (wa_out a ++ out), w1)
  end.

(** The message of an event, unless it is skipped. *)
Definition delta (namespace : gostring) (sent : gset object_version) (e : watch_event Ob) : option watch_message :=
  let o := we_Object e in
  if negb (we_Version e =? 0) && bool_decide ((r_key o, we_Version e) ∈ sent) then None
  else if negb (str_eqb namespace []) && negb (str_eqb (fst (r_key o)) namespace) then None
  else m ← kd_to_message k o; Some (mkWatchMessage (we_Type e) m (we_Version e)).
Definition closed_reply (closed : bool) : rpc_error :=
  if closed then RpcError CodeUnavailable #"server shutting down"
  else RpcError CodeResourceExhausted #"event buffer overflow, please reconnect".
(** An event is received, or the channel is closed and empty. *)
Definition watch_receive (send : option rpc_error) (closed : bool) (c : Broadcaster.channel (watch_event Ob)) (a : watch) : option watch :=
  match wa_phase a with
  | Following sent =>
      match Broadcaster.ch_buffer c with
      | e :: _ =>
          match delta (wa_namespace a) sent e with
          | None => Some a
          | Some m =>
              match send with
              | Some err => Some (mkWatch (wa_user a) (wa_namespace a) (Ended (Err err)) (wa_out a))
              | None => Some (mkWatch (wa_user a) (wa_namespace a) (Following sent) (wa_out a ++ [m]))
              end
          end
      | [] =>
          if Broadcaster.ch_closed c
          then Some (mkWatch (wa_user a) (wa_namespace a) (Ended (Err (closed_reply closed))) (wa_out a))
          else None
      end
  | _ => None
  end.
Definition received (id : gostring) (b : Broadcaster.broadcaster (watch_event Ob)) : Broadcaster.broadcaster (watch_event Ob) :=
  match Broadcaster.step (Broadcaster.LReceive id) b with Broadcaster.Next b1 => b1 | _ => b end.

Inductive watch_label :=
| WEnter (id : gostring) (user : option UserInfo) (namespace : gostring)
| WList (id : gostring) (send : nat -> option rpc_error)
| WReceive (id : gostring) (send : option rpc_error)
| WCancel (id : gostring)
| WLeave (id : gostring)
| WBroadcast (l : Broadcaster.label (watch_event Ob))
| WWorld (w : W).
Definition set_watch (id : gostring) (a : watch) (s : watching) : watching :=
  mkWatching (wt_limiter s) (wt_broadcaster s) (wt_world s) (<[id := a]> (wt_watches s)) (wt_log s).
Definition with_broadcaster (b : Broadcaster.broadcaster (watch_event Ob)) (s : watching) : watching :=
  mkWatching (wt_limiter s) b (wt_world s) (wt_watches s) (wt_log s).
Definition with_world (w : W) (s : watching) : watching :=
  mkWatching (wt_limiter s) (wt_broadcaster s) w (wt_watches s) (wt_log s).
(** The deferred calls: Unsubscribe, then the release. *)
Definition watch_leave (id : gostring) (a : watch) (s : watching) : option watching :=
  match wa_phase a, Broadcaster.step (Broadcaster.LUnsubscribe id) (wt_broadcaster s) with
  | Ended r, Broadcaster.Next b1 =>
      Some (mkWatching (fst (StreamLimiter.release_body (slot_user a) (wt_limiter s))) b1 (wt_world s)
              (<[id := mkWatch (wa_user a) (wa_namespace a) (Left r) (wa_out a)]> (wt_watches s)) (wt_log s))
  | _, _ => None
  end.
Definition watch_step (l : watch_label) (s : watching) : option watching :=
  match l with
  | WEnter id user namespace => if decide (id ∈ dom (wt_watches s)) then None else watch_enter id user namespace s
  | WList id send =>
      a ← wt_watches s !! id;
      match wa_phase a with
      | Subscribed => let '(a1, w1) := watch_list send a (wt_world s) in Some (set_watch id a1 (with_world w1 s))
      | _ => None
      end
  | WReceive id send =>
      a ← wt_watches s !! id; c ← Broadcaster.b_channels (wt_broadcaster s) !! id;
      a1 ← watch_receive send (Broadcaster.b_closed (wt_broadcaster s)) c a;
      Some (set_watch id a1 (with_broadcaster (received id (wt_broadcaster s)) s))
  | WCancel id =>
      a ← wt_watches s !! id;
      match wa_phase a with
      | Following _ => Some (set_watch id (mkWatch (wa_user a) (wa_namespace a) (Ended (Ok tt)) (wa_out a)) s)
      | _ => None
      end
  | WLeave id => a ← wt_watches s !! id; watch_leave id a s
  | WBroadcast l =>
      if of_others l
      then match Broadcaster.step l (wt_broadcaster s) with Broadcaster.Next b1 => Some (with_broadcaster b1 s) | _ => None end
      else None
  | WWorld w => Some (with_world w s)
  end.
Inductive watch_reachable (opts : list Z) (maxG maxU : Z) : watching -> Prop :=
| watch_start l w : StreamLimiter.NewStreamLimiter maxG maxU = Some l ->
    watch_reachable opts maxG maxU (mkWatching l (Broadcaster.NewBroadcaster opts) w ∅ [])
| watch_next l s s' : watch_reachable opts maxG maxU s -> watch_step l s = Some s' -> watch_reachable opts maxG maxU s'.
End Watches.
Arguments watching Ob M W : clear implicits.
Arguments watch M : clear implicits.
Arguments watch_message M : clear implicits.
Arguments watch_label Ob W : clear implicits.
