(* ===== verification/ResourceWatchFacts.v ===== *)
(** * What watches show and hold

    The events of the poller lead from one listing to the next; a watch sends
    the listing and then every event received that it has not sent already, of
    the namespace the user may watch; the slots of the limiter and the
    subscriptions are those of the running watches. *)

From S2P Require Import Prelude GoStrings GoTime GoQuote AuthProvider Authz AuthFacts TokenStore KubeApi AgentTask ObjectApi.
From S2P Require Import ResourceNames EnvTypes GroupTypes Resources ResourceMessages AgentTaskService AgentTaskServiceFacts.
From S2P Require StreamLimiter Broadcaster.
From S2P Require Import ResourceService ResourceServiceFacts ResourceServiceDemo ResourceWatch.
Local Open Scope Z_scope.

(** ** The poller *)
Section Poller.
Context {Ob : Type} {R : Resource Ob} {KO : KnownOrder Ob}.
Implicit Types (known m : gmap obj_key Ob) (items : list Ob) (o : Ob).
(** What one who knows [m] makes of an event. *)
Definition apply_event m (e : watch_event Ob) : gmap obj_key Ob :=
  match we_Type e with DELETED => delete (r_key (we_Object e)) m | _ => <[r_key (we_Object e) := we_Object e]> m end.
Definition apply_events (evs : list (watch_event Ob)) m : gmap obj_key Ob := fold_left apply_event evs m.
(** The identity and the version of what is known. *)
Definition version_of o : gostring * Z := (r_uid o, r_version o).
Definition versions m : gmap obj_key (gostring * Z) := version_of <$> m.
Definition own_keys m : Prop := forall key o, m !! key = Some o -> r_key o = key.

Lemma apply_events_app evs evs' m : apply_events (evs ++ evs') m = apply_events evs' (apply_events evs m).
Proof. apply fold_left_app. Qed.
Lemma apply_event_versions e m m' : versions m = versions m' -> versions (apply_event m e) = versions (apply_event m' e).
Proof.
  unfold versions, apply_event. intros H. destruct (we_Type e); rewrite ?fmap_insert, ?fmap_delete; by rewrite H.
Qed.
Lemma apply_events_versions evs : forall m m', versions m = versions m' -> versions (apply_events evs m) = versions (apply_events evs m').
Proof. induction evs as [|e evs IH]; cbn; [done|]. intros m m' H. by apply IH, apply_event_versions. Qed.

Lemma current_snoc items o : current_objects (items ++ [o]) = <[r_key o := o]> (current_objects items).
Proof. unfold current_objects. by rewrite fold_left_app. Qed.
Lemma current_lookup items o : NoDup (map r_key items) -> o ∈ items -> current_objects items !! r_key o = Some o.
Proof.
  induction items as [|x items IH] using rev_ind; [by intros _ ?%elem_of_nil|].
  rewrite map_app, current_snoc. intros (Hn & Hd & _)%NoDup_app [Ho| ->%list_elem_of_singleton]%elem_of_app; [|by rewrite lookup_insert_eq].
  rewrite lookup_insert_ne; [by apply IH|]. intros He. apply (Hd (r_key o)); [by apply list_elem_of_fmap_2|]. cbn. rewrite He. by left.
Qed.
Lemma current_missing items key : key ∉ map r_key items -> current_objects items !! key = None.
Proof.
  induction items as [|x items IH] using rev_ind; [done|]. rewrite map_app, current_snoc, not_elem_of_app. cbn.
  intros [H Hx%not_elem_of_cons]. rewrite lookup_insert_ne by naive_solver. by apply IH.
Qed.
Lemma current_keys items : own_keys (current_objects items).
Proof.
  induction items as [|x items IH] using rev_ind; [done|]. intros key o. rewrite current_snoc, lookup_insert. case_decide; naive_solver.
Qed.

(** What is known of an item once its events are applied. *)
Definition item_known known o : Ob :=
  match known !! r_key o with Some prev => if decide (version_of prev = version_of o) then prev else o | None => o end.
Lemma item_known_version known o : version_of (item_known known o) = version_of o.
Proof. unfold item_known. by repeat case_match. Qed.
Lemma item_events_own known o m : own_keys known -> m !! r_key o = known !! r_key o ->
  apply_events (item_events known o) m !! r_key o = Some (item_known known o).
Proof.
  intros Hk Hm. unfold item_events, item_known, version_of. destruct (known !! r_key o) as [prev|] eqn:E; [|by apply lookup_insert_eq].
  destruct (str_eqb (r_uid prev) (r_uid o)) eqn:Eu; cbn [negb]; [apply str_eqb_true in Eu|apply str_eqb_false in Eu].
  - rewrite Eu. destruct (Z.eqb_spec (r_version prev) (r_version o)) as [Ev|Ev]; cbn [negb].
    + rewrite Ev, decide_True by done. cbn. by rewrite Hm.
    + rewrite decide_False by congruence. apply lookup_insert_eq.
  - rewrite decide_False by congruence. cbn. apply lookup_insert_eq.
Qed.
Lemma item_events_other known o m key : own_keys known -> key <> r_key o -> apply_events (item_events known o) m !! key = m !! key.
Proof.
  intros Hk Hne. unfold item_events. destruct (known !! r_key o) as [prev|] eqn:E; [apply Hk in E|].
  - repeat case_match; cbn; unfold apply_event; cbn; rewrite ?lookup_insert_ne, ?lookup_delete_ne by congruence; done.
  - cbn. unfold apply_event; cbn. by rewrite lookup_insert_ne.
Qed.
Lemma items_applied known items : own_keys known -> NoDup (map r_key items) -> forall m,
  (forall o, o ∈ items -> m !! r_key o = known !! r_key o) ->
  let m' := apply_events (flat_map (item_events known) items) m in
  (forall o, o ∈ items -> m' !! r_key o = Some (item_known known o)) /\ (forall key, key ∉ map r_key items -> m' !! key = m !! key).
Proof.
  intros Hk. induction items as [|x items IH]; intros Hd m Hm; cbv zeta; [split; [by intros o ?%elem_of_nil|done]|].
  cbn [map] in Hd. apply NoDup_cons in Hd as [Hx Hd]. cbn [flat_map map]. rewrite apply_events_app.
  destruct (IH Hd (apply_events (item_events known x) m)) as [H1 H2].
  { intros o Ho. rewrite item_events_other; [by apply Hm; right|done|].
    intros He. apply Hx. rewrite <- He. by apply list_elem_of_fmap_2. }
  split.
  - intros o [->|Ho]%elem_of_cons; [|by apply H1]. rewrite H2 by done. apply item_events_own; [done|]. apply Hm. by left.
  - intros key [Hne Hn]%not_elem_of_cons. rewrite H2 by done. by apply item_events_other.
Qed.
Lemma gone_applied items (l : list (obj_key * Ob)) : (forall p, p ∈ l -> r_key p.2 = p.1) -> forall m key,
  (key ∉ l.*1 \/ is_Some (current_objects items !! key) -> apply_events (flat_map (gone_events items) l) m !! key = m !! key) /\
  (key ∈ l.*1 \/ m !! key = None -> current_objects items !! key = None -> apply_events (flat_map (gone_events items) l) m !! key = None).
Proof.
  induction l as [|[key0 prev] l IH]; intros Hl m key; [cbn; split; [done|]; intros [?%elem_of_nil|?] _; done|].
  assert (r_key prev = key0) as Hk by (apply (Hl (key0, prev)); by left).
  specialize (IH (fun p Hp => Hl p (list_elem_of_further _ _ _ Hp))). cbn [flat_map]. rewrite apply_events_app.
  assert (apply_events (gone_events items (key0, prev)) m = if decide (current_objects items !! key0 = None) then delete key0 m else m) as ->.
  { unfold gone_events. cbn [fst snd]. destruct (current_objects items !! key0); [by rewrite decide_False|]. rewrite decide_True by done. cbn. unfold apply_event. cbn. by rewrite Hk. }
  rewrite !fmap_cons, !elem_of_cons. cbn [fst].
  set (m1 := if decide _ then _ else _).
  assert (m1 !! key = if decide (key = key0 /\ current_objects items !! key = None) then None else m !! key) as Hm1.
  { unfold m1. destruct (decide (key = key0)) as [->|Hne].
    - destruct (decide (current_objects items !! key0 = None)); [rewrite decide_True by done; apply lookup_delete_eq|].
      rewrite decide_False by naive_solver. done.
    - rewrite (decide_False (P := key = key0 /\ _)) by naive_solver. case_decide; [by rewrite lookup_delete_ne|done]. }
  destruct (IH m1 key) as [I1 I2]. rewrite Hm1 in I1, I2. case_decide as Hd.
  - destruct Hd as [-> Hc]. rewrite Hc. split; [intros [?|[? ?]]; [naive_solver|done]|]. intros _ _. by apply I2; [right|].
  - split; [intros H; apply I1; naive_solver|]. intros H Hc. apply I2; [|done]. naive_solver.
Qed.

(** What one who knew the previous listing knows after the events is the new
    listing. *)
Lemma poll_versions {E} items known : own_keys known -> NoDup (map r_key items) ->
  versions (apply_events (fst (poll (E := E) (Ok items) known)) known) = versions (current_objects items).
Proof.
  intros Hk Hd. cbn [poll fst]. rewrite apply_events_app. apply map_eq. intros key. unfold versions. rewrite !lookup_fmap.
  destruct (items_applied known items Hk Hd known (fun _ _ => eq_refl)) as [H1 H2].
  set (m := apply_events (flat_map (item_events known) items) known) in *.
  destruct (gone_applied items (known_entries known)) with (m := m) (key := key) as [G1 G2].
  { intros [k0 o] Hp. rewrite known_entries_perm, elem_of_map_to_list in Hp. by apply Hk in Hp. }
  destruct (decide (key ∈ map r_key items)) as [Hin|Hn].
  - apply list_elem_of_fmap in Hin as (o & -> & Ho). pose proof (current_lookup _ _ Hd Ho) as Hc.
    rewrite G1, H1, Hc by (rewrite ?Hc; eauto). cbn. by rewrite item_known_version.
  - rewrite (current_missing _ _ Hn) in *. rewrite G2; [done| |done].
    destruct (known !! key) as [o|] eqn:E0; [left|right; by rewrite H2].
    rewrite known_entries_perm. apply list_elem_of_fmap. exists (key, o). by rewrite elem_of_map_to_list.
Qed.
Lemma poll_keys {E} (l : result E (list Ob)) known : own_keys known -> own_keys (snd (poll l known)).
Proof. destruct l; [intros _; apply current_keys|done]. Qed.
Lemma polls_versions {E} (ls : list (result E (list Ob))) : Forall (fun l => forall items, l = Ok items -> NoDup (map r_key items)) ls ->
  forall known m, own_keys known -> versions m = versions known ->
  versions (apply_events (fst (polls ls known)) m) = versions (snd (polls ls known)).
Proof.
  induction 1 as [|l ls Hl _ IH]; intros known m Hk Hm; [done|]. cbn [polls].
  pose proof (poll_keys l known Hk) as Hk1. destruct (poll l known) as [evs known1] eqn:E1. cbn [snd] in Hk1.
  specialize (IH known1 (apply_events evs m) Hk1). destruct (polls ls known1) as [evs' known2]. cbn [fst snd] in *.
  rewrite apply_events_app. apply IH. rewrite (apply_events_versions evs _ _ Hm).
  destruct l as [items|e]; cbn [poll] in E1; injection E1 as <- <-; [|done]. by apply (poll_versions (E := E)), Hl.
Qed.

(** C27: one who starts with nothing and applies the events that the poller
    publishes always knows the identity and the version of every object of the
    last listing, and of no other; a listing that fails publishes nothing. *)
Theorem poller_events_follow_listings {E} (ls : list (result E (list Ob))) last :
  Forall (fun l => forall items, l = Ok items -> NoDup (map r_key items)) ls ->
  match last with Ok items => NoDup (map r_key items) | Err _ => True end ->
  let evs := fst (polls (ls ++ [last]) ∅) in
  versions (apply_events evs ∅) = match last with Ok items => versions (current_objects items) | Err _ => versions (apply_events (fst (polls ls ∅)) ∅) end.
Proof.
  intros Hls Hlast. cbv zeta.
  assert (forall (a : list (result E (list Ob))) known, polls (a ++ [last]) known =
    (fst (polls a known) ++ fst (poll last (snd (polls a known))), snd (poll last (snd (polls a known))))) as Hsplit.
  { induction a as [|l a IH]; intros known; cbn [polls app fst snd]; [destruct (poll last known) as [e m]; cbn; by rewrite app_nil_r|].
    destruct (poll l known) as [e1 m1]. rewrite IH. destruct (polls a m1) as [e2 m2]. cbn. by rewrite app_assoc. }
  assert (own_keys ∅) as H0 by done.
  rewrite (polls_versions (ls ++ [last])) by (done || (apply Forall_app; split; [done|]; constructor; [|done]; by intros items ->)).
  rewrite (polls_versions ls) by done. rewrite Hsplit. cbn [snd]. by destruct last.
Qed.
End Poller.

(** ** Channels *)
Section Channels.
Context {Event : Type}.
Import Broadcaster.
Implicit Types (b : broadcaster Event).
(** What the reader of a channel was given. *)
Definition read_from (id : gostring) b : option (list Event) := ch_received <$> b_channels b !! id.
Lemma Unsubscribe_reads id0 b b' id : Unsubscribe id0 b = Next b' -> read_from id b' = read_from id b.
Proof.
  unfold Unsubscribe, read_from. case_decide; [|by intros [= <-]]. destruct (b_channels b !! id0) as [c|] eqn:E; [|done].
  unfold close_channel. destruct (ch_closed c); [done|]. intros [= <-]. cbn. rewrite lookup_insert. case_decide as Hd; [|done].
  subst id0. by rewrite E.
Qed.
Lemma close_all_reads ids : forall b b' id, close_all ids b = Next b' -> read_from id b' = read_from id b.
Proof.
  induction ids as [|i ids IH]; cbn [close_all]; [by intros b b' id [= <-]|]. intros b b' id.
  destruct (Unsubscribe i b) as [b1| |] eqn:E; [|done..]. intros H. rewrite (IH _ _ _ H). by eapply Unsubscribe_reads.
Qed.
Lemma step_reads l b b' id : step l b = Next b' -> of_others l = true -> read_from id b' = read_from id b.
Proof.
  destruct l as [id0|id0|t ev order|t|id0|]; cbn [of_others step]; try done; intros H _.
  - destruct (read_locked b); [done|]. by eapply Unsubscribe_reads.
  - repeat case_match; by simplify_eq.
  - unfold publish_step in H. destruct (b_publishers b !! t) as [[ev seen [|i todo] drop|ev seen [|i drop]]|] eqn:Et; [by simplify_eq| |by simplify_eq| |done].
    + destruct (b_channels b !! i) as [c|] eqn:Ei; [|done]. unfold try_send in H.
      destruct (ch_closed c); [done|]. destruct (_ <? _)%nat; simplify_eq; unfold read_from; cbn; rewrite lookup_insert;
        case_decide as Hd; try done; subst i; by rewrite Ei.
    + destruct (read_locked b); [done|]. destruct (Unsubscribe i b) as [b1| |] eqn:E; [|done..]. injection H as <-.
      exact (Unsubscribe_reads _ _ _ id E).
  - destruct (read_locked b); [done|]. unfold Close in H. destruct (b_closed b); [by injection H as <-|]. by rewrite (close_all_reads _ _ _ _ H).
Qed.
Lemma Unsubscribe_subscribers id0 b b' : Unsubscribe id0 b = Next b' -> b_subscribers b' = b_subscribers b ∖ {[id0]}.
Proof.
  unfold Unsubscribe. case_decide; [|intros [= <-]; set_solver]. destruct (b_channels b !! id0) as [c|]; [|done].
  destruct (close_channel c); [|done]. by intros [= <-].
Qed.
Lemma close_all_subscribers ids : forall b b', close_all ids b = Next b' -> b_subscribers b' ⊆ b_subscribers b.
Proof.
  induction ids as [|i ids IH]; cbn [close_all]; [by intros b b' [= <-]|]. intros b b'.
  destruct (Unsubscribe i b) as [b1| |] eqn:E; [|done..]. apply Unsubscribe_subscribers in E. intros H%IH. set_solver.
Qed.
Lemma step_subscribers l b b' : step l b = Next b' -> of_others l = true -> b_subscribers b' ⊆ b_subscribers b.
Proof.
  destruct l as [id0|id0|t ev order|t|id0|]; cbn [of_others step]; try done; intros H _.
  - destruct (read_locked b); [done|]. apply Unsubscribe_subscribers in H. set_solver.
  - repeat case_match; by simplify_eq.
  - unfold publish_step in H. destruct (b_publishers b !! t) as [[ev seen [|i todo] drop|ev seen [|i drop]]|] eqn:Et; [by simplify_eq| |by simplify_eq| |done].
    + repeat case_match; by simplify_eq.
    + destruct (read_locked b); [done|]. destruct (Unsubscribe i b) as [b1| |] eqn:E; [|done..]. injection H as <-.
      apply Unsubscribe_subscribers in E. cbn. set_solver.
  - destruct (read_locked b); [done|]. unfold Close in H. destruct (b_closed b); [by injection H as <-|].
    by apply close_all_subscribers in H.
Qed.
Lemma receive_reads id0 b b' id : step (LReceive id0) b = Next b' ->
  exists e buf cl recv, b_channels b !! id0 = Some (mkChannel (e :: buf) cl recv) /\
    read_from id b' = if decide (id = id0) then Some (recv ++ [e]) else read_from id b.
Proof.
  cbn [step]. destruct (b_channels b !! id0) as [[[|e buf] cl recv]|] eqn:E; [done| |done]. intros [= <-].
  exists e, buf, cl, recv. split; [done|]. unfold read_from. cbn. rewrite lookup_insert. by repeat case_decide; subst.
Qed.
Lemma subscribe_reads id0 b b' id : step (LSubscribe id0) b = Next b' ->
  read_from id b' = if decide (id = id0 /\ b_closed b = false) then Some [] else read_from id b.
Proof.
  cbn [step]. destruct (read_locked b); [done|]. case_decide; [done|]. unfold Subscribe. destruct (b_closed b); intros [= <-].
  - by rewrite decide_False by naive_solver.
  - unfold read_from. cbn. rewrite lookup_insert. repeat case_decide; naive_solver.
Qed.
End Channels.

(** ** Slots *)
Section Slots.
Import StreamLimiter.
Lemma slot_acquired user l u l1 ms : Acquire user l = (Ok u, l1, ms) ->
  (exists ui, user = Some ui /\ u = Username ui) /\ maxGlobal l1 = maxGlobal l /\ maxPerUser l1 = maxPerUser l /\
  global l1 = global l + 1 /\ global l + 1 <= maxGlobal l /\ count l u + 1 <= maxPerUser l /\
  forall v, count l1 v = count l v + if decide (v = u) then 1 else 0.
Proof.
  unfold Acquire. destruct user as [ui|]; [|done]. case_bool_decide; [done|].
  destruct (Z.leb_spec (maxPerUser l) (count l (Username ui))); [done|]. destruct (Z.leb_spec (maxGlobal l) (global l)); [done|].
  intros [= <- <- _]. cbn [global]. split_and!; [eauto|done|done|lia|lia|lia|]. intros v. rewrite count_insert. repeat case_decide; subst; try done; lia.
Qed.
Lemma slot_refused user l e l1 ms : Acquire user l = (Err e, l1, ms) -> l1 = l.
Proof. unfold Acquire. repeat case_match; by intros [= <- <- _]. Qed.
Lemma release_limits u l : let l' := fst (release_body u l) in
  maxGlobal l' = maxGlobal l /\ maxPerUser l' = maxPerUser l /\ global l' = global l - 1 /\
  forall v, count l' v = count l v - if decide (v = u) then 1 else 0.
Proof.
  split_and!; [done..|]. intros v. pose proof (release_count u l v) as H. cbn zeta in H. rewrite H. repeat case_decide; subst; try done; lia.
Qed.
(** The streams of a table that satisfy [P]. *)
Definition tally {A} (P : A -> bool) (m : gmap gostring A) : Z := Z.of_nat (size (filter (fun p => P p.2 = true) m)).
Lemma tally_insert {A} (P : A -> bool) (m : gmap gostring A) key a :
  tally P (<[key := a]> m) = tally P m - (match m !! key with Some a0 => if P a0 then 1 else 0 | None => 0 end) + if P a then 1 else 0.
Proof.
  unfold tally. rewrite map_filter_insert. cbn [snd].
  assert (Z.of_nat (size (filter (fun p => P p.2 = true) (delete key m))) =
    tally P m - match m !! key with Some a0 => if P a0 then 1 else 0 | None => 0 end) as Hd.
  { unfold tally. rewrite map_filter_delete, map_size_delete, map_lookup_filter. destruct (m !! key) as [a0|] eqn:E; cbn; [|by rewrite Z.sub_0_r].
    destruct (P a0) eqn:EP; [rewrite option_guard_True by done|rewrite option_guard_False by (cbn; congruence); cbn; by rewrite Z.sub_0_r].
    assert (size (filter (fun p => P p.2 = true) m) <> 0%nat); [|cbn; lia].
    apply map_size_non_empty_iff. intros He. assert (filter (fun p => P p.2 = true) m !! key = Some a0) as Hf by by apply map_lookup_filter_Some.
    by rewrite He in Hf. }
  destruct (P a) eqn:EP.
  - rewrite decide_True by done. rewrite <- insert_delete_eq, map_size_insert_None, Nat2Z.inj_succ; [|apply lookup_delete_eq].
    rewrite <- map_filter_delete, Hd. unfold tally. lia.
  - rewrite decide_False by congruence. rewrite Hd. unfold tally. lia.
Qed.
End Slots.

(** ** Watches *)
Section Watches.
Context (other : k8s_error) (review : UserInfo -> attrs -> option bool) (audited informer : bool).
Context {U : GoUnicode} {Ob M W : Type} {R : Resource Ob} {API : ObjectApi Ob W} {L : ObjectApiLaws Ob W} (k : Kind Ob M W).
Implicit Types (a : watch M) (s : watching Ob M W) (o : Ob).
Abbreviation step_of := (watch_step other review audited informer k).

Definition running a : bool := match wa_phase a with Left _ => false | _ => true end.
Definition inside (namespace : gostring) o : Prop := namespace = [] \/ fst (r_key o) = namespace.
(** A message shows an object of the namespace asked for. *)
Definition shows a (m : watch_message M) : Prop := exists o, kd_to_message k o = Some (wm_Resource m) /\ inside (wa_namespace a) o.
Definition watch_authorized a : Prop :=
  fst (AuthorizeAction review audited (wa_user a) #"watch" (wa_namespace a) (kd_resource k)) = Ok tt.
(** What the listing makes a watch send, and what it remembers of it. *)
Definition listed o : option (watch_message M) := m ← kd_to_message k o; Some (mkWatchMessage ADDED m (r_version o)).
Definition shown (items : list Ob) : gset object_version :=
  list_to_set (omap (fun o => match kd_to_message k o with Some _ => Some (r_key o, r_version o) | None => None end) items).
(** A watch and what it has read of its channel. *)
Definition watch_ok a (reads : option (list (watch_event Ob))) : Prop :=
  Forall (shows a) (wa_out a) /\ (running a = true \/ wa_out a <> [] -> watch_authorized a) /\
  match wa_phase a with
  | Subscribed => wa_out a = [] /\ reads = Some []
  | Following sent => exists items evs, Forall (inside (wa_namespace a)) items /\ reads = Some evs /\ sent = shown items /\
      wa_out a = omap listed items ++ omap (delta k (wa_namespace a) sent) evs
  | _ => True
  end.
Definition slot_of (u : gostring) a : bool := running a && bool_decide (slot_user a = u).
Record watching_ok s : Prop := {
  wo_watches : forall id a, wt_watches s !! id = Some a -> watch_ok a (read_from id (wt_broadcaster s));
  wo_subscribed : forall id, id ∈ Broadcaster.b_subscribers (wt_broadcaster s) -> exists a, wt_watches s !! id = Some a /\ running a = true;
  wo_global : StreamLimiter.global (wt_limiter s) = tally running (wt_watches s) /\
    StreamLimiter.global (wt_limiter s) <= StreamLimiter.maxGlobal (wt_limiter s);
  wo_user : forall u, StreamLimiter.count (wt_limiter s) u = tally (slot_of u) (wt_watches s) /\
    StreamLimiter.count (wt_limiter s) u <= StreamLimiter.maxPerUser (wt_limiter s) }.

Lemma send_initial_spec send items : forall n out sent r, send_initial k send n items = (out, sent, r) ->
  (r = None -> out = omap listed items /\ sent = shown items) /\
  Forall (fun m => exists o, o ∈ items /\ kd_to_message k o = Some (wm_Resource m)) out.
Proof.
  assert (forall o items (l : list (watch_message M)), Forall (fun m => exists o, o ∈ items /\ kd_to_message k o = Some (wm_Resource m)) l ->
    Forall (fun m => exists o', o' ∈ o :: items /\ kd_to_message k o' = Some (wm_Resource m)) l) as Hmore.
  { intros o l' l H. eapply Forall_impl; [exact H|]. intros m (o' & Ho & Hm). exists o'. split; [by right|done]. }
  unfold shown. induction items as [|o items IH]; intros n out sent r; cbn [send_initial]; [by intros [= <- <- <-]|].
  cbn [omap list_omap]. unfold listed at 1. destruct (kd_to_message k o) as [m|] eqn:Em.
  - destruct (send n) as [e|]; [by intros [= <- <- <-]|].
    destruct (send_initial k send (S n) items) as [[out' sent'] r'] eqn:E. intros [= <- <- <-].
    destruct (IH _ _ _ _ E) as [Ho Hf]. cbn. split; [intros Hr; by destruct (Ho Hr) as [-> ->]|].
    constructor; [exists o; split; [by left|done]|by apply Hmore].
  - intros E. destruct (IH _ _ _ _ E) as [Ho Hf]. cbn. split; [done|by apply Hmore].
Qed.
Lemma delta_shows a sent e m : delta k (wa_namespace a) sent e = Some m -> shows a m.
Proof.
  unfold delta, shows, inside. destruct (_ && bool_decide _); [done|]. destruct (_ && negb _) eqn:E; [done|].
  destruct (kd_to_message k (we_Object e)) as [m0|] eqn:Em; [|done]. intros [= <-]. exists (we_Object e). split; [done|].
  apply andb_false_iff in E as [E%negb_false_iff%str_eqb_true|E%negb_false_iff%str_eqb_true]; auto.
Qed.
Lemma watch_list_ok send a w : watch_ok a (Some []) -> wa_phase a = Subscribed -> watch_ok (fst (watch_list other k send a w)) (Some []).
Proof using L.
  intros (Hf & Ha & Hp) Hph. unfold watch_list. rewrite Hph in Hp. destruct Hp as [Hout _].
  assert (watch_authorized a) as Hauth by (apply Ha; left; unfold running; by rewrite Hph).
  destruct (obj_List ∅ (wa_namespace a) w) as [[items|e] w1] eqn:El; cbn [fst]; [|by split_and!; rewrite ?Hout].
  destruct (send_initial k send 0 items) as [[out sent] r] eqn:E. destruct (send_initial_spec _ _ _ _ _ _ E) as [Hs Hall].
  assert (Forall (inside (wa_namespace a)) items) as Hin.
  { apply Forall_forall. intros o Ho. assert (fst (obj_List ∅ (wa_namespace a) w) = Ok items) as Hl by by rewrite El.
    by apply (obj_List_Ok _ _ _ _ Hl) in Ho as [_ [_ Ho]]. }
  rewrite Hout. cbn [fst app]. unfold watch_ok. cbn [wa_out wa_phase wa_namespace]. split_and!.
  - eapply Forall_impl; [exact Hall|]. intros m (o & Ho & Hm). exists o. split; [done|]. by apply (Forall_forall (inside (wa_namespace a)) items).
  - done.
  - destruct r; [done|]. destruct (Hs eq_refl) as [-> ->]. exists items, []. split_and!; [done..|]. by rewrite app_nil_r.
Qed.
Lemma watch_receive_ok send closed a a1 e buf cl reads : watch_receive k send closed (Broadcaster.mkChannel (e :: buf) cl reads) a = Some a1 ->
  watch_ok a (Some reads) -> watch_ok a1 (Some (reads ++ [e])).
Proof.
  unfold watch_receive. destruct (wa_phase a) as [|sent|r|r] eqn:Ep; try done. cbn [Broadcaster.ch_buffer].
  intros Ha1 (Hf & Hauth & Hp). rewrite Ep in Hp. destruct Hp as (items & evs & Hi & [= <-] & Hs & Ho).
  assert (watch_authorized a) as Hau by (apply Hauth; left; unfold running; by rewrite Ep).
  destruct (delta k (wa_namespace a) sent e) as [m|] eqn:Ed.
  - destruct send as [err|]; injection Ha1 as <-; [by split_and!|]. unfold watch_ok. cbn [wa_out wa_phase wa_namespace]. split_and!.
    + apply Forall_app. split; [done|]. constructor; [|done]. eapply (delta_shows a), Ed.
    + done.
    + exists items, (reads ++ [e]). split_and!; [done..|]. rewrite omap_app, Ho, <- app_assoc. cbn. by rewrite Ed.
  - injection Ha1 as <-. unfold watch_ok. rewrite Ep. split_and!; [done|done|].
    exists items, (reads ++ [e]). split_and!; [done..|]. rewrite omap_app, Ho. cbn. by rewrite Ed, app_nil_r.
Qed.
Lemma watch_receive_same send closed c a a1 : watch_receive k send closed c a = Some a1 -> running a1 = running a /\ slot_user a1 = slot_user a.
Proof.
  unfold watch_receive, running, slot_user. destruct (wa_phase a) as [|sent|r|r] eqn:E; try done.
  destruct (Broadcaster.ch_buffer c) as [|e buf].
  - destruct (Broadcaster.ch_closed c); [|done]. intros [= <-]; by rewrite ?E.
  - destruct (delta _ _ _ _); [destruct send|]; intros [= <-]; cbn; by rewrite ?E.
Qed.
Lemma watch_list_same send a w : wa_phase a = Subscribed -> let a1 := fst (watch_list other k send a w) in
  running a1 = running a /\ slot_user a1 = slot_user a.
Proof.
  intros E. unfold watch_list, running, slot_user. rewrite E. destruct (obj_List _ _ _) as [[items|e] w1]; cbn; [|done].
  destruct (send_initial _ _ _ _) as [[out sent] [e|]]; done.
Qed.

(** ** Executions *)
Lemma tally_same (P : watch M -> bool) m id a a1 : m !! id = Some a -> P a1 = P a -> tally P (<[id := a1]> m) = tally P m.
Proof. intros Hm HP. rewrite tally_insert, Hm, HP. lia. Qed.
(** A step of one watch that goes on. *)
Lemma same_ok s id a a1 b1 w1 log : watching_ok s -> wt_watches s !! id = Some a -> running a1 = running a -> slot_user a1 = slot_user a ->
  (forall id', id' <> id -> read_from id' b1 = read_from id' (wt_broadcaster s)) -> watch_ok a1 (read_from id b1) ->
  Broadcaster.b_subscribers b1 ⊆ Broadcaster.b_subscribers (wt_broadcaster s) ->
  watching_ok (mkWatching (wt_limiter s) b1 w1 (<[id := a1]> (wt_watches s)) log).
Proof.
  intros [Hw Hsub [Hg Hg'] Hu] Ha Hr Hsl Hreads Hok Hsubs. split; cbn [wt_watches wt_broadcaster wt_limiter].
  - intros id' a' H. rewrite lookup_insert in H. case_decide; [simplify_eq; done|]. rewrite Hreads by done. by apply Hw.
  - intros id' Hin%Hsubs%Hsub. destruct Hin as (a' & Ha' & Hr'). rewrite lookup_insert. case_decide as Hd; [|eauto].
    subst id'. exists a1. split; [done|]. rewrite Hr. by simplify_eq.
  - split; [|done]. rewrite Hg. symmetry. by eapply tally_same.
  - intros u. destruct (Hu u) as [Hu1 Hu2]. split; [|done]. rewrite Hu1. symmetry. eapply tally_same; [done|].
    unfold slot_of. by rewrite Hr, Hsl.
Qed.
(** A request that is refused leaves the limiter as it was. *)
Lemma refused_ok s id a l1 b1 log : watching_ok s -> wt_watches s !! id = None -> running a = false -> wa_out a = [] ->
  StreamLimiter.maxGlobal l1 = StreamLimiter.maxGlobal (wt_limiter s) -> StreamLimiter.maxPerUser l1 = StreamLimiter.maxPerUser (wt_limiter s) ->
  StreamLimiter.global l1 = StreamLimiter.global (wt_limiter s) ->
  (forall u, StreamLimiter.count l1 u = StreamLimiter.count (wt_limiter s) u) ->
  (forall id', id' <> id -> read_from id' b1 = read_from id' (wt_broadcaster s)) ->
  Broadcaster.b_subscribers b1 ⊆ Broadcaster.b_subscribers (wt_broadcaster s) ->
  watching_ok (mkWatching l1 b1 (wt_world s) (<[id := a]> (wt_watches s)) log).
Proof.
  intros [Hw Hsub [Hg Hg'] Hu] Ha Hr Ho Hm1 Hm2 Hgl Hct Hreads Hsubs. split; cbn [wt_watches wt_broadcaster wt_limiter].
  - intros id' a' H. rewrite lookup_insert in H. case_decide; [|rewrite Hreads by done; by apply Hw]. simplify_eq.
    unfold watch_ok. rewrite Ho, Hr. split; [done|]. split; [by intros [?|?]|]. unfold running in Hr. by destruct (wa_phase a').
  - intros id' Hin%Hsubs%Hsub. destruct Hin as (a' & Ha' & Hr'). exists a'. rewrite lookup_insert_ne; [done|]. by intros <-; simplify_eq.
  - rewrite Hm1, Hgl. split; [|done]. rewrite tally_insert, Ha, Hr. lia.
  - intros u. rewrite Hm2, Hct. destruct (Hu u) as [Hu1 Hu2]. split; [|done]. rewrite tally_insert, Ha. unfold slot_of at 2. rewrite Hr. cbn [andb]. lia.
Qed.
Lemma watch_checks_ok user ns : fst (watch_checks review audited k user ns) = Ok tt ->
  fst (AuthorizeAction review audited user #"watch" ns (kd_resource k)) = Ok tt.
Proof.
  unfold watch_checks, and_then. destruct (str_eqb ns []); [done|]. by destruct (ValidateDNS1123Label ns #"namespace").
Qed.
Lemma enter_ok id user ns s s' : watching_ok s -> wt_watches s !! id = None ->
  watch_enter review audited informer k id user ns s = Some s' -> watching_ok s'.
Proof.
  intros Hs Ha. unfold watch_enter. destruct (negb informer); [intros [= <-]; by apply refused_ok|].
  destruct (StreamLimiter.Acquire user (wt_limiter s)) as [[[u|e] l1] ms] eqn:El; cycle 1.
  { apply slot_refused in El as ->. intros [= <-]. by apply refused_ok. }
  apply slot_acquired in El as ((ui & -> & ->) & Hm1 & Hm2 & Hg & Hgm & Hum & Hct).
  destruct (release_limits (Username ui) l1) as (Hr1 & Hr2 & Hr3 & Hr4).
  assert (forall u, StreamLimiter.count (fst (StreamLimiter.release_body (Username ui) l1)) u = StreamLimiter.count (wt_limiter s) u) as Hback
    by (intros u; rewrite Hr4, Hct; lia).
  destruct (watch_checks review audited k (Some ui) ns) as [[[]|e] log] eqn:Ec; cycle 1.
  { intros [= <-]. apply refused_ok; try done. cbn; lia. }
  destruct (Broadcaster.step (Broadcaster.LSubscribe id) (wt_broadcaster s)) as [b1| |] eqn:Eb; try done.
  pose proof (subscribe_reads _ _ _ id Eb) as Hreads. pose proof (fun id' => subscribe_reads _ _ _ id' Eb) as Hothers.
  assert (Broadcaster.b_subscribers b1 = if Broadcaster.b_closed (wt_broadcaster s) then Broadcaster.b_subscribers (wt_broadcaster s)
    else {[id]} ∪ Broadcaster.b_subscribers (wt_broadcaster s)) as Hsubs.
  { cbn [Broadcaster.step] in Eb. destruct (Broadcaster.read_locked _); [done|]. destruct (decide _); [done|].
    unfold Broadcaster.Subscribe in Eb. destruct (Broadcaster.b_closed _); by injection Eb as <-. }
  destruct (Broadcaster.b_closed (wt_broadcaster s)) eqn:Ecl.
  { intros [= <-]. apply refused_ok; try done; [cbn; lia| |by rewrite Hsubs].
    intros id' Hne. rewrite Hothers. by rewrite decide_False by naive_solver. }
  intros [= <-]. destruct Hs as [Hw Hsub [Hgl Hgl'] Hu]. split; cbn [wt_watches wt_broadcaster wt_limiter].
  - intros id' a' H. rewrite lookup_insert in H. case_decide as Hd.
    + simplify_eq. rewrite Hreads, decide_True by done. split_and!; [done| |done]. intros _. apply watch_checks_ok. cbn [wa_user wa_namespace]. by rewrite Ec.
    + rewrite Hothers, decide_False by naive_solver. by apply Hw.
  - rewrite Hsubs. intros id' [->%elem_of_singleton|Hin]%elem_of_union; [eexists; by rewrite lookup_insert_eq|].
    destruct (Hsub id' Hin) as (a' & Ha' & Hr'). exists a'. rewrite lookup_insert_ne; [done|]. by intros <-; simplify_eq.
  - rewrite Hm1, Hg. split; [|done]. rewrite tally_insert, Ha. cbn. lia.
  - intros u. destruct (Hu u) as [Hu1 Hu2]. rewrite Hm2, Hct, tally_insert, Ha. unfold slot_of at 2. cbn.
    case_bool_decide; repeat case_decide; subst; try done; (split; [lia|]); lia.
Qed.
Lemma leave_ok id a s s' : watching_ok s -> wt_watches s !! id = Some a -> watch_leave id a s = Some s' -> watching_ok s'.
Proof.
  intros [Hw Hsub [Hg Hg'] Hu] Ha. unfold watch_leave. destruct (wa_phase a) as [|sent|r|r] eqn:Ep; try done.
  destruct (Broadcaster.step _ _) as [b1| |] eqn:Eb; try done.
  destruct (release_limits (slot_user a) (wt_limiter s)) as (Hr1 & Hr2 & Hr3 & Hr4).
  set (l1 := fst (StreamLimiter.release_body _ _)) in *. clearbody l1. intros [= <-].
  assert (running a = true) as Hrun by (unfold running; by rewrite Ep).
  assert (Broadcaster.b_subscribers b1 = Broadcaster.b_subscribers (wt_broadcaster s) ∖ {[id]}) as Hsubs.
  { cbn [Broadcaster.step] in Eb. case_match; [done|]. by apply Unsubscribe_subscribers. }
  split; cbn [wt_watches wt_broadcaster wt_limiter].
  - intros id' a' H. rewrite (step_reads _ _ _ _ Eb) by done. rewrite lookup_insert in H. case_decide as Hd; [|by apply Hw].
    simplify_eq. destruct (Hw _ _ Ha) as (Hf & Hauth & _). split_and!; [done| |done]. intros _. apply Hauth. by left.
  - rewrite Hsubs. intros id' [Hin Hne]%elem_of_difference. destruct (Hsub id' Hin) as (a' & Ha' & Hr').
    exists a'. rewrite lookup_insert_ne; [done|]. set_solver.
  - rewrite Hr1, Hr3, Hg, tally_insert, Ha, Hrun. cbn. lia.
  - intros u. destruct (Hu u) as [Hu1 Hu2]. rewrite Hr2, Hr4, tally_insert, Ha. unfold slot_of at 2 3. rewrite Hrun. cbn.
    case_bool_decide; repeat case_decide; subst; try done; (split; [lia|]); lia.
Qed.
Lemma watch_step_ok l s s' : watching_ok s -> step_of l s = Some s' -> watching_ok s'.
Proof using L.
  intros Hs. destruct l as [id user ns|id send|id send|id|id|l|w]; cbn [watch_step].
  - case_decide as Hd; [done|]. intros H. eapply enter_ok; [done| |exact H]. by apply not_elem_of_dom.
  - destruct (wt_watches s !! id) as [a|] eqn:Ea; [|done]. cbn. destruct (wa_phase a) eqn:Ep; try done.
    pose proof (watch_list_same send a (wt_world s) Ep) as [Hr Hu].
    pose proof (wo_watches s Hs id a Ea) as Hok. pose proof Hok as (_ & _ & Hp). rewrite Ep in Hp. destruct Hp as [_ Hreads]. rewrite Hreads in Hok.
    pose proof (watch_list_ok send a (wt_world s) Hok Ep) as Hok1. destruct (watch_list other k send a (wt_world s)) as [a1 w1].
    intros [= <-]. cbn [fst] in *. refine (same_ok s id a a1 (wt_broadcaster s) w1 _ Hs Ea Hr Hu _ _ _); [done| |done]. by rewrite Hreads.
  - destruct (wt_watches s !! id) as [a|] eqn:Ea; [|done]. cbn.
    destruct (Broadcaster.b_channels (wt_broadcaster s) !! id) as [c|] eqn:Ec; [|done]. cbn.
    destruct (watch_receive k send _ c a) as [a1|] eqn:Er; [|done]. cbn. intros [= <-].
    destruct (watch_receive_same _ _ _ _ _ Er) as [Hr Hu]. pose proof (wo_watches s Hs id a Ea) as Hok.
    unfold received. destruct (Broadcaster.step (Broadcaster.LReceive id) (wt_broadcaster s)) as [b1| |] eqn:Eb.
    + refine (same_ok s id a a1 b1 (wt_world s) _ Hs Ea Hr Hu _ _ _).
      * intros id' Hne. destruct (receive_reads _ _ _ id' Eb) as (e & buf & cl & recv & _ & ->). by rewrite decide_False.
      * destruct (receive_reads _ _ _ id Eb) as (e & buf & cl & recv & Hc & ->). rewrite decide_True by done.
        assert (c = Broadcaster.mkChannel (e :: buf) cl recv) as -> by congruence.
        eapply watch_receive_ok; [exact Er|]. unfold read_from in Hok. by rewrite Ec in Hok.
      * cbn [Broadcaster.step] in Eb. rewrite Ec in Eb. destruct c as [[|e buf] cl recv]; [done|]. by injection Eb as <-.
    + cbn [Broadcaster.step] in Eb. rewrite Ec in Eb. destruct c as [[|e buf] cl recv]; [|done].
      refine (same_ok s id a a1 (wt_broadcaster s) (wt_world s) _ Hs Ea Hr Hu _ _ _); [done| |done]. destruct Hok as (Hf & Hauth & _). unfold watch_receive in Er. cbn in Er.
      destruct (wa_phase a) as [|sent|r|r] eqn:Ep; try done. destruct cl; [|done]. injection Er as <-.
      split_and!; [done| |done]. intros _. apply Hauth. left. unfold running. by rewrite Ep.
    + cbn [Broadcaster.step] in Eb. by repeat case_match.
  - destruct (wt_watches s !! id) as [a|] eqn:Ea; [|done]. cbn. destruct (wa_phase a) eqn:Ep; try done. intros [= <-].
    pose proof (wo_watches s Hs id a Ea) as (Hf & Hauth & _).
    assert (running a = true) as Hrun by (unfold running; by rewrite Ep).
    refine (same_ok s id a (mkWatch _ _ (Ended (Ok tt)) _) (wt_broadcaster s) (wt_world s) _ Hs Ea (eq_sym Hrun) eq_refl _ _ _); [done| |done]. split_and!; [done| |done]. intros _. apply Hauth. left. unfold running. by rewrite Ep.
  - destruct (wt_watches s !! id) as [a|] eqn:Ea; [|done]. cbn. intros H. by eapply leave_ok.
  - destruct (of_others l) eqn:Eo; [|done]. destruct (Broadcaster.step l (wt_broadcaster s)) as [b1| |] eqn:Eb; try done. intros [= <-].
    destruct Hs as [Hw Hsub Hg Hu]. split; try done; cbn [wt_watches wt_broadcaster with_broadcaster].
    + intros id a Ha. rewrite (step_reads _ _ _ _ Eb Eo). by apply Hw.
    + intros id Hin. apply Hsub. by apply (step_subscribers _ _ _ Eb Eo).
  - intros [= <-]. by destruct Hs.
Qed.
Lemma watch_reachable_ok opts maxG maxU s : watch_reachable other review audited informer k opts maxG maxU s -> watching_ok s.
Proof using L.
  induction 1 as [l w Hl|l s s' _ IH H]; [|by eapply watch_step_ok].
  assert (StreamLimiter.global l = 0 /\ StreamLimiter.perUser l = ∅ /\ 0 < StreamLimiter.maxGlobal l /\ 0 < StreamLimiter.maxPerUser l) as (H1 & H2 & H3 & H4).
  { unfold StreamLimiter.NewStreamLimiter in Hl. destruct (Z.leb_spec maxG 0); [done|]. destruct (Z.leb_spec maxU 0); [done|].
    destruct (maxG <? maxU); [done|]. by injection Hl as <-. }
  split; cbn.
  - by intros id a Ha%lookup_empty_Some.
  - intros id Hin. by apply elem_of_empty in Hin.
  - rewrite H1. split; [done|lia].
  - intros u. unfold StreamLimiter.count. rewrite H2, lookup_empty. cbn [default from_option]. split; [done|lia].
Qed.


End Watches.

(** ** Executions *)
Module WatchDemo.
Import ResourceDemo.
#[local] Existing Instances Server.api Server.api_laws ascii_unicode env_codec env_message any_label pages.
#[local] Instance any_order {Ob} : KnownOrder Ob := {| known_entries := map_to_list; known_entries_perm m := reflexivity _ |}.
Abbreviation S := (watching Environment EnvMsg (Server.t Environment)).
Definition kind := EnvironmentKind (M := EnvMsg) (W := Server.t Environment).
Definition steps (ls : list (watch_label Environment (Server.t Environment))) (s : S) : option S :=
  fold_left (fun s l => s ← s; watch_step KOther reviews true true kind l s) ls (Some s).
Lemma steps_reachable ls : forall s s' : S, watch_reachable KOther reviews true true kind [] 10 2 s -> steps ls s = Some s' ->
  watch_reachable KOther reviews true true kind [] 10 2 s'.
Proof.
  unfold steps. induction ls as [|l ls IH]; cbn [fold_left]; intros s s' Hs; [by intros [= <-]|].
  cbn [mbind option_bind]. destruct (watch_step _ _ _ _ _ l s) as [s1|] eqn:E; [|].
  - intros H. apply (IH s1 s'); [by eapply watch_next|done].
  - intros H. exfalso. clear - H. revert H. induction ls as [|l' ls IH]; [done|exact IH].
Qed.
Definition limits : StreamLimiter.limiter := StreamLimiter.mkLimiter 10 2 0 ∅.
Definition idle (w : Server.t Environment) : S := mkWatching limits (Broadcaster.NewBroadcaster []) w ∅ [].
Lemma idle_reachable w : watch_reachable KOther reviews true true kind [] 10 2 (idle w).
Proof. by apply watch_start. Qed.

(** The listing a watch and the poller start from, and the next one: the
    environment [web] has changed and [old] is gone. *)
Definition web : Environment := environment #"web" (Some (2 * hour)) (Some 7210).
Definition old : Environment := environment #"old" None None.
Definition web_changed : Environment := with_version 8 web.
Definition first_listing : list Environment := [web; old].
Definition poll_events : list (watch_event Environment) := fst (poll (E := unit) (Ok [web_changed]) (current_objects first_listing)).
Example poll_publishes : map (fun e => (we_Type e, ev_Name (we_Object e), we_Version e)) poll_events = [(MODIFIED, #"web", 8); (DELETED, #"old", 7)].
Proof. vm_compute. done. Qed.
Lemma poller_events_follow_listings_witness :
  versions (apply_events (fst (polls [Ok first_listing; Err tt; Ok [web_changed]] ∅)) ∅) = versions (current_objects [web_changed]).
Proof.
  refine (poller_events_follow_listings [Ok first_listing; Err tt] (Ok [web_changed]) _ _).
  - apply Forall_cons; split; [|apply Forall_cons; split; [|apply Forall_nil; exact I]].
    + intros items [= <-]. apply (bool_decide_unpack _). vm_compute. exact I.
    + intros items [=].
  - apply (bool_decide_unpack _). vm_compute. exact I.
Defined.

(** A watch that lists, and receives what the poller then publishes. *)
Definition publish (t : nat) (e : watch_event Environment) : list (watch_label Environment (Server.t Environment)) :=
  [WBroadcast (Broadcaster.LPublish t e [ #"s"]); WBroadcast (Broadcaster.LStep t); WBroadcast (Broadcaster.LStep t); WBroadcast (Broadcaster.LStep t)].
Definition script : list (watch_label Environment (Server.t Environment)) :=
  [WEnter #"s" (Some developer) #"team"; WList #"s" (fun _ => None); WWorld (Server.of_list [web_changed])] ++
  concat (imap publish poll_events) ++ [WReceive #"s" None; WReceive #"s" None].
Definition watched : S := default (idle environments) (steps script (idle environments)).
Lemma script_runs : steps script (idle environments) = Some watched.
Proof. vm_compute. reflexivity. Qed.
Definition the_watch : watch EnvMsg := default (mkWatch None [] Subscribed []) (wt_watches watched !! #"s").
Lemma the_watch_found : wt_watches watched !! #"s" = Some the_watch.
Proof. vm_compute. reflexivity. Qed.
Definition seen (m : watch_message EnvMsg) : event_type * gostring * Z := (wm_Type m, mt_Name (em_Meta (wm_Resource m)), wm_Version m).
(** The slots of a user are two, and a token may not watch elsewhere. *)
Example watch_refusals :
  let ask id user ns := WEnter id (Some user) ns in
  (fun s => map (fun id => wa_phase <$> wt_watches s !! id) [ #"b"; #"c"; #"d"]) <$>
    steps [ask #"a" developer #"team"; ask #"b" developer #"team"; ask #"c" developer #"team"; ask #"d" token #"prod"] (idle environments) =
  Some [Some Subscribed;
        Some (Left (Err (RpcError CodeResourceExhausted
          (#"stream limit of 2 reached for user " ++ Quote #"dev" ++ #"; close idle watch/log streams"))));
        Some (Left (Err (RpcError CodePermissionDenied #"permission denied")))].
Proof. vm_compute. reflexivity. Qed.

(** An object that is deleted while it is as the listing showed it is
    published as deleted with the version it had, which the watch takes for
    what it has already sent: the client is never told. *)
Theorem watch_misses_deletion :
  watch_reachable KOther reviews true true kind [] 10 2 watched /\
  map seen (wa_out the_watch) = [(ADDED, #"old", 7); (ADDED, #"web", 7); (MODIFIED, #"web", 8)] /\
  (Broadcaster.ch_received <$> Broadcaster.b_channels (wt_broadcaster watched) !! #"s") = Some poll_events /\
  map (fun e => (we_Type e, ev_Name (we_Object e))) poll_events = [(MODIFIED, #"web"); (DELETED, #"old")] /\
  stored (wt_world watched) !! (#"team", #"old") = None.
Proof.
  split; [exact (steps_reachable _ _ _ (idle_reachable environments) script_runs)|]. vm_compute. done.
Qed.
End WatchDemo.
