(* ===== verification/ResourceLogs.v ===== *)
(** * Logs of environments: [StreamLogs] of [internal/server/environment.go]
    and [internal/server/streaming/logs.go]

    The request is checked and its pods are chosen; then one goroutine for each
    pod reads its log into a bounded channel, from which the handler sends.
    The goroutines, the one that closes the channel, the handler and the
    client's disconnection interleave: an execution is a sequence of steps.
    The log of a pod is what client-go gives: its lines, until the scanner
    ends, with an error or without. *)

From S2P Require Import Prelude GoStrings GoTime GoQuote AuthProvider Authz AuthFacts TokenStore KubeApi AgentTask ObjectApi.
From S2P Require Import ResourceNames EnvTypes GroupTypes Resources ResourceMessages AgentTaskService AgentTaskServiceFacts.
From S2P Require StreamLimiter.
From S2P Require Import ResourceService ResourceServiceFacts ResourceServiceDemo ResourceWatch ResourceWatchFacts.
Local Open Scope Z_scope.

#[global] Instance k8s_error_eq_dec : EqDecision k8s_error.
Proof. solve_decision. Defined.

(** ** Requests *)
Record LogRequest := mkLogRequest {
  lr_EnvironmentName : gostring; lr_Namespace : gostring; lr_ServiceName : gostring; lr_Container : gostring;
  lr_HookType : gostring; lr_Follow : bool; lr_TailLines : Z; lr_SinceTime : option Time; lr_Timestamps : bool }.
Record PodLogOptions := mkPodLogOptions {
  po_Container : gostring; po_Follow : bool; po_Timestamps : bool; po_TailLines : option Z; po_SinceTime : option Time }.
(** A pod as the handler reads it. *)
Abbreviation LogPod := (Object unit unit).
Record LogMsg := mkLogMsg { lg_pod : gostring; lg_container : gostring; lg_content : gostring; lg_timestamp : option Time }.
Record LogResponse := mkLogResponse {
  lp_PodName : gostring; lp_ContainerName : gostring; lp_Content : gostring; lp_Timestamp : option Time; lp_ServiceName : gostring }.
(** The lines of a log, and the error the scanner ends with. *)
Definition pod_log : Type := list gostring * option k8s_error.

Section Logs.
Context (other : k8s_error) (review : UserInfo -> attrs -> option bool) (audited : bool) (user : option UserInfo) (req : LogRequest).
Local Notation "'let?' x ':=' m 'in' k" := (seq m (fun x => k)) (at level 200, x pattern, m at level 100, k at level 200).
Local Notation "'do?' m 'in' k" := (seq m (fun _ => k)) (at level 200, m at level 100, k at level 200).

Section Targets.
Context {W : Type} {PA : ObjectApi LogPod W}.
Definition MaxStreamLogsPods : nat := 5.
Definition log_labels : labels :=
  if str_eqb (lr_HookType req) [] then {[hookEnvironmentLabel := lr_EnvironmentName req]}
  else <[hookTypeLabel := lr_HookType req]> {[hookEnvironmentLabel := lr_EnvironmentName req]}.
(** A pod that says it is of another service is left out. *)
Definition log_target (pod : LogPod) : bool :=
  if str_eqb (lr_HookType req) [] && negb (str_eqb (lr_ServiceName req) []) then
    let svcName := default [] (o_Labels pod !! #"app.kubernetes.io/name") in
    str_eqb svcName [] || str_eqb svcName (lr_ServiceName req)
  else true.
Definition log_targets : handler (T := W) (list LogPod) :=
  if str_eqb (lr_EnvironmentName req) [] || str_eqb (lr_Namespace req) [] then invalid #"environment name and namespace are required"
  else
    do? label (lr_Namespace req) #"namespace" in
    do? label (lr_EnvironmentName req) #"environment_name" in
    do? may review audited user #"get" (lr_Namespace req) #"environments" in
    do? authorize (AuthorizePodLogs review audited user (lr_Namespace req)) in
    do? label_if_any (lr_HookType req) #"hook_type" in
    let? pods := api_call other (obj_List (Ob := LogPod) log_labels (lr_Namespace req)) in
    let targetPods := List.filter log_target pods in
    if (length targetPods =? 0)%nat then refusal (RpcError CodeNotFound #"no pods found for environment and service")
    else if (MaxStreamLogsPods <? length targetPods)%nat then
      refusal (RpcError CodeFailedPrecondition
        (#"too many pods (" ++ Itoa (Z.of_nat (length targetPods)) ++ #"), limit is 5; narrow your request using service_name"))
    else reply targetPods.
(** The beginning of [StreamLogs]: the slot, kept by the request that goes on
    to stream, until [log_release]. *)
Definition StreamLogs {U : GoUnicode} (streamer : bool) (lim : StreamLimiter.limiter) (w : W)
    : result rpc_error (list LogPod) * StreamLimiter.limiter * list log_entry * W :=
  if negb streamer then (Err (RpcError CodeUnimplemented #"log streamer is not configured"), lim, [], w)
  else
    match StreamLimiter.Acquire user lim with
    | (Err e, lim1, _) => (Err (limit_reply lim1 e), lim1, [], w)
    | (Ok username, lim1, _) =>
        let '(r, l, w1) := log_targets w in
        (r, match r with Ok _ => lim1 | Err _ => fst (StreamLimiter.release_body username lim1) end, l, w1)
    end.
Definition log_release (lim : StreamLimiter.limiter) : StreamLimiter.limiter :=
  match user with Some u => fst (StreamLimiter.release_body (Username u) lim) | None => lim end.
End Targets.

(** ** Streaming *)
Context (GetLogs : gostring -> gostring -> PodLogOptions -> result k8s_error pod_log) (targetPods : list LogPod).
Definition StreamPodLogs (namespace podName container : gostring) (follow : bool) (tailLines : Z) (since : option Time) : result k8s_error pod_log :=
  GetLogs namespace podName (mkPodLogOptions container follow true (if 0 <? tailLines then Some tailLines else None) since).
Definition opened_log (pod : LogPod) : result k8s_error pod_log :=
  StreamPodLogs (o_Namespace pod) (o_Name pod) (lr_Container req) (lr_Follow req) (lr_TailLines req) (lr_SinceTime req).
(** The timestamp of a line is cut off when it was asked for. *)
Definition log_line (pod : LogPod) (line : gostring) : LogMsg :=
  let msg content ts := mkLogMsg (o_Name pod) (lr_Container req) content ts in
  if lr_Timestamps req then
    match Cut line " "%char with
    | Some (timestamp, rest) =>
        match ParseRFC3339 timestamp with Some t => msg rest (Some t) | None => msg line None end
    | None => msg line None
    end
  else msg line None.
Definition log_response (m : LogMsg) : LogResponse :=
  mkLogResponse (lg_pod m) (lg_container m) (lg_content m) (lg_timestamp m) (lr_ServiceName req).

(** A goroutine: before its log is open, with the lines left, done. *)
Inductive log_worker := Opening | Reading (lines : list gostring) (fin : option k8s_error) | Finished.
(** Messages are kept with the number of their goroutine. *)
Record logs := mkLogs {
  lw_workers : list log_worker; lw_chan : list (nat * LogMsg); lw_errs : list k8s_error; lw_closed : bool;
  lw_disconnected : bool; lw_sent : list (nat * LogMsg); lw_result : option (result rpc_error unit) }.
Definition log_buffer : nat := 256.
Definition log_start : logs := mkLogs (map (fun _ => Opening) targetPods) [] [] false false [] None.
(** [streamCtx.Done()]: the client has left or the handler has ended. *)
Definition cancelled (s : logs) : bool := lw_disconnected s || bool_decide (is_Some (lw_result s)).

Definition set_worker (i : nat) (w : log_worker) (s : logs) : logs :=
  mkLogs (<[i := w]> (lw_workers s)) (lw_chan s) (lw_errs s) (lw_closed s) (lw_disconnected s) (lw_sent s) (lw_result s).
(** [select { case errCh <- err: default: }] *)
Definition push_err (e : k8s_error) (s : logs) : logs :=
  if (length (lw_errs s) <? length targetPods)%nat
  then mkLogs (lw_workers s) (lw_chan s) (lw_errs s ++ [e]) (lw_closed s) (lw_disconnected s) (lw_sent s) (lw_result s)
  else s.
Definition push_msg (m : nat * LogMsg) (s : logs) : logs :=
  mkLogs (lw_workers s) (lw_chan s ++ [m]) (lw_errs s) (lw_closed s) (lw_disconnected s) (lw_sent s) (lw_result s).
Definition ends (r : result rpc_error unit) (s : logs) : logs :=
  mkLogs (lw_workers s) (lw_chan s) (lw_errs s) (lw_closed s) (lw_disconnected s) (lw_sent s) (Some r).
Definition worker_done (w : log_worker) : bool := match w with Finished => true | _ => false end.

Definition log_work (i : nat) (s : logs) : option logs :=
  pod ← targetPods !! i; w ← lw_workers s !! i;
  match w with
  | Opening =>
      match opened_log pod with
      | Err e => Some (push_err e (set_worker i Finished s))
      | Ok (lines, fin) => Some (set_worker i (Reading lines fin) s)
      end
  | Reading (line :: lines) fin =>
      if (length (lw_chan s) <? log_buffer)%nat
      then Some (push_msg (i, log_line pod line) (set_worker i (Reading lines fin) s)) else None
  | Reading [] (Some e) =>
      Some (if bool_decide (e = KCanceled) then set_worker i Finished s else push_err e (set_worker i Finished s))
  | Reading [] None => Some (set_worker i Finished s)
  | Finished => None
  end.
(** A goroutine whose context is cancelled. *)
Definition log_stop (i : nat) (s : logs) : option logs :=
  w ← lw_workers s !! i;
  if cancelled s then
    match w with
    | Opening => Some (push_err KCanceled (set_worker i Finished s))
    | Reading _ _ => Some (set_worker i Finished s)
    | Finished => None
    end
  else None.

Inductive log_label := LgWork (i : nat) | LgStop (i : nat) | LgClose | LgReceive (send : option rpc_error) | LgFail | LgLeave | LgDisconnect.
Definition log_step (l : log_label) (s : logs) : option logs :=
  match l with
  | LgWork i => log_work i s
  | LgStop i => log_stop i s
  | LgClose =>
      if forallb worker_done (lw_workers s) && negb (lw_closed s)
      then Some (mkLogs (lw_workers s) (lw_chan s) (lw_errs s) true (lw_disconnected s) (lw_sent s) (lw_result s)) else None
  | LgReceive send =>
      match lw_result s, lw_chan s with
      | Some _, _ => None
      | None, m :: chan =>
          let s1 := mkLogs (lw_workers s) chan (lw_errs s) (lw_closed s) (lw_disconnected s) (lw_sent s) None in
          Some (match send with
                | Some e => ends (Err e) s1
                | None => mkLogs (lw_workers s) chan (lw_errs s) (lw_closed s) (lw_disconnected s) (lw_sent s ++ [m]) None
                end)
      | None, [] => if lw_closed s then Some (ends (Ok tt) s) else None
      end
  | LgFail =>
      match lw_result s, lw_errs s with
      | None, e :: errs =>
          Some (mkLogs (lw_workers s) (lw_chan s) errs (lw_closed s) (lw_disconnected s) (lw_sent s) (Some (Err (SanitizeK8sError e))))
      | _, _ => None
      end
  | LgLeave => if lw_disconnected s && negb (bool_decide (is_Some (lw_result s))) then Some (ends (Ok tt) s) else None
  | LgDisconnect =>
      if lw_disconnected s then None
      else Some (mkLogs (lw_workers s) (lw_chan s) (lw_errs s) (lw_closed s) true (lw_sent s) (lw_result s))
  end.
Inductive log_steps : nat -> logs -> logs -> Prop :=
| log_refl s : log_steps O s s
| log_more n l s s1 s2 : log_steps n s s1 -> log_step l s1 = Some s2 -> log_steps (S n) s s2.
(** What is sent: the responses, in order. *)
Definition log_responses (s : logs) : list LogResponse := map (fun p => log_response p.2) (lw_sent s).
End Logs.

(** ** Executions *)
Section Facts.
Context (other : k8s_error) (review : UserInfo -> attrs -> option bool) (audited : bool) (user : option UserInfo) (req : LogRequest).
Context {W : Type} {PA : ObjectApi LogPod W} {PL : ObjectApiLaws LogPod W}.
Context (GetLogs : gostring -> gostring -> PodLogOptions -> result k8s_error pod_log) (pods : list LogPod).
Abbreviation step := (log_step req GetLogs pods).
Abbreviation steps := (log_steps req GetLogs pods).
Implicit Types (s : logs).

(** the pods whose logs are streamed are stored, at least one and at most
    five, of the namespace asked for, of the environment and, when one is
    asked for, the hook, in which the user may read environments and the logs
    of pods: with a capability token, its own namespace. *)
Theorem log_targets_authorized w r l w' : log_targets other review audited user req w = (r, l, w') ->
  w' = w /\ forall targets, r = Ok targets -> let ns := lr_Namespace req in
    may_do review audited user #"get" #"environments" ns /\ fst (AuthorizePodLogs review audited user ns) = Ok tt /\
    (1 <= length targets <= 5)%nat /\
    (forall pod, pod ∈ targets -> stored w !! r_key pod = Some pod /\ o_Namespace pod = ns /\
       o_Labels pod !! hookEnvironmentLabel = Some (lr_EnvironmentName req) /\
       (lr_HookType req <> [] -> o_Labels pod !! hookTypeLabel = Some (lr_HookType req))) /\
    forall u, user = Some u -> isMacaroonUser u = true -> ns = extra_first u ExtraKeyNamespace.
Proof using PL.
  intros H. assert (yields (log_targets other review audited user req) w (fun r w' => w' = w /\ forall targets, r = Ok targets ->
    lr_Namespace req <> [] /\ may_do review audited user #"get" #"environments" (lr_Namespace req) /\
    fst (AuthorizePodLogs review audited user (lr_Namespace req)) = Ok tt /\ (1 <= length targets <= 5)%nat /\
    exists all, fst (obj_List (Ob := LogPod) (log_labels req) (lr_Namespace req) w) = Ok all /\ targets = List.filter (log_target req) all)) as Hy.
  { clear H. unfold log_targets. destruct (str_eqb (lr_EnvironmentName req) [] || str_eqb (lr_Namespace req) []) eqn:E; [by apply yields_refusal|].
    apply orb_false_iff in E as [_ Hns%str_eqb_false].
    do 2 (apply yields_seq, yields_pure; [auto with pure|intros [[]|?] _; [|by split]]).
    apply yields_seq, yields_pure; [auto with pure|intros [[]|?] Hmay; [|by split]].
    apply yields_seq, yields_authorize. destruct (fst (AuthorizePodLogs _ _ _ _)) as [[]|e] eqn:El; [|by split].
    apply yields_seq, yields_pure; [auto with pure|intros [[]|?] _; [|by split]].
    apply yields_seq, yields_call; intros all w1 Hl; pose proof (obj_List_pure (Ob := LogPod) (log_labels req) (lr_Namespace req) w) as Hp;
      rewrite Hl in Hp; cbn in Hp; subst w1; [|by split].
    destruct (Nat.eqb_spec (length (List.filter (log_target req) all)) 0); [by apply yields_refusal|].
    destruct (Nat.ltb_spec MaxStreamLogsPods (length (List.filter (log_target req) all))) as [?|Hle]; [by apply yields_refusal|].
    unfold MaxStreamLogsPods in Hle. apply yields_reply. split; [done|]. intros targets [= <-]. split_and!; [done..|lia|lia|]. exists all. by rewrite Hl. }
  unfold yields in Hy. rewrite H in Hy. cbn [fst snd] in Hy. destruct Hy as [-> Hy]. split; [done|]. intros targets Hr. cbv zeta.
  destruct (Hy targets Hr) as (Hns & Hmay & Hlog & Hlen & all & Hl & ->). split_and!; [done..|lia|lia| |].
  - intros pod [Hin%list_elem_of_In _]%list_elem_of_In%filter_In. apply (obj_List_Ok _ _ _ _ Hl) in Hin as [Hs [Hsel Hn]].
    cbn [r_labels r_key object_resource fst] in Hsel, Hn. destruct Hn as [?|Hn]; [done|].
    assert (forall key v, log_labels req !! key = Some v -> o_Labels pod !! key = Some v) as Hin by (intros key v Hk; exact (lookup_weaken _ _ _ _ Hk Hsel)).
    split; [exact Hs|]. split; [done|]. unfold log_labels in Hin. split; [apply Hin|intros Hk; apply Hin].
    + destruct (str_eqb _ _); [apply lookup_singleton_eq|]. by rewrite lookup_insert_ne, lookup_singleton_eq.
    + destruct (str_eqb (lr_HookType req) []) eqn:E; [by apply str_eqb_true in E|]. apply lookup_insert_eq.
  - intros u Hu Hm. by eapply may_do_bound.
Qed.

(** a request for logs that is refused leaves the limiter as it was; one
    that streams has one more slot, within the limits, and its end gives it
    back. *)
Theorem log_slot_returned {U : GoUnicode} streamer lim w r lim1 l w' :
  StreamLogs other review audited user req streamer lim w = (r, lim1, l, w') ->
  let same a b := StreamLimiter.global a = StreamLimiter.global b /\ forall u, StreamLimiter.count a u = StreamLimiter.count b u in
  match r with
  | Err _ => same lim1 lim
  | Ok _ => StreamLimiter.global lim1 = StreamLimiter.global lim + 1 /\ StreamLimiter.global lim1 <= StreamLimiter.maxGlobal lim /\
      same (log_release user lim1) lim
  end.
Proof.
  unfold StreamLogs, log_release. destruct streamer; [|by intros [= <- <- _ _]]. cbn [negb].
  destruct (StreamLimiter.Acquire user lim) as [[[u|e] lim0] ms] eqn:Ea; [|apply slot_refused in Ea as ->; by intros [= <- <- _ _]].
  apply slot_acquired in Ea as ((ui & -> & ->) & _ & _ & Hg & Hmax & _ & Hc).
  destruct (release_limits (Username ui) lim0) as (_ & _ & Hrg & Hrc). destruct (log_targets _ _ _ _ _ w) as [[r0 l0] w0].
  cbv zeta. cbn [fst]. set (back := fst (StreamLimiter.release_body (Username ui) lim0)) in *.
  assert (StreamLimiter.global back = StreamLimiter.global lim /\ forall u, StreamLimiter.count back u = StreamLimiter.count lim u) as Hback
    by (split; [lia|intros u; rewrite Hrc, Hc; lia]).
  intros H. destruct r0 as [ps|e]; injection H as <- <- _ _; [|exact Hback].
  split; [done|]. split; [lia|exact Hback].
Qed.

(** *** What is sent *)
(** The messages of a goroutine, and all that the log of a pod makes. *)
Definition of_worker (i : nat) (l : list (nat * LogMsg)) : list LogMsg := map snd (filter (fun p => p.1 = i) l).
Arguments of_worker : simpl never.
Definition log_messages (pod : LogPod) : list LogMsg :=
  match opened_log req GetLogs pod with Ok (lines, _) => map (log_line req pod) lines | Err _ => [] end.
Lemma of_worker_app i l l' : of_worker i (l ++ l') = of_worker i l ++ of_worker i l'.
Proof. unfold of_worker. by rewrite filter_app, map_app. Qed.
Lemma of_worker_one i j m : of_worker i [(j, m)] = if decide (j = i) then [m] else [].
Proof. unfold of_worker. rewrite filter_cons, filter_nil. cbn. by case_decide. Qed.
Lemma of_worker_none i j l : Forall (fun m : nat * LogMsg => m.1 = i) l -> j <> i -> of_worker j l = [].
Proof. intros H Hne. unfold of_worker. induction H as [|m l Hm _ IH]; [done|]. rewrite filter_cons, decide_False; [exact IH|congruence]. Qed.
Definition worker_ok s (i : nat) (pod : LogPod) (w : log_worker) : Prop :=
  let got := of_worker i (lw_sent s ++ lw_chan s) in
  match w with
  | Opening => got = []
  | Reading lines fin => exists all, opened_log req GetLogs pod = Ok (all, fin) /\ map (log_line req pod) all = got ++ map (log_line req pod) lines
  | Finished => got `prefix_of` log_messages pod /\ (lw_disconnected s = false -> got = log_messages pod)
  end.
Record log_ok s : Prop := {
  lo_workers : length (lw_workers s) = length pods;
  lo_sent : forall i pod, pods !! i = Some pod -> of_worker i (lw_sent s) `prefix_of` log_messages pod;
  lo_closed : lw_closed s = true -> forallb worker_done (lw_workers s) = true;
  lo_running : lw_result s = None -> forall i pod w, pods !! i = Some pod -> lw_workers s !! i = Some w -> worker_ok s i pod w;
  lo_ended : lw_result s = Some (Ok tt) -> lw_disconnected s = true \/
    forall i pod, pods !! i = Some pod -> of_worker i (lw_sent s) = log_messages pod;
  lo_known : Forall (fun m : nat * LogMsg => is_Some (pods !! m.1)) (lw_sent s ++ lw_chan s) }.

Lemma worker_prefix s i pod w : worker_ok s i pod w -> of_worker i (lw_sent s) `prefix_of` log_messages pod.
Proof.
  unfold worker_ok, log_messages. rewrite of_worker_app. destruct w as [|lines fin|].
  - intros [-> _]%app_eq_nil. apply prefix_nil.
  - intros (all & -> & ->). rewrite <- app_assoc. by apply prefix_app_r.
  - intros [Hp _]. etrans; [|exact Hp]. by apply prefix_app_r.
Qed.
Lemma not_all_done (ws : list log_worker) i w : ws !! i = Some w -> forallb worker_done ws = true -> w = Finished.
Proof. intros Hi H. rewrite forallb_forall in H. specialize (H w (proj1 (list_elem_of_In _ _) (list_elem_of_lookup_2 _ _ _ Hi))). by destruct w. Qed.
Lemma push_err_same e s : let s' := push_err pods e s in
  lw_workers s' = lw_workers s /\ lw_chan s' = lw_chan s /\ lw_closed s' = lw_closed s /\ lw_disconnected s' = lw_disconnected s /\
  lw_sent s' = lw_sent s /\ lw_result s' = lw_result s.
Proof. unfold push_err. by destruct (_ <? _)%nat. Qed.
(** A step of goroutine [i]: its new state, and at most a message. *)
Lemma worker_moves s s' i w w' more : log_ok s -> lw_workers s !! i = Some w -> w <> Finished ->
  lw_workers s' = <[i := w']> (lw_workers s) -> lw_chan s' = lw_chan s ++ more -> lw_closed s' = lw_closed s ->
  lw_disconnected s' = lw_disconnected s -> lw_sent s' = lw_sent s -> lw_result s' = lw_result s ->
  Forall (fun m : nat * LogMsg => m.1 = i) more ->
  (forall pod, pods !! i = Some pod -> lw_result s = None -> worker_ok s i pod w -> worker_ok s' i pod w') -> log_ok s'.
Proof.
  intros Hs Hi Hw Hws Hch Hcl Hd Hse Hr Hm Hok.
  assert (lw_closed s = false) as Hopen.
  { destruct (lw_closed s) eqn:E; [|done]. by destruct Hw; eapply not_all_done, (lo_closed s Hs E). }
  split.
  - rewrite Hws, length_insert. apply (lo_workers s Hs).
  - rewrite Hse. apply (lo_sent s Hs).
  - by rewrite Hcl, Hopen.
  - rewrite Hr. intros Hn j pod w0 Hj. rewrite Hws, list_lookup_insert. case_decide as Hij.
    + destruct Hij as [-> _]. intros [= <-]. eapply Hok; [done..|]. by apply (lo_running s Hs).
    + intros Hw0. assert (j <> i) as Hne by (intros ->; apply Hij; split; [done|by eapply lookup_lt_Some]).
      pose proof (lo_running s Hs Hn j pod w0 Hj Hw0) as H. unfold worker_ok in *. rewrite Hse, Hch, Hd.
      assert (of_worker j more = []) as Hmore by by eapply of_worker_none.
      by rewrite app_assoc, of_worker_app, Hmore, app_nil_r.
  - rewrite Hr, Hd, Hse. apply (lo_ended s Hs).
  - rewrite Hse, Hch, app_assoc. apply Forall_app. split; [apply (lo_known s Hs)|]. eapply Forall_impl; [exact Hm|].
    intros m ->. apply lookup_lt_is_Some. rewrite <- (lo_workers s Hs). by eapply lookup_lt_Some.
Qed.
Lemma log_work_ok i s s' : log_ok s -> log_work req GetLogs pods i s = Some s' -> log_ok s'.
Proof.
  intros Hs. unfold log_work. destruct (pods !! i) as [pod|] eqn:Ep; [|done]. destruct (lw_workers s !! i) as [w|] eqn:Ew; [|done]. cbn.
  assert (forall e, worker_ok (push_err pods e (set_worker i Finished s)) i pod Finished <-> worker_ok (set_worker i Finished s) i pod Finished) as Hpush.
  { intros e. destruct (push_err_same e (set_worker i Finished s)) as (_ & H2 & _ & H4 & H5 & _). unfold worker_ok. by rewrite H2, H4, H5. }
  assert (forall s1 w' more, lw_workers s1 = <[i := w']> (lw_workers s) -> lw_chan s1 = lw_chan s ++ more -> lw_closed s1 = lw_closed s ->
    lw_disconnected s1 = lw_disconnected s -> lw_sent s1 = lw_sent s -> lw_result s1 = lw_result s ->
    Forall (fun m : nat * LogMsg => m.1 = i) more -> w <> Finished ->
    (worker_ok s i pod w -> worker_ok s1 i pod w') -> log_ok s1) as Hmove.
  { intros s1 w' more ? ? ? ? ? ? ? Hf Hok. eapply (worker_moves s s1 i w w' more); try done. intros pod' Hp _. rewrite Ep in Hp. by injection Hp as <-. }
  assert (forall e, (worker_ok s i pod w -> worker_ok (set_worker i Finished s) i pod Finished) -> w <> Finished ->
    log_ok (push_err pods e (set_worker i Finished s))) as Herr.
  { intros e Hok Hf. destruct (push_err_same e (set_worker i Finished s)) as (H1 & H2 & H3 & H4 & H5 & H6).
    eapply (Hmove _ Finished []); rewrite ?app_nil_r; try done. intros H. apply Hpush. auto. }
  destruct w as [|[|line lines] fin|]; [| | |done].
  - destruct (opened_log req GetLogs pod) as [[lines fin]|e] eqn:Eo; intros [= <-].
    + eapply (Hmove _ (Reading lines fin) []); rewrite ?app_nil_r; try done. unfold worker_ok. cbn. intros ->. exists lines. by rewrite Eo.
    + apply Herr; [|done]. unfold worker_ok, log_messages. rewrite Eo. cbn. by intros ->.
  - assert (worker_ok s i pod (Reading [] fin) -> worker_ok (set_worker i Finished s) i pod Finished) as Hdone.
    { unfold worker_ok, log_messages. cbn. intros (all & -> & ->). rewrite app_nil_r. done. }
    assert (log_ok (set_worker i Finished s)) as Hfin by (eapply (Hmove _ Finished []); rewrite ?app_nil_r; done).
    destruct fin as [e|]; [case_bool_decide|]; intros [= <-]; [done|by apply Herr|done].
  - case_match; [|done]. intros [= <-].
    eapply (Hmove _ (Reading lines fin) [(i, log_line req pod line)]); try done; [by constructor|].
    unfold worker_ok. cbn. intros (all & Ho & Ha). exists all. split; [done|].
    rewrite Ha, app_assoc, (of_worker_app _ _ [_]), of_worker_one, decide_True by done. by rewrite <- app_assoc.
Qed.
Lemma log_stop_ok i s s' : log_ok s -> log_stop pods i s = Some s' -> log_ok s'.
Proof.
  intros Hs. unfold log_stop. destruct (lw_workers s !! i) as [w|] eqn:Ew; [|done]. cbn.
  destruct (cancelled s) eqn:Ec; [|done]. unfold cancelled in Ec.
  assert (forall s1, lw_workers s1 = <[i := Finished]> (lw_workers s) -> lw_chan s1 = lw_chan s -> lw_closed s1 = lw_closed s ->
    lw_disconnected s1 = lw_disconnected s -> lw_sent s1 = lw_sent s -> lw_result s1 = lw_result s -> w <> Finished -> log_ok s1) as Hmove.
  { intros s1 H1 H2 H3 H4 H5 H6 Hf. eapply (worker_moves s s1 i w Finished []); rewrite ?app_nil_r; try done.
    intros pod Hp Hn Hw. rewrite Hn in Ec. cbn in Ec. rewrite orb_false_r in Ec. unfold worker_ok. rewrite H2, H4, H5, Ec.
    split; [|done]. destruct w as [|lines fin|]; cbn in Hw; [rewrite Hw; apply prefix_nil| |done].
    destruct Hw as (all & Ho & Ha). unfold log_messages. rewrite Ho, Ha. by apply prefix_app_r. }
  destruct w as [|lines fin|]; [| |done]; intros [= <-]; [|by apply Hmove].
  destruct (push_err_same KCanceled (set_worker i Finished s)) as (? & ? & ? & ? & ? & ?). by apply Hmove.
Qed.
Lemma log_step_ok l s s' : log_ok s -> step l s = Some s' -> log_ok s'.
Proof.
  intros Hs. destruct l as [i|i| |send| | |]; cbn [log_step]; [by apply log_work_ok|by apply log_stop_ok|..].
  - destruct (forallb worker_done (lw_workers s) && negb (lw_closed s)) eqn:E; [|done]. apply andb_true_iff in E as [E _].
    intros [= <-]. by destruct Hs.
  - destruct (lw_result s) as [r|] eqn:Er; [done|]. destruct (lw_chan s) as [|m chan] eqn:Ech.
    + destruct (lw_closed s) eqn:Ecl; [|done]. intros [= <-]. pose proof (lo_closed s Hs Ecl) as Hdone. split; cbn; try apply Hs; [done|].
      intros _. destruct (lw_disconnected s) eqn:Ed; [by left|right]. intros i pod Hp.
      destruct (lookup_lt_is_Some_2 (lw_workers s) i) as [w Hw]; [rewrite (lo_workers s Hs); by eapply lookup_lt_Some|].
      pose proof (lo_running s Hs Er i pod w Hp Hw) as Hok. rewrite (not_all_done _ _ _ Hw Hdone) in Hok.
      destruct Hok as [_ Hok]. specialize (Hok Ed). by rewrite Ech, app_nil_r in Hok.
    + destruct send as [e|]; intros [= <-].
      * split; cbn; try apply Hs; try done. pose proof (lo_known s Hs) as Hk. rewrite Ech in Hk.
        apply Forall_app in Hk as [H1 [_ H2]%Forall_cons]. by apply Forall_app.
      * assert (forall i pod w, pods !! i = Some pod -> lw_workers s !! i = Some w ->
          worker_ok (mkLogs (lw_workers s) chan (lw_errs s) (lw_closed s) (lw_disconnected s) (lw_sent s ++ [m]) None) i pod w) as Hok.
        { intros i pod w Hp Hw. pose proof (lo_running s Hs Er i pod w Hp Hw) as Hok. unfold worker_ok in *.
          rewrite Ech in Hok. cbn [lw_sent lw_chan lw_disconnected]. rewrite <- app_assoc. exact Hok. }
        split; cbn [lw_workers lw_closed lw_result lw_sent lw_chan]; [apply Hs| |apply Hs|done|done|].
        -- intros i pod Hp. destruct (lookup_lt_is_Some_2 (lw_workers s) i) as [w Hw]; [rewrite (lo_workers s Hs); by eapply lookup_lt_Some|].
           exact (worker_prefix _ _ _ _ (Hok i pod w Hp Hw)).
        -- pose proof (lo_known s Hs) as Hk. rewrite Ech in Hk. by rewrite <- app_assoc.
  - destruct (lw_result s) eqn:Er; [done|]. destruct (lw_errs s) as [|e errs]; [done|]. intros [= <-]. split; cbn; try apply Hs; try done.
  - destruct (lw_disconnected s && _) eqn:E; [|done]. apply andb_true_iff in E as [Ed _]. intros [= <-]. split; cbn; try apply Hs; [done|by left].
  - destruct (lw_disconnected s) eqn:Ed; [done|]. intros [= <-]. split; cbn; try apply Hs; [|by left].
    intros Hn i pod w Hp Hw. pose proof (lo_running s Hs Hn i pod w Hp Hw) as Hok. unfold worker_ok in *. cbn.
    destruct w; [done..|]. by destruct Hok.
Qed.
Lemma log_start_ok : log_ok (log_start pods).
Proof.
  split; cbn; [by rewrite length_map|intros; apply prefix_nil|done| |done|done].
  intros _ i pod w Hp Hw. rewrite list_lookup_fmap, Hp in Hw. by injection Hw as <-.
Qed.
Lemma log_steps_ok n s s' : steps n s s' -> log_ok s -> log_ok s'.
Proof. induction 1 as [|n l s s1 s2 _ IH H]; [done|]. intros Hs. eapply log_step_ok; [|exact H]. auto. Qed.


(** *** The end *)
Definition worker_weight (pod : LogPod) (w : log_worker) : nat :=
  match w with
  | Opening => match opened_log req GetLogs pod with Ok (lines, _) => 2 * length lines + 2 | Err _ => 1 end
  | Reading lines _ => 2 * length lines + 1
  | Finished => 0
  end.
Definition flag (b : bool) : nat := if b then 0 else 1.
Fixpoint weights (ps : list LogPod) (ws : list log_worker) : nat :=
  match ps, ws with p :: ps, w :: ws => worker_weight p w + weights ps ws | _, _ => 0 end.
(** What is left to do, at most. *)
Definition log_measure s : nat :=
  weights pods (lw_workers s) + length (lw_chan s) + flag (lw_closed s) + (match lw_result s with Some _ => 0 | None => 1 end) + flag (lw_disconnected s).
Lemma weights_insert ps : forall ws i p w w', ps !! i = Some p -> ws !! i = Some w ->
  (weights ps (<[i := w']> ws) + worker_weight p w = weights ps ws + worker_weight p w')%nat.
Proof.
  induction ps as [|p0 ps IH]; [done|]. intros [|w0 ws] [|i] p w w'; try done; cbn.
  - intros [= ->] [= ->]. lia.
  - intros Hp Hw. specialize (IH ws i p w w' Hp Hw). rewrite <- !Nat.add_assoc. by f_equal.
Qed.
Lemma log_step_measure l s s' : length (lw_workers s) = length pods -> step l s = Some s' -> (log_measure s' < log_measure s)%nat.
Proof.
  intros Hlen. unfold log_measure. destruct l as [i|i| |send| | |]; cbn [log_step].
  - unfold log_work. destruct (pods !! i) as [pod|] eqn:Ep; [|done]. destruct (lw_workers s !! i) as [w|] eqn:Ew; [|done]. cbn [mbind option_bind].
    pose proof (fun w' => weights_insert pods (lw_workers s) i pod w w' Ep Ew) as Hw.
    destruct w as [|[|line lines] [e|]|]; [| | | | |done]; cbn [worker_weight length] in Hw.
    + destruct (opened_log req GetLogs pod) as [[lines fin]|e] eqn:Eo; intros [= <-].
      * specialize (Hw (Reading lines fin)). cbn [worker_weight] in Hw. cbn. lia.
      * specialize (Hw Finished). destruct (push_err_same e (set_worker i Finished s)) as (-> & -> & -> & -> & _ & ->). cbn in *. lia.
    + specialize (Hw Finished). case_bool_decide; intros [= <-];
        [|destruct (push_err_same e (set_worker i Finished s)) as (-> & -> & -> & -> & _ & ->)]; cbn in *; lia.
    + intros [= <-]. specialize (Hw Finished). cbn in *. lia.
    + destruct (_ <? _)%nat; [|done]. intros [= <-]. specialize (Hw (Reading lines (Some e))). cbn in *. rewrite length_app. cbn. lia.
    + destruct (_ <? _)%nat; [|done]. intros [= <-]. specialize (Hw (Reading lines None)). cbn in *. rewrite length_app. cbn. lia.
  - unfold log_stop. destruct (lw_workers s !! i) as [w|] eqn:Ew; [|done]. cbn [mbind option_bind]. destruct (cancelled s); [|done].
    destruct (lookup_lt_is_Some_2 pods i) as [pod Ep]; [rewrite <- Hlen; by eapply lookup_lt_Some|].
    pose proof (weights_insert pods (lw_workers s) i pod w Finished Ep Ew) as Hw.
    destruct w as [|lines fin|]; [| |done]; cbn [worker_weight] in Hw; intros [= <-].
    + destruct (push_err_same KCanceled (set_worker i Finished s)) as (-> & -> & -> & -> & _ & ->). cbn.
      destruct (opened_log req GetLogs pod) as [[lines fin]|e]; lia.
    + cbn. lia.
  - destruct (forallb worker_done (lw_workers s) && negb (lw_closed s)) eqn:E; [|done]. apply andb_true_iff in E as [_ E%negb_true_iff].
    intros [= <-]. cbn. rewrite E. cbn. lia.
  - destruct (lw_result s) eqn:Er; [done|]. destruct (lw_chan s) as [|m chan] eqn:Ech.
    + destruct (lw_closed s) eqn:Ecl; [|done]. intros [= <-]. cbn. rewrite Ech, Ecl. cbn. lia.
    + destruct send; intros [= <-]; cbn; lia.
  - destruct (lw_result s) eqn:Er; [done|]. destruct (lw_errs s); [done|]. intros [= <-]. cbn. lia.
  - destruct (lw_result s) eqn:Er; [by rewrite andb_false_r|]. destruct (lw_disconnected s) eqn:Ed; [|done]. intros [= <-]. cbn. rewrite Ed. cbn. lia.
  - destruct (lw_disconnected s) eqn:Ed; [done|]. intros [= <-]. cbn. lia.
Qed.
Lemma some_not_done (ws : list log_worker) : forallb worker_done ws = false -> exists i w, ws !! i = Some w /\ worker_done w = false.
Proof.
  induction ws as [|w ws IH]; [done|]. cbn. destruct (worker_done w) eqn:E; [|by exists O, w]. intros (i & w' & Hw & Hd)%IH. by exists (S i), w'.
Qed.
Lemma log_progress s : length (lw_workers s) = length pods -> lw_result s = None \/ forallb worker_done (lw_workers s) = false ->
  exists l s', l <> LgDisconnect /\ step l s = Some s'.
Proof.
  intros Hlen H. destruct (lw_result s) as [r|] eqn:Er.
  - destruct H as [?|(i & w & Hw & Hd)%some_not_done]; [done|]. exists (LgStop i). cbn. unfold log_stop, cancelled. rewrite Hw, Er.
    cbn. rewrite orb_true_r. destruct w; [eauto..|done].
  - clear H. destruct (lw_chan s) as [|m chan] eqn:Ech; [|exists (LgReceive None); cbn; rewrite Er, Ech; eauto].
    destruct (forallb worker_done (lw_workers s)) eqn:Ed.
    + destruct (lw_closed s) eqn:Ecl; [exists (LgReceive None)|exists LgClose]; cbn; rewrite ?Er, ?Ech, ?Ed, ?Ecl; eauto.
    + apply some_not_done in Ed as (i & w & Hw & Hd). exists (LgWork i). cbn. unfold log_work.
      destruct (lookup_lt_is_Some_2 pods i) as [pod ->]; [rewrite <- Hlen; by eapply lookup_lt_Some|]. rewrite Hw. cbn.
      destruct w as [|[|line lines] [e|]|]; [destruct (opened_log _ _ _) as [[? ?]|?]| | | | |done]; rewrite ?Ech; cbn; eauto.
Qed.

(** C39: a stream of logs that end comes to its end: no execution is longer
    than twice the lines of the logs and two for each pod, and three; and one
    that can go no further, though the client stays, has a result and has left
    no goroutine behind. *)
Theorem log_stream_ends n s : steps n (log_start pods) s ->
  (n + log_measure s <= log_measure (log_start pods))%nat /\
  ((forall l s', step l s = Some s' -> l = LgDisconnect) -> is_Some (lw_result s) /\ Forall (fun w => w = Finished) (lw_workers s)).
Proof.
  intros Hs. assert (length (lw_workers s) = length pods) as Hlen by exact (lo_workers s (log_steps_ok _ _ _ Hs log_start_ok)). split.
  - clear Hlen. remember (log_start pods) as s0 eqn:E0. induction Hs as [s|n l s s1 s2 Hs IH Hstep]; [done|]. subst s.
    pose proof (lo_workers s1 (log_steps_ok _ _ _ Hs log_start_ok)) as Hl. pose proof (log_step_measure l s1 s2 Hl Hstep). specialize (IH eq_refl). lia.
  - intros Hstuck. destruct (lw_result s) as [r|] eqn:Er.
    + split; [done|]. destruct (forallb worker_done (lw_workers s)) eqn:Ed.
      * apply Forall_forall. intros w Hw. rewrite forallb_forall in Ed. specialize (Ed w (proj1 (list_elem_of_In _ _) Hw)). by destruct w.
      * destruct (log_progress s Hlen (or_intror Ed)) as (l & s' & Hl & H). by apply Hstuck in H.
    + destruct (log_progress s Hlen (or_introl Er)) as (l & s' & Hl & H). by apply Hstuck in H.
Qed.
End Facts.

(** ** Executions *)
Module LogDemo.
Import ResourceDemo.
#[local] Existing Instances Server.api Server.api_laws ascii_unicode.
Definition pod (name environment : gostring) : LogPod :=
  mkObject name #"team" #"u" {[hookEnvironmentLabel := environment]} ∅ [] [] None 1 tt tt.
Definition pod_server : Server.t LogPod := Server.of_list [pod #"web-1" #"web"; pod #"web-2" #"web"; pod #"old-1" #"old"].
Definition request (timestamps : bool) : LogRequest := mkLogRequest #"web" #"team" [] [] [] false 0 None timestamps.
(** The first pod has two lines, the second may not be read. *)
Definition logs_of (_ name : gostring) (_ : PodLogOptions) : result k8s_error pod_log :=
  if str_eqb name #"web-1" then Ok ([ #"2026-01-02T03:04:05.5Z started"; #"2026-01-02T03:04:06Z ready"], None) else Err KForbidden.
Definition asked := log_targets KOther reviews true (Some developer) (request true) pod_server.
Definition targets : list LogPod := match asked with (Ok l, _, _) => l | _ => [] end.
Lemma asked_runs : asked = (Ok targets, asked.1.2, asked.2).
Proof. vm_compute. reflexivity. Qed.
Lemma log_targets_authorized_witness : (1 <= length targets <= 5)%nat /\ forall p, p ∈ targets -> o_Namespace p = #"team".
Proof.
  destruct (log_targets_authorized KOther reviews true (Some developer) (request true) pod_server _ _ _ asked_runs) as [_ H].
  destruct (H targets eq_refl) as (_ & _ & Hl & Hp & _). split; [exact Hl|]. intros p Hin. exact (proj1 (proj2 (Hp p Hin))).
Defined.

Definition limits : StreamLimiter.limiter := StreamLimiter.mkLimiter 10 2 0 ∅.
Definition begun := StreamLogs KOther reviews true (Some developer) (request true) true limits pod_server.
Lemma begun_runs : begun = (Ok targets, begun.1.1.2, begun.1.2, begun.2).
Proof. vm_compute. reflexivity. Qed.
Lemma log_slot_returned_witness : StreamLimiter.global begun.1.1.2 = 1.
Proof. exact (proj1 (log_slot_returned KOther reviews true (Some developer) (request true) true limits pod_server _ _ _ _ begun_runs)). Defined.

Definition streamed (ls : list log_label) : option logs :=
  fold_left (fun s l => s ← s; log_step (request true) logs_of [pod #"web-1" #"web"; pod #"web-2" #"web"] l s) ls
    (Some (log_start [pod #"web-1" #"web"; pod #"web-2" #"web"])).
Lemma streamed_steps ls s : streamed ls = Some s ->
  log_steps (request true) logs_of [pod #"web-1" #"web"; pod #"web-2" #"web"] (length ls) (log_start [pod #"web-1" #"web"; pod #"web-2" #"web"]) s.
Proof.
  unfold streamed. revert s. induction ls as [|l ls IH] using rev_ind; cbn [fold_left length]; [intros s [= <-]; constructor|].
  intros s. rewrite fold_left_app, length_app, Nat.add_comm. cbn [fold_left length Nat.add].
  destruct (fold_left _ ls _) as [s1|]; [|done]. cbn [mbind option_bind]. intros Hs. econstructor; [by apply IH|exact Hs].
Qed.
(** Both lines are sent, the second pod fails; then the handler is given the
    end of the channel, or the error. *)
Definition script : list log_label :=
  [LgWork 0; LgWork 0; LgWork 1; LgWork 0; LgReceive None; LgWork 0; LgReceive None; LgClose].
Definition ended_well : logs := default (log_start []) (streamed (script ++ [LgReceive None])).
Definition ended_badly : logs := default (log_start []) (streamed (script ++ [LgFail])).
Lemma ended_well_runs : streamed (script ++ [LgReceive None]) = Some ended_well.
Proof. vm_compute. reflexivity. Qed.
Lemma ended_badly_runs : streamed (script ++ [LgFail]) = Some ended_badly.
Proof. vm_compute. reflexivity. Qed.
Example sent_lines : map (fun r => (lp_Content r, lp_Timestamp r)) (log_responses (request true) ended_well) =
  [( #"started", ParseRFC3339 #"2026-01-02T03:04:05.5Z"); ( #"ready", ParseRFC3339 #"2026-01-02T03:04:06Z")].
Proof. vm_compute. reflexivity. Qed.
Lemma log_stream_ends_witness : (9 + log_measure (request true) logs_of [pod #"web-1" #"web"; pod #"web-2" #"web"] ended_well <= 10)%nat.
Proof.
  exact (proj1 (log_stream_ends (request true) logs_of _ _ _ (streamed_steps _ _ ended_well_runs))).
Defined.

(** *** What the stream does not mean to do *)
(** When the last goroutine fails, both the error and the end of the channel
    are there: a select picks either, so the client of one and the same
    request is told that the log could not be read, or that all is well. *)
Theorem log_error_may_be_lost :
  streamed (script ++ [LgReceive None]) = Some ended_well /\ streamed (script ++ [LgFail]) = Some ended_badly /\
  lw_sent ended_well = lw_sent ended_badly /\
  lw_result ended_well = Some (Ok tt) /\ lw_errs ended_well = [KForbidden] /\
  lw_result ended_badly = Some (Err (RpcError CodePermissionDenied #"permission denied")).
Proof. vm_compute. done. Qed.
(** Kubernetes is always asked for timestamps, and they are left in the lines
    of a client who has not asked for them. *)
Theorem unasked_timestamps_sent :
  (forall ns name c f t since, StreamPodLogs (fun _ _ o => if po_Timestamps o then Ok ([], None) else Err KOther) ns name c f t since = Ok ([], None)) /\
  (forall p line, lg_content (log_line (request false) p line) = line) /\
  lg_content (log_line (request true) (pod #"web-1" #"web") #"2026-01-02T03:04:06Z ready") = #"ready".
Proof. by vm_compute. Qed.
End LogDemo.
