(* ===== verification/SlashCommands.v ===== *)
(** * Slash commands: [internal/webhook/commands.go]

    A comment on a pull request, parsed into a command and executed on the
    agent tasks, environments and preview groups of the cluster, with the text
    that is posted back.  The API client is used through its interface;
    [CreateOrUpdate] is third party, as is the generation of trace parents.
    The amounts of a command are those the parser formats. *)

From S2P Require Import Prelude GoStrings GoCrypto GoFloat GoTime GoURL GoQuote GoDuration KubeApi AgentTask ResourceNames EnvTypes GroupTypes AgentTaskService.
Local Open Scope Z_scope.

Definition defaultExtendTTLDuration : Z := 24 * 3600 * 10 ^ 9.
Definition prNumberAnnotationKey : gostring := #"divergedev.com/pr-number".
Definition nl : gostring := ["010"%char].
Definition HelpMessage : gostring := #"### 🤖 Diverge Slash Commands Guide

Use `/diverge <command>` in any PR or MR comment to manage preview environments and autonomous agent tasks:

| Command | Description | Example |
|---|---|---|
| `/diverge fix <objective>` | Start autonomous code-test-review loop | `/diverge fix resolve nil pointer in payment handler` |
| `/diverge guide <instruction>` | Steer running agent with runtime guidance | `/diverge guide prioritize backward compatibility in auth.go` |
| `/diverge pause` | Suspend autonomous agent execution | `/diverge pause` |
| `/diverge resume [+$amount] [tokens]` | Resume agent with optional budget bump | `/diverge resume +$5.00` |
| `/diverge status` | Report active tasks and preview environments | `/diverge status` |
| `/diverge preview` | Deploy preview environment for this branch | `/diverge preview` |
| `/diverge extend-ttl [duration]` | Extend preview TTL (default 24h) | `/diverge extend-ttl 48h` |
| `/diverge teardown` | Tear down preview environment & agent tasks | `/diverge teardown` |
| `/diverge help` | Show this command reference | `/diverge help` |
".

(** ** Parsing *)
Record SlashCommand := mkCommand {
  cm_Action : gostring; cm_Objective : gostring; cm_Guidance : gostring; cm_Duration : Z; cm_BudgetUSD : gostring; cm_Tokens : Z }.
Definition command (action : gostring) : SlashCommand := mkCommand action [] [] 0 [] 0.

(** [strings.Split(s, sep)] for one byte. *)
Fixpoint split_lines (s : gostring) (sep : ascii) : list gostring :=
  match s with
  | [] => [[]]
  | c :: s' =>
      let rest := split_lines s' sep in
      if decide (c = sep) then [] :: rest else match rest with l :: ls => (c :: l) :: ls | [] => [[c]] end
  end.

Definition is_amount (f : gostring) : bool :=
  HasPrefix f #"+$" || HasPrefix f #"$" || HasPrefix f #"+" || Contains f #".".
(** One argument after the amounts so far; [None] is an error. *)
Definition positive_int (s : gostring) : option Z := tok ← ParseInt s; if 0 <? tok then Some tok else None.
Definition resume_arg (acc : gostring * Z) (f : gostring) : option (gostring * Z) :=
  let '(budgetUSD, tokens) := acc in
  let fClean := TrimSpace f in
  if is_amount fClean then
    val ← ParseFloat (TrimPrefix (TrimPrefix (TrimPrefix fClean #"+") #"$") #"+");
    if f_le val f_zero then None else Some (FormatFixed2 val, tokens)
  else
    match positive_int fClean with
    | Some tok => Some (budgetUSD, tok)
    | None => val ← ParseFloat fClean; if f_gt val f_zero then Some (FormatFixed2 val, tokens) else None
    end.
Fixpoint resume_args (fs : list gostring) (acc : gostring * Z) : option (gostring * Z) :=
  match fs with [] => Some acc | f :: fs => acc ← resume_arg acc f; resume_args fs acc end.
(** [fields] with the name of the command first. *)
Definition parseResumeArgs (fields : list gostring) : option (gostring * Z) := resume_args (tail fields) ([], 0).

(** What a line says: not a command, a refused one, or a command. *)
Inductive line_result := NotCommand | Refused | Parsed (c : SlashCommand).
Definition parse_line (rawLine : gostring) (U : GoUnicode) : line_result :=
  let line := TrimSpace rawLine in
  if negb (HasPrefix line #"/diverge") then NotCommand
  else
    let rest := TrimSpace (TrimPrefix line #"/diverge") in
    match Fields rest with
    | [] => NotCommand
    | first :: more =>
        let subcmd := ToLower first in
        let argStr := TrimSpace (drop (length first) rest) in
        if str_eqb subcmd #"fix" then
          if str_eqb argStr [] then Refused else Parsed (mkCommand #"fix" argStr [] 0 [] 0)
        else if str_eqb subcmd #"guide" then
          if str_eqb argStr [] then Refused else Parsed (mkCommand #"guide" [] argStr 0 [] 0)
        else if bool_decide (subcmd ∈ [ #"preview"; #"teardown"; #"status"; #"help"; #"pause"]) then Parsed (command subcmd)
        else if str_eqb subcmd #"extend-ttl" then
          if str_eqb argStr [] then Parsed (mkCommand #"extend-ttl" [] [] defaultExtendTTLDuration [] 0)
          else match more with
               | d :: _ => match ParseDuration d with
                           | Some parsed => if parsed <=? 0 then Refused else Parsed (mkCommand #"extend-ttl" [] [] parsed [] 0)
                           | None => Refused
                           end
               | [] => Refused
               end
        else if str_eqb subcmd #"resume" || str_eqb subcmd #"budget" then
          match parseResumeArgs (first :: more) with
          | Some (budgetUSD, tokens) => Parsed (mkCommand subcmd [] [] 0 budgetUSD tokens)
          | None => Refused
          end
        else NotCommand
    end.
Fixpoint parse_lines (lines : list gostring) (U : GoUnicode) : option SlashCommand :=
  match lines with
  | [] => None
  | l :: lines => match parse_line l U with NotCommand => parse_lines lines U | Refused => None | Parsed c => Some c end
  end.
Definition ParseSlashCommand {U : GoUnicode} (commentBody : gostring) : option SlashCommand :=
  parse_lines (split_lines commentBody "010"%char) U.

(** ** Repositories *)
Section Repo.
Context {U : GoUnicode} {N : GoNetip}.
Definition normalizeRepoURL (raw : gostring) : gostring := TrimSuffix (TrimSuffix (ToLower (TrimSpace raw)) #"/") #".git".
Definition projectFromRepoURL (repoURL : gostring) : gostring :=
  let trimmed := TrimSuffix (TrimSpace repoURL) #".git" in
  match Parse trimmed with
  | Some u => if str_eqb (u_Host u) [] then Trim trimmed #"/" else Trim (u_Path u) #"/"
  | None => Trim trimmed #"/"
  end.
Definition providerFromRepoURL (repoURL : gostring) : gostring :=
  if Contains (ToLower repoURL) #"gitlab" then #"gitlab" else #"github".
Definition matchesTaskPR (task : AgentTask) (repoURL : gostring) (prNumber : Z) (prStr : gostring) : bool :=
  if negb (str_eqb repoURL []) && negb (str_eqb (normalizeRepoURL (sp_RepoURL (tk_Spec task))) (normalizeRepoURL repoURL)) then false
  else if 0 <? prNumber then
    str_eqb (annotation task prNumberAnnotationKey) prStr || str_eqb (default [] (tk_Labels task !! prNumberAnnotationKey)) prStr ||
    str_eqb (sp_WorkingBranch (tk_Spec task)) (#"pr-" ++ FormatInt prNumber)
  else negb (str_eqb repoURL []).
Definition command_char (c : ascii) : ascii := if is_lower c || is_digit c || bool_decide (c = "-"%char) then c else "-"%char.
Definition buildCommandTaskName (repoURL : gostring) (prNumber : Z) (objective : gostring) : gostring :=
  let raw := if prNumber <=? 0 then #"task-fix" else #"task-pr-" ++ FormatInt prNumber in
  let raw := Trim (map command_char (ToLower raw)) #"-" in
  let hash := take 8 (hex_encode (sha256 (repoURL ++ #"/" ++ FormatInt prNumber ++ #"/" ++ objective))) in
  raw ++ #"-" ++ hash.
Definition previewEnvName (prefix project : gostring) (id : Z) : gostring :=
  prefix ++ #"-" ++ hex_encode (take 4 (sha256 project)) ++ #"-" ++ FormatInt id.
End Repo.

(** ** The cluster *)
Class CmdCluster (E : Type) := {
  envs_List : gostring -> E -> ares (list Environment) * E;
  envs_Update : Environment -> E -> ares unit * E;
  envs_Delete : task_key -> E -> ares unit * E;
  envs_CreateOrUpdate : task_key -> (Environment -> Environment) -> E -> ares unit * E;
  (** [None]: the kind is not installed *)
  groups_List : E -> ares (option (list PreviewGroup)) * E;
  groups_Update : PreviewGroup -> E -> ares unit * E;
  groups_Delete : task_key -> E -> ares unit * E }.
Class TaskUpsert (T : Type) := { task_CreateOrUpdate : task_key -> (AgentTask -> AgentTask) -> T -> ares AgentTask * T }.
(** [CreateOrUpdate] creates the mutated new object, or updates the mutated
    stored one when it differs. *)
Definition new_task (k : task_key) : AgentTask :=
  mkTask (snd k) (fst k) [] ∅ ∅ [] time_zero None 0 0 (mkTaskSpec [] [] [] [] [] [] [] 0 [] 0 0 [] false false) empty_status.
Class TaskUpsertLaws (T : Type) {C : TaskClient T} {L : TaskClientLaws T} {P : TaskUpsert T} := {
  task_CreateOrUpdate_Ok : forall k f w t' w', task_CreateOrUpdate k f w = (Ok t', w') ->
    (task_stored w !! k = None /\ exists uid now v, t' = created (f (new_task k)) uid now v /\
       task_stored w' = <[k := t']> (task_stored w)) \/
    (exists cur, task_stored w !! k = Some cur /\
       ((f cur = cur /\ t' = cur /\ task_stored w' = task_stored w) \/
        exists g v, t' = updated cur (f cur) g v /\ task_stored w' = store_updated t' (task_stored w)));
  task_CreateOrUpdate_Err : forall k f w e w', task_CreateOrUpdate k f w = (Err e, w') -> task_stored w' = task_stored w }.

Inductive cmd_error := CmdError (msg : gostring) | CmdApi (e : api_error) | CmdWrapped (what : gostring) (e : api_error).

Section Execute.
Context {U : GoUnicode} {N : GoNetip}.
Context {T : Type} {C : TaskClient T} {A : TaskAdmin T} {P : TaskUpsert T} {E : Type} {K : CmdCluster E}.
(** The trace parent of the context; the time. *)
Context (traceparent : gostring) (now : Time).

(** The text or the error, and the cluster. *)
Definition cmd (X : Type) : Type := T * E -> result cmd_error X * (T * E).
Definition says {X} (x : X) : cmd X := fun w => (Ok x, w).
Definition errs {X} (e : cmd_error) : cmd X := fun w => (Err e, w).
Definition andthen {X Y} (m : cmd X) (f : X -> cmd Y) : cmd Y := fun w =>
  match m w with (Ok x, w1) => f x w1 | (Err e, w1) => (Err e, w1) end.
Local Notation "'let^' x ':=' m 'in' k" := (andthen m (fun x => k)) (at level 200, x pattern, m at level 100, k at level 200).
Local Notation "'do^' m 'in' k" := (andthen m (fun _ => k)) (at level 200, m at level 100, k at level 200).
Definition on_task {X} (wrap : api_error -> cmd_error) (f : T -> ares X * T) : cmd X := fun '(t, e) =>
  let '(r, t1) := f t in (match r with Ok x => Ok x | Err x => Err (wrap x) end, (t1, e)).
Definition on_env {X} (wrap : api_error -> cmd_error) (f : E -> ares X * E) : cmd X := fun '(t, e) =>
  let '(r, e1) := f e in (match r with Ok x => Ok x | Err x => Err (wrap x) end, (t, e1)).
(** [for ... { if err := ...; err != nil { return err } }] *)
Fixpoint each {X Y} (f : X -> cmd Y) (l : list X) : cmd (list Y) :=
  match l with
  | [] => says []
  | x :: l => let^ y := f x in let^ ys := each f l in says (y :: ys)
  end.
Definition ignore_missing {W} (f : W -> ares unit * W) : W -> ares unit * W := fun w =>
  match f w with (Err NotFound, w1) => (Ok tt, w1) | r => r end.
Definition list_tasks (wrap : api_error -> cmd_error) (ns : gostring) : cmd (list AgentTask) :=
  let^ l := on_task wrap (task_List ns None []) in says l.1.
Definition list_envs (ns : gostring) : cmd (list Environment) := on_env CmdApi (envs_List ns).
Definition matched_tasks (wrap : api_error -> cmd_error) (ns repoURL : gostring) (prNumber : Z) : cmd (list AgentTask) :=
  let^ l := list_tasks wrap ns in
  says (filter (fun t => matchesTaskPR t repoURL prNumber (Itoa prNumber) = true) l).

(** *** fix *)
Definition fix_mutate (objective repoURL branch workingBranch : gostring) (prNumber : Z) (task : AgentTask) : AgentTask :=
  let pr := prNumberAnnotationKey in
  let labels := <[ #"divergedev.com/managed-by" := #"diverge-webhook"]> (tk_Labels task) in
  let marked m := if 0 <? prNumber then <[pr := Itoa prNumber]> m else m in
  let set sp := mkTaskSpec objective repoURL branch workingBranch (sp_Provider sp) (sp_PoolRef sp) (sp_TemplateRef sp)
                  (sp_TimeoutSeconds sp) (sp_BudgetUSD sp) (sp_BudgetTokens sp) (sp_MaxIterations sp) (sp_Capabilities sp)
                  (sp_DraftPR sp) (sp_Suspended sp) in
  with_Spec set (with_Labels (marked labels) (with_Annotations (marked (tk_Annotations task)) task)).
Definition executeFixCommand (ns objective repoURL branch : gostring) (prNumber : Z) : cmd gostring :=
  if str_eqb (TrimSpace objective) [] then errs (CmdError #"fix command requires a non-empty objective")
  else
    let repoURL := if str_eqb repoURL [] then #"https://github.com/unknown/repository" else repoURL in
    let taskName := buildCommandTaskName repoURL prNumber objective in
    let workingBranch := if 0 <? prNumber then #"pr-" ++ FormatInt prNumber else #"agent/" ++ taskName in
    let^ _ := on_task CmdApi (task_CreateOrUpdate (ns, taskName) (fix_mutate objective repoURL branch workingBranch prNumber)) in
    says (#"🚀 **Agent task started**: `" ++ taskName ++ #"`" ++ nl ++ nl ++
          #"- **Objective**: " ++ objective ++ nl ++ #"- **Working Branch**: `" ++ workingBranch ++ #"`" ++ nl ++ nl ++
          #"Follow execution progress via PR comments or stream logs with:" ++ nl ++
          #"```bash" ++ nl ++ #"diverge task logs " ++ taskName ++ #" -f" ++ nl ++ #"```").

(** *** guide *)
Definition executeGuideCommand (ns guidance repoURL : gostring) (prNumber : Z) : cmd gostring :=
  if str_eqb (TrimSpace guidance) [] then errs (CmdError #"guide command requires non-empty guidance text")
  else
    let^ l := list_tasks CmdApi ns in
    let matched := filter (fun t => terminal_phase (st_Phase (tk_Status t)) = false /\
                                    matchesTaskPR t repoURL prNumber (Itoa prNumber) = true) l in
    match matched with
    | [] => says #"⚠️ No active agent task found for this PR/MR. Use `/diverge fix <objective>` to start an autonomous task."
    | t :: more =>
        do^ each (fun t => on_task (CmdWrapped #"update agent task guidance: ") (task_Update (guided now guidance t))) matched in
        says match more with
             | [] => #"🧭 **Guidance saved** to agent task `" ++ tk_Name t ++ #"`:" ++ nl ++ nl ++ #"> " ++ guidance ++ nl ++ nl ++
                     #"This guidance will be delivered to the agent on its next iteration."
             | _ => #"🧭 **Guidance saved** to " ++ Itoa (Z.of_nat (length matched)) ++ #" agent tasks:" ++ nl ++ nl ++ #"> " ++
                    guidance ++ nl ++ nl ++ #"This guidance will be delivered to the agents on their next iteration."
             end
    end.

(** *** preview *)
Definition executePreviewCommand (ns repoURL branch : gostring) (prNumber : Z) : cmd gostring :=
  let project := projectFromRepoURL repoURL in
  let provider := providerFromRepoURL repoURL in
  let prefix := if str_eqb provider #"gitlab" then #"mr" else #"pr" in
  let envName := previewEnvName prefix project prNumber in
  let marked m := if 0 <? prNumber then <[prNumberAnnotationKey := Itoa prNumber]> m else m in
  let tp := TrimSpace traceparent in
  let traced m := if str_eqb tp [] then m else <[ #"divergedev.com/traceparent" := tp]> m in
  do^ on_env CmdApi (envs_CreateOrUpdate (ns, envName) (fun env =>
        ev_set_Labels (marked (ev_Labels env)) (ev_set_Annotations (marked (traced (ev_Annotations env)))
          (ev_set_Spec (es_set_Source (mkSource provider project prNumber branch []) (ev_Spec env)) env)))) in
  says (#"🔄 **Preview environment requested**: `" ++ envName ++ #"` (branch: `" ++ branch ++ #"`)" ++ nl ++ nl ++
        #"Diverge is provisioning your preview stack.").

(** *** Environments and preview groups of a pull request *)
Definition env_matches (project : gostring) (prNumber : Z) (env : Environment) : bool :=
  let expectedPR := previewEnvName #"pr" project prNumber in
  let expectedMR := previewEnvName #"mr" project prNumber in
  let named := str_eqb (ev_Name env) expectedPR || str_eqb (ev_Name env) expectedMR in
  let same_project :=
    if str_eqb project [] then true
    else if str_eqb (src_Project (es_Source (ev_Spec env))) [] then named else EqualFold (src_Project (es_Source (ev_Spec env))) project in
  same_project &&
  ((src_MR (es_Source (ev_Spec env)) =? prNumber) || str_eqb (default [] (ev_Annotations env !! prNumberAnnotationKey)) (Itoa prNumber) ||
   str_eqb (default [] (ev_Labels env !! prNumberAnnotationKey)) (Itoa prNumber) || named).
Definition findMatchingEnvironments (ns repoURL : gostring) (prNumber : Z) : cmd (list Environment) :=
  let^ l := list_envs ns in
  says (if prNumber <=? 0 then [] else filter (fun env => env_matches (projectFromRepoURL repoURL) prNumber env = true) l).
Definition group_matches (project : gostring) (prNumber : Z) (pg : PreviewGroup) : bool :=
  (str_eqb project [] || EqualFold (src_Project (gp_Source (pg_Spec pg))) project) &&
  ((src_MR (gp_Source (pg_Spec pg)) =? prNumber) || str_eqb (default [] (pg_Annotations pg !! prNumberAnnotationKey)) (Itoa prNumber) ||
   str_eqb (default [] (pg_Labels pg !! prNumberAnnotationKey)) (Itoa prNumber)).
Definition findMatchingPreviewGroups (repoURL : gostring) (prNumber : Z) : cmd (list PreviewGroup) :=
  let^ l := on_env CmdApi groups_List in
  says match l with
       | None => []
       | Some l => if prNumber <=? 0 then [] else filter (fun pg => group_matches (projectFromRepoURL repoURL) prNumber pg = true) l
       end.

(** *** teardown *)
Definition count_of {X} (l : list X) : gostring := Itoa (Z.of_nat (length l)).
Definition executeTeardownCommand (ns repoURL : gostring) (prNumber : Z) : cmd gostring :=
  let^ envs := findMatchingEnvironments ns repoURL prNumber in
  do^ each (fun env => on_env CmdApi (ignore_missing (envs_Delete (ev_Namespace env, ev_Name env)))) envs in
  let^ pgs := findMatchingPreviewGroups repoURL prNumber in
  do^ each (fun pg => on_env CmdApi (ignore_missing (groups_Delete (pg_Namespace pg, pg_Name pg)))) pgs in
  let^ tasks := matched_tasks CmdApi ns repoURL prNumber in
  do^ each (fun t => on_task CmdApi (ignore_missing (task_Delete (key_of t)))) tasks in
  says (#"🧹 **Teardown requested**: Cleaned up " ++ count_of envs ++ #" preview environment(s), " ++ count_of pgs ++
        #" preview group(s), and " ++ count_of tasks ++ #" agent task(s) for this PR/MR.").

(** *** extend-ttl *)
Definition executeExtendTTLCommand (ns : gostring) (dur : Z) (repoURL : gostring) (prNumber : Z) : cmd gostring :=
  let dur := if dur <=? 0 then defaultExtendTTLDuration else dur in
  let^ envs := findMatchingEnvironments ns repoURL prNumber in
  do^ each (fun env => on_env CmdApi (envs_Update
        (ev_set_Spec (es_set_Lifecycle (lc_set_TTL (Some dur) (es_Lifecycle (ev_Spec env))) (ev_Spec env)) env))) envs in
  let^ pgs := findMatchingPreviewGroups repoURL prNumber in
  do^ each (fun pg => on_env CmdApi (groups_Update
        (pg_set_Spec (gp_set_Lifecycle (Some (gl_set_TTL (Some dur) (default no_group_lifecycle (gp_Lifecycle (pg_Spec pg)))))
           (pg_Spec pg)) pg))) pgs in
  says (#"⏳ **Preview TTL extended** by " ++ DurationString dur ++ #" for " ++
        Itoa (Z.of_nat (length envs) + Z.of_nat (length pgs)) ++ #" environment(s).").

(** *** pause, resume and budget *)
Definition amount (s : gostring) : float64 := default f_zero (ParseFloat s).
Definition add_budget (budgetUSD : gostring) (sp : AgentTaskSpec) : AgentTaskSpec :=
  if str_eqb budgetUSD [] then sp
  else
    let curr := if str_eqb (sp_BudgetUSD sp) [] then f_zero else amount (TrimPrefix (TrimSpace (sp_BudgetUSD sp)) #"$") in
    set_Limits (FormatFixed2 (f_add curr (amount budgetUSD))) (sp_BudgetTokens sp) (sp_MaxIterations sp) sp.
Definition add_tokens (tokens : Z) (sp : AgentTaskSpec) : AgentTaskSpec :=
  if 0 <? tokens then set_Limits (sp_BudgetUSD sp) (wrap64 (sp_BudgetTokens sp + tokens)) (sp_MaxIterations sp) sp else sp.
Definition lift_iterations (st : AgentTaskStatus) (sp : AgentTaskSpec) : AgentTaskSpec :=
  if (0 <? sp_MaxIterations sp) && (sp_MaxIterations sp <=? st_Iteration st)
  then set_Limits (sp_BudgetUSD sp) (sp_BudgetTokens sp) (wrap32 (st_Iteration st + 5)) sp else sp.
(** What a pause or a resume makes of a task. *)
Definition suspend_edit (suspend : bool) (budgetUSD : gostring) (tokens : Z) (task : AgentTask) : AgentTask :=
  with_Spec (fun sp =>
    let sp := set_Suspended suspend sp in
    if suspend then sp else lift_iterations (tk_Status task) (add_tokens tokens (add_budget budgetUSD sp))) task.
Definition suspend_one (suspend : bool) (budgetUSD : gostring) (tokens : Z) (task : AgentTask) : cmd AgentTask :=
  let^ task' := on_task CmdApi (task_Update (suspend_edit suspend budgetUSD tokens task)) in
  if negb suspend && stale_status (tk_Status task') then
    let cleared := with_Status (fun st => set_Message [] (set_LastMeterRequestIDs [] st)) task' in
    fun '(t, e) => (* the error of the status update is dropped *)
      match task_StatusUpdate cleared t with (Ok task'', t1) => (Ok task'', (t1, e)) | (Err _, t1) => (Ok cleared, (t1, e)) end
  else says task'.
Definition bullet_list (extra : list gostring) : gostring :=
  match extra with [] => [] | _ => nl ++ #"- " ++ Join extra (nl ++ #"- ") end.
Definition budget_line (task : AgentTask) (budgetUSD : gostring) : list gostring :=
  if str_eqb budgetUSD [] then []
  else [ #"**Budget**: `$" ++ FormatFixed2 (amount (TrimPrefix (sp_BudgetUSD (tk_Spec task)) #"$")) ++ #"` (+`$" ++ budgetUSD ++
         #"` added)"].
Definition executeSuspendTaskCommand (ns repoURL : gostring) (prNumber : Z) (suspend : bool) (budgetUSD : gostring) (tokens : Z)
    : cmd gostring :=
  let^ matched := matched_tasks CmdApi ns repoURL prNumber in
  let^ done := each (suspend_one suspend budgetUSD tokens) matched in
  match done with
  | [] => says (if suspend then #"⚠️ No active agent task found to pause for this PR/MR."
                else #"⚠️ No active agent task found to resume for this PR/MR.")
  | task :: _ =>
      if suspend then
        says (#"⏸️ **Agent task paused**: `" ++ tk_Name task ++ #"`" ++ nl ++ nl ++
              #"Execution suspended. Resume anytime with `/diverge resume` or `/diverge resume +$5`.")
      else
        says (#"▶️ **Agent task resumed**: `" ++ tk_Name task ++ #"`" ++
              bullet_list (budget_line task budgetUSD ++
                           (if 0 <? tokens then [ #"**Tokens**: +" ++ FormatInt tokens ++ #" added"] else [])) ++ nl ++ nl ++
              #"The autonomous loop will continue execution.")
  end.
Definition list_failed (e : api_error) : cmd_error := CmdWrapped #"list agent tasks: " e.
Definition executeBudgetCommand (ns repoURL : gostring) (prNumber : Z) (budgetUSD : gostring) (tokens : Z) : cmd gostring :=
  let^ matched := matched_tasks list_failed ns repoURL prNumber in
  let^ done := each (fun task => on_task CmdApi (task_Update (with_Spec (fun sp => add_tokens tokens (add_budget budgetUSD sp)) task)))
                 matched in
  match done with
  | [] => says #"⚠️ No active agent task found to adjust budget for this PR/MR."
  | task :: _ =>
      says (#"💰 **Agent task budget updated**: `" ++ tk_Name task ++ #"`" ++
            bullet_list (budget_line task budgetUSD ++
                         (if 0 <? tokens
                          then [ #"**Tokens**: `" ++ FormatInt (sp_BudgetTokens (tk_Spec task)) ++ #"` (+" ++ FormatInt tokens ++ #" added)"]
                          else [])) ++ nl ++ nl ++ #"Task suspension state was not modified.")
  end.

(** *** status *)
Definition or_text (s d : gostring) : gostring := if str_eqb s [] then d else s.
Definition task_row (t : AgentTask) : gostring :=
  let sp := tk_Spec t in
  let st := tk_Status t in
  #"| `" ++ tk_Name t ++ #"` | " ++ or_text (st_Phase st) #"Pending" ++ #" | " ++ sp_Objective sp ++ #" | `" ++
  sp_WorkingBranch sp ++ #"` | " ++ or_text (st_CostUSD st) #"$0.00" ++ #" (" ++ FormatInt (st_TokensConsumed st) ++ #" tokens) | " ++
  (if sp_Suspended sp then #"Yes (Paused)" else #"No") ++ #" |" ++ nl.
Definition env_row (env : Environment) : gostring :=
  let urlCell := if str_eqb (et_URL (ev_Status env)) [] then #"Provisioning..." else #"[🔗 Open Preview](" ++ et_URL (ev_Status env) ++ #")" in
  #"| `" ++ ev_Name env ++ #"` | " ++ or_text (et_Phase (ev_Status env)) #"Pending" ++ #" | " ++ urlCell ++ #" |" ++ nl.
Definition executeStatusCommand (ns repoURL : gostring) (prNumber : Z) : cmd gostring :=
  let^ l := list_tasks list_failed ns in
  let^ envs := (fun w => match findMatchingEnvironments ns repoURL prNumber w with
                         | (Err (CmdApi e), w1) => (Err (CmdWrapped #"list environments: " e), w1)
                         | r => r
                         end) in
  let tasks := filter (fun t => matchesTaskPR t repoURL prNumber (Itoa prNumber) = true) l in
  match tasks, envs with
  | [], [] => says (#"ℹ️ No active agent tasks or preview environments found for this PR/MR." ++ nl ++ nl ++
                    #"Use `/diverge fix <objective>` to start an agent task or `/diverge preview` to launch a preview environment.")
  | _, _ =>
      says (#"### 📊 Diverge Status" ++ nl ++ nl ++
            match tasks with
            | [] => []
            | _ => #"#### 🤖 Autonomous Agent Tasks" ++ nl ++ nl ++
                   #"| Task | Phase | Objective | Branch | LLM Spend | Suspended |" ++ nl ++ #"|---|---|---|---|---|---|" ++ nl ++
                   concat (map task_row tasks) ++ nl
            end ++
            match envs with
            | [] => []
            | _ => #"#### 🌐 Preview Environments" ++ nl ++ nl ++ #"| Name | Status | Preview URL |" ++ nl ++ #"|---|---|---|" ++ nl ++
                   concat (map env_row envs) ++ nl
            end ++ #"💡 *Run `/diverge help` to view all available interactive slash commands.*")
  end.

(** ** [ExecuteSlashCommandWithFeedback] *)
Definition ExecuteSlashCommandWithFeedback (ns : gostring) (c : SlashCommand) (repoURL branch : gostring) (prNumber : Z) : cmd gostring :=
  let ns := if str_eqb ns [] then #"default" else ns in
  let branch := if str_eqb branch [] then #"main" else branch in
  let action := cm_Action c in
  if str_eqb action #"fix" then executeFixCommand ns (cm_Objective c) repoURL branch prNumber
  else if str_eqb action #"guide" then executeGuideCommand ns (cm_Guidance c) repoURL prNumber
  else if str_eqb action #"preview" then executePreviewCommand ns repoURL branch prNumber
  else if str_eqb action #"teardown" then executeTeardownCommand ns repoURL prNumber
  else if str_eqb action #"extend-ttl" then executeExtendTTLCommand ns (cm_Duration c) repoURL prNumber
  else if str_eqb action #"pause" then executeSuspendTaskCommand ns repoURL prNumber true [] 0
  else if str_eqb action #"resume" then executeSuspendTaskCommand ns repoURL prNumber false (cm_BudgetUSD c) (cm_Tokens c)
  else if str_eqb action #"budget" then executeBudgetCommand ns repoURL prNumber (cm_BudgetUSD c) (cm_Tokens c)
  else if str_eqb action #"status" then executeStatusCommand ns repoURL prNumber
  else if str_eqb action #"help" then says HelpMessage
  else errs (CmdError (#"unsupported slash command action " ++ Quote action)).
End Execute.
