(* ===== verification/Cluster.v ===== *)
(** * The cluster of the slash commands

    [CmdCluster], which the commands are written against, on an API server
    that keeps environments and preview groups; and the objects a command
    leaves alone. *)

From S2P Require Import Prelude GoStrings GoTime GoURL GoQuote GoDuration TokenStore KubeApi AgentTask AgentTaskService ObjectApi ResourceNames EnvTypes GroupTypes Resources SlashCommands.
Local Open Scope Z_scope.

Record Cluster (EV GV : Type) := mkCluster {
  cl_envs : EV; cl_groups : GV;
  (** the kind [PreviewGroup] is installed *)
  cl_has_groups : bool }.
Arguments mkCluster {EV GV}. Arguments cl_envs {EV GV}. Arguments cl_groups {EV GV}. Arguments cl_has_groups {EV GV}.

Section Cluster.
Context {EV : Type} {EA : ObjectApi Environment EV} {EU : UpsertApi Environment EV}.
Context {GV : Type} {GA : ObjectApi PreviewGroup GV}.
Abbreviation cluster := (Cluster EV GV).
Definition in_envs {B} (f : EV -> B * EV) (c : cluster) : B * cluster :=
  let '(b, x) := f (cl_envs c) in (b, mkCluster x (cl_groups c) (cl_has_groups c)).
Definition in_groups {B} (f : GV -> B * GV) (c : cluster) : B * cluster :=
  let '(b, x) := f (cl_groups c) in (b, mkCluster (cl_envs c) x (cl_has_groups c)).
Definition forget {B} (r : ares B) : ares unit := match r with Ok _ => Ok tt | Err e => Err e end.
Definition upsert_failure (r : result upsert_error unit) : ares unit :=
  match r with Ok u => Ok u | Err (ApiFailed e) => Err e | Err (MutateFailed _) => Err OtherError end.
#[export] Instance cmd_cluster : CmdCluster cluster := {
  envs_List ns := in_envs (obj_List ∅ ns);
  envs_Update env := in_envs (fun x => let '(r, x1) := obj_Update env x in (forget r, x1));
  envs_Delete k := in_envs (obj_Delete (Ob := Environment) None k);
  envs_CreateOrUpdate k f := in_envs (fun x =>
    let '(r, x1) := obj_CreateOrUpdate (new_environment (fst k) (snd k)) (fun e => Ok (f e)) x in (upsert_failure r, x1));
  groups_List c :=
    if cl_has_groups c then in_groups (fun x => let '(r, x1) := obj_List ∅ [] x in (Some <$> r, x1)) c else (Ok None, c);
  groups_Update pg := in_groups (fun x => let '(r, x1) := obj_Update pg x in (forget r, x1));
  groups_Delete k := in_groups (obj_Delete (Ob := PreviewGroup) None k) }.
End Cluster.

(** ** What a command leaves alone *)
Section Confined.
Context {U : GoUnicode} {N : GoNetip}.
Context {T : Type} {C : TaskClient T} {A : TaskAdmin T} {P : TaskUpsert T}.
Context {EV : Type} {EA : ObjectApi Environment EV} {EU : UpsertApi Environment EV} {EL : ObjectApiLaws Environment EV} {EUL : UpsertApiLaws Environment EV}.
Context {GV : Type} {GA : ObjectApi PreviewGroup GV} {GL : ObjectApiLaws PreviewGroup GV}.
Context (traceparent : gostring) (now : Time).
Abbreviation cluster := (Cluster EV GV).
Abbreviation cmd := (cmd (T := T) (E := cluster)).

(** [m], from a cluster of [I], ends in one, with an answer of [Q]. *)
Definition guards (I : cluster -> Prop) {X} (m : cmd X) (Q : X -> Prop) : Prop :=
  forall w, I (snd w) -> I (snd (snd (m w))) /\ match fst (m w) with Ok x => Q x | Err _ => True end.
Section Guards.
Context (I : cluster -> Prop).
Lemma guards_andthen {X Y} (m : cmd X) (f : X -> cmd Y) Q Q' : guards I m Q -> (forall x, Q x -> guards I (f x) Q') -> guards I (andthen m f) Q'.
Proof.
  intros Hm Hf w Hw. unfold andthen. specialize (Hm w Hw). destruct (m w) as [[x|e] w1]; cbn in *; [|tauto].
  destruct Hm as [H1 H2]. by apply (Hf x H2).
Qed.
Lemma guards_says {X} (x : X) (Q : X -> Prop) : Q x -> guards I (says x) Q.
Proof. by intros HQ w Hw. Qed.
Lemma guards_errs {X} e (Q : X -> Prop) : guards I (errs e) Q.
Proof. by intros w Hw. Qed.
Lemma guards_task {X} wrap (f : T -> ares X * T) : guards I (on_task wrap f) (fun _ => True).
Proof. intros [ts e] Hw. unfold on_task. destruct (f ts) as [[x|x] t1]; by split. Qed.
Lemma guards_true {X} (m : cmd X) Q : guards I m Q -> guards I m (fun _ => True).
Proof. intros Hm w Hw. destruct (Hm w Hw) as [H1 _]. split; [done|]. by destruct (fst (m w)). Qed.
Lemma guards_each {X Y} (f : X -> cmd Y) l : Forall (fun x => guards I (f x) (fun _ => True)) l -> guards I (each f l) (fun _ => True).
Proof.
  induction 1 as [|x l Hx Hl IH]; [by apply guards_says|]. eapply guards_andthen; [exact Hx|]. intros y _.
  eapply guards_andthen; [exact IH|]. intros ys _. by apply guards_says.
Qed.
Lemma guards_each_task {X Y} wrap (f : X -> T -> ares Y * T) l : guards I (each (fun x => on_task wrap (f x)) l) (fun _ => True).
Proof. apply guards_each, Forall_true. intros x. apply guards_task. Qed.
Lemma guards_env {X} wrap (f : cluster -> ares X * cluster) Q :
  (forall c, I c -> I (snd (f c)) /\ match fst (f c) with Ok x => Q x | Err _ => True end) -> guards I (on_env wrap f) Q.
Proof. intros Hf [ts c] Hw. unfold on_env. specialize (Hf c Hw). by destruct (f c) as [[x|x] c1]. Qed.
Lemma guards_list_tasks wrap ns : guards I (list_tasks wrap ns) (fun _ => True).
Proof. eapply guards_andthen; [apply guards_task|]. intros l _. by apply guards_says. Qed.
Lemma guards_matched wrap ns repoURL prNumber : guards I (matched_tasks wrap ns repoURL prNumber) (fun _ => True).
Proof. eapply guards_andthen; [apply guards_list_tasks|]. intros l _. by apply guards_says. Qed.
Lemma guards_suspend_one suspend usd tokens t0 : guards I (suspend_one suspend usd tokens t0) (fun _ => True).
Proof.
  eapply guards_andthen; [apply guards_task|]. intros t' _. destruct (_ && _); [|by apply guards_says].
  intros [ts e] Hw. cbn. by destruct (task_StatusUpdate _ ts) as [[t2|x] ts1].
Qed.
(** The commands on tasks only. *)
Lemma guards_fix ns objective repoURL branch prNumber : guards I (executeFixCommand ns objective repoURL branch prNumber) (fun _ => True).
Proof.
  unfold executeFixCommand. destruct (str_eqb _ _); [apply guards_errs|]. eapply guards_andthen; [apply guards_task|]. intros x _. by apply guards_says.
Qed.
Lemma guards_guide ns guidance repoURL prNumber : guards I (executeGuideCommand now ns guidance repoURL prNumber) (fun _ => True).
Proof.
  unfold executeGuideCommand. destruct (str_eqb _ _); [apply guards_errs|]. eapply guards_andthen; [apply guards_list_tasks|]. intros l _. cbv zeta.
  destruct (filter _ l) as [|t more]; [by apply guards_says|]. eapply guards_andthen; [apply guards_each_task|]. intros x _. destruct more; by apply guards_says.
Qed.
Lemma guards_suspend ns repoURL prNumber suspend usd tokens : guards I (executeSuspendTaskCommand ns repoURL prNumber suspend usd tokens) (fun _ => True).
Proof.
  eapply guards_andthen; [apply guards_matched|]. intros l _.
  eapply guards_andthen; [apply guards_each, Forall_true; intros t; apply guards_suspend_one|]. intros [|t more] _; [by apply guards_says|].
  destruct suspend; by apply guards_says.
Qed.
Lemma guards_budget ns repoURL prNumber usd tokens : guards I (executeBudgetCommand ns repoURL prNumber usd tokens) (fun _ => True).
Proof.
  eapply guards_andthen; [apply guards_matched|]. intros l _. eapply guards_andthen; [apply guards_each_task|]. intros [|t more] _; by apply guards_says.
Qed.
End Guards.

(** *** An environment *)
Section Env.
Context (k : obj_key) (env : Environment).
Definition env_stays (c : cluster) : Prop := stored (cl_envs c) !! k = Some env.
(** The environment is not of the pull request. *)
Definition env_unmatched (ns repoURL : gostring) (prNumber : Z) : Prop :=
  prNumber <= 0 \/ (ns <> [] /\ ev_Namespace env <> ns) \/ env_matches (projectFromRepoURL repoURL) prNumber env = false.
Lemma in_envs_spares {B} (f : EV -> B * EV) : spares k f -> forall c, env_stays c -> env_stays (snd (in_envs f c)).
Proof. intros Hf c Hc. unfold env_stays, in_envs in *. specialize (Hf (cl_envs c)). destruct (f (cl_envs c)) as [b x]. cbn in *. by rewrite Hf. Qed.
Lemma in_groups_spares {B} (f : GV -> B * GV) c : env_stays c -> env_stays (snd (in_groups f c)).
Proof. intros Hc. unfold env_stays, in_groups in *. by destruct (f (cl_groups c)) as [b x]. Qed.
Lemma guards_groups {X} wrap (f : GV -> ares X * GV) : guards env_stays (on_env wrap (in_groups f)) (fun _ => True).
Proof. apply guards_env. intros c Hc. split; [by apply in_groups_spares|]. by destruct (fst _). Qed.
Lemma guards_envs {X} wrap (f : EV -> ares X * EV) : spares k f -> guards env_stays (on_env wrap (in_envs f)) (fun _ => True).
Proof. intros Hf. apply guards_env. intros c Hc. split; [by apply in_envs_spares|]. by destruct (fst _). Qed.
Lemma spares_then {B D} (f : EV -> B * EV) (g : B -> D) : spares k f -> spares k (fun x => let '(r, x1) := f x in (g r, x1)).
Proof. intros Hf x. specialize (Hf x). by destruct (f x). Qed.
Lemma guards_found ns repoURL prNumber : env_unmatched ns repoURL prNumber ->
  guards env_stays (findMatchingEnvironments ns repoURL prNumber) (Forall (fun e => r_key e <> k)).
Proof using EL.
  intros Hu. eapply guards_andthen with (Q := fun l => forall e, e ∈ l -> (r_key e = k -> e = env) /\ (ns = [] \/ ev_Namespace e = ns)).
  - apply guards_env. intros c Hc. split; [by apply in_envs_spares; [apply spares_list|]|]. cbn. unfold in_envs.
    pose proof (obj_List_Ok (Ob := Environment) ∅ ns (cl_envs c)) as Hl. destruct (obj_List ∅ ns (cl_envs c)) as [[l|x] x1]; [|done].
    intros e He. destruct (proj1 (Hl l eq_refl e) He) as [H1 [_ H2]]. split; [|exact H2]. unfold env_stays in Hc. intros <-. apply (inj Some). by rewrite <- H1, <- Hc.
  - intros l Hl. apply guards_says. destruct (prNumber <=? 0) eqn:Hp; [constructor|]. bool_simpl. apply Forall_forall.
    intros e [Hm He]%list_elem_of_filter Hk. destruct (Hl e He) as [H1 H2]. specialize (H1 Hk). subst e.
    destruct Hu as [Hu|[[Hn Hu]|Hu]]; [lia|destruct H2; congruence|congruence].
Qed.
Lemma guards_groups_found repoURL prNumber : guards env_stays (findMatchingPreviewGroups repoURL prNumber) (fun _ => True).
Proof.
  apply guards_andthen with (Q := fun _ => True); [|intros l _; by apply guards_says]. apply guards_env. intros c Hc. cbn.
  destruct (cl_has_groups c); [|by split]. split; [by apply in_groups_spares|]. by destruct (fst _).
Qed.
Lemma guards_each_env {Y} (f : Environment -> cmd Y) l : Forall (fun e => r_key e <> k) l ->
  (forall e, r_key e <> k -> guards env_stays (f e) (fun _ => True)) -> guards env_stays (each f l) (fun _ => True).
Proof. intros Hl Hf. apply guards_each. eapply Forall_impl; [exact Hl|exact Hf]. Qed.
Lemma guards_delete_env wrap e : r_key e <> k ->
  guards env_stays (on_env wrap (ignore_missing (envs_Delete (ev_Namespace e, ev_Name e)))) (fun _ => True).
Proof using EL.
  intros Hk. apply guards_env. intros c Hc. unfold ignore_missing. cbn -[obj_Delete].
  pose proof (in_envs_spares (obj_Delete (Ob := Environment) None (ev_Namespace e, ev_Name e)) ltac:(by apply spares_delete) c Hc) as H.
  destruct (in_envs _ c) as [[[]|[]] c1]; cbn in *; by split.
Qed.
Lemma guards_delete_group wrap k0 : guards env_stays (on_env wrap (ignore_missing (groups_Delete k0))) (fun _ => True).
Proof.
  apply guards_env. intros c Hc. unfold ignore_missing. cbn -[obj_Delete].
  pose proof (in_groups_spares (obj_Delete (Ob := PreviewGroup) None k0) c Hc) as H.
  destruct (in_groups _ c) as [[[]|[]] c1]; cbn in *; by split.
Qed.
Lemma guards_teardown ns repoURL prNumber : env_unmatched ns repoURL prNumber ->
  guards env_stays (executeTeardownCommand ns repoURL prNumber) (fun _ => True).
Proof using EL.
  intros Hu. eapply guards_andthen; [by apply guards_found|]. intros envs He.
  eapply guards_andthen; [apply guards_each_env; [exact He|]; intros e Hk; by apply guards_delete_env|]. intros _ _.
  eapply guards_andthen; [apply guards_groups_found|]. intros pgs _.
  eapply guards_andthen; [apply guards_each, Forall_true; intros pg; apply guards_delete_group|]. intros _ _.
  eapply guards_andthen; [apply guards_matched|]. intros l _. eapply guards_andthen; [apply guards_each_task|]. intros x _. by apply guards_says.
Qed.
Lemma guards_extend ns dur repoURL prNumber : env_unmatched ns repoURL prNumber ->
  guards env_stays (executeExtendTTLCommand ns dur repoURL prNumber) (fun _ => True).
Proof using EL.
  intros Hu. eapply guards_andthen; [by apply guards_found|]. intros envs He.
  eapply guards_andthen; [apply guards_each_env; [exact He|]; intros e Hk; apply guards_envs, spares_then, spares_update; exact Hk|]. intros _ _.
  eapply guards_andthen; [apply guards_groups_found|]. intros pgs _.
  eapply guards_andthen; [apply guards_each, Forall_true; intros pg; apply guards_groups|]. intros _ _. by apply guards_says.
Qed.
Lemma guards_preview ns repoURL branch prNumber :
  k <> (ns, previewEnvName (if str_eqb (providerFromRepoURL repoURL) #"gitlab" then #"mr" else #"pr") (projectFromRepoURL repoURL) prNumber) ->
  guards env_stays (executePreviewCommand traceparent ns repoURL branch prNumber) (fun _ => True).
Proof using EL EUL.
  intros Hk. eapply guards_andthen; [|intros _ _; by apply guards_says]. apply guards_envs, spares_then, spares_upsert. intros H. apply Hk. by rewrite <- H.
Qed.
Lemma guards_status ns repoURL prNumber : guards env_stays (executeStatusCommand ns repoURL prNumber) (fun _ => True).
Proof using EL.
  eapply guards_andthen; [apply guards_list_tasks|]. intros l _.
  apply guards_andthen with (Q := fun _ => True).
  - intros w Hw. assert (env_stays (snd (snd (findMatchingEnvironments (T := T) (E := cluster) ns repoURL prNumber w)))) as H.
    { apply (guards_andthen env_stays (list_envs ns) _ (fun _ => True) (fun _ => True)); [|intros x _; by apply guards_says|exact Hw].
      apply guards_envs, spares_list. }
    destruct (findMatchingEnvironments ns repoURL prNumber w) as [[x|[]] w1]; by split.
  - intros envs _. destruct (filter _ l), envs; by apply guards_says.
Qed.
(** A command leaves an environment alone that is not of the pull request. *)
Lemma command_spares_env ns c repoURL branch prNumber : env_unmatched (if str_eqb ns [] then #"default" else ns) repoURL prNumber ->
  (cm_Action c = #"preview" -> k <> ((if str_eqb ns [] then #"default" else ns),
     previewEnvName (if str_eqb (providerFromRepoURL repoURL) #"gitlab" then #"mr" else #"pr") (projectFromRepoURL repoURL) prNumber)) ->
  guards env_stays (ExecuteSlashCommandWithFeedback traceparent now ns c repoURL branch prNumber) (fun _ => True).
Proof using EL EUL.
  intros Hu Hp. unfold ExecuteSlashCommandWithFeedback. cbv zeta. set (ns' := if str_eqb ns [] then _ else ns) in *. clearbody ns'.
  destruct (str_eqb _ #"fix"); [apply guards_fix|]. destruct (str_eqb _ #"guide"); [apply guards_guide|].
  unfold str_eqb at 1. case_bool_decide as Ha; [by apply guards_preview, Hp|].
  destruct (str_eqb _ #"teardown"); [by apply guards_teardown|]. destruct (str_eqb _ #"extend-ttl"); [by apply guards_extend|].
  destruct (str_eqb _ #"pause"); [apply guards_suspend|]. destruct (str_eqb _ #"resume"); [apply guards_suspend|].
  destruct (str_eqb _ #"budget"); [apply guards_budget|]. destruct (str_eqb _ #"status"); [apply guards_status|].
  destruct (str_eqb _ #"help"); [by apply guards_says|apply guards_errs].
Qed.
End Env.

(** *** A preview group *)
Section Group.
Context (k : obj_key) (pg : PreviewGroup).
Definition group_stays (c : cluster) : Prop := stored (cl_groups c) !! k = Some pg.
Definition group_unmatched (repoURL : gostring) (prNumber : Z) : Prop :=
  prNumber <= 0 \/ group_matches (projectFromRepoURL repoURL) prNumber pg = false.
Lemma in_envs_group {B} (f : EV -> B * EV) c : group_stays c -> group_stays (snd (in_envs f c)).
Proof. intros Hc. unfold group_stays, in_envs in *. by destruct (f (cl_envs c)) as [b x]. Qed.
Lemma in_groups_group {B} (f : GV -> B * GV) : spares k f -> forall c, group_stays c -> group_stays (snd (in_groups f c)).
Proof. intros Hf c Hc. unfold group_stays, in_groups in *. specialize (Hf (cl_groups c)). destruct (f (cl_groups c)) as [b x]. cbn in *. by rewrite Hf. Qed.
Lemma guards_any_env {X} wrap (f : EV -> ares X * EV) : guards group_stays (on_env wrap (in_envs f)) (fun _ => True).
Proof. apply guards_env. intros c Hc. split; [by apply in_envs_group|]. by destruct (fst _). Qed.
Lemma guards_other_group {X} wrap (f : GV -> ares X * GV) : spares k f -> guards group_stays (on_env wrap (in_groups f)) (fun _ => True).
Proof. intros Hf. apply guards_env. intros c Hc. split; [by apply in_groups_group|]. by destruct (fst _). Qed.
Lemma spares_group_then {B D} (f : GV -> B * GV) (g : B -> D) : spares k f -> spares k (fun x => let '(r, x1) := f x in (g r, x1)).
Proof. intros Hf x. specialize (Hf x). by destruct (f x). Qed.
Lemma guards_any_found ns repoURL prNumber : guards group_stays (findMatchingEnvironments ns repoURL prNumber) (fun _ => True).
Proof. eapply guards_andthen; [apply guards_any_env|]. intros l _. by apply guards_says. Qed.
Lemma guards_group_found repoURL prNumber : group_unmatched repoURL prNumber ->
  guards group_stays (findMatchingPreviewGroups repoURL prNumber) (Forall (fun g => r_key g <> k)).
Proof using GL.
  intros Hu. eapply guards_andthen with (Q := fun o => forall l, o = Some l -> forall g, g ∈ l -> r_key g = k -> g = pg).
  - apply guards_env. intros c Hc. cbn. destruct (cl_has_groups c); [|by split].
    split; [by apply in_groups_group; [apply spares_group_then, spares_list|]|]. unfold in_groups.
    pose proof (obj_List_Ok (Ob := PreviewGroup) ∅ [] (cl_groups c)) as Hl. destruct (obj_List ∅ [] (cl_groups c)) as [[l|x] x1]; cbn; [|done].
    intros l' [= <-] g Hg Hk. destruct (proj1 (Hl l eq_refl g) Hg) as [H1 _]. unfold group_stays in Hc. subst k. apply (inj Some). by rewrite <- H1, <- Hc.
  - intros [l|] Hl; apply guards_says; [|constructor]. destruct (prNumber <=? 0) eqn:Hp; [constructor|]. bool_simpl. apply Forall_forall.
    intros g [Hm Hg]%list_elem_of_filter Hk. specialize (Hl l eq_refl g Hg Hk). subst g. destruct Hu as [Hu|Hu]; [lia|congruence].
Qed.
Lemma guards_delete_any_env wrap e : guards group_stays (on_env wrap (ignore_missing (envs_Delete e))) (fun _ => True).
Proof.
  apply guards_env. intros c Hc. unfold ignore_missing. cbn -[obj_Delete].
  pose proof (in_envs_group (obj_Delete (Ob := Environment) None e) c Hc) as H. destruct (in_envs _ c) as [[[]|[]] c1]; cbn in *; by split.
Qed.
Lemma guards_delete_other_group wrap g : r_key g <> k ->
  guards group_stays (on_env wrap (ignore_missing (groups_Delete (pg_Namespace g, pg_Name g)))) (fun _ => True).
Proof using GL.
  intros Hk. apply guards_env. intros c Hc. unfold ignore_missing. cbn -[obj_Delete].
  pose proof (in_groups_group (obj_Delete (Ob := PreviewGroup) None (pg_Namespace g, pg_Name g)) ltac:(by apply spares_delete) c Hc) as H.
  destruct (in_groups _ c) as [[[]|[]] c1]; cbn in *; by split.
Qed.
Lemma guards_each_group {Y} (f : PreviewGroup -> cmd Y) l : Forall (fun g => r_key g <> k) l ->
  (forall g, r_key g <> k -> guards group_stays (f g) (fun _ => True)) -> guards group_stays (each f l) (fun _ => True).
Proof. intros Hl Hf. apply guards_each. eapply Forall_impl; [exact Hl|exact Hf]. Qed.
(** And a preview group. *)
Lemma command_spares_group ns c repoURL branch prNumber : group_unmatched repoURL prNumber ->
  guards group_stays (ExecuteSlashCommandWithFeedback traceparent now ns c repoURL branch prNumber) (fun _ => True).
Proof using GL.
  intros Hu. unfold ExecuteSlashCommandWithFeedback. cbv zeta. generalize (if str_eqb ns [] then #"default" else ns). intros ns'.
  destruct (str_eqb _ #"fix"); [apply guards_fix|]. destruct (str_eqb _ #"guide"); [apply guards_guide|].
  destruct (str_eqb _ #"preview"). { eapply guards_andthen; [apply guards_any_env|]. intros _ _. by apply guards_says. }
  destruct (str_eqb _ #"teardown").
  { eapply guards_andthen; [apply guards_any_found|]. intros envs _.
    eapply guards_andthen; [apply guards_each, Forall_true; intros e; apply guards_delete_any_env|]. intros _ _.
    eapply guards_andthen; [by apply guards_group_found|]. intros pgs Hg.
    eapply guards_andthen; [apply guards_each_group; [exact Hg|]; intros g Hk; by apply guards_delete_other_group|]. intros _ _.
    eapply guards_andthen; [apply guards_matched|]. intros l _. eapply guards_andthen; [apply guards_each_task|]. intros x _. by apply guards_says. }
  destruct (str_eqb _ #"extend-ttl").
  { eapply guards_andthen; [apply guards_any_found|]. intros envs _.
    eapply guards_andthen; [apply guards_each, Forall_true; intros e; apply guards_any_env|]. intros _ _.
    eapply guards_andthen; [by apply guards_group_found|]. intros pgs Hg.
    eapply guards_andthen; [apply guards_each_group; [exact Hg|]; intros g Hk; apply guards_other_group, spares_group_then, spares_update; exact Hk|].
    intros _ _. by apply guards_says. }
  destruct (str_eqb _ #"pause"); [apply guards_suspend|]. destruct (str_eqb _ #"resume"); [apply guards_suspend|].
  destruct (str_eqb _ #"budget"); [apply guards_budget|].
  destruct (str_eqb _ #"status").
  { eapply guards_andthen; [apply guards_list_tasks|]. intros l _. apply guards_andthen with (Q := fun _ => True).
    - intros w Hw. assert (group_stays (snd (snd (findMatchingEnvironments (T := T) (E := cluster) ns' repoURL prNumber w)))) as H
        by (by apply guards_any_found).
      destruct (findMatchingEnvironments ns' repoURL prNumber w) as [[x|[]] w1]; by split.
    - intros envs _. destruct (filter _ l), envs; by apply guards_says. }
  destruct (str_eqb _ #"help"); [by apply guards_says|apply guards_errs].
Qed.
End Group.
End Confined.
