(* ===== verification/Webhook.v ===== *)
(** * Webhooks

    The world the handlers of [internal/webhook] act on, and what the GitHub
    and the GitLab handlers share: the identifiers of deliveries, the lookup
    of an environment, the settings of an environment from a repository, and
    the comment that answers a command.  The handlers have a client of the
    cluster.  Metrics and log lines are not modelled. *)

From S2P Require Import Prelude EarlyReturn GoStrings GoTime GoURL KubeApi AgentTask Dedup ObjectApi EnvTypes GroupTypes Resources.
From S2P Require Import AgentTaskService Config DotDiverge SlashCommands Cluster WebhookTypes.
Local Open Scope Z_scope.

(** ** The world *)
Record web_world (T EV GV : Type) := mkWeb {
  wb_tasks : T; wb_cluster : Cluster EV GV;
  (** the deliveries seen, without the check when absent *)
  wb_seen : option Dedup.entries;
  (** the comments asked for, and the addresses asked for a pull request *)
  wb_comments : list (gostring * Z * gostring); wb_requests : list URL }.
Arguments mkWeb {T EV GV}. Arguments wb_tasks {T EV GV}. Arguments wb_cluster {T EV GV}. Arguments wb_seen {T EV GV}.
Arguments wb_comments {T EV GV}. Arguments wb_requests {T EV GV}.

(** A GET with the token to present, if any. *)
Definition pr_client : Type := URL -> gostring -> result gostring Response.
(** The handlers, of both providers. *)
Record WebhookHandler := mkHandler {
  wk_SecretToken : gostring; wk_ConfigFetcher : option ConfigFetcher; wk_Commenter : bool; wk_HTTPClient : option pr_client;
  wk_AllowedUsers : list gostring; wk_DefaultNS : gostring }.
(** Code that is not of the program, the process environment and the time. *)
Record Outside := mkOutside {
  ot_dot : dot_decoder; ot_config : gostring -> result gostring Config; ot_duration_text : gostring -> gostring;
  ot_api_text : api_error -> gostring; ot_tracing : Tracing; ot_now : Time; ot_GITHUB_TOKEN : gostring; ot_client : pr_client }.

Definition default_ns (h : WebhookHandler) : gostring := if str_eqb (wk_DefaultNS h) [] then #"default" else wk_DefaultNS h.
Definition authorized_associations : list gostring := [ #"OWNER"; #"MEMBER"; #"COLLABORATOR"].
Definition cmd_text (o : Outside) (e : cmd_error) : gostring :=
  match e with CmdError m => m | CmdApi e => ot_api_text o e | CmdWrapped what e => what ++ ot_api_text o e end.

Section Webhook.
Context {U : GoUnicode} {N : GoNetip} {O : AgeOrder}.
Context {T : Type} {C : TaskClient T} {A : TaskAdmin T} {P : TaskUpsert T}.
Context {EV : Type} {EA : ObjectApi Environment EV} {EU : UpsertApi Environment EV}.
Context {GV : Type} {GA : ObjectApi PreviewGroup GV} {GU : UpsertApi PreviewGroup GV}.
Abbreviation W := (web_world T EV GV).
(** A handler ends with the status of its answer. *)
Abbreviation R := (run Z W).
Definition on_cluster {B} (f : Cluster EV GV -> B * Cluster EV GV) : R B := on (fun w => let '(b, c) := f (wb_cluster w) in
  (b, mkWeb (wb_tasks w) c (wb_seen w) (wb_comments w) (wb_requests w))).
Definition on_tasks {B} (f : T -> B * T) : R B := on (fun w => let '(b, t) := f (wb_tasks w) in
  (b, mkWeb t (wb_cluster w) (wb_seen w) (wb_comments w) (wb_requests w))).
Definition commanded {B} (m : cmd (T := T) (E := Cluster EV GV) B) : R (result cmd_error B) := on (fun w =>
  let '(r, (t, c)) := m (wb_tasks w, wb_cluster w) in (r, mkWeb t c (wb_seen w) (wb_comments w) (wb_requests w))).

(** [h.Dedup != nil && h.Dedup.IsDuplicate(id)] *)
Definition duplicate (o : Outside) (id : gostring) : R bool := on (fun w =>
  match wb_seen w with
  | None => (false, w)
  | Some m => let '(b, m') := IsDuplicate id (ot_now o) m in
              (b, mkWeb (wb_tasks w) (wb_cluster w) (Some m') (wb_comments w) (wb_requests w))
  end).
Definition postFeedbackComment (h : WebhookHandler) (project : gostring) (prNumber : Z) (body : gostring) : R unit :=
  when (wk_Commenter h && negb (str_eqb project []) && (0 <? prNumber) && negb (str_eqb (TrimSpace body) []))
    (modify (fun w => mkWeb (wb_tasks w) (wb_cluster w) (wb_seen w) (wb_comments w ++ [(project, prNumber, body)]) (wb_requests w))).
Definition command_failed (o : Outside) (action : gostring) (e : cmd_error) : gostring :=
  #"❌ **Diverge Command Error**" ++ nl ++ nl ++ #"Failed to execute `/diverge " ++ action ++ #"`: " ++ cmd_text o e ++ nl ++ nl ++
  #"Run `/diverge help` for a list of available commands.".
(** The branch of the environment of the pull request, empty without one. *)
Definition stored_branch (h : WebhookHandler) (envName : gostring) : R gostring :=
  let! r := on_cluster (in_envs (obj_Get (Ob := Environment) (default_ns h, envName))) in
  ret (match r with Ok env => src_Branch (es_Source (ev_Spec env)) | Err _ => [] end).
(** [m] when the branch is not known yet. *)
Definition or_branch (branch : gostring) (wanted : bool) (m : R gostring) : R gostring :=
  if str_eqb branch [] && wanted then m else ret branch.
Definition effective_repo (repoURL : gostring) : gostring :=
  if str_eqb repoURL [] then #"https://github.com/unknown/repository" else repoURL.

(** A fix: the command, and where it came from on the task it made. *)
Definition handle_fix (h : WebhookHandler) (o : Outside) (traceparent : gostring) (annotate : gmap gostring gostring -> gmap gostring gostring)
    (c : SlashCommand) (repoURL branch : gostring) (prNumber : Z) : R (result cmd_error gostring) :=
  let! r := commanded (ExecuteSlashCommandWithFeedback traceparent (ot_now o) (wk_DefaultNS h) c repoURL branch prNumber) in
  match r with
  | Err e => ret (Err e)
  | Ok feedback =>
      let! got := on_tasks (task_Get (default_ns h, buildCommandTaskName (effective_repo repoURL) prNumber (cm_Objective c))) in
      match got with
      | Err e => ret (Err (CmdApi e))
      | Ok task =>
          let! updated := on_tasks (task_Update (with_Annotations (SetTraceparentAnnotation traceparent (annotate (tk_Annotations task))) task)) in
          ret (match updated with Ok _ => Ok feedback | Err e => Err (CmdApi e) end)
      end
  end.
(** The trace parent of a request, as the context of its handler has it. *)
Definition traceparent_of (o : Outside) (rq : Request) : gostring :=
  TraceparentFromContext (ot_tracing o) (WithTraceparent (ResolveTraceparent (ot_tracing o) rq)).
(** The end of both comment handlers. *)
Definition answer_command (h : WebhookHandler) (o : Outside) (project : gostring) (prNumber : Z) (c : SlashCommand)
    (executed : result cmd_error gostring) : R Z :=
  match executed with
  | Err e =>
      do! postFeedbackComment h project prNumber (command_failed o (cm_Action c) e) in
      ret StatusInternalServerError
  | Ok feedback => do! when (negb (str_eqb feedback [])) (postFeedbackComment h project prNumber feedback) in ret StatusOK
  end.
(** [fix] is the handler's own. *)
Definition run_command (h : WebhookHandler) (o : Outside) (traceparent project : gostring)
    (fix_command : gostring -> gostring -> Z -> R (result cmd_error gostring)) (c : SlashCommand) (repoURL branch : gostring) (prNumber : Z) : R Z :=
  let! r := (if str_eqb (cm_Action c) #"fix" then fix_command repoURL branch prNumber
             else commanded (ExecuteSlashCommandWithFeedback traceparent (ot_now o) (wk_DefaultNS h) c repoURL branch prNumber)) in
  answer_command h o project prNumber c r.

(** ** The settings of an environment *)
Definition without_config (env : Environment) : Environment :=
  let s := ev_Spec env in
  ev_set_Spec (es_set_ServiceConfig None (es_set_Deploy (dep_set_ChangedServices [] (es_Deploy s))
    (es_set_Routing (rt_set_HeaderKey [] (es_Routing s)) s))) env.
Definition with_config (cfg : DotDivergeConfig) (image : gostring) (env : Environment) : Environment :=
  let s := ev_Spec env in
  ev_set_Spec (es_set_ServiceConfig (Some (ToServicePreviewConfig image cfg))
    (es_set_Deploy (dep_set_Namespace #"same" (dep_set_ChangedServices [dd_ServiceName (dot_Spec cfg)] (es_Deploy s)))
      (es_set_Routing (rt_set_HeaderKey (dr_HeaderKey (dd_Routing (dot_Spec cfg))) (es_Routing s)) s))) env.
Definition image_of (project sha : gostring) : gostring := project ++ #":" ++ safeSHA sha 12.
Definition sourced (traceparent : gostring) (src : EnvironmentSource) (env : Environment) : Environment :=
  ev_set_Annotations (SetTraceparentAnnotation traceparent (ev_Annotations env))
    (ev_set_Spec (es_set_Source src (ev_Spec env)) env).
Definition mutate_environment (h : WebhookHandler) (o : Outside) (traceparent : gostring) (src : EnvironmentSource) (env : Environment)
    : result gostring Environment :=
  let env := sourced traceparent src env in
  match wk_ConfigFetcher h with
  | None => Ok (without_config env)
  | Some fetch =>
      match fetch (src_Provider src) (src_Project src) (src_Branch src) with
      | Err e => if Contains (fetch_text e) #"not found" then Ok (without_config env) else Err (fetch_text e)
      | Ok data =>
          cfg ← ParseDotDivergeConfig (ot_dot o) (ot_duration_text o) data;
          Ok (with_config cfg (image_of (src_Project src) (src_CommitSHA src)) env)
      end
  end.
Definition reconcile_environment (h : WebhookHandler) (o : Outside) (traceparent envName : gostring) (src : EnvironmentSource) : R (result upsert_error unit) :=
  on_cluster (in_envs (obj_CreateOrUpdate (new_environment (default_ns h) envName) (mutate_environment h o traceparent src))).
Definition delete_environment (h : WebhookHandler) (envName : gostring) : R (ares unit) :=
  on_cluster (in_envs (ignore_missing (obj_Delete (Ob := Environment) None (default_ns h, envName)))).
(** [if err != nil { 500; return }] *)
Definition or_500 {E B} (r : result E B) : R unit := match r with Ok _ => ret tt | Err _ => finish StatusInternalServerError end.
End Webhook.
