(* ===== verification/WebhookGitHub.v ===== *)
(** * The GitHub webhook: [internal/webhook/github.go] *)

From S2P Require Import Prelude EarlyReturn GoStrings GoCrypto GoTime GoURL GoJSON KubeApi AgentTask Dedup ObjectApi EnvTypes GroupTypes Resources.
From S2P Require Import AgentTaskService SlashCommands Cluster WebhookTypes DotDiverge Webhook.
Local Open Scope Z_scope.

Module GitHub.
Section GitHub.
Context {U : GoUnicode} {V : GoUpper} {N : GoNetip} {O : AgeOrder}.
Context {T : Type} {C : TaskClient T} {A : TaskAdmin T} {P : TaskUpsert T}.
Context {EV : Type} {EA : ObjectApi Environment EV} {EU : UpsertApi Environment EV}.
Context {GV : Type} {GA : ObjectApi PreviewGroup GV}.
Abbreviation W := (web_world T EV GV).
Abbreviation R := (run Z W).
Context (h : WebhookHandler) (o : Outside).

(** ** Pull requests *)
Definition env_name (payload : GitHubPRPayload) : gostring :=
  previewEnvName #"pr" (re_FullName (pp_Repository payload)) (pl_Number (pp_PullRequest payload)).
Definition source_of (payload : GitHubPRPayload) : EnvironmentSource :=
  let pull := pp_PullRequest payload in
  mkSource #"github" (re_FullName (pp_Repository payload)) (pl_Number pull) (hd_Ref (pl_Head pull)) (hd_SHA (pl_Head pull)).
Definition reconcileEnvironment (traceparent : gostring) (payload : GitHubPRPayload) : R (result upsert_error unit) :=
  reconcile_environment h o traceparent (env_name payload) (source_of payload).
Definition deleteEnvironment (payload : GitHubPRPayload) : R (ares unit) := delete_environment h (env_name payload).
Definition normalizeGitHubAction (action : gostring) : gostring :=
  if bool_decide (action ∈ [ #"opened"; #"synchronize"; #"closed"; #"reopened"; #"edited"; #"ready_for_review"]) then action else #"other".
Definition handle_pull_request (traceparent body : gostring) : R Z :=
  match Unmarshal dec_pr_payload no_pr_payload body with
  | None => ret StatusBadRequest
  | Some payload =>
      let action := pp_Action payload in
      if bool_decide (action ∈ [ #"opened"; #"reopened"; #"synchronize"]) then
        let! r := reconcileEnvironment traceparent payload in
        do! or_500 r in ret StatusOK
      else if str_eqb action #"closed" then
        let! r := deleteEnvironment payload in
        do! or_500 r in ret StatusOK
      else ret StatusOK
  end.

(** ** Comments *)
Definition isAuthorizedGitHubCommenter (assoc : gostring) : bool :=
  bool_decide (ToUpper (TrimSpace assoc) ∈ authorized_associations).
Definition known_hosts : list gostring := [ #"api.github.com"; #"localhost"; #"127.0.0.1"; #"::1"].
(** The struct the answer is decoded into. *)
Definition dec_pr_data : decoder GhRefOnly := dec_struct [
  fld #"head" (fun x => x) (fun x _ => x) dec_ref_only].
Definition pr_request (prAPIURL : gostring) : option URL :=
  parsed ← Parse (TrimSpace prAPIURL);
  if bool_decide (u_Scheme parsed ∈ [ #"https"; #"http"]) && bool_decide (ToLower (Hostname parsed) ∈ known_hosts) then Some parsed else None.
Definition pr_http_client (parsed : URL) : option pr_client :=
  match wk_HTTPClient h with
  | Some client => Some client
  | None =>
      if str_eqb (ToLower (Hostname parsed)) #"api.github.com" && str_eqb (TrimSpace (ot_GITHUB_TOKEN o)) [] then None
      else Some (ot_client o)
  end.
Definition maxPRBody : Z := 2 ^ 20.
Definition pr_head_ref (r : result gostring Response) : gostring :=
  match r with
  | Ok resp =>
      if rp_StatusCode resp =? 200 then
        match Decode dec_pr_data (mkGhRefOnly []) (take (Z.to_nat maxPRBody) (rp_Body resp)) with
        | Some d => TrimSpace (ro_Ref d)
        | None => []
        end
      else []
  | Err _ => []
  end.
Definition fetchGitHubPRHeadRef (prAPIURL : gostring) : R gostring :=
  match pr_request prAPIURL with
  | None => ret []
  | Some parsed =>
      match pr_http_client parsed with
      | None => ret []
      | Some client =>
          do! modify (fun w => mkWeb (wb_tasks w) (wb_cluster w) (wb_seen w) (wb_comments w) (wb_requests w ++ [parsed])) in
          ret (pr_head_ref (client parsed (TrimSpace (ot_GITHUB_TOKEN o))))
      end
  end.
Definition annotate_fix (payload : GitHubIssueCommentPayload) (prNumber : Z) (a : gmap gostring gostring) : gmap gostring gostring :=
  let project := cr_FullName (cy_Repository payload) in
  let a := <[ #"divergedev.com/provider" := #"github"]> a in
  let a := if str_eqb project [] then a else <[ #"divergedev.com/project" := project]> a in
  if 0 <? prNumber then <[ #"divergedev.com/pr-number" := Itoa prNumber]> a else a.
Definition handleFixCommand (traceparent : gostring) (payload : GitHubIssueCommentPayload) (c : SlashCommand) (repoURL branch : gostring)
    (prNumber : Z) : R (result cmd_error gostring) :=
  handle_fix h o traceparent (annotate_fix payload prNumber) c repoURL branch prNumber.
Definition pr_number (payload : GitHubIssueCommentPayload) : Z :=
  if iu_Number (cy_Issue payload) =? 0 then cp_Number (cy_PullRequest payload) else iu_Number (cy_Issue payload).
Definition repo_url (payload : GitHubIssueCommentPayload) : gostring :=
  let r := cy_Repository payload in
  if negb (str_eqb (cr_CloneURL r) []) then cr_CloneURL r
  else if negb (str_eqb (cr_HTMLURL r) []) then cr_HTMLURL r
  else if negb (str_eqb (cr_FullName r) []) then #"https://github.com/" ++ cr_FullName r else [].
Definition link_of (payload : GitHubIssueCommentPayload) : gostring := from_option lk_URL [] (iu_PullRequest (cy_Issue payload)).
Definition branch_of (payload : GitHubIssueCommentPayload) : R gostring :=
  let project := cr_FullName (cy_Repository payload) in
  let branch := TrimSpace (ro_Ref (cp_Head (cy_PullRequest payload))) in
  let! branch := or_branch branch (negb (str_eqb (link_of payload) [])) (fetchGitHubPRHeadRef (link_of payload)) in
  let! branch := or_branch branch (negb (str_eqb project []) && (0 <? pr_number payload))
                   (stored_branch h (previewEnvName #"pr" project (pr_number payload))) in
  let branch := if str_eqb branch [] then cr_DefaultBranch (cy_Repository payload) else branch in
  ret (if str_eqb branch [] then #"main" else branch).
(** The command a comment asks for, when it may. *)
Definition requested (payload : GitHubIssueCommentPayload) : option SlashCommand :=
  let action := cy_Action payload in
  if negb (str_eqb action []) && negb (str_eqb action #"created") then None
  else if negb (bool_decide (is_Some (iu_PullRequest (cy_Issue payload)))) && (cp_Number (cy_PullRequest payload) =? 0) then None
  else if negb (isAuthorizedGitHubCommenter (co_AuthorAssociation (cy_Comment payload))) then None
  else ParseSlashCommand (co_Body (cy_Comment payload)).
Definition handleIssueComment (traceparent body : gostring) : R Z :=
  match Unmarshal dec_comment_payload no_comment_payload body with
  | None => ret StatusBadRequest
  | Some payload =>
      match requested payload with
      | None => ret StatusOK
      | Some c =>
          let! branch := branch_of payload in
          run_command h o traceparent (cr_FullName (cy_Repository payload)) (handleFixCommand traceparent payload c) c (repo_url payload) branch (pr_number payload)
      end
  end.

(** ** Requests *)
Definition signature (body : gostring) : gostring := #"sha256=" ++ hex_encode (hmac_sha256 (wk_SecretToken h) body).
(** Method, body and signature: the body of a request that may be handled, or
    the answer. *)
Definition authenticate (rq : Request) : R gostring :=
  do! when (negb (str_eqb (rq_Method rq) #"POST")) (finish StatusMethodNotAllowed) in
  match ReadAll maxBody rq with
  | None => finish StatusBadRequest
  | Some body =>
      do! when (str_eqb (TrimSpace (wk_SecretToken h)) []) (finish StatusUnauthorized) in
      let sent := Header_Get rq #"X-Hub-Signature-256" in
      do! when (str_eqb sent []) (finish StatusUnauthorized) in
      do! when (negb (str_eqb sent (signature body))) (finish StatusUnauthorized) in
      ret body
  end.
Definition ServeHTTP (rq : Request) : W -> Z * W := returned (
  let traceparent := traceparent_of o rq in
  let! body := authenticate rq in
  let! seen := duplicate o (Header_Get rq #"X-GitHub-Delivery") in
  do! when seen (finish StatusOK) in
  let event := Header_Get rq #"X-GitHub-Event" in
  if str_eqb event #"issue_comment" then handleIssueComment traceparent body
  else if negb (str_eqb event #"pull_request") then ret StatusOK
  else handle_pull_request traceparent body).
End GitHub.
End GitHub.
