(* ===== verification/WebhookGitLab.v ===== *)
(** * The GitLab webhooks: [internal/webhook/gitlab.go] and
    [gitlab_previewgroup.go] *)

From S2P Require Import GoSort Prelude EarlyReturn GoStrings GoCrypto GoTime GoURL GoDuration GoJSON KubeApi AgentTask Dedup ObjectApi EnvTypes GroupTypes Resources.
From S2P Require Import AgentTaskService Config SlashCommands Cluster WebhookTypes DotDiverge Webhook.
Local Open Scope Z_scope.

(** [ValidateGitLabWebhookToken] *)
Definition ValidateGitLabWebhookToken (rq : Request) (expectedToken : gostring) : bool :=
  let token := Header_Get rq #"X-Gitlab-Token" in
  if str_eqb (TrimSpace expectedToken) [] || str_eqb (TrimSpace token) [] then false else str_eqb token expectedToken.
Definition normalizeGitLabAction (action : gostring) : gostring :=
  if bool_decide (action ∈ [ #"open"; #"reopen"; #"update"; #"merge"; #"close"; #"approved"; #"unapproved"]) then action else #"other".
Definition mr_source (payload : GitLabMRPayload) : EnvironmentSource :=
  let a := my_ObjectAttributes payload in
  mkSource #"gitlab" (gj_PathWithNamespace (my_Project payload)) (mr_IID a) (mr_SourceBranch a) (gc_ID (mr_LastCommit a)).
Definition opening_actions : list gostring := [ #"open"; #"reopen"; #"update"].
Definition closing_actions : list gostring := [ #"merge"; #"close"].

Module GitLab.
Section GitLab.
Context {U : GoUnicode} {V : GoUpper} {N : GoNetip} {O : AgeOrder}.
Context {T : Type} {C : TaskClient T} {A : TaskAdmin T} {P : TaskUpsert T}.
Context {EV : Type} {EA : ObjectApi Environment EV} {EU : UpsertApi Environment EV}.
Context {GV : Type} {GA : ObjectApi PreviewGroup GV}.
Abbreviation W := (web_world T EV GV).
Abbreviation R := (run Z W).
Context (h : WebhookHandler) (o : Outside).

(** ** Merge requests *)
Definition env_name (payload : GitLabMRPayload) : gostring :=
  previewEnvName #"mr" (gj_PathWithNamespace (my_Project payload)) (mr_IID (my_ObjectAttributes payload)).
Definition reconcileEnvironment (traceparent : gostring) (payload : GitLabMRPayload) : R (result upsert_error unit) :=
  reconcile_environment h o traceparent (env_name payload) (mr_source payload).
Definition deleteEnvironment (payload : GitLabMRPayload) : R (ares unit) := delete_environment h (env_name payload).
Definition handle_merge_request (traceparent : gostring) (payload : GitLabMRPayload) : R Z :=
  let action := mr_Action (my_ObjectAttributes payload) in
  if bool_decide (action ∈ opening_actions) then
    let! r := reconcileEnvironment traceparent payload in
    do! or_500 r in ret StatusOK
  else if bool_decide (action ∈ closing_actions) then
    let! r := deleteEnvironment payload in
    do! or_500 r in ret StatusOK
  else ret StatusOK.

(** ** Notes *)
Definition isAuthorizedGitLabCommenter (payload : GitLabNotePayload) : bool :=
  let username := TrimSpace (us_Username (ny_User payload)) in
  let assoc := ToUpper (TrimSpace (na_AuthorAssociation (ny_ObjectAttributes payload))) in
  if str_eqb username [] && (us_ID (ny_User payload) <=? 0) then false
  else if negb (str_eqb assoc []) && negb (bool_decide (assoc ∈ authorized_associations ++ [ #"MAINTAINER"; #"DEVELOPER"])) then false
  else match wk_AllowedUsers h with
       | [] => true
       | allowed => existsb (fun u => EqualFold (TrimSpace u) username) allowed
       end.
Definition annotate_fix (payload : GitLabNotePayload) (mrIID : Z) (a : gmap gostring gostring) : gmap gostring gostring :=
  let project := nj_PathWithNamespace (ny_Project payload) in
  let a := <[ #"divergedev.com/provider" := #"gitlab"]> a in
  let a := if str_eqb project [] then a else <[ #"divergedev.com/project" := project]> a in
  if 0 <? mrIID then <[ #"divergedev.com/pr-number" := Itoa mrIID]> (<[ #"divergedev.com/mr-iid" := Itoa mrIID]> a) else a.
Definition handleFixCommand (traceparent : gostring) (payload : GitLabNotePayload) (c : SlashCommand) (repoURL branch : gostring) (mrIID : Z)
    : R (result cmd_error gostring) :=
  handle_fix h o traceparent (annotate_fix payload mrIID) c repoURL branch mrIID.
Definition mr_iid (payload : GitLabNotePayload) : Z :=
  if nm_IID (ny_MergeRequest payload) =? 0 then na_IID (ny_ObjectAttributes payload) else nm_IID (ny_MergeRequest payload).
Definition repo_url (payload : GitLabNotePayload) : gostring :=
  let p := ny_Project payload in
  if negb (str_eqb (nj_GitHTTPURL p) []) then nj_GitHTTPURL p
  else if negb (str_eqb (nj_WebURL p) []) then nj_WebURL p
  else if negb (str_eqb (nj_PathWithNamespace p) []) then #"https://gitlab.com/" ++ nj_PathWithNamespace p else [].
Definition branch_of (payload : GitLabNotePayload) : R gostring :=
  let project := nj_PathWithNamespace (ny_Project payload) in
  let branch := TrimSpace (nm_SourceBranch (ny_MergeRequest payload)) in
  let branch := if str_eqb branch [] then TrimSpace (na_SourceBranch (ny_ObjectAttributes payload)) else branch in
  let! branch := or_branch branch (negb (str_eqb project []) && (0 <? mr_iid payload))
                   (stored_branch h (previewEnvName #"mr" project (mr_iid payload))) in
  ret (if str_eqb branch [] then #"main" else branch).
Definition requested (payload : GitLabNotePayload) : option SlashCommand :=
  if negb (str_eqb (na_NoteableType (ny_ObjectAttributes payload)) #"MergeRequest") ||
     ((nm_IID (ny_MergeRequest payload) <=? 0) && (na_IID (ny_ObjectAttributes payload) <=? 0)) then None
  else if negb (isAuthorizedGitLabCommenter payload) then None
  else ParseSlashCommand (na_Note (ny_ObjectAttributes payload)).
Definition handleNoteEvent (traceparent body : gostring) : R Z :=
  match Unmarshal dec_note_payload no_note_payload body with
  | None => ret StatusBadRequest
  | Some payload =>
      match requested payload with
      | None => ret StatusOK
      | Some c =>
          let! branch := branch_of payload in
          run_command h o traceparent (nj_PathWithNamespace (ny_Project payload)) (handleFixCommand traceparent payload c) c (repo_url payload) branch (mr_iid payload)
      end
  end.

(** ** Requests *)
(** Method and token. *)
Definition authenticate (rq : Request) : R unit :=
  do! when (negb (str_eqb (rq_Method rq) #"POST")) (finish StatusMethodNotAllowed) in
  when (negb (ValidateGitLabWebhookToken rq (wk_SecretToken h))) (finish StatusUnauthorized).
Definition ServeHTTP (rq : Request) : W -> Z * W := returned (
  let traceparent := traceparent_of o rq in
  do! authenticate rq in
  let! seen := duplicate o (Header_Get rq #"X-Gitlab-Event-UUID") in
  do! when seen (finish StatusOK) in
  match ReadAll maxBody rq with
  | None => finish StatusBadRequest
  | Some body =>
      match Unmarshal dec_mr_payload no_mr_payload body with
      | None => finish StatusBadRequest
      | Some payload =>
          if str_eqb (my_ObjectKind payload) #"note" || str_eqb (Header_Get rq #"X-Gitlab-Event") #"Note Hook" then handleNoteEvent traceparent body
          else if negb (str_eqb (my_ObjectKind payload) #"merge_request") then ret StatusOK
          else handle_merge_request traceparent payload
      end
  end).
End GitLab.
End GitLab.

(** ** Preview groups of merge requests *)
Module GroupHook.
Section GroupHook.
Context {U : GoUnicode} {N : GoNetip} {T : Type} {EV : Type}.
Context {GV : Type} {GA : ObjectApi PreviewGroup GV} {GU : UpsertApi PreviewGroup GV}.
Abbreviation W := (web_world T EV GV).
Abbreviation R := (run Z W).
Context (h : WebhookHandler) (o : Outside).
Definition group_name (payload : GitLabMRPayload) : gostring := #"preview-mr-" ++ Itoa (mr_IID (my_ObjectAttributes payload)).
Definition group_sourced (traceparent : gostring) (payload : GitLabMRPayload) (pg : PreviewGroup) : PreviewGroup :=
  pg_set_Annotations (SetTraceparentAnnotation traceparent (pg_Annotations pg))
    (pg_set_Spec (gp_set_Source (mr_source payload) (pg_Spec pg)) pg).
Definition without_services (pg : PreviewGroup) : PreviewGroup :=
  pg_set_Spec (gp_set_Services [] (gp_set_Routing no_group_routing (pg_Spec pg))) pg.
Definition routing_for (cfg : Config) (iid : Z) : PreviewGroupRouting :=
  let r := st_Routing (cf_Defaults cfg) in
  mkGroupRouting (if str_eqb (rs_Mode r) [] then #"header" else rs_Mode r)
    (if str_eqb (rs_HeaderKey r) [] then #"x-preview-env" else rs_HeaderKey r) (Itoa iid) [] [].
Definition lifecycle_for (cfg : Config) (old : option PreviewGroupLifecycle) : option PreviewGroupLifecycle :=
  let l := st_Lifecycle (cf_Defaults cfg) in
  let lc := if str_eqb (li_TTL l) [] then old
            else match ParseDuration (li_TTL l) with Some d => Some (mkGroupLifecycle (Some d) false) | None => old end in
  match li_CleanupOnMerge l with
  | Some b => Some (gl_set_CleanupOnMerge b (default no_group_lifecycle lc))
  | None => lc
  end.
Definition service_for (image imageTag name : gostring) (svc : ServiceConfig) : PreviewGroupServiceSpec :=
  let im := sv_Image svc in
  let image := if str_eqb (im_Repository im) [] then image
               else im_Repository im ++ #":" ++ (if str_eqb (im_TagTemplate im) [] then imageTag else im_TagTemplate im) in
  mkGroupService name image [] [] [] 0 [] [] [] [] [] [] None None None None.
(** The services by name. *)
Definition services_for (cfg : Config) (image imageTag : gostring) : list PreviewGroupServiceSpec :=
  omap (fun name => service_for image imageTag name <$> cf_Services cfg !! name) (sort_strings (map fst (map_to_list (cf_Services cfg)))).
Definition with_group_config (cfg : Config) (payload : GitLabMRPayload) (pg : PreviewGroup) : PreviewGroup :=
  let a := my_ObjectAttributes payload in
  let imageTag := safeSHA (gc_ID (mr_LastCommit a)) 12 in
  let image := #"registry.gitlab.com/" ++ gj_PathWithNamespace (my_Project payload) ++ #":" ++ imageTag in
  let s := pg_Spec pg in
  pg_set_Spec (gp_set_Services (services_for cfg image imageTag)
    (gp_set_Lifecycle (lifecycle_for cfg (gp_Lifecycle s)) (gp_set_Routing (routing_for cfg (mr_IID a)) s))) pg.
Definition mutate_group (traceparent : gostring) (payload : GitLabMRPayload) (pg : PreviewGroup) : result gostring PreviewGroup :=
  let pg := group_sourced traceparent payload pg in
  match wk_ConfigFetcher h with
  | None => Ok (without_services pg)
  | Some fetch =>
      let src := mr_source payload in
      match fetch #"gitlab" (src_Project src) (src_Branch src) with
      | Err ErrConfigNotFound => Ok (without_services pg)
      | Err e => Err (fetch_text e)
      | Ok data => cfg ← Parse (ot_config o) data; Ok (with_group_config cfg payload pg)
      end
  end.
Definition reconcilePreviewGroup (traceparent : gostring) (payload : GitLabMRPayload) : R (result upsert_error unit) :=
  on_cluster (in_groups (obj_CreateOrUpdate (new_group [] (group_name payload)) (mutate_group traceparent payload))).
Definition deletePreviewGroup (payload : GitLabMRPayload) : R (ares unit) :=
  on_cluster (in_groups (ignore_missing (obj_Delete (Ob := PreviewGroup) None ([], group_name payload)))).
Definition ServeHTTP (rq : Request) : W -> Z * W := returned (
  let traceparent := traceparent_of o rq in
  do! when (negb (str_eqb (rq_Method rq) #"POST")) (finish StatusMethodNotAllowed) in
  do! when (negb (ValidateGitLabWebhookToken rq (wk_SecretToken h))) (finish StatusUnauthorized) in
  match Decode dec_mr_payload no_mr_payload (rq_Body rq) with
  | None => finish StatusBadRequest
  | Some payload =>
      let action := mr_Action (my_ObjectAttributes payload) in
      if negb (str_eqb (my_ObjectKind payload) #"merge_request") then ret StatusOK
      else if bool_decide (action ∈ opening_actions) then
        let! r := reconcilePreviewGroup traceparent payload in
        do! or_500 r in ret StatusOK
      else if bool_decide (action ∈ closing_actions) then
        let! r := deletePreviewGroup payload in
        do! or_500 r in ret StatusOK
      else ret StatusOK
  end).
End GroupHook.
End GroupHook.
