(* ===== verification/K8sNames.v ===== *)
(** * The generated names of Kubernetes objects are DNS labels

    [sanitizeK8sName] of [internal/controller/hook_runner.go], used for the
    linked preview environments, always gives a name the server's own
    validation of names accepts. *)

From S2P Require Import Prelude GoStrings GoCrypto TokenStore AuthProvider Authz AuthFacts ResourceNames.

(** ** The pieces of a name *)
Definition label_chars (s : gostring) : Prop := Forall (fun c => dns_char c = true) s.
Definition starts_well (s : gostring) : Prop := match s with [] => True | c :: _ => dns_alnum c = true end.

Lemma k8s_char_dns c : k8s_char c = dns_char c.
Proof. done. Qed.
Lemma collapse_dashes_incl s : forall c, c ∈ collapse_dashes s -> c ∈ s.
Proof.
  induction s as [|a s IH]; [done|]. cbn. destruct s as [|b s]; [done|]. intros c.
  destruct (_ && _); [intros H; right; by apply IH|]. rewrite !elem_of_cons in *. intros [->|H]; [by left|]. right.
  specialize (IH c H). by rewrite elem_of_cons in IH.
Qed.
Lemma label_chars_incl s t : (forall c, c ∈ s -> c ∈ t) -> label_chars t -> label_chars s.
Proof. unfold label_chars. rewrite !Forall_forall. auto. Qed.
Lemma trim_right_incl s cut c : c ∈ TrimRight s cut -> c ∈ s.
Proof. intros H. destruct (TrimRight_prefix s cut) as [k Hk]. rewrite Hk. apply elem_of_app. by left. Qed.
Lemma trim_left_incl s cut c : c ∈ TrimLeft s cut -> c ∈ s.
Proof.
  intros H. destruct (trim_left_while_suffix (in_cutset cut) s) as [k Hk]. rewrite Hk. apply elem_of_app. by right.
Qed.
Lemma starts_well_prefix s t : s `prefix_of` t -> starts_well t -> starts_well s.
Proof. intros [k ->]. by destruct s. Qed.
(** Without leading dashes, label characters start well. *)
Lemma trimmed_starts s : label_chars s -> starts_well (TrimLeft s #"-").
Proof.
  intros Hs. pose proof (trim_left_while_head (in_cutset #"-") s) as Hh. unfold TrimLeft.
  pose proof (label_chars_incl _ _ (trim_left_incl s #"-") Hs) as Hc. unfold TrimLeft in Hc.
  destruct (trim_left_while _ _) as [|c t]; [done|]. apply Forall_cons in Hc as [Hc _]. unfold dns_char in Hc. cbn.
  destruct (dns_alnum c); [done|]. cbn in Hc. apply bool_decide_eq_true in Hc as ->. done.
Qed.

Lemma k8s_raw_chars {U : GoUnicode} raw : label_chars (k8s_raw raw) /\ starts_well (k8s_raw raw).
Proof.
  unfold k8s_raw. set (s := collapse_dashes _). assert (label_chars s) as Hs.
  { eapply label_chars_incl; [apply collapse_dashes_incl|]. apply Forall_forall. by intros c [Hc _]%list_elem_of_filter. }
  split.
  - eapply label_chars_incl; [|exact Hs]. intros c H. by apply trim_right_incl, trim_left_incl in H.
  - eapply starts_well_prefix; [apply TrimRight_prefix|]. by apply trimmed_starts.
Qed.
Lemma hex_dns s : Forall (fun b => dns_alnum b = true) (hex_encode s).
Proof.
  unfold hex_encode. apply Forall_bind, Forall_true. intros c.
  assert (forall c, forallb dns_alnum (hex_encode_byte c) = true) as H.
  { intros [[] [] [] [] [] [] [] []]; reflexivity. }
  specialize (H c). rewrite forallb_forall in H. apply Forall_forall. intros x Hx. apply H. by apply list_elem_of_In.
Qed.

(** A prefix that starts well, a dash and eight hexadecimal digits. *)
Lemma hashed_label p h : p <> [] -> label_chars p -> starts_well p -> (length p <= 54)%nat ->
  length h = 8%nat -> Forall (fun b => dns_alnum b = true) h -> dns_label (p ++ #"-" ++ h).
Proof.
  intros Hne Hp Hst Hl Hh Hhx. destruct p as [|a p]; [done|].
  assert (exists h' z, h = h' ++ [z]) as (h' & z & ->).
  { destruct h as [|z h' _] using rev_ind; [done|eauto]. }
  assert (dns_alnum z = true) as Hz by (rewrite Forall_app, Forall_singleton in Hhx; apply Hhx).
  split; [|split].
  - rewrite !length_app in *. change (length #"-") with 1%nat. cbn in *. lia.
  - apply Forall_app. split; [done|]. apply Forall_app. split; [by repeat constructor|].
    eapply Forall_impl; [exact Hhx|]. unfold dns_char. by intros x ->.
  - exists a, z. rewrite !app_assoc, last_snoc. done.
Qed.

(** whatever the name of a task, the generated name has at most the
    length asked for and is accepted by the validation of DNS labels: lower
    case letters, digits and dashes, and no dash at either end. *)
Theorem sanitizeK8sName_label {U : GoUnicode} raw hashInput maxLength field : (10 <= maxLength <= 63)%nat ->
  ValidateDNS1123Label (sanitizeK8sName raw hashInput maxLength) field = Ok tt /\
  (length (sanitizeK8sName raw hashInput maxLength) <= maxLength)%nat.
Proof.
  intros Hmax. unfold sanitizeK8sName. rewrite (proj2 (Nat.ltb_ge maxLength 10)) by lia.
  destruct (k8s_raw_chars raw) as [Hc Hs].
  set (raw1 := if str_eqb (k8s_raw raw) [] then #"resource" else k8s_raw raw).
  assert (label_chars raw1 /\ starts_well raw1 /\ raw1 <> []) as (Hc1 & Hs1 & Hne1).
  { subst raw1. unfold str_eqb. case_bool_decide; [|done]. split; [by repeat constructor|done]. }
  set (prefix := if (maxLength - 9 <? length raw1)%nat then _ else raw1).
  assert (label_chars prefix /\ starts_well prefix /\ (length prefix <= maxLength - 9)%nat) as (Hc2 & Hs2 & Hl2).
  { subst prefix. destruct (maxLength - 9 <? length raw1)%nat eqn:E; [|apply Nat.ltb_ge in E; done].
    pose proof (TrimRight_prefix (take (maxLength - 9) raw1) #"-") as Hpre. split; [|split].
    - eapply label_chars_incl; [|exact Hc1]. intros c Hin%trim_right_incl.
      rewrite <- (take_drop (maxLength - 9) raw1). apply elem_of_app. by left.
    - eapply starts_well_prefix; [|exact Hs1]. etrans; [exact Hpre|]. apply prefix_take.
    - apply prefix_length in Hpre. rewrite length_take in Hpre. lia. }
  set (p := if str_eqb prefix [] then #"r" else prefix).
  assert (label_chars p /\ starts_well p /\ p <> [] /\ (length p <= maxLength - 9)%nat) as (Hc3 & Hs3 & Hne3 & Hl3).
  { subst p. unfold str_eqb. case_bool_decide; [|done]. split; [by repeat constructor|]. split_and!; [done..|change (length #"r") with 1%nat; lia]. }
  set (h := take 8 _). assert (length h = 8%nat) as Hh.
  { subst h. rewrite length_take, hex_encode_length, sha256_length. done. }
  split; [|rewrite !length_app; change (length #"-") with 1%nat; lia]. apply ValidateDNS1123Label_spec.
  apply hashed_label; [done..|lia|done|]. subst h. apply Forall_take, hex_dns.
Qed.
Lemma sanitizeK8sName_label_witness : (10 <= 63 <= 63)%nat /\
  ValidateDNS1123Label (sanitizeK8sName (U := ascii_unicode) #"Agent_Preview--" #"task" 63) #"name" = Ok tt.
Proof. split; [lia|]. exact (proj1 (sanitizeK8sName_label (U := ascii_unicode) _ _ 63 #"name" ltac:(lia))). Defined.
