(* ===== verification/AgentTaskController.v ===== *)
(** * The agent task controller: [internal/controller/agenttask_controller.go]

    [Reconcile] as a function of the stores it acts on: the API server's
    tasks and environments, the sandboxes and the token store, with the audit
    events and notifications it emits.  Sandbox providers and the minter are
    used through their interfaces; [now] is the time of the run, [nonce] what
    the random source yields.  Lifecycle hooks act outside the stores: their
    calls are events.  *)

From S2P Require Import Prelude GoStrings GoFloat GoTime.
From S2P Require Import Macaroon TokenStore KubeApi AgentTask ResourceNames EnvTypes Conditions AgentTaskPreview EarlyReturn.
Local Open Scope Z_scope.

Definition agentTaskFinalizer : gostring := #"divergedev.com/agenttask-finalizer".
Definition annotationActiveSince : gostring := #"divergedev.com/active-since".

(** ** Interfaces *)
Record SandboxResult := mkSandboxResult {
  sr_ClaimName : gostring; sr_PodName : gostring; sr_PodIP : gostring; sr_Ready : bool; sr_Message : gostring }.
Record SandboxStatus := mkSandboxStatus {
  ss_PodName : gostring; ss_PodIP : gostring; ss_Phase : gostring; ss_Ready : bool; ss_Message : gostring }.
(** [sandbox.SandboxProvider], and [SandboxSuspender] for the providers that
    implement it. *)
Record SandboxProvider (B : Type) := mkProvider {
  Provision : AgentTask -> B -> result gostring SandboxResult * B;
  Teardown : AgentTask -> B -> result gostring unit * B;
  Status : AgentTask -> B -> result gostring SandboxStatus * B;
  suspender : option ((AgentTask -> B -> result gostring unit * B) * (AgentTask -> B -> result gostring unit * B)) }.
Arguments Provision {B}. Arguments Teardown {B}. Arguments Status {B}. Arguments suspender {B}.

(** [auth.Minter]: the macaroon provider with its root key, or another. *)
Inductive Minter := MacaroonMinter (key : option gostring) | OtherMinter (mint : Claims -> result gostring gostring).

Inductive event :=
| Audit (mint : bool) (taskID namespace : gostring) (success : bool) (reason : gostring)
| PhaseChange (oldPhase newPhase : gostring)
| Hook (name : gostring).

(** The errors a run returns. *)
Inductive ctrl_error :=
| ApiError (e : api_error)
| SandboxError (msg : gostring)
| StoreError (e : store_error)
| MintError (e : auth_error)
| MinterError (msg : gostring)
| PersistError (e : store_error)
| RevokeError (e : store_error)
| NotRegistered (provider : gostring).

(** The fields of [AgentTaskReconciler]. *)
Record AgentTaskReconciler (B : Type) := mkReconciler {
  TokenMinter : option Minter;
  has_auditor : bool; has_notifier : bool; has_hook : bool;
  FeatureGate : option (gostring -> bool);
  DefaultProvider : gostring;
  (** [Has] and [Create] of the registry *)
  registry : gostring -> option (result gostring (SandboxProvider B));
  scheme : option (AgentTask -> Environment -> option Environment);
  error_text : ctrl_error -> gostring }.
Arguments TokenMinter {B}. Arguments has_auditor {B}. Arguments has_notifier {B}. Arguments has_hook {B}.
Arguments FeatureGate {B}. Arguments DefaultProvider {B}. Arguments registry {B}. Arguments scheme {B}.
Arguments error_text {B}.

Record world (T E B S : Type) := mkWorld {
  w_tasks : T; w_envs : E; w_sandbox : B; w_tokens : S; w_events : list event }.
Arguments mkWorld {T E B S}. Arguments w_tasks {T E B S}. Arguments w_envs {T E B S}.
Arguments w_sandbox {T E B S}. Arguments w_tokens {T E B S}. Arguments w_events {T E B S}.

Abbreviation M := (run (outcome ctrl_error)).

Section Controller.
Context {U : GoUnicode} {O : ConditionOps}.
Context {T : Type} {C : TaskClient T} {E : Type} {K : EnvClient E} {B S : Type} {TS : TokenStore S}.
Abbreviation W := (world T E B S).

(** Calls on one of the stores. *)
Definition on_tasks {A} (f : T -> A * T) : M W A := fun w =>
  let '(a, t) := f (w_tasks w) in (inr a, mkWorld t (w_envs w) (w_sandbox w) (w_tokens w) (w_events w)).
Definition on_envs {A} (f : E -> A * E) : M W A := fun w =>
  let '(a, e) := f (w_envs w) in (inr a, mkWorld (w_tasks w) e (w_sandbox w) (w_tokens w) (w_events w)).
Definition on_sandbox {A} (f : B -> A * B) : M W A := fun w =>
  let '(a, b) := f (w_sandbox w) in (inr a, mkWorld (w_tasks w) (w_envs w) b (w_tokens w) (w_events w)).
Definition on_tokens {A} (f : S -> A * S) : M W A := fun w =>
  let '(a, s) := f (w_tokens w) in (inr a, mkWorld (w_tasks w) (w_envs w) (w_sandbox w) s (w_events w)).
Definition emit (e : event) : M W unit := fun w =>
  (inr tt, mkWorld (w_tasks w) (w_envs w) (w_sandbox w) (w_tokens w) (w_events w ++ [e])).

(** [if err != nil { return ctrl.Result{}, err }] *)
Definition or_fail {X A} (f : X -> ctrl_error) (r : result X A) : M W A :=
  match r with Ok a => ret a | Err e => fail (f e) end.

Context (r : AgentTaskReconciler B) (now : Time) (nonce : option gostring).

(** [r.Status().Patch(ctx, task, patch)], with the optimistic lock on the
    base: on success the task is the server's object. *)
Definition patch_status (base task : AgentTask) : M W (ares AgentTask) :=
  on_tasks (task_StatusPatch (key_of task) (tk_ResourceVersion base) (merge_status (tk_Status base) (tk_Status task))).
Definition notify (oldPhase newPhase : gostring) : M W unit :=
  when (has_notifier r && negb (str_eqb oldPhase newPhase)) (emit (PhaseChange oldPhase newPhase)).

Definition activeStartTime (task : AgentTask) : Time :=
  let raw := annotation task annotationActiveSince in
  if str_eqb raw [] then tk_CreationTimestamp task
  else default (tk_CreationTimestamp task) (ParseRFC3339 raw).

(** ** Tokens *)
Definition audit (mint : bool) (task : AgentTask) (success : bool) (reason : gostring) : M W unit :=
  when (has_auditor r) (emit (Audit mint (tk_Name task) (tk_Namespace task) success reason)).

Definition task_tools : list gostring :=
  [ #"diverge_*_environment*"; #"diverge_*_preview_group*"; #"diverge_wait_for_ready"; #"diverge_fetch_errors";
    #"diverge_list_hook_jobs"; #"diverge_retry_hook"; #"diverge_extend_ttl"; #"diverge_doctor"; #"diverge_verify";
    #"diverge_loadtest"; #"diverge_visual_test"; #"diverge_replay"; #"diverge_get_task"; #"diverge_list_tasks"].
Definition parsed_cost (s : gostring) : float64 :=
  if str_eqb s [] then f_zero else default f_zero (ParseFloat s).
Definition task_claims (task : AgentTask) : Claims :=
  let spec := tk_Spec task in
  let timeoutSec := if sp_TimeoutSeconds spec <=? 0 then 3600 else sp_TimeoutSeconds spec in
  mkClaims (tk_Name task) (tk_Namespace task) (sp_RepoURL spec) (sp_BaseBranch spec) task_tools (sp_Capabilities spec)
    (parsed_cost (sp_BudgetUSD spec)) (sp_BudgetTokens spec) 0 (Add now (timeoutSec * Second)).
Definition mint_token (m : Minter) (cl : Claims) : result ctrl_error gostring :=
  match m with
  | MacaroonMinter key => match Mint key nonce cl with Ok mac => Ok (Serialize mac) | Err e => Err (MintError e) end
  | OtherMinter mint => match mint cl with Ok tok => Ok tok | Err msg => Err (MinterError msg) end
  end.
Definition mintAndSaveToken (task : AgentTask) : M W (result ctrl_error unit) :=
  match TokenMinter r with
  | None => ret (Ok tt)
  | Some m =>
      match mint_token m (task_claims task) with
      | Err e => do! audit true task false (error_text r e) in ret (Err e)
      | Ok tok =>
          let! saved := on_tokens (SaveToken (tk_Name task) (tk_Namespace task) tok) in
          match saved with
          | Ok _ => do! audit true task true [] in ret (Ok tt)
          | Err e => do! audit true task false (error_text r (StoreError e)) in ret (Err (PersistError e))
          end
      end
  end.
Definition revokeToken (task : AgentTask) (reason : gostring) : M W (result ctrl_error unit) :=
  let! revoked := on_tokens (IsRevoked (tk_Name task) (tk_Namespace task)) in
  if revoked : bool then ret (Ok tt)
  else
    let! res := on_tokens (RevokeToken (tk_Name task) (tk_Namespace task)) in
    match res with
    | Ok _ => do! audit false task true reason in ret (Ok tt)
    | Err ErrTokenNotFound | Err ErrTokenRevoked => ret (Ok tt)
    | Err e => ret (Err (RevokeError e))
    end.
Definition f_abs (f : float64) : float64 := SFabs f.
Definition ensureActiveTokenMatchesSpec (task : AgentTask) : M W (result ctrl_error unit) :=
  match TokenMinter r with
  | Some (MacaroonMinter key) =>
      let! tok := on_tokens (GetToken (tk_Name task) (tk_Namespace task)) in
      match tok with
      | Err _ => mintAndSaveToken task
      | Ok raw =>
          match VerifyAndExtract key (Unix now) raw with
          | Err _ => mintAndSaveToken task
          | Ok (_, claims) =>
              let specCost := parsed_cost (sp_BudgetUSD (tk_Spec task)) in
              if negb (MaxTokens claims =? sp_BudgetTokens (tk_Spec task)) ||
                 f_gt (f_abs (f_sub (MaxCostUSD claims) specCost)) (f_of_scaled false 1 10 (-6))
              then mintAndSaveToken task else ret (Ok tt)
          end
      end
  | _ => ret (Ok tt)
  end.

(** ** Limits *)
Definition checkBudgetOrIterationLimit (task : AgentTask) : option gostring :=
  let spec := tk_Spec task in
  let st := tk_Status task in
  let over_usd :=
    match ParseFloat (sp_BudgetUSD spec), ParseFloat (st_CostUSD st) with
    | Some budget, Some cost => f_gt budget f_zero && f_le budget cost
    | _, _ => false
    end in
  if (0 <? sp_MaxIterations spec) && (sp_MaxIterations spec <? st_Iteration st)
  then Some (#"Reached max iterations limit (" ++ FormatInt (sp_MaxIterations spec) ++ #"); paused")
  else if negb (str_eqb (sp_BudgetUSD spec) []) && negb (str_eqb (st_CostUSD st) []) && over_usd
  then Some (#"Reached USD budget limit ($" ++ st_CostUSD st ++ #" / $" ++ sp_BudgetUSD spec ++ #"); paused")
  else if (0 <? sp_BudgetTokens spec) && (sp_BudgetTokens spec <=? st_TokensConsumed st)
  then Some (#"Reached token budget limit (" ++ FormatInt (st_TokensConsumed st) ++ #" / " ++
             FormatInt (sp_BudgetTokens spec) ++ #"); paused")
  else None.
Definition expired (since : Time) (task : AgentTask) : bool :=
  (0 <? sp_TimeoutSeconds (tk_Spec task)) && negb (IsZero since) &&
  (sp_TimeoutSeconds (tk_Spec task) * Second <? Sub now since).

(** ** Providers *)
Definition resolveSandboxProvider (task : AgentTask) : result ctrl_error (SandboxProvider B) :=
  let name := sp_Provider (tk_Spec task) in
  let name := if negb (str_eqb name []) then name
              else if negb (str_eqb (DefaultProvider r) []) then DefaultProvider r else #"agent-sandbox" in
  match registry r name with
  | None => Err (NotRegistered name)
  | Some (Ok p) => Ok p
  | Some (Err msg) => Err (SandboxError msg)
  end.
Definition is_pod (task : AgentTask) : bool :=
  str_eqb (sp_Provider (tk_Spec task)) #"pod" || str_eqb (sp_Provider (tk_Spec task)) #"k8s-pod".
(** Suspend in place, or tear a pod down. *)
Definition stop_sandbox (provider : SandboxProvider B) (task : AgentTask) : M W unit :=
  match suspender provider with
  | Some (suspend, _) => let! s := on_sandbox (suspend task) in or_fail SandboxError s
  | None => if is_pod task then let! s := on_sandbox (Teardown provider task) in or_fail SandboxError s else ret tt
  end.
Definition forget_pod (task : AgentTask) : AgentTask :=
  if is_pod task then with_Status (set_SandboxPodName []) task else task.
Definition hibernate (task : AgentTask) (h : bool) : M W (ares unit) :=
  on_envs (setLinkedPreviewEnvironmentHibernated task h).
Definition link_preview (task : AgentTask) : M W AgentTask := fun w =>
  let '(_, task', (t, e)) := reconcileLinkedPreviewEnvironment (scheme r) now task (w_tasks w, w_envs w) in
  (inr task', mkWorld t e (w_sandbox w) (w_tokens w) (w_events w)).
Definition set_phase_message (phase message : gostring) : AgentTask -> AgentTask :=
  with_Status (fun st => set_Message message (set_Phase phase st)).
Definition phase_of (task : AgentTask) : gostring := st_Phase (tk_Status task).

(** [patch] the status with [base], report the phase, and go on with the
    server's object. *)
Definition patch_or_fail (base task : AgentTask) : M W AgentTask :=
  let! p := patch_status base task in or_fail ApiError p.
Definition patch_and_notify (base task : AgentTask) : M W AgentTask :=
  let! task' := patch_or_fail base task in
  do! notify (phase_of base) (phase_of task') in ret task'.
Definition revoke_or_fail (task : AgentTask) (reason : gostring) : M W unit :=
  let! x := revokeToken task reason in
  match x with Ok _ => ret tt | Err e => fail e end.

(** ** 1. Deletion *)
Definition reconcile_deletion (task : AgentTask) : M W unit :=
  if bool_decide (agentTaskFinalizer ∈ tk_Finalizers task) then
    do! when (has_hook r) (emit (Hook #"PreTeardown")) in
    do! (match resolveSandboxProvider task with
         | Ok provider =>
             let! s := on_sandbox (Teardown provider task) in
             match s with
             | Ok _ => ret tt
             | Err msg => finish (mkOutcome (5 * Second) (Some (SandboxError msg)))
             end
         | Err _ => ret tt
         end) in
    let! del := on_tokens (DeleteToken (tk_Name task) (tk_Namespace task)) in
    do! (match del with
         | Ok _ | Err ErrTokenNotFound => audit false task true []
         | Err e => do! audit false task false (error_text r (StoreError e)) in
                    finish (mkOutcome (5 * Second) (Some (StoreError e)))
         end) in
    let! u := on_tasks (task_Update (with_Finalizers (filter (fun f => f <> agentTaskFinalizer) (tk_Finalizers task)) task)) in
    do! or_fail ApiError u in done
  else done.

(** ** 4. Suspended *)
Definition paused_message (old : gostring) : gostring :=
  if bool_decide (old ∈ [ []; #"Sandbox active and ready"; #"Task resumed and active"])
  then #"Task execution paused by spec.suspended" else old.
Definition reconcile_suspended (task : AgentTask) : M W unit :=
  do! (match resolveSandboxProvider task with Ok provider => stop_sandbox provider task | Err _ => ret tt end) in
  let! h := hibernate task true in
  do! or_fail ApiError h in
  let! task := (if str_eqb (phase_of task) AgentTaskPhasePaused then ret task
                else patch_and_notify task
                       (forget_pod (set_phase_message AgentTaskPhasePaused (paused_message (st_Message (tk_Status task))) task))) in
  do! revoke_or_fail task #"paused by spec.suspended" in done.

(** ** 5. No provider *)
Definition reconcile_unresolved (task : AgentTask) (e : ctrl_error) : M W unit :=
  let failed := set_phase_message AgentTaskPhaseFailed (#"Failed to resolve sandbox provider: " ++ error_text r e) task in
  let! p := patch_status task failed in
  let task' := match p with Ok t => t | Err _ => failed end in
  do! notify (phase_of task) (phase_of task') in fail e.

(** ** 6. The state machine *)
Definition retry_later (task : AgentTask) (what : gostring) (e : ctrl_error) : M W unit :=
  let! _ := patch_status task (set_phase_message AgentTaskPhasePending (what ++ error_text r e) task) in
  finish (mkOutcome (10 * Second) (Some e)).

Definition reconcile_pending (provider : SandboxProvider B) (task : AgentTask) : M W unit :=
  let! minted := mintAndSaveToken task in
  match minted with
  | Err e => retry_later task #"Token provisioning failed (retrying): " e
  | Ok _ =>
      do! when (has_hook r) (emit (Hook #"PreProvision")) in
      let! res := on_sandbox (Provision provider task) in
      match res with
      | Err msg => retry_later task #"Provisioning failed (retrying): " (SandboxError msg)
      | Ok res =>
          do! when (has_hook r) (emit (Hook #"PostProvision")) in
          let provisioned := with_Status (fun st => set_Message (sr_Message res)
                               (set_Sandbox (sr_ClaimName res) (sr_PodName res) (sr_PodIP res) st)) task in
          let! linked := link_preview provisioned in
          (* the base has the status of before and the metadata of after *)
          let base := with_Status (fun _ => tk_Status task) linked in
          let phase := if sr_Ready res then AgentTaskPhaseActive else AgentTaskPhaseProvisioning in
          let! _ := patch_and_notify base (with_Status (set_Phase phase) linked) in
          requeue (3 * Second)
      end
  end.

(** [handleTerminalSandboxPhase]: returns only when the sandbox still runs. *)
Definition terminal_sandbox (st : SandboxStatus) : bool :=
  str_eqb (ss_Phase st) #"Succeeded" || str_eqb (ss_Phase st) #"Failed".
Definition observe_sandbox (sb : SandboxStatus) : AgentTask -> AgentTask :=
  with_Status (fun st =>
    let st1 := if str_eqb (ss_PodName sb) [] then st else set_SandboxPodName (ss_PodName sb) st in
    if str_eqb (ss_PodIP sb) [] then st1 else set_SandboxIP (ss_PodIP sb) st1).
Definition handleTerminalSandboxPhase (task : AgentTask) (sb : SandboxStatus) : M W unit :=
  if negb (terminal_sandbox sb) then ret tt
  else
    let succeeded := str_eqb (ss_Phase sb) #"Succeeded" in
    let finished :=
      if succeeded then set_phase_message AgentTaskPhaseCompleted #"Agent task completed successfully"
      else set_phase_message AgentTaskPhaseFailed
             (if str_eqb (ss_Message sb) [] then #"Sandbox execution failed" else ss_Message sb) in
    let! task' := patch_and_notify task (finished (observe_sandbox sb task)) in
    let! _ := hibernate task' true in
    do! revoke_or_fail task' (if succeeded then #"task completed" else #"task failed") in done.

Definition reconcile_provisioning (provider : SandboxProvider B) (task : AgentTask) : M W unit :=
  let! status := on_sandbox (Status provider task) in
  match status with
  | Err _ => requeue (5 * Second)
  | Ok sb =>
      do! handleTerminalSandboxPhase task sb in
      let observed := with_Status (fun st => set_Message (ss_Message sb)
                        (set_Sandbox (st_SandboxClaimRef st) (ss_PodName sb) (ss_PodIP sb) st)) task in
      let! linked := link_preview observed in
      let base := with_Status (fun _ => tk_Status task) linked in
      let! _ := patch_and_notify base
                  (if ss_Ready sb then set_phase_message AgentTaskPhaseActive #"Sandbox active and ready" linked else linked) in
      requeue (if ss_Ready sb then 10 * Second else 5 * Second)
  end.

Definition reconcile_timeout (provider : SandboxProvider B) (task : AgentTask) : M W unit :=
  let! torn := on_sandbox (Teardown provider task) in
  match torn with
  | Err msg =>
      let! _ := revokeToken task #"sandbox timeout exceeded" in
      finish (mkOutcome (5 * Second) (Some (SandboxError msg)))
  | Ok _ =>
      let! task' := patch_and_notify task (set_phase_message AgentTaskPhaseFailed
        (#"Sandbox execution timed out after " ++ FormatInt (sp_TimeoutSeconds (tk_Spec task)) ++ #"s") task) in
      let! _ := hibernate task' true in
      do! revoke_or_fail task' #"sandbox timeout exceeded" in done
  end.
Definition reconcile_limit (provider : SandboxProvider B) (task : AgentTask) (reason : gostring) : M W unit :=
  do! stop_sandbox provider task in
  let! h := hibernate task true in
  do! or_fail ApiError h in
  let! task' := patch_and_notify task (forget_pod (set_phase_message AgentTaskPhasePaused reason task)) in
  do! revoke_or_fail task' reason in done.
Definition reconcile_active (provider : SandboxProvider B) (task : AgentTask) : M W unit :=
  if expired (activeStartTime task) task then reconcile_timeout provider task
  else
    match checkBudgetOrIterationLimit task with
    | Some reason => reconcile_limit provider task reason
    | None =>
        let! _ := ensureActiveTokenMatchesSpec task in
        let! status := on_sandbox (Status provider task) in
        do! (match status with Ok sb => handleTerminalSandboxPhase task sb | Err _ => ret tt end) in
        let observed := match status with Ok sb => observe_sandbox sb task | Err _ => task end in
        let! linked := link_preview observed in
        let! _ := patch_status (with_Status (fun _ => tk_Status task) linked) linked in
        requeue (15 * Second)
    end.

(** A resumed task whose sandbox is gone is provisioned again. *)
Definition lost_messages : list gostring := [ #"Sandbox pod not found"; #"SandboxClaim not found"].
Definition sandbox_gone (sb : SandboxStatus) : bool :=
  terminal_sandbox sb || bool_decide (ss_Message sb ∈ lost_messages).
(** The start of the timeout of a task that is resumed after it. *)
Definition restart_clock (task : AgentTask) : M W AgentTask :=
  if expired (tk_CreationTimestamp task) task then
    let stamped := with_Annotations (<[annotationActiveSince := FormatRFC3339 now]> (tk_Annotations task)) task in
    let! p := on_tasks (task_Patch (key_of task) (merge_map (tk_Annotations task) (tk_Annotations stamped))) in
    match p with
    | Ok task' => ret (restoreReconcilerStatus (tk_Status task) task')
    | Err e => fail (ApiError e)
    end
  else ret task.
Definition resume_sandbox (provider : SandboxProvider B) (task : AgentTask) : M W AgentTask :=
  let! gone := (if str_eqb (st_SandboxPodName (tk_Status task)) [] then ret true
                else let! status := on_sandbox (Status provider task) in
                     ret (match status with Ok sb => sandbox_gone sb | Err _ => false end)) in
  if gone : bool
  then ret (set_phase_message AgentTaskPhasePending #"Task resumed, awaiting provisioning"
              (with_Status (set_SandboxPodName []) task))
  else
    let! minted := mintAndSaveToken task in
    match minted with
    | Err e => fail e
    | Ok _ =>
        do! (match suspender provider with
             | Some (_, resume) => let! s := on_sandbox (resume task) in or_fail SandboxError s
             | None => ret tt
             end) in
        ret (set_phase_message AgentTaskPhaseActive #"Task resumed and active" task)
    end.
Definition reconcile_paused (provider : SandboxProvider B) (task : AgentTask) : M W unit :=
  match checkBudgetOrIterationLimit task with
  | Some reason => do! revoke_or_fail task reason in done
  | None =>
      let! task := restart_clock task in
      let! h := hibernate task false in
      do! or_fail ApiError h in
      let! resumed := resume_sandbox provider task in
      let! _ := patch_and_notify task (with_Status (set_LastMeterRequestIDs []) resumed) in
      requeue (1 * Second)
  end.
Definition reconcile_terminal (task : AgentTask) : M W unit :=
  do! revoke_or_fail task #"task in terminal phase" in done.

(** ** [Reconcile] *)
Definition gate_message : gostring := #"Agent sandbox execution paused: feature gate 'agent_sandbox' is disabled".
Definition gate_closed : bool := match FeatureGate r with Some enabled => negb (enabled #"agent_sandbox") | None => false end.
Definition reconcile_gated (task : AgentTask) : M W unit :=
  if str_eqb (phase_of task) AgentTaskPhasePaused then done
  else let! _ := patch_or_fail task (set_phase_message AgentTaskPhasePaused gate_message task) in done.
Definition reconcile_phase (provider : SandboxProvider B) (task : AgentTask) : M W unit :=
  let phase := phase_of task in
  if str_eqb phase [] || str_eqb phase AgentTaskPhasePending then reconcile_pending provider task
  else if str_eqb phase AgentTaskPhaseProvisioning then reconcile_provisioning provider task
  else if str_eqb phase AgentTaskPhaseActive then reconcile_active provider task
  else if str_eqb phase AgentTaskPhasePaused then reconcile_paused provider task
  else if str_eqb phase AgentTaskPhaseCompleted || str_eqb phase AgentTaskPhaseFailed then reconcile_terminal task
  else done.
Definition reconcile_task (task : AgentTask) : M W unit :=
  if bool_decide (is_Some (tk_DeletionTimestamp task)) then reconcile_deletion task
  else if negb (bool_decide (agentTaskFinalizer ∈ tk_Finalizers task)) then
    let! u := on_tasks (task_Update (with_Finalizers (tk_Finalizers task ++ [agentTaskFinalizer]) task)) in
    do! or_fail ApiError u in done
  else if gate_closed then reconcile_gated task
  else if sp_Suspended (tk_Spec task) then reconcile_suspended task
  else
    match resolveSandboxProvider task with
    | Err e => reconcile_unresolved task e
    | Ok provider => reconcile_phase provider task
    end.
Definition reconcile_body (key : task_key) : M W unit :=
  let! got := on_tasks (task_Get key) in
  match got with
  | Ok task => reconcile_task task
  | Err NotFound => done
  | Err e => fail (ApiError e)
  end.
Definition Reconcile (key : task_key) (w : W) : outcome ctrl_error * W :=
  match reconcile_body key w with
  | (inl o, w1) => (o, w1)
  | (inr _, w1) => (mkOutcome 0 None, w1)
  end.
End Controller.
