(* ===== verification/Admission.v ===== *)
(** * Admission: [api/v1alpha1/*_webhook.go]

    The validators the API server calls before it stores an environment, a
    preview group or an agent task.  [field.ErrorList] of apimachinery is the
    list of what its constructors were given; [ToAggregate] is nil for the
    empty list.  [net.SplitHostPort] and [net.ParseIP] are written out; IPv6
    addresses are [net/netip]'s. *)

From S2P Require Import Prelude GoStrings GoFloat GoTime GoURL GoQuote AgentTask ResourceNames EnvTypes GroupTypes.
From S2P Require Import AgentTaskController.
Local Open Scope Z_scope.

(** ** [net.SplitHostPort] *)
Record AddrError := mkAddrError { ae_Err : gostring; ae_Addr : gostring }.
Definition AddrError_text (e : AddrError) : gostring := #"address " ++ ae_Addr e ++ #": " ++ ae_Err e.
Definition missingPort : gostring := #"missing port in address".
Definition tooManyColons : gostring := #"too many colons in address".
(** The host between brackets, or before the last colon: with the places from
    which no further bracket is allowed. *)
Definition split_host (hostport : gostring) (i : nat) : result AddrError (gostring * nat * nat) :=
  let fail why := Err (mkAddrError why hostport) in
  if bool_decide (head hostport = Some "["%char) then
    match IndexByte hostport "]"%char with
    | None => fail #"missing ']' in address"
    | Some e =>
        if (S e =? length hostport)%nat then fail missingPort
        else if (S e =? i)%nat then Ok (drop 1 (take e hostport), 1%nat, S e)
        else if bool_decide (hostport !! S e = Some ":"%char) then fail tooManyColons
        else fail missingPort
    end
  else
    let host := take i hostport in
    if bool_decide (":"%char ∈ host) then fail tooManyColons else Ok (host, O, O).
Definition SplitHostPort (hostport : gostring) : result AddrError (gostring * gostring) :=
  let fail why := Err (mkAddrError why hostport) in
  match cut_last hostport ":"%char with
  | None => fail missingPort
  | Some (before, port) =>
      match split_host hostport (length before) with
      | Err e => Err e
      | Ok (host, j, k) =>
          if bool_decide ("["%char ∈ drop j hostport) then fail #"unexpected '[' in address"
          else if bool_decide ("]"%char ∈ drop k hostport) then fail #"unexpected ']' in address"
          else Ok (host, port)
      end
  end.
(** An octet: decimal, without a leading zero. *)
Definition valid_octet (s : gostring) : bool :=
  match s, digits_value s 0 with
  | [], _ | _, None => false
  | c :: rest, Some v => (v <=? 255) && (length s <=? 3)%nat && (negb (bool_decide (c = "0"%char)) || bool_decide (rest = []))
  end.
Definition valid_ipv4 (s : gostring) : bool :=
  let octets := Split s "."%char in (length octets =? 4)%nat && forallb valid_octet octets.
(** [net.ParseIP(s) != nil]: an address without a zone. *)
Definition ParseIP `{GoNetip} (s : gostring) : bool :=
  valid_ipv4 s || (valid_ipv6 s && negb (bool_decide ("%"%char ∈ s))).

(** ** [field.ErrorList] *)
Inductive path_elem := Child (name : gostring) | Index (i : nat).
Abbreviation path := (list path_elem).
Inductive bad_value := Text (s : gostring) | Number (n : Z).
Inductive field_error :=
| Required (p : path) (detail : gostring)
| Forbidden (p : path) (detail : gostring)
| Invalid (p : path) (value : bad_value) (detail : gostring)
| NotSupported (p : path) (value : gostring) (supported : list gostring)
| Duplicate (p : path) (value : gostring).
Definition ToAggregate (errs : list field_error) : result (list field_error) unit :=
  match errs with [] => Ok tt | _ => Err errs end.
(** [if refused { allErrs = append(allErrs, e) }] *)
Definition err_if (refused : bool) (e : field_error) : list field_error := if refused then [e] else [].

(** A word between double quotes. *)
Definition quoted (s : gostring) : gostring := "034"%char :: s ++ ["034"%char].

Definition blockedNamespaces : list gostring := [ #"kube-system"; #"kube-public"; #"kube-node-lease"; #"istio-system"].
Definition blocked_namespace (ns : gostring) : bool := bool_decide (ns ∈ blockedNamespaces).
Definition blank (s : gostring) : bool := str_eqb (TrimSpace s) [].
Definition spec_path (p : list gostring) : path := map Child (#"spec" :: p).
Definition namespace_path : path := [Child #"metadata"; Child #"namespace"].

Section Admission.
Context {U : GoUnicode} {N : GoNetip}.

(** ** Endpoints *)
Definition validateEndpoint (endpoint : gostring) : option gostring :=
  match SplitHostPort endpoint with
  | Err e =>
      if ParseIP endpoint then Some (#"endpoint must include a port (e.g. " ++ endpoint ++ #":8080)")
      else Some (#"must be host:port (e.g. 100.64.23.42:8080): " ++ AddrError_text e)
  | Ok (host, portStr) =>
      if str_eqb host [] then Some #"host cannot be empty"
      else if str_eqb portStr [] then Some #"port cannot be empty"
      else match Atoi portStr with
           | None => Some (#"port must be numeric, got " ++ Quote portStr)
           | Some port =>
               if (port <? 1) || (65535 <? port)
               then Some (#"port must be between 1 and 65535, got " ++ FormatInt port) else None
           end
  end.

(** ** Preview groups *)
Definition service_mode_errors (svc : PreviewGroupServiceSpec) (p : path) : list field_error :=
  let at_ f := p ++ [Child f] in
  let unused f v msg := err_if (negb (str_eqb v [])) (Invalid (at_ f) (Text v) msg) in
  let mode := gs_Mode svc in
  if str_eqb mode ServiceModeImage || str_eqb mode [] then
    err_if (str_eqb (gs_Image svc) []) (Required (at_ #"image") (#"image is required when mode is " ++ quoted #"image")) ++
    unused #"endpoint" (gs_Endpoint svc) (#"endpoint is only valid when mode is " ++ quoted #"local")
  else if str_eqb mode ServiceModeLocal then
    (if str_eqb (gs_Endpoint svc) []
     then [Required (at_ #"endpoint") (#"endpoint is required when mode is " ++ quoted #"local")]
     else match validateEndpoint (gs_Endpoint svc) with
          | Some msg => [Invalid (at_ #"endpoint") (Text (gs_Endpoint svc)) msg]
          | None => []
          end) ++
    unused #"image" (gs_Image svc) (#"image is not used when mode is " ++ quoted #"local")
  else if str_eqb mode ServiceModeBaseline then
    unused #"image" (gs_Image svc) (#"image is not used when mode is " ++ quoted #"baseline") ++
    unused #"endpoint" (gs_Endpoint svc) (#"endpoint is not used when mode is " ++ quoted #"baseline")
  else [].
(** The errors, and [seen] with the name of the service. *)
Definition validatePreviewGroupService (svc : PreviewGroupServiceSpec) (p : path) (seen : gset gostring)
    : list field_error * gset gostring :=
  let at_ f := p ++ [Child f] in
  (err_if (str_eqb (gs_Name svc) []) (Required (at_ #"name") #"service name is required") ++
   err_if (bool_decide (gs_Name svc ∈ seen)) (Duplicate (at_ #"name") (gs_Name svc)) ++
   service_mode_errors svc p ++
   err_if (negb (str_eqb (gs_Namespace svc) []) && blocked_namespace (gs_Namespace svc))
     (Forbidden (at_ #"namespace") (#"namespace " ++ Quote (gs_Namespace svc) ++ #" is blocked for preview deployments")) ++
   err_if (negb (str_eqb (gs_PathPrefix svc) []) && negb (HasPrefix (gs_PathPrefix svc) #"/"))
     (Invalid (at_ #"pathPrefix") (Text (gs_PathPrefix svc)) (#"must start with " ++ quoted #"/")),
   {[gs_Name svc]} ∪ seen).
Fixpoint services_errors (i : nat) (services : list PreviewGroupServiceSpec) (seen : gset gostring) : list field_error :=
  match services with
  | [] => []
  | svc :: services =>
      let '(errs, seen) := validatePreviewGroupService svc (spec_path [ #"services"] ++ [Index i]) seen in
      errs ++ services_errors (S i) services seen
  end.
Definition validatePreviewGroup (pg : PreviewGroup) : list field_error :=
  let spec := pg_Spec pg in
  err_if (str_eqb (gr_HeaderValue (gp_Routing spec)) [])
    (Required (spec_path [ #"routing"; #"headerValue"]) #"routing header value is required") ++
  err_if (bool_decide (gp_Services spec = [])) (Required (spec_path [ #"services"]) #"at least one service is required") ++
  services_errors 0 (gp_Services spec) ∅.
Definition previewGroup_ValidateCreate (pg : PreviewGroup) : result (list field_error) unit := ToAggregate (validatePreviewGroup pg).
Definition previewGroup_ValidateUpdate (old new : PreviewGroup) : result (list field_error) unit :=
  ToAggregate (validatePreviewGroup new).
Definition previewGroup_ValidateDelete (pg : PreviewGroup) : result (list field_error) unit := Ok tt.

(** ** Environments *)
Fixpoint secret_ref_errors (i : nat) (refs : list SecretRef) (envNamespace : gostring) (p : path) : list field_error :=
  match refs with
  | [] => []
  | ref :: refs =>
      err_if (negb (str_eqb (sref_Namespace ref) []) && negb (str_eqb (sref_Namespace ref) envNamespace))
        (Forbidden (p ++ [Index i; Child #"namespace"]) #"cross-namespace SecretRef is not allowed") ++
      secret_ref_errors (S i) refs envNamespace p
  end.
Definition validateSecretRefs := secret_ref_errors 0.
Definition source_providers : list gostring := [ #"github"; #"gitlab"; #"local"].
Definition source_errors (source : EnvironmentSource) : list field_error :=
  let provider := TrimSpace (src_Provider source) in
  let p := spec_path [ #"source"; #"provider"] in
  (if str_eqb provider [] then [Required p #"source provider is required"]
   else err_if (negb (bool_decide (provider ∈ source_providers))) (NotSupported p (src_Provider source) source_providers)) ++
  err_if (blank (src_Branch source)) (Required (spec_path [ #"source"; #"branch"]) #"source branch is required").
Definition manifest_errors (m : option ManifestSource) : list field_error :=
  match m with
  | Some m =>
      if negb (str_eqb (mf_Type m) #"url") then []
      else
        let p := spec_path [ #"deploy"; #"manifests"; #"url"] in
        let u := TrimSpace (mf_URL m) in
        if str_eqb u [] then [Required p (#"url is required when manifests type is " ++ quoted #"url")]
        else err_if (negb (HasPrefix u #"http://") && negb (HasPrefix u #"https://"))
               (Invalid p (Text (mf_URL m)) #"must start with http:// or https://")
  | None => []
  end.
Definition atlas_errors (a : option AtlasSpec) : list field_error :=
  match a with
  | Some a =>
      let p f := spec_path [ #"database"; #"atlas"; f] in
      if str_eqb (at_Mode a) #"versioned" then
        err_if (blank (at_MigrationConfigMap a))
          (Required (p #"migrationConfigMap") (#"migrationConfigMap is required when atlas mode is " ++ quoted #"versioned"))
      else if str_eqb (at_Mode a) #"declarative" then
        err_if (blank (at_SchemaConfigMap a))
          (Required (p #"schemaConfigMap") (#"schemaConfigMap is required when atlas mode is " ++ quoted #"declarative"))
      else []
  | None => []
  end.
Definition endpoint_errors (cfg : option ServicePreviewConfig) : list field_error :=
  match cfg with
  | Some cfg =>
      if str_eqb (sc_Endpoint cfg) [] then []
      else match validateEndpoint (sc_Endpoint cfg) with
           | Some msg => [Invalid (spec_path [ #"serviceConfig"; #"endpoint"]) (Text (sc_Endpoint cfg)) msg]
           | None => []
           end
  | None => []
  end.
Definition ValidateEnvironment (env : Environment) : list field_error :=
  let spec := ev_Spec env in
  let ns := ev_Namespace env in
  err_if (blocked_namespace ns)
    (Forbidden namespace_path (#"namespace " ++ Quote ns ++ #" is blocked for preview environments")) ++
  source_errors (es_Source spec) ++
  validateSecretRefs (es_EnvFrom spec) ns (spec_path [ #"envFrom"]) ++
  validateSecretRefs (dep_EnvFrom (es_Deploy spec)) ns (spec_path [ #"deploy"; #"envFrom"]) ++
  match db_MigrationJob (es_Database spec) with
  | Some job => validateSecretRefs (mj_EnvFrom job) ns (spec_path [ #"database"; #"migrationJob"; #"envFrom"])
  | None => []
  end ++
  err_if (str_eqb (rt_Mode (es_Routing spec)) #"subdomain" && blank (rt_BaseDomain (es_Routing spec)))
    (Required (spec_path [ #"routing"; #"baseDomain"]) (#"baseDomain is required when routing mode is " ++ quoted #"subdomain")) ++
  manifest_errors (dep_Manifests (es_Deploy spec)) ++
  atlas_errors (db_Atlas (es_Database spec)) ++
  endpoint_errors (es_ServiceConfig spec).
Definition environment_ValidateCreate (env : Environment) : result (list field_error) unit := ToAggregate (ValidateEnvironment env).
(** [nil] is [None]. *)
Definition environment_ValidateUpdate (old new : Environment) : result (list field_error) unit :=
  if bool_decide (is_Some (ev_DeletionTimestamp new)) then Ok tt else ToAggregate (ValidateEnvironment new).
Definition environment_ValidateDelete (env : Environment) : result (list field_error) unit := Ok tt.

(** ** Agent tasks *)
Definition isValidRepoURL (u : gostring) : bool :=
  HasPrefix u #"https://" || HasPrefix u #"http://" || HasPrefix u #"ssh://" || HasPrefix u #"git@".
Definition repository_errors (url : gostring) : list field_error :=
  let p := spec_path [ #"repository"; #"url"] in
  let repoURL := TrimSpace url in
  if str_eqb repoURL [] then [Required p #"repository URL is required"]
  else err_if (negb (isValidRepoURL repoURL)) (Invalid p (Text url) #"must start with https://, http://, ssh://, or git@").
Definition budget_errors (budget : gostring) : list field_error :=
  if str_eqb budget [] then []
  else
    err_if (match ParseFloat budget with
            | None => true
            | Some v => is_nan v || is_inf v || f_le v f_zero
            end)
      (Invalid (spec_path [ #"budgetUSD"]) (Text budget) (#"must be a positive decimal amount (e.g. " ++ quoted #"5.00" ++ #")")).
Definition non_negative (p : list gostring) (n : Z) : list field_error :=
  err_if (n <? 0) (Invalid (spec_path p) (Number n) #"must be non-negative").
Definition ValidateAgentTask (task : AgentTask) : list field_error :=
  let spec := tk_Spec task in
  let ns := tk_Namespace task in
  err_if (blocked_namespace ns) (Forbidden namespace_path (#"namespace " ++ Quote ns ++ #" is blocked for agent tasks")) ++
  err_if (blank (sp_Objective spec)) (Required (spec_path [ #"objective"]) #"objective is required") ++
  repository_errors (sp_RepoURL spec) ++
  budget_errors (sp_BudgetUSD spec) ++
  non_negative [ #"budgetTokens"] (sp_BudgetTokens spec) ++
  non_negative [ #"maxIterations"] (sp_MaxIterations spec) ++
  non_negative [ #"sandbox"; #"timeoutSeconds"] (sp_TimeoutSeconds spec).
Definition agentTask_ValidateCreate (task : AgentTask) : result (list field_error) unit := ToAggregate (ValidateAgentTask task).
Definition agentTask_ValidateUpdate (old new : AgentTask) : result (list field_error) unit :=
  if bool_decide (is_Some (tk_DeletionTimestamp new)) then Ok tt else ToAggregate (ValidateAgentTask new).
Definition agentTask_ValidateDelete (task : AgentTask) : result (list field_error) unit := Ok tt.
End Admission.

(** * What is admitted *)
Lemma err_if_nil b e : err_if b e = [] <-> b = false.
Proof. by destruct b. Qed.
Lemma app_nil {A} (l k : list A) : l ++ k = [] <-> l = [] /\ k = [].
Proof. split; [apply app_eq_nil|by intros [-> ->]]. Qed.
Lemma ToAggregate_Ok errs : ToAggregate errs = Ok tt <-> errs = [].
Proof. by destruct errs. Qed.

(** ** Addresses *)
Lemma cut_last_app c s t : c ∉ t -> cut_last (s ++ c :: t) c = Some (s, t).
Proof.
  intros Ht. assert (cut_last t c = None) as Hn.
  { induction t as [|a t IH]; cbn; [done|]. apply not_elem_of_cons in Ht as [? ?]. by rewrite IH, decide_False by congruence. }
  induction s as [|a s IH]; cbn; [|by rewrite IH]. by rewrite Hn, decide_True.
Qed.
Definition no_brackets (s : gostring) : Prop := "["%char ∉ s /\ "]"%char ∉ s.
Definition plain (s : gostring) : Prop := ":"%char ∉ s /\ no_brackets s.
Lemma bracket_free c host port : c ∉ host -> c ∉ port -> c <> ":"%char -> c ∉ host ++ ":"%char :: port.
Proof. rewrite elem_of_app, elem_of_cons. naive_solver. Qed.
Lemma SplitHostPort_plain host port : plain host -> plain port -> SplitHostPort (host ++ ":"%char :: port) = Ok (host, port).
Proof.
  intros [Hc [Ho Hx]] [Hc' [Ho' Hx']]. unfold SplitHostPort. rewrite cut_last_app by done. unfold split_host.
  rewrite bool_decide_false.
  - rewrite take_app_length, bool_decide_false, !drop_0 by done. by rewrite !bool_decide_false by by apply bracket_free.
  - destruct host as [|a host]; cbn; [done|]. intros [= ->]. apply Ho. by left.
Qed.
Lemma SplitHostPort_brackets host port : no_brackets host -> plain port ->
  SplitHostPort ("["%char :: host ++ "]"%char :: ":"%char :: port) = Ok (host, port).
Proof.
  intros [Ho Hx] [Hc' [Ho' Hx']]. unfold SplitHostPort.
  replace ("["%char :: host ++ _) with (("["%char :: host ++ ["]"%char]) ++ ":"%char :: port) at 1
    by (cbn; by rewrite <- app_assoc).
  rewrite cut_last_app by done. unfold split_host. cbn [head]. rewrite bool_decide_true by done.
  change ("["%char :: host ++ "]"%char :: ":"%char :: port) with (("["%char :: host) ++ "]"%char :: ":"%char :: port).
  rewrite IndexByte_app by (apply not_elem_of_cons; split; done).
  assert (S (length ("["%char :: host)) = length ("["%char :: host ++ ["]"%char])) as Hl by (cbn; rewrite length_app; cbn; lia).
  rewrite <- Hl, Nat.eqb_refl. rewrite (proj2 (Nat.eqb_neq _ _)) by (rewrite length_app; cbn; lia).
  rewrite take_app_length. cbn [drop].
  rewrite bool_decide_false by (change (drop 1 _) with (host ++ "]"%char :: ":"%char :: port); rewrite elem_of_app, !elem_of_cons; naive_solver).
  rewrite Hl. replace (("["%char :: host) ++ "]"%char :: ":"%char :: port) with (("["%char :: host ++ ["]"%char]) ++ ":"%char :: port) by (cbn; by rewrite <- app_assoc).
  rewrite drop_app_length, bool_decide_false; [done|]. rewrite elem_of_cons. naive_solver.
Qed.

Section AdmissionFacts.
Context {U : GoUnicode} {N : GoNetip}.

(** ** Endpoints *)
Definition valid_endpoint (endpoint : gostring) : Prop :=
  exists host portStr port, SplitHostPort endpoint = Ok (host, portStr) /\ host <> [] /\ Atoi portStr = Some port /\ 1 <= port <= 65535.
Lemma validateEndpoint_None endpoint : validateEndpoint endpoint = None <-> valid_endpoint endpoint.
Proof.
  unfold validateEndpoint, valid_endpoint, str_eqb. destruct (SplitHostPort endpoint) as [[host portStr]|e].
  - case_bool_decide as Hh; [split; [done|intros (? & ? & ? & [= <- <-] & ? & _); congruence]|]. case_bool_decide as Hp.
    + subst. split; [done|]. by intros (? & ? & ? & [= <- <-] & _ & ? & _).
    + destruct (Atoi portStr) as [port|] eqn:Ea; [|split; [done|intros (? & ? & ? & [= <- <-] & _ & ? & _); congruence]]. destruct (_ || _) eqn:E.
      * split; [done|]. intros (? & ? & p & [= <- <-] & _ & Hp' & ?). assert (p = port) as -> by congruence. bool_simpl. lia.
      * split; [|done]. intros _. exists host, portStr, port. bool_simpl. split_and!; done || lia.
  - split; [by case_match|by intros (? & ? & ? & ? & _)].
Qed.
Lemma Itoa_plain p : 0 <= p -> plain (Itoa p).
Proof.
  intros Hp. unfold Itoa, FormatInt. rewrite (proj2 (Z.ltb_ge _ _)) by done. destruct (FormatUint_spec p Hp) as (_ & _ & Hd).
  rewrite Forall_forall in Hd. unfold plain, no_brackets. split_and!; intros Hin%Hd; discriminate.
Qed.
(** the endpoints that are admitted for local services: a host that is not
    empty, without colon and brackets or between brackets, a colon, and the
    decimal text of a port between 1 and 65535. *)
Theorem endpoint_of_host_and_port host port : host <> [] -> 1 <= port <= 65535 ->
  (plain host -> validateEndpoint (host ++ ":"%char :: Itoa port) = None) /\
  (no_brackets host -> validateEndpoint ("["%char :: host ++ "]"%char :: ":"%char :: Itoa port) = None).
Proof.
  intros Hh Hp. assert (plain (Itoa port)) as Hi by (apply Itoa_plain; lia).
  assert (Atoi (Itoa port) = Some port) as Ha by (apply ParseInt_FormatInt; lia).
  split; intros H; apply validateEndpoint_None; exists host, (Itoa port), port; split_and!; auto; try lia.
  - by apply SplitHostPort_plain.
  - by apply SplitHostPort_brackets.
Qed.

(** ** Preview groups *)
Definition well_formed_mode (svc : PreviewGroupServiceSpec) : Prop :=
  let mode := gs_Mode svc in
  (mode = ServiceModeImage \/ mode = [] -> gs_Image svc <> [] /\ gs_Endpoint svc = []) /\
  (mode = ServiceModeLocal -> valid_endpoint (gs_Endpoint svc) /\ gs_Image svc = []) /\
  (mode = ServiceModeBaseline -> gs_Image svc = [] /\ gs_Endpoint svc = []).
Definition well_formed_service (svc : PreviewGroupServiceSpec) : Prop :=
  gs_Name svc <> [] /\ well_formed_mode svc /\ gs_Namespace svc ∉ blockedNamespaces /\
  (gs_PathPrefix svc = [] \/ #"/" `prefix_of` gs_PathPrefix svc).
Definition well_formed_group (pg : PreviewGroup) : Prop :=
  gr_HeaderValue (gp_Routing (pg_Spec pg)) <> [] /\ gp_Services (pg_Spec pg) <> [] /\
  NoDup (map gs_Name (gp_Services (pg_Spec pg))) /\ Forall well_formed_service (gp_Services (pg_Spec pg)).
Lemma mode_errors_nil svc p : service_mode_errors svc p = [] <-> well_formed_mode svc.
Proof.
  unfold service_mode_errors, well_formed_mode. cbv zeta.
  destruct (str_eqb (gs_Mode svc) ServiceModeImage || str_eqb (gs_Mode svc) []) eqn:E1.
  { rewrite app_nil, !err_if_nil, negb_false_iff, str_eqb_true, str_eqb_false.
    apply orb_true_iff in E1. rewrite !str_eqb_true in E1. destruct E1 as [-> | ->]; (split; [intros ?; split_and!; done|]); intros (Hi & _); auto. }
  apply orb_false_iff in E1 as [E1 E1']. rewrite str_eqb_false in E1, E1'.
  destruct (str_eqb (gs_Mode svc) ServiceModeLocal) eqn:E2.
  { apply str_eqb_true in E2. rewrite E2, app_nil, err_if_nil, negb_false_iff, str_eqb_true.
    destruct (str_eqb (gs_Endpoint svc) []) eqn:E3.
    - apply str_eqb_true in E3. rewrite E3. split; [by intros [? _]|]. intros (_ & H & _).
      destruct (H eq_refl) as [(? & ? & ? & ? & _) _]. done.
    - rewrite <- validateEndpoint_None. destruct (validateEndpoint (gs_Endpoint svc)).
      + split; [by intros [? _]|]. intros (_ & H & _). by destruct (H eq_refl).
      + split; [|naive_solver]. intros [_ ?]. split_and!; [|done|done]. by intros [?|?]. }
  apply str_eqb_false in E2. destruct (str_eqb (gs_Mode svc) ServiceModeBaseline) eqn:E3.
  - apply str_eqb_true in E3. rewrite app_nil, !err_if_nil, !negb_false_iff, !str_eqb_true, E3. split; [|naive_solver].
    intros [? ?]. split_and!; [|done|done]. by intros [?|?].
  - apply str_eqb_false in E3. split; [|done]. intros _. split_and!; [naive_solver|done..].
Qed.
Lemma prefix_errors_nil (s p : gostring) (e : field_error) :
  err_if (negb (str_eqb s []) && negb (HasPrefix s p)) e = [] <-> (s = [] \/ p `prefix_of` s).
Proof. rewrite err_if_nil, andb_false_iff, !negb_false_iff, str_eqb_true, HasPrefix_spec. done. Qed.
Lemma service_errors_nil svc p seen :
  fst (validatePreviewGroupService svc p seen) = [] <-> gs_Name svc ∉ seen /\ well_formed_service svc.
Proof.
  cbn [validatePreviewGroupService fst]. rewrite !app_nil, mode_errors_nil, prefix_errors_nil.
  rewrite !err_if_nil, str_eqb_false, bool_decide_eq_false, andb_false_iff, negb_false_iff, str_eqb_true.
  unfold well_formed_service, blocked_namespace. rewrite bool_decide_eq_false.
  assert (([] : gostring) ∉ blockedNamespaces) as Hb by (apply (bool_decide_unpack _); vm_compute; done).
  split; [|naive_solver]. intros (? & ? & ? & [E|?] & ?); split_and!; try done. by rewrite E.
Qed.
Lemma services_errors_nil services i seen : services_errors i services seen = [] <->
  NoDup (map gs_Name services) /\ Forall well_formed_service services /\ (forall x, x ∈ map gs_Name services -> x ∉ seen).
Proof.
  revert i seen. induction services as [|svc services IH]; intros i seen; cbn [services_errors map].
  { split; [|done]. intros _. split_and!; [constructor|constructor|]. by intros x ?%elem_of_nil. }
  destruct (validatePreviewGroupService svc _ seen) as [errs seen'] eqn:E.
  pose proof (service_errors_nil svc (spec_path [ #"services"] ++ [Index i]) seen) as Hs. rewrite E in Hs. cbn [fst] in Hs.
  assert (seen' = {[gs_Name svc]} ∪ seen) as -> by (unfold validatePreviewGroupService in E; congruence).
  rewrite app_nil, Hs, IH, NoDup_cons, Forall_cons. setoid_rewrite elem_of_cons. set_solver.
Qed.
Lemma validatePreviewGroup_nil pg : validatePreviewGroup pg = [] <-> well_formed_group pg.
Proof.
  unfold validatePreviewGroup, well_formed_group. rewrite !app_nil, !err_if_nil, str_eqb_false, bool_decide_eq_false, services_errors_nil.
  set_solver.
Qed.
(** the preview groups that are admitted, on creation and on update, are
    those with a routing value and at least one service, whose services have
    different names, an image, a reachable endpoint or neither as their mode
    asks for, no namespace of the cluster, and an absolute path prefix. *)
Theorem admitted_groups pg old :
  (previewGroup_ValidateCreate pg = Ok tt <-> well_formed_group pg) /\
  (previewGroup_ValidateUpdate old pg = Ok tt <-> well_formed_group pg).
Proof. unfold previewGroup_ValidateCreate, previewGroup_ValidateUpdate. by rewrite ToAggregate_Ok, validatePreviewGroup_nil. Qed.

(** ** Environments *)
Definition local_refs (ns : gostring) : list SecretRef -> Prop := Forall (fun ref => sref_Namespace ref = [] \/ sref_Namespace ref = ns).
Definition well_formed_manifests (m : ManifestSource) : Prop :=
  mf_Type m = #"url" -> #"http://" `prefix_of` TrimSpace (mf_URL m) \/ #"https://" `prefix_of` TrimSpace (mf_URL m).
Definition well_formed_atlas (a : AtlasSpec) : Prop :=
  (at_Mode a = #"versioned" -> TrimSpace (at_MigrationConfigMap a) <> []) /\
  (at_Mode a = #"declarative" -> TrimSpace (at_SchemaConfigMap a) <> []).
Definition whenever {A} (o : option A) (P : A -> Prop) : Prop := forall a, o = Some a -> P a.
(** Every reference to a secret is to one of its own namespace. *)
Definition own_secrets (env : Environment) : Prop :=
  let spec := ev_Spec env in
  local_refs (ev_Namespace env) (es_EnvFrom spec) /\ local_refs (ev_Namespace env) (dep_EnvFrom (es_Deploy spec)) /\
  whenever (db_MigrationJob (es_Database spec)) (fun job => local_refs (ev_Namespace env) (mj_EnvFrom job)).
Definition well_formed_environment (env : Environment) : Prop :=
  let spec := ev_Spec env in
  ev_Namespace env ∉ blockedNamespaces /\
  TrimSpace (src_Provider (es_Source spec)) ∈ source_providers /\ TrimSpace (src_Branch (es_Source spec)) <> [] /\
  own_secrets env /\
  (rt_Mode (es_Routing spec) = #"subdomain" -> TrimSpace (rt_BaseDomain (es_Routing spec)) <> []) /\
  whenever (dep_Manifests (es_Deploy spec)) well_formed_manifests /\
  whenever (db_Atlas (es_Database spec)) well_formed_atlas /\
  whenever (es_ServiceConfig spec) (fun cfg => sc_Endpoint cfg = [] \/ valid_endpoint (sc_Endpoint cfg)).
Lemma whenever_Some {A} (a : A) P : whenever (Some a) P <-> P a.
Proof. unfold whenever. naive_solver. Qed.
Lemma whenever_None {A} (P : A -> Prop) : whenever None P <-> True.
Proof. unfold whenever. naive_solver. Qed.
Lemma blank_false s : blank s = false <-> TrimSpace s <> [].
Proof. apply str_eqb_false. Qed.
Lemma validateSecretRefs_nil refs ns p : validateSecretRefs refs ns p = [] <-> local_refs ns refs.
Proof.
  unfold validateSecretRefs, local_refs. generalize O. induction refs as [|ref refs IH]; intros i; cbn [secret_ref_errors]; [by rewrite Forall_nil|].
  by rewrite app_nil, IH, Forall_cons, err_if_nil, andb_false_iff, !negb_false_iff, !str_eqb_true.
Qed.
Lemma source_errors_nil source : source_errors source = [] <->
  TrimSpace (src_Provider source) ∈ source_providers /\ TrimSpace (src_Branch source) <> [].
Proof.
  unfold source_errors. rewrite app_nil, err_if_nil, blank_false. destruct (str_eqb _ []) eqn:E.
  - apply str_eqb_true in E. rewrite E. split; [by intros [? _]|]. intros [Hin _]. exfalso. revert Hin.
    apply (bool_decide_unpack _). vm_compute. done.
  - by rewrite err_if_nil, negb_false_iff, bool_decide_eq_true.
Qed.
Lemma manifest_errors_nil m : manifest_errors m = [] <-> whenever m well_formed_manifests.
Proof.
  destruct m as [m|]; cbn [manifest_errors]; [|by rewrite whenever_None]. rewrite whenever_Some. unfold well_formed_manifests.
  destruct (str_eqb (mf_Type m) #"url") eqn:Et; cbn [negb].
  - apply str_eqb_true in Et. destruct (str_eqb (TrimSpace (mf_URL m)) []) eqn:Eu.
    + apply str_eqb_true in Eu. rewrite Eu. split; [done|]. intros H. destruct (H Et) as [[k ?]|[k ?]]; done.
    + rewrite err_if_nil, andb_false_iff, !negb_false_iff, !HasPrefix_spec. naive_solver.
  - apply str_eqb_false in Et. naive_solver.
Qed.
Lemma atlas_errors_nil a : atlas_errors a = [] <-> whenever a well_formed_atlas.
Proof.
  destruct a as [a|]; cbn [atlas_errors]; [|by rewrite whenever_None]. rewrite whenever_Some. unfold well_formed_atlas.
  destruct (str_eqb (at_Mode a) #"versioned") eqn:Ev.
  - apply str_eqb_true in Ev. rewrite Ev, err_if_nil, blank_false. split; [|naive_solver]. intros ?. split; done.
  - apply str_eqb_false in Ev. destruct (str_eqb (at_Mode a) #"declarative") eqn:Ed.
    + apply str_eqb_true in Ed. rewrite Ed, err_if_nil, blank_false. split; [|naive_solver]. intros ?. split; done.
    + apply str_eqb_false in Ed. naive_solver.
Qed.
Lemma endpoint_errors_nil cfg : endpoint_errors cfg = [] <->
  whenever cfg (fun cfg => sc_Endpoint cfg = [] \/ valid_endpoint (sc_Endpoint cfg)).
Proof.
  destruct cfg as [cfg|]; cbn [endpoint_errors]; [|by rewrite whenever_None]. rewrite whenever_Some.
  destruct (str_eqb (sc_Endpoint cfg) []) eqn:E; [apply str_eqb_true in E; naive_solver|]. apply str_eqb_false in E.
  rewrite <- validateEndpoint_None. destruct (validateEndpoint _); naive_solver.
Qed.
Lemma ValidateEnvironment_nil env : ValidateEnvironment env = [] <-> well_formed_environment env.
Proof.
  unfold ValidateEnvironment, well_formed_environment, own_secrets. cbv zeta.
  rewrite !app_nil, !err_if_nil, source_errors_nil, !validateSecretRefs_nil, manifest_errors_nil, atlas_errors_nil, endpoint_errors_nil.
  unfold blocked_namespace. rewrite bool_decide_eq_false, andb_false_iff, blank_false, str_eqb_false.
  assert (match db_MigrationJob (es_Database (ev_Spec env)) with Some job => validateSecretRefs (mj_EnvFrom job) (ev_Namespace env) (spec_path [ #"database"; #"migrationJob"; #"envFrom"]) | None => [] end = [] <->
    whenever (db_MigrationJob (es_Database (ev_Spec env))) (fun job => local_refs (ev_Namespace env) (mj_EnvFrom job))) as ->.
  { destruct (db_MigrationJob _); [by rewrite whenever_Some, validateSecretRefs_nil|by rewrite whenever_None]. }
  destruct (decide (rt_Mode (es_Routing (ev_Spec env)) = #"subdomain")); naive_solver.
Qed.
(** C23: the environments that are admitted are outside the namespaces of the
    cluster, name a provider and a branch, take secrets of their own namespace
    only, and have what their routing, manifests, schema migrations and
    endpoint need; an update of one that is being deleted is admitted as it
    is, so that its finalizer can be removed. *)
Theorem admitted_environments env old :
  (environment_ValidateCreate env = Ok tt <-> well_formed_environment env) /\
  (environment_ValidateUpdate old env = Ok tt <-> is_Some (ev_DeletionTimestamp env) \/ well_formed_environment env).
Proof.
  unfold environment_ValidateCreate, environment_ValidateUpdate. rewrite ToAggregate_Ok, ValidateEnvironment_nil.
  split; [done|]. case_bool_decide as Hd; [naive_solver|]. rewrite ToAggregate_Ok, ValidateEnvironment_nil. naive_solver.
Qed.

(** ** Agent tasks *)
Definition well_formed_budget (budget : gostring) : Prop := budget = [] \/ exists v, ParseFloat budget = Some v /\ positive v.
Definition well_formed_task (task : AgentTask) : Prop :=
  let spec := tk_Spec task in
  tk_Namespace task ∉ blockedNamespaces /\ TrimSpace (sp_Objective spec) <> [] /\
  isValidRepoURL (TrimSpace (sp_RepoURL spec)) = true /\ well_formed_budget (sp_BudgetUSD spec) /\
  0 <= sp_BudgetTokens spec /\ 0 <= sp_MaxIterations spec /\ 0 <= sp_TimeoutSeconds spec.
Lemma positive_le_zero v : positive v -> is_nan v || is_inf v || f_le v f_zero = false.
Proof. by intros (m & e & ->). Qed.
Lemma budget_errors_nil budget : budget_errors budget = [] <-> well_formed_budget budget.
Proof.
  unfold budget_errors, well_formed_budget. destruct (str_eqb budget []) eqn:E; [apply str_eqb_true in E; naive_solver|].
  apply str_eqb_false in E. rewrite err_if_nil. destruct (ParseFloat budget) as [v|]; [|naive_solver]. split.
  - intros H%positive_intro. eauto.
  - intros [?|(w & [= <-] & Hw)]; [done|]. by apply positive_le_zero.
Qed.
Lemma repository_errors_nil url : repository_errors url = [] <-> isValidRepoURL (TrimSpace url) = true.
Proof.
  unfold repository_errors. destruct (str_eqb (TrimSpace url) []) eqn:E.
  - apply str_eqb_true in E. rewrite E. done.
  - by rewrite err_if_nil, negb_false_iff.
Qed.
Lemma non_negative_nil p n : non_negative p n = [] <-> 0 <= n.
Proof. unfold non_negative. rewrite err_if_nil. apply Z.ltb_ge. Qed.
Lemma ValidateAgentTask_nil task : ValidateAgentTask task = [] <-> well_formed_task task.
Proof.
  unfold ValidateAgentTask, well_formed_task. cbv zeta.
  rewrite !app_nil, !err_if_nil, repository_errors_nil, budget_errors_nil, !non_negative_nil, blank_false.
  unfold blocked_namespace. by rewrite bool_decide_eq_false.
Qed.
(** the agent tasks that are admitted are outside the namespaces of the
    cluster, have an objective, a repository that can be cloned, limits that
    are not negative and a budget that is empty or a positive number; and the
    controller can hold them to that budget: once the cost recorded is a
    number that has reached it, the limit check reports it. *)
Theorem admitted_tasks task : agentTask_ValidateCreate task = Ok tt <-> well_formed_task task.
Proof. unfold agentTask_ValidateCreate. by rewrite ToAggregate_Ok, ValidateAgentTask_nil. Qed.
(** a budget that is admitted is one the controller can hold the task to,
    whatever becomes of its status: it is a positive number, and once the
    recorded cost is a number that has reached it the limit check reports it. *)
Theorem admitted_budget_enforced task : agentTask_ValidateCreate task = Ok tt -> sp_BudgetUSD (tk_Spec task) <> [] ->
  exists budget, ParseFloat (sp_BudgetUSD (tk_Spec task)) = Some budget /\ positive budget /\
    forall f cost, ParseFloat (st_CostUSD (f (tk_Status task))) = Some cost -> f_le budget cost = true ->
      is_Some (checkBudgetOrIterationLimit (with_Status f task)).
Proof.
  intros (_ & _ & _ & Hb & _)%ToAggregate_Ok%ValidateAgentTask_nil Hne. destruct Hb as [?|(budget & Hp & Hpos)]; [done|].
  exists budget. split_and!; [done..|]. intros f cost Hc Hle. unfold checkBudgetOrIterationLimit.
  destruct (_ && (_ <? _)); [eauto|]. cbn [tk_Spec tk_Status with_Status]. rewrite Hp, Hc, Hle.
  assert (f_gt budget f_zero = true) as -> by exact (f_lt_positive _ Hpos).
  rewrite (proj2 (str_eqb_false _ _) Hne). destruct (str_eqb (st_CostUSD _) []) eqn:E; [|cbn; eauto].
  apply str_eqb_true in E. rewrite E in Hc. done.
Qed.
End AdmissionFacts.

(** * Executions *)
Module AdmissionDemo.
#[local] Existing Instances ascii_unicode no_ipv6.
Definition service (mode image endpoint : gostring) : PreviewGroupServiceSpec :=
  mkGroupService #"api" image mode endpoint #"shop" 80 [] #"/api" [] [] [] [] None None None None.
Definition group (services : list PreviewGroupServiceSpec) (deleted : option Time) : PreviewGroup :=
  mkPreviewGroup #"g" #"default" #"uid" ∅ ∅ [ #"divergedev.com/previewgroup"] time_zero deleted 1 1
    (gp_set_Services services (gp_set_Routing (mkGroupRouting [] [] #"pr-7" [] []) no_group_spec)) no_group_status.
Definition task (budget : gostring) : AgentTask :=
  mkTask #"t" #"default" #"uid" ∅ ∅ [] time_zero None 1 1
    (mkTaskSpec #"fix the build" #"https://github.com/acme/app" [] [] [] [] [] 0 budget 0 0 [] false false) empty_status.
Example local_service : validatePreviewGroup (group [service #"local" [] #"100.64.23.42:8080"] None) = [].
Proof. vm_compute. done. Qed.
Example bare_address : validateEndpoint #"100.64.23.42" = Some #"endpoint must include a port (e.g. 100.64.23.42:8080)".
Proof. vm_compute. done. Qed.
Example refused_budgets : map (fun b => budget_errors b) [ #"0"; #"-1"; #"NaN"; #"inf"; #"five"; #"1e400"; #"2.5"] =
  map (fun b => [Invalid [Child #"spec"; Child #"budgetUSD"] (Text b) (#"must be a positive decimal amount (e.g. " ++ quoted #"5.00" ++ #")")])
    [ #"0"; #"-1"; #"NaN"; #"inf"; #"five"; #"1e400"] ++ [[]].
Proof. vm_compute. done. Qed.

(** an update that only takes the finalizer from a deleted preview group
    is refused when the group is not well formed, where the same update of an
    environment is admitted: a group stored before the checks, or before they
    were stricter, is held until its specification is repaired. *)
Theorem deleted_group_stays :
  let env := ev_set_Finalizers [] (new_environment #"default" #"e") in
  let deleted_env := mkEnvironment #"e" #"default" #"uid" ∅ ∅ [ #"divergedev.com/finalizer"] [] time_zero (Some time_zero) 1 1 no_env_spec no_env_status in
  let deleted := group [] (Some time_zero) in
  previewGroup_ValidateUpdate deleted (pg_set_Finalizers [] deleted) = Err [Required [Child #"spec"; Child #"services"] #"at least one service is required"] /\
  is_ok (environment_ValidateCreate env) = false /\
  environment_ValidateUpdate deleted_env (ev_set_Finalizers [] deleted_env) = Ok tt.
Proof. vm_compute. done. Qed.

Lemma endpoint_of_host_and_port_witness : validateEndpoint #"localhost:65535" = None /\ validateEndpoint #"[::1]:80" = None.
Proof.
  split.
  - refine (proj1 (endpoint_of_host_and_port #"localhost" 65535 _ _) _); [discriminate|lia|].
    apply (bool_decide_unpack _); vm_compute; exact I.
  - refine (proj2 (endpoint_of_host_and_port #"::1" 80 _ _) _); [discriminate|lia|].
    apply (bool_decide_unpack _); vm_compute; exact I.
Defined.
Lemma admitted_budget_enforced_witness : exists budget, ParseFloat #"2.5" = Some budget /\ positive budget /\
  is_Some (checkBudgetOrIterationLimit (with_Status (set_Usage 1 [] #"2.75" 10 []) (task #"2.5"))).
Proof.
  destruct (admitted_budget_enforced (task #"2.5")) as (budget & Hb & Hp & H); [vm_compute; reflexivity|discriminate|].
  exists budget. split; [exact Hb|]. split; [exact Hp|].
  refine (H (set_Usage 1 [] #"2.75" 10 []) (default f_zero (ParseFloat #"2.75")) _ _); [vm_compute; reflexivity|].
  vm_compute in Hb. injection Hb as <-. vm_compute. reflexivity.
Defined.
End AdmissionDemo.
