(* ===== verification/SlashCommandsFacts.v ===== *)
(** * What the slash commands guarantee

    A comment on a pull request reaches the tasks of that pull request and no
    other; a parsed command is well formed; and two amounts the parser lets
    through that it should not. *)

From S2P Require Import Prelude GoStrings GoFloat GoTime GoURL GoQuote GoDuration.
From S2P Require Import Macaroon TokenStore KubeApi AgentTask AgentTaskService SlashCommands ResourceNames EnvTypes Conditions AgentTaskPreview AgentTaskController.
Local Open Scope Z_scope.

(** ** Parsed commands *)
Definition known_actions : list gostring :=
  [ #"fix"; #"guide"; #"preview"; #"teardown"; #"status"; #"help"; #"pause"; #"extend-ttl"; #"resume"; #"budget"].
Definition well_formed (c : SlashCommand) : Prop :=
  cm_Action c ∈ known_actions /\
  (cm_Action c = #"fix" -> cm_Objective c <> []) /\ (cm_Action c = #"guide" -> cm_Guidance c <> []) /\
  (cm_Action c = #"extend-ttl" -> 0 < cm_Duration c < 2 ^ 63) /\ 0 <= cm_Tokens c < 2 ^ 63.

Lemma ParseInt_range s n : ParseInt s = Some n -> - 2 ^ 63 <= n < 2 ^ 63.
Proof.
  unfold ParseInt. set (nd := match s with [] => _ | _ => _ end). destruct nd as [neg ds]. destruct ds; [done|].
  destruct (digits_value _ _) as [v|]; cbn; [|done]. destruct (_ && _) eqn:E; [|done]. intros [= <-]. bool_simpl. lia.
Qed.
Lemma resume_arg_tokens acc f acc' : 0 <= snd acc < 2 ^ 63 -> resume_arg acc f = Some acc' -> 0 <= snd acc' < 2 ^ 63.
Proof.
  destruct acc as [usd tokens]. cbn. intros Ht. unfold resume_arg. destruct (is_amount _).
  - destruct (ParseFloat _); cbn; [|done]. destruct (f_le _ _); [done|]. by intros [= <-].
  - destruct (positive_int _) as [tok|] eqn:E.
    + intros [= <-]. cbn. unfold positive_int in E. destruct (ParseInt _) as [n|] eqn:En; cbn in E; [|done].
      destruct (0 <? n) eqn:E0; [|done]. injection E as <-. apply ParseInt_range in En. lia.
    + destruct (ParseFloat _); cbn; [|done]. destruct (f_gt _ _); [|done]. by intros [= <-].
Qed.
Lemma resume_args_tokens fs acc acc' : 0 <= snd acc < 2 ^ 63 -> resume_args fs acc = Some acc' -> 0 <= snd acc' < 2 ^ 63.
Proof.
  revert acc. induction fs as [|f fs IH]; intros acc Ht; cbn; [by intros [= <-]|].
  destruct (resume_arg acc f) eqn:E; cbn; [|done]. apply IH. by eapply resume_arg_tokens.
Qed.
Definition plain_actions : list gostring := [ #"preview"; #"teardown"; #"status"; #"help"; #"pause"].
Lemma plain_known a : a ∈ plain_actions -> a ∈ known_actions.
Proof. unfold plain_actions, known_actions. rewrite !elem_of_cons. tauto. Qed.
Lemma not_plain : #"extend-ttl" ∉ plain_actions.
Proof. by apply (bool_decide_eq_false_1 (_ ∈ _)). Qed.
Lemma known_extra : #"extend-ttl" ∈ known_actions /\ #"resume" ∈ known_actions /\ #"budget" ∈ known_actions /\
  #"fix" ∈ known_actions /\ #"guide" ∈ known_actions.
Proof. split_and!; by apply (bool_decide_eq_true_1 (_ ∈ _)). Qed.

Lemma parse_line_well_formed U l c : parse_line l U = Parsed c -> well_formed c.
Proof.
  assert (forall a, a ∈ known_actions -> a <> #"fix" -> a <> #"guide" ->
    forall usd tokens d, (a = #"extend-ttl" -> 0 < d < 2 ^ 63) -> 0 <= tokens < 2 ^ 63 -> well_formed (mkCommand a [] [] d usd tokens)) as Hgen.
  { intros a Ha H1 H2 usd tokens d H3 H4. unfold well_formed. cbn. tauto. }
  destruct known_extra as (Kx & Kr & Kb & Kf & Kg).
  unfold parse_line. destruct (negb _); [done|]. set (rest := TrimSpace _). destruct (Fields rest) as [|first more]; [done|].
  set (sub := ToLower first). set (arg := TrimSpace _). clearbody sub arg. unfold str_eqb.
  case_bool_decide as E1.
  { case_bool_decide as E2; [done|]. intros [= <-]. unfold well_formed. cbn. split_and!; [done|done|done|done|lia|lia]. }
  case_bool_decide as E2.
  { case_bool_decide as E3; [done|]. intros [= <-]. unfold well_formed. cbn. split_and!; [done|done|done|done|lia|lia]. }
  case_bool_decide as E3.
  { intros [= <-]. apply Hgen; [by apply plain_known|done|done| |lia]. intros ->. by apply not_plain in E3. }
  case_bool_decide as E4.
  { case_bool_decide as E5; [intros [= <-]; apply Hgen; [done|done|done| |lia]; intros _; by vm_compute|].
    destruct more as [|d more]; [done|]. destruct (ParseDuration d) as [v|] eqn:Ed; [|done].
    destruct (v <=? 0) eqn:E0; [done|]. intros [= <-]. apply ParseDuration_range in Ed. apply Hgen; [done|done|done| |lia]. intros _. lia. }
  destruct (_ || _) eqn:E5; [|done]. destruct (parseResumeArgs _) as [[usd tokens]|] eqn:Er; [|done]. intros [= <-].
  apply resume_args_tokens in Er; [|cbn; lia]. apply orb_true_iff in E5. rewrite !bool_decide_eq_true in E5.
  apply Hgen; [by destruct E5 as [-> | ->]|done|done|done|done].
Qed.

(** C38: whatever the comment, a command the parser accepts is one of the ten
    of the reference, a fix has an objective and a guide a text, the duration
    of an extension is positive and fits an int64, and a token amount is
    between 0 and the largest int64. *)
Theorem parsed_command_well_formed {U : GoUnicode} comment c : ParseSlashCommand comment = Some c -> well_formed c.
Proof.
  unfold ParseSlashCommand. induction (split_lines comment _) as [|l ls IH]; cbn; [done|].
  destruct (parse_line l U) as [| |c'] eqn:El; [exact IH|done|]. intros [= <-]. by eapply parse_line_well_formed.
Qed.

(** ** The tasks a command reaches *)
Section Confined.
Context {U : GoUnicode} {N : GoNetip}.
Context {T : Type} {C : TaskClient T} {L : TaskClientLaws T} {A : TaskAdmin T} {AL : TaskAdminLaws T}.
Context {P : TaskUpsert T} {PL : TaskUpsertLaws T} {E : Type} {K : CmdCluster E}.
Context (traceparent : gostring) (now : Time).
(** A stored task. *)
Context (k : task_key) (t : AgentTask).
Definition holds (w : T * E) : Prop := task_stored (fst w) !! k = Some t.
(** [m] started with the task stored leaves it, and answers in [Q]. *)
Definition leaves {X} (m : cmd (T := T) (E := E) X) (Q : X -> Prop) : Prop :=
  forall w, holds w -> holds (snd (m w)) /\ match fst (m w) with Ok x => Q x | Err _ => True end.

Lemma leaves_andthen {X Y} (m : cmd (T := T) (E := E) X) (f : X -> cmd Y) Q Q' :
  leaves m Q -> (forall x, Q x -> leaves (f x) Q') -> leaves (andthen m f) Q'.
Proof.
  intros Hm Hf w Hw. unfold andthen. specialize (Hm w Hw). destruct (m w) as [[x|e] w1]; cbn in *; [|tauto].
  destruct Hm as [H1 H2]. by apply (Hf x H2).
Qed.
Lemma leaves_says {X} (x : X) (Q : X -> Prop) : Q x -> leaves (says x) Q.
Proof. by intros HQ w Hw. Qed.
Lemma leaves_errs {X} e (Q : X -> Prop) : leaves (errs e) Q.
Proof. by intros w Hw. Qed.
Lemma leaves_env {X} wrap (f : E -> ares X * E) : leaves (on_env wrap f) (fun _ => True).
Proof. intros [ts e] Hw. unfold on_env. destruct (f e) as [[x|x] e1]; by split. Qed.
Lemma leaves_each {X Y} (f : X -> cmd (T := T) (E := E) Y) l : Forall (fun x => leaves (f x) (fun _ => True)) l -> leaves (each f l) (fun _ => True).
Proof.
  induction 1 as [|x l Hx Hl IH]; [by apply leaves_says|]. eapply leaves_andthen; [exact Hx|]. intros y _.
  eapply leaves_andthen; [exact IH|]. intros ys _. by apply leaves_says.
Qed.
Lemma leaves_each_env {X Y} wrap (f : X -> E -> ares Y * E) l : leaves (each (fun x => on_env wrap (f x)) l) (fun _ => True).
Proof. apply leaves_each, Forall_true. intros x. apply leaves_env. Qed.

(** Writes of other tasks. *)
Lemma updated_other (t0 cur : AgentTask) (k0 : task_key) (g v : Z) (m : gmap task_key AgentTask) : key_of cur = k0 -> k0 <> k -> m !! k = Some t ->
  store_updated (updated cur t0 g v) m !! k = Some t.
Proof.
  intros Hk Hne Hm. unfold store_updated. assert (key_of (updated cur t0 g v) = k0) as -> by exact Hk.
  destruct (_ && _); [by rewrite lookup_delete_ne|by rewrite lookup_insert_ne].
Qed.
Lemma leaves_update wrap t0 : key_of t0 <> k -> leaves (on_task wrap (task_Update t0)) (fun t' => key_of t' = key_of t0).
Proof using L AL.
  intros Hne [ts e] Hw. unfold on_task, holds in *. destruct (task_Update t0 ts) as [[t'|x] ts1] eqn:Eu; cbn in *.
  - apply task_Update_Ok in Eu as (cur & g & v & Hc & _ & -> & ->). pose proof (task_stored_key _ _ _ Hc) as Hk.
    split; [by eapply updated_other|exact Hk].
  - apply task_Update_Err in Eu. by rewrite Eu.
Qed.
Lemma leaves_delete wrap k0 : k0 <> k -> leaves (on_task wrap (ignore_missing (task_Delete k0))) (fun _ => True).
Proof using L AL.
  intros Hne [ts e] Hw. unfold on_task, ignore_missing, holds in *. cbn in Hw.
  destruct (task_Delete k0 ts) as [[[]|x] ts1] eqn:Ed; [|apply task_Delete_Err in Ed; destruct x; cbn; by rewrite Ed].
  apply task_Delete_Ok in Ed as (cur & Hc & [[_ Hs]|(nw & v & Hs)]); cbn; rewrite Hs; split; try done;
    [by rewrite lookup_delete_ne|by rewrite lookup_insert_ne].
Qed.
Lemma leaves_list_tasks wrap ns : leaves (list_tasks wrap ns)
  (fun l => forall t0, t0 ∈ l -> (key_of t0 = k -> t0 = t) /\ (ns = [] \/ tk_Namespace t0 = ns)).
Proof using L AL.
  eapply leaves_andthen with (Q := fun l => forall t0, t0 ∈ fst l -> (key_of t0 = k -> t0 = t) /\ (ns = [] \/ tk_Namespace t0 = ns));
    [|intros x Hx; by apply leaves_says].
  intros [ts e] Hw. unfold on_task, holds in *. cbn in Hw.
  pose proof (task_List_pure ns None [] ts) as Hp. pose proof (task_List_Ok ns None [] ts) as Hl.
  destruct (task_List ns None [] ts) as [[[l next]|x] ts1]; cbn in *; subst ts1; [|done]. split; [done|].
  intros t0 Ht0. destruct (Hl l next eq_refl t0 Ht0) as [H1 H2]. split; [|done]. intros <-. congruence.
Qed.

(** The task is not of the pull request. *)
Definition unmatched (ns repoURL : gostring) (prNumber : Z) : Prop :=
  (ns <> [] /\ tk_Namespace t <> ns) \/ matchesTaskPR t repoURL prNumber (Itoa prNumber) = false.
Lemma leaves_matched wrap ns repoURL prNumber : unmatched ns repoURL prNumber ->
  leaves (matched_tasks wrap ns repoURL prNumber) (fun l => Forall (fun t0 => key_of t0 <> k) l).
Proof using L AL.
  intros Hu. eapply leaves_andthen; [apply leaves_list_tasks|]. intros l Hl. apply leaves_says.
  apply Forall_forall. intros t0 [Hm Hin]%list_elem_of_filter Hk. destruct (Hl t0 Hin) as [H1 H2]. specialize (H1 Hk). subst t0.
  destruct Hu as [[Hns Ht]|Ht]; [|congruence]. destruct H2; congruence.
Qed.
Lemma leaves_envs_of ns repoURL prNumber : leaves (findMatchingEnvironments ns repoURL prNumber) (fun _ => True).
Proof using L AL. eapply leaves_andthen; [apply leaves_env|]. intros l _. by apply leaves_says. Qed.
Lemma leaves_groups_of repoURL prNumber : leaves (findMatchingPreviewGroups repoURL prNumber) (fun _ => True).
Proof using L AL. eapply leaves_andthen; [apply leaves_env|]. intros l _. by apply leaves_says. Qed.
Lemma leaves_suspend_one suspend usd tokens t0 : key_of t0 <> k -> leaves (suspend_one suspend usd tokens t0) (fun _ => True).
Proof using L AL.
  intros Hne. eapply leaves_andthen; [by apply leaves_update|]. intros t' Hk. cbn in Hk.
  destruct (_ && _); [|by apply leaves_says]. intros [ts e] Hw. unfold holds in *. cbn in *.
  destruct (task_StatusUpdate _ ts) as [[t2|x] ts1] eqn:Es; cbn.
  - apply task_StatusUpdate_Ok in Es as (cur & v & Hc & _ & _ & ->). split; [|done].
    change (key_of (with_Status _ t')) with (key_of t'). rewrite Hk. rewrite lookup_insert_ne; [done|exact Hne].
  - apply task_StatusUpdate_Err in Es. by rewrite Es.
Qed.
Lemma leaves_each_matched {Y} (f : AgentTask -> cmd (T := T) (E := E) Y) l : Forall (fun t0 => key_of t0 <> k) l ->
  (forall t0, key_of t0 <> k -> leaves (f t0) (fun _ => True)) -> leaves (each f l) (fun _ => True).
Proof using L AL. intros Hl Hf. apply leaves_each. eapply Forall_impl; [exact Hl|exact Hf]. Qed.
Lemma leaves_true {X} (m : cmd (T := T) (E := E) X) Q : leaves m Q -> leaves m (fun _ => True).
Proof using L AL. intros Hm w Hw. destruct (Hm w Hw) as [H1 _]. split; [done|]. by destruct (fst (m w)). Qed.

Lemma new_task_key k0 : key_of (new_task k0) = k0.
Proof. by destruct k0. Qed.
Lemma leaves_upsert wrap k0 f : k0 <> k -> (forall t0, key_of (f t0) = key_of t0) ->
  leaves (on_task wrap (task_CreateOrUpdate k0 f)) (fun _ => True).
Proof using L PL.
  intros Hne Hf [ts e] Hw. unfold on_task, holds in *. cbn in Hw.
  destruct (task_CreateOrUpdate k0 f ts) as [[t'|x] ts1] eqn:Eu; cbn; [|apply task_CreateOrUpdate_Err in Eu; by rewrite Eu].
  split; [|done]. apply task_CreateOrUpdate_Ok in Eu as [(_ & uid & nw & v & _ & ->)|(cur & Hc & [(_ & _ & ->)|(g & v & -> & ->)])].
  - by rewrite lookup_insert_ne.
  - exact Hw.
  - eapply updated_other; [exact (task_stored_key _ _ _ Hc)|done|done].
Qed.
Lemma leaves_suspend ns repoURL prNumber suspend usd tokens : unmatched ns repoURL prNumber ->
  leaves (executeSuspendTaskCommand ns repoURL prNumber suspend usd tokens) (fun _ => True).
Proof using L AL.
  intros Hu. eapply leaves_andthen; [by apply leaves_matched|]. intros l Hl.
  eapply leaves_andthen; [apply leaves_each_matched; [exact Hl|]; intros t0 H0; by apply leaves_suspend_one|]. intros [|t0 more] _.
  - by apply leaves_says.
  - destruct suspend; by apply leaves_says.
Qed.
Lemma leaves_budget ns repoURL prNumber usd tokens : unmatched ns repoURL prNumber ->
  leaves (executeBudgetCommand ns repoURL prNumber usd tokens) (fun _ => True).
Proof using L AL.
  intros Hu. eapply leaves_andthen; [by apply leaves_matched|]. intros l Hl.
  eapply leaves_andthen; [apply leaves_each_matched; [exact Hl|]; intros t0 H0; eapply leaves_true; by apply leaves_update|].
  intros [|t0 more] _; by apply leaves_says.
Qed.
Lemma leaves_guide ns guidance repoURL prNumber : unmatched ns repoURL prNumber ->
  leaves (executeGuideCommand now ns guidance repoURL prNumber) (fun _ => True).
Proof using L AL.
  intros Hu. unfold executeGuideCommand. destruct (str_eqb _ _); [apply leaves_errs|].
  eapply leaves_andthen; [apply leaves_list_tasks|]. intros l Hl. cbv beta zeta.
  set (l' := filter _ l). assert (Forall (fun t0 => key_of t0 <> k) l') as Hl'.
  { apply Forall_forall. intros t0 [[_ Hm] Hin]%list_elem_of_filter Hk. destruct (Hl t0 Hin) as [H1 H2]. specialize (H1 Hk). subst t0.
    destruct Hu as [[Hns Ht]|Ht]; [|congruence]. destruct H2; congruence. }
  clearbody l'. destruct l' as [|t0 more]; [by apply leaves_says|].
  eapply leaves_andthen; [apply leaves_each_matched; [exact Hl'|]; intros t1 H1; eapply leaves_true; by apply leaves_update|].
  intros x _. destruct more; by apply leaves_says.
Qed.
Lemma leaves_teardown ns repoURL prNumber : unmatched ns repoURL prNumber ->
  leaves (executeTeardownCommand ns repoURL prNumber) (fun _ => True).
Proof using L AL.
  intros Hu. eapply leaves_andthen; [apply leaves_envs_of|]. intros envs _.
  eapply leaves_andthen; [apply leaves_each_env|]. intros _ _. eapply leaves_andthen; [apply leaves_groups_of|]. intros pgs _.
  eapply leaves_andthen; [apply leaves_each_env|]. intros _ _. eapply leaves_andthen; [by apply leaves_matched|]. intros l Hl.
  eapply leaves_andthen; [apply leaves_each_matched; [exact Hl|]; intros t0 H0; by apply leaves_delete|]. intros x _. by apply leaves_says.
Qed.
Lemma leaves_extend ns dur repoURL prNumber : leaves (executeExtendTTLCommand ns dur repoURL prNumber) (fun _ => True).
Proof using L AL.
  eapply leaves_andthen; [apply leaves_envs_of|]. intros envs _.
  eapply leaves_andthen; [apply leaves_each_env|]. intros _ _. eapply leaves_andthen; [apply leaves_groups_of|]. intros pgs _.
  eapply leaves_andthen; [apply leaves_each_env|]. intros x _. by apply leaves_says.
Qed.
Lemma leaves_preview ns repoURL branch prNumber : leaves (executePreviewCommand traceparent ns repoURL branch prNumber) (fun _ => True).
Proof using L AL. eapply leaves_andthen; [apply leaves_env|]. intros x _. by apply leaves_says. Qed.
Lemma leaves_status ns repoURL prNumber : leaves (executeStatusCommand ns repoURL prNumber) (fun _ => True).
Proof using L AL.
  eapply leaves_andthen; [apply leaves_list_tasks|]. intros l _. eapply leaves_andthen with (Q := fun _ => True).
  - intros w Hw. destruct (leaves_envs_of ns repoURL prNumber w Hw) as [H1 _].
    destruct (findMatchingEnvironments ns repoURL prNumber w) as [[x|[]] w1]; by split.
  - intros envs _. cbv zeta. destruct (filter _ l), envs; by apply leaves_says.
Qed.
Lemma leaves_fix ns objective repoURL branch prNumber :
  k <> (ns, buildCommandTaskName (if str_eqb repoURL [] then #"https://github.com/unknown/repository" else repoURL) prNumber objective) ->
  leaves (executeFixCommand ns objective repoURL branch prNumber) (fun _ => True).
Proof using L PL.
  intros Hne. unfold executeFixCommand. destruct (str_eqb (TrimSpace _) _); [apply leaves_errs|].
  eapply leaves_andthen; [apply leaves_upsert; [congruence|done]|]. intros x _. by apply leaves_says.
Qed.
(** Whatever the command. *)
Definition out_of_reach (ns : gostring) (c : SlashCommand) (repoURL : gostring) (prNumber : Z) : Prop :=
  if str_eqb (cm_Action c) #"fix"
  then k <> (or_default ns, buildCommandTaskName (if str_eqb repoURL [] then #"https://github.com/unknown/repository" else repoURL)
                              prNumber (cm_Objective c))
  else tk_Namespace t <> or_default ns \/ matchesTaskPR t repoURL prNumber (Itoa prNumber) = false.
Lemma leaves_command ns c repoURL branch prNumber : out_of_reach ns c repoURL prNumber ->
  leaves (ExecuteSlashCommandWithFeedback traceparent now ns c repoURL branch prNumber) (fun _ => True).
Proof using L AL PL.
  intros Hu. unfold out_of_reach in Hu. unfold ExecuteSlashCommandWithFeedback. fold (or_default ns). cbv zeta.
  destruct (str_eqb (cm_Action c) #"fix"); [by apply leaves_fix|].
  assert (unmatched (or_default ns) repoURL prNumber) as Hun.
  { destruct Hu as [Hu|Hu]; [left|by right]. split; [|done]. unfold or_default, str_eqb. by case_bool_decide. }
  destruct (str_eqb _ #"guide"); [by apply leaves_guide|]. destruct (str_eqb _ #"preview"); [by apply leaves_preview|].
  destruct (str_eqb _ #"teardown"); [by apply leaves_teardown|]. destruct (str_eqb _ #"extend-ttl"); [by apply leaves_extend|].
  destruct (str_eqb _ #"pause"); [by apply leaves_suspend|]. destruct (str_eqb _ #"resume"); [by apply leaves_suspend|].
  destruct (str_eqb _ #"budget"); [by apply leaves_budget|]. destruct (str_eqb _ #"status"); [by apply leaves_status|].
  destruct (str_eqb _ #"help"); [by apply leaves_says|apply leaves_errs].
Qed.
End Confined.

(** a command given on a pull request changes no task of another: a task
    in another namespace, or that does not belong to the pull request, is
    stored unchanged after it, whether it succeeds or fails; and a fix writes
    the one task whose name is computed from the repository, the pull request
    and the objective. *)
Theorem command_confined {U : GoUnicode} {N : GoNetip} {T} {C : TaskClient T} {L : TaskClientLaws T} {A : TaskAdmin T}
    {AL : TaskAdminLaws T} {P : TaskUpsert T} {PL : TaskUpsertLaws T} {E} {K : CmdCluster E}
    traceparent now ns c repoURL branch prNumber (ts ts' : T) (e e' : E) r k t :
  ExecuteSlashCommandWithFeedback traceparent now ns c repoURL branch prNumber (ts, e) = (r, (ts', e')) ->
  task_stored ts !! k = Some t ->
  (if str_eqb (cm_Action c) #"fix"
   then k <> (or_default ns, buildCommandTaskName (if str_eqb repoURL [] then #"https://github.com/unknown/repository" else repoURL)
                               prNumber (cm_Objective c))
   else tk_Namespace t <> or_default ns \/ matchesTaskPR t repoURL prNumber (Itoa prNumber) = false) ->
  task_stored ts' !! k = Some t.
Proof.
  intros He Ht Hu. destruct (leaves_command traceparent now k t ns c repoURL branch prNumber Hu (ts, e) Ht) as [H1 _]. by rewrite He in H1.
Qed.

(** ** Executions *)
Module SlashDemo.
(** A cluster with no environments and no preview groups. *)
#[export] Instance cluster : CmdCluster unit := {
  envs_List _ e := (Ok [], e); envs_Update _ e := (Err NotFound, e); envs_Delete _ e := (Err NotFound, e);
  envs_CreateOrUpdate _ _ e := (Ok tt, e); groups_List e := (Ok None, e); groups_Update _ e := (Err NotFound, e);
  groups_Delete _ e := (Err NotFound, e) }.
(** [CreateOrUpdate] refuses a callback that renames the object. *)
#[export] Instance upsert : TaskUpsert TaskServer.t := {
  task_CreateOrUpdate k f w :=
    match task_Get k w with
    | (Ok cur, w1) => if decide (key_of (f cur) = k) then task_Update (with_Version (tk_ResourceVersion cur) (f cur)) w1 else (Err OtherError, w1)
    | (Err NotFound, w1) => if decide (key_of (f (new_task k)) = k) then task_Create (f (new_task k)) w1 else (Err OtherError, w1)
    | (Err e, w1) => (Err e, w1)
    end }.
#[export, program] Instance upsert_laws : TaskUpsertLaws TaskServer.t.
Next Obligation.
  intros k f w t' w' Hu. cbn -[task_Create task_Update] in Hu. unfold TaskServer.get in Hu.
  destruct (TaskServer.objects w !! k) as [cur|] eqn:Eo; cbn -[task_Create task_Update] in Hu.
  - right. exists cur. split; [exact Eo|]. right. destruct (decide _) as [Hk|]; [|done].
    apply task_Update_Ok in Hu as (cur' & g & v & Hc & _ & -> & Hs). change (key_of (with_Version _ (f cur))) with (key_of (f cur)) in Hc.
    rewrite Hk in Hc. assert (cur' = cur) as -> by (cbn in Hc; congruence). exists g, v. done.
  - left. split; [exact Eo|]. destruct (decide _) as [Hk|]; [|done].
    apply task_Create_Ok in Hu as (uid & nw & v & _ & -> & Hs). exists uid, nw, v. split; [done|]. by rewrite Hk in Hs.
Qed.
Next Obligation.
  intros k f w e w' Hu. cbn -[task_Create task_Update] in Hu. unfold TaskServer.get in Hu.
  destruct (TaskServer.objects w !! k) as [cur|] eqn:Eo; cbn -[task_Create task_Update] in Hu; destruct (decide _).
  - by apply task_Update_Err in Hu.
  - by injection Hu as _ <-.
  - by apply task_Create_Err in Hu.
  - by injection Hu as _ <-.
Qed.

(** A task of pull request 7 over its budget, and one of pull request 8. *)
Definition repo : gostring := #"https://github.com/acme/app".
Definition task (name branch : gostring) : AgentTask :=
  mkTask name #"default" #"uid" ∅ ∅ [] time_zero None 1 1
    (mkTaskSpec #"fix" repo #"main" branch #"pod" [] [] 0 #"5.00" 0 0 [] false true)
    (mkTaskStatus AgentTaskPhasePaused [] [] [] 1 [] #"7.00" 0 [] [] [] 0).
Definition server : TaskServer.t :=
  TaskServer.mk {[(#"default", #"task-7") := task #"task-7" #"pr-7"; (#"default", #"task-8") := task #"task-8" #"pr-8"]} 1.
Definition on_comment (comment : gostring) : option (result cmd_error gostring * (TaskServer.t * unit)) :=
  c ← ParseSlashCommand (U := ascii_unicode) comment;
  Some (ExecuteSlashCommandWithFeedback (U := ascii_unicode) (N := no_ipv6) [] time_zero [] c repo #"pr-7" 7 (server, tt)).
Definition limit_of (name : gostring) (w : TaskServer.t) : option gostring :=
  t ← task_stored w !! (#"default", name); checkBudgetOrIterationLimit t.
Definition budget_of (name : gostring) (w : TaskServer.t) : option gostring :=
  t ← task_stored w !! (#"default", name); Some (sp_BudgetUSD (tk_Spec t)).
End SlashDemo.
#[local] Existing Instance SlashDemo.cluster.
#[local] Existing Instance SlashDemo.upsert.
#[local] Existing Instance SlashDemo.upsert_laws.

(** the amount [$nan] passes the check that amounts are positive: the
    command [/diverge resume $nan] makes the budget of a task not a number,
    and with it the USD limit the controller enforces is gone. *)
Theorem nan_budget_lifts_limit :
  SlashDemo.limit_of #"task-7" SlashDemo.server = Some #"Reached USD budget limit ($7.00 / $5.00); paused" /\
  (cm_BudgetUSD <$> ParseSlashCommand (U := ascii_unicode) #"/diverge resume $nan") = Some #"NaN" /\
  (x ← SlashDemo.on_comment #"/diverge resume $nan"; SlashDemo.budget_of #"task-7" (fst (snd x))) = Some #"NaN" /\
  (x ← SlashDemo.on_comment #"/diverge resume $nan"; Some (SlashDemo.limit_of #"task-7" (fst (snd x)))) = Some None.
Proof. vm_compute. auto. Qed.

(** The command that adds to a budget is accepted and not in the reference,
    and a glued name is taken for the command. *)
Lemma help_omits_budget : Contains HelpMessage #"/diverge budget" = false /\
  is_Some (ParseSlashCommand (U := ascii_unicode) #"/diverge budget +$5") /\
  (cm_Action <$> ParseSlashCommand (U := ascii_unicode) #"/divergepause") = Some #"pause".
Proof. split; [vm_compute; done|]. split; [by eexists|]. vm_compute. done. Qed.

Definition demo_pause_comment : SlashCommand := mkCommand #"pause" [] [] 0 [] 0.
Definition demo_paused_cluster : result cmd_error gostring * (TaskServer.t * unit) :=
  ExecuteSlashCommandWithFeedback (U := ascii_unicode) (N := no_ipv6) [] time_zero [] demo_pause_comment SlashDemo.repo #"pr-7" 7
    (SlashDemo.server, tt).
Lemma demo_pause_parsed : ParseSlashCommand (U := ascii_unicode) #"/diverge pause" = Some demo_pause_comment.
Proof. vm_compute. reflexivity. Qed.
Lemma demo_task_8 : task_stored SlashDemo.server !! (#"default", #"task-8") = Some (SlashDemo.task #"task-8" #"pr-8").
Proof. vm_compute. reflexivity. Qed.
Lemma demo_unmatched : matchesTaskPR (U := ascii_unicode) (SlashDemo.task #"task-8" #"pr-8") SlashDemo.repo 7 (Itoa 7) = false.
Proof. vm_compute. reflexivity. Qed.
Lemma demo_pause_eta : demo_paused_cluster = (fst demo_paused_cluster, (fst (snd demo_paused_cluster), snd (snd demo_paused_cluster))).
Proof. by destruct demo_paused_cluster as [r [w e]]. Qed.
Lemma parsed_command_well_formed_witness : well_formed demo_pause_comment.
Proof. exact (parsed_command_well_formed (U := ascii_unicode) #"/diverge pause" demo_pause_comment demo_pause_parsed). Defined.
Lemma command_confined_witness :
  task_stored (fst (snd demo_paused_cluster)) !! (#"default", #"task-8") = Some (SlashDemo.task #"task-8" #"pr-8").
Proof.
  exact (command_confined (U := ascii_unicode) (N := no_ipv6) [] time_zero [] demo_pause_comment SlashDemo.repo #"pr-7" 7
    SlashDemo.server _ tt _ _ (#"default", #"task-8") (SlashDemo.task #"task-8" #"pr-8") demo_pause_eta demo_task_8 (or_intror demo_unmatched)).
Defined.
