(* ===== verification/WebhookFacts.v ===== *)
(** * What the webhooks guarantee

    Only an authenticated request acts; a delivery is handled once; a pull
    request event touches the one environment named after the pull request,
    and a comment the tasks, environments and preview groups of its pull
    request. *)

From S2P Require Import Prelude EarlyReturn GoStrings GoCrypto GoTime GoURL GoJSON KubeApi AgentTask Dedup ObjectApi EnvTypes GroupTypes Resources.
From S2P Require Import AgentTaskService Config DotDiverge SlashCommands SlashCommandsFacts Cluster WebhookTypes Webhook WebhookGitHub WebhookGitLab.
Local Open Scope Z_scope.

(** ** Parts of the world the steps leave alone *)
Section Leaves.
Context {U : GoUnicode} {V : GoUpper} {N : GoNetip} {O : AgeOrder}.
Context {T : Type} {C : TaskClient T} {A : TaskAdmin T} {P : TaskUpsert T}.
Context {EV : Type} {EA : ObjectApi Environment EV} {EU : UpsertApi Environment EV}.
Context {GV : Type} {GA : ObjectApi PreviewGroup GV} {GU : UpsertApi PreviewGroup GV}.
Abbreviation W := (web_world T EV GV).
Context {X : Type} (f : W -> X).
Lemma on_cluster_leaves {B} (g : Cluster EV GV -> B * Cluster EV GV) :
  (forall w c, f (mkWeb (wb_tasks w) c (wb_seen w) (wb_comments w) (wb_requests w)) = f w) -> leaves_of f (on_cluster g).
Proof. intros H. apply leaves_of_on. intros w. destruct (g (wb_cluster w)). apply H. Qed.
Lemma on_tasks_leaves {B} (g : T -> B * T) :
  (forall w t, f (mkWeb t (wb_cluster w) (wb_seen w) (wb_comments w) (wb_requests w)) = f w) -> leaves_of f (on_tasks g).
Proof. intros H. apply leaves_of_on. intros w. destruct (g (wb_tasks w)). apply H. Qed.
Lemma commanded_leaves {B} (m : cmd (T := T) (E := Cluster EV GV) B) :
  (forall w t c, f (mkWeb t c (wb_seen w) (wb_comments w) (wb_requests w)) = f w) -> leaves_of f (commanded m).
Proof. intros H. apply leaves_of_on. intros w. destruct (m _) as [r [t c]]. apply H. Qed.
Lemma or_500_leaves {E B} (r : result E B) : leaves_of f (or_500 r).
Proof. destruct r; [apply leaves_of_ret|apply leaves_of_finish]. Qed.
Lemma feedback_leaves h project n body :
  (forall w l, f (mkWeb (wb_tasks w) (wb_cluster w) (wb_seen w) l (wb_requests w)) = f w) -> leaves_of f (postFeedbackComment h project n body).
Proof. intros H. apply leaves_of_when, leaves_of_modify. intros w. apply H. Qed.
End Leaves.
#[export] Hint Extern 2 (leaves_of _ (on_cluster _)) => apply on_cluster_leaves; done : leaves.
#[export] Hint Extern 2 (leaves_of _ (on_tasks _)) => apply on_tasks_leaves; done : leaves.
#[export] Hint Extern 2 (leaves_of _ (commanded _)) => apply commanded_leaves; done : leaves.
#[export] Hint Extern 2 (leaves_of _ (postFeedbackComment _ _ _ _)) => apply feedback_leaves; done : leaves.
#[export] Hint Extern 2 (leaves_of _ (modify _)) => apply leaves_of_modify; done : leaves.
#[export] Hint Resolve or_500_leaves : leaves.

Section Steps.
Context {U : GoUnicode} {V : GoUpper} {N : GoNetip} {O : AgeOrder}.
Context {T : Type} {C : TaskClient T} {A : TaskAdmin T} {P : TaskUpsert T}.
Context {EV : Type} {EA : ObjectApi Environment EV} {EU : UpsertApi Environment EV}.
Context {GV : Type} {GA : ObjectApi PreviewGroup GV} {GU : UpsertApi PreviewGroup GV}.
Abbreviation W := (web_world T EV GV).
Context (h : WebhookHandler) (o : Outside).
(** After the check of the delivery nothing touches the deliveries. *)
Lemma run_command_seen tp project fix_command c url branch n : (forall a b n, leaves_of (wb_seen (T := T) (EV := EV) (GV := GV)) (fix_command a b n)) ->
  leaves_of wb_seen (run_command h o tp project fix_command c url branch n).
Proof. intros Hf. unfold run_command, answer_command. auto 10 with leaves. Qed.
Lemma handle_fix_seen tp annotate c url branch n : leaves_of (wb_seen (T := T) (EV := EV) (GV := GV)) (handle_fix h o tp annotate c url branch n).
Proof. unfold handle_fix. auto 12 with leaves. Qed.
Lemma pull_request_seen tp body : leaves_of (wb_seen (T := T) (EV := EV) (GV := GV)) (GitHub.handle_pull_request h o tp body).
Proof. unfold GitHub.handle_pull_request, GitHub.reconcileEnvironment, GitHub.deleteEnvironment, reconcile_environment, delete_environment. auto 12 with leaves. Qed.
Lemma issue_comment_seen tp body : leaves_of (wb_seen (T := T) (EV := EV) (GV := GV)) (GitHub.handleIssueComment h o tp body).
Proof.
  unfold GitHub.handleIssueComment, GitHub.branch_of, or_branch, stored_branch, GitHub.fetchGitHubPRHeadRef.
  pose proof run_command_seen. pose proof handle_fix_seen. unfold GitHub.handleFixCommand. auto 20 with leaves.
Qed.
Lemma merge_request_seen tp payload : leaves_of (wb_seen (T := T) (EV := EV) (GV := GV)) (GitLab.handle_merge_request h o tp payload).
Proof. unfold GitLab.handle_merge_request, GitLab.reconcileEnvironment, GitLab.deleteEnvironment, reconcile_environment, delete_environment. auto 12 with leaves. Qed.
Lemma note_seen tp body : leaves_of (wb_seen (T := T) (EV := EV) (GV := GV)) (GitLab.handleNoteEvent h o tp body).
Proof.
  unfold GitLab.handleNoteEvent, GitLab.branch_of, or_branch, stored_branch.
  pose proof run_command_seen. pose proof handle_fix_seen. unfold GitLab.handleFixCommand. auto 20 with leaves.
Qed.
End Steps.
#[export] Hint Resolve run_command_seen handle_fix_seen pull_request_seen issue_comment_seen merge_request_seen note_seen : leaves.

(** ** Authentication *)
Section Requests.
Context {U : GoUnicode} {V : GoUpper} {N : GoNetip} {O : AgeOrder}.
Context {T : Type} {C : TaskClient T} {A : TaskAdmin T} {P : TaskUpsert T}.
Context {EV : Type} {EA : ObjectApi Environment EV} {EU : UpsertApi Environment EV}.
Context {GV : Type} {GA : ObjectApi PreviewGroup GV} {GU : UpsertApi PreviewGroup GV}.
Abbreviation W := (web_world T EV GV).
Context (h : WebhookHandler) (o : Outside).
Implicit Types (w : W) (rq : Request).

(** What GitHub must have sent. *)
Definition github_authentic rq : Prop :=
  rq_Method rq = #"POST" /\ TrimSpace (wk_SecretToken h) <> [] /\
  Header_Get rq #"X-Hub-Signature-256" = #"sha256=" ++ hex_encode (hmac_sha256 (wk_SecretToken h) (rq_Body rq)).
(** And GitLab. *)
Definition gitlab_authentic rq : Prop :=
  rq_Method rq = #"POST" /\ TrimSpace (wk_SecretToken h) <> [] /\ Header_Get rq #"X-Gitlab-Token" = wk_SecretToken h.

Lemma ReadAll_body limit rq body : ReadAll limit rq = Some body -> body = rq_Body rq.
Proof. unfold ReadAll. destruct (_ || _); congruence. Qed.
Lemma github_authenticate_cases rq w :
  (exists st, 400 <= st /\ GitHub.authenticate h rq w = (inl st, w)) \/
  (github_authentic rq /\ ReadAll maxBody rq = Some (rq_Body rq) /\ GitHub.authenticate h rq w = (inr (rq_Body rq), w)).
Proof.
  unfold GitHub.authenticate, github_authentic, GitHub.signature. destruct (ReadAll maxBody rq) as [body|] eqn:Hb.
  - pose proof (ReadAll_body _ _ _ Hb) as ->. set (sg := #"sha256=" ++ _). clearbody sg. unfold str_eqb, bind, when, finish, ret.
    case_bool_decide as Hm; cbn; [|left; by exists 405]. case_bool_decide as Hs; cbn; [left; by exists 401|].
    case_bool_decide as He; cbn; [left; by exists 401|]. case_bool_decide as Hx; cbn; [by right|left; by exists 401].
  - left. unfold str_eqb. case_bool_decide as Hm; [by exists 400|by exists 405].
Qed.
Lemma gitlab_token_cases rq : ValidateGitLabWebhookToken rq (wk_SecretToken h) = true ->
  TrimSpace (wk_SecretToken h) <> [] /\ Header_Get rq #"X-Gitlab-Token" = wk_SecretToken h.
Proof.
  unfold ValidateGitLabWebhookToken, str_eqb. by repeat case_bool_decide.
Qed.
Lemma gitlab_authenticate_cases rq w :
  (exists st, 400 <= st /\ GitLab.authenticate h rq w = (inl st, w)) \/ (gitlab_authentic rq /\ GitLab.authenticate h rq w = (inr tt, w)).
Proof.
  unfold GitLab.authenticate, bind, when, finish, ret, gitlab_authentic. unfold str_eqb.
  case_bool_decide as Hm; cbn; [|left; by exists 405].
  destruct (ValidateGitLabWebhookToken _ _) eqn:Hv; cbn; [right|left; by exists 401].
  apply gitlab_token_cases in Hv as [H1 H2]. done.
Qed.

Lemma github_authenticated rq w : github_authentic rq -> ReadAll maxBody rq = Some (rq_Body rq) ->
  GitHub.authenticate h rq w = (inr (rq_Body rq), w).
Proof.
  intros (Hm & Hs & Hx) Hb. unfold GitHub.authenticate, GitHub.signature. rewrite Hm, Hb, Hx. set (sg := hex_encode _). clearbody sg.
  assert (#"sha256=" ++ sg <> []) as Hne by done.
  unfold str_eqb. rewrite (bool_decide_eq_false_2 _ Hs), (bool_decide_eq_false_2 _ Hne), (bool_decide_eq_true_2 (#"sha256=" ++ sg = #"sha256=" ++ sg)) by done. done.
Qed.
Lemma gitlab_authenticated rq w : gitlab_authentic rq -> GitLab.authenticate h rq w = (inr tt, w).
Proof.
  intros (Hm & Hs & Hx). unfold GitLab.authenticate, ValidateGitLabWebhookToken, str_eqb. rewrite Hm, Hx.
  rewrite (bool_decide_eq_false_2 _ Hs), (bool_decide_eq_true_2 (wk_SecretToken h = wk_SecretToken h)) by done. done.
Qed.

(** C3: the GitHub webhook changes nothing of the cluster, of the deliveries
    and posts nothing for a request that is not a POST signed with the secret,
    and refuses every request while the secret is blank. *)
Theorem github_signature_required rq w : ~ github_authentic rq ->
  snd (GitHub.ServeHTTP h o rq w) = w /\ 400 <= fst (GitHub.ServeHTTP h o rq w).
Proof.
  intros Hn. unfold GitHub.ServeHTTP, returned. destruct (github_authenticate_cases rq w) as [(st & Hst & He)|[Ha _]]; [|done].
  by erewrite bind_inl by exact He.
Qed.
(** nor do the two GitLab webhooks for a request that is not a POST with
    the secret as its token. *)
Theorem gitlab_token_required rq w : ~ gitlab_authentic rq ->
  (snd (GitLab.ServeHTTP h o rq w) = w /\ 400 <= fst (GitLab.ServeHTTP h o rq w)) /\
  (snd (GroupHook.ServeHTTP h o rq w) = w /\ 400 <= fst (GroupHook.ServeHTTP h o rq w)).
Proof.
  intros Hn. split.
  - unfold GitLab.ServeHTTP, returned. destruct (gitlab_authenticate_cases rq w) as [(st & Hst & He)|[Ha _]]; [|done].
    by erewrite bind_inl by exact He.
  - unfold GroupHook.ServeHTTP, returned. cbv zeta. destruct (str_eqb (rq_Method rq) #"POST") eqn:Hm; [|done].
    destruct (ValidateGitLabWebhookToken rq (wk_SecretToken h)) eqn:Hv; [|done]. destruct Hn. apply gitlab_token_cases in Hv as [H1 H2].
    unfold str_eqb in Hm. bool_simpl. done.
Qed.

(** ** Deliveries *)
(** A delivery that is not remembered yet. *)
Definition new_delivery (id : gostring) w : Prop :=
  id <> [] /\ exists m, wb_seen w = Some m /\ fst (IsDuplicate id (ot_now o) m) = false.
Definition remembers (id : gostring) (at_ : Time) w : Prop := exists m, wb_seen w = Some m /\ m !! id = Some at_.
Lemma duplicate_new id w : new_delivery id w -> exists w1, duplicate o id w = (inr false, w1) /\ remembers id (ot_now o) w1.
Proof.
  intros (Hid & m & Hm & Hd). unfold duplicate, on. rewrite Hm. destruct (IsDuplicate id (ot_now o) m) as [b m'] eqn:E. cbn in Hd. subst b.
  eexists. split; [reflexivity|]. exists m'. split; [done|]. unfold IsDuplicate, str_eqb in E. rewrite bool_decide_false in E by done.
  repeat case_match; simplify_eq; apply lookup_insert_eq.
Qed.
Lemma duplicate_remembered (o' : Outside) id at_ w : id <> [] -> remembers id at_ w -> fresh (ot_now o') at_ = true ->
  duplicate o' id w = (inr true, w).
Proof.
  intros Hid (m & Hm & Hl) Hf. unfold duplicate, on. rewrite Hm. unfold IsDuplicate, str_eqb. rewrite bool_decide_false by done.
  rewrite Hl, Hf. destruct w. cbn in *. by subst.
Qed.
Lemma remembers_same id at_ w w' : wb_seen w' = wb_seen w -> remembers id at_ w -> remembers id at_ w'.
Proof. unfold remembers. by intros ->. Qed.

(** a delivery the webhooks have taken up is not processed again when it
    comes again within the time deliveries are remembered: the answer is 200
    and nothing changes, for GitHub and for GitLab. *)
Theorem redelivery_ignored (o' : Outside) rq w : fresh (ot_now o') (ot_now o) = true ->
  (github_authentic rq -> new_delivery (Header_Get rq #"X-GitHub-Delivery") w -> ReadAll maxBody rq = Some (rq_Body rq) ->
   let w1 := snd (GitHub.ServeHTTP h o rq w) in GitHub.ServeHTTP h o' rq w1 = (StatusOK, w1)) /\
  (gitlab_authentic rq -> new_delivery (Header_Get rq #"X-Gitlab-Event-UUID") w ->
   let w1 := snd (GitLab.ServeHTTP h o rq w) in GitLab.ServeHTTP h o' rq w1 = (StatusOK, w1)).
Proof.
  intros Hf. split.
  - intros Ha Hn Hb w1. assert (remembers (Header_Get rq #"X-GitHub-Delivery") (ot_now o) w1) as Hr.
    + subst w1. unfold GitHub.ServeHTTP, returned. rewrite (bind_inr _ _ _ _ _ (github_authenticated rq w Ha Hb)).
      destruct (duplicate_new _ _ Hn) as (w2 & Hd & Hr). rewrite (bind_inr _ _ _ _ _ Hd), (bind_inr _ _ tt w2 w2) by done.
      eapply remembers_same; [|exact Hr]. apply (leaves_of_returned wb_seen).
      auto with leaves.
    + clearbody w1. unfold GitHub.ServeHTTP, returned. rewrite (bind_inr _ _ _ _ _ (github_authenticated rq w1 Ha Hb)).
      by rewrite (bind_inr _ _ _ _ _ (duplicate_remembered _ _ _ _ (proj1 Hn) Hr Hf)).
  - intros Ha Hn w1. assert (remembers (Header_Get rq #"X-Gitlab-Event-UUID") (ot_now o) w1) as Hr.
    + subst w1. unfold GitLab.ServeHTTP, returned. rewrite (bind_inr _ _ _ _ _ (gitlab_authenticated rq w Ha)).
      destruct (duplicate_new _ _ Hn) as (w2 & Hd & Hr). rewrite (bind_inr _ _ _ _ _ Hd), (bind_inr _ _ tt w2 w2) by done.
      eapply remembers_same; [|exact Hr]. apply (leaves_of_returned wb_seen).
      auto with leaves.
    + clearbody w1. unfold GitLab.ServeHTTP, returned. rewrite (bind_inr _ _ _ _ _ (gitlab_authenticated rq w1 Ha)).
      by rewrite (bind_inr _ _ _ _ _ (duplicate_remembered _ _ _ _ (proj1 Hn) Hr Hf)).
Qed.
End Requests.

(** ** Confinement *)
Section Confined.
Context {U : GoUnicode} {V : GoUpper} {N : GoNetip} {O : AgeOrder}.
Context {T : Type} {C : TaskClient T} {L : TaskClientLaws T} {A : TaskAdmin T} {AL : TaskAdminLaws T} {P : TaskUpsert T} {PL : TaskUpsertLaws T}.
Context {EV : Type} {EA : ObjectApi Environment EV} {EU : UpsertApi Environment EV} {EL : ObjectApiLaws Environment EV} {EUL : UpsertApiLaws Environment EV}.
Context {GV : Type} {GA : ObjectApi PreviewGroup GV} {GU : UpsertApi PreviewGroup GV} {GL : ObjectApiLaws PreviewGroup GV} {GUL : UpsertApiLaws PreviewGroup GV}.
Abbreviation W := (web_world T EV GV).
Context (h : WebhookHandler) (o : Outside).
Implicit Types (w : W) (rq : Request).

(** *** Events of pull requests *)
Definition env_at (k : obj_key) w : option Environment := stored (cl_envs (wb_cluster w)) !! k.
Definition group_at (k : obj_key) w : option PreviewGroup := stored (cl_groups (wb_cluster w)) !! k.
(** All but the environments. *)
Definition beside_envs w := (wb_tasks w, cl_groups (wb_cluster w), wb_comments w, wb_requests w).
Definition beside_groups w := (wb_tasks w, cl_envs (wb_cluster w), wb_seen w, wb_comments w, wb_requests w).
Lemma in_envs_at {B} k (g : EV -> B * EV) : spares k g -> leaves_of (O := Z) (env_at k) (on_cluster (T := T) (GV := GV) (in_envs g)).
Proof.
  intros Hg. apply leaves_of_on. intros w. unfold env_at, in_envs. specialize (Hg (cl_envs (wb_cluster w))).
  by destruct (g (cl_envs (wb_cluster w))).
Qed.
Lemma in_envs_beside {B} (g : EV -> B * EV) : leaves_of (O := Z) beside_envs (on_cluster (T := T) (GV := GV) (in_envs g)).
Proof. apply leaves_of_on. intros w. unfold in_envs. by destruct (g (cl_envs (wb_cluster w))). Qed.
Lemma in_groups_at {B} k (g : GV -> B * GV) : spares k g -> leaves_of (O := Z) (group_at k) (on_cluster (T := T) (EV := EV) (in_groups g)).
Proof.
  intros Hg. apply leaves_of_on. intros w. unfold group_at, in_groups. specialize (Hg (cl_groups (wb_cluster w))).
  by destruct (g (cl_groups (wb_cluster w))).
Qed.
Lemma in_groups_beside {B} (g : GV -> B * GV) : leaves_of (O := Z) beside_groups (on_cluster (T := T) (EV := EV) (in_groups g)).
Proof. apply leaves_of_on. intros w. unfold in_groups. by destruct (g (cl_groups (wb_cluster w))). Qed.
Lemma spares_ignore {Ob St} `{ObjectApiLaws Ob St} k (g : St -> ares unit * St) : spares (Ob := Ob) k g -> spares (Ob := Ob) k (ignore_missing g).
Proof. intros Hg x. specialize (Hg x). unfold ignore_missing. by destruct (g x) as [[?|[]] x1]. Qed.
Lemma reconcile_env_at k tp name src : k <> (default_ns h, name) -> leaves_of (O := Z) (env_at k) (reconcile_environment h o tp name src).
Proof using EL EUL. intros Hk. apply in_envs_at, spares_upsert. intros H. apply Hk. by rewrite <- H. Qed.
Lemma delete_env_at k name : k <> (default_ns h, name) -> leaves_of (O := Z) (env_at k) (delete_environment h name).
Proof using EL. intros Hk. by apply in_envs_at, spares_ignore, spares_delete. Qed.
Lemma duplicate_at {X} (f : W -> X) id : (forall w s, f (mkWeb (wb_tasks w) (wb_cluster w) s (wb_comments w) (wb_requests w)) = f w) ->
  leaves_of f (duplicate (T := T) (EV := EV) (GV := GV) o id).
Proof. intros Hf. apply leaves_of_on. intros w. destruct (wb_seen w) as [m|]; [|done]. destruct (IsDuplicate id (ot_now o) m). apply Hf. Qed.
Lemma github_authenticate_at {X} (f : W -> X) rq : leaves_of f (GitHub.authenticate h rq).
Proof. intros w. by destruct (github_authenticate_cases h rq w) as [(st & _ & ->)|(_ & _ & ->)]. Qed.
Lemma gitlab_authenticate_at {X} (f : W -> X) rq : leaves_of f (GitLab.authenticate h rq).
Proof. intros w. by destruct (gitlab_authenticate_cases h rq w) as [(st & _ & ->)|(_ & ->)]. Qed.
Hint Resolve in_envs_beside in_groups_beside github_authenticate_at gitlab_authenticate_at : leaves.
Hint Extern 2 (leaves_of _ (duplicate _ _)) => apply duplicate_at; done : leaves.

Lemma github_body rq w body w1 : GitHub.authenticate h rq w = (inr body, w1) -> body = rq_Body rq /\ w1 = w.
Proof. destruct (github_authenticate_cases h rq w) as [(st & _ & ->)|(_ & _ & ->)]; [done|]. by intros [= <- <-]. Qed.

(** a GitHub event other than a comment changes at most the environment
    named after the repository and the number of the pull request, in the
    namespace of the handler: no other environment, no task, no preview group,
    and nothing is posted. *)
Theorem pull_request_confined rq w : Header_Get rq #"X-GitHub-Event" <> #"issue_comment" ->
  beside_envs (snd (GitHub.ServeHTTP h o rq w)) = beside_envs w /\
  forall k, (forall payload, Unmarshal dec_pr_payload no_pr_payload (rq_Body rq) = Some payload -> k <> (default_ns h, GitHub.env_name payload)) ->
    env_at k (snd (GitHub.ServeHTTP h o rq w)) = env_at k w.
Proof using EL EUL.
  intros He. unfold GitHub.ServeHTTP, str_eqb. rewrite (bool_decide_false (Header_Get rq #"X-GitHub-Event" = #"issue_comment")) by done. split.
  - apply leaves_of_returned. unfold GitHub.handle_pull_request, GitHub.reconcileEnvironment, GitHub.deleteEnvironment, reconcile_environment, delete_environment.
    auto 20 with leaves.
  - intros k Hk. apply leaves_of_returned. apply leaves_of_bind_run; [auto with leaves|]. intros w0 body w1 [-> _]%github_body.
    unfold GitHub.handle_pull_request, GitHub.reconcileEnvironment, GitHub.deleteEnvironment.
    destruct (Unmarshal dec_pr_payload no_pr_payload (rq_Body rq)) as [payload|]; [|auto 20 with leaves].
    specialize (Hk payload eq_refl). pose proof (reconcile_env_at k). pose proof (delete_env_at k). auto 20 with leaves.
Qed.
(** a merge request event of GitLab changes at most the environment named
    after the project and the number of the merge request; and at the webhook
    of preview groups, which never touches anything else, the one group named
    after the number. *)
Theorem merge_request_confined rq w payload : Unmarshal dec_mr_payload no_mr_payload (rq_Body rq) = Some payload ->
  my_ObjectKind payload <> #"note" -> Header_Get rq #"X-Gitlab-Event" <> #"Note Hook" ->
  (beside_envs (snd (GitLab.ServeHTTP h o rq w)) = beside_envs w /\
   forall k, k <> (default_ns h, GitLab.env_name payload) -> env_at k (snd (GitLab.ServeHTTP h o rq w)) = env_at k w) /\
  (beside_groups (snd (GroupHook.ServeHTTP h o rq w)) = beside_groups w /\
   forall k, k <> ([], GroupHook.group_name payload) -> group_at k (snd (GroupHook.ServeHTTP h o rq w)) = group_at k w).
Proof using EL EUL GL GUL.
  intros Hp Hkind Hevent. split.
  - unfold GitLab.ServeHTTP. destruct (ReadAll maxBody rq) as [body|] eqn:Hb; [|split; [|intros k Hk]; apply leaves_of_returned; auto with leaves].
    rewrite (ReadAll_body _ _ _ Hb), Hp. unfold str_eqb. rewrite (bool_decide_false _ Hkind), (bool_decide_false _ Hevent). cbn [orb].
    unfold GitLab.handle_merge_request, GitLab.reconcileEnvironment, GitLab.deleteEnvironment.
    split; [|intros k Hk; pose proof (reconcile_env_at k); pose proof (delete_env_at k)]; apply leaves_of_returned;
      unfold reconcile_environment, delete_environment in *; auto 20 with leaves.
  - unfold GroupHook.ServeHTTP. rewrite (Decode_Unmarshal _ _ _ _ Hp). unfold GroupHook.reconcilePreviewGroup, GroupHook.deletePreviewGroup.
    split; [apply leaves_of_returned; auto 20 with leaves|]. intros k Hk. apply leaves_of_returned.
    assert (forall f, leaves_of (O := Z) (group_at k) (on_cluster (T := T) (EV := EV) (in_groups (obj_CreateOrUpdate (new_group [] (GroupHook.group_name payload)) f)))) as H1
      by (intros f; apply in_groups_at, spares_upsert; intros H; apply Hk; by rewrite <- H).
    assert (leaves_of (O := Z) (group_at k) (on_cluster (T := T) (EV := EV) (in_groups (ignore_missing (obj_Delete (Ob := PreviewGroup) None ([], GroupHook.group_name payload)))))) as H2
      by (by apply in_groups_at, spares_ignore, spares_delete).
    auto 20 with leaves.
Qed.

(** *** What the events make *)
Definition keeps_life (f : Environment -> result gostring Environment) : Prop :=
  forall e e', f e = Ok e' -> ev_Finalizers e' = ev_Finalizers e /\ ev_DeletionTimestamp e' = ev_DeletionTimestamp e.
Lemma mutate_env_spec tp src e e' : mutate_environment h o tp src e = Ok e' ->
  es_Source (ev_Spec e') = src /\ ev_Annotations e' = SetTraceparentAnnotation tp (ev_Annotations e) /\
  ev_Finalizers e' = ev_Finalizers e /\ ev_DeletionTimestamp e' = ev_DeletionTimestamp e.
Proof.
  unfold mutate_environment. destruct (wk_ConfigFetcher h) as [fetch|]; [|by intros [= <-]].
  destruct (fetch _ _ _) as [data|err]; [|destruct (Contains _ _); [by intros [= <-]|done]].
  destruct (ParseDotDivergeConfig _ _ data) as [cfg|]; cbn; [|done]. by intros [= <-].
Qed.
(** The environment of the pull request after the handler has succeeded. *)
Lemma reconciled k tp src w w1 : reconcile_environment h o tp (snd k) src w = (inr (Ok tt), w1) -> fst k = default_ns h ->
  exists env, env_at k w1 = Some env /\ es_Source (ev_Spec env) = src /\ exists old, ev_Annotations env = SetTraceparentAnnotation tp old.
Proof using EL EUL.
  intros H Hns. unfold reconcile_environment, on_cluster in H. apply on_gives in H. unfold in_envs in H.
  destruct (obj_CreateOrUpdate _ _ (cl_envs (wb_cluster w))) as [x st'] eqn:E. injection H as -> <-. unfold env_at. cbn.
  assert (r_key (new_environment (default_ns h) (snd k)) = k) as Hk by (rewrite <- Hns; by destruct k).
  apply CreateOrUpdate_Ok in E as [(Hn & o' & uid & now & v & Hm & Hk' & ->)|(cur & o' & Hc & Hm & Hk' & Hs)]; rewrite Hk in *.
  - rewrite lookup_insert_eq. eexists. split; [done|]. apply mutate_env_spec in Hm as (<- & Ha & _). split; [done|]. by eexists.
  - pose proof (stored_held _ _ _ Hc) as Hh. apply mutate_env_spec in Hm as (Hsrc & Ha & Hf & Hd).
    destruct Hs as [[-> ->]|(g & v & ->)]; [exists cur; split; [done|]; split; [done|]; by eexists|].
    exists (r_update cur o' g v). split.
    + pose proof (put_own (r_update cur o' g v) (stored (cl_envs (wb_cluster w)))) as Hp. rewrite update_key, (stored_key _ _ _ Hc) in Hp.
      destruct Hp as [Hp|(_ & Hx & Hy)]; [done|]. exfalso. rewrite update_finalizers in Hx. rewrite update_deletion in Hy. cbn in Hx, Hy.
      unfold released in Hh. cbn in Hh. rewrite <- Hf, Hx, bool_decide_true, bool_decide_true in Hh by done. done.
    + split; [done|]. by eexists.
Qed.
Lemma deleted k w w1 : delete_environment h (snd k) w = (inr (Ok tt), w1) -> fst k = default_ns h ->
  forall env, env_at k w1 = Some env -> is_Some (ev_DeletionTimestamp env).
Proof using EL.
  intros H Hns env He. unfold delete_environment, on_cluster in H. apply on_gives in H. unfold in_envs, ignore_missing in H. rewrite <- Hns in H.
  assert ((fst k, snd k) = k) as Hk by (by destruct k). rewrite Hk in H.
  destruct (obj_Delete None k (cl_envs (wb_cluster w))) as [[[]|x] st'] eqn:E.
  - injection H as <-. unfold env_at in He. cbn in He. by apply (Delete_marks _ _ _ _ _ E He).
  - destruct x; try done. injection H as <-. unfold env_at in He. cbn in He.
    pose proof (obj_Delete_NotFound _ _ _ _ E) as Hn. apply obj_Delete_Err in E. rewrite E in He. congruence.
Qed.
Lemma reconcile_env_fails tp name src w e w1 k : reconcile_environment h o tp name src w = (inr (Err e), w1) -> env_at k w1 = env_at k w.
Proof using EUL.
  intros H. unfold reconcile_environment, on_cluster in H. apply on_gives in H. unfold in_envs in H.
  destruct (obj_CreateOrUpdate _ _ _) as [x st'] eqn:E. injection H as -> <-. unfold env_at. cbn. by rewrite (CreateOrUpdate_Err _ _ _ _ _ E).
Qed.
Lemma delete_env_fails name w e w1 k : delete_environment h name w = (inr (Err e), w1) -> env_at k w1 = env_at k w.
Proof using EL.
  intros H. unfold delete_environment, on_cluster in H. apply on_gives in H. unfold in_envs, ignore_missing in H.
  destruct (obj_Delete _ _ _) as [[[]|x] st'] eqn:E; [done|]. apply obj_Delete_Err in E. unfold env_at.
  destruct x; injection H as _ <-; cbn; by rewrite E.
Qed.
(** A run of a step that answers 500 when it fails. *)
Lemma then_500 {E B} (m : run Z W (result E B)) w st w' :
  returned (bind m (fun r => bind (or_500 r) (fun _ => ret StatusOK))) w = (st, w') -> (forall w0, exists r w1, m w0 = (inr r, w1)) ->
  exists r, m w = (inr r, w') /\ st = if is_ok r then StatusOK else StatusInternalServerError.
Proof.
  intros H Hm. destruct (Hm w) as (r & w1 & Hr). exists r. unfold returned in H. rewrite (bind_inr _ _ _ _ _ Hr) in H.
  destruct r; injection H as <- <-; done.
Qed.
Lemma on_cluster_runs {B} (f : Cluster EV GV -> B * Cluster EV GV) w : exists r w1, on_cluster (T := T) f w = (inr r, w1).
Proof. unfold on_cluster, on. destruct (f _) as [b c]. eauto. Qed.


(** *** Comments *)
(** [I] is kept, whatever the way [m] ends. *)
Definition kept_through (I : W -> Prop) {X} (m : run Z W X) : Prop := triple I m (fun _ => I) (fun _ => I).
Lemma kept_then (I : W -> Prop) {X Y} (m : run Z W X) (f : X -> run Z W Y) :
  kept_through I m -> (forall x, kept_through I (f x)) -> kept_through I (bind m f).
Proof. intros Hm Hf. eapply triple_bind; [exact Hm|exact Hf]. Qed.
Lemma kept_leaves {X Y} (f : W -> Y) (Q : Y -> Prop) (m : run Z W X) : leaves_of f m -> kept_through (fun w => Q (f w)) m.
Proof. apply triple_leaves. Qed.
Lemma kept_returned I (m : run Z W Z) w : kept_through I m -> I w -> I (snd (returned m w)).
Proof. intros Hm. apply (triple_returned I m (fun _ => I)). exact Hm. Qed.

(** The tasks. *)
Definition task_stays (k : task_key) (t : AgentTask) w : Prop := task_stored (wb_tasks w) !! k = Some t.
(** A comment handler, up to the command, touches nothing of the cluster. *)
Definition stores w := (wb_tasks w, wb_cluster w).
Lemma get_env_stores key : leaves_of stores (on_cluster (T := T) (GV := GV) (in_envs (obj_Get (Ob := Environment) key))).
Proof using EL.
  apply leaves_of_on. intros w. unfold in_envs. pose proof (obj_Get_pure (Ob := Environment) key (cl_envs (wb_cluster w))) as Hp.
  destruct (obj_Get key _) as [x s]. cbn in *. subst s. unfold stores. cbn. by destruct (wb_cluster w).
Qed.
Hint Resolve get_env_stores : leaves.
Lemma github_branch_stores payload : leaves_of stores (GitHub.branch_of h o payload).
Proof using EL. unfold GitHub.branch_of, or_branch, stored_branch, GitHub.fetchGitHubPRHeadRef. auto 20 with leaves. Qed.
Lemma gitlab_branch_stores payload : leaves_of stores (GitLab.branch_of h payload).
Proof using EL. unfold GitLab.branch_of, or_branch, stored_branch. auto 20 with leaves. Qed.
Lemma answer_stores project n c r : leaves_of stores (answer_command (T := T) (EV := EV) (GV := GV) h o project n c r).
Proof. unfold answer_command. auto 20 with leaves. Qed.
(** A property of the stores. *)
Lemma kept_stores {X} (Q : T * Cluster EV GV -> Prop) (m : run Z W X) : leaves_of stores m -> kept_through (fun w => Q (stores w)) m.
Proof. apply (kept_leaves stores Q). Qed.

Section Task.
Context (k : task_key) (t : AgentTask).
Lemma kept_get key : kept_through (task_stays k t) (on_tasks (EV := EV) (GV := GV) (task_Get key)).
Proof.
  apply triple_on. intros w a w' Hw. pose proof (task_Get_pure key (wb_tasks w)) as Hp. destruct (task_Get key (wb_tasks w)) as [x s].
  intros [= <- <-]. cbn in *. by subst s.
Qed.
Lemma kept_fix tp annotate c url branch n : out_of_reach k t (wk_DefaultNS h) c url n -> cm_Action c = #"fix" ->
  kept_through (task_stays k t) (handle_fix h o tp annotate c url branch n).
Proof using L AL PL.
  intros Ho Hfix. apply kept_then.
  - apply triple_on. intros w a w' Hw. pose proof (leaves_command tp (ot_now o) k t (wk_DefaultNS h) c url branch n Ho (wb_tasks w, wb_cluster w) Hw) as [H1 _].
    destruct (ExecuteSlashCommandWithFeedback _ _ _ _ _ _ _ _) as [r [t1 c1]]. intros [= <- <-]. exact H1.
  - intros [feedback|e]; [|by apply triple_ret].
    set (name := buildCommandTaskName (effective_repo url) n (cm_Objective c)).
    assert (k <> (default_ns h, name)) as Hk by (unfold out_of_reach in Ho; by rewrite Hfix in Ho).
    apply (triple_bind _ _ _ (fun r w => task_stays k t w /\ forall t0, r = Ok t0 -> key_of t0 = (default_ns h, name))).
    + apply triple_on. intros w a w' Hw. pose proof (task_Get_pure (default_ns h, name) (wb_tasks w)) as Hp.
      pose proof (task_Get_Ok (default_ns h, name) (wb_tasks w)) as Hg. destruct (task_Get _ (wb_tasks w)) as [x s] eqn:E.
      intros [= <- <-]. cbn in *. subst s. split; [done|]. intros t0 ->. by apply (task_stored_key (wb_tasks w)), Hg.
    + intros [t0|e]; [|by apply triple_ret; intros w [Hw _]]. intros w [Hw Ht]. specialize (Ht t0 eq_refl).
      match goal with |- context [task_Update ?t1] => set (t1' := t1) end. assert (key_of t1' <> k) as Hne.
      { subst t1'. change (key_of (with_Annotations _ t0)) with (key_of t0). congruence. } clearbody t1'.
      pose proof (leaves_update k t CmdApi t1' Hne (wb_tasks w, wb_cluster w) Hw) as [H1 _]. unfold on_task in H1. cbn in H1.
      unfold bind, on_tasks, on. cbn. destruct (task_Update t1' (wb_tasks w)) as [[t2|e] s]; exact H1.
Qed.
Lemma kept_run_command tp project annotate c url branch n : out_of_reach k t (wk_DefaultNS h) c url n ->
  kept_through (task_stays k t) (run_command h o tp project (fun url branch n => handle_fix h o tp annotate c url branch n) c url branch n).
Proof using L AL PL.
  intros Ho. apply kept_then; [|intros r; apply (kept_leaves stores (fun s => task_stored (fst s) !! k = Some t)), answer_stores].
  destruct (str_eqb (cm_Action c) #"fix") eqn:Ef.
  - apply kept_fix; [done|]. unfold str_eqb in Ef. by bool_simpl.
  - apply triple_on. intros w a w' Hw. pose proof (leaves_command tp (ot_now o) k t (wk_DefaultNS h) c url branch n Ho (wb_tasks w, wb_cluster w) Hw) as [H1 _].
    destruct (ExecuteSlashCommandWithFeedback _ _ _ _ _ _ _ _) as [r [t1 c1]]. intros [= <- <-]. exact H1.
Qed.
End Task.

(** The environments and the groups. *)
Section Guarded.
Context (I : Cluster EV GV -> Prop).
Lemma kept_commanded {X} (m : cmd (T := T) (E := Cluster EV GV) X) Q : guards I m Q -> kept_through (fun w => I (wb_cluster w)) (commanded m).
Proof.
  intros Hm. apply triple_on. intros w a w' Hw. destruct (Hm (wb_tasks w, wb_cluster w) Hw) as [H1 _].
  destruct (m _) as [r [t1 c1]]. intros [= <- <-]. exact H1.
Qed.
Lemma kept_tasks {X} (f : T -> X * T) : kept_through (fun w => I (wb_cluster w)) (on_tasks (EV := EV) (GV := GV) f).
Proof. apply (kept_leaves wb_cluster I). auto with leaves. Qed.
Lemma kept_guarded tp project annotate c url branch n :
  guards I (ExecuteSlashCommandWithFeedback tp (ot_now o) (wk_DefaultNS h) c url branch n) (fun _ => True) ->
  kept_through (fun w => I (wb_cluster w)) (run_command h o tp project (fun url branch n => handle_fix h o tp annotate c url branch n) c url branch n).
Proof.
  intros Hg. apply kept_then; [|intros r; apply (kept_leaves stores (fun s => I (snd s))), answer_stores].
  destruct (str_eqb _ _); [|by eapply kept_commanded]. apply kept_then; [by eapply kept_commanded|]. intros [feedback|e]; [|by apply triple_ret].
  apply kept_then; [apply kept_tasks|]. intros [t0|e]; [|by apply triple_ret]. apply kept_then; [apply kept_tasks|]. intros r. by apply triple_ret.
Qed.
End Guarded.

(** What the command of a comment on a pull request may not touch. *)
Record beyond (c : SlashCommand) (url : gostring) (n : Z) (I : W -> Prop) : Prop := {
  beyond_stores : exists Q, I = (fun w => Q (stores w));
  beyond_command : forall tp project annotate branch,
    kept_through I (run_command h o tp project (fun url branch n => handle_fix h o tp annotate c url branch n) c url branch n) }.
Lemma task_beyond k t c url n : out_of_reach k t (wk_DefaultNS h) c url n -> beyond c url n (task_stays k t).
Proof using L AL PL.
  intros Ho. split; [by exists (fun s => task_stored (fst s) !! k = Some t)|]. intros. by apply kept_run_command.
Qed.
Definition preview_key (url : gostring) (n : Z) : obj_key :=
  (default_ns h, previewEnvName (if str_eqb (providerFromRepoURL url) #"gitlab" then #"mr" else #"pr") (projectFromRepoURL url) n).
Lemma env_beyond k env c url n : env_unmatched env (default_ns h) url n -> (cm_Action c = #"preview" -> k <> preview_key url n) ->
  beyond c url n (fun w => env_at k w = Some env).
Proof using EL EUL.
  intros Hu Hp. split; [by exists (fun s => stored (cl_envs (snd s)) !! k = Some env)|]. intros.
  apply (kept_guarded (env_stays k env)). by apply command_spares_env.
Qed.
Lemma group_beyond k pg c url n : group_unmatched pg url n -> beyond c url n (fun w => group_at k w = Some pg).
Proof using GL.
  intros Hu. split; [by exists (fun s => stored (cl_groups (snd s)) !! k = Some pg)|]. intros.
  apply (kept_guarded (group_stays k pg)). by apply command_spares_group.
Qed.
Lemma duplicate_stores id : leaves_of stores (duplicate (T := T) (EV := EV) (GV := GV) o id).
Proof. by apply duplicate_at. Qed.
Lemma github_comment_kept I rq w payload : (forall c, GitHub.requested payload = Some c -> beyond c (GitHub.repo_url payload) (GitHub.pr_number payload) I) ->
  (GitHub.requested payload = None -> exists Q, I = (fun w => Q (stores w))) ->
  Header_Get rq #"X-GitHub-Event" = #"issue_comment" -> Unmarshal dec_comment_payload no_comment_payload (rq_Body rq) = Some payload ->
  I w -> I (snd (GitHub.ServeHTTP h o rq w)).
Proof using EL.
  intros Hc Hn He Hp. assert (exists Q, I = (fun w => Q (stores w))) as [Q HQ].
  { destruct (GitHub.requested payload) as [c|]; [apply (Hc c eq_refl)|by apply Hn]. }
  apply kept_returned. cbv zeta. rewrite He. change (str_eqb #"issue_comment" #"issue_comment") with true. cbv iota.
  intros w0 Hw0. destruct (GitHub.authenticate h rq w0) as [[st|body] w1] eqn:Ea.
  - rewrite (bind_inl _ _ _ _ _ Ea). assert (w1 = w0) as -> by (destruct (github_authenticate_cases h rq w0) as [(? & _ & E)|(_ & _ & E)]; congruence). done.
  - rewrite (bind_inr _ _ _ _ _ Ea). apply github_body in Ea as [-> ->]. revert w0 Hw0. apply kept_then.
    + rewrite HQ. apply kept_stores, duplicate_stores.
    + intros seen. apply kept_then; [rewrite HQ; apply kept_stores; auto with leaves|]. intros _. unfold GitHub.handleIssueComment. rewrite Hp.
      destruct (GitHub.requested payload) as [c|] eqn:Ereq; [|by apply triple_ret]. apply kept_then.
      * rewrite HQ. apply kept_stores, github_branch_stores.
      * intros branch. apply (beyond_command _ _ _ _ (Hc c eq_refl)).
Qed.
Lemma gitlab_note_kept I rq w payload : (forall c, GitLab.requested h payload = Some c -> beyond c (GitLab.repo_url payload) (GitLab.mr_iid payload) I) ->
  (GitLab.requested h payload = None -> exists Q, I = (fun w => Q (stores w))) ->
  Header_Get rq #"X-Gitlab-Event" = #"Note Hook" -> Unmarshal dec_note_payload no_note_payload (rq_Body rq) = Some payload ->
  I w -> I (snd (GitLab.ServeHTTP h o rq w)).
Proof using EL.
  intros Hc Hn He Hp. assert (exists Q, I = (fun w => Q (stores w))) as [Q HQ].
  { destruct (GitLab.requested h payload) as [c|]; [apply (Hc c eq_refl)|by apply Hn]. }
  apply kept_returned. cbv zeta. rewrite He. change (str_eqb #"Note Hook" #"Note Hook") with true.
  apply kept_then; [rewrite HQ; apply kept_stores, gitlab_authenticate_at|]. intros _.
  apply kept_then; [rewrite HQ; apply kept_stores, duplicate_stores|]. intros seen.
  apply kept_then; [rewrite HQ; apply kept_stores; auto with leaves|]. intros _.
  destruct (ReadAll maxBody rq) as [body|] eqn:Eb; [|by apply triple_finish]. apply ReadAll_body in Eb as ->.
  destruct (Unmarshal dec_mr_payload _ _) as [mr|]; [|by apply triple_finish]. rewrite orb_true_r. unfold GitLab.handleNoteEvent. rewrite Hp.
  destruct (GitLab.requested h payload) as [c|] eqn:Ereq; [|by apply triple_ret]. apply kept_then.
  - rewrite HQ. apply kept_stores, gitlab_branch_stores.
  - intros branch. apply (beyond_command _ _ _ _ (Hc c eq_refl)).
Qed.

(** and so does a note on a merge request of GitLab. *)
Theorem gitlab_note_confined rq w payload c : Header_Get rq #"X-Gitlab-Event" = #"Note Hook" ->
  Unmarshal dec_note_payload no_note_payload (rq_Body rq) = Some payload -> ParseSlashCommand (na_Note (ny_ObjectAttributes payload)) = Some c ->
  let w' := snd (GitLab.ServeHTTP h o rq w) in
  let url := GitLab.repo_url payload in
  let n := GitLab.mr_iid payload in
  (forall k t, task_stays k t w -> out_of_reach k t (wk_DefaultNS h) c url n -> task_stays k t w') /\
  (forall k env, env_at k w = Some env -> env_unmatched env (default_ns h) url n -> (cm_Action c = #"preview" -> k <> preview_key url n) ->
     env_at k w' = Some env) /\
  (forall k pg, group_at k w = Some pg -> group_unmatched pg url n -> group_at k w' = Some pg).
Proof using L AL PL EL EUL GL.
  intros He Hp Hc w' url n. assert (forall c', GitLab.requested h payload = Some c' -> c' = c) as Hreq.
  { intros c'. unfold GitLab.requested. destruct (_ || _); [done|]. destruct (negb _); [done|]. congruence. }
  split_and!.
  - intros k t Hw Ho. apply (gitlab_note_kept (task_stays k t) rq w payload); [|by intros _; exists (fun s => task_stored (fst s) !! k = Some t)|done..].
    intros c' ->%Hreq. by apply task_beyond.
  - intros k env Hw Hu Hpr. apply (gitlab_note_kept (fun w => env_at k w = Some env) rq w payload);
      [|by intros _; exists (fun s => stored (cl_envs (snd s)) !! k = Some env)|done..]. intros c' ->%Hreq. by apply env_beyond.
  - intros k pg Hw Hu. apply (gitlab_note_kept (fun w => group_at k w = Some pg) rq w payload);
      [|by intros _; exists (fun s => stored (cl_groups (snd s)) !! k = Some pg)|done..]. intros c' ->%Hreq. by apply group_beyond.
Qed.

(** *** Commenters *)
Definition quiet_world w := (stores w, wb_comments w, wb_requests w).
Lemma github_not_requested rq w payload : Header_Get rq #"X-GitHub-Event" = #"issue_comment" ->
  Unmarshal dec_comment_payload no_comment_payload (rq_Body rq) = Some payload -> GitHub.requested payload = None ->
  quiet_world (snd (GitHub.ServeHTTP h o rq w)) = quiet_world w.
Proof.
  intros He Hp Hr. apply leaves_of_returned. cbv zeta. rewrite He. change (str_eqb #"issue_comment" #"issue_comment") with true. cbv iota.
  apply leaves_of_bind_run; [auto with leaves|]. intros w0 body w1 [-> _]%github_body. unfold GitHub.handleIssueComment. rewrite Hp, Hr. auto 10 with leaves.
Qed.
Lemma gitlab_not_requested rq w payload : Header_Get rq #"X-Gitlab-Event" = #"Note Hook" ->
  Unmarshal dec_note_payload no_note_payload (rq_Body rq) = Some payload -> GitLab.requested h payload = None ->
  quiet_world (snd (GitLab.ServeHTTP h o rq w)) = quiet_world w.
Proof.
  intros He Hp Hr. apply leaves_of_returned. cbv zeta. rewrite He. change (str_eqb #"Note Hook" #"Note Hook") with true.
  destruct (ReadAll maxBody rq) as [body|] eqn:Eb; [|auto 10 with leaves]. apply ReadAll_body in Eb as ->. cbv iota.
  destruct (Unmarshal dec_mr_payload no_mr_payload (rq_Body rq)); [|auto 10 with leaves]. rewrite orb_true_r. unfold GitLab.handleNoteEvent. rewrite Hp, Hr.
  auto 10 with leaves.
Qed.
(** a comment by someone the repository does not know as its owner, a
    member or a collaborator is not answered and changes nothing but the
    deliveries, and so does a note of a user who is not among the allowed ones
    when some are named. *)
Theorem strangers_ignored rq w :
  (forall payload, Header_Get rq #"X-GitHub-Event" = #"issue_comment" ->
     Unmarshal dec_comment_payload no_comment_payload (rq_Body rq) = Some payload ->
     ToUpper (TrimSpace (co_AuthorAssociation (cy_Comment payload))) ∉ [ #"OWNER"; #"MEMBER"; #"COLLABORATOR"] ->
     quiet_world (snd (GitHub.ServeHTTP h o rq w)) = quiet_world w) /\
  (forall payload, Header_Get rq #"X-Gitlab-Event" = #"Note Hook" ->
     Unmarshal dec_note_payload no_note_payload (rq_Body rq) = Some payload -> wk_AllowedUsers h <> [] ->
     (forall u, u ∈ wk_AllowedUsers h -> EqualFold (TrimSpace u) (TrimSpace (us_Username (ny_User payload))) = false) ->
     quiet_world (snd (GitLab.ServeHTTP h o rq w)) = quiet_world w).
Proof.
  split.
  - intros payload He Hp Ha. eapply github_not_requested; [done|exact Hp|]. unfold GitHub.requested, GitHub.isAuthorizedGitHubCommenter.
    rewrite (bool_decide_false (_ ∈ authorized_associations)) by exact Ha. do 2 (destruct (_ && _); [done|]). done.
  - intros payload He Hp Hn Ha. eapply gitlab_not_requested; [done|exact Hp|]. unfold GitLab.requested, GitLab.isAuthorizedGitLabCommenter.
    assert (existsb (fun u => EqualFold (TrimSpace u) (TrimSpace (us_Username (ny_User payload)))) (wk_AllowedUsers h) = false) as Hx.
    { apply not_true_iff_false. intros (u & Hin & Hu)%existsb_exists. rewrite <- list_elem_of_In in Hin. rewrite Ha in Hu; done. }
    destruct (wk_AllowedUsers h) as [|u us]; [done|]. rewrite Hx. destruct (_ || _); [done|]. do 2 (destruct (_ && _); [done|]). done.
Qed.

(** *** Addresses *)
Definition known_address (u : URL) : Prop := u_Scheme u ∈ [ #"https"; #"http"] /\ ToLower (Hostname u) ∈ GitHub.known_hosts.
Definition only_known w : Prop := Forall known_address (wb_requests w).
Lemma fetch_known url : kept_through only_known (GitHub.fetchGitHubPRHeadRef h o url).
Proof.
  unfold GitHub.fetchGitHubPRHeadRef. destruct (GitHub.pr_request url) as [u|] eqn:Eu; [|by apply triple_ret].
  destruct (GitHub.pr_http_client h o u) as [client|]; [|by apply triple_ret]. apply kept_then; [|intros _; by apply triple_ret].
  apply triple_modify. intros w Hw. unfold only_known. cbn. apply Forall_app. split; [exact Hw|]. constructor; [|constructor].
  unfold GitHub.pr_request in Eu. destruct (GoURL.Parse (TrimSpace url)) as [v|]; cbn in Eu; [|done]. destruct (_ && _) eqn:Eb; [|done].
  injection Eu as ->. by bool_simpl.
Qed.
Lemma requests_kept {X} (m : run Z W X) : leaves_of wb_requests m -> kept_through only_known m.
Proof. apply (kept_leaves wb_requests (Forall known_address)). Qed.
(** whatever a comment says of its pull request, the GitHub webhook asks
    no address for it but those of the API and of the local machine, by HTTP
    or HTTPS. *)
Theorem known_addresses_only rq w : only_known w -> only_known (snd (GitHub.ServeHTTP h o rq w)).
Proof.
  intros Hw. revert Hw. apply kept_returned. cbv zeta. apply kept_then; [apply requests_kept; auto with leaves|]. intros body.
  apply kept_then; [apply requests_kept; auto with leaves|]. intros seen. apply kept_then; [apply requests_kept; auto with leaves|]. intros _.
  destruct (str_eqb _ #"issue_comment"); [|destruct (negb _); [by apply triple_ret|]].
  - unfold GitHub.handleIssueComment. destruct (Unmarshal _ _ body) as [payload|]; [|by apply triple_ret].
    destruct (GitHub.requested payload) as [c|]; [|by apply triple_ret].
    apply kept_then.
    + unfold GitHub.branch_of, or_branch, stored_branch. apply kept_then; [destruct (_ && _); [apply fetch_known|by apply triple_ret]|].
      intros b. apply kept_then; [|intros b'; by apply triple_ret]. apply requests_kept. auto 10 with leaves.
    + intros branch. apply requests_kept. unfold run_command, answer_command, GitHub.handleFixCommand, handle_fix. auto 20 with leaves.
  - apply requests_kept. unfold GitHub.handle_pull_request, GitHub.reconcileEnvironment, GitHub.deleteEnvironment, reconcile_environment, delete_environment.
    auto 20 with leaves.
Qed.
End Confined.

(** ** Trace parents *)
Section Traces.
Context {U : GoUnicode}.
Lemma isAllZero_snoc b : isAllZero (b ++ [byte_of_Z 1]) = false.
Proof. unfold isAllZero. rewrite forallb_app. cbn. apply andb_false_r. Qed.
Lemma random_id_spec tr draw n : (0 < n)%nat -> length (fst (tr_read tr draw n)) = n ->
  length (random_id tr draw n) = n /\ isAllZero (random_id tr draw n) = false.
Proof.
  unfold random_id. intros Hn. destruct (tr_read tr draw n) as [b failed]. cbn. intros Hb. destruct (failed || isAllZero b) eqn:E.
  - split; [|apply isAllZero_snoc]. unfold set_last. rewrite length_app, length_take. cbn. lia.
  - split; [done|]. by bool_simpl.
Qed.
Lemma span_or_generate_nonempty tr draw : span_or_generate tr draw <> [].
Proof. unfold span_or_generate, str_eqb. by case_bool_decide. Qed.
(** the trace parent of a request is never empty, and one the program
    makes up is a version 00 trace parent whose identifiers have 16 and 8
    bytes, neither all zero, also when the random source fails. *)
Theorem traceparent_valid (o : Outside) rq draw : (forall d n, length (fst (tr_read (ot_tracing o) d n)) = n) ->
  traceparent_of o rq <> [] /\
  exists trace span, generateTraceparent (ot_tracing o) draw = #"00-" ++ hex_encode trace ++ #"-" ++ hex_encode span ++ #"-01" /\
    length trace = 16%nat /\ isAllZero trace = false /\ length span = 8%nat /\ isAllZero span = false.
Proof.
  intros Hl. split.
  - unfold traceparent_of, TraceparentFromContext, str_eqb. case_bool_decide as Hb; [apply span_or_generate_nonempty|exact Hb].
  - exists (random_id (ot_tracing o) draw 16), (random_id (ot_tracing o) draw 8). split; [done|].
    destruct (random_id_spec (ot_tracing o) draw 16 ltac:(lia) (Hl _ _)). destruct (random_id_spec (ot_tracing o) draw 8 ltac:(lia) (Hl _ _)). done.
Qed.
End Traces.

(** * Webhooks at work: witnesses and findings *)

Module WebhookDemo.
#[export] Existing Instance ascii_unicode.
#[export] Existing Instance ascii_upper.
#[export] Existing Instance no_ipv6.
#[export] Existing Instance DedupDemo.merge_order.
#[export] Existing Instance SlashDemo.upsert.
#[export] Existing Instance SlashDemo.upsert_laws.
#[export] Existing Instance Server.api.
#[export] Existing Instance Server.api_laws.
#[export] Existing Instance Server.upsert.
#[export] Existing Instance Server.upsert_laws.
Abbreviation world := (web_world TaskServer.t (Server.t Environment) (Server.t PreviewGroup)).

(** ** Requests *)
(** Texts with apostrophes for quotation marks. *)
Definition js (s : gostring) : gostring := map (fun c => if decide (c = "'"%char) then quote else c) s.
Definition secret : gostring := #"s3cret".
Definition sign (body : gostring) : gostring := #"sha256=" ++ hex_encode (hmac_sha256 secret body).
Definition github (signature event id body : gostring) : Request :=
  mkRequest #"POST" {[ #"X-Hub-Signature-256" := signature; #"X-Github-Event" := event; #"X-Github-Delivery" := id]} body false.
Definition gitlab (token event id body : gostring) : Request :=
  mkRequest #"POST" {[ #"X-Gitlab-Token" := token; #"X-Gitlab-Event" := event; #"X-Gitlab-Event-Uuid" := id]} body false.
Definition pull (action : gostring) : gostring :=
  js (#"{'action':'" ++ action ++ #"','pull_request':{'number':7,'head':{'ref':'feat','sha':'0123456789abcdef'}},'repository':{'full_name':'acme/app'}}").
Definition comment (association text : gostring) : gostring :=
  js (#"{'action':'created','issue':{'number':7,'pull_request':{'url':'https://api.github.com/repos/acme/app/pulls/7'}},'comment':{'body':'" ++ text ++
      #"','author_association':'" ++ association ++ #"'},'repository':{'full_name':'acme/app','clone_url':'https://github.com/acme/app'}}").
Definition merge_request (project action : gostring) : gostring :=
  js (#"{'object_kind':'merge_request','object_attributes':{'iid':7,'source_branch':'feat','action':'" ++ action ++
      #"','last_commit':{'id':'0123456789abcdef'}},'project':{'path_with_namespace':'" ++ project ++ #"'}}").
Definition note (user action text : gostring) : gostring :=
  js (#"{'object_kind':'note','user':{'id':5,'username':'" ++ user ++ #"'},'object_attributes':{'note':'" ++ text ++
      #"','noteable_type':'MergeRequest','action':'" ++ action ++
      #"'},'merge_request':{'iid':7,'source_branch':'feat'},'project':{'path_with_namespace':'acme/app','git_http_url':'https://github.com/acme/app'}}").

(** ** Handlers and worlds *)
Definition time_at (s : Z) : Time := mkTime s 0.
Definition outside (s : Z) : Outside :=
  mkOutside (fun _ => Err #"yaml") (fun _ => Err #"yaml") (fun _ => []) (fun _ => #"api") (mkTracing (fun _ => false) [] (fun _ n => (replicate n (byte_of_Z 7), false)))
    (time_at s) [] (fun _ _ => Err #"offline").
Definition handler (fetcher : option ConfigFetcher) (allowed : list gostring) : WebhookHandler :=
  mkHandler secret fetcher true None allowed [].
Definition plain : WebhookHandler := handler None [].
Definition world_of (tasks : TaskServer.t) (envs : list Environment) (groups : list PreviewGroup) : world :=
  mkWeb tasks (mkCluster (Server.of_list envs) (Server.of_list groups) true) (Some ∅) [] [].
Definition empty_world : world := world_of SlashDemo.server [] [].
(** The handlers at a second. *)
Definition at_github (h : WebhookHandler) (s : Z) (rq : Request) (w : world) : Z * world := GitHub.ServeHTTP h (outside s) rq w.
Definition at_gitlab (h : WebhookHandler) (s : Z) (rq : Request) (w : world) : Z * world := GitLab.ServeHTTP h (outside s) rq w.
Definition at_groups (h : WebhookHandler) (s : Z) (rq : Request) (w : world) : Z * world := GroupHook.ServeHTTP h (outside s) rq w.

(** ** The requests of the examples *)
Definition opened : Request := github (sign (pull #"opened")) #"pull_request" #"d1" (pull #"opened").
Definition asked (association text : gostring) : Request :=
  github (sign (comment association text)) #"issue_comment" #"d2" (comment association text).
Definition noted (id user action text : gostring) : Request := gitlab secret #"Note Hook" id (note user action text).
Definition merged (project action : gostring) : Request := gitlab secret #"Merge Request Hook" #"d4" (merge_request project action).
Definition pull_payload : GitHubPRPayload :=
  mkPRPayload #"opened" (mkGhPull 7 (mkGhHead #"feat" #"0123456789abcdef") (mkGhBase []) []) (mkGhRepo #"acme/app").
Definition comment_payload (association text : gostring) : GitHubIssueCommentPayload :=
  mkCommentPayload #"created" (mkGhIssue 7 (Some (mkGhLink #"https://api.github.com/repos/acme/app/pulls/7"))) (mkGhCommentPull 0 (mkGhRefOnly []))
    (mkGhComment text association) (mkGhCommentRepo #"acme/app" #"https://github.com/acme/app" [] []).
Definition note_payload (user text : gostring) : GitLabNotePayload :=
  mkNotePayload #"note" (mkGlUser 5 user) (mkGlNote 0 [] text #"MergeRequest" []) (mkGlNoteMR 7 #"feat" [])
    (mkGlNoteProject [] #"acme/app" [] #"https://github.com/acme/app").
Definition mr_payload (project action : gostring) : GitLabMRPayload :=
  mkMRPayload #"merge_request" [] (mkGlMR 0 7 [] #"feat" [] action (mkGlCommit #"0123456789abcdef")) (mkGlProject [] project).
Lemma opened_decodes : Unmarshal dec_pr_payload no_pr_payload (rq_Body opened) = Some pull_payload.
Proof. by vm_compute. Qed.
Lemma comment_decodes : Unmarshal dec_comment_payload no_comment_payload (rq_Body (asked #"MEMBER" #"/diverge pause")) = Some (comment_payload #"MEMBER" #"/diverge pause").
Proof. by vm_compute. Qed.
Lemma stranger_decodes : Unmarshal dec_comment_payload no_comment_payload (rq_Body (asked #"NONE" #"/diverge pause")) = Some (comment_payload #"NONE" #"/diverge pause").
Proof. by vm_compute. Qed.
Lemma note_decodes : Unmarshal dec_note_payload no_note_payload (rq_Body (noted #"d3" #"eve" #"create" #"/diverge pause")) = Some (note_payload #"eve" #"/diverge pause").
Proof. by vm_compute. Qed.
Lemma merged_decodes : Unmarshal dec_mr_payload no_mr_payload (rq_Body (merged #"acme/app" #"open")) = Some (mr_payload #"acme/app" #"open").
Proof. by vm_compute. Qed.
Lemma github_headers sig event id body : Header_Get (github sig event id body) #"X-Hub-Signature-256" = sig /\
  Header_Get (github sig event id body) #"X-GitHub-Event" = event /\ Header_Get (github sig event id body) #"X-GitHub-Delivery" = id.
Proof. by vm_compute. Qed.
Lemma gitlab_headers token event id body : Header_Get (gitlab token event id body) #"X-Gitlab-Token" = token /\
  Header_Get (gitlab token event id body) #"X-Gitlab-Event" = event /\ Header_Get (gitlab token event id body) #"X-Gitlab-Event-UUID" = id.
Proof. by vm_compute. Qed.
Lemma secret_not_blank : TrimSpace (wk_SecretToken plain) <> [].
Proof. by vm_compute. Qed.
Lemma opened_authentic : github_authentic plain opened.
Proof. split; [done|]. split; [exact secret_not_blank|]. exact (proj1 (github_headers _ _ _ _)). Qed.
Lemma noted_authentic id user action text : gitlab_authentic plain (noted id user action text).
Proof. split; [done|]. split; [exact secret_not_blank|]. exact (proj1 (gitlab_headers _ _ _ _)). Qed.
Lemma opened_read : ReadAll maxBody opened = Some (rq_Body opened).
Proof. by vm_compute. Qed.
Lemma still_fresh : fresh (ot_now (outside 200)) (ot_now (outside 100)) = true.
Proof. by vm_compute. Qed.
Lemma opened_first : new_delivery (outside 100) (Header_Get opened #"X-GitHub-Delivery") empty_world.
Proof. unfold opened. rewrite (proj2 (proj2 (github_headers _ _ _ _))). split; [done|]. exists ∅. split; [done|]. by vm_compute. Qed.
Lemma noted_first : new_delivery (outside 100) (Header_Get (noted #"d3" #"eve" #"create" #"/diverge pause") #"X-Gitlab-Event-UUID") empty_world.
Proof. unfold noted. rewrite (proj2 (proj2 (gitlab_headers _ _ _ _))). split; [done|]. exists ∅. split; [done|]. by vm_compute. Qed.
Definition get_request (body : gostring) : Request := mkRequest #"GET" ∅ body false.
Lemma task_7_8 : task_stored (wb_tasks empty_world) !! (#"default", #"task-8") = Some (SlashDemo.task #"task-8" #"pr-8").
Proof. exact demo_task_8. Qed.
Lemma pause_parses : ParseSlashCommand #"/diverge pause" = Some (command #"pause").
Proof. by vm_compute. Qed.
Lemma task_8_beyond : out_of_reach (#"default", #"task-8") (SlashDemo.task #"task-8" #"pr-8") [] (command #"pause") #"https://github.com/acme/app" 7.
Proof. right. by vm_compute. Qed.
End WebhookDemo.
Import WebhookDemo.

(** ** Witnesses *)
Lemma github_signature_required_witness :
  snd (at_github plain 100 (get_request []) empty_world) = empty_world /\ 400 <= fst (at_github plain 100 (get_request []) empty_world).
Proof. apply (github_signature_required plain (outside 100) (get_request []) empty_world). by intros [? _]. Defined.
Lemma gitlab_token_required_witness :
  (snd (at_gitlab plain 100 (get_request []) empty_world) = empty_world /\ 400 <= fst (at_gitlab plain 100 (get_request []) empty_world)) /\
  (snd (at_groups plain 100 (get_request []) empty_world) = empty_world /\ 400 <= fst (at_groups plain 100 (get_request []) empty_world)).
Proof. apply (gitlab_token_required plain (outside 100) (get_request []) empty_world). by intros [? _]. Defined.
Lemma redelivery_ignored_witness :
  (let w1 := snd (at_github plain 100 opened empty_world) in at_github plain 200 opened w1 = (StatusOK, w1)) /\
  (let w1 := snd (at_gitlab plain 100 (noted #"d3" #"eve" #"create" #"/diverge pause") empty_world) in
   at_gitlab plain 200 (noted #"d3" #"eve" #"create" #"/diverge pause") w1 = (StatusOK, w1)).
Proof.
  split.
  - exact (proj1 (redelivery_ignored plain (outside 100) (outside 200) opened empty_world still_fresh) opened_authentic opened_first opened_read).
  - exact (proj2 (redelivery_ignored plain (outside 100) (outside 200) (noted #"d3" #"eve" #"create" #"/diverge pause") empty_world still_fresh)
      (noted_authentic _ _ _ _) noted_first).
Defined.
Lemma pull_request_confined_witness :
  beside_envs (snd (at_github plain 100 opened empty_world)) = beside_envs empty_world /\
  env_at (#"default", #"other") (snd (at_github plain 100 opened empty_world)) = env_at (#"default", #"other") empty_world.
Proof.
  destruct (pull_request_confined plain (outside 100) opened empty_world) as [H1 H2].
  - unfold opened. rewrite (proj1 (proj2 (github_headers _ _ _ _))). done.
  - split; [exact H1|]. apply H2. intros payload. rewrite opened_decodes. intros [= <-]. by vm_compute.
Defined.
Lemma merge_request_confined_witness :
  beside_envs (snd (at_gitlab plain 100 (merged #"acme/app" #"open") empty_world)) = beside_envs empty_world /\
  beside_groups (snd (at_groups plain 100 (merged #"acme/app" #"open") empty_world)) = beside_groups empty_world.
Proof.
  destruct (merge_request_confined plain (outside 100) (merged #"acme/app" #"open") empty_world _ merged_decodes) as [[H1 _] [H2 _]].
  - done.
  - unfold merged. rewrite (proj1 (proj2 (gitlab_headers _ _ _ _))). done.
  - split; [exact H1|exact H2].
Defined.
Lemma opened_pair : GitHub.ServeHTTP plain (outside 100) opened empty_world = (fst (at_github plain 100 opened empty_world), snd (at_github plain 100 opened empty_world)).
Proof. unfold at_github. apply surjective_pairing. Qed.
Lemma opened_new : fst (duplicate (T := TaskServer.t) (EV := Server.t Environment) (GV := Server.t PreviewGroup) (outside 100) (Header_Get opened #"X-GitHub-Delivery") empty_world) = inr false.
Proof. unfold opened. rewrite (proj2 (proj2 (github_headers _ _ _ _))). by vm_compute. Qed.
Lemma opened_OK : fst (at_github plain 100 opened empty_world) = StatusOK.
Proof. by vm_compute. Qed.
Lemma gitlab_note_confined_witness :
  task_stays (#"default", #"task-8") (SlashDemo.task #"task-8" #"pr-8") (snd (at_gitlab plain 100 (noted #"d3" #"eve" #"create" #"/diverge pause") empty_world)).
Proof.
  destruct (gitlab_note_confined plain (outside 100) (noted #"d3" #"eve" #"create" #"/diverge pause") empty_world _ _
    (proj1 (proj2 (gitlab_headers _ _ _ _))) note_decodes pause_parses) as [H _].
  exact (H _ _ task_7_8 task_8_beyond).
Defined.
Lemma eve_not_allowed u : u ∈ [ #"alice"] -> EqualFold (TrimSpace u) (TrimSpace #"eve") = false.
Proof. intros ->%list_elem_of_singleton. by vm_compute. Qed.
Lemma stranger_unknown : ToUpper (TrimSpace #"NONE") ∉ [ #"OWNER"; #"MEMBER"; #"COLLABORATOR"].
Proof. by apply (bool_decide_eq_false_1 (_ ∈ _)). Qed.
Lemma strangers_ignored_witness :
  quiet_world (snd (at_github plain 100 (asked #"NONE" #"/diverge pause") empty_world)) = quiet_world empty_world /\
  quiet_world (snd (at_gitlab (handler None [ #"alice"]) 100 (noted #"d3" #"eve" #"create" #"/diverge pause") empty_world)) = quiet_world empty_world.
Proof.
  unfold at_github, at_gitlab. split.
  - destruct (strangers_ignored plain (outside 100) (asked #"NONE" #"/diverge pause") empty_world) as [H _].
    exact (H (comment_payload #"NONE" #"/diverge pause") (proj1 (proj2 (github_headers _ _ _ _))) stranger_decodes stranger_unknown).
  - destruct (strangers_ignored (handler None [ #"alice"]) (outside 100) (noted #"d3" #"eve" #"create" #"/diverge pause") empty_world) as [_ H].
    refine (H (note_payload #"eve" #"/diverge pause") (proj1 (proj2 (gitlab_headers _ _ _ _))) note_decodes _ eve_not_allowed). done.
Defined.
Lemma known_addresses_only_witness : only_known (snd (at_github plain 100 (asked #"MEMBER" #"/diverge pause") empty_world)).
Proof. unfold at_github. apply (known_addresses_only plain (outside 100) (asked #"MEMBER" #"/diverge pause") empty_world). constructor. Defined.
Lemma traceparent_valid_witness : traceparent_of (outside 100) opened <> [].
Proof. apply (traceparent_valid (outside 100) opened 0). intros d n. apply length_replicate. Defined.

(** ** Findings *)
Definition down : ConfigFetcher := fun _ _ _ => Err (FetchFailed #"unexpected status 502 fetching .diverge.yaml").
Definition misrouted : ConfigFetcher := fun _ _ _ => Err (FetchFailed #"failed to fetch .diverge.yaml: proxy: upstream not found").
Definition absent : ConfigFetcher := fun _ _ _ => Err ErrConfigNotFound.
Definition env_names (w : world) : list gostring := map (fun kv => snd (fst kv)) (map_to_list (stored (cl_envs (wb_cluster w)))).
Definition group_names (w : world) : list gostring := map (fun kv => snd (fst kv)) (map_to_list (stored (cl_groups (wb_cluster w)))).
Definition budget_of_7 (w : world) : option gostring := SlashDemo.budget_of #"task-7" (wb_tasks w).
(** a delivery that failed is lost: the first answer is 500 because the
    configuration could not be fetched, and the same delivery, sent again when
    it can, is answered 200 and no environment is made. *)
Theorem failed_delivery_lost :
  let first := at_github (handler (Some down) []) 100 opened empty_world in
  let again := at_github (handler (Some absent) []) 160 opened (snd first) in
  fst first = StatusInternalServerError /\ fst again = StatusOK /\ env_names (snd again) = [] /\
  env_names (snd (at_github (handler (Some absent) []) 160 opened empty_world)) = [ #"pr-5f89da04-7"].
Proof. vm_compute. auto. Qed.
(** the preview group of a merge request has no project in its name:
    closing merge request 7 of one project deletes the group of merge request
    7 of another. *)
Theorem other_project_closes_group :
  let made := snd (at_groups plain 100 (merged #"acme/app" #"open") empty_world) in
  group_names made = [ #"preview-mr-7"] /\
  at_groups plain 200 (merged #"other/project" #"close") made = (StatusOK, snd (at_groups plain 200 (merged #"other/project" #"close") made)) /\
  group_names (snd (at_groups plain 200 (merged #"other/project" #"close") made)) = [].
Proof. vm_compute. auto. Qed.
(** editing a note on GitLab runs its command again: the budget of the
    task grows twice. *)
Theorem edited_note_runs_again :
  let w1 := snd (at_gitlab plain 100 (noted #"n1" #"eve" #"create" #"/diverge budget +$5") empty_world) in
  let w2 := snd (at_gitlab plain 160 (noted #"n2" #"eve" #"update" #"/diverge budget +$5") w1) in
  budget_of_7 empty_world = Some #"5.00" /\ budget_of_7 w1 = Some #"10.00" /\ budget_of_7 w2 = Some #"15.00".
Proof. vm_compute. auto. Qed.
(** An environment of merge request 7 with a configuration of its own. *)
Definition configured : Environment :=
  ev_set_Spec (es_set_ServiceConfig (Some no_service_config) no_env_spec) (new_environment #"default" #"pr-5f89da04-7").
(** an error of the network whose text says that something was not found
    is taken for a repository without configuration: the request succeeds and
    the settings of the environment are removed. *)
Theorem misrouted_fetch_clears_config :
  let before := world_of SlashDemo.server [configured] [] in
  let after := at_github (handler (Some misrouted) []) 100 opened before in
  (es_ServiceConfig ∘ ev_Spec) <$> env_at (#"default", #"pr-5f89da04-7") before = Some (Some no_service_config) /\ fst after = StatusOK /\
  (es_ServiceConfig ∘ ev_Spec) <$> env_at (#"default", #"pr-5f89da04-7") (snd after) = Some None.
Proof. vm_compute. auto. Qed.
(** with no users named, as in the program's own assembly, any user who
    can write a note on GitLab may command the agent. *)
Theorem any_note_commands :
  fst (at_gitlab plain 100 (noted #"n1" #"stranger" #"create" #"/diverge budget +$500") empty_world) = StatusOK /\
  budget_of_7 (snd (at_gitlab plain 100 (noted #"n1" #"stranger" #"create" #"/diverge budget +$500") empty_world)) = Some #"505.00".
Proof. vm_compute. auto. Qed.
