(* ===== verification/AgentTaskFacts.v ===== *)
(** * The life of an agent task

    What [Reconcile] does to the stored phase and to the token of a task: the
    phase moves only along the edges of the state machine, each for its
    cause; whenever a run ends well with the task stopped, the task has no
    usable token; a deleted task is released only without sandbox and token.
    Then two consequences of running the pieces together that the comments do
    not intend. *)

From S2P Require Import Prelude GoStrings GoFloat GoTime.
From S2P Require Import Macaroon TokenStore KubeApi AgentTask ResourceNames EnvTypes Conditions AgentTaskPreview EarlyReturn AgentTaskController.
Local Open Scope Z_scope.


Section Runs.
Context {U : GoUnicode} {O : ConditionOps}.
Context {T : Type} {C : TaskClient T} {L : TaskClientLaws T} {E : Type} {K : EnvClient E} {B S : Type}
  {TS : TokenStore S}.
Abbreviation W := (world T E B S).

(** ** Reasoning about runs *)
Lemma triple_or_fail {X A} (P : W -> Prop) (f : X -> ctrl_error) (res : result X A) (R : A -> W -> Prop) (F : outcome ctrl_error -> W -> Prop) :
  (forall a w, res = Ok a -> P w -> R a w) -> (forall e w, P w -> F (mkOutcome 0 (Some e)) w) ->
  triple P (or_fail f res) R F.
Proof. intros H1 H2. destruct res; [apply triple_ret; auto|apply triple_finish; auto]. Qed.
(** A run on one store gives back some value and world. *)
Lemma triple_tasks {A} (P : W -> Prop) (f : T -> A * T) (R : A -> W -> Prop) F :
  (forall w a t, P w -> f (w_tasks w) = (a, t) -> R a (mkWorld t (w_envs w) (w_sandbox w) (w_tokens w) (w_events w))) ->
  triple P (on_tasks f) R F.
Proof. intros H w Hw. unfold on_tasks. destruct (f _) eqn:Ef. by apply H. Qed.

(** ** The stored task along a run *)
Definition stored_at (k : task_key) (w : W) : option AgentTask := task_stored (w_tasks w) !! k.
Definition phase_at (k : task_key) (w : W) : option gostring := phase_of <$> stored_at k w.
(** The stored phase, when the task is stored, is in [Q]. *)
Definition phases (k : task_key) (Q : gostring -> Prop) (w : W) : Prop := forall p, phase_at k w = Some p -> Q p.

(** [m] leaves the phase of the task at [k]. *)
Definition keeps {A} (k : task_key) (m : M W A) : Prop := forall w, phase_at k (snd (m w)) = phase_at k w.

Lemma keeps_triple {A} k (m : M W A) Q : keeps k m -> triple (phases k Q) m (fun _ => phases k Q) (fun _ => phases k Q).
Proof. intros Hm w Hw. specialize (Hm w). unfold phases. destruct (m w) as [[o|a] w1]; cbn in Hm; by rewrite Hm. Qed.
Lemma keeps_exact {A} k (m : M W A) p : keeps k m ->
  triple (fun w => phase_at k w = p) m (fun _ w => phase_at k w = p) (fun _ w => phase_at k w = p).
Proof. intros Hm w Hw. specialize (Hm w). destruct (m w) as [[o|a] w1]; cbn in Hm; congruence. Qed.
Lemma keeps_bind {A X} k (m : M W A) (f : A -> M W X) : keeps k m -> (forall a, keeps k (f a)) -> keeps k (bind m f).
Proof. intros Hm Hf w. unfold bind. specialize (Hm w). destruct (m w) as [[o|a] w1]; cbn in *; [done|]. by rewrite Hf. Qed.
Lemma keeps_ret {A} k (a : A) : keeps k (ret a).
Proof. done. Qed.
Lemma keeps_finish {A} k o : keeps k (finish (A := A) o).
Proof. done. Qed.
Lemma keeps_envs {A} k (f : E -> A * E) : keeps k (on_envs f).
Proof. intros w. unfold on_envs. by destruct (f _). Qed.
Lemma keeps_sandbox {A} k (f : B -> A * B) : keeps k (on_sandbox f).
Proof. intros w. unfold on_sandbox. by destruct (f _). Qed.
Lemma keeps_tokens {A} k (f : S -> A * S) : keeps k (on_tokens f).
Proof. intros w. unfold on_tokens. by destruct (f _). Qed.
Lemma keeps_emit k e : keeps k (emit e : M W unit).
Proof. done. Qed.
Lemma keeps_when k b (m : M W unit) : keeps k m -> keeps k (when b m).
Proof. by destruct b. Qed.
Lemma keeps_or_fail {X A} k (f : X -> ctrl_error) (res : result X A) : keeps k (or_fail f res : M W A).
Proof. by destruct res. Qed.
End Runs.

Create HintDb runs.
Create HintDb phases.
#[export] Hint Resolve keeps_ret keeps_finish keeps_envs keeps_sandbox keeps_tokens keeps_emit keeps_when keeps_or_fail : runs.
#[export] Hint Resolve keeps_bind | 10 : runs.
#[export] Hint Extern 1 (keeps _ done) => apply keeps_finish : runs.
#[export] Hint Extern 1 (keeps _ (requeue _)) => apply keeps_finish : runs.
#[export] Hint Extern 1 (keeps _ (fail _)) => apply keeps_finish : runs.
#[export] Hint Extern 4 (forall _, keeps _ _) => intros ? : runs.
#[export] Hint Extern 5 (keeps _ (match ?x with _ => _ end)) => destruct x : runs.

Section Facts.
Context {U : GoUnicode} {O : ConditionOps}.
Context {T : Type} {C : TaskClient T} {L : TaskClientLaws T} {E : Type} {K : EnvClient E} {B S : Type}
  {TS : TokenStore S} {TL : TokenStoreLaws S} {RL : RevocationLaws S}.
Context (r : AgentTaskReconciler B) (now : Time) (nonce : option gostring).
Abbreviation W := (world T E B S).

Lemma keeps_notify k a b : keeps k (notify r a b : M W unit).
Proof. unfold notify. auto with runs. Qed.
Lemma keeps_audit k m t b s : keeps k (audit r m t b s : M W unit).
Proof. unfold audit. auto with runs. Qed.
Hint Resolve keeps_notify keeps_audit : runs.
Lemma keeps_mint k t : keeps k (mintAndSaveToken r now nonce t : M W _).
Proof. unfold mintAndSaveToken. auto 10 with runs. Qed.
Lemma keeps_revoke k t s : keeps k (revokeToken r t s : M W _).
Proof. unfold revokeToken. eauto 15 with runs. Qed.
Hint Resolve keeps_mint keeps_revoke : runs.
Lemma keeps_revoke_or_fail k t s : keeps k (revoke_or_fail r t s : M W _).
Proof. unfold revoke_or_fail. auto 10 with runs. Qed.
Lemma keeps_ensure k t : keeps k (ensureActiveTokenMatchesSpec r now nonce t : M W _).
Proof. unfold ensureActiveTokenMatchesSpec. auto 20 with runs. Qed.
Lemma keeps_hibernate k t b : keeps k (hibernate t b : M W _).
Proof. unfold hibernate. auto with runs. Qed.
Lemma keeps_stop k p t : keeps k (stop_sandbox p t : M W _).
Proof. unfold stop_sandbox. auto 20 with runs. Qed.
Hint Resolve keeps_revoke_or_fail keeps_ensure keeps_hibernate keeps_stop : runs.

(** ** Writes of tasks *)
Lemma restore_phase saved t : phase_of (restoreReconcilerStatus saved t) = phase_of t \/
  phase_of (restoreReconcilerStatus saved t) = st_Phase saved.
Proof.
  unfold phase_of, restoreReconcilerStatus. cbn. destruct (str_eqb (st_Phase (tk_Status t)) [] && _); cbn;
    repeat match goal with |- context [if ?b then _ else _] => destruct b; cbn end; auto.
Qed.

(** Annotations are patched without touching the stored phase; the task read
    back has its phase or the one in memory. *)
Lemma patch_annotations_spec base task (w : T) ok task' w' : patch_annotations base task w = (ok, task', w') ->
  key_of task' = key_of task /\
  phase_of <$> task_stored w' !! key_of task = phase_of <$> task_stored w !! key_of task /\
  (phase_of task' = phase_of task \/ Some (phase_of task') = phase_of <$> task_stored w !! key_of task).
Proof.
  unfold patch_annotations. destruct (task_Patch _ _ w) as [[t|e] w1] eqn:Ep; intros [= <- <- <-].
  - apply task_Patch_Ok in Ep as (cur & v & H1 & -> & ->). rewrite H1, lookup_insert_eq.
    split; [exact (task_stored_key _ _ _ H1)|]. split; [done|].
    destruct (restore_phase (tk_Status task) (with_Version v (with_Annotations
      (merge_map base (tk_Annotations task) (tk_Annotations cur)) cur))) as [H|H]; rewrite H; [by right|by left].
  - apply task_Patch_Err in Ep. rewrite Ep. eauto.
Qed.
Lemma clear_preview_spec task (w : T) ok task' w' : clear_preview task w = (ok, task', w') ->
  key_of task' = key_of task /\
  phase_of <$> task_stored w' !! key_of task = phase_of <$> task_stored w !! key_of task /\
  (phase_of task' = phase_of task \/ Some (phase_of task') = phase_of <$> task_stored w !! key_of task).
Proof.
  unfold clear_preview. destruct (_ && _); [intros [= <- <- <-]; auto|]. intros H%patch_annotations_spec. exact H.
Qed.
Definition link_ok (k : task_key) (task task' : AgentTask) (w w' : T) : Prop :=
  key_of task' = k /\ phase_of <$> task_stored w' !! k = phase_of <$> task_stored w !! k /\
  (phase_of task' = phase_of task \/ Some (phase_of task') = phase_of <$> task_stored w !! k).
Lemma unlink_preview_spec task (w : T) (e : E) ok task' w' e' : unlink_preview task (w, e) = (ok, task', (w', e')) ->
  link_ok (key_of task) task task' w w'.
Proof.
  unfold unlink_preview, link_ok. intros H.
  assert (forall envs, (let '(b, t, ts) := clear_preview task w in
     if b : bool then (true, update_conditions (fun l => RemoveStatusCondition l conditionPreviewEnvReady) t, (ts, envs))
     else (false, t, (ts, envs))) = (ok, task', (w', e')) -> link_ok (key_of task) task task' w w') as Hf.
  { intros envs. destruct (clear_preview task w) as [[[] t] ts] eqn:Ec; apply clear_preview_spec in Ec; by intros [= <- <- <- <-]. }
  destruct (env_Get _ e) as [[env|[]] e1]; try (by apply (Hf e1)); try (injection H as <- <- <- <-; auto; done).
  destruct (isOwnedByAgentTask _ _); [|by apply (Hf e1)].
  destruct (env_Delete _ e1) as [[[]|[]] e2]; try (by apply (Hf e2)); injection H as <- <- <- <-; auto.
Qed.
Lemma reconcile_preview_spec task (w : T) (e : E) ok task' w' e' :
  reconcileLinkedPreviewEnvironment (scheme r) now task (w, e) = (ok, task', (w', e')) ->
  link_ok (key_of task) task task' w w'.
Proof.
  unfold reconcileLinkedPreviewEnvironment. destruct (negb _); [apply unlink_preview_spec|].
  destruct (env_CreateOrUpdate _ _ e) as [[env|] e1]; [|intros [= <- <- <- <-]; split; auto].
  destruct (env_Get _ e1) as [got e2]. destruct (record_preview _ _) as [task1 need] eqn:Er.
  assert (key_of task1 = key_of task /\ phase_of task1 = phase_of task) as [Hk Hp].
  { unfold record_preview in Er. by injection Er as <- _. }
  destruct need.
  - destruct (patch_annotations _ task1 w) as [[[] task2] w2] eqn:Ep; apply patch_annotations_spec in Ep;
      rewrite Hk, Hp in Ep; by intros [= <- <- <- <-].
  - intros [= <- <- <- <-]. split; [done|]. split; [done|by left].
Qed.

(** ** Runs that stay within a set of phases *)
Section Phases.
Context (k : task_key) (Q : gostring -> Prop).
Abbreviation I := (phases k Q).

Lemma phases_patch base new F : key_of new = k -> Q (phase_of new) ->
  triple I (patch_status base new : M W _) (fun x w => I w /\ forall t, x = Ok t -> key_of t = k) F.
Proof.
  intros Hk HQ. apply triple_tasks. intros w x t Hw Ep. unfold phases, phase_at, stored_at. cbn.
  destruct x as [t'|e]; [|apply task_StatusPatch_Err in Ep; rewrite Ep; by split; [apply Hw|]].
  apply task_StatusPatch_Ok in Ep as (cur & v & Hc & _ & -> & ->). rewrite Hk in *. split.
  - rewrite lookup_insert_eq. intros p [= <-]. unfold phase_of at 1. cbn. unfold merge_field. case_decide; [|done].
    apply Hw. unfold phase_at, stored_at. by rewrite Hc.
  - intros t0 [= <-]. exact (task_stored_key _ _ _ Hc).
Qed.
Lemma phases_patch_or_fail base new F : key_of new = k -> Q (phase_of new) -> (forall e w, I w -> F (mkOutcome 0 (Some e)) w) ->
  triple I (patch_or_fail base new : M W _) (fun t w => I w /\ key_of t = k) F.
Proof.
  intros Hk HQ HF. eapply triple_bind; [by apply phases_patch|]. intros x. apply triple_or_fail.
  - intros t w -> [Hw Ht]. auto.
  - intros e w [Hw _]. auto.
Qed.
Lemma phases_patch_and_notify base new F : key_of new = k -> Q (phase_of new) -> (forall e w, I w -> F (mkOutcome 0 (Some e)) w) ->
  triple I (patch_and_notify r base new : M W _) (fun t w => I w /\ key_of t = k) F.
Proof.
  intros Hk HQ HF. eapply triple_bind; [by apply phases_patch_or_fail|]. intros t. cbn. intros w [Hw Ht].
  unfold bind, notify, when. destruct (_ && _); cbn; auto.
Qed.
Lemma phases_link task F : key_of task = k -> Q (phase_of task) ->
  triple I (link_preview r now task : M W _) (fun t w => I w /\ key_of t = k /\ Q (phase_of t)) F.
Proof.
  intros Hk HQ w Hw. unfold link_preview.
  destruct (reconcileLinkedPreviewEnvironment _ _ _ _) as [[ok task'] [t e]] eqn:El.
  apply reconcile_preview_spec in El as (H1 & H2 & H3). rewrite Hk in *. unfold phases, phase_at, stored_at in *. cbn.
  rewrite H2. split; [exact Hw|]. split; [done|]. destruct H3 as [H3|H3]; [by rewrite H3|by apply Hw].
Qed.
Lemma phases_keeps {A} (m : M W A) F : keeps k m -> (forall o w, I w -> F o w) -> triple I m (fun _ => I) F.
Proof. intros Hm HF. eapply triple_mono; [exact (keeps_triple k m Q Hm)|auto..]. Qed.
Lemma phases_finish {A} o F : (forall o w, I w -> F o w) -> triple I (finish o : M W A) (fun _ => I) F.
Proof. intros HF. apply triple_finish. auto. Qed.

(** ** The handlers, for a postcondition [F] on their outcomes that holds
    wherever the stored phase is in [Q] *)
Context (F : outcome ctrl_error -> W -> Prop) (HF : forall o w, I w -> F o w).
Hint Resolve phases_patch_and_notify phases_patch_or_fail phases_finish : phases.

(** One step of a run that keeps the phase. *)
Lemma phases_step {A X} (m : M W A) (f : A -> M W X) R : keeps k m -> (forall a, triple I (f a) R F) -> triple I (bind m f) R F.
Proof using HF L. intros Hm Hf. eapply triple_bind; [by apply phases_keeps|exact Hf]. Qed.
(** A patch of the status, and the rest. *)
Lemma phases_patched {X} base new (f : ares AgentTask -> M W X) R : key_of new = k -> Q (phase_of new) ->
  (forall x, triple I (f x) R F) -> triple I (bind (patch_status base new) f) R F.
Proof using HF L.
  intros Hk HQ Hf. eapply triple_bind; [by apply phases_patch|]. intros x. eapply triple_mono; [apply (Hf x)|tauto|auto|auto].
Qed.
Lemma phases_notified {X} base new (f : AgentTask -> M W X) R : key_of new = k -> Q (phase_of new) ->
  (forall t, key_of t = k -> triple I (f t) R F) -> triple I (bind (patch_and_notify r base new) f) R F.
Proof using HF L.
  intros Hk HQ Hf. eapply triple_bind; [apply phases_patch_and_notify; auto|].
  intros t. apply triple_pure. auto.
Qed.
Lemma phases_linked {X} task (f : AgentTask -> M W X) R : key_of task = k -> Q (phase_of task) ->
  (forall t, key_of t = k -> Q (phase_of t) -> triple I (f t) R F) -> triple I (bind (link_preview r now task) f) R F.
Proof using HF L.
  intros Hk HQ Hf. eapply triple_bind; [by apply phases_link|]. intros t. apply triple_pure. intros [? ?]. auto.
Qed.
Lemma phases_ret {A} (a : A) : triple I (ret a : M W A) (fun _ => I) F.
Proof using HF L. by apply triple_ret. Qed.

Lemma phases_retry_later task what e : key_of task = k -> Q AgentTaskPhasePending ->
  triple I (retry_later r task what e : M W unit) (fun _ => I) F.
Proof using HF L. intros Hk HQ. apply phases_patched; [done..|]. intros x. by apply phases_finish. Qed.
Lemma phases_pending provider task : key_of task = k ->
  Q AgentTaskPhasePending -> Q AgentTaskPhaseProvisioning -> Q AgentTaskPhaseActive -> Q (phase_of task) ->
  triple I (reconcile_pending r now nonce provider task : M W unit) (fun _ => I) F.
Proof using HF L.
  intros Hk Hp Hv Ha Ht. apply phases_step; [apply keeps_mint|]. intros [_|e]; [|by apply phases_retry_later].
  apply phases_step; [auto with runs|]. intros _. apply phases_step; [auto with runs|].
  intros [res|e]; [|by apply phases_retry_later]. apply phases_step; [auto with runs|]. intros _.
  apply phases_linked; [done..|]. intros t Hk' Ht'. apply phases_notified; [done| |].
  - by destruct (sr_Ready res).
  - intros t' _. by apply phases_finish.
Qed.
Lemma phases_provisioning provider task : key_of task = k -> Q AgentTaskPhaseActive -> Q (phase_of task) ->
  (forall sb, triple I (handleTerminalSandboxPhase r task sb : M W unit) (fun _ => I) F) ->
  triple I (reconcile_provisioning r now provider task : M W unit) (fun _ => I) F.
Proof using HF L.
  intros Hk Ha Ht Hterm. apply phases_step; [auto with runs|]. intros [sb|e]; [|by apply phases_finish].
  eapply triple_bind; [apply Hterm|]. intros []. apply phases_linked; [done..|]. intros t Hk' Ht'.
  apply phases_notified; [by destruct (ss_Ready sb)|by destruct (ss_Ready sb)|]. intros t' _. by apply phases_finish.
Qed.
Lemma phases_active provider task : key_of task = k -> Q (phase_of task) ->
  (forall sb, triple I (handleTerminalSandboxPhase r task sb : M W unit) (fun _ => I) F) ->
  (expired now (activeStartTime task) task = true ->
   triple I (reconcile_timeout r provider task : M W unit) (fun _ => I) F) ->
  (forall reason, checkBudgetOrIterationLimit task = Some reason ->
   triple I (reconcile_limit r provider task reason : M W unit) (fun _ => I) F) ->
  triple I (reconcile_active r now nonce provider task : M W unit) (fun _ => I) F.
Proof using HF L.
  intros Hk Ht Hterm Htime Hlim. unfold reconcile_active.
  destruct (expired now _ _) eqn:Ee; [by apply Htime|].
  destruct (checkBudgetOrIterationLimit task) as [reason|] eqn:Ec; [by apply Hlim|].
  apply phases_step; [apply keeps_ensure|]. intros _. apply phases_step; [auto with runs|]. intros status.
  eapply triple_bind; [destruct status; [apply Hterm|apply phases_ret]|]. intros [].
  apply phases_linked; [by destruct status as [sb|e]|destruct status as [sb|e]; [|done]; unfold phase_of, observe_sandbox; cbn; by repeat case_match|].
  intros t Hk' Ht'. apply phases_patched; [done..|]. intros x. by apply phases_finish.
Qed.

Lemma phases_revoke_done task reason :
  triple I (do! revoke_or_fail r task reason in done : M W unit) (fun _ => I) F.
Proof using HF L. apply phases_step; [apply keeps_revoke_or_fail|]. intros _. by apply phases_finish. Qed.
Lemma phases_terminal_sandbox task sb : key_of task = k -> Q AgentTaskPhaseCompleted -> Q AgentTaskPhaseFailed ->
  triple I (handleTerminalSandboxPhase r task sb : M W unit) (fun _ => I) F.
Proof using HF L.
  intros Hk Hc Hf. unfold handleTerminalSandboxPhase. destruct (terminal_sandbox sb); [|apply phases_ret]. cbn [negb].
  apply phases_notified; [by destruct (str_eqb _ _)|by destruct (str_eqb _ _)|]. intros t _.
  apply phases_step; [apply keeps_hibernate|]. intros _. apply phases_revoke_done.
Qed.
Lemma phases_timeout provider task : key_of task = k -> Q AgentTaskPhaseFailed ->
  triple I (reconcile_timeout r provider task : M W unit) (fun _ => I) F.
Proof using HF L.
  intros Hk Hf. apply phases_step; [auto with runs|]. intros [_|e].
  - apply phases_notified; [done..|]. intros t _. apply phases_step; [apply keeps_hibernate|]. intros _. apply phases_revoke_done.
  - apply phases_step; [apply keeps_revoke|]. intros _. by apply phases_finish.
Qed.
Lemma key_forget_pod task : key_of (forget_pod task) = key_of task.
Proof. unfold forget_pod. by destruct (is_pod task). Qed.
Lemma phase_forget_pod task : phase_of (forget_pod task) = phase_of task.
Proof. unfold forget_pod. by destruct (is_pod task). Qed.
Lemma phases_limit provider task reason : key_of task = k -> Q AgentTaskPhasePaused ->
  triple I (reconcile_limit r provider task reason : M W unit) (fun _ => I) F.
Proof using HF L.
  intros Hk Hp. apply phases_step; [apply keeps_stop|]. intros _. apply phases_step; [apply keeps_hibernate|]. intros h.
  apply phases_step; [auto with runs|]. intros _.
  apply phases_notified; [by rewrite key_forget_pod|by rewrite phase_forget_pod|]. intros t _. apply phases_revoke_done.
Qed.
Lemma phases_suspended task : key_of task = k -> Q AgentTaskPhasePaused ->
  triple I (reconcile_suspended r task : M W unit) (fun _ => I) F.
Proof using HF L.
  intros Hk Hp. apply phases_step; [destruct (resolveSandboxProvider r task); auto using keeps_stop with runs|]. intros _.
  apply phases_step; [apply keeps_hibernate|]. intros h. apply phases_step; [auto with runs|]. intros _.
  eapply triple_bind; [|intros t; apply phases_revoke_done].
  destruct (str_eqb (phase_of task) AgentTaskPhasePaused); [apply phases_ret|].
  apply (triple_mono I I _ (fun t w => I w /\ key_of t = k) (fun _ => I) F F); auto; [|tauto].
  apply phases_patch_and_notify; rewrite ?key_forget_pod, ?phase_forget_pod; auto.
Qed.
Lemma phases_restart_clock task : key_of task = k -> Q (phase_of task) ->
  triple I (restart_clock now task : M W _) (fun t w => I w /\ key_of t = k /\ Q (phase_of t)) F.
Proof using HF L.
  intros Hk HQ. unfold restart_clock. destruct (expired now _ _); [|by apply triple_ret].
  eapply triple_bind with (R := fun p w => I w /\ forall t, p = Ok t -> key_of t = k /\ phase_at k w = Some (phase_of t)).
  - apply triple_tasks. intros w p t Hw Ep. unfold phases, phase_at, stored_at. cbn.
    destruct p as [t'|e]; [|apply task_Patch_Err in Ep; rewrite Ep; by split; [apply Hw|]].
    apply task_Patch_Ok in Ep as (cur & v & Hc & -> & ->). rewrite Hk in *. rewrite lookup_insert_eq. cbn. split.
    + intros p [= <-]. apply Hw. unfold phase_at, stored_at. by rewrite Hc.
    + intros t0 [= <-]. split; [exact (task_stored_key _ _ _ Hc)|done].
  - intros [t|e]; [|apply triple_finish; intros w [? _]; auto]. apply triple_ret. intros w [Hw Ht].
    destruct (Ht t eq_refl) as [H1 H2]. split; [done|]. split; [done|].
    destruct (restore_phase (tk_Status task) t) as [H|H]; rewrite H; [by apply Hw|done].
Qed.
(** A resumed task runs, or will once provisioned. *)
Lemma phases_resume provider task : key_of task = k ->
  triple I (resume_sandbox r now nonce provider task : M W _)
    (fun t w => I w /\ key_of t = k /\ (phase_of t = AgentTaskPhasePending \/ phase_of t = AgentTaskPhaseActive)) F.
Proof using HF L.
  intros Hk. apply phases_step; [auto 10 with runs|]. intros [].
  { apply triple_ret. intros w Hw. auto. }
  apply phases_step; [apply keeps_mint|]. intros [_|e].
  - apply phases_step; [destruct (suspender provider) as [[su re]|]; auto with runs|]. intros _.
    apply triple_ret. intros w Hw. auto.
  - apply triple_finish. auto.
Qed.
Lemma phases_paused provider task : key_of task = k ->
  Q AgentTaskPhasePending -> Q AgentTaskPhaseActive -> Q (phase_of task) ->
  triple I (reconcile_paused r now nonce provider task : M W unit) (fun _ => I) F.
Proof using HF L.
  intros Hk Hp Ha Ht. unfold reconcile_paused. destruct (checkBudgetOrIterationLimit task); [apply phases_revoke_done|].
  eapply triple_bind; [by apply phases_restart_clock|]. intros t. apply triple_pure. intros [Hk' Ht'].
  apply phases_step; [apply keeps_hibernate|]. intros h. apply phases_step; [auto with runs|]. intros _.
  eapply triple_bind; [by apply phases_resume|]. intros t1. apply triple_pure. intros [Hk1 Hq].
  apply phases_notified; [done|by destruct Hq as [H|H]; unfold phase_of in *; cbn; rewrite H|]. intros t2 _. by apply phases_finish.
Qed.
Lemma phases_gated task : key_of task = k -> Q AgentTaskPhasePaused -> triple I (reconcile_gated task : M W unit) (fun _ => I) F.
Proof using HF L.
  intros Hk Hp. unfold reconcile_gated. destruct (str_eqb (phase_of task) AgentTaskPhasePaused); [by apply phases_finish|].
  eapply triple_bind; [apply phases_patch_or_fail; auto|]. intros t. apply triple_finish. intros w [Hw _]. auto.
Qed.
Lemma phases_unresolved task e : key_of task = k -> Q AgentTaskPhaseFailed ->
  triple I (reconcile_unresolved r task e : M W unit) (fun _ => I) F.
Proof using HF L.
  intros Hk Hf. unfold reconcile_unresolved. apply phases_patched; [done..|]. intros x. apply phases_step; [apply keeps_notify|].
  intros _. by apply phases_finish.
Qed.
Lemma phases_update task : key_of task = k -> triple I (on_tasks (task_Update task) : M W _) (fun _ => I) F.
Proof using HF L.
  intros Hk. apply triple_tasks. intros w x t Hw Ep. unfold phases, phase_at, stored_at. cbn.
  destruct x as [t'|e]; [|apply task_Update_Err in Ep; rewrite Ep; apply Hw].
  apply task_Update_Ok in Ep as (cur & g & v & Hc & _ & -> & ->). intros p. unfold store_updated.
  assert (key_of (updated cur task g v) = k) as -> by (rewrite <- Hk; exact (task_stored_key _ _ _ Hc)). rewrite Hk in Hc.
  destruct (_ && _); [by rewrite lookup_delete_eq|]. rewrite lookup_insert_eq. intros [= <-].
  apply Hw. unfold phase_at, stored_at. by rewrite Hc.
Qed.
Lemma phases_update_done task : key_of task = k ->
  triple I (let! u := on_tasks (task_Update task) in do! or_fail ApiError u in done : M W unit) (fun _ => I) F.
Proof using HF L.
  intros Hk. eapply triple_bind; [by apply phases_update|]. intros u. apply phases_step; [auto with runs|]. intros _.
  by apply phases_finish.
Qed.
Lemma phases_deletion task : key_of task = k -> triple I (reconcile_deletion r task : M W unit) (fun _ => I) F.
Proof using HF L.
  intros Hk. unfold reconcile_deletion. destruct (bool_decide _); [|by apply phases_finish].
  apply phases_step; [auto with runs|]. intros _.
  apply phases_step; [destruct (resolveSandboxProvider r task); auto 10 with runs|]. intros _.
  apply phases_step; [auto with runs|]. intros del.
  apply phases_step; [destruct del as [|[]]; auto using keeps_audit with runs|]. intros _. by apply phases_update_done.
Qed.
End Phases.

(** ** The state machine *)
(** The run gets as far as the switch on the phase. *)
Definition live (task : AgentTask) : Prop :=
  tk_DeletionTimestamp task = None /\ gate_closed r = false /\ sp_Suspended (tk_Spec task) = false /\
  is_ok (resolveSandboxProvider r task) = true.
(** The phases the task may be in after a run, with the cause of each. *)
Inductive edge (task : AgentTask) : gostring -> Prop :=
| edge_stay : edge task (phase_of task)
| edge_gated : gate_closed r = true -> edge task AgentTaskPhasePaused
| edge_suspended : sp_Suspended (tk_Spec task) = true -> edge task AgentTaskPhasePaused
| edge_unresolved e : resolveSandboxProvider r task = Err e -> edge task AgentTaskPhaseFailed
| edge_provision p : live task -> phase_of task = [] \/ phase_of task = AgentTaskPhasePending ->
    p ∈ [AgentTaskPhasePending; AgentTaskPhaseProvisioning; AgentTaskPhaseActive] -> edge task p
| edge_ready : live task -> phase_of task = AgentTaskPhaseProvisioning -> edge task AgentTaskPhaseActive
| edge_finished p : live task -> phase_of task = AgentTaskPhaseProvisioning \/ phase_of task = AgentTaskPhaseActive ->
    p ∈ [AgentTaskPhaseCompleted; AgentTaskPhaseFailed] -> edge task p
| edge_timeout : live task -> phase_of task = AgentTaskPhaseActive -> expired now (activeStartTime task) task = true ->
    edge task AgentTaskPhaseFailed
| edge_limit reason : live task -> phase_of task = AgentTaskPhaseActive ->
    checkBudgetOrIterationLimit task = Some reason -> edge task AgentTaskPhasePaused
| edge_resume p : live task -> phase_of task = AgentTaskPhasePaused -> checkBudgetOrIterationLimit task = None ->
    p ∈ [AgentTaskPhasePending; AgentTaskPhaseActive] -> edge task p.

Lemma mem_head {A} (x : A) l : x ∈ x :: l.
Proof. by left. Qed.
Lemma mem_tail {A} (x y : A) l : x ∈ l -> x ∈ y :: l.
Proof. by right. Qed.
Hint Resolve mem_head mem_tail : phases.
Hint Constructors edge : phases.

Lemma edges_phase k provider task (F : outcome ctrl_error -> W -> Prop) : key_of task = k -> live task ->
  (forall o w, phases k (edge task) w -> F o w) ->
  triple (phases k (edge task)) (reconcile_phase r now nonce provider task : M W unit) (fun _ => phases k (edge task)) F.
Proof using L.
  intros Hk Hl HF. unfold reconcile_phase.
  destruct (str_eqb (phase_of task) [] || str_eqb (phase_of task) AgentTaskPhasePending) eqn:E1.
  { apply orb_true_iff in E1. rewrite !str_eqb_true in E1. apply phases_pending; auto 10 with phases. }
  destruct (str_eqb (phase_of task) AgentTaskPhaseProvisioning) eqn:E2.
  { rewrite str_eqb_true in E2. apply phases_provisioning; auto with phases.
    intros sb. apply phases_terminal_sandbox; auto 10 with phases. }
  destruct (str_eqb (phase_of task) AgentTaskPhaseActive) eqn:E3.
  { rewrite str_eqb_true in E3. apply phases_active; auto with phases.
    - intros sb. apply phases_terminal_sandbox; auto 10 with phases.
    - intros He. apply phases_timeout; auto with phases.
    - intros reason Hr. apply phases_limit; eauto with phases. }
  destruct (str_eqb (phase_of task) AgentTaskPhasePaused) eqn:E4.
  { rewrite str_eqb_true in E4. destruct (checkBudgetOrIterationLimit task) as [reason|] eqn:Ec.
    - unfold reconcile_paused. rewrite Ec. by apply phases_revoke_done.
    - apply phases_paused; auto 10 with phases. }
  destruct (str_eqb (phase_of task) AgentTaskPhaseCompleted || str_eqb (phase_of task) AgentTaskPhaseFailed);
    [by apply phases_revoke_done|by apply phases_finish].
Qed.
Lemma edges_task k task (F : outcome ctrl_error -> W -> Prop) : key_of task = k -> (forall o w, phases k (edge task) w -> F o w) ->
  triple (phases k (edge task)) (reconcile_task r now nonce task : M W unit) (fun _ => phases k (edge task)) F.
Proof using L.
  intros Hk HF. unfold reconcile_task. destruct (bool_decide (is_Some _)) eqn:Ed; [by apply phases_deletion|].
  destruct (negb _); [by apply phases_update_done|]. destruct (gate_closed r) eqn:Eg; [by apply phases_gated; auto with phases|].
  destruct (sp_Suspended (tk_Spec task)) eqn:Es; [by apply phases_suspended; auto with phases|].
  destruct (resolveSandboxProvider r task) eqn:Er; [|by apply phases_unresolved; eauto with phases].
  apply edges_phase; [done| |done]. unfold live. rewrite Er. repeat split; auto.
  apply bool_decide_eq_false in Ed. destruct (tk_DeletionTimestamp task); [|done]. by destruct Ed.
Qed.

(** A run on a stored task is the run of [reconcile_task] on it, or the
    failure to read it. *)
Lemma reconcile_stored k (w : W) t o w' (F : outcome ctrl_error -> W -> Prop) : stored_at k w = Some t ->
  triple (fun w1 => w1 = w) (reconcile_task r now nonce t) (fun _ => F (mkOutcome 0 None)) F ->
  (forall e, F (mkOutcome 0 (Some e)) w) -> Reconcile r now nonce k w = (o, w') -> F o w'.
Proof using L.
  intros Ht Hm He. unfold Reconcile, reconcile_body, bind, on_tasks, fail, finish.
  pose proof (task_Get_pure k (w_tasks w)) as Hp. pose proof (task_Get_Ok k (w_tasks w)) as Hok.
  pose proof (task_Get_NotFound k (w_tasks w)) as Hn. unfold stored_at in Ht.
  destruct (task_Get k (w_tasks w)) as [[t0|e] ts]; cbn in Hp, Hok, Hn; subst ts; destruct w as [wt we wb wk wv]; cbn in *.
  - specialize (Hok t0 eq_refl). rewrite Ht in Hok. injection Hok as ->. specialize (Hm _ eq_refl).
    destruct (reconcile_task r now nonce t0 _) as [[o1|[]] w1]; by intros [= <- <-].
  - destruct e; try (intros [= <- <-]; apply He). specialize (Hn eq_refl). congruence.
Qed.

(** one run of [Reconcile] moves the stored phase of its task only along
    the edges of the life cycle, each for its cause: provisioning from
    Pending, Active from Provisioning or a resume within the limits,
    Completed or Failed from a finished sandbox, Failed from the timeout or an
    unresolved provider, Paused from the limits, the suspension or the gate. *)
Theorem phase_moves k w o w' t t' : stored_at k w = Some t -> Reconcile r now nonce k w = (o, w') ->
  stored_at k w' = Some t' -> edge t (phase_of t').
Proof using L.
  intros Ht Hr Ht'.
  assert (phases k (edge t) w) as Hw.
  { intros p. unfold phase_at. rewrite Ht. intros [= <-]. constructor. }
  enough (phases k (edge t) w') as H by (apply H; unfold phase_at; by rewrite Ht').
  apply (reconcile_stored k w t o w' (fun _ => phases k (edge t)) Ht); [|auto|done].
  eapply triple_mono; [apply (edges_task k t (fun _ => phases k (edge t))); [exact (task_stored_key _ _ _ Ht)|auto]|..]; auto.
  by intros w0 ->.
Qed.

(** ** The token of a stopped task *)
Definition stopped_phases : list gostring := [AgentTaskPhasePaused; AgentTaskPhaseCompleted; AgentTaskPhaseFailed].
Definition running (p : gostring) : Prop := p ∉ stopped_phases.
Definition token_gone (k : task_key) (w : W) : Prop := no_token (snd k) (fst k) (w_tokens w).
Definition settled (k : task_key) (w : W) : Prop := phases k running w \/ token_gone k w.

(** Runs that end in [G] when they end well, for a [G] that holds at least
    where the token is gone. *)
Section Stopped.
Context (k : task_key) (G : W -> Prop) (HG : forall w, token_gone k w -> G w).
Definition ends_settled (o : outcome ctrl_error) (w : W) : Prop := failure o = None -> G w.
Definition fails {A} (m : M W A) : Prop := triple (fun _ => True) m (fun _ _ => True) ends_settled.

Lemma fails_fail {A} e d : fails (finish (mkOutcome d (Some e)) : M W A).
Proof. by apply triple_finish. Qed.
Lemma fails_ret {A} (a : A) : fails (ret a).
Proof. by apply triple_ret. Qed.
Lemma fails_bind {A X} (m : M W A) (f : A -> M W X) : fails m -> (forall a, fails (f a)) -> fails (bind m f).
Proof. intros Hm Hf. eapply triple_bind; [exact Hm|exact Hf]. Qed.
Lemma fails_envs {A} (f : E -> A * E) : fails (on_envs f).
Proof. intros w _. unfold on_envs. by destruct (f _). Qed.
Lemma fails_sandbox {A} (f : B -> A * B) : fails (on_sandbox f).
Proof. intros w _. unfold on_sandbox. by destruct (f _). Qed.
Lemma fails_or_fail {X A} (f : X -> ctrl_error) (res : result X A) : fails (or_fail f res : M W A).
Proof. by apply triple_or_fail. Qed.
Lemma fails_hibernate task b : fails (hibernate task b : M W _).
Proof. apply fails_envs. Qed.
Lemma fails_stop provider task : fails (stop_sandbox provider task : M W unit).
Proof.
  unfold stop_sandbox. destruct (suspender provider) as [[su re]|]; [|destruct (is_pod task)]; try apply fails_ret;
    apply fails_bind; auto using fails_sandbox, fails_or_fail.
Qed.
Lemma fails_step {A X} (m : M W A) (f : A -> M W X) R : fails m ->
  (forall a, triple (fun _ => True) (f a) R ends_settled) -> triple (fun _ => True) (bind m f) R ends_settled.
Proof. intros Hm Hf. eapply triple_bind; [exact Hm|exact Hf]. Qed.

Lemma revoked_token task reason : key_of task = k ->
  triple (fun _ => True) (revoke_or_fail r task reason : M W unit) (fun _ => token_gone k) ends_settled.
Proof using TL RL HG.
  unfold token_gone. intros <- w _. unfold revoke_or_fail, revokeToken, key_of, bind, on_tokens, audit, when, fail, finish. cbn.
  pose proof (is_revoked_pure (tk_Name task) (tk_Namespace task) (w_tokens w)) as Hp.
  pose proof (is_revoked_get (tk_Name task) (tk_Namespace task) (w_tokens w)) as Hg.
  destruct (IsRevoked _ _ (w_tokens w)) as [[] s]; cbn in *; subst s; [auto|].
  destruct (RevokeToken _ _ (w_tokens w)) as [[[]|e] s] eqn:Er; cbn.
  - apply revoke_get in Er. destruct (has_auditor r); cbn; intros tok; destruct Er as [-> | ->]; done.
  - pose proof (revoke_missing _ _ _ _ _ Er) as Hm. destruct e; cbn; auto; intros [=].
Qed.
Lemma revoked_done task reason R : key_of task = k ->
  triple (fun _ => True) (do! revoke_or_fail r task reason in done : M W unit) R ends_settled.
Proof using TL RL HG.
  intros Hk. eapply triple_bind; [by apply revoked_token|]. intros x. apply triple_finish. intros w Hw _. by apply HG.
Qed.
Lemma patched_key base new :
  triple (fun _ => True) (patch_and_notify r base new : M W _) (fun t _ => key_of t = key_of new) ends_settled.
Proof using L.
  intros w _. unfold patch_and_notify, patch_or_fail, patch_status, on_tasks, bind, or_fail, fail, finish, notify, when. cbn.
  destruct (task_StatusPatch _ _ _ _) as [[t|e] ts] eqn:Ep; [|done].
  apply task_StatusPatch_Ok in Ep as (cur & v & Hc & _ & -> & _). cbn.
  destruct (_ && _); cbn; exact (task_stored_key _ _ _ Hc).
Qed.
Lemma patched_revoked {X} base new (f : AgentTask -> M W X) R : key_of new = k ->
  (forall t, key_of t = k -> triple (fun _ => True) (f t) R ends_settled) ->
  triple (fun _ => True) (bind (patch_and_notify r base new) f) R ends_settled.
Proof using L.
  intros Hk Hf. eapply triple_bind; [apply patched_key|]. intros t w Ht. apply Hf; [congruence|done].
Qed.

(** and where the task runs *)
Context (HGR : forall w, phases k running w -> G w).
Lemma settled_running o w : phases k running w -> ends_settled o w.
Proof using HGR. intros Hw _. by apply HGR. Qed.
Lemma settled_any (P : W -> Prop) {A} (m : M W A) R R' : triple (fun _ => True) m R ends_settled ->
  (forall a w, R a w -> R' a w) -> triple P m R' ends_settled.
Proof. intros Hm HR. apply (triple_mono (fun _ => True) P m R R' ends_settled ends_settled Hm); auto. Qed.
Lemma running_1 : running AgentTaskPhasePending /\ running AgentTaskPhaseProvisioning /\ running AgentTaskPhaseActive /\ running [].
Proof. unfold running. split_and!; refine (bool_decide_eq_true_1 _ _); vm_compute; reflexivity. Qed.

Lemma settled_terminal_sandbox task sb : key_of task = k ->
  triple (phases k running) (handleTerminalSandboxPhase r task sb : M W unit) (fun _ => phases k running) ends_settled.
Proof using L TL RL HG.
  intros Hk. unfold handleTerminalSandboxPhase. destruct (terminal_sandbox sb); [|by apply triple_ret]. cbn [negb].
  apply (settled_any _ _ (fun _ _ => False)); [|done]. apply patched_revoked; [by destruct (str_eqb _ _)|].
  intros t Ht. apply fails_step; [apply fails_hibernate|]. intros _. by apply revoked_done.
Qed.
Lemma settled_timeout provider task R : key_of task = k ->
  triple (fun _ => True) (reconcile_timeout r provider task : M W unit) R ends_settled.
Proof using L TL RL HG.
  intros Hk. apply fails_step; [apply fails_sandbox|]. intros [_|e].
  - apply patched_revoked; [done|]. intros t Ht. apply fails_step; [apply fails_hibernate|]. intros _. by apply revoked_done.
  - intros w _. unfold bind. destruct (revokeToken r task _ w) as [[o|x] w1] eqn:Er; [|done].
    pose proof (revoked_token task #"sandbox timeout exceeded" Hk w Logic.I) as H. unfold revoke_or_fail, bind in H.
    by rewrite Er in H.
Qed.
Lemma settled_limit provider task reason R : key_of task = k ->
  triple (fun _ => True) (reconcile_limit r provider task reason : M W unit) R ends_settled.
Proof using L TL RL HG.
  intros Hk. apply fails_step; [apply fails_stop|]. intros _. apply fails_step; [apply fails_hibernate|]. intros h.
  apply fails_step; [apply fails_or_fail|]. intros _. apply patched_revoked; [by rewrite key_forget_pod|].
  intros t Ht. by apply revoked_done.
Qed.
Lemma settled_suspended task R : key_of task = k ->
  triple (fun _ => True) (reconcile_suspended r task : M W unit) R ends_settled.
Proof using L TL RL HG.
  intros Hk. apply fails_step; [destruct (resolveSandboxProvider r task); [apply fails_stop|apply fails_ret]|]. intros _.
  apply fails_step; [apply fails_hibernate|]. intros h. apply fails_step; [apply fails_or_fail|]. intros _.
  destruct (str_eqb (phase_of task) AgentTaskPhasePaused); [by apply (revoked_done task)|].
  apply patched_revoked; [by rewrite key_forget_pod|]. intros t Ht. by apply revoked_done.
Qed.
(** The phases along a part of a run that returns only with an error. *)
Lemma settled_fails {A} P (m : M W A) R : fails m -> triple P m R (fun _ _ => True) -> triple P m R ends_settled.
Proof.
  intros Hf Hm w Hw. specialize (Hm w Hw). specialize (Hf w Logic.I). by destruct (m w) as [[o|a] w1].
Qed.
Lemma fails_tokens {A} (f : S -> A * S) : fails (on_tokens f).
Proof. intros w _. unfold on_tokens. by destruct (f _). Qed.
Lemma fails_mint task : fails (mintAndSaveToken r now nonce task : M W _).
Proof.
  assert (forall b t x y, fails (audit r b t x y : M W unit)) as Ha.
  { intros. unfold audit. destruct (has_auditor r); [intros w _; done|apply fails_ret]. }
  unfold mintAndSaveToken. destruct (TokenMinter r); [|apply fails_ret]. destruct (mint_token _ _ _).
  - apply fails_bind; [apply fails_tokens|]. intros []; (apply fails_bind; [apply Ha|]); intros; apply fails_ret.
  - apply fails_bind; [apply Ha|]. intros; apply fails_ret.
Qed.
Lemma fails_restart task : fails (restart_clock now task : M W _).
Proof.
  unfold restart_clock. destruct (expired now _ _); [|apply fails_ret]. apply fails_bind.
  - intros w _. unfold on_tasks. by destruct (task_Patch _ _ _).
  - intros []; [apply fails_ret|apply fails_fail].
Qed.
Lemma fails_resume provider task : fails (resume_sandbox r now nonce provider task : M W _).
Proof.
  apply fails_bind.
  - destruct (str_eqb _ _); [apply fails_ret|]. apply fails_bind; [apply fails_sandbox|]. intros; apply fails_ret.
  - intros []; [apply fails_ret|]. apply fails_bind; [apply fails_mint|]. intros []; [|apply fails_fail].
    apply fails_bind; [|intros; apply fails_ret]. destruct (suspender provider) as [[su re]|]; [|apply fails_ret].
    apply fails_bind; [apply fails_sandbox|]. intros; apply fails_or_fail.
Qed.
(** A changed phase is the one stored. *)
Lemma patched_phase base new (f : AgentTask -> M W unit) R : key_of new = k -> phase_of base <> phase_of new ->
  (forall t, triple (phases k (eq (phase_of new))) (f t) R ends_settled) ->
  triple (fun _ => True) (bind (patch_and_notify r base new) f) R ends_settled.
Proof using L.
  intros Hk Hne Hf. eapply triple_bind with (R := fun _ => phases k (eq (phase_of new))); [|exact Hf].
  intros w _. unfold patch_and_notify, patch_or_fail, patch_status, on_tasks, bind, or_fail, fail, finish, notify, when. cbn.
  destruct (task_StatusPatch _ _ _ _) as [[t|e] ts] eqn:Ep; [|done].
  apply task_StatusPatch_Ok in Ep as (cur & v & Hc & _ & -> & Hs). rewrite Hk in *. cbn.
  assert (phases k (eq (phase_of new)) (mkWorld ts (w_envs w) (w_sandbox w) (w_tokens w) (w_events w))) as H.
  { intros p. unfold phase_at, stored_at. cbn. rewrite Hs, lookup_insert_eq. intros [= <-]. unfold phase_of at 2. cbn.
    unfold merge_field. case_decide; done. }
  destruct (_ && _); exact H.
Qed.
(** A task that was Paused and is resumed has left Paused. *)
Lemma settled_paused provider task R : key_of task = k -> phase_of task = AgentTaskPhasePaused ->
  triple (phases k (eq AgentTaskPhasePaused)) (reconcile_paused r now nonce provider task : M W unit) R ends_settled.
Proof using L TL RL HG HGR.
  intros Hk Hph. unfold reconcile_paused. destruct (checkBudgetOrIterationLimit task) as [reason|].
  { apply (settled_any _ _ R); [by apply revoked_done|done]. }
  eapply triple_bind.
  { apply settled_fails; [apply fails_restart|]. apply (phases_restart_clock k (eq AgentTaskPhasePaused)); done. }
  intros t. apply triple_pure. intros [Hk' Ht'].
  eapply triple_bind; [apply settled_fails; [apply fails_hibernate|]; apply phases_keeps; [apply keeps_hibernate|done]|]. intros h.
  eapply triple_bind; [apply settled_fails; [apply fails_or_fail|]; apply phases_keeps; [apply keeps_or_fail|done]|]. intros u.
  eapply triple_bind; [apply settled_fails; [apply fails_resume|]; by apply phases_resume|].
  intros t1. apply triple_pure. intros [Hk1 Hq]. destruct running_1 as (Hr1 & _ & Hr3 & _).
  apply (settled_any _ _ R); [|done].
  assert (phase_of (with_Status (set_LastMeterRequestIDs []) t1) = phase_of t1) as Hp by done.
  apply patched_phase; [done| |].
  - rewrite Hp, <- Ht'. by destruct Hq as [-> | ->].
  - intros t2. apply triple_finish. intros w Hw _. apply HGR. intros p Hp'. apply Hw in Hp'. subst p. rewrite Hp.
    by destruct Hq as [-> | ->].
Qed.

Lemma phases_mono (Q Q' : gostring -> Prop) (w : W) : (forall p, Q p -> Q' p) -> phases k Q w -> phases k Q' w.
Proof. intros H Hw p Hp. auto. Qed.
Lemma settled_phase provider task : key_of task = k ->
  triple (phases k (eq (phase_of task))) (reconcile_phase r now nonce provider task : M W unit) (fun _ => G) ends_settled.
Proof using L TL RL HG HGR.
  intros Hk. unfold reconcile_phase. destruct running_1 as (Hr1 & Hr2 & Hr3 & Hr4).
  assert (forall m : M W unit, running (phase_of task) -> triple (phases k running) m (fun _ => phases k running) ends_settled ->
    triple (phases k (eq (phase_of task))) m (fun _ => G) ends_settled) as Hrun.
  { intros m Hr Hm. eapply triple_mono; [exact Hm| |auto|auto]. intros w. apply phases_mono. by intros p <-. }
  destruct (str_eqb (phase_of task) [] || str_eqb (phase_of task) AgentTaskPhasePending) eqn:E1.
  { apply orb_true_iff in E1. rewrite !str_eqb_true in E1.
    assert (running (phase_of task)) by (by destruct E1 as [-> | ->]).
    apply Hrun; [done|]. by apply phases_pending; auto using settled_running. }
  destruct (str_eqb (phase_of task) AgentTaskPhaseProvisioning) eqn:E2.
  { rewrite str_eqb_true in E2. apply Hrun; [by rewrite E2|].
    apply phases_provisioning; [exact settled_running|done..|by rewrite E2|]. intros sb. by apply settled_terminal_sandbox. }
  destruct (str_eqb (phase_of task) AgentTaskPhaseActive) eqn:E3.
  { rewrite str_eqb_true in E3. apply Hrun; [by rewrite E3|].
    apply phases_active; [exact settled_running|done|by rewrite E3| | |].
    - intros sb. by apply settled_terminal_sandbox.
    - intros _. apply (settled_any _ _ (fun _ _ => False)); [by apply settled_timeout|done].
    - intros reason _. apply (settled_any _ _ (fun _ _ => False)); [by apply settled_limit|done]. }
  destruct (str_eqb (phase_of task) AgentTaskPhasePaused) eqn:E4.
  { rewrite str_eqb_true in E4. rewrite E4. by apply settled_paused. }
  destruct (str_eqb (phase_of task) AgentTaskPhaseCompleted || str_eqb (phase_of task) AgentTaskPhaseFailed) eqn:E5.
  { apply (settled_any _ _ (fun _ => G)); [by apply revoked_done|done]. }
  apply orb_false_iff in E5 as [E5 E6]. rewrite str_eqb_false in E4, E5, E6.
  apply triple_finish. intros w Hw _. apply HGR. revert Hw. apply phases_mono. intros p <-. unfold running, stopped_phases.
  rewrite !not_elem_of_cons. auto using not_elem_of_nil.
Qed.
End Stopped.


(** A run on a suspended task, if it ends well, ends without its token. *)
Lemma suspended_run k w o w' t : stored_at k w = Some t -> tk_DeletionTimestamp t = None ->
  agentTaskFinalizer ∈ tk_Finalizers t -> gate_closed r = false -> sp_Suspended (tk_Spec t) = true ->
  Reconcile r now nonce k w = (o, w') -> failure o = None -> token_gone k w'.
Proof using L TL RL.
  intros Ht Hd Hf Hg Hs Hr Ho.
  apply (reconcile_stored k w t o w' (ends_settled (token_gone k)) Ht); [|done..]. unfold reconcile_task.
  rewrite Hd, (bool_decide_eq_true_2 _ Hf), Hg, Hs, bool_decide_eq_false_2 by (by intros [? ?]). cbn [negb].
  apply (settled_any (token_gone k) _ _ (fun _ => token_gone k)); [|by intros ? ? ? _].
  apply (settled_suspended k); [done|exact (task_stored_key _ _ _ Ht)].
Qed.

(** ** Deletion *)
Definition still_held (k : task_key) (w : W) : Prop :=
  exists t, stored_at k w = Some t /\ agentTaskFinalizer ∈ tk_Finalizers t.
(** The sandbox of [t] was torn down, unless no provider can be resolved, and
    its token deleted. *)
Definition cleaned_up (t : AgentTask) (w w' : W) : Prop :=
  match resolveSandboxProvider r t with
  | Ok provider => Teardown provider t (w_sandbox w) = (Ok tt, w_sandbox w')
  | Err _ => w_sandbox w' = w_sandbox w
  end /\
  (no_token (tk_Name t) (tk_Namespace t) (w_tokens w') \/
   DeleteToken (tk_Name t) (tk_Namespace t) (w_tokens w) = (Err ErrTokenNotFound, w_tokens w')).

(** After the sandbox: the token, then the finalizer. *)
Lemma release_token t (w0 w : W) : stored_at (key_of t) w = Some t -> agentTaskFinalizer ∈ tk_Finalizers t ->
  w_tokens w = w_tokens w0 ->
  match resolveSandboxProvider r t with
  | Ok provider => Teardown provider t (w_sandbox w0) = (Ok tt, w_sandbox w)
  | Err _ => w_sandbox w = w_sandbox w0 end ->
  triple (fun w1 => w1 = w) (let! del := on_tokens (DeleteToken (tk_Name t) (tk_Namespace t)) in
    do! (match del with
         | Ok _ | Err ErrTokenNotFound => audit r false t true []
         | Err e => do! audit r false t false (error_text r (StoreError e)) in
                    finish (mkOutcome (5 * Second) (Some (StoreError e)))
         end) in
    let! u := on_tasks (task_Update (with_Finalizers (filter (fun f => f <> agentTaskFinalizer) (tk_Finalizers t)) t)) in
    do! or_fail ApiError u in done : M W unit)
    (fun _ w' => False) (fun _ w' => still_held (key_of t) w' \/ cleaned_up t w0 w').
Proof using TL.
  intros Hs Hf Ht Hb w1 ->. unfold bind, on_tokens, audit, on_tasks, or_fail, done, fail, finish, cleaned_up. rewrite Ht.
  pose proof (delete_get (tk_Name t) (tk_Namespace t) (w_tokens w0)) as Hd.
  destruct (DeleteToken _ _ (w_tokens w0)) as [del s] eqn:Ed.
  assert (forall x, still_held (key_of t) (mkWorld (w_tasks w) (w_envs w) (w_sandbox w) s x)) as Hstill.
  { intros x. by exists t. }
  assert (del = Ok tt \/ del = Err ErrTokenNotFound -> no_token (tk_Name t) (tk_Namespace t) s \/ (del, s) = (Err ErrTokenNotFound, s)) as Hg.
  { intros [-> | ->]; [|by right]. left. intros tok. by destruct (Hd s eq_refl) as [-> | ->]. }
  destruct del as [[]|[]]; unfold when; destruct (has_auditor r); cbn; try (by left);
    destruct (task_Update _ _) as [[u|e] ts] eqn:Eu; cbn; right; (split; [exact Hb|]);
    destruct Hg as [H|H]; auto; rewrite H; auto.
Qed.

(** a deleted task is let go only when nothing of it is left: the run that
    takes the finalizer off has torn the sandbox down (unless its provider
    cannot be resolved) and deleted the token; a failure of either keeps the
    task. *)
Theorem deletion_cleans_up k w o w' t : stored_at k w = Some t -> is_Some (tk_DeletionTimestamp t) ->
  agentTaskFinalizer ∈ tk_Finalizers t -> Reconcile r now nonce k w = (o, w') -> still_held k w' \/ cleaned_up t w w'.
Proof using L TL.
  intros Ht Hd Hf. pose proof (task_stored_key _ _ _ Ht) as Hk. subst k.
  refine (reconcile_stored _ w t o w' (fun _ w' => still_held (key_of t) w' \/ cleaned_up t w w') Ht _ _); [|left; by exists t].
  unfold reconcile_task, reconcile_deletion. rewrite (bool_decide_eq_true_2 _ Hd), (bool_decide_eq_true_2 _ Hf).
  eapply triple_bind with (R := fun _ w1 => exists x, w1 = mkWorld (w_tasks w) (w_envs w) (w_sandbox w) (w_tokens w) x).
  { intros w1 ->. unfold when, emit. destruct (has_hook r); cbn; [by eexists|exists (w_events w); by destruct w]. }
  intros [] w1 [x ->].
  pose proof (fun b => release_token t w (mkWorld (w_tasks w) (w_envs w) b (w_tokens w) x) Ht Hf eq_refl) as Hrel.
  unfold bind at 1. destruct (resolveSandboxProvider r t) as [provider|e].
  - unfold bind at 1, on_sandbox. cbn. destruct (Teardown provider t (w_sandbox w)) as [[[]|msg] b] eqn:Eb.
    + pose proof (Hrel b eq_refl _ eq_refl) as H. cbn. by destruct (bind _ _ _) as [[]].
    + cbn. left. by exists t.
  - pose proof (Hrel (w_sandbox w) eq_refl _ eq_refl) as H. cbn. by destruct (bind _ _ _) as [[]].
Qed.
End Facts.

(** * Executions *)
Module Demo.
(** Environments that can be written and are read back; a sandbox that fails
    to provision once, and then is always ready. *)
Definition conditions : ConditionOps := SimpleConditions.ops time_zero.
Definition environments : EnvClient (option Environment) := {|
  env_Get _ e := (match e with Some env => Ok env | None => Err NotFound end, e);
  env_Patch _ f e := match e with Some env => (Ok tt, Some (env_annotations f env)) | None => (Err NotFound, None) end;
  env_Delete _ _ := (Ok tt, None);
  env_CreateOrUpdate _ f e := match f (default (new_environment [] []) e) with Some env => (Some env, Some env) | None => (None, e) end |}.
#[local] Existing Instance ascii_unicode.
#[local] Existing Instance conditions.
#[local] Existing Instance environments.

(** The sandbox counts the failures left. *)
Definition provider : SandboxProvider nat := {|
  Provision _ n := match n with
                   | 0%nat => (Ok (mkSandboxResult #"claim" #"pod" #"10.0.0.1" true #"ready"), 0%nat)
                   | Datatypes.S n => (Err #"no capacity", n)
                   end;
  Teardown _ n := (Ok tt, n);
  AgentTaskController.Status _ n := (Ok (mkSandboxStatus #"pod" #"10.0.0.1" #"Running" true #"ready"), n);
  suspender := None |}.
Definition reconciler : AgentTaskReconciler nat :=
  mkReconciler nat (Some (OtherMinter (fun _ => Ok #"token"))) true true false None [] (fun _ => Some (Ok provider)) None
    (fun e => match e with SandboxError msg => msg | _ => #"error" end).
Definition now : Time := mkTime 1000 0.
Definition spec (suspended : bool) : AgentTaskSpec :=
  mkTaskSpec #"fix the bug" #"https://github.com/acme/app" #"main" [] #"pod" [] [] 3600 [] 0 0 [] false suspended.
Definition status (phase pod : gostring) : AgentTaskStatus := mkTaskStatus phase [] pod [] 0 [] [] 0 [] [] [] 0.
Definition key : task_key := (#"default", #"task-1").
(** A task with the finalizer. *)
Definition task (suspended : bool) (deleted : option Time) (phase pod : gostring) : AgentTask :=
  mkTask (snd key) (fst key) #"uid" ∅ ∅ [agentTaskFinalizer] (mkTime 900 0) deleted 1 1 (spec suspended) (status phase pod).
Definition start (t : AgentTask) (failures : nat) (tokens : Memory.t) : world TaskServer.t (option Environment) nat Memory.t :=
  mkWorld (TaskServer.mk {[key := t]} 1) None failures tokens [].
Definition run := Reconcile reconciler now (S := Memory.t) (Some []).
(** [n] runs. *)
Fixpoint runs (n : nat) (w : world TaskServer.t (option Environment) nat Memory.t) :=
  match n with O => w | Datatypes.S n => runs n (snd (run key w)) end.
(** The user sets [spec.suspended]. *)
Definition suspend (b : bool) (w : world TaskServer.t (option Environment) nat Memory.t) :=
  mkWorld (match TaskServer.objects (w_tasks w) !! key with
           | Some t => snd (task_Update (with_Spec (set_Suspended b) t) (w_tasks w))
           | None => w_tasks w
           end) (w_envs w) (w_sandbox w) (w_tokens w) (w_events w).
Definition observed (w : world TaskServer.t (option Environment) nat Memory.t) : option (gostring * gostring) :=
  t ← TaskServer.objects (w_tasks w) !! key; Some (st_Phase (tk_Status t), st_Message (tk_Status t)).
Definition token (w : world TaskServer.t (option Environment) nat Memory.t) : sres gostring :=
  fst (GetToken (snd key) (fst key) (w_tokens w)).
Definition has_token : Memory.t := snd (Memory.save (snd key) (fst key) #"old" Memory.NewInMemoryTokenStore).
End Demo.

(** a task whose first provisioning failed and whose second succeeded is
    Active and still shows the failure: the annotation patch of the linked
    preview environment replaces the task in memory by the server's, whose
    message is not empty and is kept. *)
Theorem failure_message_stays :
  Demo.observed (Demo.runs 2 (Demo.start (Demo.task false None [] []) 1 Memory.NewInMemoryTokenStore)) =
  Some (AgentTaskPhaseActive, #"Provisioning failed (retrying): no capacity").
Proof. vm_compute. reflexivity. Qed.

(** a Completed task is not at its end: suspended it becomes Paused, and
    unsuspended it is provisioned again with a fresh token. *)
Theorem completed_task_restarts :
  let w0 := Demo.start (Demo.task false None AgentTaskPhaseCompleted []) 0 Memory.NewInMemoryTokenStore in
  let w1 := Demo.runs 1 (Demo.suspend true (Demo.runs 1 w0)) in
  let w2 := Demo.runs 2 (Demo.suspend false w1) in
  fst <$> Demo.observed (Demo.runs 1 w0) = Some AgentTaskPhaseCompleted /\
  fst <$> Demo.observed w1 = Some AgentTaskPhasePaused /\
  fst <$> Demo.observed w2 = Some AgentTaskPhaseActive /\ Demo.token w2 = Ok #"token".
Proof. vm_compute. auto. Qed.

Section Witnesses.
#[local] Existing Instance ascii_unicode.
#[local] Existing Instance Demo.conditions.
#[local] Existing Instance Demo.environments.
Definition demo_paused := Demo.start (Demo.task true None AgentTaskPhaseActive #"pod") 0 Demo.has_token.
Definition demo_pending := Demo.start (Demo.task false None [] []) 0 Memory.NewInMemoryTokenStore.
Definition demo_deleted := Demo.start (Demo.task false (Some Demo.now) AgentTaskPhaseActive #"pod") 0 Demo.has_token.
Definition phase_in (p : gostring) (w : world TaskServer.t (option Environment) nat Memory.t) : bool :=
  match stored_at Demo.key w with Some t => str_eqb (phase_of t) p | None => false end.
Lemma phase_in_true p w : phase_in p w = true -> exists t, stored_at Demo.key w = Some t /\ phase_of t = p.
Proof. unfold phase_in. destruct (stored_at Demo.key w) as [t|]; [|done]. intros H%str_eqb_true. eauto. Qed.
Lemma demo_pending_active : phase_in AgentTaskPhaseActive (Demo.runs 1 demo_pending) = true.
Proof. vm_compute. reflexivity. Qed.
Lemma demo_paused_run : failure (fst (Demo.run Demo.key demo_paused)) = None /\
  phase_in AgentTaskPhasePaused (snd (Demo.run Demo.key demo_paused)) = true /\ Demo.token demo_paused = Ok #"old".
Proof. vm_compute. auto. Qed.
Lemma demo_deleted_run : stored_at Demo.key (snd (Demo.run Demo.key demo_deleted)) = None.
Proof. vm_compute. reflexivity. Qed.
Lemma demo_task_stored b d p n : stored_at Demo.key (Demo.start (Demo.task b d p #"pod") n Demo.has_token) = Some (Demo.task b d p #"pod").
Proof. reflexivity. Qed.
Lemma demo_pending_stored : stored_at Demo.key demo_pending = Some (Demo.task false None [] []).
Proof. reflexivity. Qed.
Lemma run_eta k w : Demo.run k w = (fst (Demo.run k w), snd (Demo.run k w)).
Proof. by destruct (Demo.run k w). Qed.
Lemma demo_held : agentTaskFinalizer ∈ [agentTaskFinalizer].
Proof. by left. Qed.

Lemma phase_moves_witness : edge Demo.reconciler Demo.now (Demo.task false None [] []) AgentTaskPhaseActive.
Proof.
  destruct (phase_in_true _ _ demo_pending_active) as (t' & Ht' & <-).
  exact (phase_moves Demo.reconciler Demo.now (Some []) Demo.key demo_pending _ _ _ t' demo_pending_stored
    (run_eta Demo.key demo_pending) Ht').
Defined.
Lemma deletion_cleans_up_witness : stored_at Demo.key (snd (Demo.run Demo.key demo_deleted)) = None /\
  cleaned_up Demo.reconciler (Demo.task false (Some Demo.now) AgentTaskPhaseActive #"pod") demo_deleted
    (snd (Demo.run Demo.key demo_deleted)).
Proof.
  split; [exact demo_deleted_run|].
  destruct (deletion_cleans_up Demo.reconciler Demo.now (Some []) Demo.key demo_deleted _ _ _
    (demo_task_stored false (Some Demo.now) AgentTaskPhaseActive 0) (mk_is_Some _ _ eq_refl) demo_held (run_eta Demo.key demo_deleted))
    as [(t & Ht & _)|H]; [|exact H].
  rewrite demo_deleted_run in Ht. discriminate.
Defined.
End Witnesses.
