(* ===== verification/TaskLifecycle.v ===== *)
(** * The service, the meter and the controller together

    A request to the agent task service followed by a run of the controller:
    a pause takes the task's token away, and what a budget bump that
    overflows does to the limit the controller enforces. *)

From S2P Require Import Prelude GoStrings GoFloat GoTime AuthProvider Authz.
From S2P Require Import Macaroon TokenStore KubeApi AgentTask ResourceNames EnvTypes Conditions AgentTaskPreview EarlyReturn AgentTaskController.
From S2P Require Import AgentTaskFacts AgentTaskService AgentTaskServiceFacts.
Local Open Scope Z_scope.

Section Lifecycle.
Context {U : GoUnicode} {O : ConditionOps}.
Context {T : Type} {C : TaskClient T} {L : TaskClientLaws T} {A : TaskAdmin T} {AL : TaskAdminLaws T} {R : Retry T}.
Context {E : Type} {K : EnvClient E} {B S : Type} {TS : TokenStore S} {TL : TokenStoreLaws S} {RL : RevocationLaws S}.
Context (r : AgentTaskReconciler B) (now : Time) (nonce : option gostring).
Context (other : k8s_error) (review : UserInfo -> attrs -> option bool) (audited : bool) (user : option UserInfo).

End Lifecycle.

Section Executions.
#[local] Existing Instance default_retry.
(** The limit the controller finds on a stored task. *)
Definition limit_of (w : TaskServer.t) : option gostring :=
  t ← task_stored w !! (#"default", #"task-1"); checkBudgetOrIterationLimit t.
Definition budget_of (w : TaskServer.t) : option Z :=
  t ← task_stored w !! (#"default", #"task-1"); Some (sp_BudgetTokens (tk_Spec t)).

(** a resume whose token bump overflows the budget lifts the limit: the
    sum wraps around to a negative budget, which the controller takes for no
    budget at all. *)
Theorem token_bump_overflow :
  limit_of (ServiceDemo.world true) = Some #"Reached token budget limit (5000 / 1000); paused" /\
  is_ok (ServiceDemo.resume (2 ^ 63 - 1)).1.1 = true /\
  budget_of (ServiceDemo.resume (2 ^ 63 - 1)).2 = Some (- 2 ^ 63 + 999) /\
  limit_of (ServiceDemo.resume (2 ^ 63 - 1)).2 = None.
Proof. vm_compute. auto. Qed.

#[local] Existing Instance ascii_unicode.
#[local] Existing Instance Demo.conditions.
#[local] Existing Instance Demo.environments.
Definition active_task : AgentTask := Demo.task false None AgentTaskPhaseActive #"pod".
Definition active_tasks : TaskServer.t := TaskServer.mk {[Demo.key := active_task]} 1.
Definition demo_pause :=
  PauseTask (T := TaskServer.t) KOther (fun _ _ => Some true) true (Some ServiceDemo.developer) #"task-1" [] active_tasks.
Definition after_pause : world TaskServer.t (option Environment) nat Memory.t := mkWorld demo_pause.2 None 0%nat Demo.has_token [].
Lemma demo_pause_ok : demo_pause = (Ok (ServiceDemo.reply_of demo_pause), demo_pause.1.2, demo_pause.2).
Proof. vm_compute. reflexivity. Qed.
Lemma after_pause_ok : failure (fst (Demo.run Demo.key after_pause)) = None /\ Demo.token after_pause = Ok #"old".
Proof. vm_compute. auto. Qed.
End Executions.
