(* ===== verification/LlmMeter.v ===== *)
(** * The LLM meter: [internal/server/llm_meter.go]

    A sandbox reports its token and cost usage with its capability token; the
    handler adds it to the task's status and suspends the task when a budget
    is exceeded.  The macaroon verifier, the token store and the API client
    are used through their interfaces; [retry.RetryOnConflict] is the
    class [Retry].  Within one replica the handler serialises the
    requests of a task by a striped lock: here each request runs alone. *)

From S2P Require Import Prelude GoStrings GoCrypto GoFloat GoJSON GoTime GoURL GoQuote Macaroon TokenStore.
From S2P Require Import AuthProvider KubeApi AgentTask MacaroonFacts MacaroonExamples AuthFacts.
Local Open Scope Z_scope.

(** ** The request *)
Record LLMMeterRequest := mkMeterRequest {
  rq_RequestID : gostring; rq_Iteration : Z; rq_Model : gostring; rq_TokensUsed : Z; rq_CostUSD : float64;
  rq_PRURL : gostring }.
Definition zero_request : LLMMeterRequest := mkMeterRequest [] 0 [] 0 f_zero [].

(** A member decodes into the field of its exact name, else of its folded
    name. *)
Definition field_named (fields : list gostring) (key : gostring) : option gostring :=
  if decide (key ∈ fields) then Some key else List.find (fun f => str_eqb (fold_name f) (fold_name key)) fields.
Definition request_fields : list gostring :=
  [ #"requestId"; #"iteration"; #"model"; #"tokensUsed"; #"costUSD"; #"prUrl"].

Definition decode_string (v : json) (old : gostring) : option gostring :=
  match v with JString s => Some s | JNull => Some old | _ => None end.
Definition decode_int (bits : Z) (v : json) (old : Z) : option Z :=
  match v with
  | JNumber lit =>
      n ← ParseInt lit;
      if (- 2 ^ (bits - 1) <=? n) && (n <? 2 ^ (bits - 1)) then Some n else None
  | JNull => Some old
  | _ => None
  end.
Definition decode_float (v : json) (old : float64) : option float64 :=
  match v with JNumber lit => ParseFloat lit | JNull => Some old | _ => None end.

Definition decode_member (r : LLMMeterRequest) (kv : gostring * json) : option LLMMeterRequest :=
  let '(key, v) := kv in
  match field_named request_fields key with
  | None => Some r
  | Some f =>
      if str_eqb f #"requestId" then
        s ← decode_string v (rq_RequestID r);
        Some (mkMeterRequest s (rq_Iteration r) (rq_Model r) (rq_TokensUsed r) (rq_CostUSD r) (rq_PRURL r))
      else if str_eqb f #"iteration" then
        n ← decode_int 32 v (rq_Iteration r);
        Some (mkMeterRequest (rq_RequestID r) n (rq_Model r) (rq_TokensUsed r) (rq_CostUSD r) (rq_PRURL r))
      else if str_eqb f #"model" then
        s ← decode_string v (rq_Model r);
        Some (mkMeterRequest (rq_RequestID r) (rq_Iteration r) s (rq_TokensUsed r) (rq_CostUSD r) (rq_PRURL r))
      else if str_eqb f #"tokensUsed" then
        n ← decode_int 64 v (rq_TokensUsed r);
        Some (mkMeterRequest (rq_RequestID r) (rq_Iteration r) (rq_Model r) n (rq_CostUSD r) (rq_PRURL r))
      else if str_eqb f #"costUSD" then
        x ← decode_float v (rq_CostUSD r);
        Some (mkMeterRequest (rq_RequestID r) (rq_Iteration r) (rq_Model r) (rq_TokensUsed r) x (rq_PRURL r))
      else
        s ← decode_string v (rq_PRURL r);
        Some (mkMeterRequest (rq_RequestID r) (rq_Iteration r) (rq_Model r) (rq_TokensUsed r) (rq_CostUSD r) s)
  end.

(** [json.NewDecoder(http.MaxBytesReader(w, r.Body, 64*1024)).Decode(&req)]:
    the first value of the body, which must end within the limit. *)
Definition body_limit : Z := 64 * 1024.
#[global] Opaque body_limit.
Definition decode_request (body : gostring) : option LLMMeterRequest :=
  '(v, rest) ← parse_prefix (take (Z.to_nat body_limit) body);
  match v with
  | JObject members => fold_left (fun acc kv => r ← acc; decode_member r kv) members (Some zero_request)
  | JNull => if bool_decide (rest = []) && (body_limit <? Z.of_nat (length body)) then None else Some zero_request
  | _ => None
  end.

(** ** Tokens *)
Definition extractMeterBearerToken {U : GoUnicode} (authHeader : gostring) : gostring :=
  match Cut authHeader " "%char with
  | Some (scheme, rest) => if EqualFold scheme #"bearer" then TrimSpace rest else []
  | None => []
  end.
Definition decodeMeterMacaroonToken (token : gostring) : option gostring :=
  let trimmed := TrimSpace token in
  if str_eqb trimmed [] then None
  else if HasPrefix trimmed #"{" then Some trimmed
  else first_decoding [RawStdEncoding; StdEncoding; RawURLEncoding; URLEncoding] trimmed.

(** ** Charging a task: one attempt of the callback, between [Get] and the
    status update *)
Definition math_MaxInt64 : Z := 2 ^ 63 - 1.
Definition meter_history : nat := 32.

(** The variables the callback leaves for the response. *)
Record usage := mkUsage {
  us_Cost : float64; us_Tokens : Z; us_Iteration : Z; us_MaxIterations : Z;
  us_Guidance : gostring; us_PreviewURL : gostring; us_PRURL : gostring }.

(** The cost so far, zero unless it is the text of a finite number. *)
Definition prev_cost (st : AgentTaskStatus) : float64 :=
  if str_eqb (st_CostUSD st) [] then f_zero
  else match ParseFloat (st_CostUSD st) with
       | Some f => if is_nan f || is_inf f then f_zero else f
       | None => f_zero
       end.
(** [v > 0], of a parsed budget *)
Definition parsed_budget (s : gostring) : option float64 :=
  if str_eqb s [] then None
  else match ParseFloat s with Some f => if f_gt f f_zero then Some f else None | None => None end.

Definition inactive (t : AgentTask) : bool :=
  sp_Suspended (tk_Spec t) ||
  bool_decide (st_Phase (tk_Status t) ∈ [AgentTaskPhasePaused; AgentTaskPhaseCompleted; AgentTaskPhaseFailed]).

(** The status after counting the request once. *)
Definition last_ids (ids : list gostring) : list gostring := drop (length ids - meter_history) ids.
Definition counted (req : LLMMeterRequest) (prURL : gostring) (st : AgentTaskStatus) : AgentTaskStatus :=
  set_Usage
    (if st_Iteration st <? rq_Iteration req then rq_Iteration req else st_Iteration st)
    (if str_eqb prURL [] then st_PRURL st else prURL)
    (FormatFixed 4 (f_add (prev_cost st) (rq_CostUSD req)))
    (wrap64 (st_TokensConsumed st + rq_TokensUsed req))
    (if str_eqb (rq_RequestID req) [] then st_LastMeterRequestIDs st
     else last_ids (st_LastMeterRequestIDs st ++ [rq_RequestID req])) st.

Definition already_counted (req : LLMMeterRequest) (st : AgentTaskStatus) : bool :=
  negb (str_eqb (rq_RequestID req) []) && bool_decide (rq_RequestID req ∈ st_LastMeterRequestIDs st).

(** Whether a limit is exceeded: the spec's limits take precedence over the
    token's. *)
Definition over_cost (spec : AgentTaskSpec) (claims : Claims) (cost : float64) : bool :=
  match parsed_budget (sp_BudgetUSD spec) with
  | Some budget => f_gt cost budget
  | None => f_gt (MaxCostUSD claims) f_zero && f_gt cost (MaxCostUSD claims)
  end.
Definition over_tokens (spec : AgentTaskSpec) (claims : Claims) (tokens : Z) : bool :=
  if 0 <? sp_BudgetTokens spec then sp_BudgetTokens spec <? tokens
  else (0 <? MaxTokens claims) && (MaxTokens claims <? tokens).
Definition over_iterations (spec : AgentTaskSpec) (iteration : Z) : bool :=
  (0 <? sp_MaxIterations spec) && (sp_MaxIterations spec <? iteration).

Inductive exceeded := Budget | Iterations.
Definition reason_text (e : exceeded) : gostring :=
  match e with Budget => #"budget exceeded" | Iterations => #"max iterations exceeded" end.
Definition status_message (e : exceeded) : gostring :=
  match e with Budget => #"Budget exceeded" | Iterations => #"Max iterations exceeded" end.

Inductive charge_error := TaskNotActive (u : usage) (message : gostring) | TokensOverflow.

Definition usage_of (t : AgentTask) (cost : float64) (tokens : Z) : usage :=
  mkUsage cost tokens (st_Iteration (tk_Status t)) (sp_MaxIterations (tk_Spec t))
    (TrimSpace (annotation t #"divergedev.com/guidance")) (TrimSpace (annotation t #"divergedev.com/preview-url"))
    (st_PRURL (tk_Status t)).

Definition charge (req : LLMMeterRequest) (prURL : gostring) (claims : Claims) (t : AgentTask)
    : result charge_error (usage * option exceeded * AgentTask) :=
  let st := tk_Status t in
  let spec := tk_Spec t in
  let before := usage_of t (prev_cost st) (st_TokensConsumed st) in
  if inactive t then Err (TaskNotActive before (st_Message st))
  else if wrap64 (math_MaxInt64 - st_TokensConsumed st) <? rq_TokensUsed req then Err TokensOverflow
  else
    let again := already_counted req st in
    let t1 := if again then t else with_Status (counted req prURL) t in
    let totalCost := if again then prev_cost st else f_add (prev_cost st) (rq_CostUSD req) in
    let totalTokens := if again then st_TokensConsumed st else wrap64 (st_TokensConsumed st + rq_TokensUsed req) in
    let iteration := st_Iteration (tk_Status t1) in
    let exceed :=
      if over_cost spec claims totalCost || over_tokens spec claims totalTokens then Some Budget
      else if over_iterations spec iteration then Some Iterations else None in
    let t2 := match exceed with
              | Some e => with_Status (fun st => set_Message (status_message e) (set_Phase AgentTaskPhasePaused st)) t1
              | None => t1
              end in
    Ok (usage_of t1 totalCost totalTokens, exceed, t2).

(** ** The handler *)
Record LLMMeterResponse := mkMeterResponse {
  rs_Status : Z; rs_Allowed : bool; rs_Suspended : bool; rs_Reason : gostring; rs_Usage : option usage }.
Definition meter_error_reply (status : Z) (reason : gostring) : LLMMeterResponse := mkMeterResponse status false false reason None.

Inductive meter_error := LoadFailed (e : api_error) | Charge (e : charge_error) | SaveFailed (e : api_error).
Definition meter_conflict (e : meter_error) : bool :=
  match e with LoadFailed e | SaveFailed e => bool_decide (e = Conflict) | Charge _ => false end.

Section Handler.
Context {U : GoUnicode} {N : GoNetip}.
Context {T : Type} {C : TaskClient T} {RT : Retry T} {S : Type} {TS : TokenStore S}.
(** [CheckRevoked], for the stores that have it. *)
Context (checker : option (gostring -> gostring -> S -> sres bool * S)).

Definition updateTaskStatus (t : AgentTask) (w : T) : ares unit * T :=
  match task_StatusUpdate t w with
  | (Ok _, w1) => (Ok tt, w1)
  | (Err NotFound, w1) => match task_Update t w1 with (Ok _, w2) => (Ok tt, w2) | (Err e, w2) => (Err e, w2) end
  | (Err e, w1) => (Err e, w1)
  end.

Definition meter_attempt (req : LLMMeterRequest) (prURL : gostring) (claims : Claims) (key : task_key) (w : T)
    : result meter_error (usage * option exceeded) * T :=
  match task_Get key w with
  | (Err e, w1) => (Err (LoadFailed e), w1)
  | (Ok t, w1) =>
      match charge req prURL claims t with
      | Err e => (Err (Charge e), w1)
      | Ok (u, exceed, t') =>
          match updateTaskStatus t' w1 with
          | (Ok _, w2) => (Ok (u, exceed), w2)
          | (Err e, w2) => (Err (SaveFailed e), w2)
          end
      end
  end.
Definition suspend_attempt (key : task_key) (w : T) : ares unit * T :=
  match task_Get key w with
  | (Err e, w1) => (Err e, w1)
  | (Ok t, w1) =>
      match task_Update (with_Spec (set_Suspended true) t) w1 with
      | (Ok _, w2) => (Ok tt, w2)
      | (Err e, w2) => (Err e, w2)
      end
  end.

(** [with_store] is [h.tokenStore != nil]. *)
Definition checkTokenRevoked (with_store : bool) (taskID namespace : gostring) (s : S) : sres bool * S :=
  if with_store then
    match checker with
    | Some check => check taskID namespace s
    | None => let '(b, s') := IsRevoked taskID namespace s in (Ok b, s')
    end
  else (Ok false, s).

Definition model_allowed (claims : Claims) (model : gostring) : bool :=
  existsb (fun m => MatchesAllowedModel m model) (AllowedModels claims).

(** What is decided before the task is read: a refusal, or the request. *)
Definition valid_pr_url (s : gostring) : bool :=
  match Parse s with
  | Some u => (str_eqb (u_Scheme u) #"http" || str_eqb (u_Scheme u) #"https") && negb (str_eqb (Hostname u) [])
  | None => false
  end.
Definition validate_meter (claims : Claims) (body : gostring) : result LLMMeterResponse (LLMMeterRequest * gostring) :=
  match decode_request body with
  | None => Err (meter_error_reply 400 #"invalid JSON request body")
  | Some req =>
      let prURL := TrimSpace (rq_PRURL req) in
      let no_model := str_eqb (TrimSpace (rq_Model req)) [] in
      let cost := rq_CostUSD req in
      if (rq_TokensUsed req <? 0) || f_lt cost f_zero || is_nan cost || is_inf cost
      then Err (meter_error_reply 400 #"tokensUsed and costUSD must be non-negative")
      else if negb (str_eqb prURL []) && negb (valid_pr_url prURL)
      then Err (meter_error_reply 400 #"invalid prUrl: must be a valid http or https URL")
      else
        let isZeroCostPRReport := negb (str_eqb prURL []) && (rq_TokensUsed req =? 0) && sf_eqb cost f_zero && no_model in
        if negb (bool_decide (AllowedModels claims = [])) && negb isZeroCostPRReport then
          if no_model then Err (meter_error_reply 403 #"model is required when token restricts allowed_models")
          else if negb (model_allowed claims (rq_Model req)) then Err (meter_error_reply 403 (#"model " ++ Quote (rq_Model req) ++ #" is not allowed"))
          else Ok (req, prURL)
        else Ok (req, prURL)
  end.

Definition meter_failure (e : meter_error) : LLMMeterResponse :=
  match e with
  | Charge (TaskNotActive u message) =>
      let reason := TrimSpace message in
      mkMeterResponse 429 false true (if str_eqb reason [] then #"task is paused or in terminal state" else reason) (Some u)
  | Charge TokensOverflow => meter_error_reply 400 #"tokensUsed overflows accumulated usage"
  | LoadFailed NotFound | SaveFailed NotFound => meter_error_reply 404 #"agent task not found"
  | LoadFailed _ => meter_error_reply 500 #"failed to load agent task"
  | SaveFailed _ => meter_error_reply 500 #"failed to update task status"
  end.

(** From the request to the response, after the token is verified. *)
Definition meter_task (with_store : bool) (req : LLMMeterRequest) (prURL : gostring) (claims : Claims)
    (ns : gostring) (w : T * S) : LLMMeterResponse * (T * S) :=
  let '(tasks, tokens) := w in
  match checkTokenRevoked with_store (TaskID claims) ns tokens with
  | (Err _, s1) => (meter_error_reply 503 #"failed to verify token revocation status", (tasks, s1))
  | (Ok true, s1) => (meter_error_reply 401 #"token revoked", (tasks, s1))
  | (Ok false, s1) =>
      match RetryOnConflict meter_conflict (meter_attempt req prURL claims (ns, TaskID claims)) tasks with
      | (Err e, t1) => (meter_failure e, (t1, s1))
      | (Ok (u, None), t1) => (mkMeterResponse 200 true false [] (Some u), (t1, s1))
      | (Ok (u, Some e), t1) =>
          match RetryOnConflict (fun e => bool_decide (e = Conflict)) (suspend_attempt (ns, TaskID claims)) t1 with
          | (Err _, t2) => (meter_error_reply 500 #"failed to suspend task", (t2, s1))
          | (Ok _, t2) =>
              let s2 := if with_store then snd (RevokeToken (TaskID claims) ns s1) else s1 in
              (mkMeterResponse 429 false true (reason_text e) (Some u), (t2, s2))
          end
      end
  end.

(** [ServeHTTP]: [verifier] is the [MacaroonProvider] pointer, [with_client]
    is [h.crdClient != nil]. *)
Definition ServeHTTP (verifier : option (option gostring)) (with_store with_client : bool) (now : Z)
    (method authorization body : gostring) (w : T * S) : LLMMeterResponse * (T * S) :=
  if negb (str_eqb method #"POST") then (meter_error_reply 405 #"method not allowed", w)
  else
    let bearer := extractMeterBearerToken authorization in
    if str_eqb bearer [] then (meter_error_reply 401 #"missing or invalid authorization header", w)
    else
      match decodeMeterMacaroonToken bearer with
      | None => (meter_error_reply 401 #"malformed capability token", w)
      | Some raw =>
          match verifier with
          | None => (meter_error_reply 503 #"macaroon verifier not configured", w)
          | Some key =>
              match VerifyAndExtract key now raw with
              | Err _ => (meter_error_reply 401 #"invalid or expired capability token", w)
              | Ok (_, claims) =>
                  let ns := if str_eqb (Namespace claims) [] then #"default" else Namespace claims in
                  match checkTokenRevoked with_store (TaskID claims) ns (snd w) with
                  | (Err _, s1) => (meter_error_reply 503 #"failed to verify token revocation status", (fst w, s1))
                  | (Ok true, s1) => (meter_error_reply 401 #"token revoked", (fst w, s1))
                  | (Ok false, s1) =>
                      match validate_meter claims body with
                      | Err r => (r, (fst w, s1))
                      | Ok (req, prURL) =>
                          if negb with_client then (meter_error_reply 503 #"crd client not configured", (fst w, s1))
                          else meter_task with_store req prURL claims ns (fst w, s1)
                      end
                  end
              end
          end
      end.
End Handler.

(** * The meter enforces the budgets

    Usage is counted once per request identifier, token totals never wrap, a
    request is allowed only within every limit, and a refusal that says
    "suspended" leaves the task stopped.  Costs are kept with four decimals:
    smaller ones are never counted. *)

(** ** Retries *)
(** ** Token arithmetic *)
(** Usage the handler accepts on top of a count in range. *)
Definition count_range (n : Z) : Prop := 0 <= n <= math_MaxInt64.

Lemma overflow_check used consumed : count_range used -> count_range consumed ->
  (wrap64 (math_MaxInt64 - consumed) <? used) = (math_MaxInt64 <? consumed + used).
Proof.
  unfold count_range, math_MaxInt64. intros H1 H2. rewrite wrap64_id by lia.
  destruct (Z.ltb_spec (2 ^ 63 - 1 - consumed) used), (Z.ltb_spec (2 ^ 63 - 1) (consumed + used)); lia.
Qed.

(** Requests as [validate_meter] lets them through. *)
Definition valid_request (req : LLMMeterRequest) : Prop := count_range (rq_TokensUsed req).
Lemma decode_member_range r kv r' : (- 2 ^ 63 <= rq_TokensUsed r < 2 ^ 63) ->
  decode_member r kv = Some r' -> - 2 ^ 63 <= rq_TokensUsed r' < 2 ^ 63.
Proof.
  intros Hr. destruct kv as [key v]. unfold decode_member. destruct (field_named _ _) as [f|]; [|by intros [= <-]].
  repeat (match goal with |- context [str_eqb f ?s] => destruct (str_eqb f s) end);
    intros (x & Hx & [= <-])%bind_Some; cbn; try done.
  unfold decode_int in Hx. destruct v; try done; [by injection Hx as <-|].
  apply bind_Some in Hx as (n & _ & Hn). change (63) with (64 - 1).
  destruct ((_ <=? n) && _) eqn:E; [|done]. injection Hn as <-. lia.
Qed.
Lemma decode_members_range l : forall r r', - 2 ^ 63 <= rq_TokensUsed r < 2 ^ 63 ->
  fold_left (fun acc kv => r ← acc; decode_member r kv) l (Some r) = Some r' -> - 2 ^ 63 <= rq_TokensUsed r' < 2 ^ 63.
Proof.
  induction l as [|kv l IH]; intros r r' Hr; cbn [fold_left]; [by intros [= <-]|].
  cbn [mbind option_bind]. destruct (decode_member r kv) as [r1|] eqn:E.
  - apply IH. by eapply decode_member_range.
  - clear. assert (fold_left (fun acc kv => r ← acc; decode_member r kv) l None = None) as ->; [|done].
    by induction l.
Qed.

Section Validate.
Context {U : GoUnicode} {N : GoNetip}.
Lemma validate_meter_valid claims body req pr : validate_meter claims body = Ok (req, pr) -> valid_request req.
Proof.
  unfold validate_meter. destruct (decode_request body) as [r|] eqn:E; [|done].
  assert (- 2 ^ 63 <= rq_TokensUsed r < 2 ^ 63) as Hr.
  { unfold decode_request in E. apply bind_Some in E as ([v rest] & _ & E).
    destruct v; try done.
    - destruct (_ && _); [done|]. injection E as <-. cbn. lia.
    - eapply decode_members_range; [|exact E]. cbn. lia. }
  destruct (rq_TokensUsed r <? 0) eqn:E0; [done|]. apply Z.ltb_ge in E0. cbn [orb].
  intros H. assert (req = r) as ->.
  { repeat (destruct (_ : bool); try done); by injection H. }
  unfold valid_request, count_range, math_MaxInt64. lia.
Qed.
End Validate.

(** ** One charge *)
Definition within_limits (spec : AgentTaskSpec) (claims : Claims) (u : usage) : Prop :=
  over_cost spec claims (us_Cost u) = false /\ over_tokens spec claims (us_Tokens u) = false /\
  over_iterations spec (us_Iteration u) = false.

(** The status a charge leaves, before a pause. *)
Definition charged (req : LLMMeterRequest) (pr : gostring) (st : AgentTaskStatus) : AgentTaskStatus :=
  if already_counted req st then st else counted req pr st.

Lemma charge_Ok req pr claims t u ex t' : charge req pr claims t = Ok (u, ex, t') ->
  inactive t = false /\ tk_Spec t' = tk_Spec t /\ key_of t' = key_of t /\ tk_ResourceVersion t' = tk_ResourceVersion t /\
  (let st := charged req pr (tk_Status t) in
   us_Iteration u = st_Iteration st /\
   us_Tokens u = st_TokensConsumed st /\
   us_Cost u = (if already_counted req (tk_Status t) then prev_cost (tk_Status t)
                else f_add (prev_cost (tk_Status t)) (rq_CostUSD req)) /\
   match ex with
   | None => within_limits (tk_Spec t) claims u /\ tk_Status t' = st
   | Some e => tk_Status t' = set_Message (status_message e) (set_Phase AgentTaskPhasePaused st)
   end).
Proof.
  unfold charge. destruct (inactive t) eqn:Ei; [done|]. destruct (_ <? _); [done|]. unfold charged.
  set (again := already_counted req (tk_Status t)). intros H.
  set (t1 := if again then t else with_Status (counted req pr) t) in H.
  assert (tk_Spec t1 = tk_Spec t /\ key_of t1 = key_of t /\ tk_ResourceVersion t1 = tk_ResourceVersion t /\
          tk_Status t1 = if again then tk_Status t else counted req pr (tk_Status t)) as (H1 & H2 & H3 & H4).
  { subst t1. by destruct again. }
  destruct (over_cost _ _ _ || over_tokens _ _ _) eqn:Eo; [|destruct (over_iterations _ _) eqn:Eit];
    injection H as <- <- <-; cbn; (do 4 (split; [done|])); rewrite H4;
    (split; [done|]); (split; [by destruct again|]); (split; [by destruct again|]); try done.
  apply orb_false_iff in Eo as [Eo1 Eo2]. split; [|done]. done.
Qed.

(** Without a pause, a charge only adds usage. *)
Lemma charged_tokens req pr st : valid_request req -> count_range (st_TokensConsumed st) ->
  st_TokensConsumed st + rq_TokensUsed req <= math_MaxInt64 ->
  st_TokensConsumed (charged req pr st) =
  (if already_counted req st then st_TokensConsumed st else st_TokensConsumed st + rq_TokensUsed req).
Proof.
  unfold charged, valid_request, count_range, math_MaxInt64. intros H1 H2 H3.
  destruct (already_counted req st); [done|]. cbn. rewrite wrap64_id; lia.
Qed.

(** C37: token totals never wrap: a charge is refused exactly when the exact
    sum would not fit, and otherwise the total is the exact sum (or unchanged
    for a request counted before). *)
Theorem charge_tokens_exact req pr claims t :
  valid_request req -> count_range (st_TokensConsumed (tk_Status t)) -> inactive t = false ->
  match charge req pr claims t with
  | Err e => e = TokensOverflow /\ math_MaxInt64 < st_TokensConsumed (tk_Status t) + rq_TokensUsed req
  | Ok (u, _, t') =>
      us_Tokens u = st_TokensConsumed (tk_Status t') /\ count_range (us_Tokens u) /\
      us_Tokens u = (if already_counted req (tk_Status t) then st_TokensConsumed (tk_Status t)
                     else st_TokensConsumed (tk_Status t) + rq_TokensUsed req)
  end.
Proof.
  intros H1 H2 Ha. destruct (charge req pr claims t) as [[[u ex] t']|e] eqn:E.
  - assert (st_TokensConsumed (tk_Status t) + rq_TokensUsed req <= math_MaxInt64) as Hs.
    { unfold charge in E. rewrite Ha, overflow_check in E by done. destruct (_ <? _) eqn:El; [done|]. lia. }
    apply charge_Ok in E as (_ & _ & _ & _ & _ & Ht & _ & Hst).
    rewrite Ht, charged_tokens by done. split.
    + destruct ex; [rewrite Hst|rewrite (proj2 Hst)]; cbn; by rewrite charged_tokens.
    + split; [|done]. unfold valid_request, count_range in *. destruct (already_counted _ _); lia.
  - unfold charge in E. rewrite Ha, overflow_check in E by done.
    destruct (_ <? _) eqn:El; [injection E as <-; split; [done|]; lia|done].
Qed.

(** ** A request is counted once *)
(** [x] is among the last identifiers, with at most [k] after it. *)
Definition recent (x : gostring) (ids : list gostring) (k : nat) : Prop :=
  exists l r, ids = l ++ x :: r /\ (length r <= k)%nat.

Lemma recent_keep x ids k y : recent x ids k -> (S k < meter_history)%nat -> recent x (last_ids (ids ++ [y])) (S k).
Proof.
  intros (l & r & -> & Hr) Hk. unfold last_ids. rewrite <-app_assoc. cbn [app].
  set (n := (length (l ++ x :: r ++ [y]) - meter_history)%nat).
  assert (n <= length l)%nat as Hn.
  { subst n. rewrite length_app. cbn [length]. rewrite length_app. cbn [length]. lia. }
  rewrite drop_app_le by done. exists (drop n l), (r ++ [y]). split; [done|]. rewrite length_app. cbn. lia.
Qed.
Lemma recent_new x ids : recent x (last_ids (ids ++ [x])) 0.
Proof.
  unfold last_ids. rewrite length_app. cbn [length]. rewrite drop_app_le by (unfold meter_history; lia).
  exists (drop (length ids + 1 - meter_history) ids), []. split; [done|]. cbn. lia.
Qed.
Lemma recent_mono x ids k k' : recent x ids k -> (k <= k')%nat -> recent x ids k'.
Proof. intros (l & r & -> & Hr) Hk. exists l, r. split; [done|lia]. Qed.
Lemma recent_charged x k req pr st : recent x (st_LastMeterRequestIDs st) k -> (S k < meter_history)%nat ->
  recent x (st_LastMeterRequestIDs (charged req pr st)) (S k).
Proof.
  intros Hx Hk. unfold charged, counted. destruct (already_counted _ _); [eapply recent_mono; [done|lia]|].
  cbn. destruct (str_eqb _ _); [eapply recent_mono; [done|lia]|]. by apply recent_keep.
Qed.

(** Charges of requests in [P] that were allowed, one after another. *)
Inductive charges (P : LLMMeterRequest -> Prop) (claims : Claims) : AgentTask -> nat -> AgentTask -> Prop :=
| charges_none t : charges P claims t 0 t
| charges_more t n t1 req pr u t2 : charges P claims t n t1 -> P req ->
    charge req pr claims t1 = Ok (u, None, t2) -> charges P claims t (S n) t2.

Lemma charges_recent P claims t n t' x : charges P claims t n t' -> (n < meter_history)%nat ->
  recent x (st_LastMeterRequestIDs (tk_Status t)) 0 -> recent x (st_LastMeterRequestIDs (tk_Status t')) n.
Proof.
  induction 1 as [t|t n t1 req pr u t2 Hc IH Hp Hch]; intros Hn Hx; [done|].
  apply charge_Ok in Hch as (_ & _ & _ & _ & _ & _ & _ & _ & ->). apply recent_charged; [|done]. apply IH; [lia|done].
Qed.

(** a request that is sent again, with fewer than 32 other charges since
    it was counted, changes no usage: tokens, cost, iteration and the list of
    request identifiers stay. *)
Theorem charge_once claims t0 req pr u0 t1 n t2 pr' u ex t3 :
  rq_RequestID req <> [] -> already_counted req (tk_Status t0) = false ->
  charge req pr claims t0 = Ok (u0, None, t1) -> charges (fun _ => True) claims t1 n t2 -> (n < 32)%nat ->
  charge req pr' claims t2 = Ok (u, ex, t3) ->
  let same {A} (f : AgentTaskStatus -> A) := f (tk_Status t3) = f (tk_Status t2) in
  same st_TokensConsumed /\ same st_CostUSD /\ same st_Iteration /\ same st_PRURL /\ same st_LastMeterRequestIDs.
Proof.
  intros Hid Hnew H0 Hcs Hn H3. cbn.
  apply charge_Ok in H0 as (_ & _ & _ & _ & _ & _ & _ & _ & H1). unfold charged in H1. rewrite Hnew in H1.
  assert (recent (rq_RequestID req) (st_LastMeterRequestIDs (tk_Status t1)) 0) as Hr.
  { rewrite H1. cbn. unfold str_eqb. rewrite bool_decide_eq_false_2 by done. apply recent_new. }
  apply (charges_recent _ _ _ _ _ _ Hcs Hn) in Hr as (l & r & Hids & _).
  assert (already_counted req (tk_Status t2) = true) as Ha.
  { unfold already_counted, str_eqb. rewrite bool_decide_eq_false_2, bool_decide_eq_true_2; [done| |done].
    rewrite Hids. set_solver. }
  apply charge_Ok in H3 as (_ & _ & _ & _ & _ & _ & _ & Hst). unfold charged in Hst. rewrite Ha in Hst.
  destruct ex; [rewrite Hst|rewrite (proj2 Hst)]; done.
Qed.

(** ** The handler *)
Section Handler.
Context {T : Type} {C : TaskClient T} {L : TaskClientLaws T}.

Lemma updateTaskStatus_spec t w r w' : updateTaskStatus t w = (r, w') ->
  match r with
  | Ok _ => exists cur v, task_stored w !! key_of t = Some cur /\
      task_stored w' = <[key_of t := with_Version v (with_Status (fun _ => tk_Status t) cur)]> (task_stored w)
  | Err _ => task_stored w' = task_stored w
  end.
Proof.
  unfold updateTaskStatus. destruct (task_StatusUpdate t w) as [[t'|e] w1] eqn:E.
  - intros [= <- <-]. apply task_StatusUpdate_Ok in E as (cur & v & H1 & _ & -> & H2). eauto.
  - pose proof (task_StatusUpdate_Err _ _ _ _ E) as Hs. destruct e; try (intros [= <- <-]; done).
    pose proof (task_StatusUpdate_NotFound _ _ _ E) as Hn. destruct (task_Update t w1) as [[t'|e] w2] eqn:E2.
    + apply task_Update_Ok in E2 as (cur & g & v & H & _). rewrite Hs, Hn in H. done.
    + apply task_Update_Err in E2. intros [= <- <-]. congruence.
Qed.

Lemma meter_attempt_spec req pr claims k w r w' : meter_attempt req pr claims k w = (r, w') ->
  match r with
  | Ok (u, ex) => exists t t' v, task_stored w !! k = Some t /\ charge req pr claims t = Ok (u, ex, t') /\
      task_stored w' = <[k := with_Version v (with_Status (fun _ => tk_Status t') t)]> (task_stored w)
  | Err (Charge e) => task_stored w' = task_stored w /\
      exists t, task_stored w !! k = Some t /\ charge req pr claims t = Err e
  | Err _ => task_stored w' = task_stored w
  end.
Proof.
  unfold meter_attempt. pose proof (task_Get_pure k w) as Hp. pose proof (task_Get_Ok k w) as Hg.
  destruct (task_Get k w) as [[t|e] w1]; cbn in Hp; subst w1; [|by intros [= <- <-]].
  specialize (Hg t eq_refl). destruct (charge _ _ _ _) as [[[u ex] t']|e] eqn:Ec; [|intros [= <- <-]; eauto].
  destruct (updateTaskStatus t' w) as [[[]|e] w2] eqn:Eu; intros [= <- <-]; apply updateTaskStatus_spec in Eu; [|done].
  pose proof (charge_Ok _ _ _ _ _ _ _ Ec) as (_ & _ & Hk & _). rewrite Hk, (task_stored_key _ _ _ Hg) in Eu.
  destruct Eu as (cur & v & H1 & H2). assert (cur = t) as -> by congruence. eauto 10.
Qed.
Lemma suspend_attempt_spec k w r w' : suspend_attempt k w = (r, w') ->
  match r with
  | Ok _ => forall t, task_stored w' !! k = Some t -> sp_Suspended (tk_Spec t) = true
  | Err _ => task_stored w' = task_stored w
  end.
Proof.
  unfold suspend_attempt. pose proof (task_Get_pure k w) as Hp. pose proof (task_Get_Ok k w) as Hg.
  destruct (task_Get k w) as [[t|e] w1]; cbn in Hp; subst w1; [|by intros [= <- <-]].
  specialize (Hg t eq_refl). destruct (task_Update _ w) as [[t'|e] w2] eqn:Eu; intros [= <- <-].
  - apply task_Update_Ok in Eu as (cur & g & v & H1 & _ & -> & ->). intros t0. unfold store_updated.
    assert (key_of (updated cur (with_Spec (set_Suspended true) t) g v) = k) as ->.
    { pose proof (task_stored_key _ _ _ H1) as Hk. pose proof (task_stored_key _ _ _ Hg) as Hk'. unfold key_of in *.
      cbn in *. congruence. }
    destruct (_ && _); [by rewrite lookup_delete_eq|]. rewrite lookup_insert_eq. by intros [= <-].
  - by apply task_Update_Err in Eu.
Qed.

Context {RT : Retry T} {S : Type} {TS : TokenStore S}.
Context (checker : option (gostring -> gostring -> S -> sres bool * S)).

Lemma meter_run_spec req pr claims k w r w' :
  RetryOnConflict meter_conflict (meter_attempt req pr claims k) w = (r, w') ->
  match r with
  | Ok (u, ex) => exists t t' v, task_stored w !! k = Some t /\ charge req pr claims t = Ok (u, ex, t') /\
      task_stored w' = <[k := with_Version v (with_Status (fun _ => tk_Status t') t)]> (task_stored w)
  | Err (Charge e) => task_stored w' = task_stored w /\
      exists t, task_stored w !! k = Some t /\ charge req pr claims t = Err e
  | Err _ => task_stored w' = task_stored w
  end.
Proof.
  intros H%Retry_attempts. apply attempts_last_run with (P := fun v => task_stored v = task_stored w) in H; [|done|].
  - destruct H as (v & Hv & Hf%meter_attempt_spec). by rewrite Hv in Hf.
  - intros v e v' Hv Hf%meter_attempt_spec. destruct e as [|e|]; [|destruct Hf as [Hf _]|]; congruence.
Qed.
Lemma suspend_run_spec k w r w' : RetryOnConflict (fun e => bool_decide (e = Conflict)) (suspend_attempt k) w = (r, w') ->
  match r with
  | Ok _ => forall t, task_stored w' !! k = Some t -> sp_Suspended (tk_Spec t) = true
  | Err _ => task_stored w' = task_stored w
  end.
Proof.
  intros H%Retry_attempts. apply attempts_last_run with (P := fun v => task_stored v = task_stored w) in H; [|done|].
  - destruct H as (v & Hv & Hf%suspend_attempt_spec). by rewrite Hv in Hf.
  - intros v e v' Hv Hf%suspend_attempt_spec. congruence.
Qed.

(** What a response of [meter_task] says of the task. *)
Lemma meter_task_allowed ws req pr claims ns w s r w' s' :
  meter_task checker ws req pr claims ns (w, s) = (r, (w', s')) -> rs_Allowed r = true ->
  let k := (ns, TaskID claims) in
  fst (checkTokenRevoked checker ws (TaskID claims) ns s) = Ok false /\
  exists t u v, rs_Usage r = Some u /\ task_stored w !! k = Some t /\ inactive t = false /\
    within_limits (tk_Spec t) claims u /\ us_Tokens u = st_TokensConsumed (charged req pr (tk_Status t)) /\
    task_stored w' = <[k := with_Version v (with_Status (charged req pr) t)]> (task_stored w).
Proof.
  cbn. destruct (checkTokenRevoked _ _ _ _ _) as [[[]|e] s1]; try (by intros [= <- _ _]).
  destruct (RetryOnConflict meter_conflict _ w) as [[[u [e|]]|e] t1] eqn:Er; try (intros [= <- _ _]; by destruct e as [[]|[]|[]]).
  - destruct (RetryOnConflict _ _ t1) as [[|] t2]; by intros [= <- _ _].
  - intros [= <- <- <-] _. split; [done|]. apply meter_run_spec in Er as (t & t' & v & Hg & Hc & Hw).
    apply charge_Ok in Hc as (Hi & _ & _ & _ & _ & Ht & _ & Hl & Hs). rewrite Hs in Hw. exists t, u, v. eauto 10.
Qed.
Lemma meter_task_suspended ws req pr claims ns w s r w' s' :
  meter_task checker ws req pr claims ns (w, s) = (r, (w', s')) -> rs_Suspended r = true ->
  (forall t, task_stored w' !! (ns, TaskID claims) = Some t -> inactive t = true) /\
  (task_stored w' = task_stored w \/
   (ws = true -> exists s1, s' = snd (RevokeToken (TaskID claims) ns s1))).
Proof.
  cbn. destruct (checkTokenRevoked _ _ _ _ _) as [[[]|e] s1]; try (by intros [= <- _ _]).
  destruct (RetryOnConflict meter_conflict _ w) as [[[u [e|]]|e] t1] eqn:Er; apply meter_run_spec in Er.
  - destruct (RetryOnConflict _ _ t1) as [[[]|] t2] eqn:Es; [|by intros [= <- _ _]]. apply suspend_run_spec in Es.
    intros [= _ <- <-] _. split; [intros t Ht; unfold inactive; by rewrite (Es _ Ht)|]. right. intros ->. eauto.
  - by intros [= <- _ _].
  - destruct e as [e|[u msg|]|e]; try (intros [= <- _ _]; by destruct e). 2:{ by intros [= <- _ _]. }
    destruct Er as [Hw (t & Ht & Hc)]. intros [= _ <- <-] _. split; [|by left]. intros t0. rewrite Hw, Ht. intros [= <-].
    unfold charge in Hc. destruct (inactive t) eqn:Ei; [done|]. destruct (_ <? _); [done|]. done.
Qed.
End Handler.

(** ** From the HTTP request *)
Section Serve.
Context {U : GoUnicode} {N : GoNetip} {T : Type} {C : TaskClient T} {L : TaskClientLaws T} {RT : Retry T}
  {S : Type} {TS : TokenStore S} (checker : option (gostring -> gostring -> S -> sres bool * S)).

(** A model outside the token's list is metered only by a report of nothing
    but a pull request. *)
Lemma validate_meter_models claims body req pr : validate_meter claims body = Ok (req, pr) ->
  AllowedModels claims = [] \/ model_allowed claims (rq_Model req) = true \/ rq_TokensUsed req = 0.
Proof.
  unfold validate_meter. destruct (decode_request body) as [r|]; [|done].
  destruct (_ || _ || _ || _); [done|]. destruct (_ && negb (valid_pr_url _)); [done|].
  destruct (bool_decide (AllowedModels claims = [])) eqn:Em; [apply bool_decide_eq_true in Em; by left|].
  cbn [negb andb]. destruct (_ && (rq_TokensUsed r =? 0) && _ && _) eqn:Ez; cbn [negb].
  - intros [= <- <-]. do 2 right. repeat (apply andb_true_iff in Ez as [Ez ?]). lia.
  - clear Ez. destruct (str_eqb (TrimSpace (rq_Model r)) []); [done|]. destruct (model_allowed _ _) eqn:Ema; [|done]. intros [= <- <-]. right. by left.
Qed.

Lemma validate_meter_refusal claims body r : validate_meter claims body = Err r ->
  rs_Allowed r = false /\ rs_Suspended r = false.
Proof.
  unfold validate_meter. destruct (decode_request body) as [req|]; [|by intros [= <-]].
  repeat match goal with |- context [if ?b then _ else _] => destruct b end; try done; by intros [= <-].
Qed.

(** Where a metering request ends: refused before the task is read, or at
    [meter_task] with a verified token and a valid request. *)
Lemma ServeHTTP_cases verifier ws wc now method authorization body w s r w' s' :
  ServeHTTP checker verifier ws wc now method authorization body (w, s) = (r, (w', s')) ->
  (rs_Allowed r = false /\ rs_Suspended r = false /\ w' = w) \/
  exists key raw mac claims req pr s1, verifier = Some key /\
    decodeMeterMacaroonToken (extractMeterBearerToken authorization) = Some raw /\
    VerifyAndExtract key now raw = Ok (mac, claims) /\ Namespace claims <> [] /\
    validate_meter claims body = Ok (req, pr) /\
    meter_task checker ws req pr claims (Namespace claims) (w, s1) = (r, (w', s')).
Proof.
  unfold ServeHTTP. destruct (negb _); [intros [= <- <- <-]; by left|].
  destruct (str_eqb _ []); [intros [= <- <- <-]; by left|].
  destruct (decodeMeterMacaroonToken _) as [raw|] eqn:Ed; [|intros [= <- <- <-]; by left].
  destruct verifier as [key|]; [|intros [= <- <- <-]; by left].
  destruct (VerifyAndExtract key now raw) as [[mac claims]|e] eqn:Ev; [|intros [= <- <- <-]; by left].
  destruct (VerifyAndExtract_facts _ _ _ _ _ Ev) as (_ & _ & _ & _ & _ & _ & _ & Hns & _).
  assert (str_eqb (Namespace claims) [] = false) as -> by (by apply bool_decide_eq_false_2). cbn [fst snd].
  destruct (checkTokenRevoked _ _ _ _ _) as [[[]|e] s1]; try (intros [= <- <- <-]; by left).
  destruct (validate_meter claims body) as [[req pr]|r'] eqn:Eb.
  - destruct wc; cbn [negb]; [|intros [= <- <- <-]; by left]. intros H. right.
    exists key, raw, mac, claims, req, pr, s1. repeat (split; [done|]). done.
  - intros [= <- <- <-]. left. destruct (validate_meter_refusal _ _ _ Eb). done.
Qed.
End Serve.


(** a reply "suspended" is true: the task named by the token is then
    suspended or stopped, so that no further usage is allowed until it is
    resumed; and unless it was stopped before, its token was revoked. *)
Theorem meter_suspends {U : GoUnicode} {N : GoNetip} {T} {C : TaskClient T} {L : TaskClientLaws T} {RT : Retry T}
    {S} {TS : TokenStore S} {TL : TokenStoreLaws S} checker verifier wc now method authorization body w s r w' s' :
  ServeHTTP checker verifier true wc now method authorization body (w, s) = (r, (w', s')) -> rs_Suspended r = true ->
  exists key raw mac claims, verifier = Some key /\ VerifyAndExtract key now raw = Ok (mac, claims) /\
    (forall t, task_stored w' !! (Namespace claims, TaskID claims) = Some t ->
       inactive t = true /\ forall req pr cl, exists e, charge req pr cl t = Err e) /\
    (task_stored w' = task_stored w \/
     exists s1, s' = snd (RevokeToken (TaskID claims) (Namespace claims) s1) /\
       (fst (RevokeToken (TaskID claims) (Namespace claims) s1) = Ok tt ->
        forall raw', fst (GetToken (TaskID claims) (Namespace claims) s') <> Ok raw')).
Proof.
  intros [(_ & H & _)|(key & raw & mac & claims & req & pr & s1 & -> & Hd & Hv & Hns & Hb & Hm)]%ServeHTTP_cases Ha; [congruence|].
  destruct (meter_task_suspended _ _ _ _ _ _ _ _ _ _ _ Hm Ha) as [H1 H2].
  exists key, raw, mac, claims. repeat (split; [done|]). split.
  - intros t Ht. apply H1 in Ht. split; [done|]. intros req' pr' cl. unfold charge. rewrite Ht. eauto.
  - destruct H2 as [?|H2]; [by left|]. right. destruct (H2 eq_refl) as (s2 & ->). exists s2. split; [done|].
    destruct (RevokeToken _ _ s2) as [[[]|e] s3] eqn:Er; [|done]. intros _ raw'. cbn.
    destruct (revoke_get _ _ _ _ Er) as [-> | ->]; done.
Qed.

(** ** Instances *)
#[local] Existing Instance ascii_unicode.
#[local] Existing Instance no_ipv6.
#[local] Existing Instance default_retry.

Definition demo_spec (usd : gostring) (tokens : Z) : AgentTaskSpec :=
  mkTaskSpec #"fix it" #"https://github.com/acme/shop" #"main" [] #"pod" [] [] 3600 usd tokens 5 [] true false.
Definition demo_status (phase cost : gostring) (tokens : Z) : AgentTaskStatus :=
  mkTaskStatus phase [] #"pod-1" #"10.0.0.9" 0 [] cost tokens [] [] [] 0.
Definition demo_task (usd : gostring) (budget : Z) (cost : gostring) (tokens : Z) : AgentTask :=
  mkTask #"task-1" #"default" #"uid" ∅ ∅ [] (mkTime 0 0) None 1 3 (demo_spec usd budget)
    (demo_status AgentTaskPhaseActive cost tokens).
Definition open_claims : Claims := mkClaims #"task-1" #"default" [] [] [] [] f_zero 0 0 time_zero.
Definition demo_usage (id : gostring) (tokens : Z) (cost : gostring) : LLMMeterRequest :=
  mkMeterRequest id 1 #"gpt" tokens (default f_zero (ParseFloat cost)) [].

(** A model call for $0.00004. *)
Definition small_request : LLMMeterRequest := mkMeterRequest [] 0 #"gpt" 0 (default f_zero (ParseFloat #"0.00004")) [].

(** costs below half of the fourth decimal are never counted: any number
    of requests of $0.00004 each is allowed to a task with a budget of
    $0.0001, and its recorded cost stays at zero. *)
Theorem small_costs_lost (n : nat) :
  exists t, charges (fun req => req = small_request) open_claims (demo_task #"0.0001" 0 #"0.0000" 0) n t /\
    f_lt f_zero (rq_CostUSD small_request) = true /\ st_CostUSD (tk_Status t) = #"0.0000".
Proof.
  exists (demo_task #"0.0001" 0 #"0.0000" 0). split; [|split; vm_compute; reflexivity].
  induction n as [|n IH]; [constructor|]. eapply (charges_more _ _ _ _ _ small_request []); [exact IH|done|].
  vm_compute. reflexivity.
Qed.

Lemma charge_tokens_exact_witness :
  match charge (demo_usage #"r1" 5 #"0.5") [] open_claims (demo_task [] 1000 #"0.2500" 7) with
  | Ok (u, _, t') => us_Tokens u = 12
  | Err _ => False
  end.
Proof.
  pose proof (charge_tokens_exact (demo_usage #"r1" 5 #"0.5") [] open_claims (demo_task [] 1000 #"0.2500" 7)) as H.
  unfold valid_request, count_range in H. cbn [demo_usage demo_task demo_status tk_Status rq_TokensUsed st_TokensConsumed] in H.
  specialize (H ltac:(by vm_compute) ltac:(by vm_compute) eq_refl).
  destruct (charge _ _ _ _) as [[[u ex] t']|e]; [|destruct H as [_ H]; vm_compute in H; discriminate].
  destruct H as (_ & _ & H). rewrite H. reflexivity.
Defined.

(** The first charge and its repetition. *)
Definition after_charge (t : AgentTask) (req : LLMMeterRequest) : AgentTask :=
  match charge req [] open_claims t with Ok (_, _, t') => t' | Err _ => t end.
Definition usage_after (t : AgentTask) (req : LLMMeterRequest) : usage :=
  match charge req [] open_claims t with Ok (u, _, _) => u | Err _ => usage_of t f_zero 0 end.

Definition demo_first : LLMMeterRequest := demo_usage #"r1" 5 #"0.5".
Definition demo_before : AgentTask := demo_task [] 1000 #"0.2500" 7.
Definition demo_after : AgentTask := after_charge demo_before demo_first.

Lemma charge_once_witness :
  st_TokensConsumed (tk_Status demo_after) = 12 /\
  st_TokensConsumed (tk_Status (after_charge demo_after demo_first)) = st_TokensConsumed (tk_Status demo_after).
Proof.
  split; [vm_compute; reflexivity|].
  apply (charge_once open_claims demo_before demo_first [] (usage_after demo_before demo_first) demo_after 0 demo_after []
    (usage_after demo_after demo_first) None).
  - discriminate.
  - vm_compute. reflexivity.
  - vm_compute. reflexivity.
  - constructor.
  - lia.
  - vm_compute. reflexivity.
Defined.

(** A request over HTTP, with the token of the macaroon examples. *)
Definition json_text (s : gostring) : gostring := map (fun c => if decide (c = "'"%char) then quote else c) s.
Definition demo_tasks (budget : Z) : TaskServer.t :=
  TaskServer.mk {[(#"default", #"task-1") := demo_task [] budget #"0.2500" 7]} 3.
Definition demo_first' : LLMMeterRequest := mkMeterRequest #"r1" 0 #"claude-3" 5 (f_of_ratio false 1 2) [].

(** The reply to a request by that token. *)
Definition demo_body : gostring := json_text #"{'requestId':'r1','model':'claude-3','tokensUsed':5,'costUSD':0.5}".
Definition demo_reply (budget : Z) : LLMMeterResponse * (TaskServer.t * Memory.t) :=
  meter_task None true demo_first' [] demo_extracted #"default" (demo_tasks budget, demo_state).

Lemma bearer_Serialize m : decodeMeterMacaroonToken (extractMeterBearerToken (#"Bearer " ++ Serialize m)) = Some (Serialize m).
Proof.
  destruct (Serialize_braces m) as [s Hs]. unfold extractMeterBearerToken.
  change (Cut (#"Bearer " ++ Serialize m) " "%char) with (Some (#"Bearer", Serialize m)). cbn [fst snd].
  replace (EqualFold #"Bearer" #"bearer") with true by (vm_compute; reflexivity).
  unfold decodeMeterMacaroonToken. by rewrite Hs, !TrimSpace_braces.
Qed.
Lemma demo_validates : validate_meter demo_extracted demo_body = Ok (demo_first', []).
Proof. vm_compute. reflexivity. Qed.
Lemma demo_bearer : decodeMeterMacaroonToken (extractMeterBearerToken (#"Bearer " ++ demo_raw)) = Some demo_raw.
Proof. apply bearer_Serialize. Qed.
Lemma demo_serves budget :
  ServeHTTP None (Some (Some demo_key)) true true 1000 #"POST" (#"Bearer " ++ demo_raw) demo_body (demo_tasks budget, demo_state) =
  ((demo_reply budget).1, ((demo_reply budget).2.1, (demo_reply budget).2.2)).
Proof.
  assert (forall x : LLMMeterResponse * (TaskServer.t * Memory.t), (x.1, (x.2.1, x.2.2)) = x) as -> by (by intros [? [? ?]]).
  unfold ServeHTTP. rewrite demo_bearer.
  assert (str_eqb (extractMeterBearerToken (#"Bearer " ++ demo_raw)) [] = false) as ->.
  { apply bool_decide_eq_false_2. intros E. pose proof demo_bearer as H. rewrite E in H. discriminate. }
  change (negb (str_eqb #"POST" #"POST")) with false. cbv iota. rewrite demo_extracts, demo_validates.
  assert (Memory.is_revoked #"task-1" #"default" demo_state = false) as Hr by (vm_compute; reflexivity).
  change (TaskID demo_extracted) with #"task-1".
  change (if str_eqb (Namespace demo_extracted) [] then #"default" else Namespace demo_extracted) with #"default".
  cbn [checkTokenRevoked IsRevoked Memory.store snd fst negb]. rewrite Hr. reflexivity.
Qed.
Lemma demo_allowed : rs_Allowed (demo_reply 1000).1 = true.
Proof. vm_compute. reflexivity. Qed.
Lemma demo_suspended : rs_Suspended (demo_reply 10).1 = true.
Proof. vm_compute. reflexivity. Qed.

Lemma meter_suspends_witness :
  rs_Suspended (demo_reply 10).1 = true /\
  exists claims : Claims, forall t, task_stored (demo_reply 10).2.1 !! (Namespace claims, TaskID claims) = Some t -> inactive t = true.
Proof.
  split; [exact demo_suspended|].
  destruct (meter_suspends _ _ _ _ _ _ _ _ _ _ _ _ (demo_serves 10) demo_suspended)
    as (key & raw & mac & claims & _ & _ & H & _).
  exists claims. intros t Ht. exact (proj1 (H t Ht)).
Defined.
