(* ===== verification/TunnelLease.v ===== *)
(** * Tunnel leases: [internal/server/tunnel_lease.go]

    Ownership of a tunnel across replicas is a Kubernetes Lease.  Each
    operation is a few API calls, and other replicas act between them: an
    operation is a machine whose steps are its calls, and a system of
    replicas interleaves the machines with any other activity on the API
    server. *)

From S2P Require Import Prelude GoStrings KubeApi.
Local Open Scope Z_scope.

Definition tunnelLeaseName (previewID : gostring) : gostring := #"diverge-tunnel-lease-" ++ previewID.
Definition lease_key (ns previewID : gostring) : key := (KLease, ns, tunnelLeaseName previewID).
(** [fmt.Sprintf("%s:%s", tl.podName, tunnelID)] *)
Definition holder_identity (podName tunnelID : gostring) : gostring := podName ++ #":" ++ tunnelID.
Definition leaseDuration : Z := 60.

Definition tunnel_labels (previewID : gostring) : gmap gostring gostring :=
  <[ #"divergedev.com/tunnel" := #"true"]> {[ #"divergedev.com/preview-id" := previewID]}.

(** [Spec.HolderIdentity] *)
Definition holder_of (o : Obj) : option gostring :=
  match o_spec o with LeaseSpec h _ _ _ _ => h | _ => None end.

(** The lease of [existing] taken over by [holder]. *)
Definition steal (holder : gostring) (now : Z) (existing : Obj) : Obj :=
  mkObj (o_labels existing) (o_annotations existing)
    (LeaseSpec (Some holder) (Some leaseDuration) (Some now) (Some now)
       (match o_spec existing with LeaseSpec _ _ _ _ t => t | _ => None end)) (o_version existing).
(** [existing] renewed. *)
Definition renewed (now : Z) (existing : Obj) : Obj :=
  mkObj (o_labels existing) (o_annotations existing)
    (match o_spec existing with LeaseSpec h d a _ t => LeaseSpec h d a (Some now) t | s => s end) (o_version existing).
Definition new_lease (previewID holder : gostring) (now : Z) : Obj :=
  mkObj (tunnel_labels previewID) ∅ (LeaseSpec (Some holder) (Some leaseDuration) (Some now) (Some now) (Some 0)) 0.

Inductive lease_op :=
| AcquireGet (ns previewID holder : gostring)
| AcquireUpdate (k : key) (holder previous : gostring) (o : Obj)
| AcquireCreate (k : key) (o : Obj)
| Acquired (r : result api_error gostring)
| RenewGet (ns previewID holder : gostring)
| RenewUpdate (k : key) (holder : gostring) (o : Obj)
| RenewDone (held : bool)
| ReleaseGet (ns previewID holder : gostring)
| ReleaseDelete (k : key) (holder : gostring)
| Released.

Section Lease.
Context {W : Type} {K : KubeClient W}.

(** One API call of an operation, at time [now]. *)
Definition lease_step (now : Z) (op : lease_op) (w : W) : lease_op * W :=
  match op with
  | AcquireGet ns p holder =>
      let k := lease_key ns p in
      match api_Get k w with
      | (Ok existing, w) =>
          (AcquireUpdate k holder (default [] (holder_of existing)) (steal holder now existing), w)
      | (Err _, w) => (AcquireCreate k (new_lease p holder now), w)
      end
  | AcquireUpdate k _ previous o =>
      match api_Update k o w with
      | (Ok _, w) => (Acquired (Ok previous), w)
      | (Err e, w) => (Acquired (Err e), w)
      end
  | AcquireCreate k o =>
      match api_Create k o w with
      | (Ok _, w) => (Acquired (Ok []), w)
      | (Err e, w) => (Acquired (Err e), w)
      end
  | RenewGet ns p holder =>
      let k := lease_key ns p in
      match api_Get k w with
      | (Err _, w) => (RenewDone false, w)
      | (Ok existing, w) =>
          if decide (holder_of existing = Some holder) then (RenewUpdate k holder (renewed now existing), w)
          else (RenewDone false, w)
      end
  | RenewUpdate k _ o =>
      match api_Update k o w with
      | (Ok _, w) => (RenewDone true, w)
      | (Err _, w) => (RenewDone false, w)
      end
  | ReleaseGet ns p holder =>
      let k := lease_key ns p in
      match api_Get k w with
      | (Err _, w) => (Released, w)
      | (Ok existing, w) =>
          if decide (holder_of existing = Some holder) then (ReleaseDelete k holder, w) else (Released, w)
      end
  | ReleaseDelete k _ => (Released, snd (api_Delete k w))
  | Acquired _ | RenewDone _ | Released => (op, w)
  end.

(** An operation without interruption: at most two calls. *)
Definition lease_run (now : Z) (op : lease_op) (w : W) : lease_op * W :=
  let '(op, w) := lease_step now op w in lease_step now op w.
Definition Acquire (now : Z) (podName ns previewID tunnelID : gostring) (w : W) : result api_error gostring * W :=
  match lease_run now (AcquireGet ns previewID (holder_identity podName tunnelID)) w with
  | (Acquired r, w) => (r, w)
  | (_, w) => (Err OtherError, w)
  end.
Definition Renew (now : Z) (podName ns previewID tunnelID : gostring) (w : W) : bool * W :=
  match lease_run now (RenewGet ns previewID (holder_identity podName tunnelID)) w with
  | (RenewDone held, w) => (held, w)
  | (_, w) => (false, w)
  end.
Definition Release (now : Z) (podName ns previewID tunnelID : gostring) (w : W) : W :=
  snd (lease_run now (ReleaseGet ns previewID (holder_identity podName tunnelID)) w).
End Lease.

(** ** Replicas *)
Section System.
Context {W : Type} {K : KubeClient W} {L : KubeClientLaws W}.

(** The operations in progress, by replica and call. *)
Record system := mkSystem { ops : gmap nat lease_op; world : W }.

Definition starts (op : lease_op) : Prop :=
  match op with AcquireGet _ _ _ | RenewGet _ _ _ | ReleaseGet _ _ _ => True | _ => False end.

Inductive sys_step : system -> system -> Prop :=
| sys_start i op s : starts op -> sys_step s (mkSystem (<[i := op]> (ops s)) (world s))
| sys_call i op op' now s w' : ops s !! i = Some op -> lease_step now op (world s) = (op', w') ->
    sys_step s (mkSystem (<[i := op']> (ops s)) w')
| sys_other s w' : evolves (world s) w' -> sys_step s (mkSystem (ops s) w').

(** * Fencing *)
Definition holds (w : W) (k : key) (holder : gostring) : Prop :=
  exists o, stored w !! k = Some o /\ holder_of o = Some holder.

(** What an operation in progress knows: if the object it read is still the
    current one, so is the holder it saw. *)
Definition known_version (w : W) (k : key) (o : Obj) (P : Obj -> Prop) : Prop :=
  o_version o <= revision w /\
  forall cur, stored w !! k = Some cur -> o_version o = o_version cur -> P cur.
Definition op_ok (w : W) (op : lease_op) : Prop :=
  match op with
  | AcquireUpdate k holder previous o =>
      holder_of o = Some holder /\ known_version w k o (fun cur => default [] (holder_of cur) = previous)
  | RenewUpdate k holder o =>
      holder_of o = Some holder /\ known_version w k o (fun cur => holder_of cur = Some holder)
  | _ => True
  end.

Lemma known_evolves w w' k o P : evolves w w' -> known_version w k o P -> known_version w' k o P.
Proof.
  intros [Hr He] [Hv Hk]. split; [lia|]. intros cur [Hc|Hc]%He Hver; [by apply Hk|lia].
Qed.
Lemma op_ok_evolves w w' op : evolves w w' -> op_ok w op -> op_ok w' op.
Proof. destruct op; cbn; intros He; try done; intros [? ?]; (split; [done|]); by eapply known_evolves. Qed.

Lemma known_read w k o o' P : fst (api_Get k w) = Ok o -> o_version o' = o_version o -> P o -> known_version w k o' P.
Proof.
  intros Hg%Get_Ok Hv HP. unfold known_version. rewrite Hv. split; [by eapply version_bound|]. intros cur Hc _. congruence.
Qed.

Lemma lease_step_evolves now op w op' w' : lease_step now op w = (op', w') -> evolves w w'.
Proof.
  destruct op; cbn [lease_step]; intros H.
  - pose proof (Get_evolves (lease_key ns previewID) w) as He.
    destruct (api_Get _ w) as [[]]; injection H as _ <-; exact He.
  - destruct (api_Update k o w) as [[] w1] eqn:E; injection H as _ <-; by eapply Update_evolves.
  - destruct (api_Create k o w) as [[] w1] eqn:E; injection H as _ <-; by eapply Create_evolves.
  - injection H as _ <-. apply evolves_refl.
  - pose proof (Get_evolves (lease_key ns previewID) w) as He.
    destruct (api_Get _ w) as [[]]; [case_decide|]; injection H as _ <-; exact He.
  - destruct (api_Update k o w) as [[] w1] eqn:E; injection H as _ <-; by eapply Update_evolves.
  - injection H as _ <-. apply evolves_refl.
  - pose proof (Get_evolves (lease_key ns previewID) w) as He.
    destruct (api_Get _ w) as [[]]; [case_decide|]; injection H as _ <-; exact He.
  - injection H as _ <-. destruct (api_Delete k w) as [r w1] eqn:E. by eapply Delete_evolves.
  - injection H as _ <-. apply evolves_refl.
Qed.

Lemma lease_step_ok now op w op' w' : lease_step now op w = (op', w') -> op_ok w op -> op_ok w' op'.
Proof.
  intros H Hop. pose proof (lease_step_evolves _ _ _ _ _ H) as He. revert H.
  destruct op; cbn [lease_step]; try (repeat case_match; by intros [= <- <-]).
  - destruct (api_Get _ w) as [[o|e] w1] eqn:E; intros [= <- <-]; [|done]. cbn. split; [done|].
    eapply known_evolves; [exact He|]. apply (known_read _ _ o); [by rewrite E|done|done].
  - destruct (api_Get _ w) as [[o|e] w1] eqn:E; [|by intros [= <- <-]]. case_decide as Hh; intros [= <- <-]; [|done].
    cbn. split; [|eapply known_evolves; [exact He|]; apply (known_read _ _ o); [by rewrite E|done|done]].
    revert Hh. unfold holder_of, renewed. cbn. by destruct (o_spec o).
Qed.

Definition sys_ok (s : system) : Prop := forall i op, ops s !! i = Some op -> op_ok (world s) op.
Lemma sys_step_ok s s' : sys_step s s' -> sys_ok s -> sys_ok s'.
Proof.
  intros [i op s1 Hs|i op op' now s1 w' Hi H|s1 w' He] Hok j o'; cbn.
  - rewrite lookup_insert. case_decide as E; [|apply Hok]. intros [= <-]. by destruct op.
  - rewrite lookup_insert. case_decide as E.
    + intros [= <-]. eapply lease_step_ok; [done|]. by eapply Hok.
    + intros Hj. eapply op_ok_evolves; [by eapply lease_step_evolves|]. by eapply Hok.
  - intros Hj. eapply op_ok_evolves; [done|]. by eapply Hok.
Qed.
Lemma sys_reach_ok s s' : rtc sys_step s s' -> sys_ok s -> sys_ok s'.
Proof. induction 1; [done|]. intros ?. by apply IHrtc, (sys_step_ok x). Qed.

Lemma admitted_holder o o' : admitted o o' -> is_Some (holder_of o) -> holder_of o' = holder_of o.
Proof.
  intros (_ & _ & H) [h Hh]. unfold holder_of in *. destruct (o_spec o); try done.
  cbn in H. destruct (o_spec o'); try done. by injection H as <-.
Qed.
Lemma Update_holds k o holder w w' : api_Update k o w = (Ok tt, w') -> holder_of o = Some holder -> holds w' k holder.
Proof.
  intros (cur & o' & _ & _ & Ha & _ & _ & E)%Update_Ok Hh. exists o'. rewrite E, lookup_insert_eq.
  split; [done|]. rewrite (admitted_holder o); [done|done|by rewrite Hh].
Qed.

(** What a successful end of an operation tells about the server. *)
Definition fenced (op : lease_op) (w : W) (op' : lease_op) (w' : W) : Prop :=
  match op, op' with
  | RenewUpdate k holder _, RenewDone true => holds w k holder /\ holds w' k holder
  | AcquireUpdate k holder _ _, Acquired (Ok previous) =>
      holds w' k holder /\ exists cur, stored w !! k = Some cur /\ default [] (holder_of cur) = previous
  | AcquireCreate k o, Acquired (Ok previous) =>
      stored w !! k = None /\ previous = [] /\ forall h, holder_of o = Some h -> holds w' k h
  | _, _ => True
  end.

Lemma fenced_step now op w op' w' : op_ok w op -> lease_step now op w = (op', w') -> fenced op w op' w'.
Proof.
  intros Hop. destruct op; cbn [lease_step]; try done.
  - destruct (api_Update k o w) as [[[]|e] w1] eqn:E; intros [= <- <-]; [|done].
    destruct Hop as [Hh [_ Hk]]. split; [by eapply Update_holds|].
    destruct (Update_Ok _ _ _ _ E) as (cur & o' & Hc & Hv & _). exists cur. split; [done|]. by apply Hk.
  - destruct (api_Create k o w) as [[[]|e] w1] eqn:E; intros [= <- <-]; [|done].
    destruct (Create_Ok _ _ _ _ E) as (o' & Hn & Ha & _ & Hs). split; [done|]. split; [done|].
    intros h Hh. exists o'. rewrite Hs, lookup_insert_eq. split; [done|].
    rewrite (admitted_holder o); [done|done|by rewrite Hh].
  - destruct (api_Update k o w) as [[[]|e] w1] eqn:E; intros [= <- <-]; [|done].
    destruct Hop as [Hh [_ Hk]]. split; [|by eapply Update_holds].
    destruct (Update_Ok _ _ _ _ E) as (cur & o' & Hc & Hv & _). exists cur. split; [done|]. by apply Hk.
Qed.

End System.
Arguments system : clear implicits.
Arguments mkSystem {W}.

(** ** Examples *)
Definition empty_cluster : Cluster.t := Cluster.mk ∅ 0.
Definition demo_key : key := lease_key #"shop" #"pr-1".

(** The operations of the replicas performed by a list of turns: who starts
    what, and who makes a call when. *)
Inductive turn := Start (i : nat) (op : lease_op) | Call (i : nat) (now : Z).
Definition take_turn (s : system Cluster.t) (t : turn) : system Cluster.t :=
  match t with
  | Start i op => match op with
                  | AcquireGet _ _ _ | RenewGet _ _ _ | ReleaseGet _ _ _ => mkSystem (<[i := op]> (ops s)) (world s)
                  | _ => s
                  end
  | Call i now => match ops s !! i with
                  | Some op => let '(op', w') := lease_step now op (world s) in mkSystem (<[i := op']> (ops s)) w'
                  | None => s
                  end
  end.
Definition play (ts : list turn) : system Cluster.t := fold_left take_turn ts (mkSystem ∅ empty_cluster).
Lemma take_turn_steps s t : rtc sys_step s (take_turn s t).
Proof.
  destruct t as [i op|i now]; cbn.
  - destruct op; (try apply rtc_refl); apply rtc_once; by constructor.
  - destruct (ops s !! i) as [op|] eqn:E; [|apply rtc_refl]. destruct (lease_step now op (world s)) as [op' w'] eqn:Es.
    apply rtc_once. by eapply sys_call.
Qed.
Lemma play_steps ts : rtc sys_step (mkSystem ∅ empty_cluster) (play ts).
Proof.
  unfold play. generalize (@mkSystem Cluster.t ∅ empty_cluster).
  induction ts as [|t ts IH]; intros s; cbn; [apply rtc_refl|]. etrans; [apply take_turn_steps|apply IH].
Qed.

Definition holder_a : gostring := holder_identity #"pod-a" #"t1".
Definition holder_b : gostring := holder_identity #"pod-b" #"t2".
Definition held_by (w : Cluster.t) : option gostring := Cluster.objects w !! demo_key ≫= holder_of.

Definition demo_renew : list turn :=
  [Start 0 (AcquireGet #"shop" #"pr-1" holder_a); Call 0 1; Call 0 1;
   Start 0 (RenewGet #"shop" #"pr-1" holder_a); Call 0 2].

(** Replica A releases while B acquires between its two calls. *)
Definition race_before : list turn :=
  [Start 0 (AcquireGet #"shop" #"pr-1" holder_a); Call 0 1; Call 0 1;
   Start 0 (ReleaseGet #"shop" #"pr-1" holder_a); Call 0 2;
   Start 1 (AcquireGet #"shop" #"pr-1" holder_b); Call 1 3; Call 1 3].

(** a release can delete a lease that another replica has just acquired:
    the delete is not conditional on the version that was checked. *)
Theorem release_deletes_stolen_lease :
  rtc sys_step (mkSystem ∅ empty_cluster) (play race_before) /\
  ops (play race_before) !! 1%nat = Some (Acquired (Ok holder_a)) /\
  held_by (world (play race_before)) = Some holder_b /\
  rtc sys_step (play race_before) (play (race_before ++ [Call 0 4])) /\
  held_by (world (play (race_before ++ [Call 0 4]))) = None.
Proof.
  split; [apply play_steps|]. split; [vm_compute; reflexivity|]. split; [vm_compute; reflexivity|].
  split; [|vm_compute; reflexivity]. unfold play. rewrite fold_left_app. apply take_turn_steps.
Qed.
