(* ===== verification/Tunnel.v ===== *)
(** * Tunnels: [internal/server/tunnel.go]

    A developer's machine serves a preview through a tunnel: registration
    (validation, authorization, ownership, lease, Kubernetes objects, local
    table), the heartbeat, the cleanup, the lookup of a tunnel and the proxy
    that forwards requests to it.  The exchange of messages on an open tunnel
    is in [TunnelStream]. *)

From S2P Require Import Prelude GoStrings AuthProvider Authz KubeApi TunnelLease AuthFacts.
Local Open Scope Z_scope.

Definition TunnelProxyPort : Z := 8081.
(** Durations in nanoseconds. *)
Definition second : Z := 1000000000.
Definition tunnelHeartbeatTimeout : Z := 45 * second.

(** The fields of [pb.TunnelRegister]. *)
Record TunnelRegister := mkRegister {
  PreviewId : gostring; reg_Namespace : gostring; Service : gostring; Port : Z }.

(** An active tunnel; two are the same pointer when they have the same
    [tun_tunnelID], a fresh UUID. *)
Record activeTunnel := mkActive {
  tun_tunnelID : gostring; tun_previewID : gostring; tun_service : gostring; tun_namespace : gostring; tun_port : Z }.
#[global] Instance activeTunnel_eq_dec : EqDecision activeTunnel.
Proof. solve_decision. Defined.

(** The table of a server and the tunnels whose context it cancelled. *)
Record TunnelManager := mkManager {
  tm_tunnels : gmap gostring activeTunnel;
  tm_cancelled : gset gostring;
  tm_podName : gostring }.

Definition tunnelMapKey (namespace previewID : gostring) : gostring := namespace ++ #"/" ++ previewID.
Definition svcName (previewID : gostring) : gostring := #"diverge-tunnel-" ++ previewID.

(** ** Finding a tunnel *)
(** The loop of [getActiveTunnel] over the table in some order: the last
    match and the number of matches. *)
Definition tunnel_matches (previewID : gostring) (e : gostring * activeTunnel) : bool :=
  str_eqb e.1 previewID || str_eqb (tun_previewID e.2) previewID || HasSuffix e.1 (#"/" ++ previewID).
Definition find_tunnel (entries : list (gostring * activeTunnel)) (previewID : gostring) : option activeTunnel :=
  if str_eqb previewID [] then None
  else
    let '(matched, n) := fold_left (fun '(matched, n) e =>
      if tunnel_matches previewID e then (Some e.2, S n) else (matched, n)) entries (None, O) in
    if negb (n =? 1)%nat then None else matched.
Definition getActiveTunnel (m : TunnelManager) (previewID : gostring) : option activeTunnel :=
  find_tunnel (map_to_list (tm_tunnels m)) previewID.
Definition getActiveTunnelInNamespace (m : TunnelManager) (namespace previewID : gostring) : option activeTunnel :=
  if str_eqb namespace [] then getActiveTunnel m previewID
  else tm_tunnels m !! tunnelMapKey namespace previewID.
Definition HasTunnel (m : TunnelManager) (previewID : gostring) : bool :=
  bool_decide (is_Some (getActiveTunnel m previewID)).
Definition HasTunnelInNamespace (m : TunnelManager) (namespace previewID : gostring) : bool :=
  bool_decide (is_Some (getActiveTunnelInNamespace m namespace previewID)).

Definition evictLocalTunnel (namespace previewID : gostring) (m : TunnelManager) : TunnelManager :=
  let k := tunnelMapKey namespace previewID in
  match tm_tunnels m !! k with
  | Some existing => mkManager (delete k (tm_tunnels m)) ({[tun_tunnelID existing]} ∪ tm_cancelled m) (tm_podName m)
  | None => m
  end.

(** ** Ownership *)
Inductive ownership_error :=
| NoAuthenticatedUser
| LookupPreviewGroup (e : api_error)
| LookupEnvironment (e : api_error)
| OwnedBy (previewID owner : gostring).

(** [group] and [env] are what the cluster answers for the objects named
    after the preview: the group's owner and the environment's
    [divergedev.com/created-by] annotation. *)
Definition check_owner (previewID username : gostring) (answer : result api_error gostring)
    (lookup_failed : api_error -> ownership_error) : result ownership_error unit :=
  match answer with
  | Err NotFound => Ok tt
  | Err e => Err (lookup_failed e)
  | Ok owner =>
      if negb (str_eqb owner []) && negb (str_eqb owner username) then Err (OwnedBy previewID owner) else Ok tt
  end.
Definition validatePreviewOwnership (user : option UserInfo) (group env : result api_error gostring)
    (reg : TunnelRegister) : result ownership_error unit :=
  match user with
  | None => Err NoAuthenticatedUser
  | Some u =>
      check_owner (PreviewId reg) (Username u) group LookupPreviewGroup ≫= fun _ =>
      check_owner (PreviewId reg) (Username u) env LookupEnvironment
  end.

(** ** The Kubernetes objects of a tunnel *)
Definition expires_annotation : gostring := #"divergedev.com/tunnel-expires".
Definition tunnel_annotations (tunnelID expires : gostring) : gmap gostring gostring :=
  <[ #"divergedev.com/tunnel-id" := tunnelID]> {[expires_annotation := expires]}.
Definition resource_key (k : kind) (reg : TunnelRegister) : key := (k, reg_Namespace reg, svcName (PreviewId reg)).

Definition service_object (podName : gostring) (reg : TunnelRegister) (tunnelID expires : gostring) : Obj :=
  mkObj (tunnel_labels (PreviewId reg))
    (<[ #"divergedev.com/tunnel-holder" := podName]> (tunnel_annotations tunnelID expires))
    (ServiceSpec [] (Port reg) TunnelProxyPort) 0.
Definition slice_object (podIP : gostring) (reg : TunnelRegister) (tunnelID expires : gostring) : Obj :=
  mkObj (<[ #"kubernetes.io/service-name" := svcName (PreviewId reg)]> (tunnel_labels (PreviewId reg)))
    (tunnel_annotations tunnelID expires) (SliceSpec [podIP] (Some true) TunnelProxyPort) 0.
Definition endpoints_object (podIP : gostring) (reg : TunnelRegister) (tunnelID expires : gostring) : Obj :=
  mkObj (tunnel_labels (PreviewId reg)) (tunnel_annotations tunnelID expires)
    (EndpointsSpec [podIP] TunnelProxyPort) 0.

Definition cluster_ip (o : Obj) : gostring := match o_spec o with ServiceSpec ip _ _ => ip | _ => [] end.
Definition with_cluster_ip (ip : gostring) (o : Obj) : Obj :=
  mkObj (o_labels o) (o_annotations o) (match o_spec o with ServiceSpec _ p t => ServiceSpec ip p t | s => s end)
    (o_version o).
Definition with_version (o : Obj) (v : Z) : Obj := mkObj (o_labels o) (o_annotations o) (o_spec o) v.
Definition with_annotation (k v : gostring) (o : Obj) : Obj :=
  mkObj (o_labels o) (<[k := v]> (o_annotations o)) (o_spec o) (o_version o).

Inductive resource_error :=
| CreateFailed (k : kind) (e : api_error)
| GetExistingFailed (k : kind) (e : api_error)
| UpdateFailed (k : kind) (e : api_error)
| RecreateFailed (e : api_error).

Section Resources.
Context {W : Type} {K : KubeClient W}.

(** Create, or update what is there: EndpointSlices and Endpoints. *)
Definition create_or_update (k : key) (o : Obj) (w : W) : result resource_error unit * W :=
  match api_Create k o w with
  | (Ok _, w) => (Ok tt, w)
  | (Err AlreadyExists, w) =>
      match api_Get k w with
      | (Err e, w) => (Err (GetExistingFailed k.1.1 e), w)
      | (Ok existing, w) =>
          match api_Update k (with_version o (o_version existing)) w with
          | (Ok _, w) => (Ok tt, w)
          | (Err e, w) => (Err (UpdateFailed k.1.1 e), w)
          end
      end
  | (Err e, w) => (Err (CreateFailed k.1.1 e), w)
  end.

(** The same for the Service, which keeps its cluster IP, and is deleted and
    created again when it is headless. *)
Definition create_service (k : key) (o : Obj) (w : W) : result resource_error unit * W :=
  match api_Create k o w with
  | (Ok _, w) => (Ok tt, w)
  | (Err AlreadyExists, w) =>
      match api_Get k w with
      | (Err e, w) => (Err (GetExistingFailed KService e), w)
      | (Ok existing, w) =>
          if decide (cluster_ip existing = ClusterIPNone) then
            let '(_, w) := api_Delete k w in
            match api_Create k o w with
            | (Ok _, w) | (Err AlreadyExists, w) => (Ok tt, w)
            | (Err e, w) => (Err (RecreateFailed e), w)
            end
          else
            match api_Update k (with_cluster_ip (cluster_ip existing) (with_version o (o_version existing))) w with
            | (Ok _, w) => (Ok tt, w)
            | (Err e, w) => (Err (UpdateFailed KService e), w)
            end
      end
  | (Err e, w) => (Err (CreateFailed KService e), w)
  end.

Definition createTunnelResources (podName podIP : gostring) (reg : TunnelRegister) (tunnelID expires : gostring)
    (w : W) : result resource_error unit * W :=
  match create_service (resource_key KService reg) (service_object podName reg tunnelID expires) w with
  | (Err e, w) => (Err e, w)
  | (Ok _, w) =>
      match create_or_update (resource_key KEndpointSlice reg) (slice_object podIP reg tunnelID expires) w with
      | (Err e, w) => (Err e, w)
      | (Ok _, w) =>
          create_or_update (resource_key KEndpoints reg) (endpoints_object podIP reg tunnelID expires) w
      end
  end.

Definition deleteTunnelResources (reg : TunnelRegister) (w : W) : W :=
  let w := snd (api_Delete (resource_key KService reg) w) in
  let w := snd (api_Delete (resource_key KEndpointSlice reg) w) in
  snd (api_Delete (resource_key KEndpoints reg) w).

Definition refresh_one (expires : gostring) (w : W) (k : key) : W :=
  match api_Get k w with
  | (Ok o, w) => snd (api_Update k (with_annotation expires_annotation expires o) w)
  | (Err _, w) => w
  end.
Definition refreshTunnelTTL (reg : TunnelRegister) (expires : gostring) (w : W) : W :=
  fold_left (refresh_one expires)
    [resource_key KService reg; resource_key KEndpointSlice reg; resource_key KEndpoints reg] w.
End Resources.

(** ** Registration, heartbeat, cleanup *)
Inductive tunnel_error :=
| Rpc (e : rpc_error)
| NotOwner (e : ownership_error)      (* CodePermissionDenied *)
| LeaseFailed (e : api_error)
| ResourcesFailed (e : resource_error).

Definition validate_register (reg : TunnelRegister) : result rpc_error unit :=
  ValidateDNS1123Label (PreviewId reg) #"preview_id" ≫= fun _ =>
  ValidateDNS1123Label (reg_Namespace reg) #"namespace" ≫= fun _ =>
  if str_eqb (Service reg) [] then Ok tt else ValidateDNS1123Label (Service reg) #"service".

(** What the environment answers while a tunnel opens. *)
Record Env := mkEnv {
  env_user : option UserInfo;
  env_group : result api_error gostring;
  env_environment : result api_error gostring;
  env_podIP : gostring;
  env_now : Z;
  env_expires : gostring }.

Section Session.
Context {W : Type} {K : KubeClient W} (review : UserInfo -> attrs -> option bool) (audited : bool).

Definition setup_result : Type := result tunnel_error activeTunnel * list audit_event * (TunnelManager * W).

(** [Tunnel] up to its registration in the table; [tunnelID] is the new
    UUID.  A failure after the lease was taken keeps it. *)
Definition open_tunnel (env : Env) (reg : TunnelRegister) (tunnelID : gostring) (m : TunnelManager) (w : W)
    : setup_result :=
  match validate_register reg with
  | Err e => (Err (Rpc e), [], (m, w))
  | Ok _ =>
      match AuthorizeAction review audited (env_user env) #"create" (reg_Namespace reg) #"environments" with
      | (Err e, audit) => (Err (Rpc e), audit, (m, w))
      | (Ok _, audit) =>
          match validatePreviewOwnership (env_user env) (env_group env) (env_environment env) reg with
          | Err e => (Err (NotOwner e), audit, (m, w))
          | Ok _ =>
              match Acquire (env_now env) (tm_podName m) (reg_Namespace reg) (PreviewId reg) tunnelID w with
              | (Err e, w) => (Err (LeaseFailed e), audit, (m, w))
              | (Ok previousHolder, w) =>
                  let m := if str_eqb previousHolder [] then m
                           else evictLocalTunnel (reg_Namespace reg) (PreviewId reg) m in
                  match createTunnelResources (tm_podName m) (env_podIP env) reg tunnelID (env_expires env) w with
                  | (Err e, w) => (Err (ResourcesFailed e), audit, (m, w))
                  | (Ok _, w) =>
                      let at' := mkActive tunnelID (PreviewId reg) (Service reg) (reg_Namespace reg) (Port reg) in
                      (Ok at', audit,
                       (mkManager (<[tunnelMapKey (reg_Namespace reg) (PreviewId reg) := at']> (tm_tunnels m))
                          (tm_cancelled m) (tm_podName m), w))
                  end
              end
          end
      end
  end.

(** The deferred functions, in the order they run: out of the table if still
    there, the context cancelled, then the objects and the lease if it is
    still held. *)
Definition close_tunnel (now : Z) (reg : TunnelRegister) (at' : activeTunnel) (m : TunnelManager) (w : W)
    : TunnelManager * W :=
  let k := tunnelMapKey (reg_Namespace reg) (PreviewId reg) in
  let tunnels := if decide (tm_tunnels m !! k = Some at') then delete k (tm_tunnels m) else tm_tunnels m in
  let m := mkManager tunnels ({[tun_tunnelID at']} ∪ tm_cancelled m) (tm_podName m) in
  match Renew now (tm_podName m) (reg_Namespace reg) (PreviewId reg) (tun_tunnelID at') w with
  | (true, w) =>
      (m, Release now (tm_podName m) (reg_Namespace reg) (PreviewId reg) (tun_tunnelID at')
            (deleteTunnelResources reg w))
  | (false, w) => (m, w)
  end.

(** A tick of the heartbeat: [true] when the tunnel goes on, with a ping. *)
Definition heartbeat_tick (now lastPong : Z) (expires : gostring) (reg : TunnelRegister) (at' : activeTunnel)
    (m : TunnelManager) (w : W) : bool * (TunnelManager * W) :=
  let cancel := mkManager (tm_tunnels m) ({[tun_tunnelID at']} ∪ tm_cancelled m) (tm_podName m) in
  if tunnelHeartbeatTimeout <? now - lastPong then (false, (cancel, w))
  else
    match Renew now (tm_podName m) (reg_Namespace reg) (PreviewId reg) (tun_tunnelID at') w with
    | (false, w) => (false, (cancel, w))
    | (true, w) => (true, (m, refreshTunnelTTL reg expires w))
    end.
End Session.

(** ** The proxy *)
(** [extractPreviewAndNamespaceFromHost] *)
Definition extractPreviewAndNamespaceFromHost (host : gostring) : gostring * gostring :=
  let host := match IndexByte host ":"%char with Some idx => take idx host | None => host end in
  let prefix := #"diverge-tunnel-" in
  if negb (HasPrefix host prefix) then ([], [])
  else
    let rest := drop (length prefix) host in
    match IndexByte rest "."%char with
    | None => (rest, [])
    | Some dotIdx =>
        let previewID := take dotIdx rest in
        if str_eqb previewID [] then ([], [])
        else
          let afterFirstDot := drop (dotIdx + 1) rest in
          (previewID,
           match IndexByte afterFirstDot "."%char with
           | Some nextDot => take nextDot afterFirstDot
           | None => afterFirstDot
           end)
    end.
Definition extractPreviewIDFromHost (host : gostring) : gostring := fst (extractPreviewAndNamespaceFromHost host).

Record HeaderEntry := mkHeader { h_Key : gostring; h_Values : list gostring }.
(** [entries] are the headers in the order their map is iterated. *)
Definition headersToProto (entries : list (gostring * list gostring)) : list HeaderEntry :=
  map (fun '(k, v) => mkHeader k v) entries.

Record TunnelHTTPRequest := mkTunnelReq {
  tq_RequestId : gostring; tq_Method : gostring; tq_Path : gostring; tq_Headers : list HeaderEntry; tq_Body : gostring }.
Record TunnelHTTPResponse := mkTunnelResp {
  tr_RequestId : gostring; tr_StatusCode : Z; tr_Headers : list HeaderEntry; tr_Body : gostring;
  tr_HasMoreChunks : bool }.

(** An incoming request: the values of the two routing headers, and a body
    that ends with or without an error. *)
Record http_request := mkHttpReq {
  rq_Host : gostring; rq_env_header : gostring; rq_namespace_header : gostring;
  rq_Method : gostring; rq_URI : gostring; rq_Header : list (gostring * list gostring);
  rq_body : gostring; rq_body_fails : bool }.
(** What is written: status, added headers, body. *)
Record http_response := mkHttpResp {
  rs_status : Z; rs_headers : list (gostring * gostring); rs_body : gostring }.
(** [http.Error] *)
Definition http_error (msg : gostring) (code : Z) : http_response :=
  mkHttpResp code [(#"Content-Type", #"text/plain; charset=utf-8"); (#"X-Content-Type-Options", #"nosniff")]
    (msg ++ ["010"%char]).
Definition maxProxyBodySize : Z := 1048576.

(** [io.ReadAll(io.LimitReader(r.Body, maxProxyBodySize+1))] *)
Definition read_limited (r : http_request) : option gostring :=
  if maxProxyBodySize <? Z.of_nat (length (rq_body r)) then Some (take (Z.to_nat (maxProxyBodySize + 1)) (rq_body r))
  else if rq_body_fails r then None else Some (rq_body r).

Section Proxy.
(** [forwardToActiveTunnel]; [None] is its error. *)
Context (forward : activeTunnel -> TunnelHTTPRequest -> option TunnelHTTPResponse).

Definition proxy_target (r : http_request) : gostring * gostring :=
  let '(hostPreviewID, hostNamespace) := extractPreviewAndNamespaceFromHost (rq_Host r) in
  (if str_eqb (rq_env_header r) [] then hostPreviewID else rq_env_header r,
   if str_eqb (rq_namespace_header r) [] then hostNamespace else rq_namespace_header r).

(** [NewTunnelProxyHandler] on a request, [reqID] being the new UUID. *)
Definition tunnel_proxy (m : TunnelManager) (reqID : gostring) (r : http_request) : http_response :=
  let '(previewID, namespace) := proxy_target r in
  if str_eqb previewID [] then http_error #"cannot determine tunnel target" 400
  else
    match getActiveTunnelInNamespace m namespace previewID with
    | None => http_error #"tunnel not found" 502
    | Some at' =>
        match read_limited r with
        | None => http_error #"failed to read request body" 400
        | Some body =>
            if maxProxyBodySize <? Z.of_nat (length body) then http_error #"request body too large" 413
            else
              match forward at' (mkTunnelReq reqID (rq_Method r) (rq_URI r) (headersToProto (rq_Header r)) body) with
              | None => http_error #"bad gateway" 502
              | Some resp =>
                  mkHttpResp (tr_StatusCode resp)
                    (tr_Headers resp ≫= fun h => map (fun v => (h_Key h, v)) (h_Values h)) (tr_Body resp)
              end
        end
    end.
End Proxy.

(** * Tunnels are opened, kept, found and closed correctly

    An opened tunnel is authorized, owned, holds its lease and publishes its
    objects; a lost one touches nothing on its way out; a request is routed
    to the tunnel its host names. *)

(** ** The objects *)
Section Resources.
Context {W : Type} {K : KubeClient W} {L : KubeClientLaws W}.

(** [w'] is [w] with an accepted version of [o] at [k]. *)
Definition puts (k : key) (o : Obj) (w w' : W) : Prop :=
  exists o', admitted o o' /\ stored w' = <[k := o']> (stored w).
(** The Service published by a tunnel: real cluster address, proxy port. *)
Definition published (o svc : Obj) : Prop :=
  o_labels svc = o_labels o /\ o_annotations svc = o_annotations o /\
  exists ip p t ip', o_spec o = ServiceSpec ip p t /\ o_spec svc = ServiceSpec ip' p t /\ ip' <> ClusterIPNone.
Definition headless (o : Obj) : Prop := cluster_ip o = ClusterIPNone.

Lemma Get_stored k (w w1 : W) o : api_Get k w = (Ok o, w1) -> w1 = w /\ stored w !! k = Some o.
Proof.
  intros H. pose proof (Get_pure k w) as Hp. pose proof (Get_Ok k w o) as Hg. rewrite H in Hp, Hg. cbn in Hp.
  split; [done|]. by apply Hg.
Qed.

Lemma create_or_update_Ok k o (w w' : W) : create_or_update k o w = (Ok tt, w') -> puts k o w w'.
Proof.
  unfold create_or_update. destruct (api_Create k o w) as [[[]|e] w1] eqn:E1.
  { intros [= <-]. apply Create_Ok in E1 as (o' & _ & Ha & _ & E). by exists o'. }
  apply Create_Err in E1 as (E1 & _). destruct e; try done.
  destruct (api_Get k w1) as [[ex|e] w2] eqn:E2; [|done]. apply Get_stored in E2 as [-> E2].
  destruct (api_Update k _ w1) as [[[]|e] w3] eqn:E3; [|done]. intros [= <-].
  apply Update_Ok in E3 as (cur & o' & _ & _ & Ha & _ & _ & E). exists o'. by rewrite <-E1.
Qed.

Lemma admitted_published ip o o' : (exists ip0 p t, o_spec o = ServiceSpec ip0 p t) ->
  ip <> ClusterIPNone -> admitted (with_cluster_ip ip o) o' -> published o o'.
Proof.
  intros (ip0 & p & t & Ho) Hip (Hl & Ha & Hs). split; [done|]. split; [done|].
  unfold with_cluster_ip in Hs. rewrite Ho in Hs. cbn in Hs. destruct (o_spec o') as [ip' p' t'| | |]; try done.
  destruct Hs as (<- & <- & H). exists ip0, p, t, ip'. split; [done|]. split; [done|]. case_decide; naive_solver.
Qed.
Lemma admitted_new p t l a v o' : admitted (mkObj l a (ServiceSpec [] p t) v) o' ->
  published (mkObj l a (ServiceSpec [] p t) v) o'.
Proof. intros H. apply (admitted_published []); [eauto|done|exact H]. Qed.

Definition service_put (k : key) (o : Obj) (w w' : W) : Prop :=
  (exists svc, published o svc /\ stored w' = <[k := svc]> (stored w)) \/
  (stored w' = stored w /\ exists old, stored w !! k = Some old /\ headless old).

Lemma create_service_Ok k l a p t (w w' : W) :
  create_service k (mkObj l a (ServiceSpec [] p t) 0) w = (Ok tt, w') ->
  service_put k (mkObj l a (ServiceSpec [] p t) 0) w w'.
Proof.
  unfold create_service, service_put. set (o := mkObj l a (ServiceSpec [] p t) 0).
  assert (forall w1 w2, api_Create k o w1 = (Ok tt, w2) ->
    exists svc, published o svc /\ stored w2 = <[k := svc]> (stored w1)) as Hnew.
  { intros w1 w2 (o' & _ & Ha & _ & E)%Create_Ok. exists o'. split; [by apply admitted_new|done]. }
  destruct (api_Create k o w) as [[[]|e] w1] eqn:E1.
  { intros [= <-]. left. by apply Hnew. }
  apply Create_Err in E1 as (E1 & _). destruct e; try done.
  destruct (api_Get k w1) as [[ex|e] w2] eqn:E2; [|done]. apply Get_stored in E2 as [-> E2]. rewrite E1 in E2.
  case_decide as Eh.
  - destruct (api_Delete k w1) as [r w2] eqn:Ed. destruct (api_Create k o w2) as [r2 w3] eqn:Ec.
    destruct r as [[]|e].
    + apply Delete_Ok in Ed as [Ed _]. rewrite E1 in Ed.
      destruct r2 as [[]|[]]; try done; intros [= <-].
      * left. apply Hnew in Ec as (svc & Hp & E). exists svc. split; [done|]. by rewrite E, Ed, insert_delete_eq.
      * apply Create_Err in Ec as (_ & _ & Hs). destruct (Hs eq_refl) as [o2 Ho2].
        by rewrite Ed, lookup_delete_eq in Ho2.
    + apply Delete_Err in Ed as [Ed _]. rewrite E1 in Ed.
      destruct r2 as [[]|[]]; try done; intros [= <-].
      * left. apply Hnew in Ec as (svc & Hp & E). exists svc. split; [done|]. by rewrite E, Ed.
      * right. apply Create_Err in Ec as (E & _). split; [congruence|]. by exists ex.
  - destruct (api_Update k _ w1) as [[[]|e] w3] eqn:E3; [|done]. intros [= <-]. left.
    apply Update_Ok in E3 as (cur & o' & _ & _ & Ha & _ & _ & E). rewrite E1 in E. exists o'. split; [|done].
    apply (admitted_published (cluster_ip ex)); [unfold o; cbn; eauto|done|exact Ha].
Qed.

(** What a successful [createTunnelResources] leaves on the server. *)
Definition resources_published (podName podIP : gostring) (reg : TunnelRegister) (tunnelID expires : gostring)
    (w w' : W) : Prop :=
  ((exists svc, stored w' !! resource_key KService reg = Some svc /\
      published (service_object podName reg tunnelID expires) svc) \/
   (exists old, stored w !! resource_key KService reg = Some old /\ headless old /\
      stored w' !! resource_key KService reg = Some old)) /\
  (exists ep, stored w' !! resource_key KEndpointSlice reg = Some ep /\
      admitted (slice_object podIP reg tunnelID expires) ep) /\
  (exists ep, stored w' !! resource_key KEndpoints reg = Some ep /\
      admitted (endpoints_object podIP reg tunnelID expires) ep) /\
  forall k, k <> resource_key KService reg -> k <> resource_key KEndpointSlice reg ->
    k <> resource_key KEndpoints reg -> stored w' !! k = stored w !! k.

Lemma createTunnelResources_Ok podName podIP reg tunnelID expires (w w' : W) :
  createTunnelResources podName podIP reg tunnelID expires w = (Ok tt, w') ->
  resources_published podName podIP reg tunnelID expires w w'.
Proof.
  unfold createTunnelResources. destruct (create_service _ _ w) as [[[]|e] w1] eqn:E1; [|done].
  destruct (create_or_update _ _ w1) as [[[]|e] w2] eqn:E2; [|done]. intros E3.
  apply create_service_Ok in E1. apply create_or_update_Ok in E2 as (sl & Hsl & E2).
  apply create_or_update_Ok in E3 as (ep & Hep & E3).
  assert (forall a b, a <> b -> resource_key a reg <> resource_key b reg) as Hne by (intros a b Hab; unfold resource_key; congruence).
  split; [|split; [|split]].
  - destruct E1 as [(svc & Hp & E1)|(E1 & old & Ho & Hh)].
    + left. exists svc. split; [|done]. rewrite E3, lookup_insert_ne, E2, lookup_insert_ne, E1 by by apply Hne.
      apply lookup_insert_eq.
    + right. exists old. split; [done|]. split; [done|].
      by rewrite E3, lookup_insert_ne, E2, lookup_insert_ne, E1 by by apply Hne.
  - exists sl. split; [|done]. rewrite E3, lookup_insert_ne, E2 by by apply Hne. apply lookup_insert_eq.
  - exists ep. split; [|done]. rewrite E3. apply lookup_insert_eq.
  - intros k H1 H2 H3. rewrite E3, lookup_insert_ne, E2, lookup_insert_ne by done.
    destruct E1 as [(svc & _ & E1)|[E1 _]]; rewrite E1; [by rewrite lookup_insert_ne|done].
Qed.

(** when [createTunnelResources] reports success, the EndpointSlice and
    the Endpoints point at this pod's proxy port with the tunnel's
    annotations, and the Service maps the tunnel's port to the proxy port on
    a real address -- or is still the headless one that was there when its
    deletion failed; nothing else changed. *)
Theorem tunnel_published podName podIP reg tunnelID expires (w w' : W) :
  createTunnelResources podName podIP reg tunnelID expires w = (Ok tt, w') ->
  resources_published podName podIP reg tunnelID expires w w'.
Proof. apply createTunnelResources_Ok. Qed.
End Resources.

(** ** The lease, without interruption *)
Section Session.
Context {W : Type} {K : KubeClient W} {L : KubeClientLaws W}.

Lemma Acquire_Ok now pod ns p id (w w' : W) previous :
  Acquire now pod ns p id w = (Ok previous, w') ->
  holds w' (lease_key ns p) (holder_identity pod id) /\
  (forall k, k <> lease_key ns p -> stored w' !! k = stored w !! k) /\
  (forall o h, stored w !! lease_key ns p = Some o -> holder_of o = Some h -> previous = h).
Proof.
  unfold Acquire, lease_run. cbn [lease_step].
  destruct (api_Get (lease_key ns p) w) as [[ex|e] w1] eqn:E1.
  - apply Get_stored in E1 as [-> E1]. cbn [lease_step].
    destruct (api_Update (lease_key ns p) _ w) as [[[]|e] w2] eqn:E2; [|done]. intros [= <- <-].
    split; [by eapply Update_holds|]. pose proof E2 as (cur & o' & _ & _ & _ & _ & _ & E)%Update_Ok.
    split; [intros k Hk; by rewrite E, lookup_insert_ne|]. intros o h Ho Hh. replace ex with o by congruence. by rewrite Hh.
  - pose proof (Get_pure (lease_key ns p) w) as Hp. rewrite E1 in Hp. cbn in Hp. subst w1. cbn [lease_step].
    destruct (api_Create (lease_key ns p) _ w) as [[[]|e2] w2] eqn:E2; [|done]. intros [= <- <-].
    apply Create_Ok in E2 as (o' & Hn & Ha & _ & E). split; [|split].
    + exists o'. rewrite E, lookup_insert_eq. split; [done|]. by rewrite (admitted_holder _ _ Ha).
    + intros k Hk. by rewrite E, lookup_insert_ne.
    + intros o h Ho. congruence.
Qed.
Lemma Acquire_Err now pod ns p id (w w' : W) e :
  Acquire now pod ns p id w = (Err e, w') -> stored w' = stored w.
Proof.
  unfold Acquire, lease_run. cbn [lease_step].
  destruct (api_Get (lease_key ns p) w) as [[ex|e1] w1] eqn:E1; cbn [lease_step].
  - apply Get_stored in E1 as [-> E1].
    destruct (api_Update (lease_key ns p) _ w) as [[[]|e2] w2] eqn:E2; [done|]. intros [= <- <-].
    by apply Update_Err in E2 as [? _].
  - pose proof (Get_pure (lease_key ns p) w) as Hp. rewrite E1 in Hp. cbn in Hp. subst w1.
    destruct (api_Create (lease_key ns p) _ w) as [[[]|e2] w2] eqn:E2; [done|]. intros [= <- <-].
    by apply Create_Err in E2 as [? _].
Qed.

Lemma Renew_cases now pod ns p id (w w' : W) b :
  Renew now pod ns p id w = (b, w') ->
  (forall k, k <> lease_key ns p -> stored w' !! k = stored w !! k) /\
  (b = false -> stored w' = stored w) /\
  (b = true -> holds w (lease_key ns p) (holder_identity pod id) /\ holds w' (lease_key ns p) (holder_identity pod id)).
Proof.
  unfold Renew, lease_run. cbn [lease_step].
  destruct (api_Get (lease_key ns p) w) as [[ex|e1] w1] eqn:E1; cbn [lease_step].
  - apply Get_stored in E1 as [-> E1]. case_decide as Eh; cbn [lease_step]; [|by intros [= <- <-]].
    assert (holder_of (renewed now ex) = Some (holder_identity pod id)) as Hr.
    { revert Eh. unfold holder_of, renewed. cbn. by destruct (o_spec ex). }
    destruct (api_Update (lease_key ns p) _ w) as [[[]|e2] w2] eqn:E2; intros [= <- <-].
    + pose proof E2 as (cur & o' & _ & _ & _ & _ & _ & E)%Update_Ok.
      split; [intros k Hk; by rewrite E, lookup_insert_ne|]. split; [done|]. intros _.
      split; [by exists ex|by eapply Update_holds].
    + apply Update_Err in E2 as [E2 _]. by rewrite E2.
  - pose proof (Get_pure (lease_key ns p) w) as Hp. rewrite E1 in Hp. cbn in Hp. subst w1. by intros [= <- <-].
Qed.

(** ** Opening *)
Context (review : UserInfo -> attrs -> option bool) (audited : bool).

Definition opened (env : Env) (reg : TunnelRegister) (tunnelID : gostring) (m : TunnelManager) (w : W)
    (at' : activeTunnel) (m' : TunnelManager) (w' : W) : Prop :=
  let k := tunnelMapKey (reg_Namespace reg) (PreviewId reg) in
  at' = mkActive tunnelID (PreviewId reg) (Service reg) (reg_Namespace reg) (Port reg) /\
  validate_register reg = Ok tt /\
  fst (AuthorizeAction review audited (env_user env) #"create" (reg_Namespace reg) #"environments") = Ok tt /\
  validatePreviewOwnership (env_user env) (env_group env) (env_environment env) reg = Ok tt /\
  holds w' (lease_key (reg_Namespace reg) (PreviewId reg)) (holder_identity (tm_podName m) tunnelID) /\
  (exists w1, (forall k, k <> lease_key (reg_Namespace reg) (PreviewId reg) -> stored w1 !! k = stored w !! k) /\
     resources_published (tm_podName m) (env_podIP env) reg tunnelID (env_expires env) w1 w') /\
  tm_tunnels m' = <[k := at']> (tm_tunnels m) /\
  forall old o h, tm_tunnels m !! k = Some old ->
    stored w !! lease_key (reg_Namespace reg) (PreviewId reg) = Some o -> holder_of o = Some h -> h <> [] ->
    tun_tunnelID old ∈ tm_cancelled m'.

Lemma open_tunnel_Ok env reg tunnelID m (w : W) at' audit m' w' :
  open_tunnel review audited env reg tunnelID m w = (Ok at', audit, (m', w')) ->
  opened env reg tunnelID m w at' m' w'.
Proof.
  unfold open_tunnel. destruct (validate_register reg) as [[]|e] eqn:Ev; [|done].
  destruct (AuthorizeAction _ _ _ _ _ _) as [[[]|e] au] eqn:Ea; [|done].
  destruct (validatePreviewOwnership _ _ _ _) as [[]|e] eqn:Eo; [|done].
  destruct (Acquire _ _ _ _ _ w) as [[prev|e] w1] eqn:El; [|done].
  set (m1 := if str_eqb prev [] then m else _).
  assert (tm_podName m1 = tm_podName m) as Hpod
    by (unfold m1, evictLocalTunnel; repeat case_match; done).
  destruct (createTunnelResources _ _ _ _ _ w1) as [[[]|e] w2] eqn:Er; [|done]. intros [= <- <- <- <-].
  apply createTunnelResources_Ok in Er. rewrite Hpod in Er. apply Acquire_Ok in El as ([o [Ho Hh]] & Hf & Hp).
  unfold opened. split; [done|]. split; [done|]. split; [by rewrite Ea|]. split; [done|]. split.
  { exists o. split; [|done]. destruct Er as (_ & _ & _ & Er). rewrite Er; [done|unfold lease_key, resource_key; congruence..]. }
  split; [by exists w1|]. cbn.
  unfold m1, evictLocalTunnel. destruct (str_eqb prev []) eqn:Eq.
  - split; [done|]. intros old o1 h _ Ho1 Hh1 Hne. apply bool_decide_eq_true in Eq.
    rewrite (Hp _ _ Ho1 Hh1) in Eq. done.
  - destruct (tm_tunnels m !! tunnelMapKey _ _) as [old|] eqn:Et; cbn.
    + split; [by rewrite insert_delete_eq|]. intros ? o1 h [= <-] _ _ _. set_solver.
    + done.
Qed.

(** a tunnel opens only when the registration is valid, authorized and by
    the owner; it then holds the lease, its objects are published, it is in
    the table, and a local tunnel it replaces is cancelled.  A refused
    registration changes nothing, a failed lease nothing on the server. *)
Theorem open_tunnel_spec env reg tunnelID m (w : W) :
  match open_tunnel review audited env reg tunnelID m w with
  | (Ok at', _, (m', w')) => opened env reg tunnelID m w at' m' w'
  | (Err (Rpc _), _, (m', w')) | (Err (NotOwner _), _, (m', w')) => m' = m /\ w' = w
  | (Err (LeaseFailed _), _, (m', w')) => m' = m /\ stored w' = stored w
  | (Err (ResourcesFailed _), _, _) => True
  end.
Proof.
  destruct (open_tunnel review audited env reg tunnelID m w) as [[[at'|e] audit] [m' w']] eqn:E.
  { by eapply open_tunnel_Ok. }
  revert E. unfold open_tunnel. destruct (validate_register reg) as [[]|e1]; [|by intros [= <- _ <- <-]].
  destruct (AuthorizeAction _ _ _ _ _ _) as [[[]|e1] au]; [|by intros [= <- _ <- <-]].
  destruct (validatePreviewOwnership _ _ _ _) as [[]|e1]; [|by intros [= <- _ <- <-]].
  destruct (Acquire _ _ _ _ _ w) as [[prev|e1] w1] eqn:El.
  - destruct (createTunnelResources _ _ _ _ _ w1) as [[[]|e1] w2]; [done|]. by intros [= <- _ _ _].
  - intros [= <- _ <- <-]. split; [done|]. by eapply Acquire_Err.
Qed.

(** ** Losing a tunnel *)
Lemma holds_inj (w : W) k a b : holds w k a -> holds w k b -> a = b.
Proof. intros (o1 & H1 & H2) (o2 & H3 & H4). congruence. Qed.

(** when another tunnel has taken the preview over, the heartbeat of the
    old one stops it and its cleanup writes nothing to the server and removes
    no other tunnel from the table of its pod. *)
Theorem tunnel_handover env reg tunnelID mB (w : W) atB audit mB' w' regA atA mA now lastPong expires :
  open_tunnel review audited env reg tunnelID mB w = (Ok atB, audit, (mB', w')) ->
  reg_Namespace regA = reg_Namespace reg -> PreviewId regA = PreviewId reg ->
  holder_identity (tm_podName mA) (tun_tunnelID atA) <> holder_identity (tm_podName mB) tunnelID ->
  (let '(goes_on, (mA', w2)) := heartbeat_tick now lastPong expires regA atA mA w' in
   goes_on = false /\ tun_tunnelID atA ∈ tm_cancelled mA' /\ stored w2 = stored w') /\
  (let '(mA', w2) := close_tunnel now regA atA mA w' in
   stored w2 = stored w' /\
   forall k a, a <> atA -> tm_tunnels mA !! k = Some a -> tm_tunnels mA' !! k = Some a).
Proof.
  intros Ho Hn Hp Hid. apply open_tunnel_Ok in Ho as (_ & _ & _ & _ & Hh & _).
  assert (forall b w2, Renew now (tm_podName mA) (reg_Namespace regA) (PreviewId regA) (tun_tunnelID atA) w' = (b, w2) ->
    b = false /\ stored w2 = stored w') as HR.
  { intros b w2 (_ & Hf & Ht)%Renew_cases. destruct b; [|split; [done|by apply Hf]].
    rewrite Hn, Hp in Ht. destruct (Ht eq_refl) as [Ha _]. by pose proof (holds_inj _ _ _ _ Ha Hh). }
  split.
  - unfold heartbeat_tick. destruct (_ <? _); [split; [done|]; split; [set_solver|done]|].
    destruct (Renew _ _ _ _ _ w') as [b w2]. destruct (HR _ _ eq_refl) as [-> E]. split; [done|]. split; [set_solver|done].
  - unfold close_tunnel. cbn [tm_podName]. destruct (Renew _ _ _ _ _ w') as [b w2]. destruct (HR _ _ eq_refl) as [-> E].
    split; [done|]. intros k a Hne Hk. cbn. case_decide as Ed; [|done].
    rewrite lookup_delete_ne; [done|]. intros <-. congruence.
Qed.
End Session.

(** ** Routing *)
(** A string of the characters of a DNS label. *)
Definition label_text (s : gostring) : Prop := Forall (fun c => dns_char c = true) s.

Lemma validated_label s f : ValidateDNS1123Label s f = Ok tt -> s <> [] /\ label_text s.
Proof.
  unfold ValidateDNS1123Label. case_bool_decide as E; [done|]. destruct (63 <? length s)%nat eqn:El; [done|].
  destruct (dns1123LabelRegex s) eqn:Er; [|done]. intros _. split; [done|]. bool_simpl.
  by apply (dns_regex_spec s El) in Er as (_ & ? & _).
Qed.
Lemma label_free s c : label_text s -> dns_char c = false -> c ∉ s.
Proof. unfold label_text. rewrite Forall_forall. intros H Hc Hin. apply H in Hin. congruence. Qed.

Lemma IndexByte_None s c : c ∉ s -> IndexByte s c = None.
Proof.
  induction s as [|a s IH]; cbn; [done|]. intros [Hne Hs]%not_elem_of_cons.
  rewrite decide_False by congruence. by rewrite IH.
Qed.

Lemma HasPrefix_app p t : HasPrefix (p ++ t) p = true.
Proof. apply HasPrefix_spec. by exists t. Qed.

(** The end of a cluster host name: more labels, then maybe a port. *)
Definition host_tail (t : gostring) : Prop :=
  exists dots port, t = dots ++ port /\ ":"%char ∉ dots /\ (dots = [] \/ exists d, dots = "."%char :: d) /\
    (port = [] \/ exists q, port = ":"%char :: q).

Lemma extract_host p ns t : label_text p -> p <> [] -> label_text ns -> host_tail t ->
  extractPreviewAndNamespaceFromHost (svcName p ++ #"." ++ ns ++ t) = (p, ns).
Proof.
  intros Hp Hpne Hn (dots & port & -> & Hd & Hdots & Hport).
  assert (forall c, dns_char c = false -> c ∉ p /\ c ∉ ns) as Hfree by (split; by apply label_free).
  set (name := svcName p ++ #"." ++ ns ++ dots).
  assert (":"%char ∉ name) as Hcolon.
  { destruct (Hfree ":"%char eq_refl). unfold name, svcName. rewrite !not_elem_of_app.
    split; [split; [by apply (bool_decide_unpack _); vm_compute|done]|]. split; [by apply (bool_decide_unpack _); vm_compute|done]. }
  unfold extractPreviewAndNamespaceFromHost.
  replace (svcName p ++ #"." ++ ns ++ dots ++ port) with (name ++ port) by (unfold name; by rewrite <-!app_assoc).
  assert ((match IndexByte (name ++ port) ":"%char with Some idx => take idx (name ++ port) | None => name ++ port end) = name)
    as ->.
  { destruct Hport as [->|[q ->]]; [by rewrite app_nil_r, IndexByte_None|]. by rewrite IndexByte_app, take_app_length. }
  unfold name, svcName. rewrite <-app_assoc, HasPrefix_app. cbn [negb]. rewrite drop_app_length.
  destruct (Hfree "."%char eq_refl) as [Hdp Hdn]. change (#"." ++ ns ++ dots) with ("."%char :: ns ++ dots).
  rewrite IndexByte_app by done. rewrite take_app_length.
  unfold str_eqb. rewrite bool_decide_eq_false_2 by done.
  replace (length p + 1)%nat with (length (p ++ ["."%char])) by (by rewrite length_app).
  change (p ++ "."%char :: ns ++ dots) with (p ++ ["."%char] ++ ns ++ dots). rewrite app_assoc, drop_app_length.
  destruct Hdots as [->|[d ->]]; [by rewrite app_nil_r, IndexByte_None|]. by rewrite IndexByte_app, take_app_length.
Qed.

Lemma tunnelMapKey_inj n1 p1 n2 p2 : label_text n1 -> label_text n2 ->
  tunnelMapKey n1 p1 = tunnelMapKey n2 p2 -> n1 = n2 /\ p1 = p2.
Proof.
  intros H1 H2. unfold tunnelMapKey. change (#"/") with ["/"%char]. cbn [app].
  assert (forall n, label_text n -> "/"%char ∉ n) as Hf by (intros n Hn; by apply label_free).
  revert n2 H2. induction n1 as [|a n1 IH]; intros [|b n2] H2; cbn.
  - by intros [= ->].
  - intros [= <- _]. by inversion H2.
  - intros [= -> _]. by inversion H1.
  - intros [= -> H]. apply Forall_cons in H1 as [_ H1], H2 as [_ H2]. destruct (IH H1 _ H2 H) as [-> ->]. done.
Qed.

Section Routing.
Context {W : Type} {K : KubeClient W} {L : KubeClientLaws W} (review : UserInfo -> attrs -> option bool) (audited : bool).
Context (forward : activeTunnel -> TunnelHTTPRequest -> option TunnelHTTPResponse).

(** The answer of the proxy when [at'] gets the request. *)
Definition relayed (at' : activeTunnel) (reqID : gostring) (r : http_request) : http_response :=
  match forward at' (mkTunnelReq reqID (rq_Method r) (rq_URI r) (headersToProto (rq_Header r)) (rq_body r)) with
  | None => http_error #"bad gateway" 502
  | Some resp => mkHttpResp (tr_StatusCode resp)
                   (tr_Headers resp ≫= fun h => map (fun v => (h_Key h, v)) (h_Values h)) (tr_Body resp)
  end.

Lemma proxy_relays m reqID r ns p at' :
  proxy_target r = (p, ns) -> p <> [] -> ns <> [] -> tm_tunnels m !! tunnelMapKey ns p = Some at' ->
  rq_body_fails r = false -> Z.of_nat (length (rq_body r)) <= maxProxyBodySize ->
  tunnel_proxy forward m reqID r = relayed at' reqID r.
Proof.
  intros Ht Hp Hn Hl Hf Hb. unfold tunnel_proxy, getActiveTunnelInNamespace, read_limited, str_eqb.
  rewrite Ht, !bool_decide_eq_false_2, Hl, Hf by done.
  rewrite (proj2 (Z.ltb_ge _ _) Hb). by rewrite (proj2 (Z.ltb_ge _ _) Hb).
Qed.

(** once a tunnel is open, a request for its Service's host name, with
    any further labels and port, is relayed to it with its method, path,
    headers and body, and the answer is relayed back. *)
Theorem tunnel_reachable env reg tunnelID m (w : W) at' audit m' w' r reqID t :
  open_tunnel review audited env reg tunnelID m w = (Ok at', audit, (m', w')) ->
  rq_Host r = svcName (PreviewId reg) ++ #"." ++ reg_Namespace reg ++ t -> host_tail t ->
  rq_env_header r = [] -> rq_namespace_header r = [] ->
  rq_body_fails r = false -> Z.of_nat (length (rq_body r)) <= maxProxyBodySize ->
  tunnel_proxy forward m' reqID r = relayed at' reqID r.
Proof using All.
  intros Ho Hh Ht He Hns Hf Hb. apply open_tunnel_Ok in Ho as (_ & Hv & _ & _ & _ & _ & Hm & _).
  unfold validate_register in Hv. apply bind_Ok in Hv as ([] & H1 & Hv). apply bind_Ok in Hv as ([] & H2 & _).
  apply validated_label in H1 as [Hp1 Hp2], H2 as [Hn1 Hn2].
  apply (proxy_relays m' reqID r (reg_Namespace reg) (PreviewId reg)); [|done..|by rewrite Hm, lookup_insert_eq|done|done].
  unfold proxy_target. rewrite Hh, extract_host, He, Hns by done. done.
Qed.
End Routing.

(** ** Looking a tunnel up by its preview alone *)
(** The table is keyed by what the tunnels say of themselves. *)
Definition table_ok (m : TunnelManager) : Prop :=
  forall k a, tm_tunnels m !! k = Some a ->
    k = tunnelMapKey (tun_namespace a) (tun_previewID a) /\ label_text (tun_previewID a).

Lemma find_tunnel_filter previewID entries :
  find_tunnel entries previewID =
  if str_eqb previewID [] then None
  else match List.filter (tunnel_matches previewID) entries with [e] => Some e.2 | _ => None end.
Proof.
  unfold find_tunnel. destruct (str_eqb previewID []); [done|].
  set (f := fun '(matched, n) e => _).
  assert (forall l o n, fold_left f l (o, n) =
    (match last (List.filter (tunnel_matches previewID) l) with Some e => Some e.2 | None => o end,
     (n + length (List.filter (tunnel_matches previewID) l))%nat)) as H.
  { induction l as [|e l IH]; intros o n; cbn [fold_left List.filter]; [by rewrite Nat.add_0_r|].
    unfold f at 2. destruct (tunnel_matches previewID e) eqn:E.
    - rewrite IH. cbn [length]. f_equal; [|lia]. rewrite last_cons. by destruct (last _).
    - apply IH. }
  rewrite H. cbn [Nat.add]. destruct (List.filter _ entries) as [|e [|e2 l]]; done.
Qed.

Lemma tunnel_matches_ok m k a p : table_ok m -> tm_tunnels m !! k = Some a -> "/"%char ∉ p ->
  tunnel_matches p (k, a) = true <-> tun_previewID a = p.
Proof.
  intros Hm Hk Hp. destruct (Hm _ _ Hk) as [-> Hl]. unfold tunnel_matches, str_eqb. cbn [fst snd].
  rewrite !orb_true_iff, !bool_decide_eq_true, HasSuffix_spec. split; [|intros ?; left; by right].
  intros [[H|H]|[q Hq]]; [|done|].
  - exfalso. apply Hp. rewrite <-H. unfold tunnelMapKey. change (#"/") with ["/"%char]. set_solver.
  - unfold tunnelMapKey in Hq. change (#"/") with ["/"%char] in Hq. cbn [app] in Hq.
    assert ("/"%char ∉ tun_previewID a) as Ha by (by apply label_free).
    revert Hq. generalize (tun_namespace a). induction q as [|c q IH]; intros [|d n]; cbn.
    + by intros [= ->].
    + intros [= _ H]. exfalso. apply Hp. rewrite <-H. set_solver.
    + intros [= _ H]. exfalso. apply Ha. rewrite H. set_solver.
    + intros [= _ H]. by apply (IH n).
Qed.

(** a lookup by preview alone finds a tunnel exactly when it is the only
    one of that preview in the table: an ambiguous name finds none. *)
Theorem getActiveTunnel_unique m p a :
  table_ok m -> "/"%char ∉ p ->
  getActiveTunnel m p = Some a <->
  p <> [] /\ exists k, tm_tunnels m !! k = Some a /\ tun_previewID a = p /\
    forall k' a', tm_tunnels m !! k' = Some a' -> tun_previewID a' = p -> k' = k.
Proof.
  intros Hm Hp. unfold getActiveTunnel. rewrite find_tunnel_filter. unfold str_eqb.
  case_bool_decide as En; [naive_solver|].
  assert (forall e, e ∈ List.filter (tunnel_matches p) (map_to_list (tm_tunnels m)) <->
    tm_tunnels m !! e.1 = Some e.2 /\ tun_previewID e.2 = p) as Hin.
  { intros [k b]. rewrite list_elem_of_In, filter_In, <-list_elem_of_In, elem_of_map_to_list. cbn.
    split; intros [H1 H2]; (split; [done|]); by apply (tunnel_matches_ok m k b p Hm H1 Hp). }
  assert (NoDup (List.filter (tunnel_matches p) (map_to_list (tm_tunnels m)))) as Hnd.
  { apply NoDup_ListNoDup, List.NoDup_filter, NoDup_ListNoDup, NoDup_map_to_list. }
  destruct (List.filter _ _) as [|[k b] [|[k2 b2] l]] eqn:El.
  - split; [done|]. intros (_ & k & Hk & Ha & _). pose proof (proj2 (Hin (k, a)) (conj Hk Ha)) as []%elem_of_nil.
  - split.
    + intros [= ->]. split; [done|]. destruct (proj1 (Hin (k, a))) as [Hk Ha]; [set_solver|]. exists k.
      split; [done|]. split; [done|]. intros k' a' Hk' Ha'.
      pose proof (proj2 (Hin (k', a')) (conj Hk' Ha')) as [= -> ->]%list_elem_of_singleton. done.
    + intros (_ & k' & Hk & Ha & _).
      pose proof (proj2 (Hin (k', a)) (conj Hk Ha)) as [= <- <-]%list_elem_of_singleton. done.
  - split; [done|]. intros (_ & k' & Hk & Ha & Hu). exfalso.
    destruct (proj1 (Hin (k, b))) as [H1 H2]; [set_solver|]. destruct (proj1 (Hin (k2, b2))) as [H3 H4]; [set_solver|].
    cbn in *. pose proof (Hu _ _ H1 H2) as ->. pose proof (Hu _ _ H3 H4) as ->.
    assert (b = b2) as -> by congruence. apply NoDup_cons in Hnd as [Hnd _]. apply Hnd. set_solver.
Qed.

(** ** Witnesses *)
Definition demo_reg : TunnelRegister := mkRegister #"pr-1" #"shop" #"cart" 8099.
Definition demo_ann : UserInfo := mkUser #"ann" [] [] [] ∅.
Definition demo_env : Env := mkEnv (Some demo_ann) (Ok #"ann") (Err NotFound) #"10.1.2.3" 7 #"2026-01-01T00:02:00Z".
Definition demo_manager (pod : gostring) : TunnelManager := mkManager ∅ ∅ pod.
Definition demo_open (pod id : gostring) (w : Cluster.t) : setup_result :=
  open_tunnel (fun _ _ => Some true) false demo_env demo_reg id (demo_manager pod) w.
Definition demo_active (id : gostring) : activeTunnel := mkActive id #"pr-1" #"cart" #"shop" 8099.

(** A successful run is its projections. *)
Lemma open_eta (r : setup_result (W:=Cluster.t)) at' :
  r.1.1 = Ok at' -> r = (Ok at', r.1.2, (r.2.1, r.2.2)).
Proof. by destruct r as [[? ?] [? ?]]; cbn; intros ->. Qed.
Lemma demo_open_ok pod id w : (demo_open pod id w).1.1 = Ok (demo_active id) ->
  open_tunnel (fun _ _ => Some true) false demo_env demo_reg id (demo_manager pod) w =
  (Ok (demo_active id), (demo_open pod id w).1.2, ((demo_open pod id w).2.1, (demo_open pod id w).2.2)).
Proof. apply open_eta. Qed.

Lemma tunnel_published_witness :
  exists w', createTunnelResources #"pod-a" #"10.1.2.3" demo_reg #"t1" #"soon" empty_cluster = (Ok tt, w') /\
    exists ep, Cluster.objects w' !! resource_key KEndpoints demo_reg = Some ep /\
      o_spec ep = EndpointsSpec [ #"10.1.2.3"] 8081.
Proof.
  set (r := createTunnelResources #"pod-a" #"10.1.2.3" demo_reg #"t1" #"soon" empty_cluster).
  assert (H : r.1 = Ok tt) by (vm_compute; reflexivity).
  assert (E : r = (Ok tt, r.2)) by (rewrite <-H; apply surjective_pairing).
  exists r.2. split; [exact E|]. destruct (tunnel_published _ _ _ _ _ _ _ E) as (_ & _ & (ep & He & _ & _ & Hs) & _).
  exists ep. split; [exact He|]. cbn in Hs. destruct (o_spec ep); try discriminate Hs. injection Hs as <- <-. reflexivity.
Defined.

Lemma tunnel_handover_witness :
  (heartbeat_tick 20 10 #"later" demo_reg (demo_active #"t1") (demo_manager #"pod-a")
     (demo_open #"pod-b" #"t2" (demo_open #"pod-a" #"t1" empty_cluster).2.2).2.2).1 = false.
Proof.
  set (w1 := (demo_open #"pod-a" #"t1" empty_cluster).2.2).
  assert (H : (demo_open #"pod-b" #"t2" w1).1.1 = Ok (demo_active #"t2")) by (vm_compute; reflexivity).
  pose proof (tunnel_handover _ _ _ _ _ _ _ _ _ _ _ demo_reg (demo_active #"t1") (demo_manager #"pod-a") 20 10 #"later"
    (demo_open_ok _ _ _ H) eq_refl eq_refl) as [Hh _]; [vm_compute; discriminate|].
  destruct (heartbeat_tick _ _ _ _ _ _ _) as [b [? ?]]. exact (proj1 Hh).
Defined.

Definition demo_http : http_request :=
  mkHttpReq #"diverge-tunnel-pr-1.shop.svc.cluster.local:8099" [] [] #"GET" #"/cart" [] [] false.
Definition demo_echo (at' : activeTunnel) (q : TunnelHTTPRequest) : option TunnelHTTPResponse :=
  Some (mkTunnelResp (tq_RequestId q) 200 [] (tq_Path q) false).
Lemma tunnel_reachable_witness :
  tunnel_proxy demo_echo (demo_open #"pod-a" #"t1" empty_cluster).2.1 #"r1" demo_http = mkHttpResp 200 [] #"/cart".
Proof.
  assert (H : (demo_open #"pod-a" #"t1" empty_cluster).1.1 = Ok (demo_active #"t1")) by (vm_compute; reflexivity).
  assert (Ht : host_tail #".svc.cluster.local:8099").
  { exists #".svc.cluster.local", #":8099". split; [reflexivity|]. split; [by apply (bool_decide_unpack _); vm_compute|].
    split; right; eexists; reflexivity. }
  exact (tunnel_reachable (W:=Cluster.t) _ _ demo_echo demo_env demo_reg #"t1" (demo_manager #"pod-a") empty_cluster
    (demo_active #"t1") _ _ _ demo_http #"r1" #".svc.cluster.local:8099" (demo_open_ok _ _ _ H)
    eq_refl Ht eq_refl eq_refl eq_refl ltac:(vm_compute; discriminate)).
Defined.

Definition demo_table : TunnelManager :=
  mkManager {[ #"shop/pr-1" := demo_active #"t1"]} ∅ #"pod-a".
Lemma getActiveTunnel_unique_witness : getActiveTunnel demo_table #"pr-1" = Some (demo_active #"t1").
Proof.
  assert (Hk : forall k a, tm_tunnels demo_table !! k = Some a -> #"shop/pr-1" = k /\ demo_active #"t1" = a)
    by (intros k a; cbn; apply lookup_singleton_Some).
  apply getActiveTunnel_unique.
  - intros k a [<- <-]%Hk. split; [reflexivity|]. repeat constructor.
  - apply (bool_decide_unpack _). vm_compute. exact I.
  - split; [done|]. exists #"shop/pr-1". split; [reflexivity|]. split; [reflexivity|].
    intros k' a' [<- _]%Hk _. reflexivity.
Defined.
