(* ===== verification/TunnelGC.v ===== *)
(** * Garbage collection of tunnels: [internal/server/tunnel_gc.go]

    A loop lists the labelled objects of each namespace and deletes those
    whose expiry is past.  Listing is one more call of the API client.  The
    objects that are kept, those that are collected, and what happens to a
    tunnel that is opened between a listing and its deletions. *)

From S2P Require Import Prelude GoStrings GoTime AuthProvider Authz KubeApi TunnelLease Tunnel.
Local Open Scope Z_scope.

Definition gc_interval : Z := 30 * Second.
(** The label selector [divergedev.com/tunnel=true]. *)
Definition labelled (o : Obj) : Prop := o_labels o !! #"divergedev.com/tunnel" = Some #"true".
#[global] Instance labelled_dec o : Decision (labelled o).
Proof. unfold labelled. apply _. Defined.

(** [List] in a namespace with that selector. *)
Class KubeLister (W : Type) := { api_List : kind -> gostring -> W -> ares (list (gostring * Obj)) * W }.
Class KubeListerLaws (W : Type) {K : KubeClient W} {L : KubeClientLaws W} {KL : KubeLister W} := {
  List_pure : forall kd ns w, snd (api_List kd ns w) = w;
  List_Ok : forall kd ns w l, fst (api_List kd ns w) = Ok l ->
    forall name o, (name, o) ∈ l <-> stored w !! (kd, ns, name) = Some o /\ labelled o }.

(** The instant [n] nanoseconds after the Unix epoch, the unit of a lease. *)
Definition unix_nano (n : Z) : Time := mkTime (n / 10 ^ 9 + unixToInternal) (n mod 10 ^ 9).

Definition past (now : Time) (expires : gostring) : bool :=
  match ParseRFC3339 expires with Some e => After now e | None => false end.
Definition resource_expired (now : Time) (o : Obj) : bool :=
  match o_annotations o !! expires_annotation with Some s => past now s | None => false end.
Definition lease_expired (now : Time) (o : Obj) : bool :=
  match o_annotations o !! expires_annotation with
  | Some s => past now s
  | None =>
      match o_spec o with
      | LeaseSpec _ (Some seconds) _ (Some renewTime) _ => After now (Add (unix_nano renewTime) (seconds * Second))
      | _ => false
      end
  end.

Section Sweep.
Context {W : Type} {K : KubeClient W} {KL : KubeLister W}.
Definition expired_keys (expired : Obj -> bool) (kd : kind) (ns : gostring) (l : list (gostring * Obj)) : list key :=
  map (fun e => (kd, ns, e.1)) (filter (fun e => expired e.2 = true) l).
(** Errors of a deletion are only logged. *)
Definition delete_all (keys : list key) (w : W) : W := fold_left (fun w k => snd (api_Delete k w)) keys w.
(** [false]: the listing failed. *)
Definition sweep_kind (expired : Obj -> bool) (kd : kind) (ns : gostring) (w : W) : bool * W :=
  match api_List kd ns w with
  | (Err _, w) => (false, w)
  | (Ok l, w) => (true, delete_all (expired_keys expired kd ns l) w)
  end.
Definition sweep (now : Time) (namespace : gostring) (w : W) : W :=
  let '(listed, w) := sweep_kind (resource_expired now) KService namespace w in
  if negb listed then w
  else
    let '(listed, w) := sweep_kind (resource_expired now) KEndpointSlice namespace w in
    if negb listed then w
    else
      let '(_, w) := sweep_kind (resource_expired now) KEndpoints namespace w in
      snd (sweep_kind (lease_expired now) KLease namespace w).
(** A tick of [Run]: the namespaces in turn, each with the time its sweep
    starts. *)
Definition Run_tick (namespaces : list (gostring * Time)) (w : W) : W :=
  fold_left (fun w '(ns, now) => sweep now ns w) namespaces w.
End Sweep.

(** What a sweep at [now] takes away. *)
Definition expired_at (now : Time) (kd : kind) (o : Obj) : bool :=
  match kd with KLease => lease_expired now o | _ => resource_expired now o end.
Definition collectable (now : Time) (ns : gostring) (k : key) (o : Obj) : Prop :=
  k.1.2 = ns /\ labelled o /\ expired_at now k.1.1 o = true.
#[global] Instance collectable_dec now ns k o : Decision (collectable now ns k o).
Proof. unfold collectable. apply _. Defined.

Section Facts.
Context {W : Type} {K : KubeClient W} {L : KubeClientLaws W} {KL : KubeLister W} {LL : KubeListerLaws W}.
#[local] Arguments stored : simpl never.

(** Every object of [w] is in [w'] unless it may go; nothing is new. *)
Definition only_drops (may : key -> Obj -> Prop) (w w' : W) : Prop :=
  stored w' ⊆ stored w /\ forall k o, stored w !! k = Some o -> stored w' !! k = Some o \/ may k o.
Lemma only_drops_refl may w : only_drops may w w.
Proof. split; [done|]. by left. Qed.
Lemma only_drops_trans (may : key -> Obj -> Prop) w1 w2 w3 : only_drops may w1 w2 -> only_drops may w2 w3 -> only_drops may w1 w3.
Proof.
  intros [H1 H2] [H3 H4]. split; [by etrans|]. intros k o [H|H]%H2; [|by right]. by apply H4.
Qed.
Lemma delete_drops (may : key -> Obj -> Prop) k w : (forall o, stored w !! k = Some o -> may k o) -> only_drops may w (snd (api_Delete k w)).
Proof.
  intros Hk. destruct (api_Delete k w) as [[[]|e] w1] eqn:E; cbn.
  - apply Delete_Ok in E as [E _]. split; [rewrite E; apply delete_subseteq|]. intros k' o' H. rewrite E.
    destruct (decide (k = k')) as [->|Hne]; [right; by apply Hk|]. left. by rewrite lookup_delete_ne.
  - apply Delete_Err in E as [E _]. split; [by rewrite E|]. intros. left. by rewrite E.
Qed.
Lemma delete_all_drops (may : key -> Obj -> Prop) keys w : (forall k o, k ∈ keys -> stored w !! k = Some o -> may k o) ->
  only_drops may w (delete_all keys w).
Proof.
  revert w. induction keys as [|k keys IH]; intros w Hk; [apply only_drops_refl|]. cbn.
  assert (only_drops may w (snd (api_Delete k w))) as H1 by (apply delete_drops; intros o Ho; apply Hk; [by left|done]).
  eapply only_drops_trans; [exact H1|]. apply IH. intros k' o' Hin Ho. apply Hk; [by right|].
  eapply lookup_weaken; [exact Ho|apply H1].
Qed.
Lemma sweep_kind_drops expired (may : key -> Obj -> Prop) kd ns w :
  (forall name o, labelled o -> expired o = true -> may (kd, ns, name) o) -> only_drops may w (snd (sweep_kind expired kd ns w)).
Proof using LL.
  intros Hmay. unfold sweep_kind. pose proof (List_pure kd ns w) as Hp. pose proof (List_Ok kd ns w) as Hl.
  destruct (api_List kd ns w) as [[l|e] w1]; cbn in *; subst w1; [|apply only_drops_refl].
  apply delete_all_drops. intros k o ([name o'] & -> & [He Hin]%list_elem_of_filter)%list_elem_of_fmap Ho. cbn in *.
  apply (Hl l eq_refl) in Hin as [Ho' Hlab]. assert (o' = o) as -> by congruence. by apply Hmay.
Qed.

Lemma sweep_drops now ns w : only_drops (collectable now ns) w (sweep now ns w).
Proof using LL.
  unfold sweep. assert (forall kd, kd <> KLease -> forall w0, only_drops (collectable now ns) w0 (snd (sweep_kind (resource_expired now) kd ns w0))) as H.
  { intros kd Hkd w0. apply sweep_kind_drops. intros name o Hl He. unfold collectable. cbn. by destruct kd. }
  pose proof (H KService ltac:(done) w) as H1. destruct (sweep_kind _ KService ns w) as [ok w1]. cbn in H1.
  destruct (negb ok); [done|]. eapply only_drops_trans; [exact H1|].
  pose proof (H KEndpointSlice ltac:(done) w1) as H2. destruct (sweep_kind _ KEndpointSlice ns w1) as [ok2 w2]. cbn in H2.
  destruct (negb ok2); [done|]. eapply only_drops_trans; [exact H2|].
  pose proof (H KEndpoints ltac:(done) w2) as H3. destruct (sweep_kind _ KEndpoints ns w2) as [ok3 w3]. cbn in H3.
  eapply only_drops_trans; [exact H3|]. by apply sweep_kind_drops.
Qed.

(** ** A server whose calls do not fail *)
Class KubeReliable : Prop := {
  reliable_List : forall kd ns (w : W), exists l, fst (api_List kd ns w) = Ok l;
  reliable_Get : forall k (w : W) o, stored w !! k = Some o -> fst (api_Get k w) = Ok o;
  reliable_Delete : forall k (w : W), is_Some (stored w !! k) -> fst (api_Delete k w) = Ok tt;
  reliable_Update : forall k o (w : W) cur, stored w !! k = Some cur -> o_version o = o_version cur -> fst (api_Update k o w) = Ok tt }.
Context {R : KubeReliable}.

Lemma delete_gone k (w : W) : stored (snd (api_Delete k w)) !! k = None.
Proof using R.
  destruct (stored w !! k) as [o|] eqn:E.
  - pose proof (reliable_Delete k w (ex_intro _ o E)) as H. destruct (api_Delete k w) as [[[]|e] w1] eqn:Ed; [|done].
    apply Delete_Ok in Ed as [E1 _]. cbn. rewrite E1. apply lookup_delete_eq.
  - pose proof (delete_drops (fun _ _ => True) k w (fun _ _ => I)) as [H _]. by eapply lookup_weaken_None.
Qed.
Lemma delete_all_gone keys (w : W) k : k ∈ keys -> stored (delete_all keys w) !! k = None.
Proof using R.
  revert w. induction keys as [|k' keys IH]; intros w Hin; [by apply not_elem_of_nil in Hin|].
  apply elem_of_cons in Hin as [->|Hk]; cbn; [|by apply IH].
  eapply lookup_weaken_None; [apply delete_gone|]. by apply (delete_all_drops (fun _ _ => True)).
Qed.
Lemma sweep_kind_gone expired kd ns (w : W) : exists w', sweep_kind expired kd ns w = (true, w') /\
  forall name o, stored w !! (kd, ns, name) = Some o -> labelled o -> expired o = true -> stored w' !! (kd, ns, name) = None.
Proof using R LL.
  unfold sweep_kind. pose proof (List_pure kd ns w) as Hp. destruct (reliable_List kd ns w) as [l Hl].
  pose proof (List_Ok kd ns w l Hl) as Hin. destruct (api_List kd ns w) as [r w1]. cbn in *. subst. eexists. split; [done|].
  intros name o Ho Hlab He. apply delete_all_gone. apply list_elem_of_fmap. exists (name, o). split; [done|].
  apply list_elem_of_filter. split; [done|]. by apply Hin.
Qed.

(** What one kind's sweep leaves of an object it may collect. *)
Lemma sweep_kind_step expired kd ns (w : W) k o : stored w !! k = Some o \/ stored w !! k = None ->
  exists w', sweep_kind expired kd ns w = (true, w') /\
    (stored w' !! k = Some o \/ stored w' !! k = None) /\
    (stored w !! k = None -> stored w' !! k = None) /\
    (k.1 = (kd, ns) -> labelled o -> expired o = true -> stored w' !! k = None).
Proof using R LL.
  intros Hk. destruct (sweep_kind_gone expired kd ns w) as (w' & E & Hg). exists w'. split; [done|].
  pose proof (sweep_kind_drops expired (fun _ _ => True) kd ns w (fun _ _ _ _ => I)) as [Hs _]. rewrite E in Hs. cbn in Hs.
  assert (stored w !! k = None -> stored w' !! k = None) as Hn by (intros; by eapply lookup_weaken_None).
  split; [|split; [done|]].
  - destruct (stored w' !! k) as [o'|] eqn:E'; [left|by right]. pose proof (lookup_weaken _ _ _ _ E' Hs) as H. destruct Hk; congruence.
  - destruct k as [kn name]. cbn. intros -> Hl He. destruct Hk as [Hk|Hk]; [|by apply Hn]. by eapply Hg.
Qed.
(** a sweep whose calls succeed removes exactly the labelled objects of
    its namespace that are past their expiry and leaves every other object as
    it was. *)
Theorem sweep_exact now ns (w : W) k o : stored w !! k = Some o ->
  stored (sweep now ns w) !! k = (if decide (collectable now ns k o) then None else Some o).
Proof using R LL.
  intros Ho. case_decide as Hc; [|by destruct (proj2 (sweep_drops now ns w) k o Ho)].
  destruct Hc as (Hns & Hlab & He). unfold sweep.
  destruct (sweep_kind_step (resource_expired now) KService ns w k o) as (w1 & -> & S1 & N1 & H1); [by left|]. cbn [negb].
  destruct (sweep_kind_step (resource_expired now) KEndpointSlice ns w1 k o S1) as (w2 & -> & S2 & N2 & H2). cbn [negb].
  destruct (sweep_kind_step (resource_expired now) KEndpoints ns w2 k o S2) as (w3 & -> & S3 & N3 & H3).
  destruct (sweep_kind_step (lease_expired now) KLease ns w3 k o S3) as (w4 & -> & S4 & N4 & H4). cbn [snd].
  destruct k as [[[] ns'] name]; cbn in *; subst ns'; auto.
Qed.

(** ** A tunnel that is kept alive *)
Lemma refresh_one_stored expires (w : W) k o : stored w !! k = Some o ->
  exists o', admitted (with_annotation expires_annotation expires o) o' /\ stored (refresh_one expires w k) = <[k := o']> (stored w).
Proof using R.
  intros Ho. unfold refresh_one. pose proof (Get_pure k w) as Hp. pose proof (reliable_Get k w o Ho) as Hg.
  destruct (api_Get k w) as [r w1]. cbn in *. subst. pose proof (reliable_Update k (with_annotation expires_annotation expires o) w o Ho eq_refl) as Hu.
  destruct (api_Update k _ w) as [r w1] eqn:E. cbn in *. subst. apply Update_Ok in E as (cur & o' & _ & _ & Ha & _ & _ & E). eauto.
Qed.
Lemma refresh_one_missing expires (w : W) k : stored w !! k = None -> stored (refresh_one expires w k) = stored w.
Proof using R.
  intros Hk. unfold refresh_one. pose proof (Get_pure k w) as Hp. pose proof (Get_Ok k w) as Hg.
  destruct (api_Get k w) as [[o|e] w1]; cbn in *; subst; [|done]. by rewrite (Hg o eq_refl) in Hk.
Qed.
(** What is stored at [k], if anything, expires when [expires] says. *)
Definition dated (expires : gostring) (k : key) (w : W) : Prop :=
  forall o, stored w !! k = Some o -> o_annotations o !! expires_annotation = Some expires.
Lemma refresh_one_dated expires (w : W) k : dated expires k (refresh_one expires w k).
Proof using R.
  intros o'. destruct (stored w !! k) as [o|] eqn:E; [|by rewrite (refresh_one_missing _ _ _ E), E].
  destruct (refresh_one_stored expires w k o E) as (o1 & (_ & Ha & _) & ->). rewrite lookup_insert_eq. intros [= <-].
  rewrite <- Ha. apply lookup_insert_eq.
Qed.
Lemma refresh_one_other expires (w : W) k k' : k <> k' -> stored (refresh_one expires w k) !! k' = stored w !! k'.
Proof using R.
  intros Hne. destruct (stored w !! k) as [o|] eqn:E; [|by rewrite (refresh_one_missing _ _ _ E)].
  destruct (refresh_one_stored expires w k o E) as (o1 & _ & ->). by rewrite lookup_insert_ne.
Qed.
Lemma refresh_one_keeps expires (w : W) k k' : dated expires k w -> dated expires k (refresh_one expires w k').
Proof using R.
  intros H. destruct (decide (k' = k)) as [->|Hne]; [apply refresh_one_dated|]. intros o. rewrite refresh_one_other by done. apply H.
Qed.
Lemma refresh_dated expires reg (w : W) kd : kd <> KLease -> dated expires (resource_key kd reg) (refreshTunnelTTL reg expires w).
Proof using R.
  intros Hkd. unfold refreshTunnelTTL. cbn [fold_left].
  destruct kd; try done; repeat first [apply refresh_one_dated|apply refresh_one_keeps].
Qed.
Lemma refresh_other expires reg (w : W) k : k.1.1 = KLease -> stored (refreshTunnelTTL reg expires w) !! k = stored w !! k.
Proof using R.
  intros Hk. unfold refreshTunnelTTL. cbn [fold_left]. rewrite !refresh_one_other; [done|..]; by intros <-.
Qed.
Lemma Renew_renews now pod ns p id (w w' : W) : Renew now pod ns p id w = (true, w') ->
  exists l l', admitted (renewed now l) l' /\ stored w' = <[lease_key ns p := l']> (stored w).
Proof using R.
  unfold Renew, lease_run. cbn [lease_step]. destruct (api_Get (lease_key ns p) w) as [[ex|e1] w1] eqn:E1; cbn [lease_step]; [|done].
  apply Get_stored in E1 as [-> E1]. case_decide as Eh; cbn [lease_step]; [|done].
  destruct (api_Update (lease_key ns p) _ w) as [[[]|e2] w2] eqn:E2; [|done]. intros [= <-].
  apply Update_Ok in E2 as (cur & o' & _ & _ & Ha & _ & _ & E). eauto.
Qed.
Lemma admitted_renew now l l' h d a r t : admitted (renewed now l) l' -> o_spec l' = LeaseSpec h d a r t -> r = Some now.
Proof.
  intros (_ & _ & H) E. unfold renewed in H. cbn in H. rewrite E in H. destruct (o_spec l); cbn in H; try done.
  by injection H.
Qed.

(** after a heartbeat that went well no sweep up to the written expiry
    deletes the tunnel's Service, EndpointSlice or Endpoints; nor its Lease
    for the sixty seconds of a lease, when it carries no expiry of its own. *)
Theorem live_tunnel_survives now lastPong expires reg at' m (w : W) m' w1 now' e :
  heartbeat_tick now lastPong expires reg at' m w = (true, (m', w1)) ->
  ParseRFC3339 expires = Some e -> After now' e = false ->
  let w2 := sweep now' (reg_Namespace reg) w1 in
  (forall kd, kd <> KLease -> stored w2 !! resource_key kd reg = stored w1 !! resource_key kd reg) /\
  forall l h a r t, stored w1 !! lease_key (reg_Namespace reg) (PreviewId reg) = Some l ->
    o_annotations l !! expires_annotation = None -> o_spec l = LeaseSpec h (Some leaseDuration) a r t ->
    After now' (Add (unix_nano now) (leaseDuration * Second)) = false ->
    stored w2 !! lease_key (reg_Namespace reg) (PreviewId reg) = Some l.
Proof using R LL.
  intros Hh He Hlate. unfold heartbeat_tick in Hh. destruct (_ <? _); [done|].
  destruct (Renew _ _ _ _ _ w) as [[] w0] eqn:Er; [|done]. injection Hh as _ <-. cbv zeta. split.
  - intros kd Hkd. set (w1 := refreshTunnelTTL _ _ _). destruct (stored w1 !! resource_key kd reg) as [o|] eqn:Eo.
    + rewrite (sweep_exact _ _ _ _ _ Eo), decide_False; [done|]. intros (_ & _ & Hx). cbn in Hx.
      assert (resource_expired now' o = true) as Hx' by (by destruct kd). unfold resource_expired in Hx'.
      rewrite (refresh_dated expires reg w0 kd Hkd o Eo) in Hx'. unfold past in Hx'. rewrite He in Hx'. congruence.
    + eapply lookup_weaken_None; [exact Eo|]. apply sweep_drops.
  - intros l h a r t Hl Hann Hspec Hdue. rewrite (sweep_exact _ _ _ _ _ Hl), decide_False; [done|]. intros (_ & _ & Hx). cbn in Hx.
    rewrite refresh_other in Hl by done. apply Renew_renews in Er as (l0 & l' & Ha & Hs). rewrite Hs, lookup_insert_eq in Hl.
    injection Hl as <-. pose proof (admitted_renew _ _ _ _ _ _ _ _ Ha Hspec) as ->.
    unfold lease_expired in Hx. rewrite Hann, Hspec in Hx. congruence.
Qed.
End Facts.

(** ** Executions on a concrete server *)
#[global] Instance cluster_lister : KubeLister Cluster.t := {
  api_List kd ns w :=
    (Ok (map (fun ko => (ko.1.2, ko.2))
       (filter (fun ko => ko.1.1 = (kd, ns) /\ labelled ko.2) (map_to_list (Cluster.objects w)))), w) }.
#[global] Instance cluster_lister_laws : KubeListerLaws Cluster.t.
Proof.
  split; [done|]. intros kd ns w l [= <-] name o. rewrite list_elem_of_fmap. split.
  - intros ([[[kd' ns'] name'] o'] & [= -> ->] & [[[= <- <-] Hl] Hin]%list_elem_of_filter). cbn in *.
    split; [by apply elem_of_map_to_list in Hin|done].
  - intros [Ho Hl]. exists (kd, ns, name, o). split; [done|]. apply list_elem_of_filter. split; [done|]. by apply elem_of_map_to_list.
Qed.
#[global] Instance cluster_reliable : KubeReliable (W := Cluster.t).
Proof.
  split.
  - intros. by eexists.
  - intros k w o Ho. cbn in *. unfold Cluster.get. by rewrite Ho.
  - intros k w [o Ho]. cbn in *. unfold Cluster.del. by rewrite Ho.
  - intros k o w cur Ho Hv. cbn in *. unfold Cluster.update. rewrite Ho. by rewrite decide_True.
Qed.

Module GCDemo.
(** 2026-01-01T00:00:00Z, in nanoseconds since the epoch. *)
Definition noon : Z := 1767225600 * 10 ^ 9.
Definition at_second (n : Z) : Time := unix_nano (noon + n * 10 ^ 9).
Definition env : Env := mkEnv (Some demo_ann) (Ok #"ann") (Err NotFound) #"10.1.2.3" noon #"2026-01-01T00:02:00Z".
Definition opened : Cluster.t := (open_tunnel (fun _ _ => Some true) false env demo_reg #"t1" (demo_manager #"pod-a") empty_cluster).2.2.
Definition beat (w : Cluster.t) : bool * (TunnelManager * Cluster.t) :=
  heartbeat_tick (noon + 60 * 10 ^ 9) (noon + 50 * 10 ^ 9) #"2026-01-01T00:03:00Z" demo_reg (demo_active #"t1") (demo_manager #"pod-a") w.
Definition service : key := resource_key KService demo_reg.
Definition service_in (w : Cluster.t) : option gostring := o ← Cluster.objects w !! service; o_annotations o !! expires_annotation.
(** The developer comes back at ten minutes past. *)
Definition reopened (w : Cluster.t) : result resource_error unit * Cluster.t :=
  createTunnelResources #"pod-b" #"10.1.2.4" demo_reg #"t2" #"2026-01-01T00:12:00Z" w.
Definition listed (w : Cluster.t) : list key :=
  match fst (api_List KService #"shop" w) with
  | Ok l => expired_keys (resource_expired (at_second 600)) KService #"shop" l
  | Err _ => []
  end.
End GCDemo.

Lemma demo_service_expired : exists o, stored GCDemo.opened !! GCDemo.service = Some o /\
  collectable (GCDemo.at_second 121) #"shop" GCDemo.service o.
Proof.
  destruct (stored GCDemo.opened !! GCDemo.service) as [o|] eqn:E; [|vm_compute in E; discriminate E].
  exists o. split; [done|]. split; [done|].
  assert (H : (o ← stored GCDemo.opened !! GCDemo.service; Some (bool_decide (labelled o), resource_expired (GCDemo.at_second 121) o))
              = Some (true, true)) by (vm_compute; reflexivity).
  rewrite E in H. cbn in H. injection H as Hl He. split; [by apply bool_decide_eq_true in Hl|exact He].
Qed.
Lemma sweep_exact_witness : stored (sweep (GCDemo.at_second 121) #"shop" GCDemo.opened) !! GCDemo.service = None.
Proof.
  destruct demo_service_expired as (o & Ho & Hc).
  pose proof (sweep_exact (GCDemo.at_second 121) #"shop" GCDemo.opened GCDemo.service o Ho) as H.
  rewrite decide_True in H by exact Hc. exact H.
Defined.

Lemma demo_beat_ok : GCDemo.beat GCDemo.opened = (true, (GCDemo.beat GCDemo.opened).2) /\
  (GCDemo.beat GCDemo.opened).2.1 = demo_manager #"pod-a".
Proof.
  assert (H : fst (GCDemo.beat GCDemo.opened) = true) by (vm_compute; reflexivity). revert H.
  unfold GCDemo.beat, heartbeat_tick. destruct (_ <? _); [done|]. by destruct (Renew _ _ _ _ _ _) as [[] w].
Qed.
Lemma demo_beat_eta : GCDemo.beat GCDemo.opened = (true, ((GCDemo.beat GCDemo.opened).2.1, (GCDemo.beat GCDemo.opened).2.2)).
Proof. destruct demo_beat_ok as [-> _]. by destruct (GCDemo.beat GCDemo.opened) as [b [m w]]. Qed.
Lemma demo_expiry : ParseRFC3339 #"2026-01-01T00:03:00Z" = Some (GCDemo.at_second 180).
Proof. vm_compute. reflexivity. Qed.
Lemma demo_not_after : After (GCDemo.at_second 180) (GCDemo.at_second 180) = false.
Proof. vm_compute. reflexivity. Qed.
Lemma live_tunnel_survives_witness :
  stored (sweep (GCDemo.at_second 180) #"shop" (GCDemo.beat GCDemo.opened).2.2) !! GCDemo.service =
  stored (GCDemo.beat GCDemo.opened).2.2 !! GCDemo.service.
Proof.
  refine (proj1 (live_tunnel_survives (W := Cluster.t) _ _ _ _ _ _ _ _ _ _ _ demo_beat_eta demo_expiry demo_not_after) KService _).
  discriminate.
Defined.

(** a tunnel that opens again between a sweep's listing and its
    deletions loses its Service: the deletion names the object only, not the
    version that was listed; the fresh object expires in two minutes, and the
    heartbeats, which only update objects they find, never bring it back. *)
Theorem sweep_deletes_reopened_tunnel :
  let keys := GCDemo.listed GCDemo.opened in
  let '(r, w1) := GCDemo.reopened GCDemo.opened in
  r = Ok tt /\ GCDemo.service_in w1 = Some #"2026-01-01T00:12:00Z" /\
  past (GCDemo.at_second 600) #"2026-01-01T00:12:00Z" = false /\
  let w2 := delete_all keys w1 in
  GCDemo.service_in w2 = None /\ GCDemo.service_in (refreshTunnelTTL demo_reg #"2026-01-01T00:12:15Z" w2) = None.
Proof. vm_compute. auto. Qed.
