(* ===== verification/TunnelStream.v ===== *)
(** * Requests and responses on an open tunnel

    The second half of [internal/server/tunnel.go]: the goroutine that
    receives messages from the client and assembles chunked responses, the
    main loop that sends requests, and the callers that wait for a response
    ([forwardToActiveTunnel]).  A step is one critical section or one channel
    operation, so every interleaving of the goroutines is a sequence of
    steps.  Channels are named by numbers; a response channel holds at most
    one response. *)

From S2P Require Import Prelude GoStrings Tunnel.
Local Open Scope Z_scope.

Definition maxChunkBufferSize : Z := 10 * 2 ^ 20.
Definition tunnelReqChBuffer : nat := 10.

Record chunkAssembly := mkAssembly { ca_statusCode : Z; ca_headers : list HeaderEntry; ca_body : gostring }.

(** Messages of the client. *)
Inductive message :=
| HttpResponse (r : TunnelHTTPResponse)
| ResponseChunk (id data : gostring) (isLast : bool)
| Pong
| CloseTunnel.

(** Where the receiving goroutine is between its critical sections. *)
Inductive receiver :=
| Receiving
| Storing (id : gostring) (a : chunkAssembly)       (* the waiter was seen *)
| Looking (id : gostring) (r : TunnelHTTPResponse)  (* assembled, chunkMu released *)
| Sending (ch : nat) (r : TunnelHTTPResponse)       (* the channel was found *)
| Stopped.

Inductive forward_error := CallerCancelled | TunnelDisconnected | QueueFull | ResponseTimeout.
Abbreviation outcome := (result forward_error TunnelHTTPResponse).

(** Where a call of [forwardToActiveTunnel] is. *)
Inductive call_phase :=
| Enqueueing
| Waiting
| DroppingWaiter (o : outcome)
| DroppingChunks (o : outcome)
| Returned (o : outcome).
Record call := mkCall { c_id : gostring; c_req : TunnelHTTPRequest; c_phase : call_phase }.

Record stream := mkStream {
  respWg : gmap gostring nat;
  respChans : gmap nat (option TunnelHTTPResponse);
  chunkBuffer : gmap gostring chunkAssembly;
  reqCh : list TunnelHTTPRequest;
  lastPong : Z;
  calls : gmap nat call;
  recv : receiver }.

Definition new_stream (now : Z) : stream := mkStream ∅ ∅ ∅ [] now ∅ Receiving.

Definition set_recv (r : receiver) (s : stream) : stream :=
  mkStream (respWg s) (respChans s) (chunkBuffer s) (reqCh s) (lastPong s) (calls s) r.
Definition set_chunks (m : gmap gostring chunkAssembly) (s : stream) : stream :=
  mkStream (respWg s) (respChans s) m (reqCh s) (lastPong s) (calls s) (recv s).
Definition set_phase (ch : nat) (c : call) (p : call_phase) (s : stream) : stream :=
  mkStream (respWg s) (respChans s) (chunkBuffer s) (reqCh s) (lastPong s)
    (<[ch := mkCall (c_id c) (c_req c) p]> (calls s)) (recv s).

Definition assembled (id : gostring) (a : chunkAssembly) : TunnelHTTPResponse :=
  mkTunnelResp id (ca_statusCode a) (ca_headers a) (ca_body a) false.

(** The first critical section for a message. *)
Definition receive (msg : message) (now : Z) (s : stream) : stream :=
  match msg with
  | HttpResponse r =>
      match respWg s !! tr_RequestId r with
      | None => s
      | Some ch =>
          if tr_HasMoreChunks r
          then set_recv (Storing (tr_RequestId r) (mkAssembly (tr_StatusCode r) (tr_Headers r) (tr_Body r))) s
          else set_recv (Sending ch r) s
      end
  | ResponseChunk id data isLast =>
      match chunkBuffer s !! id with
      | None => s
      | Some a =>
          let a := mkAssembly (ca_statusCode a) (ca_headers a) (ca_body a ++ data) in
          if maxChunkBufferSize <? Z.of_nat (length (ca_body a)) then set_chunks (delete id (chunkBuffer s)) s
          else if isLast then set_recv (Looking id (assembled id a)) (set_chunks (delete id (chunkBuffer s)) s)
          else set_chunks (<[id := a]> (chunkBuffer s)) s
      end
  | Pong => mkStream (respWg s) (respChans s) (chunkBuffer s) (reqCh s) now (calls s) (recv s)
  | CloseTunnel => set_recv Stopped s
  end.

(** The rest of the handling of a message, section by section. *)
Definition receive_more (s : stream) : stream :=
  match recv s with
  | Storing id a => set_recv Receiving (set_chunks (<[id := a]> (chunkBuffer s)) s)
  | Looking id r =>
      match respWg s !! id with
      | Some ch => set_recv (Sending ch r) s
      | None => set_recv Receiving s
      end
  | Sending ch r =>
      let s := match respChans s !! ch with
               | Some None => mkStream (respWg s) (<[ch := Some r]> (respChans s)) (chunkBuffer s) (reqCh s)
                                (lastPong s) (calls s) (recv s)
               | _ => s
               end in
      set_recv Receiving s
  | Receiving | Stopped => s
  end.

Inductive label :=
| Forward (ch : nat) (req : TunnelHTTPRequest)  (* a call starts, with a new channel *)
| Enqueue (ch : nat)                            (* at.reqCh <- req *)
| GiveUp (ch : nat) (e : forward_error)         (* another case of a select *)
| TakeResponse (ch : nat)                       (* resp := <-respCh *)
| DropWaiter (ch : nat)                         (* the deferred function *)
| DropChunks (ch : nat)
| Receive (msg : message) (now : Z)
| ReceiveMore
| SendRequest.                                  (* the main loop *)

(** [None] when the step is not possible. *)
Definition step (l : label) (s : stream) : option stream :=
  match l with
  | Forward ch req =>
      match respChans s !! ch, calls s !! ch with
      | None, None =>
          Some (mkStream (<[tq_RequestId req := ch]> (respWg s)) (<[ch := None]> (respChans s)) (chunkBuffer s)
                  (reqCh s) (lastPong s) (<[ch := mkCall (tq_RequestId req) req Enqueueing]> (calls s)) (recv s))
      | _, _ => None
      end
  | Enqueue ch =>
      match calls s !! ch with
      | Some (mkCall id req Enqueueing) =>
          if (length (reqCh s) <? tunnelReqChBuffer)%nat then
            Some (mkStream (respWg s) (respChans s) (chunkBuffer s) (reqCh s ++ [req]) (lastPong s)
                    (<[ch := mkCall id req Waiting]> (calls s)) (recv s))
          else None
      | _ => None
      end
  | GiveUp ch e =>
      match calls s !! ch with
      | Some c =>
          match c_phase c, e with
          | Enqueueing, ResponseTimeout | Waiting, QueueFull => None
          | Enqueueing, _ | Waiting, _ => Some (set_phase ch c (DroppingWaiter (Err e)) s)
          | _, _ => None
          end
      | None => None
      end
  | TakeResponse ch =>
      match calls s !! ch, respChans s !! ch with
      | Some (mkCall id req Waiting), Some (Some r) =>
          Some (mkStream (respWg s) (<[ch := None]> (respChans s)) (chunkBuffer s) (reqCh s) (lastPong s)
                  (<[ch := mkCall id req (DroppingWaiter (Ok r))]> (calls s)) (recv s))
      | _, _ => None
      end
  | DropWaiter ch =>
      match calls s !! ch with
      | Some (mkCall id req (DroppingWaiter o)) =>
          Some (mkStream (delete id (respWg s)) (respChans s) (chunkBuffer s) (reqCh s) (lastPong s)
                  (<[ch := mkCall id req (DroppingChunks o)]> (calls s)) (recv s))
      | _ => None
      end
  | DropChunks ch =>
      match calls s !! ch with
      | Some (mkCall id req (DroppingChunks o)) =>
          Some (mkStream (respWg s) (respChans s) (delete id (chunkBuffer s)) (reqCh s) (lastPong s)
                  (<[ch := mkCall id req (Returned o)]> (calls s)) (recv s))
      | _ => None
      end
  | Receive msg now => match recv s with Receiving => Some (receive msg now s) | _ => None end
  | ReceiveMore => match recv s with Receiving | Stopped => None | _ => Some (receive_more s) end
  | SendRequest =>
      match reqCh s with
      | [] => None
      | _ :: rest => Some (mkStream (respWg s) (respChans s) (chunkBuffer s) rest (lastPong s) (calls s) (recv s))
      end
  end.

Fixpoint run (ls : list label) (s : stream) : option stream :=
  match ls with
  | [] => Some s
  | l :: ls => match step l s with Some s' => run ls s' | None => None end
  end.

(** * Responses reach their own request *)
Definition names (r : TunnelHTTPResponse) (id : gostring) : Prop := tr_RequestId r = id.
Definition phase_ok (id : gostring) (p : call_phase) : Prop :=
  match p with
  | DroppingWaiter (Ok r) | DroppingChunks (Ok r) | Returned (Ok r) => names r id
  | _ => True
  end.
Record stream_ok (s : stream) : Prop := {
  so_waiters : forall id ch, respWg s !! id = Some ch -> exists c, calls s !! ch = Some c /\ c_id c = id;
  so_calls : forall ch c, calls s !! ch = Some c -> c_id c = tq_RequestId (c_req c) /\ phase_ok (c_id c) (c_phase c);
  so_chans : forall ch r, respChans s !! ch = Some (Some r) -> exists c, calls s !! ch = Some c /\ names r (c_id c);
  so_recv : match recv s with
            | Looking id r => names r id
            | Sending ch r => exists c, calls s !! ch = Some c /\ names r (c_id c)
            | _ => True
            end;
  so_queue : (length (reqCh s) <= tunnelReqChBuffer)%nat }.

Lemma new_stream_ok now : stream_ok (new_stream now).
Proof. split; cbn; try done; [lia]. Qed.

(** Calls only gain entries and keep their identifiers. *)
Definition keeps_ids (m m' : gmap nat call) : Prop :=
  forall ch c, m !! ch = Some c -> exists c', m' !! ch = Some c' /\ c_id c' = c_id c.
Lemma keeps_ids_refl m : keeps_ids m m.
Proof. intros ch c H. by exists c. Qed.
Lemma keeps_ids_insert m ch c : (forall c0, m !! ch = Some c0 -> c_id c = c_id c0) -> keeps_ids m (<[ch := c]> m).
Proof.
  intros H ch' c' Hc. destruct (decide (ch = ch')) as [<-|Hne].
  - exists c. rewrite lookup_insert_eq. split; [done|]. by apply H.
  - exists c'. by rewrite lookup_insert_ne.
Qed.

(** A step that changes the calls keeps what refers to them. *)
Lemma ok_calls s m :
  stream_ok s -> keeps_ids (calls s) m ->
  (forall ch c, m !! ch = Some c -> c_id c = tq_RequestId (c_req c) /\ phase_ok (c_id c) (c_phase c)) ->
  stream_ok (mkStream (respWg s) (respChans s) (chunkBuffer s) (reqCh s) (lastPong s) m (recv s)).
Proof.
  intros [H1 H2 H3 H4 H5] Hk Hm. split; cbn; [|done| |destruct (recv s); try done|done].
  - intros id ch (c & Hc & Hid)%H1. destruct (Hk _ _ Hc) as (c' & ? & ?). exists c'. split; [done|congruence].
  - intros ch r (c & Hc & Hn)%H3. destruct (Hk _ _ Hc) as (c' & ? & Heq). exists c'. by rewrite Heq.
  - destruct H4 as (c & Hc & Hn). destruct (Hk _ _ Hc) as (c' & ? & Heq). exists c'. by rewrite Heq.
Qed.
Lemma ok_phase s ch c p : stream_ok s -> calls s !! ch = Some c -> phase_ok (c_id c) p ->
  stream_ok (set_phase ch c p s).
Proof.
  intros Hs Hc Hp. apply ok_calls; [done| |].
  - apply keeps_ids_insert. intros c0 Hc0. cbn. congruence.
  - intros ch' c'. rewrite lookup_insert. case_decide; [|apply (so_calls _ Hs)]. intros [= <-]. cbn.
    split; [|done]. by apply (so_calls _ Hs) in Hc as [? _].
Qed.
(** Fewer waiters, any chunks, another queue. *)
Lemma ok_other s wg chunks q pong :
  stream_ok s -> (forall id ch, wg !! id = Some ch -> respWg s !! id = Some ch) ->
  (length q <= tunnelReqChBuffer)%nat ->
  stream_ok (mkStream wg (respChans s) chunks q pong (calls s) (recv s)).
Proof. intros [H1 H2 H3 H4 H5] Hw Hq. split; cbn; try done. intros id ch ?%Hw. by apply H1. Qed.
Lemma ok_recv s r : stream_ok s ->
  match r with
  | Looking id r => names r id
  | Sending ch r => exists c, calls s !! ch = Some c /\ names r (c_id c)
  | _ => True
  end -> stream_ok (set_recv r s).
Proof. intros [H1 H2 H3 H4 H5] Hr. by split. Qed.
Lemma ok_chan s ch o : stream_ok s ->
  (forall r, o = Some r -> exists c, calls s !! ch = Some c /\ names r (c_id c)) ->
  stream_ok (mkStream (respWg s) (<[ch := o]> (respChans s)) (chunkBuffer s) (reqCh s) (lastPong s) (calls s) (recv s)).
Proof.
  intros [H1 H2 H3 H4 H5] Ho. split; cbn; try done. intros ch' r. rewrite lookup_insert.
  case_decide as E; [|apply H3]. intros [= ->]. subst. by apply Ho.
Qed.

Lemma receive_ok msg now s : stream_ok s -> stream_ok (receive msg now s).
Proof.
  intros Hs. destruct msg as [r|id data isLast| |]; cbn [receive].
  - destruct (respWg s !! tr_RequestId r) as [ch|] eqn:E; [|done].
    destruct (tr_HasMoreChunks r); apply ok_recv; try done.
    apply (so_waiters _ Hs) in E as (c & Hc & Hid). by exists c.
  - destruct (chunkBuffer s !! id) as [a|]; [|done].
    assert (forall m, stream_ok (set_chunks m s)) as Hc by (intros m; apply ok_other; [done|done|apply Hs]).
    repeat case_match; try apply Hc. by apply ok_recv.
  - apply ok_other; [done|done|apply Hs].
  - by apply ok_recv.
Qed.
Lemma receive_more_ok s : stream_ok s -> stream_ok (receive_more s).
Proof.
  intros Hs. unfold receive_more. pose proof (so_recv _ Hs) as Hr. destruct (recv s) as [|id a|id r|ch r|] eqn:Er; try done.
  - apply ok_recv; [|done]. apply ok_other; [done|done|apply Hs].
  - destruct (respWg s !! id) as [ch|] eqn:E; apply ok_recv; try done.
    apply (so_waiters _ Hs) in E as (c & Hc & Hid). exists c. split; [done|]. by rewrite Hid.
  - apply ok_recv; [|done]. destruct (respChans s !! ch) as [[?|]|]; try done.
    rewrite <-Er. apply ok_chan; [done|]. by intros r' [= <-].
Qed.

Lemma stream_step_ok l s s' : step l s = Some s' -> stream_ok s -> stream_ok s'.
Proof.
  intros H Hs. destruct l as [ch req|ch|ch e|ch|ch|ch|msg now| |]; cbn [step] in H.
  - destruct (respChans s !! ch) eqn:E1; [done|]. destruct (calls s !! ch) eqn:E2; [done|]. injection H as <-.
    assert (stream_ok (mkStream (respWg s) (respChans s) (chunkBuffer s) (reqCh s) (lastPong s)
      (<[ch := mkCall (tq_RequestId req) req Enqueueing]> (calls s)) (recv s))) as H1.
    { apply ok_calls; [done|apply keeps_ids_insert; congruence|]. intros ch' c'. rewrite lookup_insert.
      case_decide; [by intros [= <-]|apply (so_calls _ Hs)]. }
    apply (ok_chan _ ch None) in H1; [|done]. destruct H1 as [A1 A2 A3 A4 A5]. split; try done.
    cbn in *. intros id ch'. rewrite lookup_insert. case_decide as E; [|apply A1]. intros [= <-]. subst id.
    eexists. by rewrite lookup_insert_eq.
  - destruct (calls s !! ch) as [[id req []]|] eqn:E; try done.
    destruct (_ <? _)%nat eqn:El; [|done]. injection H as <-. bool_simpl.
    apply (ok_phase s ch _ Waiting) in E; [|done..]. cbn in E.
    apply (ok_other _ (respWg s) (chunkBuffer s) (reqCh s ++ [req]) (lastPong s)) in E; [done|done|].
    rewrite length_app. cbn. lia.
  - destruct (calls s !! ch) as [c|] eqn:E; [|done].
    assert (stream_ok (set_phase ch c (DroppingWaiter (Err e)) s)) as H1 by (by apply ok_phase).
    repeat case_match; try done; by injection H as <-.
  - destruct (calls s !! ch) as [[id req []]|] eqn:E; try done.
    destruct (respChans s !! ch) as [[r|]|] eqn:Er; try done. injection H as <-.
    apply (so_chans _ Hs) in Er as (c & Hc & Hn). rewrite Hc in E. injection E as ->.
    apply (ok_phase _ _ _ (DroppingWaiter (Ok r))) in Hc; [|done..].
    by apply (ok_chan _ ch None) in Hc.
  - destruct (calls s !! ch) as [[id req []]|] eqn:E; try done. injection H as <-.
    pose proof (proj2 (so_calls _ Hs _ _ E)) as Hp. apply (ok_phase _ _ _ (DroppingChunks o)) in E; [|done..].
    apply (ok_other _ (delete id (respWg s)) (chunkBuffer s) (reqCh s) (lastPong s)) in E; [done| |apply Hs].
    by intros ? ? [_ ?]%lookup_delete_Some.
  - destruct (calls s !! ch) as [[id req []]|] eqn:E; try done. injection H as <-.
    pose proof (proj2 (so_calls _ Hs _ _ E)) as Hp. apply (ok_phase _ _ _ (Returned o)) in E; [|done..].
    apply (ok_other _ (respWg s) (delete id (chunkBuffer s)) (reqCh s) (lastPong s)) in E; [done|done|apply Hs].
  - destruct (recv s); try done. injection H as <-. by apply receive_ok.
  - destruct (recv s) eqn:E; try done; injection H as <-; by apply receive_more_ok.
  - destruct (reqCh s) as [|q rest] eqn:E; [done|]. injection H as <-.
    apply ok_other; [done|done|]. pose proof (so_queue _ Hs) as Hq. rewrite E in Hq. cbn in Hq. lia.
Qed.
Lemma stream_run_ok ls : forall s s', run ls s = Some s' -> stream_ok s -> stream_ok s'.
Proof.
  induction ls as [|l ls IH]; intros s s'; cbn [run]; [by intros [= <-]|].
  destruct (step l s) as [s1|] eqn:E; [|done]. intros H Hs. eapply IH; [done|]. by eapply stream_step_ok.
Qed.

(** whatever the interleaving of callers, deferred clean-ups and incoming
    messages, a call that returns a response returns one that names its own
    request, and at most ten requests are queued. *)
Theorem no_cross_delivery ls now s ch c r :
  run ls (new_stream now) = Some s -> calls s !! ch = Some c -> c_phase c = Returned (Ok r) ->
  tr_RequestId r = tq_RequestId (c_req c) /\ (length (reqCh s) <= 10)%nat.
Proof.
  intros Hr Hc Hp. apply stream_run_ok in Hr; [|apply new_stream_ok]. destruct (so_calls _ Hr _ _ Hc) as [<- Hn].
  rewrite Hp in Hn. split; [done|apply Hr].
Qed.

(** * Chunked responses are put together *)
(** A message handled to its end, without interruption. *)
Definition handle (s : stream) (m : message * Z) : stream := receive_more (receive_more (receive m.1 m.2 s)).
Definition handle_all (ms : list (message * Z)) (s : stream) : stream := fold_left handle ms s.

Definition about_other (id : gostring) (m : message) : Prop :=
  match m with
  | HttpResponse r => tr_RequestId r <> id
  | ResponseChunk id' _ _ => id' <> id
  | Pong => True
  | CloseTunnel => False
  end.
(** A chunk of [id], not the last, or something else. *)
Definition mid_message (id : gostring) (m : message) : Prop :=
  about_other id m \/ exists d, m = ResponseChunk id d false.
(** The data of the chunks of [id]. *)
Definition chunk_data (id : gostring) (ms : list (message * Z)) : gostring :=
  ms ≫= fun m => match m.1 with ResponseChunk id' d _ => if decide (id' = id) then d else [] | _ => [] end.

Record expecting (id : gostring) (ch : nat) (s : stream) : Prop := {
  ex_ok : stream_ok s;
  ex_recv : recv s = Receiving;
  ex_wg : respWg s !! id = Some ch;
  ex_chan : respChans s !! ch = Some None }.

Lemma receive_more_idle s : recv s = Receiving -> receive_more (receive_more s) = s.
Proof. intros H. unfold receive_more at 2. rewrite H. unfold receive_more. by rewrite H. Qed.
Lemma handle_other id ch s m : expecting id ch s -> about_other id m.1 ->
  expecting id ch (handle s m) /\ chunkBuffer (handle s m) !! id = chunkBuffer s !! id.
Proof.
  intros [Hok Hr Hw Hc] Ho.
  assert (stream_ok (handle s m)) as Hok' by (by apply receive_more_ok, receive_more_ok, receive_ok).
  assert (forall id' ch', id' <> id -> respWg s !! id' = Some ch' -> ch' <> ch) as Hinj.
  { intros id' ch' Hne (c & Hc1 & Hid)%(so_waiters _ Hok) ->.
    apply (so_waiters _ Hok) in Hw as (c2 & Hc2 & Hid2). congruence. }
  assert (recv (handle s m) = Receiving /\ respWg (handle s m) = respWg s /\
    respChans (handle s m) !! ch = Some None /\ chunkBuffer (handle s m) !! id = chunkBuffer s !! id) as (H1 & H2 & H3 & H4).
  { unfold handle. destruct m as [[r|id' d l| |] now]; cbn [fst snd about_other receive] in *; [| | |done].
    - destruct (respWg s !! tr_RequestId r) as [c'|] eqn:E.
      + destruct (tr_HasMoreChunks r); cbn.
        * by rewrite lookup_insert_ne.
        * destruct (respChans s !! c') as [[?|]|]; cbn; try done.
          rewrite lookup_insert_ne; [done|]. by eapply Hinj.
      + by rewrite receive_more_idle.
    - destruct (chunkBuffer s !! id') as [a|] eqn:E; [|by rewrite receive_more_idle].
      destruct (_ <? _); [rewrite receive_more_idle by done; cbn; by rewrite lookup_delete_ne|].
      destruct l; [|rewrite receive_more_idle by done; cbn; by rewrite lookup_insert_ne].
      cbn. destruct (respWg s !! id') as [c'|] eqn:E2; cbn; [|by rewrite lookup_delete_ne].
      destruct (respChans s !! c') as [[?|]|]; cbn; rewrite ?lookup_delete_ne by done; try done.
      rewrite lookup_insert_ne; [done|]. by eapply Hinj.
    - by rewrite receive_more_idle. }
  split; [|done]. split; [done|done|by rewrite H2|done].
Qed.

Lemma handle_chunk id ch s a d now :
  expecting id ch s -> chunkBuffer s !! id = Some a ->
  Z.of_nat (length (ca_body a ++ d)) <= maxChunkBufferSize ->
  let s' := handle s (ResponseChunk id d false, now) in
  expecting id ch s' /\ chunkBuffer s' !! id = Some (mkAssembly (ca_statusCode a) (ca_headers a) (ca_body a ++ d)).
Proof.
  intros [Hok Hr Hw Hc] Ha Hlen. unfold handle. cbn [fst snd receive ca_body].
  rewrite Ha, (proj2 (Z.ltb_ge _ _) Hlen). rewrite receive_more_idle by done. cbn.
  split; [|by rewrite lookup_insert_eq]. split; [|done..]. apply ok_other; [done|done|apply Hok].
Qed.

Lemma handle_mid id ch ms : forall s a,
  expecting id ch s -> chunkBuffer s !! id = Some a -> Forall (fun m => mid_message id m.1) ms ->
  Z.of_nat (length (ca_body a ++ chunk_data id ms)) <= maxChunkBufferSize ->
  let s' := handle_all ms s in
  expecting id ch s' /\
  chunkBuffer s' !! id = Some (mkAssembly (ca_statusCode a) (ca_headers a) (ca_body a ++ chunk_data id ms)).
Proof.
  induction ms as [|[m now] ms IH]; intros s a He Ha Hall Hlen; cbn [handle_all fold_left].
  { rewrite app_nil_r. by destruct a. }
  apply Forall_cons in Hall as [Hm Hall]. cbn [fst] in Hm. fold (handle_all ms (handle s (m, now))).
  assert (chunk_data id ((m, now) :: ms) =
    (match m with ResponseChunk id' d _ => if decide (id' = id) then d else [] | _ => [] end) ++ chunk_data id ms) as Hcd
    by done.
  destruct Hm as [Ho|[d ->]].
  - destruct (handle_other id ch s (m, now) He Ho) as [He' Ha'].
    assert (chunk_data id ((m, now) :: ms) = chunk_data id ms) as Heq.
    { rewrite Hcd. destruct m; cbn in *; try done. by rewrite decide_False. }
    rewrite Heq in *. apply IH; [done|by rewrite Ha'|done|done].
  - rewrite decide_True in Hcd by done. rewrite Hcd in *. rewrite app_assoc in Hlen.
    destruct (handle_chunk id ch s a d now He Ha) as [He' Ha'].
    { rewrite length_app in Hlen. lia. }
    destruct (IH _ _ He' Ha' Hall) as [H1 H2]; [done|]. split; [done|]. rewrite H2. cbn. by rewrite app_assoc.
Qed.

(** a chunked response within the size limit arrives whole: whatever
    messages for other requests come in between, the waiter gets one response
    with the status and headers of the first message and the bodies of all
    its chunks in order. *)
Theorem chunks_assembled s ch r now ms d now' :
  let id := tr_RequestId r in
  expecting id ch s -> tr_HasMoreChunks r = true -> Forall (fun m => mid_message id m.1) ms ->
  Z.of_nat (length (tr_Body r ++ chunk_data id ms ++ d)) <= maxChunkBufferSize ->
  respChans (handle_all ((HttpResponse r, now) :: ms ++ [(ResponseChunk id d true, now')]) s) !! ch =
  Some (Some (mkTunnelResp id (tr_StatusCode r) (tr_Headers r) (tr_Body r ++ chunk_data id ms ++ d) false)).
Proof.
  intros id He Hmore Hms Hlen. unfold handle_all. cbn [fold_left]. rewrite fold_left_app. cbn [fold_left].
  set (s1 := handle s (HttpResponse r, now)).
  assert (expecting id ch s1 /\
    chunkBuffer s1 !! id = Some (mkAssembly (tr_StatusCode r) (tr_Headers r) (tr_Body r))) as [He1 Ha1].
  { destruct He as [Hok Hr Hw Hc]. unfold s1, handle. cbn [fst snd receive]. fold id. rewrite Hw, Hmore. cbn.
    split; [|by rewrite lookup_insert_eq]. split; [|done..]. cbn.
    by apply (ok_recv (set_chunks _ s) Receiving), I; apply ok_other; [done|done|apply Hok]. }
  destruct (handle_mid id ch ms s1 _ He1 Ha1 Hms) as [He2 Ha2].
  { rewrite app_assoc, length_app in Hlen. cbn [ca_body]. lia. }
  cbn [ca_body ca_statusCode ca_headers] in Ha2. fold (handle_all ms s1).
  destruct He2 as [_ Hr2 Hw2 Hc2]. unfold handle. cbn [fst snd receive]. rewrite Ha2. cbn [ca_body].
  rewrite app_assoc in Hlen. rewrite (proj2 (Z.ltb_ge _ _) Hlen). unfold receive_more at 2. cbn. rewrite Hw2.
  cbn. rewrite Hc2. cbn. rewrite lookup_insert_eq. unfold assembled. cbn. by rewrite <-app_assoc.
Qed.

(** ** Witnesses *)
Definition demo_request (id : gostring) : TunnelHTTPRequest := mkTunnelReq id #"GET" #"/" [] [].
Definition demo_part (id body : gostring) (more : bool) : TunnelHTTPResponse := mkTunnelResp id 200 [] body more.
Definition demo_labels : list label :=
  [Forward 1 (demo_request #"a"); Enqueue 1; SendRequest; Forward 2 (demo_request #"b")].
Definition demo_waiting : stream := default (new_stream 0) (run demo_labels (new_stream 0)).

Definition demo_delivery : list label :=
  [Forward 1 (demo_request #"a"); Enqueue 1; SendRequest; Receive (HttpResponse (demo_part #"a" #"hi" false)) 5;
   ReceiveMore; TakeResponse 1; DropWaiter 1; DropChunks 1].
Definition demo_done : stream := default (new_stream 0) (run demo_delivery (new_stream 0)).
Lemma run_demo_delivery : run demo_delivery (new_stream 0) = Some demo_done.
Proof. vm_compute. reflexivity. Qed.
Definition demo_call : call := mkCall #"a" (demo_request #"a") (Returned (Ok (demo_part #"a" #"hi" false))).
Lemma demo_call_done : calls demo_done !! 1%nat = Some demo_call.
Proof. vm_compute. reflexivity. Qed.

Lemma no_cross_delivery_witness :
  c_phase demo_call = Returned (Ok (demo_part #"a" #"hi" false)) /\
  tr_RequestId (demo_part #"a" #"hi" false) = tq_RequestId (c_req demo_call).
Proof.
  split; [reflexivity|].
  exact (proj1 (no_cross_delivery demo_delivery 0 demo_done 1 demo_call _ run_demo_delivery demo_call_done eq_refl)).
Defined.

Lemma chunks_assembled_witness :
  respChans (handle_all [(HttpResponse (demo_part #"a" #"he" true), 1); (HttpResponse (demo_part #"b" #"x" false), 2);
    (ResponseChunk #"a" #"ll" false, 3); (ResponseChunk #"a" #"o" true, 4)] demo_waiting) !! 1%nat =
  Some (Some (mkTunnelResp #"a" 200 [] #"hello" false)).
Proof.
  apply (chunks_assembled demo_waiting 1%nat (demo_part #"a" #"he" true) 1
    [(HttpResponse (demo_part #"b" #"x" false), 2); (ResponseChunk #"a" #"ll" false, 3)] #"o" 4).
  - split; [|reflexivity..]. apply (stream_run_ok demo_labels (new_stream 0)); [reflexivity|apply new_stream_ok].
  - reflexivity.
  - constructor; [left; cbn; by vm_compute|]. constructor; [right; eexists; reflexivity|constructor].
  - vm_compute. discriminate.
Defined.
