(* ===== verification/Replay.v ===== *)
(** * Replayed responses: content types and framing

    The first half of [pkg/replay/diff.go]: what a content type says, and the
    5-byte length-prefixed frames of gRPC, Connect and gRPC-Web, with their
    trailer frames.  Errors keep the facts their text is made of. *)

From S2P Require Import Prelude GoStrings GoJSON GoSort GoQuote.
Local Open Scope Z_scope.

(** ** Content types *)
Section MediaType.
Context {U : GoUnicode}.

Definition normalizeMediaType (contentType : gostring) : gostring :=
  let raw := ToLower (TrimSpace contentType) in
  match IndexByte raw ";"%char with
  | Some idx => TrimSpace (take idx raw)
  | None => raw
  end.

Definition proto_media_types : list gostring :=
  [ #"application/proto"; #"application/x-protobuf"; #"application/protobuf";
    #"application/vnd.google.protobuf"; #"application/grpc"; #"application/grpc+proto";
    #"application/grpc-web"; #"application/grpc-web+proto"; #"application/connect+proto"].
Definition IsProtobufContentType (contentType : gostring) : bool :=
  let mediaType := normalizeMediaType contentType in
  bool_decide (mediaType ∈ proto_media_types) || (HasSuffix mediaType #"+proto" || HasSuffix mediaType #"+protobuf").

Definition IsFramedProtoContentType (contentType : gostring) : bool :=
  bool_decide (normalizeMediaType contentType ∈
    [ #"application/grpc"; #"application/grpc+proto"; #"application/grpc-web"; #"application/grpc-web+proto";
      #"application/connect+proto"]).

Definition IsJSONContentType (contentType : gostring) : bool :=
  let mediaType := normalizeMediaType contentType in
  if str_eqb mediaType #"application/json" || str_eqb mediaType #"text/json" then true
  else HasSuffix mediaType #"+json".

Definition IsFramedJSONContentType (contentType : gostring) : bool :=
  bool_decide (normalizeMediaType contentType ∈
    [ #"application/connect+json"; #"application/grpc-web+json"; #"application/grpc+json"]).

Definition isExplicitTextContentType (contentType : gostring) : bool :=
  let mediaType := normalizeMediaType contentType in
  HasPrefix mediaType #"text/" && negb (str_eqb mediaType #"text/json").
End MediaType.

(** ** Frames *)
(** [binary.BigEndian.Uint32] *)
Definition big_endian (l : gostring) : Z := fold_left (fun acc c => acc * 256 + byteval c) l 0.

Inductive frame_error :=
| TruncatedHeader (remaining : nat)
| TruncatedPayload (expected : Z) (got : nat)
| Compressed (flags : Z)
| BadEndStream.

(** A frame: its flags, its payload and what follows. *)
Definition next_frame (buf : gostring) : result frame_error (Z * gostring * gostring) :=
  match buf with
  | f :: a :: b :: c :: d :: rest =>
      let frameLen := big_endian [a; b; c; d] in
      if Z.of_nat (length rest) <? frameLen then Err (TruncatedPayload frameLen (length rest))
      else Ok (byteval f, take (Z.to_nat frameLen) rest, drop (Z.to_nat frameLen) rest)
  | _ => Err (TruncatedHeader (length buf))
  end.

(** [hasValidEnvelopeFrameSequence]; each turn of the loop consumes at least
    five bytes. *)
Fixpoint valid_frames (fuel : nat) (first : bool) (buf : gostring) : bool :=
  match buf with
  | [] => negb first
  | _ =>
      match fuel with
      | O => false
      | S fuel =>
          match buf with
          | f :: a :: b :: c :: d :: rest =>
              if bool_decide (byteval f ∈ [0; 2; 128]) then
                let frameLen := big_endian [a; b; c; d] in
                if Z.of_nat (length rest) <? frameLen then false
                else if first && (byteval f =? 0) && (frameLen =? 0) && negb (bool_decide (rest = [])) then false
                else valid_frames fuel false (drop (Z.to_nat frameLen) rest)
              else false
          | _ => false
          end
      end
  end.
Definition hasValidEnvelopeFrameSequence (raw : gostring) : bool :=
  if (length raw <? 5)%nat then false
  else valid_frames (length raw) true raw && (0 <? big_endian (take 4 (drop 1 raw))).

(** ** Trailer frames *)
(** [json.Unmarshal] into the [endStream] struct: [Ok None] without an error
    member.  A later [error] object refines the struct an earlier one
    allocated; null forgets it. *)
Definition decode_error_object (prev : option (gostring * gostring)) (v : json) : option (option (gostring * gostring)) :=
  match v with
  | JNull => Some None
  | JObject l =>
      let fields := [ #"code"; #"message"] in
      let step (name : gostring) (start : gostring) :=
        fold_left (fun acc kv =>
          s ← acc;
          if decide (field_of fields kv.1 = Some name) then
            match kv.2 with JString t => Some t | JNull => Some s | _ => None end
          else Some s) l (Some start) in
      let '(c0, m0) := default ([], []) prev in
      c ← step #"code" c0; m ← step #"message" m0; Some (Some (c, m))
  | _ => None
  end.
Definition decode_end_stream (payload : gostring) : option (option (gostring * gostring)) :=
  j ← parse_document payload;
  match j with
  | JNull => Some None
  | JObject l =>
      fold_left (fun acc kv =>
        prev ← acc;
        if decide (field_of [ #"error"] kv.1 = Some #"error") then decode_error_object prev kv.2 else Some prev)
        l (Some None)
  | _ => None
  end.

Section Trailer.
Context {U : GoUnicode}.

(** The grpc-status lines of a gRPC-Web trailer. *)
Fixpoint grpc_status (lines : list gostring) : gostring :=
  match lines with
  | [] => #"ok"
  | line :: lines =>
      let line := TrimSpace (TrimSuffix line ["013"%char]) in
      if str_eqb line [] then grpc_status lines
      else
        match Cut line ":"%char with
        | Some (k, v) =>
            let val := TrimSpace v in
            if EqualFold (TrimSpace k) #"grpc-status" && negb (str_eqb val []) && negb (str_eqb val #"0")
            then #"grpc-status:" ++ val
            else grpc_status lines
        | None => grpc_status lines
        end
  end.

Definition parseTrailerFrameStatus (flags : Z) (payload : gostring) : result frame_error gostring :=
  let trimmed := TrimSpace payload in
  if str_eqb trimmed [] then Ok #"ok"
  else if negb (Z.land flags 2 =? 0) then
    match decode_end_stream trimmed with
    | None => Err BadEndStream
    | Some None => Ok #"ok"
    | Some (Some (code, message)) =>
        let code := TrimSpace code in
        let msg := TrimSpace message in
        Ok (if negb (str_eqb code []) && negb (str_eqb msg [])
            then #"connect-error:" ++ code ++ #" (" ++ msg ++ #")"
            else if negb (str_eqb code []) then #"connect-error:" ++ code
            else if negb (str_eqb msg []) then #"connect-error:" ++ msg
            else #"connect-error")
    end
  else if negb (Z.land flags 128 =? 0) then Ok (grpc_status (Split trimmed "010"%char))
  else Ok #"ok".

(** The loop of [unwrapEnvelopeFrames] and [unwrapJSONEnvelopeFrames]: the
    payloads of the message frames and the last trailer status that is not
    "ok". *)
Fixpoint unwrap_frames (fuel : nat) (buf : gostring) (frames : list gostring) (status : gostring)
    : result frame_error (list gostring * gostring) :=
  match buf with
  | [] => Ok (frames, status)
  | _ =>
      match fuel with
      | O => Err (TruncatedHeader (length buf))
      | S fuel =>
          match next_frame buf with
          | Err e => Err e
          | Ok (flags, payload, rest) =>
              if negb (Z.land flags 1 =? 0) then Err (Compressed flags)
              else if negb (Z.land flags 130 =? 0) then
                match parseTrailerFrameStatus flags payload with
                | Err e => Err e
                | Ok s => unwrap_frames fuel rest frames (if str_eqb s #"ok" then status else s)
                end
              else unwrap_frames fuel rest (frames ++ [payload]) status
          end
      end
  end.
Definition unwrapJSONEnvelopeFrames (raw : gostring) : result frame_error (list gostring * gostring) :=
  unwrap_frames (length raw) raw [] #"ok".
Definition unwrapEnvelopeFrames (contentType raw : gostring) : result frame_error (gostring * gostring) :=
  match raw with
  | [] => Ok ([], #"ok")
  | _ =>
      if IsFramedProtoContentType contentType || hasValidEnvelopeFrameSequence raw then
        '(frames, status) ← unwrap_frames (length raw) raw [] #"ok"; Ok (concat frames, status)
      else Ok (raw, #"ok")
  end.
Definition UnwrapProtoEnvelope (contentType raw : gostring) : result frame_error gostring :=
  '(payload, _) ← unwrapEnvelopeFrames contentType raw; Ok payload.
End Trailer.

(** * Comparing replayed responses: [pkg/replay/diff.go]

    The contract comparison of JSON payloads, of schema-less Protobuf
    payloads, and the choice between them.  [protowire] and the reflection
    API of Protobuf are third party: the first is the class [ProtoWire], a
    schema-aware comparison an argument.  [wire_json_error] stands for the
    text of an [encoding/json] error. *)

Record ContractDiff := mkDiff {
  Path : gostring; Kind : gostring; Baseline : gostring; Preview : gostring; Breaking : bool }.
#[global] Instance ContractDiff_eq_dec : EqDecision ContractDiff.
Proof. solve_decision. Defined.

Record DiffOptions := mkOptions {
  CompareValues : bool; FailOnExtraFields : bool; IgnoreFields : list gostring; ProtoMessage : gostring }.

Definition shouldIgnoreField (path : gostring) (ignoreList : list gostring) : bool :=
  existsb (fun rawIgnore =>
    let ig := TrimSpace rawIgnore in
    negb (str_eqb ig []) && (str_eqb path ig || HasSuffix path (#"." ++ ig))) ignoreList.
Definition truncateSample (s : gostring) (maxLen : nat) : gostring :=
  if (length s <=? maxLen)%nat then s else take maxLen s ++ #"...".

(** ** JSON values

    A decoded value is a [json] whose objects have each key once: Go maps,
    whose order never matters below. *)
Fixpoint set_member (k : gostring) (v : json) (l : list (gostring * json)) : list (gostring * json) :=
  match l with
  | [] => [(k, v)]
  | (k', v') :: l => if decide (k = k') then (k, v) :: l else (k', v') :: set_member k v l
  end.
Fixpoint member (k : gostring) (l : list (gostring * json)) : option json :=
  match l with
  | [] => None
  | (k', v') :: l => if decide (k = k') then Some v' else member k l
  end.
(** Decoding into [any]: a repeated key overwrites. *)
Fixpoint to_value (j : json) : json :=
  match j with
  | JArray l => JArray (map to_value l)
  | JObject l => JObject (fold_left (fun m kv => set_member kv.1 kv.2 m) (map (fun kv => (kv.1, to_value kv.2)) l) [])
  | _ => j
  end.

Inductive json_error :=
| JsonSyntax (data : gostring)
| TrailingData
| InvalidTrailing (data : gostring).

(** [decodeSingleJSONValue]: the value, even with an error when something
    follows it. *)
Definition decodeSingleJSONValue (data : gostring) : option json * option json_error :=
  match parse_prefix data with
  | None => (None, Some (JsonSyntax data))
  | Some (v, rest) =>
      (Some (to_value v),
       match skip_ws rest with
       | [] => None
       | _ => match parse_prefix rest with
              | Some _ => Some TrailingData
              | None => Some (InvalidTrailing rest)
              end
       end)
  end.

Definition describeJSONType (v : json) : gostring :=
  match v with
  | JNull => #"null" | JObject _ => #"object" | JArray _ => #"array" | JString _ => #"string"
  | JNumber _ => #"number" | JBool _ => #"boolean"
  end.
(** Of a value that may be missing: nil is "null". *)
Definition describe (v : option json) : gostring := describeJSONType (default JNull v).

Definition len_text (n : nat) : gostring := #"len=" ++ FormatUint (Z.of_nat n).
Definition count_text (n : nat) : gostring := #"count=" ++ FormatUint (Z.of_nat n).
Definition indexed (path : gostring) (i : nat) : gostring := path ++ #"[" ++ FormatUint (Z.of_nat i) ++ #"]".

Section JSON.
Context {U : GoUnicode} (opts : DiffOptions).

Definition formatJSONScalar (v : json) : gostring :=
  match v with
  | JNull => #"null"
  | JString s => Quote s
  | JNumber lit => lit
  | JBool b => if b then #"true" else #"false"
  | JArray _ | JObject _ => []
  end.

(** The sorted keys of two objects. *)
Definition all_keys (b p : list (gostring * json)) : list gostring :=
  sort_strings (remove_dups (b.*1 ++ p.*1)).

(** [rec] is the recursive call. *)
Definition diff_member (rec : gostring -> json -> json -> list ContractDiff) (path : gostring)
    (b p : list (gostring * json)) (k : gostring) : list ContractDiff :=
  let childPath := path ++ #"." ++ k in
  if shouldIgnoreField childPath (IgnoreFields opts) then []
  else
    match member k b, member k p with
    | Some bChild, None => [mkDiff childPath #"missing_field" (describeJSONType bChild) #"absent" true]
    | None, Some pChild =>
        [mkDiff childPath #"extra_field" #"absent" (describeJSONType pChild) (FailOnExtraFields opts)]
    | Some bChild, Some pChild => rec childPath bChild pChild
    | None, None => []
    end.

(** The elements at the same index, then, unless values are compared, the
    further elements of the preview against the first of the baseline. *)
Definition diff_elements (rec : gostring -> json -> json -> list ContractDiff) (path : gostring)
    (b p : list json) : list ContractDiff :=
  concat (zip_with (fun i '(x, y) => rec (indexed path i) x y) (seq 0 (length b `min` length p)) (zip b p)) ++
  (if negb (CompareValues opts) then
     match b with
     | [] => []
     | b0 :: _ => concat (zip_with (fun i y => rec (indexed path i) b0 y)
                            (seq (length b) (length p - length b)) (drop (length b) p))
     end
   else []).

Fixpoint diffJSONValues (fuel : nat) (path : gostring) (b p : json) : list ContractDiff :=
  match fuel with
  | O => []
  | S fuel =>
      if shouldIgnoreField path (IgnoreFields opts) then []
      else if negb (str_eqb (describeJSONType b) (describeJSONType p)) then
        [mkDiff path #"type_mismatch" (describeJSONType b) (describeJSONType p) true]
      else
        match b, p with
        | JObject bl, JObject pl => all_keys bl pl ≫= diff_member (diffJSONValues fuel) path bl pl
        | JArray bl, JArray pl =>
            (if CompareValues opts && negb (length bl =? length pl)%nat
             then [mkDiff path #"count_mismatch" (len_text (length bl)) (len_text (length pl)) true] else []) ++
            diff_elements (diffJSONValues fuel) path bl pl
        | _, _ =>
            if CompareValues opts then
              let bStr := formatJSONScalar b in
              let pStr := formatJSONScalar p in
              if str_eqb bStr pStr then []
              else [mkDiff path #"value_mismatch" (truncateSample bStr 80) (truncateSample pStr 80) true]
            else []
        end
  end.

(** Nesting: every recursive call goes one level into the baseline. *)
Fixpoint depth (j : json) : nat :=
  match j with
  | JArray l => S (list_max (map depth l))
  | JObject l => S (list_max (map (fun kv => depth kv.2) l))
  | _ => 1
  end.
Definition diff_json (path : gostring) (b p : json) : list ContractDiff := diffJSONValues (depth b) path b p.

(** ** Framed and plain JSON payloads *)
Definition looksLikeJSON (data : gostring) : bool :=
  match TrimSpace data with
  | [] => false
  | c :: _ => bool_decide (c = "{"%char) || bool_decide (c = "["%char)
  end.
Definition isFramedConnectJSONPayload (contentType raw : gostring) : bool :=
  if str_eqb raw [] then false
  else if IsFramedJSONContentType contentType && negb (looksLikeJSON raw) then true
  else if negb (hasValidEnvelopeFrameSequence raw) then false
  else match unwrapJSONEnvelopeFrames raw with
       | Ok (f :: _, _) => looksLikeJSON f
       | _ => false
       end.

Inductive envelope_error := FrameError (e : frame_error) | FrameJson (i : nat) (e : json_error) | BodyJson (e : json_error).

(** [vals]: every frame decoded. *)
Fixpoint decode_frames (i : nat) (frames : list gostring) : result envelope_error (list json) :=
  match frames with
  | [] => Ok []
  | f :: frames =>
      match decodeSingleJSONValue f with
      | (_, Some e) => Err (FrameJson i e)
      | (v, None) => vs ← decode_frames (S i) frames; Ok (default JNull v :: vs)
      end
  end.
Definition extractFrames (ct body : gostring) : result envelope_error (list json * gostring) :=
  if isFramedConnectJSONPayload ct body || hasValidEnvelopeFrameSequence body then
    match unwrapJSONEnvelopeFrames body with
    | Err e => Err (FrameError e)
    | Ok (rawFrames, status) => vals ← decode_frames 0 rawFrames; Ok (vals, status)
    end
  else if str_eqb (TrimSpace body) [] then Ok ([], #"ok")
  else match decodeSingleJSONValue body with
       | (_, Some e) => Err (BodyJson e)
       | (v, None) => Ok ([default JNull v], #"ok")
       end.

(** The texts of errors. *)
Context (json_error_text : json_error -> gostring) (envelope_error_text : envelope_error -> gostring)
  (frame_error_text : frame_error -> gostring).

Definition compareFramedJSONPayloads (baseCT prevCT baseBody prevBody : gostring) : list ContractDiff :=
  match extractFrames baseCT baseBody, extractFrames prevCT prevBody with
  | Ok (baseMsgs, baseTrailer), Ok (prevMsgs, prevTrailer) =>
      match baseMsgs, prevMsgs with
      | [b], [p] => diff_json #"$" b p
      | [], [] => []
      | _, _ => diff_json #"$" (JArray baseMsgs) (JArray prevMsgs)
      end ++
      (if str_eqb baseTrailer prevTrailer then []
       else [mkDiff #"$.rpc_status" #"status_mismatch" baseTrailer prevTrailer true])
  | b, p =>
      (match b with
       | Err e => [mkDiff #"$" #"decode_error" (#"invalid Connect JSON envelope: " ++ envelope_error_text e) #"valid" true]
       | Ok _ => []
       end) ++
      (match p with
       | Err e => [mkDiff #"$" #"decode_error" #"valid" (#"invalid Connect JSON envelope: " ++ envelope_error_text e) true]
       | Ok _ => []
       end)
  end.

Definition compareJSONPayloads (baseCT prevCT baseBody prevBody : gostring) : list ContractDiff :=
  if isFramedConnectJSONPayload baseCT baseBody || isFramedConnectJSONPayload prevCT prevBody
  then compareFramedJSONPayloads baseCT prevCT baseBody prevBody
  else
    let '(baseVal, baseErr) := decodeSingleJSONValue baseBody in
    let '(prevVal, prevErr) := decodeSingleJSONValue prevBody in
    match baseErr, prevErr with
    | None, None => diff_json #"$" (default JNull baseVal) (default JNull prevVal)
    | _, _ =>
        (match baseErr with
         | Some e => [mkDiff #"$" #"decode_error" (#"invalid JSON: " ++ json_error_text e) (describe prevVal) true]
         | None => []
         end) ++
        (match prevErr with
         | Some e => [mkDiff #"$" #"decode_error" (describe baseVal) (#"invalid JSON: " ++ json_error_text e) true]
         | None => []
         end)
    end.
End JSON.

(** * Schema-less Protobuf comparison and the choice of a comparison

    The rest of [pkg/replay/diff.go].  [protowire] is third party: the class
    [ProtoWire] has the functions the code calls; a schema-aware comparison
    through reflection is an argument. *)

(** ** [protowire]: values with the number of bytes they take *)
Class ProtoWire := {
  ConsumeTag : gostring -> result gostring (Z * Z * nat);
  ConsumeVarint : gostring -> result gostring (Z * nat);
  ConsumeFixed32 : gostring -> result gostring (Z * nat);
  ConsumeFixed64 : gostring -> result gostring (Z * nat);
  ConsumeBytes : gostring -> result gostring (gostring * nat);
  ConsumeGroup : Z -> gostring -> result gostring (gostring * nat);
  ConsumeField : gostring -> result gostring (Z * Z * nat) }.

Definition VarintType : Z := 0.
Definition Fixed64Type : Z := 1.
Definition BytesType : Z := 2.
Definition StartGroupType : Z := 3.
Definition EndGroupType : Z := 4.
Definition Fixed32Type : Z := 5.

(** A summary of the occurrences of a field; messages map field numbers to
    summaries, each number once. *)
Inductive wireFieldSummary := mkSummary {
  WireType : gostring;
  Count : nat;
  Values : list gostring;
  Nested : list (Z * wireFieldSummary);
  NestedMessages : list (list (Z * wireFieldSummary)) }.
Abbreviation wire_fields := (list (Z * wireFieldSummary)).

Fixpoint field (num : Z) (l : wire_fields) : option wireFieldSummary :=
  match l with
  | [] => None
  | (n, s) :: l => if decide (num = n) then Some s else field num l
  end.
Fixpoint set_field (num : Z) (s : wireFieldSummary) (l : wire_fields) : wire_fields :=
  match l with
  | [] => [(num, s)]
  | (n, s') :: l => if decide (num = n) then (n, s) :: l else (n, s') :: set_field num s l
  end.

Definition isPrintableUTF8 (s : gostring) : bool :=
  forallb (fun c => bool_decide (byteval c ∈ [10; 13; 9]) || negb ((byteval c <? 32) || (byteval c =? 127))) s.

Section Wire.
Context {U : GoUnicode} {P : ProtoWire}.

(** The loop of [isLikelyNestedProtoMessage]; a field takes at least a byte. *)
Fixpoint likely_fields (fuel : nat) (rem : gostring) (fieldCount : nat) : bool :=
  match rem with
  | [] => (0 <? fieldCount)%nat
  | _ =>
      match fuel with
      | O => false
      | S fuel =>
          match ConsumeField rem with
          | Err _ => false
          | Ok (num, wtype, n) =>
              if (num <=? 0) || (19000 <? num) then false
              else if (wtype =? StartGroupType) || (wtype =? EndGroupType) then false
              else likely_fields fuel (drop n rem) (S fieldCount)
          end
      end
  end.
Definition isLikelyNestedProtoMessage (b : gostring) : bool :=
  if (length b <? 2)%nat then false
  else if utf8_valid b && isPrintableUTF8 b then false
  else likely_fields (length b) b 0.

(** What an occurrence contributes. *)
Record occurrence := mkOcc { oc_len : nat; oc_type : gostring; oc_repr : gostring; oc_nested : option wire_fields }.

(** The switch on the wire type; [nested] parses an embedded message when
    the depth allows. *)
Definition consume_value (nested : option (gostring -> result gostring wire_fields)) (num wtype : Z) (rest : gostring)
    : result gostring occurrence :=
  if wtype =? VarintType then
    '(v, n) ← ConsumeVarint rest; Ok (mkOcc n #"varint" (FormatUint v) None)
  else if wtype =? Fixed32Type then
    '(v, n) ← ConsumeFixed32 rest; Ok (mkOcc n #"fixed32" (#"0x" ++ hex_digits 8 v) None)
  else if wtype =? Fixed64Type then
    '(v, n) ← ConsumeFixed64 rest; Ok (mkOcc n #"fixed64" (#"0x" ++ hex_digits 16 v) None)
  else if wtype =? BytesType then
    '(v, n) ← ConsumeBytes rest;
    let sub := match nested with
               | Some parse => if isLikelyNestedProtoMessage v then
                                 match parse v with Ok [] => None | Ok sub => Some sub | Err _ => None end
                               else None
               | None => None
               end in
    Ok (mkOcc n (match sub with Some _ => #"bytes/message" | None => #"bytes" end)
          (if utf8_valid v && isPrintableUTF8 v then Quote v else #"0x" ++ hex_encode v) sub)
  else if wtype =? StartGroupType then
    '(v, n) ← ConsumeGroup num rest; Ok (mkOcc n #"group" (#"0x" ++ hex_encode v) None)
  else Err (#"unsupported protobuf wire type " ++ FormatInt wtype ++ #" for field " ++ FormatInt num).

(** The type of a field after another occurrence: a message and plain bytes
    are bytes, and other types are listed. *)
Definition join_types (entry : wireFieldSummary) (t : gostring) : wireFieldSummary :=
  if str_eqb (WireType entry) t then entry
  else if (str_eqb (WireType entry) #"bytes/message" && str_eqb t #"bytes") ||
          (str_eqb (WireType entry) #"bytes" && str_eqb t #"bytes/message")
  then mkSummary #"bytes" (Count entry) (Values entry) [] []
  else mkSummary (WireType entry ++ #"|" ++ t) (Count entry) (Values entry) (Nested entry) (NestedMessages entry).

Definition merge_nested (acc : wire_fields) (sub : Z * wireFieldSummary) : wire_fields :=
  let '(k, s) := sub in
  match field k acc with
  | Some e => set_field k (mkSummary (WireType e) (Count e + Count s) (Values e ++ Values s) (Nested e) (NestedMessages e)) acc
  | None => set_field k s acc
  end.

Definition add_occurrence (fields : wire_fields) (num : Z) (o : occurrence) : wire_fields :=
  let entry := match field num fields with
               | None => mkSummary (oc_type o) 0 [] [] []
               | Some entry => join_types entry (oc_type o)
               end in
  let entry := mkSummary (WireType entry) (S (Count entry)) (Values entry ++ [oc_repr o]) (Nested entry) (NestedMessages entry) in
  let entry := match oc_nested o with
               | Some nested =>
                   if str_eqb (WireType entry) #"bytes/message"
                   then mkSummary (WireType entry) (Count entry) (Values entry)
                          (fold_left merge_nested nested (Nested entry)) (NestedMessages entry ++ [nested])
                   else entry
               | None => entry
               end in
  set_field num entry fields.

(** The loop of [parseProtoWireMessage]: every field takes at least a byte. *)
Fixpoint parse_fields (nested : option (gostring -> result gostring wire_fields)) (fuel : nat) (b : gostring)
    (fields : wire_fields) : result gostring wire_fields :=
  match b with
  | [] => Ok fields
  | _ =>
      match fuel with
      | O => Err []
      | S fuel =>
          match ConsumeTag b with
          | Err e => Err e
          | Ok (num, wtype, tagLen) =>
              if num <=? 0 then Err (#"invalid protobuf field number " ++ FormatInt num)
              else
                let rest := drop tagLen b in
                match consume_value nested num wtype rest with
                | Err e => Err e
                | Ok o => parse_fields nested fuel (drop (oc_len o) rest) (add_occurrence fields num o)
                end
          end
      end
  end.
(** [levels] is how many levels of nesting are left: five at depth 0. *)
Fixpoint parse_level (levels : nat) (b : gostring) : result gostring wire_fields :=
  parse_fields (match levels with O => None | S levels => Some (parse_level levels) end) (length b) b [].
Definition parseProtoWireMessage (b : gostring) (depth : nat) : result gostring wire_fields :=
  parse_level (5 - depth) b.

(** ** Comparing summaries *)
Context (opts : DiffOptions).
Definition normalizeWireCategory (w : gostring) : gostring := if str_eqb w #"bytes/message" then #"bytes" else w.

Definition field_path (prefix : gostring) (num : Z) : gostring := prefix ++ #".field_" ++ FormatInt num.
Definition all_numbers (b p : wire_fields) : list Z := merge_sort Z.le (remove_dups (b.*1 ++ p.*1)).

Definition diff_nested (rec : gostring -> wire_fields -> wire_fields -> list ContractDiff) (path : gostring)
    (b p : list wire_fields) : list ContractDiff :=
  match b, p with
  | [x], [y] => rec path x y
  | _, _ =>
      concat (zip_with (fun i '(x, y) => rec (indexed path i) x y) (seq 0 (length b `min` length p)) (zip b p)) ++
      (if negb (CompareValues opts) then
         match b with
         | [] => []
         | b0 :: _ => concat (zip_with (fun i y => rec (indexed path i) b0 y)
                                (seq (length b) (length p - length b)) (drop (length b) p))
         end
       else [])
  end.

Definition diff_field (rec : gostring -> wire_fields -> wire_fields -> list ContractDiff) (pathPrefix : gostring)
    (b p : wire_fields) (num : Z) : list ContractDiff :=
  let path := field_path pathPrefix num in
  if shouldIgnoreField path (IgnoreFields opts) then []
  else
    match field num b, field num p with
    | Some x, None => [mkDiff path #"missing_field" (WireType x) #"absent" true]
    | None, Some y => [mkDiff path #"extra_field" #"absent" (WireType y) (FailOnExtraFields opts)]
    | None, None => []
    | Some x, Some y =>
        let count := if CompareValues opts && negb (Count x =? Count y)%nat
                     then [mkDiff path #"count_mismatch" (count_text (Count x)) (count_text (Count y)) true] else [] in
        if negb (str_eqb (normalizeWireCategory (WireType x)) (normalizeWireCategory (WireType y))) then
          [mkDiff path #"wire_type_mismatch" (WireType x) (WireType y) true]
        else
          match NestedMessages x, NestedMessages y with
          | _ :: _, _ :: _ => count ++ diff_nested rec path (NestedMessages x) (NestedMessages y)
          | _, _ =>
              if CompareValues opts then
                match count with
                | [] =>
                    let bJoined := GoStrings.Join (Values x) #"," in
                    let pJoined := GoStrings.Join (Values y) #"," in
                    if str_eqb bJoined pJoined then []
                    else [mkDiff path #"value_mismatch" (truncateSample bJoined 80) (truncateSample pJoined 80) true]
                | _ => count
                end
              else []
          end
    end.

Fixpoint diffProtoWireMessages (fuel : nat) (pathPrefix : gostring) (b p : wire_fields) : list ContractDiff :=
  match fuel with
  | O => []
  | S fuel => all_numbers b p ≫= diff_field (diffProtoWireMessages fuel) pathPrefix b p
  end.

(** Every recursive call goes one level into the baseline. *)
Fixpoint summary_depth (s : wireFieldSummary) : nat :=
  S (list_max (map (fun m => list_max (map (fun f => summary_depth f.2) m)) (NestedMessages s))).
Definition fields_depth (l : wire_fields) : nat := S (list_max (map (fun f => summary_depth f.2) l)).
Definition diff_wire (pathPrefix : gostring) (b p : wire_fields) : list ContractDiff :=
  diffProtoWireMessages (fields_depth b) pathPrefix b p.

(** ** [compareProtobufPayloads] and [ComparePayloads] *)
(** What the descriptor set says of a message name. *)
Inductive descriptor :=
| NotFoundDescriptor (err : gostring)
| NotAMessage
| MessageDescriptor (compareDynamicProtoMessages : gostring -> gostring -> list ContractDiff).
Context (find_descriptor : option (gostring -> descriptor)).
Context (json_error_text : json_error -> gostring) (envelope_error_text : envelope_error -> gostring)
  (frame_error_text : frame_error -> gostring).

Definition ProtocolJSON : gostring := #"json".
Definition ProtocolProtobuf : gostring := #"protobuf".
Definition ProtocolProtobufTyped : gostring := #"protobuf+schema".
Definition ProtocolText : gostring := #"text".
Definition ProtocolEmpty : gostring := #"empty".

Definition rpc_status_diff (b p : gostring) : list ContractDiff :=
  if str_eqb b p then [] else [mkDiff #"proto.rpc_status" #"status_mismatch" b p true].
Definition decode_diffs {E A} (text : E -> gostring) (valid : gostring) (b p : result E A) : list ContractDiff :=
  (match b with Err e => [mkDiff #"proto" #"decode_error" (text e) valid true] | Ok _ => [] end) ++
  (match p with Err e => [mkDiff #"proto" #"decode_error" valid (text e) true] | Ok _ => [] end).

Definition compareProtobufPayloads (baseCT prevCT baseBody prevBody : gostring) : gostring * list ContractDiff :=
  match unwrapEnvelopeFrames baseCT baseBody, unwrapEnvelopeFrames prevCT prevBody with
  | Ok (baseRaw, baseStatus), Ok (prevRaw, prevStatus) =>
      let msgName := TrimPrefix (TrimSpace (ProtoMessage opts)) #"." in
      match (if str_eqb msgName [] then None else find_descriptor) with
      | Some find =>
          (ProtocolProtobufTyped,
           match find msgName with
           | NotFoundDescriptor err =>
               [mkDiff #"proto" #"decode_error" (#"descriptor " ++ Quote msgName ++ #" not found: " ++ err) #"unresolved" true]
           | NotAMessage =>
               [mkDiff #"proto" #"decode_error" (Quote msgName ++ #" is not a protobuf message descriptor") #"invalid" true]
           | MessageDescriptor compare => compare baseRaw prevRaw ++ rpc_status_diff baseStatus prevStatus
           end)
      | None =>
          (ProtocolProtobuf,
           match parseProtoWireMessage baseRaw 0, parseProtoWireMessage prevRaw 0 with
           | Ok b, Ok p => diff_wire #"proto" b p ++ rpc_status_diff baseStatus prevStatus
           | b, p => decode_diffs (fun e => #"invalid protobuf wire payload: " ++ e) #"valid" b p
           end)
      end
  | b, p => (ProtocolProtobuf, decode_diffs frame_error_text #"ok" b p)
  end.

(** A valid non-empty wire message. *)
Definition is_wire (body : gostring) : bool :=
  match parseProtoWireMessage body 0 with Ok (_ :: _) => true | _ => false end.

Definition ComparePayloads (baseCT prevCT baseBody prevBody : gostring) : gostring * list ContractDiff :=
  let proto := IsProtobufContentType baseCT || IsProtobufContentType prevCT in
  let framed := isFramedConnectJSONPayload baseCT baseBody || isFramedConnectJSONPayload prevCT prevBody in
  let empty := fun s : gostring => str_eqb (TrimSpace s) [] in
  if empty baseBody && empty prevBody && negb proto then (ProtocolEmpty, [])
  else if proto || (negb (str_eqb (ProtoMessage opts) []) && negb (looksLikeJSON baseBody) &&
                    negb (looksLikeJSON prevBody) && negb framed)
  then compareProtobufPayloads baseCT prevCT baseBody prevBody
  else if IsJSONContentType baseCT || IsJSONContentType prevCT || framed ||
          (looksLikeJSON baseBody && looksLikeJSON prevBody)
  then (ProtocolJSON, compareJSONPayloads opts json_error_text envelope_error_text baseCT prevCT baseBody prevBody)
  else if negb (isExplicitTextContentType baseCT) && negb (isExplicitTextContentType prevCT) &&
          (match baseBody, prevBody with
           | _ :: _, [] => is_wire baseBody
           | _ :: _, _ :: _ => is_wire baseBody && is_wire prevBody
           | [], _ :: _ => is_wire prevBody
           | [], [] => false
           end)
  then compareProtobufPayloads baseCT prevCT baseBody prevBody
  else
    (ProtocolText,
     let b := TrimSpace baseBody in
     let p := TrimSpace prevBody in
     if CompareValues opts && negb (str_eqb b p)
     then [mkDiff #"$" #"value_mismatch" (truncateSample b 80) (truncateSample p 80) true] else []).
End Wire.
