(* ===== verification/ReplayFacts.v ===== *)
(** * The replay comparison says what it should

    Identical responses never differ; no breaking difference is reported
    exactly when the preview's JSON is compatible with the baseline's; frames
    survive being unwrapped; every loop ends. *)

From S2P Require Import Prelude GoStrings GoSort GoJSON GoQuote Replay.
Local Open Scope Z_scope.

Lemma str_eqb_refl s : str_eqb s s = true.
Proof. unfold str_eqb. by apply bool_decide_eq_true. Qed.
Lemma str_eqb_eq s t : str_eqb s t = true <-> s = t.
Proof. unfold str_eqb. apply bool_decide_eq_true. Qed.

(** ** Identical values *)
(** Comparing equal elements pairwise, under any paths. *)
Lemma zip_same {A B} (f : nat -> A -> A -> list B) (l : list A) : forall n,
  (forall i x, x ∈ l -> f i x x = []) ->
  concat (zip_with (fun i '(x, y) => f i x y) (seq n (length l)) (zip l l)) = [].
Proof.
  induction l as [|x l IH]; intros n H; cbn; [done|]. rewrite H by set_solver. apply IH. set_solver.
Qed.

Section Same.
Context {U : GoUnicode} (opts : DiffOptions).

Lemma bind_nil {A B} (f : A -> list B) l : (forall x, x ∈ l -> f x = []) -> l ≫= f = [].
Proof.
  induction l as [|x l IH]; intros H; [done|]. change ((x :: l) ≫= f) with (f x ++ (l ≫= f)).
  rewrite H by set_solver. apply IH. set_solver.
Qed.

Lemma diff_elements_same rec path l : (forall p x, rec p x x = []) -> diff_elements opts rec path l l = [].
Proof.
  intros H. unfold diff_elements. rewrite Nat.min_id, Nat.sub_diag, (zip_same (fun i => rec (indexed path i))) by auto.
  destruct (negb _); [|done]. by destruct l.
Qed.
Lemma diff_same fuel : forall path v, diffJSONValues opts fuel path v v = [].
Proof.
  induction fuel as [|fuel IH]; intros path v; cbn [diffJSONValues]; [done|].
  destruct (shouldIgnoreField path _); [done|]. rewrite str_eqb_refl. cbn [negb].
  destruct v as [|b|n|s|l|l]; rewrite ?str_eqb_refl; try by destruct (CompareValues opts).
  - rewrite Nat.eqb_refl, andb_false_r. cbn. by apply diff_elements_same.
  - apply bind_nil. intros k _. unfold diff_member. destruct (shouldIgnoreField _ _); [done|].
    by destruct (member k l).
Qed.

Context {P : ProtoWire}.
Lemma diff_nested_same rec path l : (forall p x, rec p x x = []) -> diff_nested opts rec path l l = [].
Proof.
  intros H. unfold diff_nested. destruct l as [|x [|y l]]; [by destruct (negb _)|apply H|].
  rewrite Nat.min_id, Nat.sub_diag, (zip_same (fun i => rec (indexed path i))) by auto. by destruct (negb _).
Qed.
Lemma diff_wire_same fuel : forall path l, diffProtoWireMessages opts fuel path l l = [].
Proof.
  induction fuel as [|fuel IH]; intros path l; cbn [diffProtoWireMessages]; [done|].
  apply bind_nil. intros num _. unfold diff_field. destruct (shouldIgnoreField _ _); [done|].
  destruct (field num l) as [x|]; [|done]. rewrite !str_eqb_refl, Nat.eqb_refl, andb_false_r. cbn [negb].
  destruct (NestedMessages x); [by destruct (CompareValues opts)|]. by apply diff_nested_same.
Qed.

Context (jt : json_error -> gostring) (et : envelope_error -> gostring) (ft : frame_error -> gostring).
Definition only_decode_errors (l : list ContractDiff) : Prop := Forall (fun d => Kind d = #"decode_error") l.

Lemma decode_diffs_only {E A} (text : E -> gostring) valid (b p : result E A) :
  only_decode_errors (decode_diffs text valid b p).
Proof. unfold decode_diffs. destruct b, p; repeat constructor. Qed.
Lemma proto_same ct body : only_decode_errors (snd (compareProtobufPayloads opts None ft ct ct body body)).
Proof.
  unfold compareProtobufPayloads. destruct (unwrapEnvelopeFrames ct body) as [[raw status]|e]; [|apply decode_diffs_only].
  assert (forall s, (if str_eqb s [] then None else None) = @None (gostring -> descriptor)) as -> by (intros s; by destruct (str_eqb s [])).
  cbn [snd]. destruct (parseProtoWireMessage raw 0); [|apply decode_diffs_only].
  unfold diff_wire, rpc_status_diff. rewrite diff_wire_same, str_eqb_refl. constructor.
Qed.
Lemma json_same ct body : only_decode_errors (compareJSONPayloads opts jt et ct ct body body).
Proof.
  unfold compareJSONPayloads, diff_json. destruct (_ || _).
  - unfold compareFramedJSONPayloads. destruct (extractFrames ct body) as [[msgs tr]|e]; [|repeat constructor].
    rewrite str_eqb_refl, app_nil_r. unfold diff_json.
    destruct msgs as [|x [|y l]]; rewrite ?diff_same; constructor.
  - destruct (decodeSingleJSONValue body) as [v [e|]]; [repeat constructor|]. rewrite diff_same. constructor.
Qed.

(** comparing a response with itself never reports a difference of the
    contract: the only findings possible are that it cannot be decoded. *)
Theorem ComparePayloads_same ct body :
  Forall (fun d => Kind d = #"decode_error") (snd (ComparePayloads opts None jt et ft ct ct body body)).
Proof.
  unfold ComparePayloads. destruct (_ && negb _); [constructor|]. destruct (_ || _); [apply proto_same|].
  destruct (_ || _); [apply json_same|]. destruct (_ && _); [apply proto_same|].
  cbn [snd]. rewrite str_eqb_refl, andb_false_r. constructor.
Qed.
End Same.

(** ** Sub-values are less deep *)
Lemma list_max_elem (l : list nat) x : x ∈ l -> (x <= list_max l)%nat.
Proof.
  intros H. pose proof (proj1 (List.list_max_le l (list_max l)) (Nat.le_refl _)) as Hall.
  rewrite Forall_forall in Hall. by apply Hall.
Qed.
Lemma member_depth k l x : member k l = Some x -> (depth x <= list_max (map (fun kv => depth kv.2) l))%nat.
Proof.
  intros H. apply list_max_elem, list_elem_of_fmap.
  induction l as [|[k' v] l IH]; cbn in H; [done|]. case_decide.
  - injection H as <-. exists (k', v). set_solver.
  - destruct (IH H) as (kv & E & Hin). exists kv. set_solver.
Qed.
Lemma element_depth i l x : l !! i = Some x -> (depth x <= list_max (map depth l))%nat.
Proof. intros H. apply list_max_elem, list_elem_of_fmap. exists x. split; [done|]. by eapply list_elem_of_lookup_2. Qed.
Lemma member_elem k l x : member k l = Some x -> k ∈ l.*1.
Proof.
  induction l as [|[k' v] l IH]; cbn; [done|]. case_decide; [set_solver|]. intros Hm. apply IH in Hm. set_solver.
Qed.
Lemma all_keys_elem k b p : k ∈ all_keys b p <-> k ∈ b.*1 \/ k ∈ p.*1.
Proof. unfold all_keys. by rewrite sort_strings_elem, elem_of_remove_dups, elem_of_app. Qed.

(** ** The recursion only looks below the baseline *)
Lemma zip_ext {A B C} (f g : nat -> A -> B -> list C) : forall (b : list A) (p : list B) n,
  (forall i x y, x ∈ b -> f i x y = g i x y) ->
  zip_with (fun i '(x, y) => f i x y) (seq n (length b `min` length p)) (zip b p) =
  zip_with (fun i '(x, y) => g i x y) (seq n (length b `min` length p)) (zip b p).
Proof.
  induction b as [|x b IH]; intros [|y p] n H; cbn; [done..|]. f_equal; [apply H; set_solver|].
  apply IH. intros i x' y' Hx. apply H. set_solver.
Qed.
Lemma diff_elements_ext opts rec rec' path b p : (forall q x y, x ∈ b -> rec q x y = rec' q x y) ->
  diff_elements opts rec path b p = diff_elements opts rec' path b p.
Proof.
  intros H. unfold diff_elements.
  rewrite (zip_ext (fun i => rec (indexed path i)) (fun i => rec' (indexed path i))) by auto. f_equal.
  destruct (negb _); [|done]. destruct b as [|b0 b]; [done|]. f_equal.
  generalize (seq (length (b0 :: b)) (length p - length (b0 :: b))) (drop (length (b0 :: b)) p). intros l.
  induction l as [|i l IH]; intros [|y l']; cbn; [done..|]. f_equal; [apply H; set_solver|done].
Qed.
Lemma diff_fuel {U : GoUnicode} opts fuel : forall fuel' path b p, (depth b <= fuel)%nat -> (depth b <= fuel')%nat ->
  diffJSONValues opts fuel path b p = diffJSONValues opts fuel' path b p.
Proof.
  induction fuel as [|fuel IH]; intros [|fuel'] path b p H1 H2; try (destruct b; cbn in *; lia).
  cbn [diffJSONValues]. destruct (shouldIgnoreField _ _); [done|]. destruct (negb _); [done|].
  destruct b as [| | | |bl|bl], p as [| | | |pl|pl]; try done.
  - f_equal. apply diff_elements_ext. intros q x y [i Hi]%list_elem_of_lookup_1.
    apply element_depth in Hi. cbn in H1, H2. apply IH; lia.
  - generalize (all_keys bl pl). intros keys. induction keys as [|k keys IHk]; [done|].
    cbn [mbind list_bind]. f_equal; [|done]. unfold diff_member.
    destruct (shouldIgnoreField _ _); [done|]. destruct (member k bl) eqn:E, (member k pl); try done.
    apply member_depth in E. cbn in H1, H2. apply IH; lia.
Qed.

(** ** What the lists of differences contain *)
Lemma Forall_bind_iff {A B} (Q : B -> Prop) (f : A -> list B) l :
  Forall Q (l ≫= f) <-> forall x, x ∈ l -> Forall Q (f x).
Proof.
  induction l as [|x l IH]; [split; [set_solver|constructor]|].
  change ((x :: l) ≫= f) with (f x ++ (l ≫= f)). rewrite Forall_app, IH. set_solver.
Qed.
Lemma Forall_zip {A B C} (Q : C -> Prop) (f : nat -> A -> B -> list C) : forall (b : list A) (p : list B) n,
  Forall Q (concat (zip_with (fun i '(x, y) => f i x y) (seq n (length b `min` length p)) (zip b p))) <->
  forall i x y, b !! i = Some x -> p !! i = Some y -> Forall Q (f (n + i)%nat x y).
Proof.
  induction b as [|x b IH]; intros [|y p] n; cbn; try (split; [by intros _ [|?]|constructor]).
  rewrite Forall_app, IH. split.
  - intros [H1 H2] [|i] x' y'; cbn.
    + intros [= <-] [= <-]. by rewrite Nat.add_0_r.
    + intros Hb Hp. rewrite <-Nat.add_succ_comm. by apply H2.
  - intros H. split; [rewrite <-(Nat.add_0_r n); by apply (H O)|]. intros i x' y' Hb Hp.
    rewrite Nat.add_succ_comm. by apply (H (S i)).
Qed.
Lemma Forall_rest {A C} (Q : C -> Prop) (f : nat -> A -> list C) : forall (l : list A) n,
  Forall Q (concat (zip_with (fun i y => f i y) (seq n (length l)) l)) <->
  forall i y, l !! i = Some y -> Forall Q (f (n + i)%nat y).
Proof.
  induction l as [|y l IH]; intros n; cbn; [split; [by intros _ [|?]|constructor]|].
  rewrite Forall_app, IH. split.
  - intros [H1 H2] [|i] y'; cbn; [intros [= <-]; by rewrite Nat.add_0_r|].
    intros Hl. rewrite <-Nat.add_succ_comm. by apply H2.
  - intros H. split; [rewrite <-(Nat.add_0_r n); by apply (H O)|]. intros i y' Hl.
    rewrite Nat.add_succ_comm. by apply (H (S i)).
Qed.
Lemma Forall_elements (Q : ContractDiff -> Prop) opts rec path b p :
  Forall Q (diff_elements opts rec path b p) <->
  (forall i x y, b !! i = Some x -> p !! i = Some y -> Forall Q (rec (indexed path i) x y)) /\
  (CompareValues opts = false -> forall b0 i y, b !! O = Some b0 -> (length b <= i)%nat -> p !! i = Some y ->
     Forall Q (rec (indexed path i) b0 y)).
Proof.
  unfold diff_elements. rewrite Forall_app, (Forall_zip Q (fun i => rec (indexed path i))).
  assert (forall A B : Prop, (A <-> B) -> forall C, C /\ A <-> C /\ B) as Hand by naive_solver. apply Hand.
  destruct (CompareValues opts); cbn [negb]; [split; [done|constructor]|].
  destruct b as [|b0 b]; [split; [done|constructor]|].
  replace (length p - length (b0 :: b))%nat with (length (drop (length (b0 :: b)) p)) by (rewrite length_drop; done).
  rewrite (Forall_rest Q (fun i => rec (indexed path i) b0)). split.
  - intros H _ b0' i y [= <-] Hi Hp.
    replace i with (length (b0 :: b) + (i - length (b0 :: b)))%nat by lia. apply H.
    rewrite lookup_drop. by replace (length (b0 :: b) + (i - length (b0 :: b)))%nat with i by lia.
  - intros H i y Hl. rewrite lookup_drop in Hl. apply (H eq_refl b0); [done|lia|done].
Qed.

(** ** Compatibility *)
Section Compatible.
Context {U : GoUnicode} (opts : DiffOptions).

Definition scalar (v : json) : Prop := match v with JArray _ | JObject _ => False | _ => True end.

(** The preview [p] honours the contract of the baseline [b] at [path]. *)
Inductive compatible (path : gostring) : json -> json -> Prop :=
| compatible_ignored b p : shouldIgnoreField path (IgnoreFields opts) = true -> compatible path b p
| compatible_scalar b p :
    scalar b -> describeJSONType b = describeJSONType p ->
    (CompareValues opts = true -> formatJSONScalar b = formatJSONScalar p) -> compatible path b p
| compatible_object b p :
    (forall k, shouldIgnoreField (path ++ #"." ++ k) (IgnoreFields opts) = false ->
       (is_Some (member k b) -> is_Some (member k p)) /\
       (FailOnExtraFields opts = true -> is_Some (member k p) -> is_Some (member k b))) ->
    (forall k x y, shouldIgnoreField (path ++ #"." ++ k) (IgnoreFields opts) = false ->
       member k b = Some x -> member k p = Some y -> compatible (path ++ #"." ++ k) x y) ->
    compatible path (JObject b) (JObject p)
| compatible_array b p :
    (CompareValues opts = true -> length b = length p) ->
    (forall i x y, b !! i = Some x -> p !! i = Some y -> compatible (indexed path i) x y) ->
    (CompareValues opts = false -> forall b0 i y, b !! O = Some b0 -> (length b <= i)%nat -> p !! i = Some y ->
       compatible (indexed path i) b0 y) ->
    compatible path (JArray b) (JArray p).

Definition no_breaking (l : list ContractDiff) : Prop := Forall (fun d => Breaking d = false) l.

Lemma breaking_one path k b p : no_breaking [mkDiff path k b p true] <-> False.
Proof. split; [|done]. by intros [? _]%Forall_cons. Qed.

Lemma no_breaking_member rec path b p k (Q : json -> json -> Prop) :
  (forall x y, member k b = Some x -> member k p = Some y -> no_breaking (rec (path ++ #"." ++ k) x y) <-> Q x y) ->
  no_breaking (diff_member opts rec path b p k) <->
  (shouldIgnoreField (path ++ #"." ++ k) (IgnoreFields opts) = false ->
     ((is_Some (member k b) -> is_Some (member k p)) /\
      (FailOnExtraFields opts = true -> is_Some (member k p) -> is_Some (member k b))) /\
     forall x y, member k b = Some x -> member k p = Some y -> Q x y).
Proof.
  intros H. unfold diff_member. destruct (shouldIgnoreField _ _); [split; [done|constructor]|].
  destruct (member k b) as [x|], (member k p) as [y|].
  - rewrite H by done. split; [naive_solver|]. intros Hq. by apply Hq.
  - rewrite breaking_one. split; [done|]. intros Hq. destruct (Hq eq_refl) as [[Hs _] _]. by destruct Hs.
  - unfold no_breaking. rewrite Forall_singleton. cbn. split.
    + intros Hf _. split; [split; [done|congruence]|done].
    + intros Hq. destruct (FailOnExtraFields opts); [|done]. destruct (Hq eq_refl) as [[_ Hs] _]. by destruct Hs.
  - split; [|constructor]. intros _ _. split; [split; [by intros []|by intros _ []]|done].
Qed.

(** Compatibility of values of one shape, when the path is not ignored. *)
Lemma compatible_scalar_iff path b p : shouldIgnoreField path (IgnoreFields opts) = false -> scalar b ->
  describeJSONType b = describeJSONType p ->
  compatible path b p <-> (CompareValues opts = true -> formatJSONScalar b = formatJSONScalar p).
Proof.
  intros Hi Hs Ht. split; [|by apply compatible_scalar]. intros Hc. inversion Hc; subst; try done; congruence.
Qed.
Lemma compatible_array_iff path b p : shouldIgnoreField path (IgnoreFields opts) = false ->
  compatible path (JArray b) (JArray p) <->
  (CompareValues opts = true -> length b = length p) /\
  (forall i x y, b !! i = Some x -> p !! i = Some y -> compatible (indexed path i) x y) /\
  (CompareValues opts = false -> forall b0 i y, b !! O = Some b0 -> (length b <= i)%nat -> p !! i = Some y ->
     compatible (indexed path i) b0 y).
Proof.
  intros Hi. split; [|by intros (?&?&?); constructor]. intros Hc. inversion Hc; subst; try done; congruence.
Qed.
Definition member_compatible (path : gostring) (b p : list (gostring * json)) (k : gostring) : Prop :=
  shouldIgnoreField (path ++ #"." ++ k) (IgnoreFields opts) = false ->
  ((is_Some (member k b) -> is_Some (member k p)) /\
   (FailOnExtraFields opts = true -> is_Some (member k p) -> is_Some (member k b))) /\
  forall x y, member k b = Some x -> member k p = Some y -> compatible (path ++ #"." ++ k) x y.
Lemma compatible_object_iff path b p : shouldIgnoreField path (IgnoreFields opts) = false ->
  compatible path (JObject b) (JObject p) <-> forall k, member_compatible path b p k.
Proof.
  intros Hi. split.
  - intros Hc k Hk. inversion Hc; subst; try done; [congruence|]. split; [by auto|]. intros x y Hx Hy. by auto.
  - intros H. constructor; intros k; [intros Hk; by apply H|]. intros x y Hk Hx Hy. by apply H.
Qed.
(** Values of different types. *)
Lemma incompatible_types path b p : shouldIgnoreField path (IgnoreFields opts) = false ->
  str_eqb (describeJSONType b) (describeJSONType p) = false -> ~ compatible path b p.
Proof.
  intros Hi Ht Hc. inversion Hc; subst; try congruence; [|by rewrite str_eqb_refl in Ht..].
  by rewrite (proj2 (str_eqb_eq _ _)) in Ht.
Qed.

Lemma no_breaking_scalar path b p : shouldIgnoreField path (IgnoreFields opts) = false -> scalar b ->
  describeJSONType b = describeJSONType p ->
  no_breaking (if CompareValues opts then
    if str_eqb (formatJSONScalar b) (formatJSONScalar p) then []
    else [mkDiff path #"value_mismatch" (truncateSample (formatJSONScalar b) 80) (truncateSample (formatJSONScalar p) 80) true]
    else []) <-> compatible path b p.
Proof.
  intros Hi Hs Ht. rewrite compatible_scalar_iff by done.
  destruct (CompareValues opts); [|split; [done|constructor]].
  destruct (str_eqb _ _) eqn:E; [apply str_eqb_eq in E; split; [done|constructor]|].
  rewrite breaking_one. split; [done|]. intros H. rewrite H, str_eqb_refl in E by done. done.
Qed.
Lemma no_breaking_array rec path b p : shouldIgnoreField path (IgnoreFields opts) = false ->
  (forall i x, b !! i = Some x -> forall q y, no_breaking (rec q x y) <-> compatible q x y) ->
  no_breaking ((if CompareValues opts && negb (length b =? length p)%nat
                then [mkDiff path #"count_mismatch" (len_text (length b)) (len_text (length p)) true] else []) ++
               diff_elements opts rec path b p) <-> compatible path (JArray b) (JArray p).
Proof.
  intros Hi HIH. unfold no_breaking. rewrite compatible_array_iff, Forall_app, Forall_elements by done.
  assert (Forall (fun d => Breaking d = false) (if CompareValues opts && negb (length b =? length p)%nat
    then [mkDiff path #"count_mismatch" (len_text (length b)) (len_text (length p)) true] else []) <->
    (CompareValues opts = true -> length b = length p)) as ->.
  { destruct (CompareValues opts); cbn [andb]; [|split; [done|constructor]].
    destruct (length b =? length p)%nat eqn:E; cbn [negb]; bool_simpl; [split; [done|constructor]|].
    rewrite (breaking_one path). split; [done|]. intros H. by apply E, H. }
  unfold no_breaking in HIH. split; intros (H1 & H2 & H3); (split; [done|]); split.
  - intros i x y Hx Hy. apply (HIH _ _ Hx). by apply H2.
  - intros Hv b0 i y Hb0 Hle Hy. apply (HIH _ _ Hb0). by apply H3.
  - intros i x y Hx Hy. apply (HIH _ _ Hx). by apply H2.
  - intros Hv b0 i y Hb0 Hle Hy. apply (HIH _ _ Hb0). by apply H3.
Qed.
Lemma no_breaking_object rec path b p : shouldIgnoreField path (IgnoreFields opts) = false ->
  (forall k x y, member k b = Some x -> no_breaking (rec (path ++ #"." ++ k) x y) <-> compatible (path ++ #"." ++ k) x y) ->
  no_breaking (all_keys b p ≫= diff_member opts rec path b p) <-> compatible path (JObject b) (JObject p).
Proof.
  intros Hi HIH. unfold no_breaking. rewrite compatible_object_iff, Forall_bind_iff by done.
  assert (forall k, no_breaking (diff_member opts rec path b p k) <-> member_compatible path b p k) as Hm.
  { intros k. apply (no_breaking_member rec path b p k). intros x y Hx _. by apply HIH. }
  split; intros H k; [|intros _; apply Hm, H].
  destruct (decide (k ∈ all_keys b p)) as [Hk|Hk]; [by apply Hm, H|]. intros _.
  rewrite all_keys_elem in Hk. assert (member k b = None /\ member k p = None) as [-> ->].
  { split; apply eq_None_not_Some; intros [x Hx%member_elem]; naive_solver. }
  split; [split; [by intros []|by intros _ []]|done].
Qed.

Lemma no_breaking_diff fuel : forall path b p, (depth b <= fuel)%nat ->
  no_breaking (diffJSONValues opts fuel path b p) <-> compatible path b p.
Proof.
  induction fuel as [|fuel IH]; intros path b p Hd; [destruct b; cbn in Hd; lia|].
  cbn [diffJSONValues]. destruct (shouldIgnoreField path (IgnoreFields opts)) eqn:Ei.
  { split; [by constructor|constructor]. }
  destruct (str_eqb (describeJSONType b) (describeJSONType p)) eqn:Et; cbn [negb].
  2:{ rewrite breaking_one. split; [done|]. by apply incompatible_types. }
  apply str_eqb_eq in Et.
  destruct b as [|bb|n|t|bl|bl], p as [|pb|m|u|pl|pl]; try discriminate Et; try by apply no_breaking_scalar.
  - apply no_breaking_array; [done|]. intros i x Hx q y. apply IH. apply element_depth in Hx. cbn in Hd. lia.
  - apply no_breaking_object; [done|]. intros k x y Hx. apply IH. apply member_depth in Hx. cbn in Hd. lia.
Qed.
End Compatible.

(** C35: the comparison of two JSON values reports no breaking difference
    exactly when the preview is compatible with the baseline: same types, no
    field lost (none added when that is forbidden), list elements pairwise
    compatible, and equal scalars and lengths when values are compared. *)
Theorem diff_json_compatible {U : GoUnicode} opts path b p :
  Forall (fun d => Breaking d = false) (diff_json opts path b p) <-> compatible opts path b p.
Proof. by apply no_breaking_diff. Qed.

(** ** Frames *)
Definition be32 (n : Z) : gostring := map byte_of_Z [n / 2 ^ 24; n / 2 ^ 16; n / 2 ^ 8; n].
Definition frame (flags : Z) (payload : gostring) : gostring :=
  byte_of_Z flags :: be32 (Z.of_nat (length payload)) ++ payload.

Lemma big_endian_be32 n : 0 <= n < 2 ^ 32 -> big_endian (be32 n) = n.
Proof.
  intros Hn. unfold big_endian, be32. cbn [map fold_left]. rewrite !byteval_of_Z.
  rewrite (Z.mod_small (n / 2 ^ 24)) by (split; [apply Z.div_pos; lia|apply Z.div_lt_upper_bound; lia]).
  replace (n / 2 ^ 16) with (n / 2 ^ 8 / 2 ^ 8) by (rewrite Z.div_div by lia; done).
  replace (n / 2 ^ 24) with (n / 2 ^ 8 / 2 ^ 8 / 2 ^ 8) by (rewrite !Z.div_div by lia; done).
  pose proof (Z.div_mod n (2 ^ 8) ltac:(lia)). pose proof (Z.div_mod (n / 2 ^ 8) (2 ^ 8) ltac:(lia)).
  pose proof (Z.div_mod (n / 2 ^ 8 / 2 ^ 8) (2 ^ 8) ltac:(lia)). change 256 with (2 ^ 8). lia.
Qed.

Lemma next_frame_frame flags p rest : 0 <= flags < 256 -> Z.of_nat (length p) < 2 ^ 32 ->
  next_frame (frame flags p ++ rest) = Ok (flags, p, rest).
Proof.
  intros Hf Hp. unfold frame, be32. cbn [map app next_frame].
  change ([byte_of_Z (Z.of_nat (length p) / 2 ^ 24); byte_of_Z (Z.of_nat (length p) / 2 ^ 16);
           byte_of_Z (Z.of_nat (length p) / 2 ^ 8); byte_of_Z (Z.of_nat (length p))]) with (be32 (Z.of_nat (length p))).
  rewrite big_endian_be32 by lia. rewrite Nat2Z.id, length_app.
  rewrite (proj2 (Z.ltb_ge _ _)) by lia. rewrite take_app_length, drop_app_length, byteval_of_Z, Z.mod_small by lia. done.
Qed.

Section Frames.
Context {U : GoUnicode}.

Lemma unwrap_frames_messages ps : forall fuel rest frames status,
  Forall (fun p => Z.of_nat (length p) < 2 ^ 32) ps -> (length (concat (map (frame 0) ps)) <= fuel)%nat ->
  unwrap_frames fuel (concat (map (frame 0) ps) ++ rest) frames status =
  unwrap_frames (fuel - length ps) rest (frames ++ ps) status.
Proof.
  induction ps as [|p ps IH]; intros fuel rest frames status Hps Hfuel; cbn [map concat].
  { rewrite app_nil_r, Nat.sub_0_r. done. }
  apply Forall_cons in Hps as [Hp Hps]. cbn [map concat] in Hfuel. rewrite length_app in Hfuel.
  destruct fuel as [|fuel]; [cbn in Hfuel; lia|]. rewrite <-app_assoc.
  change (frame 0 p ++ concat (map (frame 0) ps) ++ rest)
    with (byte_of_Z 0 :: (be32 (Z.of_nat (length p)) ++ p) ++ concat (map (frame 0) ps) ++ rest).
  cbn [unwrap_frames].
  change (byte_of_Z 0 :: (be32 (Z.of_nat (length p)) ++ p) ++ concat (map (frame 0) ps) ++ rest)
    with (frame 0 p ++ concat (map (frame 0) ps) ++ rest).
  rewrite next_frame_frame by done. cbn [Z.land Z.eqb negb].
  rewrite IH; [|done|cbn in Hfuel; lia]. rewrite <-app_assoc. done.
Qed.

Lemma frames_length ps : (length ps <= length (concat (map (frame 0) ps)))%nat.
Proof. induction ps as [|p ps IH]; cbn; [lia|]. rewrite length_app. lia. Qed.

(** messages written as uncompressed frames, then a Connect end-of-stream
    frame, are unwrapped to the same messages and the status of the trailer. *)
Theorem unwrap_frames_roundtrip ps trailer status :
  Forall (fun p => Z.of_nat (length p) < 2 ^ 32) ps -> Z.of_nat (length trailer) < 2 ^ 32 ->
  parseTrailerFrameStatus 2 trailer = Ok status ->
  unwrapJSONEnvelopeFrames (concat (map (frame 0) ps)) = Ok (ps, #"ok") /\
  unwrapJSONEnvelopeFrames (concat (map (frame 0) ps) ++ frame 2 trailer) = Ok (ps, status).
Proof.
  intros Hps Ht Hst. unfold unwrapJSONEnvelopeFrames. split.
  - pose proof (unwrap_frames_messages ps _ [] [] #"ok" Hps (Nat.le_refl _)) as H. rewrite app_nil_r in H.
    rewrite H. by destruct (_ - _)%nat.
  - rewrite unwrap_frames_messages; [|done|rewrite length_app; lia]. cbn [app].
    pose proof (frames_length ps) as Hl. rewrite length_app.
    destruct (_ + _ - length ps)%nat as [|n] eqn:En; [cbn in En; lia|].
    pose proof (next_frame_frame 2 trailer [] ltac:(lia) Ht) as Hn. rewrite app_nil_r in Hn.
    unfold frame at 1. cbn [unwrap_frames].
    change (byte_of_Z 2 :: be32 (Z.of_nat (length trailer)) ++ trailer) with (frame 2 trailer). rewrite Hn.
    cbn [Z.land Pos.land Z.eqb negb]. rewrite Hst.
    destruct n; cbn [unwrap_frames]; destruct (str_eqb status #"ok") eqn:E; try done; apply str_eqb_eq in E; by subst.
Qed.

(** ** The loops end *)
Lemma next_frame_shorter buf flags p rest : next_frame buf = Ok (flags, p, rest) -> (length rest < length buf)%nat.
Proof.
  destruct buf as [|f [|a [|b [|c [|d l]]]]]; cbn [next_frame]; try done.
  destruct (_ <? _) eqn:E; [done|]. intros [= _ _ <-]. cbn [length]. rewrite length_drop. lia.
Qed.
Lemma unwrap_frames_fuel fuel : forall fuel' buf frames status,
  (length buf <= fuel)%nat -> (length buf <= fuel')%nat ->
  unwrap_frames fuel buf frames status = unwrap_frames fuel' buf frames status.
Proof.
  induction fuel as [|fuel IH]; intros [|fuel'] [|x buf] frames status H1 H2; try done; try (cbn in *; lia).
  cbn [unwrap_frames]. destruct (next_frame (x :: buf)) as [[[flags p] rest]|e] eqn:E; [|done].
  apply next_frame_shorter in E. cbn [length] in *.
  destruct (negb _); [done|]. destruct (negb _); [|apply IH; lia].
  destruct (parseTrailerFrameStatus flags p); [|done]. apply IH; lia.
Qed.

Class ProtoWireLaws {P : ProtoWire} := {
  tag_length : forall b num t n, ConsumeTag b = Ok (num, t, n) -> (1 <= n <= length b)%nat }.
Context {P : ProtoWire} {PL : ProtoWireLaws}.

Lemma parse_fields_fuel nested fuel : forall fuel' b fields,
  (length b <= fuel)%nat -> (length b <= fuel')%nat ->
  parse_fields nested fuel b fields = parse_fields nested fuel' b fields.
Proof using All.
  induction fuel as [|fuel IH]; intros [|fuel'] [|x b] fields H1 H2; try done; try (cbn in *; lia).
  cbn [parse_fields]. destruct (ConsumeTag (x :: b)) as [[[num t] n]|e] eqn:E; [|done].
  apply tag_length in E. destruct (num <=? 0); [done|]. destruct (consume_value _ _ _ _); [|done].
  cbn [length] in *. apply IH; rewrite !length_drop; cbn [length]; lia.
Qed.

Lemma valid_frames_fuel fuel : forall fuel' first buf,
  (length buf <= fuel)%nat -> (length buf <= fuel')%nat -> valid_frames fuel first buf = valid_frames fuel' first buf.
Proof.
  induction fuel as [|fuel IH]; intros [|fuel'] first [|f [|a [|b [|c [|d l]]]]] H1 H2; try done; try (cbn in *; lia).
  cbn [valid_frames]. destruct (bool_decide _); [|done]. destruct (_ <? _); [done|]. destruct (_ && _); [done|].
  cbn [length] in *. apply IH; rewrite length_drop; lia.
Qed.

End Frames.

(** ** A concrete [protowire], for the instances below *)
Fixpoint varint (l : gostring) (shift : Z) (acc : Z) (n : nat) : result gostring (Z * nat) :=
  match l with
  | [] => Err #"unexpected EOF"
  | c :: l =>
      let acc := acc + Z.shiftl (Z.land (byteval c) 127) shift in
      if byteval c <? 128 then Ok (acc mod 2 ^ 64, S n) else varint l (shift + 7) acc (S n)
  end.
Definition fixed (size : nat) (l : gostring) : result gostring (Z * nat) :=
  if (length l <? size)%nat then Err #"unexpected EOF" else Ok (big_endian (reverse (take size l)), size).
Definition bytes_value (l : gostring) : result gostring (gostring * nat) :=
  '(len, n) ← varint l 0 0 0;
  if Z.of_nat (length l - n) <? len then Err #"unexpected EOF"
  else Ok (take (Z.to_nat len) (drop n l), n + Z.to_nat len)%nat.
Definition tag (l : gostring) : result gostring (Z * Z * nat) :=
  '(v, n) ← varint l 0 0 0; Ok (Z.shiftr v 3, Z.land v 7, n).
#[local] Instance wire_instance : ProtoWire := {|
  ConsumeTag := tag; ConsumeVarint := fun l => varint l 0 0 0; ConsumeFixed32 := fixed 4; ConsumeFixed64 := fixed 8;
  ConsumeBytes := bytes_value; ConsumeGroup := fun _ _ => Err #"unexpected end group";
  ConsumeField := fun l => '(num, t, n) ← tag l;
    m ← (if t =? VarintType then snd <$> varint (drop n l) 0 0 0
         else if t =? Fixed32Type then snd <$> fixed 4 (drop n l)
         else if t =? Fixed64Type then snd <$> fixed 8 (drop n l)
         else if t =? BytesType then snd <$> bytes_value (drop n l) else Err #"unexpected end group");
    Ok (num, t, n + m)%nat |}.

Lemma varint_length l : forall shift acc n v m, varint l shift acc n = Ok (v, m) -> (n < m <= n + length l)%nat.
Proof.
  induction l as [|c l IH]; intros shift acc n v m; cbn [varint]; [done|].
  destruct (_ <? _); [intros [= _ <-]; cbn; lia|]. intros Hv%IH. cbn. lia.
Qed.
#[local] Instance wire_instance_laws : ProtoWireLaws.
Proof.
  split. intros b num t n. cbn. unfold tag. destruct (varint b 0 0 0) as [[v m]|e] eqn:E; [|done].
  apply varint_length in E. intros [= _ _ <-]. lia.
Qed.

(** {"error":{"code":"internal"}} *)
Definition demo_trailer : gostring :=
  let q := ["034"%char] in
  #"{" ++ q ++ #"error" ++ q ++ #":{" ++ q ++ #"code" ++ q ++ #":" ++ q ++ #"internal" ++ q ++ #"}}".

Lemma unwrap_frames_roundtrip_witness :
  unwrapJSONEnvelopeFrames (U:=ascii_unicode) (frame 0 #"{}" ++ frame 0 #"[1]" ++ frame 2 demo_trailer) =
  Ok ([ #"{}"; #"[1]"], #"connect-error:internal").
Proof.
  apply (unwrap_frames_roundtrip (U:=ascii_unicode) [ #"{}"; #"[1]"] demo_trailer).
  - repeat constructor.
  - reflexivity.
  - vm_compute. reflexivity.
Defined.

